(* ===== verification/_CoqProject ===== *)
-Q . S2P
Prelude.v
Bits.v
PatMem.v
PrefixCode.v
Patricia.v
PatState.v
PatTree.v
PatPath.v
PatSearch.v
PatDemo.v
PatInsert.v
PatRemove.v
PatWalk.v
PatPrefix.v
PatClient.v
PatTheorems.v
ArraySearch.v
DigitTrie.v
Game.v
GameProofs.v
CryptoApi.v
BgpsecLib.v
Bgpsec.v
BgpsecProofs.v
EvPool.v
EvLogic.v
EvInv.v
EvThreads.v
EvTheorems.v
Arrays.v
Rc4.v
Rc4Proofs.v
KeyLoad.v
KeyLoadProofs.v
KeyCopy.v
KeyCopyProofs.v
Tinyweb.v
TinywebProofs.v
Notes.v
NotesProofs.v
TinyDaemon.v
TinyDaemonProofs.v
UserHash.v
UserHashProofs.v
Dissembler.v
DissemblerProofs.v
CondQueue.v
CondQueueProofs.v
CondRts.v
SpecKey.v
CondVariantsProofs.v
Ppm.v
PpmProofs.v
SocketTable.v
PollServer.v
SocketProofs.v
PollServerProofs.v
SelectServer.v
SelectServerProofs.v
Sniff.v
SniffProofs.v
SysvSem.v
SysvSemProofs.v
EpollServer.v
EpollServerProofs.v
EchoServer.v
EchoServerProofs.v
PreforkProofs.v
Locks.v
LocksProofs.v
DstEcdsa.v
DstEcdsaProofs.v
FileLines.v
MsgQueue.v
MsgQueueProofs.v
PosixMsg.v
NamelessSem.v
NamedSem.v
Barrier.v
OobServer.v
