(* ===== verification/Prelude.v ===== *)
(** * Verification of the C programs of the [note] repository

    The repository is a collection of notes with C programs under
    [src/Programming].  This library models the ones with logic of their own and
    proves what they do.  Each program is translated function by function into
    Rocq functions over an explicit memory; the theorems are about these
    functions.

    ** The programs and their files

    - The Patricia trie ([Database_perf_test/patricia.c], [patricia.h]) with its
      programs [demo.c] and [perf_test.c].  [Bits] has the bit tests and
      [comp_with_mask]; [PatMem] the structs and the pointer memory;
      [PrefixCode] the prefix objects (parsing, printing, reference counts);
      [Patricia] the trie operations; [PatDemo] the demo helpers and both
      [main]s.  Proofs: [PatState] (the memory without the trie, and the store
      of prefixes), [PatTree] (the inductive shape of a trie, its
      well-formedness and its content as a finite map from bit strings),
      [PatPath] (paths and contexts), [PatSearch], [PatInsert], [PatRemove],
      [PatWalk], [PatPrefix] (one file per group of operations), [PatClient]
      (the interface [TrieSpec] against which the demo operations are proved)
      and [PatTheorems] (the properties, with concrete instances).
    - Two smaller lookup tests of the same directory: [ArraySearch]
      ([array_test.c], binary search) and [DigitTrie] ([trie_test.c], a ten-way
      trie); and a table of users on the uthash macros, [UserHash] and
      [UserHashProofs] ([uthash_test.c]).
    - The game of chance
      ([hacking_the_art_of_exploitation_booksrc/game_of_chance.c]): [Game] is
      the program over its input characters and data file, [GameProofs] its
      properties.
    - The SRx crypto API
      ([openssl_util_code/srxcryptoapi-VariousKeyManipulation.c]): [CryptoApi]
      has the initialization, which reads a configuration and binds the methods
      of a crypto plug-in, and its properties; [KeyLoad] loads keys from files
      into the memory of the plug-in, [KeyLoadProofs] has the properties,
      alone and together with the plug-in.
    - The BGPsec crypto plug-in that such a binding loads
      ([openssl_util_code/bgpsec_openssl-VariousKeyManipulation.c]): [BgpsecLib]
      has the libraries it is built on as parameters and its memory, [Bgpsec]
      the code (path verification, signing, key store), [BgpsecProofs] the
      properties and a concrete instance of the parameters.  [KeyCopy] has its
      wrappers that copy a key and set its octets, on the memory of [KeyLoad],
      and [KeyCopyProofs] their properties.
    - The ECDSA driver of a DNS server in the same directory ([ecdsa_link.c]):
      [DstEcdsa] has its functions over a memory of reference-counted keys, with
      libcrypto and the ISC library as parameters, [DstEcdsaProofs] the
      properties.
    - The epoll thread pool ([io_epoll_pthread.c], [mng_io.c] and [mng_thread.c]
      in [alsp/src/appendix/io_epoll]), a server whose listener, poller,
      scheduler and four worker threads share queues under mutexes and condition
      variables: [EvPool] has the threads as programs over the shared memory and
      their interleaving, [EvLogic] a rely-guarantee logic for such programs,
      [EvInv] the invariant and what each thread guarantees, [EvThreads] the
      proof that every thread function keeps to it, [EvTheorems] the properties
      and concrete runs.
    - The attack on RC4
      ([hacking_the_art_of_exploitation_booksrc/fms.c]): [Rc4] has the cipher and
      the program, [Rc4Proofs] the properties.
    - Two programs that share a file of notes ([notetaker.c], [notesearch.c] in
      the same directory): [Notes], [NotesProofs]; and a web server
      ([tinyweb.c], [hacking-network.h]): [Tinyweb], [TinywebProofs], and the
      same server as a daemon that logs ([tinywebd.c]): [TinyDaemon],
      [TinyDaemonProofs].
    - A translator of machine code to printable machine code ([dissembler.c] of
      the same directory): [Dissembler] is the program, [DissemblerProofs] a
      machine for the instructions it uses and what its output does on it; and
      two programs that find passwords with a matrix of hashes ([ppm_gen.c],
      [ppm_crack.c]): [Ppm], [PpmProofs].
    - The packet sniffers of the same directory ([decode_sniff.c],
      [raw_tcpsniff.c], [pcap_sniff.c], with [dump] of [hacking.h] and the
      headers of [hacking-network.h]): [Sniff], [SniffProofs].
    - Examples for system calls ([alsp/src]): a queue between threads with a
      condition variable ([8.pthread/pthread_cond.c],
      [10.realtime/pthread_cond_rts.c]), as a step relation in [CondQueue],
      [CondQueueProofs], and on top of it the signals of the second program,
      [CondRts], and the program with thread-specific data
      ([8.pthread/pthread_speckey.c]), [SpecKey], both with their properties in
      [CondVariantsProofs]; and the servers of [7.io_multiplexing] with [poll]
      ([io_poll.c], [io_poll_LT.c]) and [select] ([io_select.c], [io_select2.c]):
      [SocketTable] has the table of sockets that they share, over an interface
      for its elements, with its lemmas in [SocketProofs]; [PollServer],
      [PollServerProofs], [SelectServer] and [SelectServerProofs] the servers.
      Those with [epoll] ([io_epoll.c], [io_epoll_trigger.c]), against a network
      that connects, sends and closes at any time, are in [EpollServer] and
      [EpollServerProofs].
    - More of them: processes in a critical section under a System V semaphore
      ([5.ipc/sysv/lib_sysv_sem.c], [sysv_sem.c], [sysv_sem_waitforzero.c]),
      [SysvSem], [SysvSemProofs]; the echo servers with a pool of processes
      ([6.io_interface/socket/in_stream_serv1.c], [in_stream_serv2.c],
      [in_stream_serv3.c], [un_stream_serv.c]), [EchoServer], with
      [EchoServerProofs] for the children and [PreforkProofs] for the server that
      keeps its pool full; and the threads around one lock of [8.pthread]
      ([pthread_mutex.c], [pthread_mutexattr.c], [pthread_mutex_type.c],
      [pthread_mutex_trylock.c], [pthread_spinlock.c], [pthread_rwlock.c]), as
      lists of instructions, in [Locks] and [LocksProofs].
    - Processes that exchange messages: senders and receivers of a System V queue
      ([5.ipc/sysv/lib_sysv_msg.c], [sysv_msg.c], [sysv_msg_regex.c]), [MsgQueue],
      [MsgQueueProofs], and of a POSIX queue ([5.ipc/posix/posix_msg.c]),
      [PosixMsg], both over the files of lines of [FileLines]; a
      server with urgent data ([6.io_interface/socket/in_stream_serv_OOB.c]),
      [OobServer].  Processes and threads that wait for each
      other at POSIX semaphores ([5.ipc/posix/posix_nameless_sem.c],
      [posix_named_sem.c]) and a barrier ([8.pthread/pthread_barrier.c]):
      [NamelessSem], [NamedSem], [Barrier].
    - [Arrays] has the bounded arrays, the strings in them and the loops that the
      book's and the examples' programs work on.

    This file holds what they share: the outcomes of C computations and the
    monad [M] of a component's memory, machine integers, lists and longest
    common prefixes, sums over lists, relations without infinite runs, and two
    assertions: [runs] (total correctness: the code returns, without a fault, in a
    state such that ...) and [ht] (an invariant of programs that may also wait for
    input forever).

    ** Modelling conventions

    A pointer is an [option positive]; each kind of object has its own finite
    map from addresses to contents.  A null, freed or out-of-range access, a
    failed [assert], signed overflow and [exit] are faults, so a theorem that
    says a computation is [Ok] says that none of them happens.  Unsigned
    arithmetic wraps ([u8] to [u64]).  Text is a list of character codes, and
    what is printed is part of the state.

    Loops that are not structural take fuel.  Trie loops get one more than the
    number of live nodes, which the theorems show to be enough because each
    step goes to a node further from the root, or nearer to it; binary search
    gets 33 calls, enough for any [int] range; loops that read input or a file get one
    more than the number of characters left, since each iteration that goes on
    consumes a character, and a program that runs out of input where it would
    wait forever ends in [OutOfFuel]; the loops over the file of notes get one
    more than the file's length, since each consumes a character.  The
    dissembler's last loop gets 14 passes, after which its counter has ended it,
    and its loop over words the length of the code; the loops over sockets get
    their count, since each step goes on or takes a socket out.  The one loop of
    the RC4 attack without a fixed bound gets the amount by which its variable is
    negative.  The thread pool, the thread queue, the semaphore and message
    programs, the [epoll] and echo servers, the locks and the barrier need no fuel: a run is a finite
    sequence of steps of the threads, processes, signals and clients, and the
    properties hold after every such sequence; that a program ends is that no
    sequence of its steps is infinite.

    ** What the theorems show

    - Trie: insertion, exact and longest-prefix search, and removal implement
      the corresponding operations on a finite map from prefixes to nodes, for
      every trie that represents such a map, keep it represented, and never
      fault ([lookup_inserts], [lookup_finds], [search_exact_correct],
      [search_best2_longest], [remove_deletes]); clearing frees everything
      ([clear_frees_all]); walks visit every prefix once ([process_visits_all],
      [walk_inorder_counts]); any sequence of operations refines the map
      and prints what the map gives ([run_ops_refines]) and leaks nothing ([session_no_leak]); the programs
      run to the end ([demo_main_output], [perf_main_completes]); the bit
      routines equal their specification ([comp_with_mask_bits],
      [first_differ_is_lcp]); printing and parsing are inverse
      ([toa_ascii_roundtrip]).
    - Lookup tests: [binarySearch_correct], [trie_load_search]; the users table
      implements a finite map with an order of the users, which the sorts put in
      the order of names or ids, and leaks nothing ([user_ops_refine],
      [uthash_main_answers]); sorting by id needs ids that are not too far apart
      ([id_sort_overflows]).
    - Game: accounts stay non-negative ([credits_never_negative]), wagers,
      matches and card choices are right ([take_wager_spec],
      [dealer_match_exact], [changing_pick_wins]), the data file keeps accounts
      ([update_get_roundtrip]).
    - BGPsec: verification accepts every validly signed path, and only these
      unless a verification ends in an error ([verify_path_correct],
      [ecdsa_error_accepted]); signing with a key or a registered key id
      produces that key's signature ([sign_with_key_ok], [register_then_sign]);
      the first key registered for an AS number is found ([register_lookup],
      [one_key_per_as]); DER keys are told apart
      ([der_classifies]); a copy of a key can be given other octets without
      touching the key ([copy_is_private], [set_keys_spec], [dup_spec]).
    - Crypto API: every method is bound ([init_binds_all]); with a
      usable certificate, a private key is loaded as it is in its files or not at
      all, what was read from the key's file is left behind, and a key that is
      not an EC key faults ([load_private_spec]); once registered it signs ([load_register_sign]); a curve point is wrapped in a
      well-formed public key ([ecpoint_der_public]).
    - DNS keys: what is signed verifies ([signature_roundtrip]); keys survive the
      way through a record ([record_roundtrip]) or a file ([key_file_roundtrip]);
      the operations give back what they take from libcrypto, on every path
      ([sign_spec], [verify_spec], [compare_spec], [todns_spec], [fromdns_spec],
      [generate_spec], [tofile_spec], [parse_spec]) but two.
    - Notes: what was saved is found, by its user and with the keyword, when
      the notes can be printed ([notes_roundtrip]); the search is sound, and complete for keywords that do
      not repeat their first character ([search_note_correct]).
    - Web server: requests that fit the arrays are answered right while there
      is a free descriptor, with a file that is cut short if [send] cuts it
      ([tinyweb_serves]); a session of the daemon with enough descriptors
      answers all its clients and logs each of them ([daemon_session]).
    - Thread pool: under every interleaving the queues are first-in first-out
      ([fifo_delivery]), never popped when empty ([pop_never_underflows]), dealt
      to in turn ([round_robin]) and, while they do not run past their end,
      drained ([worker_drains]); no wake-up is
      lost ([no_lost_wakeup]); the connection counter is exact
      ([open_files_counted]); and, as long as no queue has used up its array and
      the system calls behave, no thread faults ([calm_no_fault]).
    - RC4: the scheduling keeps a permutation ([ksa_permutation]), the cipher is
      the textbook one ([rc4_textbook]), the attack terminates with a correct
      table ([fms_main_completes]) and a resolved vector votes for the true key
      byte ([fms_recovers_key]).
    - Dissembler: executing the output leaves the machine code at the stack
      pointer, and with the default characters there is always an output,
      for code that the options do not truncate ([dissembler_builds]); the words that are subtracted make the target
      ([gen_computes]).  Password matrix: a password is found exactly when there
      is one ([crack_correct]).
    - Thread queue: safe under every interleaving ([cond_queue_safe]), first-in
      first-out while it is filled only when empty ([cond_queue_fifo]), and
      items are taken out ([pending_is_pulled]); finished jobs are reported once
      and in order ([rts_reports]) and the sums of the threads are right
      ([speckey_sums]).
    - Sniffers: frames are decoded and their payload can be read back from the
      dump ([caught_frame], [sniff_frames], [dump_ok]), and packets are read out
      of bounds exactly when too little of them was captured
      ([caught_packet_reads]).
    - Servers: a round never faults and serves each reported socket once
      ([poll_round_serves]), or at most once ([select_round_serves]); the table
      is the set of open sockets ([poll_table_complete]).  With [epoll] nothing
      that is sent is lost or reordered ([served_streams]) and with level triggers
      all of it is read and all clients are served ([level_serves_all]).
    - Semaphores: mutual exclusion, also when a process aborts
      ([critical_section]), and the end of every run ([sysv_sem_completes]).
    - Echo servers: the children send back what they receive ([echo_exact]); the
      numbers of children in the server that replaces them ([pool_counts]), and
      whom it sends signals ([signals_children], [kill_stops_all]).
    - Message queues: what is taken from a queue is what was put in, in order
      ([messages_delivered], [posix_fifo]); files that list messages become these
      messages ([file_roundtrip]), and a receiver prints them
      ([receiver_prints_lines], [posix_receiver_prints]); which lines end a sender
      ([sender_faults]).  Urgent data: the lines hold what was received
      ([oob_lines]).
    - POSIX semaphores and barrier: exclusion ([nameless_exclusion],
      [named_exclusion]) and how the programs end ([nameless_ends],
      [barrier_completes]).
    - Locks: the programs exclude each other, lose no update and end
      ([lock_programs_complete], [rw_final], [spin_bound]); locking a mutex twice
      hangs unless it checks for errors ([locking_twice_hangs]).
    - Behaviour that is not intended, proved as such: [ecdsa_error_accepted],
      [init_local_fallback], [one_key_per_as], [unregister_frees_der_as_key],
      [sign_failure_double_free], [empty_path_accepted], [der_gap_overread],
      [load_bad_cert_faults], [load_public_leaks], [note_99_overflows],
      [search_note_misses], [unterminated_request_faults], [tinyweb_runs_out],
      [request_overflows_log], [clear_leaves_head_dangling],
      [make_and_lookup_malformed],
      [array_main_always_index_0], [trie_nondigit_faults],
      [take_wager_overflow], [input_name_overflows], [overflow_blocks_queue],
      [pop_past_end], [poll_race_exits], [listener_port_ignored],
      [ninja_drops_byte], [insert_overwrites], [full_table_leaks],
      [select_misses], [select2_accept_error], [id_sort_overflows],
      [raw_sniff_overreads], [no_semaphore_no_exclusion], [zero_waits_forever],
      [edge_strands], [short_send_loses], [recv_failure_leaks], [merged_signal],
      [kill_orphans], [kill_strays], [verify_length_leaks],
      [unset_item_processed], [stale_item_processed], [blank_line_faults],
      [long_number_overflows], [last_character_lost], [no_file_faults],
      [nameless_blocks], [named_eof_blocks], [attach_race_faults],
      [full_buffer_closes], [full_buffer_overreads], [failed_recv_underflows].

    ** What is not modelled

    Code compiled out in the repository's configuration (IPv6, Windows, debug
    prints, time measurement, the other key formats of the BGPsec code); the
    OpenSSL, ISC and uthash libraries and the headers that are not in the repository,
    which are parameters with their documented laws as hypotheses; failing
    allocation in the trie programs (the code does not test for it); log output
    of the crypto code; the second [main] of the uthash test; a signal that
    reaches the web daemon while it serves a client; out-of-band data in the
    servers with [poll] and [epoll], and the flags of the handler that
    [in_stream_serv3.c] leaves unset; the OpenSSL command-line tests and the remaining book and system call
    examples, which are mostly input, output and library calls. *)

From stdpp Require Import base gmap list strings relations.
From Stdlib Require Import ZArith Lia.

Local Open Scope Z_scope.

(** ** Outcomes of a C computation

    A C routine either returns, or stops in one of the ways below.  [M S] is
    the state-and-fault monad over the memory [S] of a component. *)
Inductive fault : Set :=
| AssertFail      (** a failed [assert] *)
| BadAccess       (** a null, freed or out-of-range access *)
| IntOverflow     (** signed integer overflow *)
| Exited (code : Z)  (** a call of [exit] *)
| OutOfFuel.      (** the bound on loop iterations was reached *)

Inductive res (A : Type) : Type :=
| Ok (a : A)
| Err (e : fault).
Arguments Ok {A} a.
Arguments Err {A} e.

#[export] Instance fault_eq_dec : EqDecision fault.
Proof. solve_decision. Defined.
#[export] Instance res_eq_dec `{EqDecision A} : EqDecision (res A).
Proof. solve_decision. Defined.

Definition M (S A : Type) : Type := S → res (A * S).

#[export] Instance M_ret {S} : MRet (M S) := λ A a s, Ok (a, s).
#[export] Instance M_bind {S} : MBind (M S) := λ A B f c s,
  match c s with Ok (a, s') => f a s' | Err e => Err e end.

Definition fail {S A} (e : fault) : M S A := λ _, Err e.
Definition gets {S A} (f : S → A) : M S A := λ s, Ok (f s, s).
Definition modify {S} (f : S → S) : M S unit := λ s, Ok (tt, f s).
Definition assert {S} (b : bool) : M S unit :=
  if b then mret tt else fail AssertFail.
Definition from_option_or {S A} (e : fault) (o : option A) : M S A :=
  match o with Some a => mret a | None => fail e end.

Lemma bind_ok {S A B} (c : M S A) (k : A → M S B) s a s' :
  c s = Ok (a, s') → (c ≫= k) s = k a s'.
Proof. intros H. unfold mbind, M_bind. by rewrite H. Qed.

Lemma bind_err {S A B} (c : M S A) (k : A → M S B) s e :
  c s = Err e → (c ≫= k) s = Err e.
Proof. intros H. unfold mbind, M_bind. by rewrite H. Qed.

Lemma bind_inv {S A B} (c : M S A) (k : A → M S B) s b s'' :
  (c ≫= k) s = Ok (b, s'') → ∃ a s', c s = Ok (a, s') ∧ k a s' = Ok (b, s'').
Proof.
  unfold mbind, M_bind. destruct (c s) as [[a s']|] eqn:E; [|done]. eauto.
Qed.

Lemma assert_true {S} (b : bool) (s : S) : b = true → assert b s = Ok (tt, s).
Proof. by intros ->. Qed.

(** The same outcomes without a memory, and their lifting. *)
#[export] Instance res_ret : MRet res := λ A a, Ok a.
#[export] Instance res_bind : MBind res := λ A B f c,
  match c with Ok a => f a | Err e => Err e end.

Definition lift {S A} (r : res A) : M S A := λ s,
  match r with Ok a => Ok (a, s) | Err e => Err e end.
Definition res_of {A} (e : fault) (o : option A) : res A :=
  match o with Some a => Ok a | None => Err e end.

(** ** Pointers *)
Abbreviation loc := positive (only parsing).
Abbreviation ptr := (option positive) (only parsing).
Abbreviation NULL := (@None positive) (only parsing).

(** ** Text: the character codes before the terminating NUL *)
Abbreviation cstring := (list Z) (only parsing).

Definition cs (s : string) : list Z :=
  (λ a, Z.of_N (Ascii.N_of_ascii a)) <$> String.list_ascii_of_string s.

(** ** Machine integers *)
Definition INT_MAX : Z := 2147483647.
Definition INT_MIN : Z := -2147483648.
Definition is_int (z : Z) : Prop := INT_MIN ≤ z ≤ INT_MAX.
Definition is_byte (z : Z) : Prop := 0 ≤ z < 256.

Definition int_ok (z : Z) : bool := (INT_MIN <=? z) && (z <=? INT_MAX).
(** The value of a signed [int] expression; overflow is undefined. *)
Definition chk_int {S} (z : Z) : M S Z :=
  if int_ok z then mret z else fail IntOverflow.
(** Conversions to the unsigned types wrap. *)
Definition u8 (z : Z) : Z := z mod 2 ^ 8.
Definition u16 (z : Z) : Z := z mod 2 ^ 16.
Definition u32 (z : Z) : Z := z mod 2 ^ 32.
Definition u64 (z : Z) : Z := z mod 2 ^ 64.
(** Conversion to a signed [int] (two's complement). *)
Definition i32 (z : Z) : Z := (z + 2 ^ 31) mod 2 ^ 32 - 2 ^ 31.

#[export] Instance is_byte_dec z : Decision (is_byte z).
Proof. unfold is_byte. apply _. Defined.
#[export] Instance is_int_dec z : Decision (is_int z).
Proof. unfold is_int. apply _. Defined.

Lemma int_ok_true z : is_int z → int_ok z = true.
Proof. unfold is_int, int_ok. intros. apply andb_true_iff. lia. Qed.

Lemma chk_int_ok {S} z (s : S) : is_int z → chk_int z s = Ok (z, s).
Proof. intros H. unfold chk_int. by rewrite int_ok_true. Qed.

Lemma u8_small z : is_byte z → u8 z = z.
Proof. unfold is_byte, u8. intros. by apply Z.mod_small. Qed.
Lemma u16_small z : 0 ≤ z < 2 ^ 16 → u16 z = z.
Proof. unfold u16. intros. by apply Z.mod_small. Qed.
Lemma u32_small z : 0 ≤ z < 2 ^ 32 → u32 z = z.
Proof. unfold u32. intros. by apply Z.mod_small. Qed.
Lemma i32_small z : is_int z → i32 z = z.
Proof.
  unfold is_int, i32, INT_MIN, INT_MAX. intros.
  rewrite Z.mod_small by lia. lia.
Qed.

(** ** Lists *)
Lemma take_eq_lookup {A} (n : nat) (l k : list A) :
  take n l = take n k ↔ ∀ i, (i < n)%nat → l !! i = k !! i.
Proof.
  split.
  - intros H i Hi. by rewrite <-(lookup_take_lt l n i Hi), H, lookup_take_lt.
  - intros H. apply list_eq. intros i.
    destruct (decide (i < n)%nat) as [Hi|Hi].
    + rewrite !lookup_take_lt by done. by apply H.
    + by rewrite !lookup_take_ge by lia.
Qed.

(** Longest common prefix of two lists. *)
Fixpoint lcp {A} `{EqDecision A} (l k : list A) : nat :=
  match l, k with
  | x :: l', y :: k' => if decide (x = y) then S (lcp l' k') else 0
  | _, _ => 0
  end.

Section lcp.
Context {A : Type} `{EqDecision A}.
Implicit Types l k : list A.

Lemma lcp_length_l l k : (lcp l k ≤ length l)%nat.
Proof. revert k. induction l; intros [|??]; simpl; repeat case_decide; simpl; try lia. specialize (IHl l0). lia. Qed.
Lemma lcp_comm l k : lcp l k = lcp k l.
Proof. revert k. induction l; intros [|??]; simpl; repeat case_decide; subst; try done. by rewrite IHl. Qed.
Lemma lcp_length_r l k : (lcp l k ≤ length k)%nat.
Proof. rewrite lcp_comm. apply lcp_length_l. Qed.
Lemma lcp_agree l k i : (i < lcp l k)%nat → l !! i = k !! i.
Proof.
  revert k i. induction l as [|x l IH]; intros [|y k] i; simpl; try lia.
  case_decide; [|lia]. subst. destruct i; simpl; [done|]. intros. apply IH. lia.
Qed.
Lemma lcp_differ l k :
  (lcp l k < length l)%nat → (lcp l k < length k)%nat → l !! lcp l k ≠ k !! lcp l k.
Proof.
  revert k. induction l as [|x l IH]; intros [|y k]; simpl; try lia.
  case_decide; simpl; [|congruence]. intros. apply IH; lia.
Qed.
(** A length with agreement below and a difference at it is the lcp. *)
Lemma lcp_unique l k n d :
  (d ≤ n)%nat → (n ≤ length l)%nat → (n ≤ length k)%nat →
  (∀ i, (i < d)%nat → l !! i = k !! i) → ((d < n)%nat → l !! d ≠ k !! d) →
  d = Nat.min n (lcp l k).
Proof.
  intros Hd Hl Hk Hag Hdif.
  destruct (decide (lcp l k < d)%nat) as [Hlt|Hge].
  - exfalso. apply (lcp_differ l k); [lia..|]. by apply Hag.
  - destruct (decide (d < n)%nat) as [Hn|Hn]; [|lia].
    destruct (decide (d < lcp l k)%nat) as [Hlt|]; [|lia].
    exfalso. apply (Hdif Hn). by apply lcp_agree.
Qed.
Lemma lcp_take n l k : (n ≤ lcp l k)%nat → take n l = take n k.
Proof. intros. apply take_eq_lookup. intros. apply lcp_agree. lia. Qed.
(** The lcp of two prefixes, from the lists they are prefixes of. *)
Lemma lcp_prefix l k l' k' :
  l `prefix_of` l' → k `prefix_of` k' →
  ((length l `min` length k) `min` lcp l' k')%nat = lcp l k.
Proof.
  intros [zl ->] [zk ->]. symmetry.
  pose proof (lcp_length_l l k). pose proof (lcp_length_r l k).
  apply lcp_unique; rewrite ?length_app; [lia..| |].
  - intros i Hi. rewrite !lookup_app_l by lia. by apply lcp_agree.
  - intros Hd. rewrite !lookup_app_l by lia. apply lcp_differ; lia.
Qed.
End lcp.

(** ** Total-correctness assertions

    [runs c s Q]: from [s] the computation [c] returns, and [Q] holds of the
    result and the final memory.  It excludes every fault, running out of fuel
    included. *)
Definition runs {S A} (c : M S A) (s : S) (Q : A → S → Prop) : Prop :=
  ∃ a s', c s = Ok (a, s') ∧ Q a s'.

Section runs.
Context {S : Type}.
Implicit Types s : S.

Lemma runs_ret {A} (a : A) s (Q : A → S → Prop) : Q a s → runs (mret a) s Q.
Proof. intros. by exists a, s. Qed.
Lemma runs_inv {A} (c : M S A) s (Q : A → S → Prop) a s' : runs c s Q → c s = Ok (a, s') → Q a s'.
Proof. intros (b & s1 & E & H) E'. rewrite E in E'. by injection E' as <- <-. Qed.
Lemma runs_bind {A B} (c : M S A) (k : A → M S B) s Q :
  runs c s (λ a s', runs (k a) s' Q) → runs (c ≫= k) s Q.
Proof.
  intros (a & s' & H & b & s'' & Hk & HQ). exists b, s''. split; [|done].
  by rewrite (bind_ok _ _ _ _ _ H).
Qed.
Lemma runs_bind_inv {A B} (c : M S A) (k : A → M S B) s Q :
  runs (c ≫= k) s Q → runs c s (λ a s', runs (k a) s' Q).
Proof.
  intros (b & s'' & H & HQ). apply bind_inv in H as (a & s' & Hc & Hk).
  exists a, s'. split; [done|]. by exists b, s''.
Qed.
Lemma runs_seq {A B D} (c : M S A) (k : A → M S B) (k' : B → M S D) s Q :
  runs (c ≫= k) s (λ b s', runs (k' b) s' Q) → runs (c ≫= λ a, k a ≫= k') s Q.
Proof.
  intros (a & s' & Hc & b & s'' & Hk & HQ)%runs_bind_inv.
  destruct HQ as (d & s3 & Hk' & HQ). exists d, s3. split; [|done].
  rewrite (bind_ok _ _ _ _ _ Hc). by rewrite (bind_ok _ _ _ _ _ Hk).
Qed.
Lemma runs_mono {A} (c : M S A) s (Q Q' : A → S → Prop) :
  runs c s Q → (∀ a s', Q a s' → Q' a s') → runs c s Q'.
Proof. intros (a & s' & H & HQ) HH. exists a, s'. eauto. Qed.
Lemma runs_assert (b : bool) s Q : b = true → Q tt s → runs (assert b) s Q.
Proof. intros -> H. by apply runs_ret. Qed.
Lemma runs_gets {A} (f : S → A) s Q : Q (f s) s → runs (gets f) s Q.
Proof. intros. by exists (f s), s. Qed.
Lemma runs_modify (f : S → S) s Q : Q tt (f s) → runs (modify f) s Q.
Proof. intros. by exists tt, (f s). Qed.
Lemma runs_lift {A} (rr : res A) a s Q : rr = Ok a → Q a s → runs (lift rr) s Q.
Proof. intros -> ?. by exists a, s. Qed.
Lemma runs_chk_int z s Q : is_int z → Q z s → runs (chk_int z) s Q.
Proof. intros. exists z, s. by rewrite chk_int_ok. Qed.
Lemma runs_from_option {A} e (o : option A) a s Q :
  o = Some a → Q a s → runs (from_option_or e o) s Q.
Proof. intros -> ?. by apply runs_ret. Qed.
End runs.

(** ** Safety assertions

    [ht P c Q]: whenever [c] started in [P] returns, [Q] holds.  It is used for
    invariants of interactive programs, which may also stop or wait forever. *)
Definition ht {S A} (P : S → Prop) (c : M S A) (Q : A → S → Prop) : Prop :=
  ∀ s a s', P s → c s = Ok (a, s') → Q a s'.

Section ht.
Context {S : Type}.
Implicit Types P : S → Prop.

Lemma ht_ret {A} P (a : A) (Q : A → S → Prop) : (∀ s, P s → Q a s) → ht P (mret a) Q.
Proof. intros H s b s' HP [= <- <-]. auto. Qed.
Lemma ht_bind {A B} P (c : M S A) (k : A → M S B) R Q :
  ht P c R → (∀ a, ht (R a) (k a) Q) → ht P (c ≫= k) Q.
Proof. intros Hc Hk s b s'' HP (a & s' & E & E')%bind_inv. eapply Hk, E'. by eapply Hc. Qed.
Lemma ht_mono {A} (P P' : S → Prop) (c : M S A) (Q Q' : A → S → Prop) :
  ht P c Q → (∀ s, P' s → P s) → (∀ a s, Q a s → Q' a s) → ht P' c Q'.
Proof. intros H HP HQ s a s' ??. eauto. Qed.
Lemma ht_fail {A} P e (Q : A → S → Prop) : ht P (fail e) Q.
Proof. by intros s a s' ? ?. Qed.
Lemma ht_gets {A} P (f : S → A) (Q : A → S → Prop) : (∀ s, P s → Q (f s) s) → ht P (gets f) Q.
Proof. intros H s a s' HP [= <- <-]. auto. Qed.
Lemma ht_modify P (f : S → S) (Q : unit → S → Prop) : (∀ s, P s → Q tt (f s)) → ht P (modify f) Q.
Proof. intros H s [] s' HP [= <-]. auto. Qed.
Lemma ht_chk_int P z (Q : Z → S → Prop) : (∀ s, P s → is_int z → Q z s) → ht P (chk_int z) Q.
Proof.
  intros H s a s' HP. unfold chk_int. destruct (int_ok z) eqn:E; [|done]. intros [= <- <-].
  apply H; [done|]. unfold int_ok in E. apply andb_true_iff in E as [?%Z.leb_le ?%Z.leb_le]. done.
Qed.
Lemma ht_from_option {A} P e (o : option A) (Q : A → S → Prop) :
  (∀ a s, o = Some a → P s → Q a s) → ht P (from_option_or e o) Q.
Proof. intros H s a s' HP. destruct o; [|done]. intros [= <- <-]. auto. Qed.
Lemma ht_lift {A} P (r : res A) (Q : A → S → Prop) :
  (∀ a s, r = Ok a → P s → Q a s) → ht P (lift r) Q.
Proof. intros H s a s' HP. unfold lift. destruct r; [|done]. intros [= <- <-]. auto. Qed.
Lemma ht_pure {A} P (c : M S A) Q (φ : Prop) : (φ → ht P c Q) → ht (λ s, φ ∧ P s) c Q.
Proof. intros H s a s' [Hφ HP]. by apply H. Qed.
End ht.

Create HintDb crun.
#[export] Hint Resolve runs_ret runs_assert runs_gets runs_modify : crun.

(** [cstep]: expose the next command of a sequence. *)
Ltac cstep := first [apply runs_bind | apply runs_ret].

(** ** Sums and runs *)
Section sums.
Context {A : Type} (f : A → nat).
Lemma sum_insert l k x y : l !! k = Some x → (sum_list_with f (<[k := y]> l) + f x = sum_list_with f l + f y)%nat.
Proof.
  revert k. induction l as [|z l IH]; intros [|k] Hk; [done|done| |].
  - injection Hk as ->. simpl. lia.
  - specialize (IH k Hk). simpl. lia.
Qed.
Lemma sum_lookup l k x : l !! k = Some x → (f x ≤ sum_list_with f l)%nat.
Proof. revert k. induction l as [|z l IH]; intros [|k] Hk; simplify_eq/=; [lia|]. specialize (IH k Hk). lia. Qed.
Lemma sum_two l j k x y : l !! j = Some x → l !! k = Some y → j ≠ k → (f x + f y ≤ sum_list_with f l)%nat.
Proof.
  revert j k. induction l as [|z l IH]; intros [|j] [|k] Hj Hk Hne; simplify_eq/=.
  - pose proof (sum_lookup _ _ _ Hk). lia.
  - pose proof (sum_lookup _ _ _ Hj). lia.
  - specialize (IH j k Hj Hk ltac:(lia)). lia.
Qed.
Lemma sum_zero l : (∀ x, x ∈ l → f x = 0%nat) → sum_list_with f l = 0%nat.
Proof. induction l as [|z l IH]; intros Hl; [done|]. simpl. rewrite (Hl z), IH; [done| |by left]. intros x Hx. apply Hl. by right. Qed.
End sums.

(** A relation that keeps an invariant and decreases a number has no infinite
    runs. *)
Lemma sn_measure {S} (R : relation S) (I : S → Prop) (f : S → nat) :
  (∀ s s', I s → R s s' → I s' ∧ (f s' < f s)%nat) → ∀ s, I s → sn R s.
Proof.
  intros H s. remember (f s) as n eqn:En. revert s En. induction (lt_wf n) as [n _ IH]. intros s -> HI.
  constructor. intros s' Hs. destruct (H s s' HI Hs) as [HI' Hlt]. by eapply IH.
Qed.
Lemma rtc_invariant {S} (R : relation S) (I : S → Prop) : (∀ s s', I s → R s s' → I s') → ∀ s s', rtc R s s' → I s → I s'.
Proof. intros H s s'. induction 1; eauto. Qed.
