(* ===== verification/Bits.v ===== *)
(** * Address bytes and their bits

    The bit-level helpers of [Database_perf_test/patricia.c]: the [BIT_TEST]
    macro on an address, [comp_with_mask], and the loop of [patricia_lookup]
    that finds the first differing bit.  An address is a list of bytes; its
    meaning is the list of its bits, most significant first ([bits_of]). *)

From stdpp Require Import base gmap list.
From Stdlib Require Import ZArith Lia.
From S2P Require Import Prelude.

Local Open Scope Z_scope.

(** ** The code *)

(** [#define BIT_TEST(f, b) ((f) & (b))], used as a truth value. *)
Definition BIT_TEST (f b : Z) : bool := negb (Z.land f b =? 0).

(** [BIT_TEST (addr[bit >> 3], 0x80 >> (bit & 0x07))]. *)
Definition addr_bit (addr : list Z) (bit : Z) : res bool :=
  b ← res_of BadAccess (addr !! Z.to_nat (Z.shiftr bit 3));
  mret (BIT_TEST b (Z.shiftr 0x80 (Z.land bit 0x07))).

(** [memcmp (a, d, n) == 0]; both objects must have [n] bytes. *)
Fixpoint memcmp_eq (a d : list Z) (n : nat) {struct n} : res bool :=
  match n, a, d with
  | O, _, _ => mret true
  | S n, x :: a, y :: d => if x =? y then memcmp_eq a d n else mret false
  | S _, _, _ => Err BadAccess
  end.

Definition comp_with_mask (addr dest : list Z) (mask : Z) : res bool :=
  c ← memcmp_eq addr dest (Z.to_nat (mask / 8));
  if c : bool then
    let n := mask / 8 in
    let m := Z.shiftl (-1) (8 - mask mod 8) in
    if mask mod 8 =? 0 then mret true
    else
      x ← res_of BadAccess (addr !! Z.to_nat n);
      y ← res_of BadAccess (dest !! Z.to_nat n);
      mret (Z.land x m =? Z.land y m)
  else mret false.

(** [for (j = 0; j < 8; j++) if (BIT_TEST (r, (0x80 >> j))) break;] *)
Fixpoint first_set_bit (n : nat) (j r : Z) : Z :=
  match n with
  | O => j
  | S n => if BIT_TEST r (Z.shiftr 0x80 j) then j else first_set_bit n (j + 1) r
  end.

(** The loop over the bytes, from byte [i]; [differ] is the current value of
    [differ_bit].  [n] bounds the remaining iterations. *)
Fixpoint differ_loop (n : nat) (addr test : list Z) (check_bit i differ : Z) : res Z :=
  match n with
  | O => Err OutOfFuel
  | S n =>
      if i * 8 <? check_bit then
        x ← res_of BadAccess (addr !! Z.to_nat i);
        y ← res_of BadAccess (test !! Z.to_nat i);
        let r := Z.lxor x y in
        if r =? 0 then differ_loop n addr test check_bit (i + 1) ((i + 1) * 8)
        else
          let j := first_set_bit 8 0 r in
          if j <? 8 then mret (i * 8 + j) else Err AssertFail
      else mret differ
  end.

Definition first_differ (addr test : list Z) (check_bit : Z) : res Z :=
  d ← differ_loop (S (Z.to_nat check_bit)) addr test check_bit 0 0;
  mret (if check_bit <? d then check_bit else d).

(** ** Bits of bytes *)

Definition byte_bits (b : Z) : list bool :=
  (λ j, Z.testbit b (7 - Z.of_nat j)) <$> seq 0 8.

Definition bits_of (bs : list Z) : list bool := bs ≫= byte_bits.

Lemma length_byte_bits b : length (byte_bits b) = 8%nat.
Proof. done. Qed.

Lemma length_bits_of bs : length (bits_of bs) = (8 * length bs)%nat.
Proof.
  unfold bits_of. induction bs as [|b bs IH]; [done|].
  rewrite bind_cons, length_app, length_byte_bits, IH. simpl. lia.
Qed.

Lemma byte_bits_lookup b (j : nat) :
  (j < 8)%nat → byte_bits b !! j = Some (Z.testbit b (7 - Z.of_nat j)).
Proof.
  intros. unfold byte_bits. rewrite list_lookup_fmap.
  by rewrite lookup_seq_lt.
Qed.

Lemma bits_of_lookup bs (i : nat) :
  bits_of bs !! i = (λ b, Z.testbit b (7 - Z.of_nat (i mod 8))) <$> bs !! (i / 8)%nat.
Proof.
  unfold bits_of. revert i. induction bs as [|b bs IH]; intros i; [by rewrite !lookup_nil|].
  rewrite bind_cons.
  destruct (decide (i < 8)%nat) as [Hi|Hi].
  - rewrite lookup_app_l by (rewrite length_byte_bits; lia).
    rewrite byte_bits_lookup by done.
    rewrite Nat.div_small, Nat.mod_small by done. done.
  - rewrite lookup_app_r by (rewrite length_byte_bits; lia).
    rewrite length_byte_bits, IH.
    assert (∃ k, i = k + 1 * 8)%nat as [k ->] by (exists (i - 8)%nat; lia).
    rewrite Nat.Div0.mod_add, Nat.div_add by lia.
    replace (k + 1 * 8 - 8)%nat with k by lia.
    by rewrite Nat.add_1_r.
Qed.

Lemma testbit_0x80_shift (j i : Z) :
  0 ≤ j → 0 ≤ i → Z.testbit (Z.shiftr 0x80 j) i = bool_decide (i + j = 7).
Proof.
  intros. rewrite Z.shiftr_spec by done.
  change 0x80 with (2 ^ 7).
  rewrite Z.pow2_bits_eqb by lia.
  destruct (Z.eqb_spec 7 (i + j)); case_bool_decide; lia || done.
Qed.

Lemma BIT_TEST_0x80 b (j : Z) :
  0 ≤ j ≤ 7 → BIT_TEST b (Z.shiftr 0x80 j) = Z.testbit b (7 - j).
Proof.
  intros Hj. unfold BIT_TEST.
  assert (Z.land b (Z.shiftr 0x80 j) = if Z.testbit b (7 - j) then 2 ^ (7 - j) else 0) as ->.
  { apply Z.bits_inj'. intros i Hi.
    rewrite Z.land_spec, testbit_0x80_shift by lia.
    destruct (decide (i + j = 7)).
    - rewrite bool_decide_true, andb_true_r by done.
      replace i with (7 - j) by lia.
      destruct (Z.testbit b (7 - j)); [|by rewrite Z.bits_0].
      by rewrite Z.pow2_bits_true by lia.
    - rewrite bool_decide_false, andb_false_r by done.
      destruct (Z.testbit b (7 - j)); [|by rewrite Z.bits_0].
      rewrite Z.pow2_bits_false; lia || done. }
  destruct (Z.testbit b (7 - j)); [|done].
  assert (0 < 2 ^ (7 - j)) by (apply Z.pow_pos_nonneg; lia).
  by destruct (Z.eqb_spec (2 ^ (7 - j)) 0); [lia|].
Qed.

Lemma addr_bit_spec addr (i : nat) x :
  bits_of addr !! i = Some x → addr_bit addr (Z.of_nat i) = Ok x.
Proof.
  intros H. unfold addr_bit. rewrite bits_of_lookup in H.
  rewrite (Z.shiftr_div_pow2 _ 3) by lia. change (2 ^ 3) with (Z.of_nat 8).
  rewrite <-Nat2Z.inj_div, Nat2Z.id.
  destruct (addr !! (i / 8)%nat) as [b|]; simplify_eq/=.
  unfold mret, res_ret. f_equal.
  change 0x07 with (Z.ones 3). rewrite Z.land_ones by lia.
  change (2 ^ 3) with (Z.of_nat 8). rewrite <-Nat2Z.inj_mod.
  apply BIT_TEST_0x80. pose proof (Nat.mod_upper_bound i 8). lia.
Qed.

(** ** [comp_with_mask] compares the first [mask] bits *)

Lemma byte_testbit_high b i : is_byte b → 8 ≤ i → Z.testbit b i = false.
Proof.
  intros [H0 H1] Hi. destruct (decide (b = 0)) as [->|]; [apply Z.bits_0|].
  apply Z.bits_above_log2; [done|].
  assert (Z.log2 b < 8) by (apply Z.log2_lt_pow2; lia). lia.
Qed.

(** Two bytes agree under the mask [-1 << (8 - k)] iff their first [k] bits agree. *)
Lemma byte_mask_eq x y k :
  is_byte x → is_byte y → 0 ≤ k ≤ 8 →
  Z.land x (Z.shiftl (-1) (8 - k)) = Z.land y (Z.shiftl (-1) (8 - k)) ↔
  ∀ j, 0 ≤ j < k → Z.testbit x (7 - j) = Z.testbit y (7 - j).
Proof.
  intros Hx Hy Hk.
  assert (∀ i, 0 ≤ i → Z.testbit (Z.shiftl (-1) (8 - k)) i = bool_decide (8 - k ≤ i)) as Hm.
  { intros i Hi. rewrite Z.shiftl_spec by done. case_bool_decide.
    - rewrite Z.bits_m1 by lia. done.
    - apply Z.testbit_neg_r. lia. }
  split.
  - intros He j Hj.
    apply (f_equal (λ z, Z.testbit z (7 - j))) in He.
    rewrite !Z.land_spec, !Hm in He by lia.
    rewrite bool_decide_true, !andb_true_r in He by lia. done.
  - intros Hb. apply Z.bits_inj'. intros i Hi. rewrite !Z.land_spec, !Hm by done.
    case_bool_decide; [|by rewrite !andb_false_r]. rewrite !andb_true_r.
    destruct (decide (8 ≤ i)).
    + by rewrite !byte_testbit_high by done.
    + replace i with (7 - (7 - i)) by lia. apply Hb. lia.
Qed.

Lemma byte_eq_bits x y :
  is_byte x → is_byte y → x = y ↔ ∀ j, 0 ≤ j < 8 → Z.testbit x (7 - j) = Z.testbit y (7 - j).
Proof.
  intros Hx Hy. rewrite <-byte_mask_eq by (done || lia).
  change (Z.shiftl (-1) (8 - 8)) with (-1). by rewrite !Z.land_m1_r.
Qed.

Lemma memcmp_eq_spec a d n :
  (n ≤ length a)%nat → (n ≤ length d)%nat →
  memcmp_eq a d n = Ok (bool_decide (take n a = take n d)).
Proof.
  revert a d. induction n as [|n IH]; intros a d Ha Hd; [by rewrite bool_decide_true|].
  destruct a as [|x a], d as [|y d]; simpl in *; try lia.
  destruct (Z.eqb_spec x y) as [->|Hne].
  - rewrite IH by lia. f_equal. apply bool_decide_ext. split; [by intros ->|by injection 1].
  - rewrite bool_decide_false; [done|]. congruence.
Qed.

Lemma bits_of_take bs n : bits_of (take n bs) = take (8 * n) (bits_of bs).
Proof.
  unfold bits_of. revert n. induction bs as [|b bs IH]; intros n.
  - rewrite take_nil. symmetry. apply take_nil.
  - destruct n as [|n]; [done|]. change (take (S n) (b :: bs)) with (b :: take n bs).
    rewrite !bind_cons, IH. rewrite take_app_ge by (rewrite length_byte_bits; lia).
    rewrite length_byte_bits. do 2 f_equal. lia.
Qed.

Lemma byte_bits_inj x y : is_byte x → is_byte y → byte_bits x = byte_bits y → x = y.
Proof.
  intros Hx Hy H. apply byte_eq_bits; [done..|]. intros j Hj.
  apply (f_equal (λ l, l !! Z.to_nat j)) in H.
  rewrite !byte_bits_lookup in H by lia. rewrite Z2Nat.id in H by lia. congruence.
Qed.

Lemma bits_of_inj bs cs :
  Forall is_byte bs → Forall is_byte cs → bits_of bs = bits_of cs → bs = cs.
Proof.
  intros Hb. revert cs. induction Hb as [|b bs Hb Hbs IH]; intros cs Hc H.
  - destruct cs; [done|]. apply (f_equal length) in H. rewrite !length_bits_of in H. done.
  - destruct Hc as [|c cs Hc Hcs].
    + apply (f_equal length) in H. rewrite !length_bits_of in H. done.
    + unfold bits_of in H. rewrite !bind_cons in H.
      apply app_inj_1 in H as [H1 H2]; [|by rewrite !length_byte_bits].
      f_equal; [by apply byte_bits_inj|by apply IH].
Qed.

Lemma take_byte_bits_eq x y k :
  is_byte x → is_byte y → 0 ≤ k ≤ 8 →
  Z.land x (Z.shiftl (-1) (8 - k)) = Z.land y (Z.shiftl (-1) (8 - k)) ↔
  take (Z.to_nat k) (byte_bits x) = take (Z.to_nat k) (byte_bits y).
Proof.
  intros Hx Hy Hk. rewrite byte_mask_eq by done. rewrite take_eq_lookup. split.
  - intros H i Hi. rewrite !byte_bits_lookup by lia. f_equal. apply H. lia.
  - intros H j Hj. specialize (H (Z.to_nat j)).
    rewrite !byte_bits_lookup, Z2Nat.id in H by lia.
    specialize (H ltac:(lia)). congruence.
Qed.

(** The first [8 * n + k] bits are the first [n] bytes and [k] bits of the next. *)
Lemma take_bits_split bs (n k : nat) b :
  (k ≤ 8)%nat → bs !! n = Some b →
  take (8 * n + k) (bits_of bs) = bits_of (take n bs) ++ take k (byte_bits b).
Proof.
  intros Hk Hb. rewrite <-(take_drop_middle bs n b Hb) at 1.
  assert (n < length bs)%nat by (by eapply lookup_lt_Some).
  unfold bits_of. rewrite bind_app, bind_cons.
  rewrite take_app_ge; fold (bits_of (take n bs));
    rewrite length_bits_of, length_take_le by lia; [|lia].
  replace (8 * n + k - 8 * n)%nat with k by lia.
  by rewrite take_app_le by (rewrite length_byte_bits; lia).
Qed.

Lemma comp_with_mask_correct addr dest (mask : nat) :
  Forall is_byte addr → Forall is_byte dest →
  (mask ≤ 8 * length addr)%nat → (mask ≤ 8 * length dest)%nat →
  comp_with_mask addr dest (Z.of_nat mask) =
    Ok (bool_decide (take mask (bits_of addr) = take mask (bits_of dest))).
Proof.
  intros Ha Hd Hla Hld.
  set (n := (mask / 8)%nat). set (k := (mask mod 8)%nat).
  assert (mask = 8 * n + k)%nat as Hm by (apply Nat.div_mod_eq).
  assert (k < 8)%nat as Hk by (apply Nat.mod_upper_bound; lia).
  assert (Z.of_nat mask / 8 = Z.of_nat n) as En by (unfold n; by rewrite (Nat2Z.inj_div mask 8)).
  assert (Z.of_nat mask mod 8 = Z.of_nat k) as Ek by (unfold k; by rewrite (Nat2Z.inj_mod mask 8)).
  clearbody n k. unfold comp_with_mask. rewrite En, Ek, Nat2Z.id.
  rewrite memcmp_eq_spec by lia. simpl.
  assert (bool_decide (take n addr = take n dest) =
          bool_decide (bits_of (take n addr) = bits_of (take n dest))) as ->.
  { apply bool_decide_ext. split; [by intros ->|].
    apply bits_of_inj; by apply Forall_take. }
  case_bool_decide as Hpre.
  2:{ unfold mret, res_ret. rewrite bool_decide_false; [done|]. intros He. apply Hpre.
      rewrite !bits_of_take. apply (f_equal (take (8 * n))) in He.
      rewrite !take_take in He. by replace (_ `min` _)%nat with (8 * n)%nat in He by lia. }
  destruct (Z.eqb_spec (Z.of_nat k) 0) as [Hk0|Hk0].
  { unfold mret, res_ret. rewrite bool_decide_true; [done|].
    rewrite Hm. replace (8 * n + k)%nat with (8 * n)%nat by lia.
    by rewrite <-!bits_of_take. }
  destruct (lookup_lt_is_Some_2 addr n) as [x Hx]; [lia|].
  destruct (lookup_lt_is_Some_2 dest n) as [y Hy]; [lia|].
  rewrite Hx, Hy. simpl. unfold mret, res_ret. f_equal.
  assert (is_byte x) by (by eapply Forall_lookup_1 in Hx).
  assert (is_byte y) by (by eapply Forall_lookup_1 in Hy).
  rewrite Hm, (take_bits_split addr n k x), (take_bits_split dest n k y) by (done || lia).
  rewrite Hpre.
  pose proof (take_byte_bits_eq x y (Z.of_nat k)) as HH. rewrite Nat2Z.id in HH.
  destruct (Z.eqb_spec (Z.land x (Z.shiftl (-1) (8 - Z.of_nat k)))
    (Z.land y (Z.shiftl (-1) (8 - Z.of_nat k)))) as [E|E]; case_bool_decide as E'; try done.
  - exfalso. apply E'. f_equal. apply HH; done || lia.
  - exfalso. apply E, HH; [done..|lia|]. by apply app_inv_head in E'.
Qed.

(** ** The first differing bit *)

#[local] Arguments Z.mul : simpl never.
Lemma first_set_bit_spec n (j : Z) r :
  0 ≤ j → j + Z.of_nat n = 8 → (∃ i, j ≤ i < 8 ∧ Z.testbit r (7 - i) = true) →
  let k := first_set_bit n j r in
  j ≤ k < 8 ∧ Z.testbit r (7 - k) = true ∧
  ∀ i, j ≤ i < k → Z.testbit r (7 - i) = false.
Proof.
  revert j. induction n as [|n IH]; intros j Hj Hn (i & Hi & Hb); simpl; [lia|].
  rewrite BIT_TEST_0x80 by lia.
  destruct (Z.testbit r (7 - j)) eqn:E; [split_and!; lia || done|].
  destruct (IH (j + 1)) as (H1 & H2 & H3); [lia..| |].
  { exists i. split; [|done]. destruct (decide (i = j)); [congruence|lia]. }
  split_and!; [lia|lia|done|]. intros i' Hi'.
  destruct (decide (i' = j)) as [->|]; [done|]. apply H3. lia.
Qed.

(** A byte difference is seen in the bits of the two addresses. *)
Lemma xor_byte_bit addr test (i : nat) x y (k : Z) :
  addr !! i = Some x → test !! i = Some y → 0 ≤ k < 8 →
  bits_of addr !! (8 * i + Z.to_nat k)%nat = Some (Z.testbit x (7 - k)) ∧
  bits_of test !! (8 * i + Z.to_nat k)%nat = Some (Z.testbit y (7 - k)).
Proof.
  intros Hx Hy Hk. rewrite !bits_of_lookup.
  rewrite (Nat.mul_comm 8 i), Nat.div_add_l, Nat.div_small, Nat.add_0_r by lia.
  rewrite (Nat.add_comm (i * 8)), Nat.Div0.mod_add, Nat.mod_small by lia.
  by rewrite Hx, Hy, Z2Nat.id by lia.
Qed.

#[local] Arguments first_set_bit : simpl never.

Lemma xor_has_set_bit x y :
  is_byte x → is_byte y → Z.lxor x y ≠ 0 →
  ∃ i, 0 ≤ i < 8 ∧ Z.testbit (Z.lxor x y) (7 - i) = true.
Proof.
  intros Hx Hy Hne.
  destruct (decide (Exists (λ j, Z.testbit (Z.lxor x y) (7 - j) = true) (seqZ 0 8))) as [HE|HE].
  { apply Exists_exists in HE as (j & Hj%elem_of_seqZ & Hb). eauto with lia. }
  exfalso. apply Hne. apply Z.lxor_eq_0_iff, byte_eq_bits; [done..|]. intros j Hj.
  apply xorb_eq. rewrite <-Z.lxor_spec. apply not_true_iff_false. intros Hb.
  apply HE, Exists_exists. exists j. split; [apply elem_of_seqZ; lia|done].
Qed.

Lemma differ_loop_spec n addr test (check i : nat) d :
  Forall is_byte addr → Forall is_byte test →
  (check ≤ 8 * length addr)%nat → (check ≤ 8 * length test)%nat →
  (0 < n)%nat → (check ≤ 8 * (n - 1 + i))%nat → d = Z.of_nat (8 * i) →
  (∀ k, (k < 8 * i)%nat → bits_of addr !! k = bits_of test !! k) →
  ∃ D : nat, differ_loop n addr test (Z.of_nat check) (Z.of_nat i) d = Ok (Z.of_nat D) ∧
    (∀ k, (k < D)%nat → bits_of addr !! k = bits_of test !! k) ∧
    ((D < check)%nat → bits_of addr !! D ≠ bits_of test !! D).
Proof.
  intros Ha Ht Hla Hlt. revert i d. induction n as [|n IH]; intros i d Hn Hc -> Hag; [lia|].
  simpl. destruct (Z.ltb_spec (Z.of_nat i * 8) (Z.of_nat check)) as [Hlt'|Hge].
  2:{ exists (8 * i)%nat. split_and!; [done..|lia]. }
  rewrite Nat2Z.id.
  destruct (lookup_lt_is_Some_2 addr i) as [x Hx]; [lia|].
  destruct (lookup_lt_is_Some_2 test i) as [y Hy]; [lia|].
  rewrite Hx, Hy. simpl.
  assert (is_byte x) by (by eapply Forall_lookup_1 in Hx).
  assert (is_byte y) by (by eapply Forall_lookup_1 in Hy).
  destruct (Z.eqb_spec (Z.lxor x y) 0) as [He|Hne].
  - apply Z.lxor_eq in He as <-.
    replace (Z.of_nat i + 1) with (Z.of_nat (S i)) by lia.
    apply IH; [lia..|]. intros k Hk.
    destruct (decide (k < 8 * i)%nat) as [|Hk']; [by apply Hag|].
    destruct (xor_byte_bit addr test i x x (Z.of_nat (k - 8 * i))) as [E1 E2]; [done..|lia|].
    rewrite Nat2Z.id in E1, E2. replace (8 * i + (k - 8 * i))%nat with k in * by lia. congruence.
  - destruct (first_set_bit_spec 8 0 (Z.lxor x y)) as (H1 & H2 & H3); [lia..| |].
    { by apply xor_has_set_bit. }
    assert (∃ m : nat, first_set_bit 8 0 (Z.lxor x y) = Z.of_nat m) as [m Em].
    { exists (Z.to_nat (first_set_bit 8 0 (Z.lxor x y))). lia. }
    rewrite Em in *.
    destruct (Z.ltb_spec (Z.of_nat m) 8); [|lia].
    exists (8 * i + m)%nat. split_and!.
    + unfold mret, res_ret. f_equal. lia.
    + intros k Hk. destruct (decide (k < 8 * i)%nat) as [|Hk']; [by apply Hag|].
      destruct (xor_byte_bit addr test i x y (Z.of_nat (k - 8 * i))) as [E1 E2]; [done..|lia|].
      rewrite Nat2Z.id in E1, E2. replace (8 * i + (k - 8 * i))%nat with k in * by lia.
      rewrite E1, E2. f_equal. specialize (H3 (Z.of_nat (k - 8 * i)) ltac:(lia)).
      rewrite Z.lxor_spec in H3. by apply xorb_eq.
    + intros _. destruct (xor_byte_bit addr test i x y (Z.of_nat m)) as [E1 E2]; [done..|lia|].
      rewrite Nat2Z.id in E1, E2. rewrite E1, E2. rewrite Z.lxor_spec in H2.
      intros [= E]. rewrite E, xorb_nilpotent in H2. done.
Qed.

Lemma first_differ_correct addr test (check : nat) :
  Forall is_byte addr → Forall is_byte test →
  (check ≤ 8 * length addr)%nat → (check ≤ 8 * length test)%nat →
  first_differ addr test (Z.of_nat check) =
    Ok (Z.of_nat (check `min` lcp (bits_of addr) (bits_of test))).
Proof.
  intros Ha Ht Hla Hlt. unfold first_differ. rewrite Nat2Z.id.
  destruct (differ_loop_spec (S check) addr test check 0 0) as (D & E & Hag & Hdif);
    [done..|lia|lia|lia|intros; lia|].
  change 0 with (Z.of_nat 0) at 1. rewrite E. simpl. unfold mret, res_ret. f_equal.
  set (D' := (check `min` D)%nat).
  assert (D' = check `min` lcp (bits_of addr) (bits_of test))%nat as <-.
  { apply lcp_unique; rewrite ?length_bits_of; [lia..| |].
    - intros k Hk. apply Hag. lia.
    - intros Hk. replace D' with D by lia. apply Hdif. lia. }
  destruct (Z.ltb_spec (Z.of_nat check) (Z.of_nat D)); lia.
Qed.
