(* ===== verification/PatMem.v ===== *)
(** * Memory of the Patricia component

    The data types of [Database_perf_test/patricia.h] (prefixes, trie nodes,
    tries), the memory they live in, and the primitive accesses of the C code:
    loads and stores through a pointer, [calloc] and [free].  Loads and stores
    through a null or dangling pointer, and double frees, are faults.  Memory
    is typed: the objects of each C struct have their own address space. *)

From stdpp Require Import base gmap list strings.
From Stdlib Require Import ZArith Lia.
From S2P Require Import Prelude.

Local Open Scope Z_scope.

(** ** Structs *)
Record prefix_t := Prefix {
  family : Z;       (* u_short *)
  bitlen : Z;       (* u_short *)
  ref_count : Z;    (* int *)
  add : list Z      (* the bytes of struct in_addr *)
}.

Record patricia_node_t := PNode {
  bit : Z;          (* u_int *)
  prefix : ptr;
  l : ptr;
  r : ptr;
  parent : ptr;
  data : ptr;
  user1 : ptr
}.

Record patricia_tree_t := PTree {
  head : ptr;
  maxbits : Z;          (* u_int *)
  num_active_node : Z   (* int *)
}.

(** [static struct buffer local_buff] of [prefix_toa2x]: 16 buffers and a
    [u_int] counter. *)
Record toa_buffer := ToaBuffer { buffs : list (list Z); buff_i : Z }.

Record mem := Mem {
  m_prefix : gmap loc prefix_t;
  m_node : gmap loc patricia_node_t;
  m_tree : gmap loc patricia_tree_t;
  m_buf : gmap loc (list Z);        (* character buffers of callers *)
  local_buff : toa_buffer;
  num_active_patricia : Z;          (* int *)
  errno : Z;
  stdout : list (list Z)            (* what was printed, latest last *)
}.

#[export] Instance prefix_t_eq_dec : EqDecision prefix_t.
Proof. solve_decision. Defined.
#[export] Instance patricia_node_t_eq_dec : EqDecision patricia_node_t.
Proof. solve_decision. Defined.
#[export] Instance patricia_tree_t_eq_dec : EqDecision patricia_tree_t.
Proof. solve_decision. Defined.

Definition empty_mem : mem :=
  Mem ∅ ∅ ∅ ∅ (ToaBuffer (replicate 16 []) 0) 0 0 [].

(** ** Field updates *)
Definition set_prefixes f m := Mem (f (m_prefix m)) (m_node m) (m_tree m) (m_buf m)
  (local_buff m) (num_active_patricia m) (errno m) (stdout m).
Definition set_nodes f m := Mem (m_prefix m) (f (m_node m)) (m_tree m) (m_buf m)
  (local_buff m) (num_active_patricia m) (errno m) (stdout m).
Definition set_trees f m := Mem (m_prefix m) (m_node m) (f (m_tree m)) (m_buf m)
  (local_buff m) (num_active_patricia m) (errno m) (stdout m).
Definition set_buf f m := Mem (m_prefix m) (m_node m) (m_tree m) (f (m_buf m))
  (local_buff m) (num_active_patricia m) (errno m) (stdout m).
Definition set_local_buff b m := Mem (m_prefix m) (m_node m) (m_tree m) (m_buf m)
  b (num_active_patricia m) (errno m) (stdout m).
Definition set_num_active_patricia z m := Mem (m_prefix m) (m_node m) (m_tree m) (m_buf m)
  (local_buff m) z (errno m) (stdout m).
Definition set_errno z m := Mem (m_prefix m) (m_node m) (m_tree m) (m_buf m)
  (local_buff m) (num_active_patricia m) z (stdout m).
Definition printf (s : list Z) : M mem unit :=
  modify (λ m, Mem (m_prefix m) (m_node m) (m_tree m) (m_buf m)
    (local_buff m) (num_active_patricia m) (errno m) (stdout m ++ [s])).

Definition with_bit z n := PNode z (prefix n) (l n) (r n) (parent n) (data n) (user1 n).
Definition with_prefix p n := PNode (bit n) p (l n) (r n) (parent n) (data n) (user1 n).
Definition with_l p n := PNode (bit n) (prefix n) p (r n) (parent n) (data n) (user1 n).
Definition with_r p n := PNode (bit n) (prefix n) (l n) p (parent n) (data n) (user1 n).
Definition with_parent p n := PNode (bit n) (prefix n) (l n) (r n) p (data n) (user1 n).
Definition with_data p n := PNode (bit n) (prefix n) (l n) (r n) (parent n) p (user1 n).

Definition with_ref_count z p := Prefix (family p) (bitlen p) z (add p).

Definition with_head p t := PTree p (maxbits t) (num_active_node t).
Definition with_num_active z t := PTree (head t) (maxbits t) z.

(** ** Loads, stores, allocation *)
Definition load {A} (sel : mem → gmap loc A) (p : ptr) : M mem A := λ m,
  match p ≫= λ q, sel m !! q with Some a => Ok (a, m) | None => Err BadAccess end.

Definition get_node : ptr → M mem patricia_node_t := load m_node.
Definition get_prefix : ptr → M mem prefix_t := load m_prefix.
Definition get_tree : ptr → M mem patricia_tree_t := load m_tree.

(** [p->field = v]: the pointer must be live. *)
Definition upd_node (p : ptr) (f : patricia_node_t → patricia_node_t) : M mem unit := λ m,
  match p with
  | Some q => match m_node m !! q with
              | Some n => Ok (tt, set_nodes <[q := f n]> m)
              | None => Err BadAccess
              end
  | None => Err BadAccess
  end.
Definition upd_prefix (p : ptr) (f : prefix_t → prefix_t) : M mem unit := λ m,
  match p with
  | Some q => match m_prefix m !! q with
              | Some n => Ok (tt, set_prefixes <[q := f n]> m)
              | None => Err BadAccess
              end
  | None => Err BadAccess
  end.
Definition upd_tree (p : ptr) (f : patricia_tree_t → patricia_tree_t) : M mem unit := λ m,
  match p with
  | Some q => match m_tree m !! q with
              | Some n => Ok (tt, set_trees <[q := f n]> m)
              | None => Err BadAccess
              end
  | None => Err BadAccess
  end.

(** [calloc (1, sizeof ...)]: a zeroed object at an address not in use.
    Allocation is taken to succeed (the code does not test it). *)
Definition zero_node : patricia_node_t := PNode 0 NULL NULL NULL NULL NULL NULL.
Definition zero_prefix : prefix_t := Prefix 0 0 0 [0; 0; 0; 0].
Definition zero_tree : patricia_tree_t := PTree NULL 0 0.

Definition calloc_node : M mem ptr := λ m,
  let q := fresh (dom (m_node m)) in Ok (Some q, set_nodes <[q := zero_node]> m).
Definition calloc_prefix : M mem ptr := λ m,
  let q := fresh (dom (m_prefix m)) in Ok (Some q, set_prefixes <[q := zero_prefix]> m).
Definition calloc_tree : M mem ptr := λ m,
  let q := fresh (dom (m_tree m)) in Ok (Some q, set_trees <[q := zero_tree]> m).

(** [#define Delete free]. *)
Definition Delete_node (p : ptr) : M mem unit := λ m,
  match p with
  | None => Ok (tt, m)
  | Some q => match m_node m !! q with
              | Some _ => Ok (tt, set_nodes (delete q) m)
              | None => Err BadAccess
              end
  end.
Definition Delete_prefix (p : ptr) : M mem unit := λ m,
  match p with
  | None => Ok (tt, m)
  | Some q => match m_prefix m !! q with
              | Some _ => Ok (tt, set_prefixes (delete q) m)
              | None => Err BadAccess
              end
  end.
Definition Delete_tree (p : ptr) : M mem unit := λ m,
  match p with
  | None => Ok (tt, m)
  | Some q => match m_tree m !! q with
              | Some _ => Ok (tt, set_trees (delete q) m)
              | None => Err BadAccess
              end
  end.

Lemma fresh_node_None m : m_node m !! (fresh (dom (m_node m))) = None.
Proof. apply not_elem_of_dom, is_fresh. Qed.
Lemma fresh_prefix_None m : m_prefix m !! (fresh (dom (m_prefix m))) = None.
Proof. apply not_elem_of_dom, is_fresh. Qed.
