(* ===== verification/PrefixCode.v ===== *)
(** * Prefix objects: the code

    The prefix half of [Database_perf_test/patricia.c]: parsing and printing
    of dotted-quad prefixes, creation, and reference counting.  The build is
    the repository's ([HAVE_IPV6], [NT] and [USE_CUSTOM_INET] undefined), so
    the only supported family is [AF_INET]. *)

From stdpp Require Import base gmap list strings.
From Stdlib Require Import ZArith Lia.
From S2P Require Import Prelude PatMem.

Local Open Scope Z_scope.

Definition AF_INET : Z := 2.
Definition EAFNOSUPPORT : Z := 97.
Definition MAXLINE : Z := 1024.

(** [prefix_touchar]: the address bytes of a (non-null) prefix. *)
Definition prefix_touchar (p : ptr) : M mem (list Z) :=
  x ← get_prefix p; mret (add x).

(** [prefix_tochar]: null for a null prefix. *)
Definition prefix_tochar (p : ptr) : M mem (option (list Z)) :=
  match p with
  | None => mret None
  | Some _ => x ← get_prefix p; mret (Some (add x))
  end.

(** ** Parsing *)
Definition isdigit (c : Z) : bool := (48 <=? c) && (c <=? 57).
Definition isspace (c : Z) : bool := (c =? 32) || ((9 <=? c) && (c <=? 13)).

(** The [do ... while (c && isdigit (c))] loop of [my_inet_pton], entered with
    the digit [c] read and [src] the rest.  The result is [None] for the early
    [return (0)], else the value, the character that stopped the loop (0 at the
    end of the string) and the rest. *)
Fixpoint octet_loop (c val : Z) (src : list Z) : option (Z * Z * list Z) :=
  let val := val * 10 + c - 48 in
  if 255 <? val then None
  else match src with
       | [] => Some (val, 0, [])
       | c' :: src' =>
           if isdigit c' then octet_loop c' val src' else Some (val, c', src')
       end.

(** The [for (i = 0; ; i++)] loop: the return value and the array [xp]. *)
Fixpoint pton_loop (fuel : nat) (i : nat) (xp src : list Z) : res (Z * list Z) :=
  match fuel with
  | O => Err OutOfFuel
  | S fuel =>
      match src with
      | [] => mret (-1, xp)
      | c :: src =>
          if negb (isdigit c) then mret (-1, xp)
          else match octet_loop c 0 src with
               | None => mret (0, xp)
               | Some (val, c, src) =>
                   if decide (i < length xp)%nat then
                     let xp := <[i := u8 val]> xp in
                     if c =? 0 then mret (1, xp)
                     else if negb (c =? 46) then mret (0, xp)
                     else if (3 <=? i)%nat then mret (0, xp)
                     else pton_loop fuel (S i) xp src
                   else Err BadAccess
               end
      end
  end.

(** [my_inet_pton (af, src, dst)]: the result and the four bytes written to
    [dst] when it is 1. *)
Definition my_inet_pton (af : Z) (src : list Z) : M mem (Z * option (list Z)) :=
  if af =? AF_INET then
    '(result, xp) ← lift (pton_loop 5 0 [0; 0; 0; 0] src);
    if result =? 1 then mret (1, Some xp) else mret (result, None)
  else
    modify (set_errno EAFNOSUPPORT);; mret (-1, None).

(** [atol]: skips white space, reads a sign and digits, saturates. *)
Definition LONG_MAX : Z := 2 ^ 63 - 1.
Definition LONG_MIN : Z := - 2 ^ 63.
Fixpoint atol_digits (acc : Z) (s : list Z) : Z :=
  match s with
  | c :: s => if isdigit c then atol_digits (acc * 10 + (c - 48)) s else acc
  | [] => acc
  end.
Fixpoint atol (s : list Z) : Z :=
  match s with
  | [] => 0
  | c :: s' =>
      if isspace c then atol s'
      else if c =? 45 then Z.max LONG_MIN (- atol_digits 0 s')
      else if c =? 43 then Z.min LONG_MAX (atol_digits 0 s')
      else Z.min LONG_MAX (atol_digits 0 s)
  end.

(** [strchr (s, c)]: the text before and after the first [c]. *)
Fixpoint strchr (s : list Z) (c : Z) : option (list Z * list Z) :=
  match s with
  | [] => None
  | x :: s => if x =? c then Some ([], s)
              else '(a, b) ← strchr s c; Some (x :: a, b)
  end.

(** ** Creation and reference counts *)
Definition New_Prefix2 (fam : Z) (dest : list Z) (blen : Z) (p : ptr) : M mem ptr :=
  let default_bitlen := 32 in
  if fam =? AF_INET then
    '(p, dynamic_allocated) ←
      (match p with
       | None => p' ← calloc_prefix; mret (p', 1)
       | Some _ => mret (p, 0)
       end);
    upd_prefix p (λ x, Prefix (family x) (bitlen x) (ref_count x) (take 4 dest));;
    upd_prefix p (λ x, Prefix (family x) (u16 (if 0 <=? blen then blen else default_bitlen))
                         (ref_count x) (add x));;
    upd_prefix p (λ x, Prefix (u16 fam) (bitlen x) (ref_count x) (add x));;
    upd_prefix p (with_ref_count 0);;
    (if negb (dynamic_allocated =? 0)
     then upd_prefix p (λ x, with_ref_count (ref_count x + 1) x) else mret tt);;
    mret p
  else mret NULL.

Definition New_Prefix (fam : Z) (dest : list Z) (blen : Z) : M mem ptr :=
  New_Prefix2 fam dest blen NULL.

(** [ascii2prefix]; [string] is [None] for a null pointer. *)
Definition ascii2prefix (fam : Z) (string : option (list Z)) : M mem ptr :=
  match string with
  | None => mret NULL
  | Some string =>
      let fam := if fam =? 0 then AF_INET else fam in
      let maxbitlen := if fam =? AF_INET then 32 else 0 in
      '(blen, string) ←
        (match strchr string 47 with
         | Some (before, after) =>
             let blen := u64 (atol after) in
             assert (Z.of_nat (length before) <? MAXLINE);;
             mret (if maxbitlen <? blen then maxbitlen else blen, before)
         | None => mret (maxbitlen, string)
         end);
      if fam =? AF_INET then
        '(result, sin) ← my_inet_pton AF_INET string;
        if result <=? 0 then mret NULL
        else New_Prefix AF_INET (default [] sin) blen
      else mret NULL
  end.

Definition Ref_Prefix (p : ptr) : M mem ptr :=
  match p with
  | None => mret NULL
  | Some _ =>
      x ← get_prefix p;
      if ref_count x =? -1 then New_Prefix2 (family x) (add x) (bitlen x) NULL
      else
        z ← chk_int (ref_count x + 1);
        upd_prefix p (with_ref_count z);;
        mret p
  end.

Definition Deref_Prefix (p : ptr) : M mem unit :=
  match p with
  | None => mret tt
  | Some _ =>
      x ← get_prefix p;
      assert (0 <? ref_count x);;
      upd_prefix p (with_ref_count (ref_count x - 1));;
      assert (0 <=? ref_count x - 1);;
      if ref_count x - 1 <=? 0 then Delete_prefix p else mret tt
  end.

(** ** Printing *)

(** [%d] of a non-negative value. *)
Fixpoint dec_digits (fuel : nat) (z : Z) (acc : list Z) : list Z :=
  match fuel with
  | O => acc
  | S fuel =>
      let acc := (48 + z mod 10) :: acc in
      if z <? 10 then acc else dec_digits fuel (z / 10) acc
  end.
Definition fmt_d (z : Z) : list Z :=
  if z <? 0 then 45 :: dec_digits 20 (- z) [] else dec_digits 20 z [].

(** What [prefix_toa2x] returns: a null pointer, the literal ["(Null)"], the
    caller's buffer, or one of the static buffers. *)
Inductive charptr : Set :=
| CNull
| CLit (s : list Z)
| CBuf (b : loc)
| CStatic (slot : nat).

(** The text a returned pointer refers to now. *)
Definition deref_char (c : charptr) (m : mem) : option (list Z) :=
  match c with
  | CNull => None
  | CLit s => Some s
  | CBuf b => m_buf m !! b
  | CStatic k => buffs (local_buff m) !! k
  end.

(** [sprintf (buff, ...)] into a returned buffer. *)
Definition sprintf (c : charptr) (s : list Z) : M mem unit := λ m,
  match c with
  | CBuf b => match m_buf m !! b with
              | Some _ => Ok (tt, set_buf <[b := s]> m)
              | None => Err BadAccess
              end
  | CStatic k =>
      if decide (k < length (buffs (local_buff m)))%nat
      then Ok (tt, set_local_buff
                     (ToaBuffer (<[k := s]> (buffs (local_buff m))) (buff_i (local_buff m))) m)
      else Err BadAccess
  | _ => Err BadAccess
  end.

Definition prefix_toa2x (p : ptr) (buff : ptr) (with_len : bool) : M mem charptr :=
  match p with
  | None => mret (CLit (cs "(Null)"))
  | Some _ =>
      x ← get_prefix p;
      assert (0 <=? ref_count x);;
      buff ←
        (match buff with
         | Some b => mret (CBuf b)
         | None =>
             bf ← gets local_buff;
             modify (set_local_buff (ToaBuffer (buffs bf) (u32 (buff_i bf + 1))));;
             mret (CStatic (Z.to_nat (buff_i bf mod 16)))
         end);
      if family x =? AF_INET then
        assert (bitlen x <=? 32);;
        a0 ← from_option_or BadAccess (add x !! 0%nat);
        a1 ← from_option_or BadAccess (add x !! 1%nat);
        a2 ← from_option_or BadAccess (add x !! 2%nat);
        a3 ← from_option_or BadAccess (add x !! 3%nat);
        let quad := fmt_d a0 ++ [46] ++ fmt_d a1 ++ [46] ++ fmt_d a2 ++ [46] ++ fmt_d a3 in
        (if with_len then sprintf buff (quad ++ [47] ++ fmt_d (bitlen x))
         else sprintf buff quad);;
        mret buff
      else mret CNull
  end.

Definition prefix_toa2 (p : ptr) (buff : ptr) : M mem charptr := prefix_toa2x p buff false.
Definition prefix_toa (p : ptr) : M mem charptr := prefix_toa2 p NULL.
