(* ===== verification/Patricia.v ===== *)
(** * The Patricia trie: the code

    The trie half of [Database_perf_test/patricia.c] (tree creation, clearing,
    walks, searches, [patricia_lookup], [patricia_remove] and the demo
    helpers), statement by statement over the pointer memory of [PatMem].
    [PATRICIA_DEBUG] is undefined and [USE_DEMO_CODE] defined, as the programs
    [demo.c] and [perf_test.c] need. *)

From stdpp Require Import base gmap list strings.
From Stdlib Require Import ZArith Lia.
From S2P Require Import Prelude Bits PatMem PrefixCode.

Local Open Scope Z_scope.

Definition PATRICIA_MAXBITS : Z := 128.

(** A bound on loop iterations: one more than the number of live nodes. *)
Definition loop_fuel (m : mem) : nat := S (size (m_node m)).

Definition is_null (p : ptr) : bool := bool_decide (p = NULL).
Definition ptr_eq (p q : ptr) : bool := bool_decide (p = q).

Definition New_Patricia (mbits : Z) : M mem ptr :=
  p ← calloc_tree;
  upd_tree p (λ t, PTree (head t) (u32 mbits) (num_active_node t));;
  upd_tree p (with_head NULL);;
  upd_tree p (with_num_active 0);;
  assert (mbits <=? PATRICIA_MAXBITS);;
  n ← gets num_active_patricia;
  n' ← chk_int (n + 1);
  modify (set_num_active_patricia n');;
  mret p.

(** [patricia->num_active_node++] and [--]. *)
Definition add_active (T : ptr) (d : Z) : M mem unit :=
  t ← get_tree T;
  n ← chk_int (num_active_node t + d);
  upd_tree T (with_num_active n).

(** ** Clearing *)

(** The explicit stack of [Clear_Patricia] and of the walk macros holds at most
    [PATRICIA_MAXBITS + 1] pointers. *)
Definition push (x : ptr) (stack : list ptr) : M mem (list ptr) :=
  if decide (Z.of_nat (length stack) < PATRICIA_MAXBITS + 1)
  then mret (x :: stack) else fail BadAccess.

(** The next node after one with children [l] and [r]. *)
Definition walk_next (l r : ptr) (stack : list ptr) : M mem (ptr * list ptr) :=
  if negb (is_null l) then
    stack ← (if negb (is_null r) then push r stack else mret stack);
    mret (l, stack)
  else if negb (is_null r) then mret (r, stack)
  else match stack with
       | x :: stack => mret (x, stack)
       | [] => mret (NULL, [])
       end.

Fixpoint clear_loop (fuel : nat) (T : ptr) (func : option (ptr → M mem unit))
    (Xrn : ptr) (stack : list ptr) : M mem unit :=
  match fuel with
  | O => fail OutOfFuel
  | S fuel =>
      if is_null Xrn then mret tt
      else
        n ← get_node Xrn;
        let l := l n in
        let r := r n in
        (if negb (is_null (prefix n)) then
           Deref_Prefix (prefix n);;
           match func with
           | Some f => if negb (is_null (data n)) then f (data n) else mret tt
           | None => mret tt
           end
         else assert (is_null (data n)));;
        Delete_node Xrn;;
        add_active T (-1);;
        '(Xrn, stack) ← walk_next l r stack;
        clear_loop fuel T func Xrn stack
  end.

Definition Clear_Patricia (T : ptr) (func : option (ptr → M mem unit)) : M mem unit :=
  assert (negb (is_null T));;
  t ← get_tree T;
  fuel ← gets loop_fuel;
  (if negb (is_null (head t)) then clear_loop fuel T func (head t) [] else mret tt);;
  t ← get_tree T;
  assert (num_active_node t =? 0).

Definition Destroy_Patricia (T : ptr) (func : option (ptr → M mem unit)) : M mem unit :=
  Clear_Patricia T func;;
  Delete_tree T;;
  n ← gets num_active_patricia;
  n' ← chk_int (n - 1);
  modify (set_num_active_patricia n').

(** ** Walks *)

(** [PATRICIA_WALK (head, node) { func (node->prefix, node->data); }]. *)
Fixpoint walk_loop (fuel : nat) (func : ptr → ptr → M mem unit)
    (Xrn : ptr) (stack : list ptr) : M mem unit :=
  match fuel with
  | O => fail OutOfFuel
  | S fuel =>
      if is_null Xrn then mret tt
      else
        n ← get_node Xrn;
        (if negb (is_null (prefix n)) then func (prefix n) (data n) else mret tt);;
        n ← get_node Xrn;
        '(Xrn, stack) ← walk_next (l n) (r n) stack;
        walk_loop fuel func Xrn stack
  end.

Definition patricia_process (T : ptr) (func : ptr → ptr → M mem unit) : M mem unit :=
  t ← get_tree T;
  fuel ← gets loop_fuel;
  walk_loop fuel func (head t) [].

Fixpoint walk_inorder (fuel : nat) (node : ptr) (func : ptr → ptr → M mem unit) : M mem Z :=
  match fuel with
  | O => fail OutOfFuel
  | S fuel =>
      nd ← get_node node;
      n ← (if negb (is_null (l nd)) then walk_inorder fuel (l nd) func else mret 0);
      nd ← get_node node;
      n ← (if negb (is_null (prefix nd))
           then func (prefix nd) (data nd);; mret (u64 (n + 1)) else mret n);
      nd ← get_node node;
      (if negb (is_null (r nd))
       then k ← walk_inorder fuel (r nd) func; mret (u64 (n + k)) else mret n)
  end.

Definition patricia_walk_inorder (node : ptr) (func : ptr → ptr → M mem unit) : M mem Z :=
  fuel ← gets loop_fuel; walk_inorder fuel node func.

(** ** Searches *)
Fixpoint exact_loop (fuel : nat) (addr : list Z) (blen : Z) (node : ptr) : M mem ptr :=
  match fuel with
  | O => fail OutOfFuel
  | S fuel =>
      nd ← get_node node;
      if bit nd <? blen then
        t ← lift (addr_bit addr (bit nd));
        let node := if t : bool then r nd else l nd in
        if is_null node then mret NULL else exact_loop fuel addr blen node
      else mret node
  end.

Definition comp_prefix (a b : ptr) (blen : Z) : M mem bool :=
  x ← prefix_tochar a;
  y ← prefix_tochar b;
  match x, y with
  | Some x, Some y => lift (comp_with_mask x y blen)
  | _, _ => fail BadAccess
  end.

Definition patricia_search_exact (T : ptr) (pfx : ptr) : M mem ptr :=
  assert (negb (is_null T));;
  assert (negb (is_null pfx));;
  px ← get_prefix pfx;
  t ← get_tree T;
  assert (bitlen px <=? maxbits t);;
  if is_null (head t) then mret NULL
  else
    addr ← prefix_touchar pfx;
    let blen := bitlen px in
    fuel ← gets loop_fuel;
    node ← exact_loop fuel addr blen (head t);
    if is_null node then mret NULL
    else
      nd ← get_node node;
      if (blen <? bit nd) || is_null (prefix nd) then mret NULL
      else
        assert (bit nd =? blen);;
        npx ← get_prefix (prefix nd);
        assert (bit nd =? bitlen npx);;
        c ← comp_prefix (prefix nd) pfx blen;
        mret (if c : bool then node else NULL).

(** The first loop of [patricia_search_best2]: the last node (null when the
    search fell off the trie) and the stack, top first. *)
Fixpoint best_loop (fuel : nat) (addr : list Z) (blen : Z) (node : ptr) (stack : list ptr)
    : M mem (ptr * list ptr) :=
  match fuel with
  | O => fail OutOfFuel
  | S fuel =>
      nd ← get_node node;
      if bit nd <? blen then
        stack ← (if negb (is_null (prefix nd)) then push node stack else mret stack);
        t ← lift (addr_bit addr (bit nd));
        let node := if t : bool then r nd else l nd in
        if is_null node then mret (NULL, stack) else best_loop fuel addr blen node stack
      else mret (node, stack)
  end.

(** [while (--cnt >= 0) ...]. *)
Fixpoint pop_loop (pfx : ptr) (blen : Z) (stack : list ptr) : M mem ptr :=
  match stack with
  | [] => mret NULL
  | node :: stack =>
      nd ← get_node node;
      npx ← get_prefix (prefix nd);
      c ← comp_prefix (prefix nd) pfx (bitlen npx);
      if (c : bool) && (bitlen npx <=? blen) then mret node else pop_loop pfx blen stack
  end.

Definition patricia_search_best2 (T : ptr) (pfx : ptr) (inclusive : bool) : M mem ptr :=
  assert (negb (is_null T));;
  assert (negb (is_null pfx));;
  px ← get_prefix pfx;
  t ← get_tree T;
  assert (bitlen px <=? maxbits t);;
  if is_null (head t) then mret NULL
  else
    addr ← prefix_touchar pfx;
    let blen := bitlen px in
    fuel ← gets loop_fuel;
    '(node, stack) ← best_loop fuel addr blen (head t) [];
    stack ← (if inclusive && negb (is_null node) then
               nd ← get_node node;
               if negb (is_null (prefix nd)) then push node stack else mret stack
             else mret stack);
    pop_loop pfx blen stack.

Definition patricia_search_best (T : ptr) (pfx : ptr) : M mem ptr :=
  patricia_search_best2 T pfx true.

(** ** Insertion *)

(** [node->bit < patricia->maxbits && BIT_TEST (addr[...], ...)]. *)
Definition guarded_bit (mbits : Z) (addr : list Z) (b : Z) : M mem bool :=
  if b <? mbits then lift (addr_bit addr b) else mret false.

Fixpoint descend (fuel : nat) (mbits : Z) (addr : list Z) (blen : Z) (node : ptr) : M mem ptr :=
  match fuel with
  | O => fail OutOfFuel
  | S fuel =>
      nd ← get_node node;
      if (bit nd <? blen) || is_null (prefix nd) then
        t ← guarded_bit mbits addr (bit nd);
        let child := if t : bool then r nd else l nd in
        if is_null child then mret node else descend fuel mbits addr blen child
      else mret node
  end.

(** [while (parent && parent->bit >= differ_bit) { node = parent; ... }]. *)
Fixpoint ascend (fuel : nat) (differ_bit : Z) (node : ptr) : M mem ptr :=
  match fuel with
  | O => fail OutOfFuel
  | S fuel =>
      nd ← get_node node;
      if is_null (parent nd) then mret node
      else
        pn ← get_node (parent nd);
        if differ_bit <=? bit pn then ascend fuel differ_bit (parent nd) else mret node
  end.

(** [calloc] a node for [pfx] and fill it in. *)
Definition new_node_for (pfx : ptr) : M mem ptr :=
  px ← get_prefix pfx;
  n ← calloc_node;
  upd_node n (with_bit (bitlen px));;
  q ← Ref_Prefix pfx;
  upd_node n (with_prefix q);;
  upd_node n (with_parent NULL);;
  upd_node n (with_r NULL);;
  upd_node n (with_l NULL);;
  upd_node n (with_data NULL);;
  mret n.

(** Make [new] take the place of [node] below the parent of [node]. *)
Definition replace_in_parent (T node new : ptr) : M mem unit :=
  nd ← get_node node;
  if is_null (parent nd) then
    t ← get_tree T;
    assert (ptr_eq (head t) node);;
    upd_tree T (with_head new)
  else
    pn ← get_node (parent nd);
    if ptr_eq (r pn) node then upd_node (parent nd) (with_r new)
    else upd_node (parent nd) (with_l new).

(** The end of [patricia_lookup], once the insertion point [node] and
    [differ_bit] are known. *)
Definition insert_at (T pfx node : ptr) (addr test_addr : list Z) (mbits blen differ_bit : Z)
    : M mem ptr :=
  nd ← get_node node;
  if (differ_bit =? blen) && (bit nd =? blen) then
    if negb (is_null (prefix nd)) then mret node
    else
      q ← Ref_Prefix pfx;
      upd_node node (with_prefix q);;
      nd ← get_node node;
      assert (is_null (data nd));;
      mret node
  else
    new_node ← new_node_for pfx;
    add_active T 1;;
    nd ← get_node node;
    if bit nd =? differ_bit then
      upd_node new_node (with_parent node);;
      t ← guarded_bit mbits addr (bit nd);
      (if t : bool then
         assert (is_null (r nd));; upd_node node (with_r new_node)
       else
         assert (is_null (l nd));; upd_node node (with_l new_node));;
      mret new_node
    else if blen =? differ_bit then
      t ← guarded_bit mbits test_addr blen;
      (if t : bool then upd_node new_node (with_r node) else upd_node new_node (with_l node));;
      upd_node new_node (with_parent (parent nd));;
      replace_in_parent T node new_node;;
      upd_node node (with_parent new_node);;
      mret new_node
    else
      glue ← calloc_node;
      upd_node glue (with_bit differ_bit);;
      upd_node glue (with_prefix NULL);;
      upd_node glue (with_parent (parent nd));;
      upd_node glue (with_data NULL);;
      add_active T 1;;
      t ← guarded_bit mbits addr differ_bit;
      (if t : bool then
         upd_node glue (with_r new_node);; upd_node glue (with_l node)
       else
         upd_node glue (with_r node);; upd_node glue (with_l new_node));;
      upd_node new_node (with_parent glue);;
      replace_in_parent T node glue;;
      upd_node node (with_parent glue);;
      mret new_node.

Definition patricia_lookup (T : ptr) (pfx : ptr) : M mem ptr :=
  assert (negb (is_null T));;
  assert (negb (is_null pfx));;
  px ← get_prefix pfx;
  t ← get_tree T;
  assert (bitlen px <=? maxbits t);;
  if is_null (head t) then
    node ← new_node_for pfx;
    upd_tree T (with_head node);;
    add_active T 1;;
    mret node
  else
    addr ← prefix_touchar pfx;
    let blen := bitlen px in
    fuel ← gets loop_fuel;
    node ← descend fuel (maxbits t) addr blen (head t);
    nd ← get_node node;
    assert (negb (is_null (prefix nd)));;
    test_addr ← prefix_touchar (prefix nd);
    let check_bit := if bit nd <? blen then bit nd else blen in
    differ_bit ← lift (first_differ addr test_addr check_bit);
    node ← ascend fuel differ_bit node;
    insert_at T pfx node addr test_addr (maxbits t) blen differ_bit.

(** ** Removal *)
Definition patricia_remove (T node : ptr) : M mem unit :=
  assert (negb (is_null T));;
  assert (negb (is_null node));;
  nd ← get_node node;
  if negb (is_null (r nd)) && negb (is_null (l nd)) then
    (if negb (is_null (prefix nd)) then Deref_Prefix (prefix nd) else mret tt);;
    upd_node node (with_prefix NULL);;
    upd_node node (with_data NULL)
  else if is_null (r nd) && is_null (l nd) then
    let parent_ := parent nd in
    Deref_Prefix (prefix nd);;
    Delete_node node;;
    add_active T (-1);;
    if is_null parent_ then
      t ← get_tree T;
      assert (ptr_eq (head t) node);;
      upd_tree T (with_head NULL)
    else
      pn ← get_node parent_;
      child ←
        (if ptr_eq (r pn) node then
           upd_node parent_ (with_r NULL);; mret (l pn)
         else
           assert (ptr_eq (l pn) node);;
           upd_node parent_ (with_l NULL);; mret (r pn));
      if negb (is_null (prefix pn)) then mret tt
      else
        (if is_null (parent pn) then
           t ← get_tree T;
           assert (ptr_eq (head t) parent_);;
           upd_tree T (with_head child)
         else
           gn ← get_node (parent pn);
           if ptr_eq (r gn) parent_ then upd_node (parent pn) (with_r child)
           else
             assert (ptr_eq (l gn) parent_);;
             upd_node (parent pn) (with_l child));;
        upd_node child (with_parent (parent pn));;
        Delete_node parent_;;
        add_active T (-1)
  else
    child ←
      (if negb (is_null (r nd)) then mret (r nd)
       else assert (negb (is_null (l nd)));; mret (l nd));
    let parent_ := parent nd in
    upd_node child (with_parent parent_);;
    Deref_Prefix (prefix nd);;
    Delete_node node;;
    add_active T (-1);;
    if is_null parent_ then
      t ← get_tree T;
      assert (ptr_eq (head t) node);;
      upd_tree T (with_head child)
    else
      pn ← get_node parent_;
      if ptr_eq (r pn) node then upd_node parent_ (with_r child)
      else
        assert (ptr_eq (l pn) node);;
        upd_node parent_ (with_l child).
