(* ===== verification/PatState.v ===== *)
(** * Symbolic memories of the Patricia component

    [St F P L TT X m] describes a memory: its prefix objects are [P], its trie
    structs [TT], its nodes are those of the list [L] together with a frame
    [F] of nodes that belong to nobody here, and [X] is everything else
    (buffers, counters, output).  [L] matters up to permutation.  The [runs_*]
    rules execute one access symbolically; they are the interface between the
    code and the proofs about tries. *)

From stdpp Require Import base gmap list strings.
From Stdlib Require Import ZArith Lia.
From S2P Require Import Prelude Bits PatMem PrefixCode Patricia.

Local Open Scope Z_scope.

Definition rest_t : Type := gmap loc (list Z) * toa_buffer * Z * Z * list (list Z).
Definition rest (m : mem) : rest_t :=
  (m_buf m, local_buff m, num_active_patricia m, errno m, stdout m).

Record St (F : gmap loc patricia_node_t) (P : gmap loc prefix_t)
    (L : list (loc * patricia_node_t)) (TT : gmap loc patricia_tree_t) (X : rest_t)
    (m : mem) : Prop := {
  st_P : m_prefix m = P;
  st_T : m_tree m = TT;
  st_X : rest m = X;
  st_lookup : ∀ a n, m_node m !! a = Some n ↔ (a, n) ∈ L ∨ F !! a = Some n;
  st_nodup : NoDup L.*1;
  st_disj : ∀ a, a ∈ L.*1 → F !! a = None
}.

#[export] Instance St_proper F P :
  Proper ((≡ₚ) ==> (=) ==> (=) ==> (=) ==> iff) (St F P).
Proof.
  assert (∀ L L' TT X m, L ≡ₚ L' → St F P L TT X m → St F P L' TT X m) as H.
  { intros L L' TT X m HL [H1 H2 H3 H4 H5 H6]. split; [done..| | |].
    - intros. by rewrite H4, HL.
    - by rewrite <-HL.
    - intros a. rewrite <-HL. apply H6. }
  intros L L' HL ? TT -> ? X -> ? m ->. split; apply H; [done|by symmetry].
Qed.

Section rules.
Context (F : gmap loc patricia_node_t).
Implicit Types (P : gmap loc prefix_t) (L : list (loc * patricia_node_t))
  (TT : gmap loc patricia_tree_t) (X : rest_t) (m : mem).

Lemma St_perm P L L' TT X m : L ≡ₚ L' → St F P L TT X m → St F P L' TT X m.
Proof. by intros ->. Qed.

Lemma St_unique P L TT X m a n n' :
  St F P L TT X m → (a, n) ∈ L → (a, n') ∈ L → n = n'.
Proof.
  intros H H1 H2. assert (m_node m !! a = Some n) by (apply H; by left).
  assert (m_node m !! a = Some n') by (apply H; by left). congruence.
Qed.

Lemma runs_get_node P L TT X m a n (Q : _ → _ → Prop) :
  St F P L TT X m → (a, n) ∈ L → Q n m → runs (get_node (Some a)) m Q.
Proof.
  intros H Ha HQ. exists n, m. split; [|done]. unfold get_node, load. simpl.
  assert (m_node m !! a = Some n) as -> by (apply H; by left). done.
Qed.

Lemma runs_get_prefix P L TT X m q x (Q : _ → _ → Prop) :
  St F P L TT X m → P !! q = Some x → Q x m → runs (get_prefix (Some q)) m Q.
Proof.
  intros H Hq HQ. exists x, m. split; [|done]. unfold get_prefix, load. simpl.
  by rewrite (st_P _ _ _ _ _ _ H), Hq.
Qed.

Lemma runs_get_tree P L TT X m q x (Q : _ → _ → Prop) :
  St F P L TT X m → TT !! q = Some x → Q x m → runs (get_tree (Some q)) m Q.
Proof.
  intros H Hq HQ. exists x, m. split; [|done]. unfold get_tree, load. simpl.
  by rewrite (st_T _ _ _ _ _ _ H), Hq.
Qed.

Lemma runs_upd_node P L L' TT X m a n f (Q : _ → _ → Prop) :
  St F P L TT X m → L ≡ₚ (a, n) :: L' →
  (∀ m', St F P ((a, f n) :: L') TT X m' → Q tt m') →
  runs (upd_node (Some a) f) m Q.
Proof.
  intros H HL HQ. rewrite HL in H. destruct H as [H1 H2 H3 H4 H5 H6].
  assert (m_node m !! a = Some n) as Ea by (apply H4; left; apply list_elem_of_here).
  exists tt, (set_nodes <[a := f n]> m). unfold upd_node. rewrite Ea.
  split; [done|]. apply HQ. split; [done..| |done|done].
  intros b k. simpl. rewrite lookup_insert_Some, H4, !elem_of_cons.
  apply NoDup_cons in H5 as [H5 _].
  assert (a ∈ ((a, n) :: L').*1) as HaL by apply list_elem_of_here.
  pose proof (H6 _ HaL). split.
  - intros [[<- <-]|[Hne [[?|?]|?]]]; naive_solver.
  - intros [[?|?]|?]; simplify_eq; [by left|right..].
    + split; [|by auto]. intros <-. apply H5. by apply (list_elem_of_fmap_2 fst) in H0.
    + split; [|by auto]. congruence.
Qed.

Lemma runs_calloc_node P L TT X m (Q : _ → _ → Prop) :
  St F P L TT X m →
  (∀ a m', a ∉ L.*1 → St F P ((a, zero_node) :: L) TT X m' → Q (Some a) m') →
  runs calloc_node m Q.
Proof.
  intros [H1 H2 H3 H4 H5 H6] HQ. set (a := fresh (dom (m_node m))).
  assert (m_node m !! a = None) as Ha by apply fresh_node_None.
  assert (∀ n, (a, n) ∉ L ∧ F !! a ≠ Some n) as Hn.
  { intros n. split; intros ?; rewrite (proj2 (H4 a n)) in Ha; naive_solver. }
  assert (a ∉ L.*1) as HaL.
  { intros (x & -> & Hx)%list_elem_of_fmap. destruct x as [b k]; simpl in *.
    by destruct (Hn k). }
  assert (F !! a = None) as HF.
  { destruct (F !! a) eqn:E; [|done]. by destruct (Hn p). }
  exists (Some a), (set_nodes <[a := zero_node]> m). split; [done|].
  apply HQ; [done|]. split; [done..| | |].
  - intros b k. simpl. rewrite lookup_insert_Some, H4, elem_of_cons. split.
    + naive_solver.
    + intros [[?|?]|?]; simplify_eq; [by left|right..]; (split; [|by auto]).
      * intros <-. by destruct (Hn k).
      * congruence.
  - simpl. by apply NoDup_cons.
  - intros b. simpl. rewrite elem_of_cons. intros [->|?]; auto.
Qed.

Lemma runs_delete_node P L L' TT X m a n (Q : _ → _ → Prop) :
  St F P L TT X m → L ≡ₚ (a, n) :: L' →
  (∀ m', St F P L' TT X m' → Q tt m') → runs (Delete_node (Some a)) m Q.
Proof.
  intros H HL HQ. rewrite HL in H. destruct H as [H1 H2 H3 H4 H5 H6].
  assert (m_node m !! a = Some n) as Ea by (apply H4; left; apply list_elem_of_here).
  exists tt, (set_nodes (delete a) m). unfold Delete_node. rewrite Ea.
  split; [done|]. apply HQ. apply NoDup_cons in H5 as [H5 H5'].
  split; [done..| |done|].
  - intros b k. simpl. rewrite lookup_delete_Some, H4, elem_of_cons.
    assert (F !! a = None) by (apply H6, list_elem_of_here). split.
    + naive_solver.
    + intros [?|?]; (split; [|by auto]); [|congruence].
      intros <-. apply H5. by apply (list_elem_of_fmap_2 fst) in H0.
  - intros b Hb. apply H6. by apply list_elem_of_further.
Qed.

Lemma runs_upd_tree P L TT X m q t f (Q : _ → _ → Prop) :
  St F P L TT X m → TT !! q = Some t →
  (∀ m', St F P L (<[q := f t]> TT) X m' → Q tt m') →
  runs (upd_tree (Some q) f) m Q.
Proof.
  intros [H1 H2 H3 H4 H5 H6] Hq HQ. exists tt, (set_trees <[q := f t]> m).
  unfold upd_tree. rewrite H2, Hq. split; [done|]. apply HQ.
  split; simpl; [done|by rewrite H2|done..].
Qed.

Lemma runs_upd_prefix P L TT X m q x f (Q : _ → _ → Prop) :
  St F P L TT X m → P !! q = Some x →
  (∀ m', St F (<[q := f x]> P) L TT X m' → Q tt m') →
  runs (upd_prefix (Some q) f) m Q.
Proof.
  intros [H1 H2 H3 H4 H5 H6] Hq HQ. exists tt, (set_prefixes <[q := f x]> m).
  unfold upd_prefix. rewrite H1, Hq. split; [done|]. apply HQ.
  split; simpl; [by rewrite H1|done..].
Qed.

Lemma runs_delete_prefix P L TT X m q x (Q : _ → _ → Prop) :
  St F P L TT X m → P !! q = Some x →
  (∀ m', St F (delete q P) L TT X m' → Q tt m') →
  runs (Delete_prefix (Some q)) m Q.
Proof.
  intros [H1 H2 H3 H4 H5 H6] Hq HQ. exists tt, (set_prefixes (delete q) m).
  unfold Delete_prefix. rewrite H1, Hq. split; [done|]. apply HQ.
  split; simpl; [by rewrite H1|done..].
Qed.

Lemma runs_calloc_prefix P L TT X m (Q : _ → _ → Prop) :
  St F P L TT X m →
  (∀ q m', P !! q = None → St F (<[q := zero_prefix]> P) L TT X m' → Q (Some q) m') →
  runs calloc_prefix m Q.
Proof.
  intros [H1 H2 H3 H4 H5 H6] HQ.
  exists (Some (fresh (dom (m_prefix m)))),
    (set_prefixes <[fresh (dom (m_prefix m)) := zero_prefix]> m).
  split; [done|]. apply HQ; [rewrite <-H1; apply fresh_prefix_None|].
  split; simpl; [by rewrite H1|done..].
Qed.

Lemma runs_add_active P L TT X m q t d (Q : _ → _ → Prop) :
  St F P L TT X m → TT !! q = Some t → is_int (num_active_node t + d) →
  (∀ m', St F P L (<[q := with_num_active (num_active_node t + d) t]> TT) X m' → Q tt m') →
  runs (add_active (Some q) d) m Q.
Proof.
  intros H Hq Hd HQ. unfold add_active. apply runs_bind.
  eapply runs_get_tree; [done..|]. apply runs_bind, runs_chk_int; [done|].
  by eapply runs_upd_tree.
Qed.
End rules.
