(* ===== verification/PatTree.v ===== *)
(** * Tries as trees

    The shape of a Patricia trie, independent of memory.  A node is a [cell]:
    its address, its key (the bits it stands for), and the pointers it
    stores.  [flatten] lays a tree out as the nodes the C code has in memory,
    with child and parent pointers.  [ctx] is the path from a subtree to the
    head.  [wf] is the trie invariant, [entries] the abstract content. *)

From stdpp Require Import base gmap list strings.
From Stdlib Require Import ZArith Lia.
From S2P Require Import Prelude Bits PatMem PrefixCode.

Local Open Scope Z_scope.

Record cell := Cell {
  c_loc : loc;
  c_key : list bool;
  c_px : ptr;
  c_data : ptr;
  c_user : ptr
}.

Inductive tree := Leaf | Node (c : cell) (tl tr : tree).

Definition root (t : tree) : ptr :=
  match t with Leaf => NULL | Node c _ _ => Some (c_loc c) end.

Definition cnode (c : cell) (lp rp par : ptr) : patricia_node_t :=
  PNode (Z.of_nat (length (c_key c))) (c_px c) lp rp par (c_data c) (c_user c).

Fixpoint flatten (par : ptr) (t : tree) : list (loc * patricia_node_t) :=
  match t with
  | Leaf => []
  | Node c tl tr =>
      (c_loc c, cnode c (root tl) (root tr) par) ::
      flatten (Some (c_loc c)) tl ++ flatten (Some (c_loc c)) tr
  end.

Fixpoint cells (t : tree) : list cell :=
  match t with Leaf => [] | Node c tl tr => c :: cells tl ++ cells tr end.

Definition tsize (t : tree) : nat := length (cells t).

(** ** Contexts *)

(** A step from a node to its child: [dir] is true for the right child. *)
Record frame := Frame { f_dir : bool; f_cell : cell; f_sib : tree }.
Abbreviation ctx := (list frame) (only parsing).

Definition plug1 (f : frame) (s : tree) : tree :=
  if f_dir f then Node (f_cell f) (f_sib f) s else Node (f_cell f) s (f_sib f).
Fixpoint plug (C : ctx) (s : tree) : tree :=
  match C with [] => s | f :: C => plug C (plug1 f s) end.

Definition parent_of (C : ctx) : ptr :=
  match C with [] => NULL | f :: _ => Some (c_loc (f_cell f)) end.

(** The node of a frame whose focused child is [rt]. *)
Definition fnode (f : frame) (rt par : ptr) : patricia_node_t :=
  if f_dir f then cnode (f_cell f) (root (f_sib f)) rt par
  else cnode (f_cell f) rt (root (f_sib f)) par.

(** The nodes of a context around a focused subtree with root [rt]. *)
Fixpoint flatten_ctx (C : ctx) (rt : ptr) : list (loc * patricia_node_t) :=
  match C with
  | [] => []
  | f :: C =>
      (c_loc (f_cell f), fnode f rt (parent_of C)) ::
      flatten (Some (c_loc (f_cell f))) (f_sib f) ++
      flatten_ctx C (Some (c_loc (f_cell f)))
  end.

(** The head pointer of a context around root [rt]. *)
Fixpoint head_of (C : ctx) (rt : ptr) : ptr :=
  match C with [] => rt | f :: C => head_of C (Some (c_loc (f_cell f))) end.

Lemma root_plug1 f s : root (plug1 f s) = Some (c_loc (f_cell f)).
Proof. unfold plug1. by destruct (f_dir f). Qed.

Lemma root_plug C s : root (plug C s) = head_of C (root s).
Proof.
  revert s. induction C as [|f C IH]; intros s; simpl; [done|]. by rewrite IH, root_plug1.
Qed.

Lemma flatten_plug C s :
  flatten NULL (plug C s) ≡ₚ flatten (parent_of C) s ++ flatten_ctx C (root s).
Proof.
  revert s. induction C as [|f C IH]; intros s; simpl; [by rewrite app_nil_r|].
  rewrite IH, root_plug1. unfold plug1, fnode. destruct (f_dir f); simpl; solve_Permutation.
Qed.

Fixpoint ctx_cells (C : ctx) : list cell :=
  match C with [] => [] | f :: C => f_cell f :: cells (f_sib f) ++ ctx_cells C end.

Lemma cells_plug C s : cells (plug C s) ≡ₚ cells s ++ ctx_cells C.
Proof.
  revert s. induction C as [|f C IH]; intros s; simpl; [by rewrite app_nil_r|].
  rewrite IH. unfold plug1. destruct (f_dir f); simpl; solve_Permutation.
Qed.

Lemma plug_app C C' s : plug (C ++ C') s = plug C' (plug C s).
Proof. revert s. induction C; intros; simpl; auto. Qed.

Lemma flatten_length par t : length (flatten par t) = tsize t.
Proof.
  unfold tsize. revert par. induction t as [|c tl IHl tr IHr]; intros; simpl; [done|].
  by rewrite !length_app, IHl, IHr.
Qed.

Lemma flatten_locs par t : (flatten par t).*1 = c_loc <$> cells t.
Proof.
  revert par. induction t as [|c tl IHl tr IHr]; intros; simpl; [done|].
  by rewrite !fmap_app, IHl, IHr.
Qed.

(** ** The trie invariant *)

(** A dynamic IPv4 prefix object. *)
Record prefix_ok (x : prefix_t) : Prop := {
  po_family : family x = AF_INET;
  po_bitlen : 0 ≤ bitlen x ≤ 32;
  po_add : length (add x) = 4%nat;
  po_bytes : Forall is_byte (add x)
}.

(** The bits a prefix stands for. *)
Definition pbits (x : prefix_t) : list bool := take (Z.to_nat (bitlen x)) (bits_of (add x)).

(** The prefix object of a node is live, referenced, and has the node's key. *)
Definition px_ok (P : gmap loc prefix_t) (c : cell) : Prop :=
  match c_px c with
  | None => c_data c = NULL
  | Some q => ∃ x, P !! q = Some x ∧ prefix_ok x ∧ 0 < ref_count x ∧ pbits x = c_key c
  end.

(** All keys of a tree extend [k]. *)
Definition below (k : list bool) (t : tree) : Prop :=
  match t with Leaf => True | Node c _ _ => k `prefix_of` c_key c end.

(** A node without a prefix (a glue node) has both children. *)
Definition glue_ok (c : cell) (tl tr : tree) : Prop :=
  c_px c = NULL → tl ≠ Leaf ∧ tr ≠ Leaf.

Fixpoint wf (P : gmap loc prefix_t) (mb : nat) (t : tree) : Prop :=
  match t with
  | Leaf => True
  | Node c tl tr =>
      (length (c_key c) ≤ mb)%nat ∧ px_ok P c ∧ glue_ok c tl tr ∧
      below (c_key c ++ [false]) tl ∧ below (c_key c ++ [true]) tr ∧
      wf P mb tl ∧ wf P mb tr
  end.

(** ** Content: the nodes that hold a prefix, by key *)
Definition entry (c : cell) : list (list bool * cell) :=
  match c_px c with None => [] | Some _ => [(c_key c, c)] end.
Definition entries (t : tree) : list (list bool * cell) := cells t ≫= entry.

Lemma elem_of_entries k d t :
  (k, d) ∈ entries t ↔ d ∈ cells t ∧ c_px d ≠ NULL ∧ c_key d = k.
Proof.
  unfold entries. rewrite list_elem_of_bind. unfold entry. split.
  - intros (c & H & Hc). destruct (c_px c) eqn:E; [|by apply not_elem_of_nil in H].
    apply list_elem_of_singleton in H. simplify_eq. by rewrite E.
  - intros (Hd & Hq & <-). exists d. destruct (c_px d); [|done].
    split; [by apply list_elem_of_singleton|done].
Qed.

(** ** Consequences of the invariant *)

Lemma below_trans k k' t : k' `prefix_of` k → below k t → below k' t.
Proof. destruct t; simpl; [done|]. intros. by etrans. Qed.

Lemma prefix_snoc_l {A} (k : list A) b k' : (k ++ [b]) `prefix_of` k' → k `prefix_of` k'.
Proof. intros [z ->]. exists (b :: z). by rewrite <-app_assoc. Qed.

Lemma prefix_snoc_lookup {A} (k : list A) b k' :
  (k ++ [b]) `prefix_of` k' → k' !! length k = Some b.
Proof.
  intros [z ->]. rewrite <-app_assoc.
  rewrite lookup_app_r, Nat.sub_diag by lia. done.
Qed.

Lemma prefix_snoc_intro {A} (k k' : list A) b :
  k `prefix_of` k' → k' !! length k = Some b → (k ++ [b]) `prefix_of` k'.
Proof.
  intros [z ->] H. rewrite lookup_app_r, Nat.sub_diag in H by lia.
  destruct z; simplify_eq/=. exists z. by rewrite <-app_assoc.
Qed.

Lemma prefix_snoc_length {A} (k k' : list A) b :
  (k ++ [b]) `prefix_of` k' → (length k < length k')%nat.
Proof. intros H%prefix_length. rewrite length_app in H. simpl in H. lia. Qed.

Lemma prefix_take_eq {A} (k k' : list A) n :
  k `prefix_of` k' → (n ≤ length k)%nat → take n k = take n k'.
Proof. intros [z ->] H. by rewrite take_app_le. Qed.

Lemma prefix_of_lookup {A} (k k' : list A) i x :
  k `prefix_of` k' → k !! i = Some x → k' !! i = Some x.
Proof. intros [z ->] H. by apply lookup_app_l_Some. Qed.

Lemma prefix_same_length {A} (k k' : list A) :
  k `prefix_of` k' → length k = length k' → k = k'.
Proof.
  intros [z ->] H. rewrite length_app in H. destruct z; [by rewrite app_nil_r|simpl in H; lia].
Qed.

Lemma glue_ok_leaf_l c t : glue_ok c Leaf t ↔ c_px c ≠ NULL.
Proof. unfold glue_ok. naive_solver. Qed.
Lemma glue_ok_leaf_r c t : glue_ok c t Leaf ↔ c_px c ≠ NULL.
Proof. unfold glue_ok. naive_solver. Qed.
Lemma glue_ok_node_l c c' tl tr t : glue_ok c (Node c' tl tr) t ↔ (c_px c = NULL → t ≠ Leaf).
Proof. unfold glue_ok. naive_solver. Qed.
Lemma glue_ok_node_r c c' tl tr t : glue_ok c t (Node c' tl tr) ↔ (c_px c = NULL → t ≠ Leaf).
Proof. unfold glue_ok. naive_solver. Qed.

Section wf.
Context (P : gmap loc prefix_t) (mb : nat).

Lemma cells_below k t c : wf P mb t → below k t → c ∈ cells t → k `prefix_of` c_key c.
Proof.
  revert k. induction t as [|c' tl IHl tr IHr]; intros k; simpl;
    [by intros _ _ ?%not_elem_of_nil|].
  intros (_ & _ & _ & Hl & Hr & Wl & Wr) Hk [->|[Hc|Hc]%elem_of_app]%elem_of_cons; [done| |].
  - apply IHl; [done| |done]. eapply below_trans, Hl. by apply prefix_app_r.
  - apply IHr; [done| |done]. eapply below_trans, Hr. by apply prefix_app_r.
Qed.

Lemma cells_wf t c : wf P mb t → c ∈ cells t → (length (c_key c) ≤ mb)%nat ∧ px_ok P c.
Proof.
  induction t as [|c' tl IHl tr IHr]; simpl; [by intros _ ?%not_elem_of_nil|].
  intros (? & ? & _ & _ & _ & Wl & Wr) [->|[Hc|Hc]%elem_of_app]%elem_of_cons; auto.
Qed.

(** The two subtrees of a node have no key in common, nor with the node. *)
Lemma NoDup_keys t : wf P mb t → NoDup (c_key <$> cells t).
Proof.
  induction t as [|c tl IHl tr IHr]; simpl; [by constructor|].
  intros (_ & _ & _ & Hl & Hr & Wl & Wr).
  assert (∀ b t c', wf P mb t → below (c_key c ++ [b]) t → c' ∈ cells t →
    c_key c' !! length (c_key c) = Some b) as Hb.
  { intros b t c' W B Hc. eapply prefix_snoc_lookup, cells_below; done. }
  apply NoDup_cons. rewrite fmap_app. split.
  - rewrite elem_of_app, !list_elem_of_fmap.
    intros [(c' & E & Hc)|(c' & E & Hc)].
    + specialize (Hb _ _ _ Wl Hl Hc). rewrite <-E in Hb.
      apply lookup_lt_Some in Hb. lia.
    + specialize (Hb _ _ _ Wr Hr Hc). rewrite <-E in Hb.
      apply lookup_lt_Some in Hb. lia.
  - apply NoDup_app. split_and!; [auto| |auto].
    intros k (c1 & -> & H1)%list_elem_of_fmap (c2 & E & H2)%list_elem_of_fmap.
    specialize (Hb _ _ _ Wl Hl H1) as Hb1. specialize (Hb _ _ _ Wr Hr H2) as Hb2.
    congruence.
Qed.

Lemma cells_key_inj t c c' :
  wf P mb t → c ∈ cells t → c' ∈ cells t → c_key c = c_key c' → c = c'.
Proof.
  intros W. apply NoDup_keys in W. revert c c'.
  induction (cells t) as [|d ds IH]; intros c c'; [by intros ?%not_elem_of_nil|].
  simpl in W. apply NoDup_cons in W as [Hd W].
  intros [->|Hc]%elem_of_cons [->|Hc']%elem_of_cons E; [done|exfalso..|by apply IH].
  - apply Hd, list_elem_of_fmap. eauto.
  - apply Hd, list_elem_of_fmap. eauto.
Qed.

(** Distinct nodes refer to distinct prefix objects. *)
Lemma cells_px_inj t c c' q :
  wf P mb t → c ∈ cells t → c' ∈ cells t → c_px c = Some q → c_px c' = Some q → c = c'.
Proof.
  intros W Hc Hc' E E'. eapply cells_key_inj; [done..|].
  destruct (cells_wf _ _ W Hc) as [_ H]. destruct (cells_wf _ _ W Hc') as [_ H'].
  unfold px_ok in *. rewrite E in H. rewrite E' in H'.
  destruct H as (x & ? & _ & _ & <-), H' as (x' & ? & _ & _ & <-). by simplify_eq.
Qed.

(** ** Contexts *)
Definition fits (C : ctx) (k : list bool) : Prop :=
  match C with [] => True | f :: _ => (c_key (f_cell f) ++ [f_dir f]) `prefix_of` k end.

Fixpoint wf_ctx (C : ctx) : Prop :=
  match C with
  | [] => True
  | f :: C =>
      (length (c_key (f_cell f)) ≤ mb)%nat ∧ px_ok P (f_cell f) ∧
      (c_px (f_cell f) = NULL → f_sib f ≠ Leaf) ∧
      below (c_key (f_cell f) ++ [negb (f_dir f)]) (f_sib f) ∧ wf P mb (f_sib f) ∧
      fits C (c_key (f_cell f)) ∧ wf_ctx C
  end.

Definition focus_ok (C : ctx) (s : tree) : Prop :=
  match s with
  | Leaf => match C with [] => True | f :: _ => c_px (f_cell f) ≠ NULL end
  | Node c _ _ => fits C (c_key c)
  end.

Lemma wf_plug C s : wf P mb (plug C s) ↔ wf P mb s ∧ wf_ctx C ∧ focus_ok C s.
Proof.
  revert s. induction C as [|f C IH]; intros s; simpl.
  { unfold focus_ok, fits. destruct s; tauto. }
  rewrite IH. unfold plug1, focus_ok at 1.
  destruct (f_dir f) eqn:E; simpl; unfold focus_ok, fits; destruct s; simpl;
    rewrite ?E, ?glue_ok_leaf_l, ?glue_ok_leaf_r, ?glue_ok_node_l, ?glue_ok_node_r; tauto.
Qed.
End wf.

(** ** Joins: a node given by a child in direction [b] and the other child *)
Definition join (b : bool) (c : cell) (s s' : tree) : tree :=
  if b then Node c s' s else Node c s s'.
Definition jnode (b : bool) (c : cell) (rt rt' par : ptr) : patricia_node_t :=
  if b then cnode c rt' rt par else cnode c rt rt' par.

Lemma plug1_join f s : plug1 f s = join (f_dir f) (f_cell f) s (f_sib f).
Proof. done. Qed.

Lemma root_join b c s s' : root (join b c s s') = Some (c_loc c).
Proof. by destruct b. Qed.

Lemma cells_join b c s s' : cells (join b c s s') ≡ₚ c :: cells s ++ cells s'.
Proof. destruct b; simpl; solve_Permutation. Qed.

Lemma tsize_join b c s s' : tsize (join b c s s') = S (tsize s + tsize s').
Proof. unfold tsize. rewrite cells_join. simpl. by rewrite length_app. Qed.

Lemma flatten_join par b c s s' :
  flatten par (join b c s s') ≡ₚ
    (c_loc c, jnode b c (root s) (root s') par) ::
    flatten (Some (c_loc c)) s ++ flatten (Some (c_loc c)) s'.
Proof. destruct b; simpl; solve_Permutation. Qed.

Lemma wf_join P mb b c s s' :
  wf P mb (join b c s s') ↔
    (length (c_key c) ≤ mb)%nat ∧ px_ok P c ∧ glue_ok c s s' ∧
    below (c_key c ++ [b]) s ∧ below (c_key c ++ [negb b]) s' ∧ wf P mb s ∧ wf P mb s'.
Proof.
  destruct b; simpl; [|done].
  split; intros (? & ? & Hg & ? & ? & ? & ?); split_and!; try done; intros Hp; by destruct (Hg Hp).
Qed.

Lemma focus_ok_join C b c s s' : focus_ok C (join b c s s') ↔ fits C (c_key c).
Proof. by destruct b. Qed.

Lemma tsize_plug C s : tsize (plug C s) = (tsize s + length (ctx_cells C))%nat.
Proof. unfold tsize. by rewrite cells_plug, length_app. Qed.

Lemma entries_plug C s : entries (plug C s) ≡ₚ entries s ++ (ctx_cells C ≫= entry).
Proof. unfold entries. by rewrite cells_plug, bind_app. Qed.

Lemma entries_join b c s s' : entries (join b c s s') ≡ₚ entry c ++ entries s ++ entries s'.
Proof. unfold entries. by rewrite cells_join, bind_cons, bind_app. Qed.
