(* ===== verification/PatPath.v ===== *)
(** * Paths through a trie

    The loops of the trie code walk down from the head.  A position is a
    context [C] and a focused subtree [s] with [t = plug C s]; [on_path C k]
    says that the walk followed the bits of [k].  The lemmas here say which
    keys can be found where, and how long a path is. *)

From stdpp Require Import base gmap list strings.
From Stdlib Require Import ZArith Lia Sorted.
From S2P Require Import Prelude Bits PatMem PrefixCode Patricia PatState PatTree.

Local Open Scope Z_scope.

Definition child (b : bool) (tl tr : tree) : tree := if b then tr else tl.

(** The context one step below the node [c]. *)
Definition down (b : bool) (c : cell) (tl tr : tree) (C : ctx) : ctx :=
  Frame b c (child (negb b) tl tr) :: C.

Definition on_path (C : ctx) (k : list bool) : Prop :=
  Forall (λ f, k !! length (c_key (f_cell f)) = Some (f_dir f)) C.

Lemma plug_down b c tl tr C :
  plug (down b c tl tr C) (child b tl tr) = plug C (Node c tl tr).
Proof. by destruct b. Qed.

Lemma root_child b tl tr : (if b : bool then root tr else root tl) = root (child b tl tr).
Proof. by destruct b. Qed.

Lemma tsize_child b c tl tr : (tsize (child b tl tr) < tsize (Node c tl tr))%nat.
Proof. unfold tsize. simpl. rewrite length_app. destruct b; simpl; lia. Qed.

Lemma root_Some t a : root t = Some a → ∃ c tl tr, t = Node c tl tr ∧ a = c_loc c.
Proof. destruct t; intros; simplify_eq/=. eauto. Qed.

Lemma is_null_root t : is_null (root t) = true ↔ t = Leaf.
Proof. unfold is_null. rewrite bool_decide_eq_true. by destruct t. Qed.

Lemma on_path_down b c tl tr C k :
  on_path C k → k !! length (c_key c) = Some b → on_path (down b c tl tr C) k.
Proof. intros. by apply Forall_cons. Qed.

Lemma on_path_prefix C k k' : on_path C k → k `prefix_of` k' → on_path C k'.
Proof. intros H Hk. eapply Forall_impl; [done|]. intros f ?. by eapply prefix_of_lookup. Qed.

Section path.
Context (P : gmap loc prefix_t) (mb : nat).

Lemma node_in_plug C c tl tr :
  (c_loc c, cnode c (root tl) (root tr) (parent_of C)) ∈ flatten NULL (plug C (Node c tl tr)).
Proof. rewrite flatten_plug. simpl. left. Qed.

Lemma cell_in_ctx C f s : f ∈ C → f_cell f ∈ cells (plug C s).
Proof.
  intros Hf. rewrite cells_plug. apply elem_of_app. right.
  induction Hf; simpl; [left|right; apply elem_of_app; by right].
Qed.

Lemma focus_key C c tl tr : wf P mb (plug C (Node c tl tr)) → fits C (c_key c).
Proof. intros (_ & _ & H)%wf_plug. done. Qed.

(** Keys of the context are prefixes of any key that fits. *)
Lemma fits_prefix C k f : wf_ctx P mb C → fits C k → f ∈ C →
  (c_key (f_cell f) ++ [f_dir f]) `prefix_of` k.
Proof.
  revert k. induction C as [|g C IH]; intros k; simpl; [by intros _ _ ?%not_elem_of_nil|].
  intros (_ & _ & _ & _ & _ & Hf & W) Hk [->|Hf']%elem_of_cons; [done|].
  apply prefix_snoc_l in Hk. etrans; [by apply IH|done].
Qed.

Lemma fits_length C k : wf_ctx P mb C → fits C k → (length C ≤ length k)%nat.
Proof.
  revert k. induction C as [|f C IH]; intros k; simpl; [lia|].
  intros (_ & _ & _ & _ & _ & Hf & W) Hk%prefix_snoc_length. specialize (IH _ W Hf). lia.
Qed.

(** Key lengths grow strictly along a path. *)
Lemma ctx_sorted C : wf_ctx P mb C →
  StronglySorted (λ f g, length (c_key (f_cell g)) < length (c_key (f_cell f)))%nat C.
Proof.
  induction C as [|f C IH]; intros W; constructor; [apply IH; by apply W|].
  destruct W as (_ & _ & _ & _ & _ & Hf & W). apply Forall_forall. intros g Hg.
  eapply prefix_snoc_length, fits_prefix; done.
Qed.

(** A stored key compatible with the path is on it or below it. *)
Lemma path_focus C s d k :
  wf P mb (plug C s) → on_path C k → d ∈ cells (plug C s) → c_key d `prefix_of` k →
  d ∈ cells s ∨ d ∈ f_cell <$> C.
Proof.
  intros (_ & W & _)%wf_plug Hp Hd Hk. rewrite cells_plug in Hd.
  apply elem_of_app in Hd as [?|Hd]; [by left|right].
  induction C as [|f C IH]; [by apply not_elem_of_nil in Hd|].
  destruct W as (_ & _ & _ & Hb & Ws & _ & W). apply Forall_cons in Hp as [Hf Hp].
  simpl in Hd. apply elem_of_cons in Hd as [->|Hd]; [left|].
  apply elem_of_app in Hd as [Hd|Hd]; [|right; by apply IH]. exfalso.
  assert (k !! length (c_key (f_cell f)) = Some (negb (f_dir f))) as Hn.
  { eapply prefix_of_lookup; [done|].
    eapply prefix_snoc_lookup, cells_below; [exact Ws|exact Hb|done]. }
  rewrite Hf in Hn. by destruct (f_dir f).
Qed.

(** The root has the shortest key of a subtree. *)
Lemma cells_longer c tl tr d :
  wf P mb (Node c tl tr) → d ∈ cells (Node c tl tr) → d = c ∨ (length (c_key c) < length (c_key d))%nat.
Proof.
  intros (_ & _ & _ & Bl & Br & Wl & Wr) [->|[Hd|Hd]%elem_of_app]%elem_of_cons; [by left|right..].
  - eapply prefix_snoc_length, cells_below; [exact Wl|exact Bl|done].
  - eapply prefix_snoc_length, cells_below; [exact Wr|exact Br|done].
Qed.

Lemma on_path_shorter C k d : on_path C k → d ∈ f_cell <$> C → (length (c_key d) < length k)%nat.
Proof.
  intros Hp (f & -> & Hf)%list_elem_of_fmap. unfold on_path in Hp. rewrite Forall_forall in Hp.
  eapply lookup_lt_Some. by apply Hp.
Qed.
End path.

Lemma St_size F P L TT X m : St F P L TT X m → (length L ≤ size (m_node m))%nat.
Proof.
  intros H. rewrite <-(length_fmap fst L), <-size_dom.
  rewrite <-(size_list_to_set (C:=gset loc) L.*1) by apply H.
  apply subseteq_size. intros a Ha. apply elem_of_list_to_set in Ha.
  apply list_elem_of_fmap in Ha as ([b n] & -> & Hn). apply elem_of_dom. exists n.
  apply H. by left.
Qed.
