(* ===== verification/PatSearch.v ===== *)
(** * Correctness of the searches

    [Rep] relates a memory to a trie.  [patricia_search_exact] is a lookup in
    the finite map of stored prefixes, [patricia_search_best2] returns the
    longest stored prefix that matches. *)

From stdpp Require Import base gmap list strings.
From Stdlib Require Import ZArith Lia Sorted.
From S2P Require Import Prelude Bits PatMem PrefixCode Patricia PatState PatTree PatPath.

Local Open Scope Z_scope.

Definition key_bound (mbits : Z) : nat := Z.to_nat mbits `min` 32.

(** The trie struct at [T] represents [t] in [m]. *)
Record Rep F T mbits t P TT X m : Prop := {
  rep_st : St F P (flatten NULL t) TT X m;
  rep_tree : TT !! T = Some (PTree (root t) mbits (Z.of_nat (tsize t)));
  rep_wf : wf P (key_bound mbits) t;
  rep_mb : 0 ≤ mbits
}.

(** The prefix object at [q] can be used to query a trie with [mbits] bits. *)
Record Query mbits (P : gmap loc prefix_t) (q : loc) (x : prefix_t) : Prop := {
  q_lookup : P !! q = Some x;
  q_ok : prefix_ok x;
  q_le : bitlen x ≤ mbits
}.

(** The abstract value of a trie: a finite map from bit strings to the nodes
    that hold them. *)
Definition content (t : tree) : gmap (list bool) cell := list_to_map (entries t).

Lemma entry_keys c : (entry c).*1 = match c_px c with None => [] | Some _ => [c_key c] end.
Proof. unfold entry. by destruct (c_px c). Qed.

Lemma NoDup_entries P mb t : wf P mb t → NoDup (entries t).*1.
Proof.
  intros W%NoDup_keys. unfold entries. revert W.
  induction (cells t) as [|c cs IH]; [by constructor|].
  rewrite fmap_cons, bind_cons, fmap_app, entry_keys. intros [Hc W]%NoDup_cons.
  specialize (IH W). destruct (c_px c); [|done]. apply NoDup_cons. split; [|done].
  intros ([k a] & Ek & H)%list_elem_of_fmap. apply Hc.
  apply list_elem_of_bind in H as (c' & H & Hc'). unfold entry in H.
  destruct (c_px c'); [|by apply not_elem_of_nil in H].
  apply list_elem_of_singleton in H. simplify_eq/=. apply list_elem_of_fmap. eauto.
Qed.

Lemma content_Leaf : content Leaf = ∅.
Proof. done. Qed.

Lemma content_lookup P mb t k d :
  wf P mb t → content t !! k = Some d ↔ d ∈ cells t ∧ c_px d ≠ NULL ∧ c_key d = k.
Proof.
  intros W. rewrite <-elem_of_entries. unfold content. symmetry.
  apply elem_of_list_to_map. by eapply NoDup_entries.
Qed.

Section query.
Context (mbits : Z) (P : gmap loc prefix_t) (q : loc) (x : prefix_t).
Hypothesis HQ : Query mbits P q x.

Lemma query_addr_bit (i : nat) : (i < 32)%nat →
  ∃ b, bits_of (add x) !! i = Some b ∧ addr_bit (add x) (Z.of_nat i) = Ok b.
Proof using HQ.
  intros Hi. destruct (lookup_lt_is_Some_2 (bits_of (add x)) i) as [b Hb].
  { rewrite length_bits_of, (po_add _ (q_ok _ _ _ _ HQ)). lia. }
  exists b. split; [done|]. by apply addr_bit_spec.
Qed.

Lemma query_len : (Z.to_nat (bitlen x) ≤ key_bound mbits)%nat.
Proof using HQ. destruct HQ as [_ [_ ? _ _] ?]. unfold key_bound. lia. Qed.

Lemma query_pbits_len : length (pbits x) = Z.to_nat (bitlen x).
Proof using HQ.
  destruct HQ as [_ [_ ? H4 _] ?]. unfold pbits.
  rewrite length_take, length_bits_of, H4. lia.
Qed.

Lemma query_pbits_lenZ : Z.of_nat (length (pbits x)) = bitlen x.
Proof using HQ.
  rewrite query_pbits_len. pose proof (po_bitlen _ (q_ok _ _ _ _ HQ)). lia.
Qed.

Lemma query_pbits_lookup (i : nat) b :
  (i < Z.to_nat (bitlen x))%nat → bits_of (add x) !! i = Some b → pbits x !! i = Some b.
Proof using HQ. intros Hi Hb. unfold pbits. by rewrite lookup_take_lt. Qed.
End query.

Lemma rep_fuel F P t TT X m :
  St F P (flatten NULL t) TT X m → (tsize t < loop_fuel m)%nat.
Proof. intros H%St_size. rewrite flatten_length in H. unfold loop_fuel. lia. Qed.

(** ** The walk of the searches *)

Section search.
Context (F : gmap loc patricia_node_t) (P : gmap loc prefix_t) (mbits : Z).
Context (q : loc) (x : prefix_t) (HQ : Query mbits P q x).
Context (t : tree) (TT : gmap loc patricia_tree_t) (X : rest_t) (m : mem).
Context (HS : St F P (flatten NULL t) TT X m) (W : wf P (key_bound mbits) t).

(** Where a search stops: on the path of the bits of [x], at a null child or at
    the first node with at least as many bits. *)
Definition stops (C : ctx) (s : tree) : Prop :=
  t = plug C s ∧ on_path C (pbits x) ∧
  match s with Leaf => True | Node c _ _ => bitlen x ≤ Z.of_nat (length (c_key c)) end.

(** The addresses of the nodes of a path that hold a prefix. *)
Definition stack_of (ds : list cell) : list ptr :=
  (λ d, Some (c_loc d)) <$> filter (λ d, c_px d ≠ NULL) ds.

Lemma query_step c :
  Z.of_nat (length (c_key c)) < bitlen x →
  ∃ b, addr_bit (add x) (bit (cnode c NULL NULL NULL)) = Ok b ∧
       pbits x !! length (c_key c) = Some b.
Proof using HQ.
  intros Hlt. destruct (query_addr_bit _ _ _ _ HQ (length (c_key c))) as (b & Hb & Eb).
  { destruct HQ as [_ [_ ? _ _] _]. lia. }
  exists b. split; [done|]. eapply query_pbits_lookup; [done|lia|done].
Qed.

Lemma exact_loop_spec fuel C s :
  t = plug C s → s ≠ Leaf → on_path C (pbits x) → (tsize s ≤ fuel)%nat →
  runs (exact_loop fuel (add x) (bitlen x) (root s)) m
    (λ rp m', m' = m ∧ ∃ C' s', stops C' s' ∧ rp = root s').
Proof using HQ HS.
  revert C s. induction fuel as [|fuel IH]; intros C s Et Hs Hp Hf.
  { destruct s; [done|]. unfold tsize in Hf. simpl in Hf. lia. }
  destruct s as [|c tl tr]; [done|]. simpl.
  cstep. eapply runs_get_node; [done|rewrite Et; apply node_in_plug|]. simpl.
  destruct (Z.ltb_spec (Z.of_nat (length (c_key c))) (bitlen x)) as [Hlt|Hge].
  2:{ cstep. split; [done|]. by exists C, (Node c tl tr). }
  destruct (query_step c Hlt) as (b & Eb & Hb).
  cstep. eapply runs_lift; [done|]. rewrite root_child.
  pose proof (tsize_child b c tl tr). rewrite <-(plug_down b) in Et.
  destruct (is_null _) eqn:En.
  - apply is_null_root in En. cstep. split; [done|].
    exists (down b c tl tr C), Leaf. rewrite En in Et. split; [|done].
    split_and!; [done| |done]. by apply on_path_down.
  - eapply IH; [done| |by apply on_path_down|lia]. by rewrite <-is_null_root, En.
Qed.

Lemma stack_bound C s : t = plug C s → s ≠ Leaf → (length (stack_of (f_cell <$> C)) ≤ 32)%nat.
Proof using W.
  intros Et Hs. destruct s as [|c tl tr]; [done|]. rewrite Et in W.
  pose proof (focus_key _ _ _ _ _ _ W) as Hfit. apply wf_plug in W as ((Hl & _) & Wc & _).
  pose proof (fits_length _ _ _ _ Wc Hfit). unfold stack_of. rewrite length_fmap.
  pose proof (length_filter (λ d, c_px d ≠ NULL) (f_cell <$> C)). rewrite length_fmap in *.
  unfold key_bound in Hl. lia.
Qed.

(** Pushing the node [c], when it holds a prefix, on the stack of its path. *)
Lemma runs_push_cell C c tl tr (Q : list ptr → mem → Prop) :
  t = plug C (Node c tl tr) →
  Q (stack_of (c :: (f_cell <$> C))) m →
  runs (if negb (is_null (c_px c)) then push (Some (c_loc c)) (stack_of (f_cell <$> C))
        else mret (stack_of (f_cell <$> C))) m Q.
Proof using W.
  intros Et HQ'. unfold stack_of in HQ'. rewrite filter_cons in HQ'. unfold is_null, push.
  case_bool_decide as E; simpl.
  - rewrite decide_False in HQ' by (by intros []). by apply runs_ret.
  - rewrite decide_True in HQ' by done. rewrite decide_True; [by apply runs_ret|].
    pose proof (stack_bound C (Node c tl tr) Et ltac:(done)). unfold PATRICIA_MAXBITS. lia.
Qed.

Lemma best_loop_spec fuel C s :
  t = plug C s → s ≠ Leaf → on_path C (pbits x) → (tsize s ≤ fuel)%nat →
  runs (best_loop fuel (add x) (bitlen x) (root s) (stack_of (f_cell <$> C))) m
    (λ rs m', m' = m ∧ ∃ C' s', stops C' s' ∧ rs = (root s', stack_of (f_cell <$> C'))).
Proof using HQ HS W.
  revert C s. induction fuel as [|fuel IH]; intros C s Et Hs Hp Hf.
  { destruct s; [done|]. unfold tsize in Hf. simpl in Hf. lia. }
  destruct s as [|c tl tr]; [done|]. simpl.
  cstep. eapply runs_get_node; [done|rewrite Et; apply node_in_plug|]. simpl.
  destruct (Z.ltb_spec (Z.of_nat (length (c_key c))) (bitlen x)) as [Hlt|Hge].
  2:{ cstep. split; [done|]. by exists C, (Node c tl tr). }
  destruct (query_step c Hlt) as (b & Eb & Hb).
  cstep. eapply runs_push_cell; [done|].
  cstep. eapply runs_lift; [done|]. rewrite root_child.
  pose proof (tsize_child b c tl tr). rewrite <-(plug_down b) in Et.
  destruct (is_null _) eqn:En.
  - apply is_null_root in En. cstep. split; [done|].
    exists (down b c tl tr C), Leaf. rewrite En in Et. split; [|done].
    split_and!; [done| |done]. by apply on_path_down.
  - eapply (IH (down b c tl tr C)); [done| |by apply on_path_down|lia].
    by rewrite <-is_null_root, En.
Qed.

(** ** Comparing stored prefixes with the query *)

Lemma runs_comp_prefix q1 q2 x1 x2 (n : nat) (Q : bool → mem → Prop) :
  P !! q1 = Some x1 → P !! q2 = Some x2 → prefix_ok x1 → prefix_ok x2 → (n ≤ 32)%nat →
  Q (bool_decide (take n (bits_of (add x1)) = take n (bits_of (add x2)))) m →
  runs (comp_prefix (Some q1) (Some q2) (Z.of_nat n)) m Q.
Proof using HS.
  intros H1 H2 O1 O2 Hn HQ'. unfold comp_prefix, prefix_tochar.
  cstep. cstep. eapply runs_get_prefix; [done..|]. cstep.
  cstep. cstep. eapply runs_get_prefix; [done..|]. cstep.
  eapply runs_lift; [|done]. destruct O1 as [_ _ ? ?], O2 as [_ _ ? ?].
  apply comp_with_mask_correct; [done..|lia|lia].
Qed.

(** The prefix object of a node. *)
Lemma cell_prefix d q1 :
  d ∈ cells t → c_px d = Some q1 →
  ∃ x1, P !! q1 = Some x1 ∧ prefix_ok x1 ∧ 0 < ref_count x1 ∧ pbits x1 = c_key d ∧
    bitlen x1 = Z.of_nat (length (c_key d)) ∧ (length (c_key d) ≤ 32)%nat.
Proof using W.
  intros Hd E. destruct (cells_wf _ _ _ _ W Hd) as [Hl H]. unfold px_ok in H. rewrite E in H.
  destruct H as (x1 & Hx & Ho & Hr & Hk). exists x1. split_and!; [done..| |].
  - rewrite <-Hk. unfold pbits. rewrite length_take, length_bits_of.
    destruct Ho as [_ ? -> _]. lia.
  - unfold key_bound in Hl. lia.
Qed.

(** Comparing under the stored length, with the length guard, decides whether
    the stored key is a prefix of the query. *)
Lemma match_prefix x1 k :
  prefix_ok x1 → pbits x1 = k →
  bool_decide (take (length k) (bits_of (add x1)) = take (length k) (bits_of (add x))) &&
    (Z.of_nat (length k) <=? bitlen x) = bool_decide (k `prefix_of` pbits x).
Proof using HQ.
  intros Ho Hk.
  assert (Z.to_nat (bitlen x1) = length k) as Hl.
  { rewrite <-Hk. unfold pbits. rewrite length_take, length_bits_of.
    destruct Ho as [_ ? -> _]. lia. }
  unfold pbits in Hk. rewrite Hl in Hk. rewrite Hk.
  pose proof (query_pbits_lenZ _ _ _ _ HQ) as Hn.
  apply eq_bool_prop_intro. rewrite andb_True, !bool_decide_spec, Is_true_true, Z.leb_le. split.
  - intros [E Hle]. exists (drop (length k) (pbits x)). rewrite E at 1.
    unfold pbits. rewrite <-(take_drop (length k) (take (Z.to_nat _) _)) at 1. f_equal.
    rewrite take_take. f_equal. lia.
  - intros Hp. pose proof (prefix_length _ _ Hp). split; [|lia].
    rewrite <-(firstn_all k) at 1. rewrite (prefix_take_eq _ _ _ Hp) by done.
    unfold pbits. rewrite take_take. f_equal. lia.
Qed.

Lemma match_exact x1 k :
  prefix_ok x1 → pbits x1 = k → Z.of_nat (length k) = bitlen x →
  bool_decide (take (length k) (bits_of (add x1)) = take (length k) (bits_of (add x))) =
    bool_decide (k = pbits x).
Proof using HQ.
  intros Ho Hk Hl. pose proof (match_prefix _ _ Ho Hk) as Hm. rewrite Hl, Z.leb_refl, andb_true_r in Hm.
  rewrite Hm. apply bool_decide_ext. split; [|by intros ->]. intros ?.
  apply prefix_same_length; [done|]. rewrite (query_pbits_len _ _ _ _ HQ). lia.
Qed.

(** ** Exact search *)

Lemma stops_exact C s d :
  stops C s → d ∈ cells t → c_key d = pbits x → ∃ tl tr, s = Node d tl tr.
Proof using HQ W.
  intros (Et & Hp & Hs) Hd E. rewrite Et in W, Hd.
  destruct (path_focus _ _ _ _ _ (pbits x) W Hp Hd) as [Hd'|Hd']; [by rewrite E| |].
  - destruct s as [|c tl tr]; [by apply not_elem_of_nil in Hd'|].
    apply wf_plug in W as (Ws & _).
    destruct (cells_longer _ _ _ _ _ _ Ws Hd') as [->|Hlt]; [by eauto|].
    rewrite E, (query_pbits_len _ _ _ _ HQ) in Hlt. lia.
  - apply (on_path_shorter _ _ _ Hp) in Hd'. rewrite E in Hd'. lia.
Qed.

Lemma content_none C s :
  stops C s → (∀ c tl tr, s = Node c tl tr → c_px c ≠ NULL → c_key c ≠ pbits x) →
  content t !! pbits x = None.
Proof using HQ W.
  intros Hst Hno. apply eq_None_not_Some. intros [a Ha].
  eapply content_lookup in Ha as (Hd & Eq & Ek); [|done].
  destruct (stops_exact _ _ _ Hst Hd Ek) as (tl & tr & ->). by eapply Hno.
Qed.
End search.

(** The part of the searches before the walk. *)
Lemma runs_search_head F P mbits T q x t TT X m (k : prefix_t → patricia_tree_t → M mem ptr) Q :
  Rep F T mbits t P TT X m → Query mbits P q x →
  runs (k x (PTree (root t) mbits (Z.of_nat (tsize t)))) m Q →
  runs (assert (negb (is_null (Some T)));; assert (negb (is_null (Some q)));;
        px ← get_prefix (Some q); t ← get_tree (Some T);
        assert (bitlen px <=? maxbits t);; k px t) m Q.
Proof.
  intros [HS HT W ?] [Hq Ho Hle] Hk. cstep. apply runs_assert; [done|].
  cstep. apply runs_assert; [done|]. cstep. eapply runs_get_prefix; [done..|].
  cstep. eapply runs_get_tree; [done..|]. cstep.
  apply runs_assert; [simpl; by apply Z.leb_le|done].
Qed.

Lemma search_exact_spec F P mbits T q x t TT X m :
  Rep F T mbits t P TT X m → Query mbits P q x →
  runs (patricia_search_exact (Some T) (Some q)) m
    (λ r m', m' = m ∧ r = c_loc <$> content t !! pbits x).
Proof.
  intros HR HQ.
  eapply runs_search_head; [done..|]. destruct HR as [HS HT W ?]. simpl.
  destruct (is_null (root t)) eqn:En.
  { apply is_null_root in En as ->. cstep. done. }
  cstep. unfold prefix_touchar. cstep. eapply runs_get_prefix; [done|apply HQ|]. cstep.
  cstep. apply runs_gets. cstep. eapply runs_mono.
  { eapply (exact_loop_spec F P mbits q x HQ t TT X m HS _ [] t); [done| |constructor|].
    - by rewrite <-is_null_root, En.
    - pose proof (rep_fuel _ _ _ _ _ _ HS). lia. }
  intros rp m' (-> & C & s & Hst & ->).
  destruct (is_null (root s)) eqn:Es.
  { apply is_null_root in Es as ->. cstep. split; [done|]. symmetry.
    erewrite content_none; [done..|]. naive_solver. }
  destruct s as [|c tl tr]; [done|]. pose proof Hst as (Et & Hp & Hlen).
  cstep. eapply runs_get_node; [done|rewrite Et; apply node_in_plug|]. simpl.
  assert (c ∈ cells t) as Hc by (rewrite Et, cells_plug; left).
  destruct ((bitlen x <? Z.of_nat (length (c_key c))) || is_null (c_px c)) eqn:Ec.
  { cstep. split; [done|]. erewrite content_none; [done..|].
    intros c' ?? [= <- <- <-] Hpx E. pose proof (query_pbits_lenZ _ _ _ _ HQ) as Hn.
    rewrite <-E in Hn. unfold is_null in Ec. rewrite bool_decide_false in Ec by done.
    destruct (Z.ltb_spec (bitlen x) (Z.of_nat (length (c_key c)))); [lia|done]. }
  apply orb_false_iff in Ec as [Hge%Z.ltb_ge Hpx].
  destruct (c_px c) as [q1|] eqn:Eq; [|done].
  destruct (cell_prefix _ _ _ W _ _ Hc Eq) as (x1 & Hx1 & Ho1 & _ & Hk1 & Hb1 & H32).
  cstep. apply runs_assert; [apply Z.eqb_eq; lia|].
  cstep. eapply runs_get_prefix; [done..|]. cstep. apply runs_assert; [apply Z.eqb_eq; lia|].
  replace (bitlen x) with (Z.of_nat (length (c_key c))) by lia.
  cstep. eapply runs_comp_prefix; [done|done|apply HQ|done|apply HQ|done|]. cstep.
  split; [done|].
  rewrite (match_exact _ _ _ _ HQ x1) by (done || lia). case_bool_decide as Hk.
  - erewrite (proj2 (content_lookup _ _ _ _ c W)); [done|]. by rewrite Eq.
  - erewrite content_none; [done..|]. by intros c' ?? [= <- <- <-] _ E.
Qed.

(** ** Longest-prefix match *)

(** [r] is the node of a longest stored key that satisfies [ok], or null when
    there is none. *)
Definition longest_match (t : tree) (ok : list bool → Prop) (r : ptr) : Prop :=
  match r with
  | None => ∀ k d, content t !! k = Some d → ¬ ok k
  | Some a => ∃ k d, content t !! k = Some d ∧ c_loc d = a ∧ ok k ∧
      ∀ k' d', content t !! k' = Some d' → ok k' → (length k' ≤ length k)%nat
  end.

(** The keys a best search may return: those that match, and when the search
    is not inclusive only the shorter ones. *)
Definition best_candidate (x : prefix_t) (inclusive : bool) (k : list bool) : Prop :=
  k `prefix_of` pbits x ∧ (inclusive = true ∨ (length k < length (pbits x))%nat).

Lemma flatten_cell par t d :
  d ∈ cells t → ∃ lp rp par', (c_loc d, cnode d lp rp par') ∈ flatten par t.
Proof.
  revert par. induction t as [|c tl IHl tr IHr]; intros par; [by intros ?%not_elem_of_nil|].
  simpl. intros [->|[Hd|Hd]%elem_of_app]%elem_of_cons; [by do 3 eexists; left|..].
  - destruct (IHl (Some (c_loc c)) Hd) as (lp & rp & par' & H). exists lp, rp, par'.
    right. apply elem_of_app. by left.
  - destruct (IHr (Some (c_loc c)) Hd) as (lp & rp & par' & H). exists lp, rp, par'.
    right. apply elem_of_app. by right.
Qed.

(** The first of a list with decreasing keys that satisfies [p] is a longest. *)
Lemma find_longest (p : cell → bool) ds d :
  StronglySorted (λ d d', length (c_key d') < length (c_key d))%nat ds → List.find p ds = Some d →
  d ∈ ds ∧ p d = true ∧ ∀ d', d' ∈ ds → p d' = true → (length (c_key d') ≤ length (c_key d))%nat.
Proof.
  induction 1 as [|c ds Hs IH Hc]; simpl; [done|]. destruct (p c) eqn:E.
  - intros [= ->]. split_and!; [left|done|]. intros d' [->|Hd]%elem_of_cons _; [done|].
    rewrite Forall_forall in Hc. specialize (Hc _ Hd). simpl in Hc. lia.
  - intros (H1 & H2 & H3)%IH. split_and!; [by right|done|].
    intros d' [->|Hd]%elem_of_cons Hp; [congruence|auto].
Qed.

Lemma StronglySorted_filter {A} (R : A → A → Prop) (p : A → Prop) `{∀ a, Decision (p a)} l :
  StronglySorted R l → StronglySorted R (filter p l).
Proof.
  induction 1 as [|a l Hs IH Ha]; [constructor|]. rewrite filter_cons.
  case_decide; [|done]. constructor; [done|]. rewrite Forall_forall in *.
  intros b [_ Hb]%list_elem_of_filter. by apply Ha.
Qed.

Section best.
Context (F : gmap loc patricia_node_t) (P : gmap loc prefix_t) (mbits : Z).
Context (q : loc) (x : prefix_t) (HQ : Query mbits P q x).
Context (t : tree) (TT : gmap loc patricia_tree_t) (X : rest_t) (m : mem).
Context (HS : St F P (flatten NULL t) TT X m) (W : wf P (key_bound mbits) t).

Definition matches (d : cell) : bool := bool_decide (c_key d `prefix_of` pbits x).

Lemma pop_loop_spec ds :
  Forall (λ d, d ∈ cells t ∧ c_px d ≠ NULL) ds →
  runs (pop_loop (Some q) (bitlen x) ((λ d, Some (c_loc d)) <$> ds)) m
    (λ rp m', m' = m ∧ rp = c_loc <$> List.find matches ds).
Proof using HQ HS W.
  induction 1 as [|d ds [Hd Hpx] _ IH]; simpl; [by cstep|].
  destruct (flatten_cell NULL t d Hd) as (lp & rp & par & Hn).
  destruct (c_px d) as [q1|] eqn:Eq; [|done].
  destruct (cell_prefix _ _ _ W _ _ Hd Eq) as (x1 & Hx1 & Ho1 & _ & Hk1 & Hb1 & H32).
  cstep. eapply runs_get_node; [done..|]. simpl. rewrite Eq.
  cstep. eapply runs_get_prefix; [done..|]. rewrite Hb1.
  cstep. eapply runs_comp_prefix; [done|done|apply HQ|done|apply HQ|done|].
  rewrite (match_prefix _ _ _ _ HQ x1) by done. fold (matches d).
  destruct (matches d); [by cstep|done].
Qed.

(** The cells a best search pops, from the position where it stopped. *)
Definition popped (inclusive : bool) (C : ctx) (s : tree) : list cell :=
  filter (λ d, c_px d ≠ NULL)
    (match s with Node c _ _ => if inclusive then [c] else [] | Leaf => [] end ++ (f_cell <$> C)).

Lemma popped_sorted i C s : stops x t C s →
  StronglySorted (λ d d', length (c_key d') < length (c_key d))%nat (popped i C s).
Proof using W.
  intros (Et & _ & _). rewrite Et in W. apply StronglySorted_filter.
  pose proof W as (_ & Wc & Hfo)%wf_plug.
  assert (StronglySorted (λ d d', length (c_key d') < length (c_key d))%nat (f_cell <$> C)) as Hs.
  { clear -Wc. apply ctx_sorted in Wc. induction Wc as [|f C ? IH Hf]; simpl; constructor; [done|].
    rewrite Forall_fmap. done. }
  destruct s as [|c tl tr]; [done|]. destruct i; [|done]. simpl. constructor; [done|].
  apply Forall_fmap, Forall_forall. intros f Hf. simpl.
  eapply prefix_snoc_length, fits_prefix; [done| |done]. by eapply focus_key.
Qed.

(** Every candidate is popped, and what is popped and matches is a candidate. *)
Lemma popped_candidates i C s d : stops x t C s →
  (d ∈ popped i C s ∧ matches d = true) ↔
  (d ∈ cells t ∧ c_px d ≠ NULL ∧ best_candidate x i (c_key d)).
Proof using HQ W.
  intros (Et & Hp & Hs). unfold popped, matches, best_candidate.
  rewrite list_elem_of_filter, elem_of_app, bool_decide_eq_true.
  pose proof (query_pbits_lenZ _ _ _ _ HQ) as Hn. split.
  - intros [[Hpx [Hd|Hd]] Hk].
    + destruct s as [|c tl tr]; [by apply not_elem_of_nil in Hd|].
      destruct i; [|by apply not_elem_of_nil in Hd]. apply list_elem_of_singleton in Hd as ->.
      rewrite Et, cells_plug. split_and!; [left|done|done|by left].
    + pose proof (on_path_shorter _ _ _ Hp Hd). apply list_elem_of_fmap in Hd as (f & -> & Hf).
      split_and!; [|done|done|by right]. rewrite Et. by apply cell_in_ctx.
  - intros (Hd & Hpx & Hk & Hi). split_and!; [done| |done].
    rewrite Et in W, Hd. destruct (path_focus _ _ _ _ _ _ W Hp Hd Hk) as [Hd'|]; [left|by right].
    destruct s as [|c tl tr]; [done|]. apply wf_plug in W as (Ws & _).
    apply prefix_length in Hk.
    destruct (cells_longer _ _ _ _ _ _ Ws Hd') as [->|Hlt]; [|lia].
    destruct Hi as [->|Hlt]; [left|lia].
Qed.

Lemma find_popped i C s : stops x t C s →
  longest_match t (best_candidate x i) (c_loc <$> List.find matches (popped i C s)).
Proof using HQ W.
  intros Hst. destruct (List.find _ _) as [d|] eqn:E; simpl.
  - destruct (find_longest _ _ _ (popped_sorted _ _ _ Hst) E) as (Hd & Hm & Hmax).
    destruct (proj1 (popped_candidates _ _ _ _ Hst) (conj Hd Hm)) as (Hc & Hpx & Hb).
    exists (c_key d), d. split_and!; [by eapply content_lookup|done..|].
    intros k' d' Ha Hk. eapply content_lookup in Ha as (Hd' & Hpx' & <-); [|done].
    destruct (proj2 (popped_candidates i _ _ d' Hst)) as [? ?]; auto.
  - intros k d' Ha Hk. eapply content_lookup in Ha as (Hd' & Hpx' & <-); [|done].
    destruct (proj2 (popped_candidates i _ _ d' Hst)) as [Hin Hm]; [done|].
    apply list_elem_of_In in Hin. pose proof (List.find_none _ _ E _ Hin). congruence.
Qed.

(** The stack after the optional push of the last node. *)
Lemma runs_push_last i C s (Q : list ptr → mem → Prop) : stops x t C s →
  Q ((λ d, Some (c_loc d)) <$> popped i C s) m →
  runs (if i && negb (is_null (root s)) then
          nd ← get_node (root s);
          if negb (is_null (prefix nd)) then push (root s) (stack_of (f_cell <$> C))
          else mret (stack_of (f_cell <$> C))
        else mret (stack_of (f_cell <$> C))) m Q.
Proof using HS W.
  intros (Et & _) HQ'. unfold popped in HQ'. destruct s as [|c tl tr].
  { rewrite andb_false_r. by apply runs_ret. }
  destruct i; [|by apply runs_ret]. simpl. cstep.
  eapply runs_get_node; [done|rewrite Et; apply node_in_plug|]. simpl.
  eapply runs_push_cell; done.
Qed.
End best.

Lemma search_best2_spec F P mbits T q x t TT X m inclusive :
  Rep F T mbits t P TT X m → Query mbits P q x →
  runs (patricia_search_best2 (Some T) (Some q) inclusive) m
    (λ r m', m' = m ∧ longest_match t (best_candidate x inclusive) r).
Proof.
  intros HR HQ.
  eapply runs_search_head; [done..|]. destruct HR as [HS HT W ?]. simpl.
  destruct (is_null (root t)) eqn:En.
  { apply is_null_root in En as ->. cstep. split; [done|]. intros k d Ha. by rewrite content_Leaf, lookup_empty in Ha. }
  cstep. unfold prefix_touchar. cstep. eapply runs_get_prefix; [done|apply HQ|]. cstep.
  cstep. apply runs_gets. cstep. eapply runs_mono.
  { eapply (best_loop_spec F P mbits q x HQ t TT X m HS W _ [] t); [done| |constructor|].
    - by rewrite <-is_null_root, En.
    - pose proof (rep_fuel _ _ _ _ _ _ HS). lia. }
  intros rs m' (-> & C & s & Hst & ->).
  cstep. eapply runs_push_last; [done..|]. eapply runs_mono.
  { eapply pop_loop_spec; [done..|]. apply Forall_forall. intros d Hd.
    unfold popped in Hd. apply list_elem_of_filter in Hd as [Hpx Hd]. split; [|done].
    destruct Hst as (Et & _ & _). rewrite Et. apply elem_of_app in Hd as [Hd|Hd].
    - destruct s; [by apply not_elem_of_nil in Hd|]. destruct inclusive; [|by apply not_elem_of_nil in Hd].
      apply list_elem_of_singleton in Hd as ->. rewrite cells_plug. left.
    - apply list_elem_of_fmap in Hd as (f & -> & Hf). by apply cell_in_ctx. }
  intros r m' [-> ->]. split; [done|]. by eapply find_popped.
Qed.
