(* ===== verification/PatDemo.v ===== *)
(** * The demo helpers and programs of the Patricia component

    [make_and_lookup], [try_search_exact], [lookup_then_remove],
    [try_search_best] of [patricia.c], and the [main]s of [demo.c] and
    [perf_test.c].  What they print is kept in [stdout]. *)

From stdpp Require Import base gmap list strings.
From Stdlib Require Import ZArith Lia.
From S2P Require Import Prelude Bits PatMem PrefixCode Patricia.

Local Open Scope Z_scope.

(** [printf (fmt, prefix_toa (p), p->bitlen)] with [fmt] = [a "%s/%d" b]. *)
Definition print_prefix (a : string) (p : ptr) (b : string) : M mem unit :=
  c ← prefix_toa p;
  x ← get_prefix p;
  m ← gets id;
  s ← from_option_or BadAccess (deref_char c m);
  printf (cs a ++ s ++ [47] ++ fmt_d (bitlen x) ++ cs b ++ [10]).

Definition make_and_lookup (T : ptr) (string : list Z) : M mem ptr :=
  pfx ← ascii2prefix AF_INET (Some string);
  print_prefix "make_and_lookup: " pfx "";;
  node ← patricia_lookup T pfx;
  Deref_Prefix pfx;;
  mret node.

Definition try_search_exact (T : ptr) (string : list Z) : M mem ptr :=
  pfx ← ascii2prefix AF_INET (Some string);
  print_prefix "try_search_exact: " pfx "";;
  node ← patricia_search_exact T pfx;
  (if is_null node then printf (cs "try_search_exact: not found" ++ [10])
   else nd ← get_node node; print_prefix "try_search_exact: " (prefix nd) " found");;
  Deref_Prefix pfx;;
  mret node.

Definition lookup_then_remove (T : ptr) (string : list Z) : M mem unit :=
  node ← try_search_exact T string;
  if negb (is_null node) then patricia_remove T node else mret tt.

(** The function has no [return]; its callers ignore the result. *)
Definition try_search_best (T : ptr) (string : list Z) : M mem unit :=
  pfx ← ascii2prefix AF_INET (Some string);
  print_prefix "try_search_best: " pfx "";;
  node ← patricia_search_best T pfx;
  (if is_null node then printf (cs "try_search_best: not found" ++ [10])
   else nd ← get_node node; print_prefix "try_search_best: " (prefix nd) " found");;
  Deref_Prefix pfx.

(** [func] of [demo.c]. *)
Definition demo_func (p : ptr) (_ : ptr) : M mem unit := print_prefix "node: " p "".

Definition print_total (T : ptr) : M mem unit :=
  t ← get_tree T;
  n ← patricia_walk_inorder (head t) demo_func;
  printf (fmt_d n ++ cs " total nodes." ++ [10]).

Definition demo_main : M mem unit :=
  tree ← New_Patricia 32;
  make_and_lookup tree (cs "127.0.0.0/8");;
  try_search_best tree (cs "127.0.0.1");;
  try_search_best tree (cs "10.0.0.1");;
  make_and_lookup tree (cs "10.42.42.0/24");;
  make_and_lookup tree (cs "10.42.69.0/24");;
  make_and_lookup tree (cs "10.0.0.0/8");;
  make_and_lookup tree (cs "10.0.0.0/9");;
  try_search_best tree (cs "10.42.42.0/24");;
  try_search_best tree (cs "10.10.10.10");;
  try_search_best tree (cs "10.10.10.1");;
  try_search_exact tree (cs "10.0.0.0");;
  try_search_exact tree (cs "10.0.0.0/8");;
  print_total tree;;
  lookup_then_remove tree (cs "42.0.0.0/8");;
  lookup_then_remove tree (cs "10.0.0.0/8");;
  try_search_exact tree (cs "10.0.0.0");;
  print_total tree;;
  Destroy_Patricia tree None.

(** ** [perf_test.c]

    [file] is what [fopen (argv[1], "r")] yields: [None] when it fails, else
    the lines [getline] returns (with their newline); [str] is [argv[2]].  The
    program ends with [exit (0)]; the time measurement is compiled out. *)
Definition perf_insert (T : ptr) (line : list Z) : M mem ptr :=
  pfx ← ascii2prefix AF_INET (Some line);
  node ← patricia_lookup T pfx;
  Deref_Prefix pfx;;
  mret node.

Fixpoint perf_load (T : ptr) (lines : list (list Z)) : M mem unit :=
  match lines with
  | [] => mret tt
  | line :: lines => perf_insert T line;; perf_load T lines
  end.

Definition perf_main (file : option (list (list Z))) (str : option (list Z)) : M mem Z :=
  tree ← New_Patricia 32;
  match file with
  | None => mret (-1)
  | Some lines =>
      perf_load tree lines;;
      perf_insert tree (default (cs "2.232.71.192/26") str);;
      make_and_lookup tree (cs "2.241.0.0/17");;
      try_search_best tree (cs "2.241.0.0/16");;
      try_search_best tree (cs "2.241.0.0/18");;
      try_search_exact tree (cs "2.241.0.0/16");;
      try_search_exact tree (cs "2.241.0.0/18");;
      make_and_lookup tree (cs "10.42.42.0/24");;
      make_and_lookup tree (cs "10.42.69.0/24");;
      make_and_lookup tree (cs "10.0.0.0/8");;
      make_and_lookup tree (cs "2.27.0.0/16");;
      try_search_best tree (cs "2.27.0.0/8");;
      try_search_best tree (cs "2.27.0.0/24");;
      try_search_exact tree (cs "2.27.0.0/8");;
      try_search_exact tree (cs "2.27.0.0/24");;
      Destroy_Patricia tree None;;
      printf (cs "Work Done " ++ [10]);;
      mret 0
  end.
