(* ===== verification/PatInsert.v ===== *)
(** * Correctness of insertion

    [patricia_lookup] finds the node of a prefix, and creates it when it is
    missing.  On the abstract value of the trie it is the insertion of a key,
    and it preserves the trie invariant in each of its four cases (a glue node
    reused, a new child, a new parent, a new glue node). *)

From stdpp Require Import base gmap list strings.
From Stdlib Require Import ZArith Lia Sorted.
From S2P Require Import Prelude Bits PatMem PrefixCode Patricia PatState PatTree PatPath PatSearch.

Local Open Scope Z_scope.

(** ** Taking a reference *)

(** The prefix object a node gets for the prefix [x] at [q]: the same object
    with one more reference, or a fresh copy of a static one. *)
Definition refd (P : gmap loc prefix_t) (q : loc) (x : prefix_t) (q' : loc) (x' : prefix_t) : Prop :=
  (ref_count x ≠ -1 ∧ q' = q ∧ x' = with_ref_count (ref_count x + 1) x) ∨
  (ref_count x = -1 ∧ P !! q' = None ∧ x' = Prefix AF_INET (bitlen x) 1 (add x)).

Definition ref_ok (x : prefix_t) : Prop := -1 ≤ ref_count x < INT_MAX.

Section refd.
Context (P : gmap loc prefix_t) (q : loc) (x : prefix_t) (q' : loc) (x' : prefix_t).
Context (Hq : P !! q = Some x) (Ho : prefix_ok x) (Hr : ref_ok x) (HR : refd P q x q' x').

Lemma refd_ok : prefix_ok x' ∧ 0 < ref_count x' ∧ pbits x' = pbits x.
Proof using Ho Hr HR.
  unfold ref_ok in Hr. destruct Ho as [? ? ? ?].
  destruct HR as [(? & -> & ->)|(? & ? & ->)]; split_and!; try done; simpl; lia.
Qed.

Lemma refd_px_ok c : px_ok P c → px_ok (<[q' := x']> P) c.
Proof using Hq Ho Hr HR.
  unfold px_ok. destruct (c_px c) as [q1|]; [|done]. intros (x1 & H1 & O1 & R1 & K1).
  destruct refd_ok as (Ho' & Hr' & Hk'). destruct (decide (q1 = q')) as [->|Hne].
  - exists x'. rewrite lookup_insert_eq. split_and!; [done..|].
    destruct HR as [(? & -> & _)|(_ & ? & _)]; congruence.
  - exists x1. by rewrite lookup_insert_ne.
Qed.

Lemma refd_wf mb t : wf P mb t → wf (<[q' := x']> P) mb t.
Proof using Hq Ho Hr HR.
  induction t as [|c tl IHl tr IHr]; simpl; [done|].
  intros (? & ? & ? & ? & ? & ? & ?). split_and!; auto. by apply refd_px_ok.
Qed.

Lemma refd_wf_ctx mb C : wf_ctx P mb C → wf_ctx (<[q' := x']> P) mb C.
Proof using Hq Ho Hr HR.
  induction C as [|f C IH]; simpl; [done|].
  intros (? & ? & ? & ? & ? & ? & ?). split_and!; auto using refd_px_ok, refd_wf.
Qed.
End refd.

Lemma runs_Ref_Prefix F P L TT X m q x (Q : ptr → mem → Prop) :
  St F P L TT X m → P !! q = Some x → prefix_ok x → ref_ok x →
  (∀ q' x' m', refd P q x q' x' → St F (<[q' := x']> P) L TT X m' → Q (Some q') m') →
  runs (Ref_Prefix (Some q)) m Q.
Proof.
  intros HS Hq Ho Hr HQ. unfold Ref_Prefix. cstep. eapply runs_get_prefix; [done..|].
  unfold ref_ok in Hr. destruct (Z.eqb_spec (ref_count x) (-1)) as [E|E].
  - unfold New_Prefix2. rewrite (po_family _ Ho). simpl. cstep. cstep.
    eapply runs_calloc_prefix; [done|]. intros q' m1 Hq' HS1. cstep. simpl.
    do 5 (cstep; eapply runs_upd_prefix;
      [eassumption|apply lookup_insert_eq|]; clear HS1; intros m2 HS1; rewrite insert_insert_eq in HS1;
      simpl in HS1; clear dependent m1; rename m2 into m1).
    cstep. apply HQ with (x' := Prefix AF_INET (bitlen x) 1 (add x)); [by right|].
    destruct Ho as [Hf Hb Ha _]. rewrite (proj2 (Z.leb_le 0 (bitlen x))) in HS1 by lia.
    rewrite (u16_small (bitlen x)) in HS1 by lia.
    by rewrite take_ge in HS1 by lia.
  - cstep. apply runs_chk_int; [unfold is_int, INT_MIN; lia|].
    cstep. eapply runs_upd_prefix; [done..|]. intros m' HS'. cstep.
    eapply HQ; [|done]. by left.
Qed.

(** ** The trie struct *)
Section tree_rules.
Context (F : gmap loc patricia_node_t) (P : gmap loc prefix_t) (T : loc) (mb : Z).
Implicit Types (TT : gmap loc patricia_tree_t) (L : list (loc * patricia_node_t)).

Lemma runs_count L TT X m h n d (Q : unit → mem → Prop) :
  St F P L (<[T := PTree h mb n]> TT) X m → is_int (n + d) →
  (∀ m', St F P L (<[T := PTree h mb (n + d)]> TT) X m' → Q tt m') →
  runs (add_active (Some T) d) m Q.
Proof.
  intros HS Hn HQ. eapply runs_add_active; [done|apply lookup_insert_eq|done|].
  intros m'. rewrite insert_insert_eq. apply HQ.
Qed.

Lemma runs_set_head L TT X m h n p (Q : unit → mem → Prop) :
  St F P L (<[T := PTree h mb n]> TT) X m →
  (∀ m', St F P L (<[T := PTree p mb n]> TT) X m' → Q tt m') →
  runs (upd_tree (Some T) (with_head p)) m Q.
Proof.
  intros HS HQ. eapply runs_upd_tree; [done|apply lookup_insert_eq|].
  intros m'. rewrite insert_insert_eq. apply HQ.
Qed.

(** The frame above a node does not have it as its other child. *)
Lemma sibling_ne L TT X m R f C a n :
  St F P L TT X m → L ≡ₚ R ++ flatten_ctx (f :: C) (Some a) → (a, n) ∈ R →
  root (f_sib f) ≠ Some a.
Proof.
  intros HS HL Ha Hr. apply root_Some in Hr as (c & tl & tr & E & ->).
  pose proof (st_nodup _ _ _ _ _ _ HS) as Hnd. rewrite HL in Hnd. simpl in Hnd. rewrite E in Hnd.
  rewrite fmap_app in Hnd. apply NoDup_app in Hnd as (_ & Hd & _).
  apply (Hd (c_loc c)); [by eapply (list_elem_of_fmap_2 fst) in Ha|]. simpl. right. left.
Qed.

(** Redirecting the pointer to [a] (in its parent or in the head) to [b]. *)
Lemma runs_replace_in_parent L R C TT X m a b n cnt (Q : unit → mem → Prop) :
  St F P L (<[T := PTree (head_of C (Some a)) mb cnt]> TT) X m →
  L ≡ₚ R ++ flatten_ctx C (Some a) → (a, n) ∈ R → parent n = parent_of C →
  (∀ m', St F P (R ++ flatten_ctx C (Some b)) (<[T := PTree (head_of C (Some b)) mb cnt]> TT) X m' →
    Q tt m') →
  runs (replace_in_parent (Some T) (Some a) (Some b)) m Q.
Proof.
  intros HS HL Ha Hp HQ. unfold replace_in_parent. cstep.
  eapply runs_get_node; [done|rewrite HL; apply elem_of_app; by left|]. rewrite Hp.
  destruct C as [|f C]; simpl in *.
  - rewrite app_nil_r in *. cstep. eapply runs_get_tree; [done|apply lookup_insert_eq|].
    cstep. apply runs_assert; [by apply bool_decide_eq_true|].
    eapply runs_set_head; [done|]. intros m' HS'. apply HQ. by rewrite <-HL.
  - pose proof (sibling_ne _ _ _ _ _ f C _ _ HS HL Ha) as Hs.
    cstep. eapply runs_get_node; [done|rewrite HL; apply elem_of_app; right; left|].
    assert (ptr_eq (r (fnode f (Some a) (parent_of C))) (Some a) = f_dir f) as ->.
    { unfold ptr_eq, fnode. destruct (f_dir f); simpl; [by apply bool_decide_eq_true|].
      by apply bool_decide_eq_false. }
    destruct (f_dir f) eqn:Ed;
      (eapply runs_upd_node; [done|rewrite HL; apply Permutation_sym, Permutation_middle|];
       intros m' HS'; apply HQ; eapply St_perm, HS'; unfold fnode; rewrite Ed;
       apply Permutation_middle).
Qed.
End tree_rules.

(** ** A new node *)
Definition new_cell (a : loc) (x : prefix_t) (q' : loc) : cell :=
  Cell a (pbits x) (Some q') NULL NULL.

Lemma runs_new_node_for F P L TT X m mbits q x (Q : ptr → mem → Prop) :
  St F P L TT X m → Query mbits P q x → ref_ok x →
  (∀ a q' x' m', a ∉ L.*1 → refd P q x q' x' →
    St F (<[q' := x']> P) ((a, cnode (new_cell a x q') NULL NULL NULL) :: L) TT X m' → Q (Some a) m') →
  runs (new_node_for (Some q)) m Q.
Proof.
  intros HS HQ Hr HK. pose proof HQ as [Hq Ho _]. unfold new_node_for.
  cstep. eapply runs_get_prefix; [done..|].
  cstep. eapply runs_calloc_node; [done|]. intros a m1 Ha HS1.
  cstep. eapply runs_upd_node; [done|done|]. clear HS1. intros m2 HS1.
  cstep. eapply runs_Ref_Prefix; [done..|]. intros q' x' m3 HR HS3.
  do 5 (cstep; eapply runs_upd_node; [eassumption|reflexivity|]; clear HS3; intros ? HS3).
  cstep. eapply HK; [done..|]. unfold cnode, new_cell. simpl in *.
  by rewrite (query_pbits_lenZ _ _ _ _ HQ).
Qed.

(** ** Where the insertion happens *)

(** The nodes above have fewer than [D] bits. *)
Definition above (D : nat) (C : ctx) : Prop :=
  match C with [] => True | f :: _ => (length (c_key (f_cell f)) < D)%nat end.

(** The insertion point of the key [k]: the focused node is the highest one
    with at least [D] bits, where [D] is the number of bits it shares with [k]. *)
Record position (t : tree) (k Bt : list bool) (D : nat) (C : ctx) (c : cell) (tl tr : tree)
    : Prop := {
  pos_t : t = plug C (Node c tl tr);
  pos_len : (D ≤ length (c_key c))%nat;
  pos_len_k : (D ≤ length k)%nat;
  pos_agree : take D (c_key c) = take D k;
  pos_above : above D C;
  pos_differ : (D < length (c_key c))%nat → (D < length k)%nat → c_key c !! D ≠ k !! D;
  pos_free : D = length (c_key c) → (D < length k)%nat →
    ∃ b, k !! D = Some b ∧ child b tl tr = Leaf;
  pos_test : c_key c `prefix_of` Bt
}.

Section walk.
Context (F : gmap loc patricia_node_t) (P : gmap loc prefix_t) (mbits : Z).
Context (q : loc) (x : prefix_t) (HQ : Query mbits P q x).
Context (t : tree) (TT : gmap loc patricia_tree_t) (X : rest_t) (m : mem).
Context (HS : St F P (flatten NULL t) TT X m) (W : wf P (key_bound mbits) t).

Lemma runs_guarded_bit addr (i : nat) b (Q : bool → mem → Prop) :
  (i < key_bound mbits)%nat → bits_of addr !! i = Some b → Q b m →
  runs (guarded_bit mbits addr (Z.of_nat i)) m Q.
Proof using.
  intros Hi Hb HQ'. unfold guarded_bit, key_bound in *.
  rewrite (proj2 (Z.ltb_lt _ _)) by lia. eapply runs_lift; [by apply addr_bit_spec|done].
Qed.

(** A node that is not a candidate end of the walk can test a bit. *)
Lemma inner_bound c tl tr :
  wf P (key_bound mbits) (Node c tl tr) →
  (Z.of_nat (length (c_key c)) <? bitlen x) || is_null (c_px c) = true →
  (length (c_key c) < key_bound mbits)%nat.
Proof using HQ.
  intros (_ & _ & Hg & Bl & _ & Wl & _) [Hlt%Z.ltb_lt|Hn]%orb_true_iff.
  - pose proof (query_len _ _ _ _ HQ). lia.
  - apply bool_decide_eq_true in Hn. destruct (Hg Hn) as [Hl _]. destruct tl as [|c' ??]; [done|].
    apply prefix_snoc_length in Bl. destruct Wl as (? & _). lia.
Qed.

(** The node the first loop stops at. *)
Definition landed (c : cell) (tl tr : tree) : Prop :=
  c_px c ≠ NULL ∧ (Z.of_nat (length (c_key c)) < bitlen x →
    ∃ b, bits_of (add x) !! length (c_key c) = Some b ∧ child b tl tr = Leaf).

Lemma descend_spec fuel C s :
  t = plug C s → s ≠ Leaf → on_path C (bits_of (add x)) → (tsize s ≤ fuel)%nat →
  runs (descend fuel mbits (add x) (bitlen x) (root s)) m (λ r m', m' = m ∧
    ∃ C' c tl tr, t = plug C' (Node c tl tr) ∧ r = Some (c_loc c) ∧
      on_path C' (bits_of (add x)) ∧ landed c tl tr).
Proof using HQ HS W.
  revert C s. induction fuel as [|fuel IH]; intros C s Et Hs Hp Hf.
  { destruct s; [done|]. unfold tsize in Hf. simpl in Hf. lia. }
  destruct s as [|c tl tr]; [done|]. simpl.
  cstep. eapply runs_get_node; [done|rewrite Et; apply node_in_plug|]. simpl.
  assert (wf P (key_bound mbits) (Node c tl tr)) as Ws by (rewrite Et in W; by apply wf_plug in W as [? _]).
  destruct ((_ <? _) || is_null (c_px c)) eqn:Ec.
  2:{ cstep. split; [done|]. exists C, c, tl, tr. apply orb_false_iff in Ec as [Hlt%Z.ltb_ge Hpx].
      split_and!; try done. split; [by apply bool_decide_eq_false in Hpx|lia]. }
  pose proof (inner_bound _ _ _ Ws Ec) as Hb.
  destruct (query_addr_bit _ _ _ _ HQ (length (c_key c))) as (b & Hb1 & _).
  { unfold key_bound in Hb. lia. }
  cstep. eapply runs_guarded_bit; [done..|]. rewrite root_child.
  pose proof (tsize_child b c tl tr). destruct (is_null (root _)) eqn:En.
  - apply is_null_root in En. cstep. split; [done|]. exists C, c, tl, tr.
    split_and!; try done. split; [|by eauto].
    destruct Ws as (_ & _ & Hg & _). intros Hpx. destruct (Hg Hpx). by destruct b.
  - rewrite <-(plug_down b) in Et. eapply IH; [done| |by apply on_path_down|lia].
    by rewrite <-is_null_root, En.
Qed.

Lemma ascend_spec fuel D C c tl tr :
  t = plug C (Node c tl tr) → (length C < fuel)%nat →
  runs (ascend fuel (Z.of_nat D) (Some (c_loc c))) m (λ r m', m' = m ∧
    ∃ C' c' tl' tr', t = plug C' (Node c' tl' tr') ∧ r = Some (c_loc c') ∧ above D C' ∧
      (C' = C ∧ c' = c ∧ tl' = tl ∧ tr' = tr ∨
       (D ≤ length (c_key c'))%nat ∧ ∃ b sib, Frame b c' sib ∈ C)).
Proof using HS.
  revert C c tl tr. induction fuel as [|fuel IH]; intros C c tl tr Et Hf; [lia|]. simpl.
  cstep. eapply runs_get_node; [done|rewrite Et; apply node_in_plug|]. simpl.
  destruct C as [|f C]; simpl.
  { cstep. split; [done|]. exists [], c, tl, tr. split_and!; try done. by left. }
  pose proof Et as Et'. simpl in Et'.
  assert (∃ tl' tr', plug1 f (Node c tl tr) = Node (f_cell f) tl' tr') as (tl' & tr' & E1).
  { unfold plug1. destruct (f_dir f); eauto. }
  rewrite E1 in Et'.
  cstep. eapply runs_get_node; [done|rewrite Et'; apply node_in_plug|]. simpl.
  destruct (Z.leb_spec (Z.of_nat D) (Z.of_nat (length (c_key (f_cell f))))) as [Hle|Hlt].
  - simpl in Hf. eapply runs_mono; [eapply IH; [done|lia]|].
    intros r m' (-> & C' & c' & tl2 & tr2 & E2 & -> & Hab & Hor). split; [done|].
    exists C', c', tl2, tr2. split_and!; [done..|]. right.
    destruct Hor as [(-> & -> & -> & ->)|(? & b & sib & Hin)].
    + split; [lia|]. exists (f_dir f), (f_sib f). destruct f. left.
    + split; [done|]. exists b, sib. by right.
  - cstep. split; [done|]. exists (f :: C), c, tl, tr. split_and!; try done; [simpl; lia|by left].
Qed.

Lemma ctx_size C s : (length C ≤ tsize (plug C s))%nat.
Proof using.
  unfold tsize. rewrite cells_plug, length_app.
  assert (length C ≤ length (ctx_cells C))%nat; [|lia].
  induction C as [|f C IH]; simpl; [lia|]. rewrite length_app. lia.
Qed.

(** After both loops the position is the insertion point. *)
Lemma position_of C c tl tr Bt C' c' tl' tr' :
  t = plug C (Node c tl tr) → on_path C (bits_of (add x)) → landed c tl tr →
  c_key c `prefix_of` Bt → let D := lcp (c_key c) (pbits x) in
  t = plug C' (Node c' tl' tr') → above D C' →
  (C' = C ∧ c' = c ∧ tl' = tl ∧ tr' = tr ∨
    (D ≤ length (c_key c'))%nat ∧ ∃ b sib, Frame b c' sib ∈ C) →
  position t (pbits x) Bt D C' c' tl' tr'.
Proof using HQ W.
  intros Et Hp [_ Hfree] Hbt D Et' Hab Hor.
  pose proof (query_pbits_lenZ _ _ _ _ HQ) as Hn.
  pose proof (lcp_length_l (c_key c) (pbits x)) as H1. pose proof (lcp_length_r (c_key c) (pbits x)) as H2.
  fold D in H1, H2. destruct Hor as [(-> & -> & -> & ->)|(HD & b & sib & Hin)].
  - split; try done; [by apply lcp_take|by apply lcp_differ|].
    intros E Hlt. destruct Hfree as (b & Hb & Hc); [lia|]. exists b. split; [|done].
    rewrite E. eapply query_pbits_lookup; [done|lia|done].
  - rewrite Et in W. pose proof (focus_key _ _ _ _ _ _ W) as Hfit. apply wf_plug in W as (_ & Wc & _).
    pose proof (fits_prefix _ _ _ _ _ Wc Hfit Hin) as Hpre. simpl in Hpre.
    unfold on_path in Hp. rewrite Forall_forall in Hp. specialize (Hp _ Hin). simpl in Hp.
    pose proof (prefix_snoc_l _ _ _ Hpre) as Hpre'.
    split; try done.
    + rewrite (prefix_take_eq _ _ _ Hpre') by done. by apply lcp_take.
    + intros Hlt Hlt'. destruct (lookup_lt_is_Some_2 _ _ Hlt) as [b' Hb'].
      rewrite Hb', <-(prefix_of_lookup _ _ _ _ Hpre' Hb'). apply lcp_differ; [|done].
      pose proof (prefix_length _ _ Hpre'). fold D. lia.
    + intros E Hlt. exfalso. pose proof (prefix_snoc_length _ _ _ Hpre).
      apply (lcp_differ (c_key c) (pbits x)); fold D; [lia|done|].
      rewrite E. rewrite (prefix_snoc_lookup _ _ _ Hpre). symmetry.
      eapply query_pbits_lookup; [done|lia|done].
    + by etrans.
Qed.
End walk.

(** ** The four insertions, on trees *)

Lemma content_insert P mb t t' k d :
  wf P mb t' → entries t' ≡ₚ (k, d) :: entries t →
  content t !! k = None ∧ content t' = <[k := d]> (content t).
Proof.
  intros W HE. pose proof (NoDup_entries _ _ _ W) as Hnd.
  pose proof Hnd as Hnd'. rewrite HE in Hnd'. simpl in Hnd'. apply NoDup_cons in Hnd' as [Hk _].
  split; [by apply not_elem_of_list_to_map|]. unfold content.
  by rewrite (list_to_map_proper _ _ Hnd HE).
Qed.

Section cases.
Context (P : gmap loc prefix_t) (mb : nat) (t : tree) (k Bt : list bool) (D : nat).
Context (C : ctx) (c : cell) (tl tr : tree).
Context (HP : position t k Bt D C c tl tr).

Lemma pos_fits : wf P mb t → fits C k.
Proof using HP.
  destruct HP as [Et _ HDk Hag Hab _ _ _]. intros W. rewrite Et in W.
  apply focus_key in W. destruct C as [|f C']; [done|]. simpl in *.
  assert ((c_key (f_cell f) ++ [f_dir f]) `prefix_of` take D k) as Hp.
  { rewrite <-Hag. exists (drop (S (length (c_key (f_cell f)))) (take D (c_key c))).
    destruct W as [z ->]. rewrite take_app_ge by (rewrite length_app; simpl; lia).
    rewrite drop_app_length'; [done|rewrite length_app; simpl; lia]. }
  etrans; [done|]. apply prefix_take.
Qed.

Lemma pos_fits_take : wf P mb t → fits C (take D k).
Proof using HP.
  intros W. pose proof (pos_fits W) as Hf. destruct HP as [Et _ HDk Hag Hab _ _ _].
  destruct C as [|f C']; [done|]. simpl in *. destruct Hf as [z ->].
  exists (take (D - length (c_key (f_cell f) ++ [f_dir f])) z).
  rewrite take_app_ge; [done|]. rewrite length_app. simpl. lia.
Qed.

Lemma pos_key_prefix : D = length (c_key c) → c_key c = take D k.
Proof using HP. intros E. rewrite <-(pos_agree _ _ _ _ _ _ _ _ HP), E. by rewrite firstn_all. Qed.

(** The bit of [k] at [D] leads away from the node. *)
Lemma pos_away b : (D < length (c_key c))%nat → k !! D = Some b →
  (take D k ++ [negb b]) `prefix_of` c_key c.
Proof using HP.
  intros Hlt Hb. pose proof (lookup_lt_Some _ _ _ Hb) as HDk.
  pose proof (pos_differ _ _ _ _ _ _ _ _ HP Hlt HDk) as Hd.
  destruct (lookup_lt_is_Some_2 _ _ Hlt) as [b' Hb'].
  rewrite <-(pos_agree _ _ _ _ _ _ _ _ HP).
  apply prefix_snoc_intro; [apply prefix_take|]. rewrite length_take_le by lia.
  rewrite Hb'. f_equal. rewrite Hb', Hb in Hd. destruct b, b'; naive_solver.
Qed.

Lemma pos_below : D = length k → (D < length (c_key c))%nat →
  ∃ b, Bt !! D = Some b ∧ (k ++ [b]) `prefix_of` c_key c.
Proof using HP.
  intros E Hlt. destruct (lookup_lt_is_Some_2 _ _ Hlt) as [b Hb]. exists b. split.
  - eapply prefix_of_lookup; [apply HP|done].
  - assert (k = take D (c_key c)) as Ek.
    { rewrite (pos_agree _ _ _ _ _ _ _ _ HP), E. by rewrite firstn_all. }
    apply prefix_snoc_intro; [rewrite Ek; apply prefix_take|]. by rewrite <-E.
Qed.

Context (W : wf P mb t) (n : cell) (Hn : c_key n = k) (Hpx : px_ok P n) (Hk : (length k ≤ mb)%nat).
Context (Hns : c_px n ≠ NULL).

Lemma n_wf : wf P mb (Node n Leaf Leaf).
Proof using Hpx Hk Hns Hn.
  simpl. rewrite Hn. by split_and!.
Qed.

Lemma wf_split : wf P mb (Node c tl tr) ∧ wf_ctx P mb C.
Proof using W HP. rewrite (pos_t _ _ _ _ _ _ _ _ HP) in W. apply wf_plug in W. tauto. Qed.

(** A glue node gets the prefix. *)
Lemma ins_same_wf : c_key c = k → wf P mb (plug C (Node n tl tr)).
Proof using All.
  intros E. destruct wf_split as [(? & ? & ? & ? & ? & ? & ?) Wc]. apply wf_plug. simpl.
  rewrite Hn, E in *. unfold glue_ok. split_and!; try done. by apply pos_fits.
Qed.

(** A new child. *)
Lemma ins_child_wf b : D = length (c_key c) → k !! D = Some b → child b tl tr = Leaf →
  wf P mb (plug C (join b c (Node n Leaf Leaf) (child (negb b) tl tr))).
Proof using All.
  intros E Hb Hl. destruct wf_split as [(? & ? & Hg & ? & ? & ? & ?) Wc].
  apply wf_plug. rewrite wf_join, focus_ok_join. split_and!; try done.
  - unfold glue_ok in *. intros Hp. destruct (Hg Hp), b; done.
  - simpl. rewrite Hn. rewrite (pos_key_prefix E). apply prefix_snoc_intro; [apply prefix_take|].
    rewrite length_take_le; [done|apply HP].
  - by destruct b.
  - apply n_wf.
  - by destruct b.
  - rewrite (pos_key_prefix E). by apply pos_fits_take.
Qed.

(** A new parent. *)
Lemma ins_parent_wf b : (k ++ [b]) `prefix_of` c_key c →
  wf P mb (plug C (join b n (Node c tl tr) Leaf)).
Proof using All.
  intros Hb. destruct wf_split as [Ws Wc]. apply wf_plug.
  rewrite wf_join, focus_ok_join, Hn. split_and!; try done. by apply pos_fits.
Qed.

(** A new glue node. *)
Lemma ins_glue_wf a b : (D < length (c_key c))%nat → k !! D = Some b →
  wf P mb (plug C (join b (Cell a (take D k) NULL NULL NULL) (Node n Leaf Leaf) (Node c tl tr))).
Proof using All.
  intros Hlt Hb. destruct wf_split as [Ws Wc]. apply wf_plug.
  rewrite wf_join, focus_ok_join. split_and!; try done; simpl.
  - rewrite length_take. lia.
  - rewrite Hn. apply prefix_snoc_intro; [apply prefix_take|].
    rewrite length_take_le; [done|apply HP].
  - by apply pos_away.
  - apply n_wf.
  - by apply pos_fits_take.
Qed.
End cases.

(** ** The four insertions, in memory *)

(** A key was missing and is now in the trie, at node [a]. *)
Definition inserted F T mbits q x t P TT X (r : ptr) (m' : mem) : Prop :=
  content t !! pbits x = None ∧
  ∃ t' a u q' x', r = Some a ∧ refd P q x q' x' ∧
    Rep F T mbits t' (<[q' := x']> P)
      (<[T := PTree (root t') mbits (Z.of_nat (tsize t'))]> TT) X m' ∧
    content t' = <[pbits x := Cell a (pbits x) (Some q') NULL u]> (content t).

Section insert_at.
Context (F : gmap loc patricia_node_t) (P : gmap loc prefix_t) (T : loc) (mbits : Z).
Context (q : loc) (x : prefix_t) (HQ : Query mbits P q x) (Hr : ref_ok x).
Context (t : tree) (TT : gmap loc patricia_tree_t) (X : rest_t) (m : mem).
Context (HR : Rep F T mbits t P TT X m) (Hsz : Z.of_nat (tsize t) + 2 ≤ INT_MAX).
Context (test : list Z) (D : nat) (C : ctx) (c : cell) (tl tr : tree).
Context (HP : position t (pbits x) (bits_of test) D C c tl tr).

(** The nodes of the trie around the insertion point. *)
Definition around : list (loc * patricia_node_t) :=
  flatten (Some (c_loc c)) tl ++ flatten (Some (c_loc c)) tr ++ flatten_ctx C (Some (c_loc c)).

Lemma nodes_at : flatten NULL t ≡ₚ (c_loc c, cnode c (root tl) (root tr) (parent_of C)) :: around.
Proof using HP.
  rewrite (pos_t _ _ _ _ _ _ _ _ HP), flatten_plug. simpl. unfold around. by rewrite app_assoc.
Qed.

Lemma at_St : St F P ((c_loc c, cnode c (root tl) (root tr) (parent_of C)) :: around)
  (<[T := PTree (head_of C (Some (c_loc c))) mbits (Z.of_nat (tsize t))]> TT) X m.
Proof using HP HR.
  destruct HR as [HS HT _ _]. rewrite <-nodes_at.
  rewrite insert_id; [done|]. rewrite HT, (pos_t _ _ _ _ _ _ _ _ HP), root_plug. done.
Qed.

(** Closing an insertion: the final nodes are those of a well-formed [t']. *)
Lemma inserted_intro t' a u q' x' L n h m' :
  refd P q x q' x' → St F (<[q' := x']> P) L (<[T := PTree h mbits n]> TT) X m' →
  wf (<[q' := x']> P) (key_bound mbits) t' → L ≡ₚ flatten NULL t' →
  h = root t' → n = Z.of_nat (tsize t') →
  entries t' ≡ₚ (pbits x, Cell a (pbits x) (Some q') NULL u) :: entries t →
  inserted F T mbits q x t P TT X (Some a) m'.
Proof using HR.
  intros Hrf HS W HL -> -> HE. destruct (content_insert _ _ _ _ _ _ W HE) as [Hn Hc].
  split; [done|]. exists t', a, u, q', x'. split_and!; try done.
  split; [by rewrite <-HL|apply lookup_insert_eq|done|apply HR].
Qed.

Lemma refd_wf_t q' x' : refd P q x q' x' → wf (<[q' := x']> P) (key_bound mbits) t.
Proof using HQ Hr HR. intros Hrf. eapply refd_wf; [apply HQ|apply HQ|done|done|apply HR]. Qed.

Lemma refd_px q' x' n :
  refd P q x q' x' → c_key n = pbits x → c_px n = Some q' → px_ok (<[q' := x']> P) n.
Proof using HQ Hr.
  intros Hrf Hk Hpx. unfold px_ok. rewrite Hpx, Hk. exists x'. rewrite lookup_insert_eq.
  destruct (refd_ok _ _ _ _ _ (q_ok _ _ _ _ HQ) Hr Hrf) as (? & ? & ?). done.
Qed.

Lemma query_len_pbits : (length (pbits x) ≤ key_bound mbits)%nat.
Proof using HQ. rewrite (query_pbits_len _ _ _ _ HQ). by apply (query_len _ _ _ _ HQ). Qed.

(** The key is there: a node with it, or a glue node that takes it. *)
Lemma insert_same_spec :
  c_key c = pbits x →
  runs (if negb (is_null (c_px c)) then mret (Some (c_loc c))
        else q' ← Ref_Prefix (Some q);
             upd_node (Some (c_loc c)) (with_prefix q');;
             nd ← get_node (Some (c_loc c));
             assert (is_null (data nd));;
             mret (Some (c_loc c))) m
    (λ r m', (m' = m ∧ ∃ d, content t !! pbits x = Some d ∧ r = Some (c_loc d)) ∨
             inserted F T mbits q x t P TT X r m').
Proof using HQ Hr HR HP.
  intros Hk. pose proof (rep_wf _ _ _ _ _ _ _ _ HR) as W.
  assert (c ∈ cells t) as Hc by (rewrite (pos_t _ _ _ _ _ _ _ _ HP), cells_plug; left).
  destruct (is_null (c_px c)) eqn:En; simpl.
  2:{ cstep. left. split; [done|]. exists c. split; [|done].
      eapply content_lookup; [done|]. apply bool_decide_eq_false in En. done. }
  apply bool_decide_eq_true in En.
  assert (c_data c = NULL) as Hd.
  { destruct (cells_wf _ _ _ _ W Hc) as [_ H]. unfold px_ok in H. by rewrite En in H. }
  cstep. eapply runs_Ref_Prefix; [apply at_St|apply HQ|apply HQ|done|]. intros q' x' m1 Hrf HS1.
  cstep. eapply runs_upd_node; [done|done|]. intros m2 HS2.
  cstep. eapply runs_get_node; [done|left|]. simpl. rewrite Hd.
  cstep. apply runs_assert; [done|]. cstep. right.
  set (n := Cell (c_loc c) (pbits x) (Some q') NULL (c_user c)).
  eapply (inserted_intro (plug C (Node n tl tr)) _ (c_user c)); [done|done|..].
  - eapply ins_same_wf; try done; [by apply refd_wf_t|by eapply refd_px|apply query_len_pbits].
  - rewrite flatten_plug. simpl. unfold around, cnode, with_prefix. simpl.
    rewrite Hk, Hd. by rewrite app_assoc.
  - by rewrite root_plug.
  - rewrite (pos_t _ _ _ _ _ _ _ _ HP), !tsize_plug. done.
  - rewrite (pos_t _ _ _ _ _ _ _ _ HP), !entries_plug. unfold entries. simpl.
    rewrite !bind_app. unfold entry at 4. rewrite En. done.
Qed.

(** The state after the new node was created and counted. *)
Section fresh_node.
Context (a q' : loc) (x' : prefix_t) (m1 : mem) (Hrf : refd P q x q' x').
Context (Ha : a ∉ ((c_loc c, cnode c (root tl) (root tr) (parent_of C)) :: around).*1).
Context (HS1 : St F (<[q' := x']> P)
  ((a, cnode (new_cell a x q') NULL NULL NULL) ::
   (c_loc c, cnode c (root tl) (root tr) (parent_of C)) :: around)
  (<[T := PTree (head_of C (Some (c_loc c))) mbits (Z.of_nat (tsize t) + 1)]> TT) X m1).

Abbreviation n := (new_cell a x q').

Lemma entries_new s rest : entries s ≡ₚ (pbits x, n) :: rest ++ entries (Node c tl tr) →
  rest = [] →
  entries (plug C s) ≡ₚ (pbits x, n) :: entries t.
Proof using HP.
  intros E ->. rewrite (pos_t _ _ _ _ _ _ _ _ HP), !entries_plug, E. done.
Qed.

Lemma tsize_new s k : tsize s = (k + tsize (Node c tl tr))%nat →
  tsize (plug C s) = (k + tsize t)%nat.
Proof using HP. intros E. rewrite (pos_t _ _ _ _ _ _ _ _ HP), !tsize_plug. lia. Qed.

Lemma insert_child_spec :
  D = length (c_key c) → (D < length (pbits x))%nat →
  runs (upd_node (Some a) (with_parent (Some (c_loc c)));;
        tb ← guarded_bit mbits (add x) (Z.of_nat (length (c_key c)));
        (if tb : bool then
           assert (is_null (root tr));; upd_node (Some (c_loc c)) (with_r (Some a))
         else
           assert (is_null (root tl));; upd_node (Some (c_loc c)) (with_l (Some a)));;
        mret (Some a)) m1 (inserted F T mbits q x t P TT X).
Proof using All.
  intros ED Hlt. destruct (pos_free _ _ _ _ _ _ _ _ HP ED Hlt) as (b & Hb & Hl).
  cstep. eapply runs_upd_node; [done|done|]. intros m2 HS2.
  cstep. eapply runs_guarded_bit with (b := b).
  { pose proof query_len_pbits. lia. }
  { rewrite <-ED. unfold pbits in Hb. by apply lookup_take_Some in Hb as [? _]. }
  cstep. eapply (runs_mono _ _ (λ _ m', St F (<[q' := x']> P)
    ((c_loc c, jnode b c (Some a) (root (child (negb b) tl tr)) (parent_of C)) ::
     (a, cnode n NULL NULL (Some (c_loc c))) :: around)
    (<[T := PTree (head_of C (Some (c_loc c))) mbits (Z.of_nat (tsize t) + 1)]> TT) X m')).
  { destruct b; simpl in *; (cstep; apply runs_assert; [by rewrite Hl|]);
      (eapply runs_upd_node; [done|apply Permutation_swap|]); done. }
  intros [] m3 HS3. cstep.
  eapply (inserted_intro (plug C (join b c (Node n Leaf Leaf) (child (negb b) tl tr))) a NULL);
    [done|done|..].
  - eapply ins_child_wf; try done; [by apply refd_wf_t|by eapply refd_px|apply query_len_pbits].
  - rewrite flatten_plug, flatten_join, root_join. unfold around.
    destruct b; simpl in *; rewrite Hl; simpl; solve_Permutation.
  - by rewrite root_plug, root_join.
  - rewrite (tsize_new _ 1); [lia|]. rewrite tsize_join. unfold tsize. simpl. rewrite length_app.
    destruct b; simpl in *; rewrite Hl; simpl; lia.
  - eapply entries_new; [|done]. rewrite entries_join. unfold entries. simpl. rewrite !bind_app.
    destruct b; simpl in *; rewrite Hl; simpl; solve_Permutation.
Qed.

Lemma insert_parent_spec :
  (D < length (c_key c))%nat → D = length (pbits x) →
  runs (tb ← guarded_bit mbits test (bitlen x);
        (if tb : bool then upd_node (Some a) (with_r (Some (c_loc c)))
         else upd_node (Some a) (with_l (Some (c_loc c))));;
        upd_node (Some a) (with_parent (parent_of C));;
        replace_in_parent (Some T) (Some (c_loc c)) (Some a);;
        upd_node (Some (c_loc c)) (with_parent (Some a));;
        mret (Some a)) m1 (inserted F T mbits q x t P TT X).
Proof using All.
  intros Hlt ED. destruct (pos_below _ _ _ _ _ _ _ _ HP ED Hlt) as (b & Hb & Hpre).
  pose proof (rep_wf _ _ _ _ _ _ _ _ HR) as W.
  rewrite <-(query_pbits_lenZ _ _ _ _ HQ), <-ED.
  cstep. eapply runs_guarded_bit with (b := b); [|done|].
  { rewrite (pos_t _ _ _ _ _ _ _ _ HP) in W. apply wf_plug in W as ((? & _) & _). lia. }
  cstep. eapply (runs_mono _ _ (λ _ m', St F (<[q' := x']> P)
    ((a, jnode b n (Some (c_loc c)) NULL NULL) ::
     (c_loc c, cnode c (root tl) (root tr) (parent_of C)) :: around)
    (<[T := PTree (head_of C (Some (c_loc c))) mbits (Z.of_nat (tsize t) + 1)]> TT) X m')).
  { destruct b; (eapply runs_upd_node; [done|done|]); done. }
  intros [] m2 HS2. cstep. eapply runs_upd_node; [done|done|]. clear HS2. intros m3 HS3.
  cstep. eapply (runs_replace_in_parent _ _ _ _ _ ((a, jnode b n (Some (c_loc c)) NULL (parent_of C)) ::
     (c_loc c, cnode c (root tl) (root tr) (parent_of C)) ::
     flatten (Some (c_loc c)) tl ++ flatten (Some (c_loc c)) tr) C); [done| |right; left|done|].
  { unfold around. simpl. rewrite app_assoc. by destruct b. }
  intros m4 HS4. cstep. eapply runs_upd_node; [done|simpl; apply Permutation_swap|].
  intros m5 HS5. cstep.
  eapply (inserted_intro (plug C (join b n (Node c tl tr) Leaf)) a NULL); [done|done|..].
  - eapply ins_parent_wf; try done; [by apply refd_wf_t|by eapply refd_px|apply query_len_pbits].
  - rewrite flatten_plug, flatten_join, root_join. simpl. destruct b; solve_Permutation.
  - by rewrite root_plug, root_join.
  - rewrite (tsize_new _ 1); [lia|]. rewrite tsize_join. unfold tsize. simpl. lia.
  - eapply entries_new; [|done]. rewrite entries_join. unfold entries at 2. simpl.
    by rewrite app_nil_r.
Qed.

Lemma insert_glue_spec :
  (D < length (c_key c))%nat → (D < length (pbits x))%nat →
  runs (glue ← calloc_node;
        upd_node glue (with_bit (Z.of_nat D));;
        upd_node glue (with_prefix NULL);;
        upd_node glue (with_parent (parent_of C));;
        upd_node glue (with_data NULL);;
        add_active (Some T) 1;;
        tb ← guarded_bit mbits (add x) (Z.of_nat D);
        (if tb : bool then
           upd_node glue (with_r (Some a));; upd_node glue (with_l (Some (c_loc c)))
         else
           upd_node glue (with_r (Some (c_loc c)));; upd_node glue (with_l (Some a)));;
        upd_node (Some a) (with_parent glue);;
        replace_in_parent (Some T) (Some (c_loc c)) glue;;
        upd_node (Some (c_loc c)) (with_parent glue);;
        mret (Some a)) m1 (inserted F T mbits q x t P TT X).
Proof using All.
  intros Hlt Hlt'. destruct (lookup_lt_is_Some_2 _ _ Hlt') as [b Hb].
  cstep. eapply runs_calloc_node; [done|]. intros g m2 Hg HS2.
  do 4 (cstep; eapply runs_upd_node; [eassumption|reflexivity|]; clear HS2; intros ? HS2). clear m2.
  set (gc := Cell g (take D (pbits x)) NULL NULL NULL).
  assert (with_data NULL (with_parent (parent_of C) (with_prefix NULL (with_bit (Z.of_nat D) zero_node)))
    = cnode gc NULL NULL (parent_of C)) as Eg.
  { unfold cnode. simpl. rewrite length_take_le by lia. done. }
  rewrite Eg in HS2.
  cstep. eapply runs_count; [done|unfold is_int, INT_MIN; lia|]. clear HS2. intros m3 HS3.
  cstep. eapply runs_guarded_bit with (b := b).
  { pose proof query_len_pbits. lia. }
  { unfold pbits in Hb. by apply lookup_take_Some in Hb as [? _]. }
  cstep. eapply (runs_mono _ _ (λ _ m', St F (<[q' := x']> P)
    ((a, cnode n NULL NULL NULL) :: (g, jnode b gc (Some a) (Some (c_loc c)) (parent_of C)) ::
     (c_loc c, cnode c (root tl) (root tr) (parent_of C)) :: around)
    (<[T := PTree (head_of C (Some (c_loc c))) mbits (Z.of_nat (tsize t) + 1 + 1)]> TT) X m')).
  { destruct b; (cstep; eapply runs_upd_node; [done|done|]; clear HS3; intros m4 HS3);
      (eapply runs_upd_node; [done|done|]; intros m5 HS4); (eapply St_perm, HS4; apply Permutation_swap). }
  intros [] m4 HS4. clear HS3. cstep. eapply runs_upd_node; [done|done|]. clear HS4. intros m5 HS5.
  cstep. eapply (runs_replace_in_parent _ _ _ _ _ ((a, cnode n NULL NULL (Some g)) ::
     (g, jnode b gc (Some a) (Some (c_loc c)) (parent_of C)) ::
     (c_loc c, cnode c (root tl) (root tr) (parent_of C)) ::
     flatten (Some (c_loc c)) tl ++ flatten (Some (c_loc c)) tr) C); [done| |right; right; left|done|].
  { unfold around. simpl. by rewrite app_assoc. }
  intros m6 HS6. cstep. eapply runs_upd_node; [done|apply Permutation_sym, (Permutation_middle [_; _])|].
  intros m7 HS7. cstep.
  eapply (inserted_intro (plug C (join b gc (Node n Leaf Leaf) (Node c tl tr))) a NULL);
    [done|done|..].
  - eapply ins_glue_wf; try done; [by apply refd_wf_t|by eapply refd_px|apply query_len_pbits].
  - rewrite flatten_plug, flatten_join, root_join. simpl. solve_Permutation.
  - by rewrite root_plug, root_join.
  - rewrite (tsize_new _ 2); [lia|]. rewrite tsize_join. unfold tsize. simpl. lia.
  - eapply entries_new; [|done]. rewrite entries_join. done.
Qed.
End fresh_node.
End insert_at.

#[local] Arguments ascend : simpl never.

Section lookup.
Context (F : gmap loc patricia_node_t) (P : gmap loc prefix_t) (T : loc) (mbits : Z).
Context (q : loc) (x : prefix_t) (HQ : Query mbits P q x) (Hr : ref_ok x).
Context (t : tree) (TT : gmap loc patricia_tree_t) (X : rest_t) (m : mem).
Context (HR : Rep F T mbits t P TT X m) (Hsz : Z.of_nat (tsize t) + 2 ≤ INT_MAX).

(** What [patricia_lookup] promises. *)
Definition looked_up (r : ptr) (m' : mem) : Prop :=
  (m' = m ∧ ∃ d, content t !! pbits x = Some d ∧ r = Some (c_loc d)) ∨
  inserted F T mbits q x t P TT X r m'.

Lemma insert_at_spec test D C c tl tr :
  position t (pbits x) (bits_of test) D C c tl tr →
  runs (insert_at (Some T) (Some q) (Some (c_loc c)) (add x) test mbits (bitlen x) (Z.of_nat D)) m
    looked_up.
Proof using All.
  intros HP. pose proof (query_pbits_lenZ _ _ _ _ HQ) as Hn. unfold insert_at.
  cstep. eapply runs_get_node; [by eapply at_St|left|]. simpl.
  pose proof (pos_len _ _ _ _ _ _ _ _ HP). pose proof (pos_len_k _ _ _ _ _ _ _ _ HP).
  destruct ((_ =? _) && (_ =? _)) eqn:Eb.
  { apply andb_true_iff in Eb as [E1%Z.eqb_eq E2%Z.eqb_eq].
    eapply insert_same_spec; [done..|].
    rewrite (pos_key_prefix _ _ _ _ _ _ _ _ HP) by lia. by rewrite take_ge by lia. }
  cstep. eapply runs_new_node_for; [by eapply at_St|done..|]. intros a q' x' m1 Ha Hrf HS1.
  cstep. eapply runs_count; [done|unfold is_int, INT_MIN; lia|]. clear HS1. intros m2 HS2.
  cstep. eapply runs_get_node; [done|right; left|]. simpl.
  destruct (Z.eqb_spec (Z.of_nat (length (c_key c))) (Z.of_nat D)) as [E|E];
    [|destruct (Z.eqb_spec (bitlen x) (Z.of_nat D)) as [E'|E']].
  - eapply runs_mono; [eapply insert_child_spec; try done; [lia|]|by right].
    rewrite andb_false_iff, !Z.eqb_neq in Eb. lia.
  - eapply runs_mono; [eapply insert_parent_spec; try done; lia|by right].
  - eapply runs_mono; [eapply insert_glue_spec; try done; lia|by right].
Qed.

(** The empty trie: the new node is the head. *)
Lemma lookup_empty_spec : t = Leaf →
  runs (node ← new_node_for (Some q);
        upd_tree (Some T) (with_head node);;
        add_active (Some T) 1;;
        mret node) m looked_up.
Proof using All.
  intros Et. destruct HR as [HS HT _ Hmb]. rewrite Et in HS, HT. simpl in HS, HT.
  rewrite <-(insert_id _ _ _ HT) in HS.
  cstep. eapply runs_new_node_for; [done..|]. intros a q' x' m1 Ha Hrf HS1.
  cstep. eapply runs_set_head; [done|]. clear HS1. intros m2 HS2.
  cstep. eapply runs_count; [done|done|]. clear HS2. intros m3 HS3. cstep. right.
  eapply inserted_intro with (t' := Node (new_cell a x q') Leaf Leaf) (u := NULL);
    [done|done|done|..]; try done.
  - simpl. pose proof (query_len_pbits _ _ _ _ HQ). split_and!; try done. by eapply refd_px.
  - by rewrite Et.
Qed.

(** Both loops, from the head of a non-empty trie. *)
Lemma lookup_walk_spec : t ≠ Leaf →
  runs (fuel ← gets loop_fuel;
        node ← descend fuel mbits (add x) (bitlen x) (root t);
        nd ← get_node node;
        assert (negb (is_null (prefix nd)));;
        test_addr ← prefix_touchar (prefix nd);
        let check_bit := if bit nd <? bitlen x then bit nd else bitlen x in
        differ_bit ← lift (first_differ (add x) test_addr check_bit);
        node ← ascend fuel differ_bit node;
        insert_at (Some T) (Some q) node (add x) test_addr mbits (bitlen x) differ_bit) m looked_up.
Proof using All.
  intros Hne. pose proof HR as [HS HT W Hmb]. cstep. apply runs_gets.
  cstep. eapply runs_mono.
  { eapply (descend_spec F P mbits q x HQ t TT X m HS W _ [] t); [done|done|constructor|].
    pose proof (rep_fuel _ _ _ _ _ _ HS). lia. }
  intros r m' (-> & C & c & tl & tr & Et & -> & Hp & Hla). pose proof Hla as [Hpx _].
  cstep. eapply runs_get_node; [done|rewrite Et; apply node_in_plug|]. simpl.
  destruct (c_px c) as [q1|] eqn:Eq; [|done].
  assert (c ∈ cells t) as Hc by (rewrite Et, cells_plug; left).
  destruct (cell_prefix _ _ _ W _ _ Hc Eq) as (x1 & Hx1 & Ho1 & _ & Hk1 & Hb1 & H32).
  cstep. apply runs_assert; [done|]. cstep. unfold prefix_touchar. cstep.
  eapply runs_get_prefix; [done..|]. cstep.
  assert (c_key c `prefix_of` bits_of (add x1)) as Hpre.
  { rewrite <-Hk1. unfold pbits. apply prefix_take. }
  set (D := lcp (c_key c) (pbits x)). pose proof (query_pbits_lenZ _ _ _ _ HQ) as Hn.
  cstep. eapply (runs_lift _ (Z.of_nat D)).
  { replace (if _ <? _ then _ else _) with (Z.of_nat (length (c_key c) `min` length (pbits x)))
      by (destruct (Z.ltb_spec (Z.of_nat (length (c_key c))) (bitlen x)); lia).
    destruct Ho1 as [_ _ ? ?], (q_ok _ _ _ _ HQ) as [_ ? ? ?].
    rewrite first_differ_correct by (done || lia). do 2 f_equal. unfold D.
    rewrite <-(lcp_prefix (c_key c) (pbits x) (bits_of (add x1)) (bits_of (add x))); [|done|].
    - by rewrite (lcp_comm (bits_of (add x))).
    - unfold pbits. apply prefix_take. }
  cstep. eapply runs_mono.
  { eapply (ascend_spec F P t TT X m HS _ D C); [done|].
    pose proof (rep_fuel _ _ _ _ _ _ HS). pose proof (ctx_size C (Node c tl tr)).
    rewrite <-Et in *. lia. }
  intros r m' (-> & C' & c' & tl' & tr' & Et' & -> & Hab & Hor).
  eapply insert_at_spec. by eapply (position_of _ _ _ _ HQ t W C c tl tr).
Qed.

Lemma lookup_spec : runs (patricia_lookup (Some T) (Some q)) m looked_up.
Proof using All.
  eapply runs_search_head; [done..|]. simpl. destruct (is_null (root t)) eqn:En.
  - apply is_null_root in En. by apply lookup_empty_spec.
  - cstep. unfold prefix_touchar. cstep.
    eapply runs_get_prefix; [apply HR|apply HQ|]. cstep.
    apply lookup_walk_spec. by rewrite <-is_null_root, En.
Qed.
End lookup.
