(* ===== verification/PatRemove.v ===== *)
(** * Correctness of removal

    [patricia_remove] deletes the key of a node from the abstract value of the
    trie, gives up one reference to its prefix object, and keeps the trie
    invariant: a node with two children becomes a glue node, one with a single
    child is bypassed, and a leaf disappears together with a glue parent. *)

From stdpp Require Import base gmap list strings.
From Stdlib Require Import ZArith Lia Sorted.
From S2P Require Import Prelude Bits PatMem PrefixCode Patricia PatState PatTree PatPath PatSearch PatInsert.

Local Open Scope Z_scope.

(** ** Giving up a reference *)
Definition derefd (P : gmap loc prefix_t) (q : loc) (x : prefix_t) : gmap loc prefix_t :=
  if ref_count x =? 1 then delete q P else <[q := with_ref_count (ref_count x - 1) x]> P.

Lemma runs_Deref_Prefix F P L TT X m q x (Q : unit → mem → Prop) :
  St F P L TT X m → P !! q = Some x → 0 < ref_count x →
  (∀ m', St F (derefd P q x) L TT X m' → Q tt m') →
  runs (Deref_Prefix (Some q)) m Q.
Proof.
  intros HS Hq Hr HQ. unfold Deref_Prefix, derefd in *.
  cstep. eapply runs_get_prefix; [done..|]. cstep. apply runs_assert; [lia|].
  cstep. eapply runs_upd_prefix; [done..|]. intros m1 HS1. cstep. apply runs_assert; [lia|].
  destruct (Z.eqb_spec (ref_count x) 1) as [E|E].
  - rewrite (proj2 (Z.leb_le _ _)) by lia.
    eapply runs_delete_prefix; [done|apply lookup_insert_eq|]. intros m2.
    rewrite delete_insert_eq. apply HQ.
  - rewrite (proj2 (Z.leb_gt _ _)) by lia. cstep. by apply HQ.
Qed.

Lemma wf_ext P P' mb t :
  (∀ c, c ∈ cells t → px_ok P c → px_ok P' c) → wf P mb t → wf P' mb t.
Proof.
  induction t as [|c tl IHl tr IHr]; intros H; simpl; [done|].
  intros (? & ? & ? & ? & ? & ? & ?). split_and!; try done.
  - apply H; [left|done].
  - apply IHl; [|done]. intros c' Hc. apply H. right. apply elem_of_app. by left.
  - apply IHr; [|done]. intros c' Hc. apply H. right. apply elem_of_app. by right.
Qed.

(** The other nodes do not see a change of the prefix object [q]. *)
Lemma px_ok_derefd P q x c : c_px c ≠ Some q → px_ok P c → px_ok (derefd P q x) c.
Proof.
  unfold px_ok. destruct (c_px c) as [q1|]; [|done]. intros Hne (x1 & H1 & H).
  exists x1. split; [|done]. assert (q ≠ q1) by congruence. unfold derefd.
  destruct (_ =? _); [by rewrite lookup_delete_ne|by rewrite lookup_insert_ne].
Qed.

Lemma cell_position t c : c ∈ cells t → ∃ C tl tr, t = plug C (Node c tl tr).
Proof.
  induction t as [|c' tl IHl tr IHr]; [by intros ?%not_elem_of_nil|].
  simpl. intros [->|[Hd|Hd]%elem_of_app]%elem_of_cons; [by exists [], tl, tr|..].
  - destruct (IHl Hd) as (C & sl & sr & ->). exists (C ++ [Frame false c' tr]), sl, sr.
    by rewrite plug_app.
  - destruct (IHr Hd) as (C & sl & sr & ->). exists (C ++ [Frame true c' tl]), sl, sr.
    by rewrite plug_app.
Qed.

Lemma content_delete P mb t t' k d :
  wf P mb t → entries t ≡ₚ (k, d) :: entries t' → content t' = delete k (content t).
Proof.
  intros W HE. pose proof (NoDup_entries _ _ _ W) as Hnd. unfold content.
  rewrite (list_to_map_proper _ _ Hnd HE). simpl.
  rewrite HE in Hnd. simpl in Hnd. apply NoDup_cons in Hnd as [Hk _].
  rewrite delete_insert_id; [done|]. by apply not_elem_of_list_to_map.
Qed.

(** ** Pointer updates of the removal *)
Section rules.
Context (F : gmap loc patricia_node_t) (P : gmap loc prefix_t) (T : loc) (mb : Z).
Implicit Types (TT : gmap loc patricia_tree_t) (L R : list (loc * patricia_node_t)).

Lemma fnode_r f a par :
  root (f_sib f) ≠ Some a → ptr_eq (r (fnode f (Some a) par)) (Some a) = f_dir f.
Proof.
  intros Hs. unfold ptr_eq, fnode. destruct (f_dir f); simpl.
  - by apply bool_decide_eq_true.
  - by apply bool_decide_eq_false.
Qed.

(** The subtree [s] gets a new parent. *)
Lemma runs_set_parent L R TT X m p p' s (Q : unit → mem → Prop) :
  St F P L TT X m → L ≡ₚ flatten p s ++ R → s ≠ Leaf →
  (∀ m', St F P (flatten p' s ++ R) TT X m' → Q tt m') →
  runs (upd_node (root s) (with_parent p')) m Q.
Proof.
  intros HS HL Hs HQ. destruct s as [|c tl tr]; [done|]. simpl in *.
  eapply runs_upd_node; [done|done|]. done.
Qed.

(** Redirect the pointer of a frame (or the head) from [a] to [p]. *)
Lemma runs_redirect L R C TT X m a p cnt (Q : unit → mem → Prop) :
  St F P L (<[T := PTree (head_of C (Some a)) mb cnt]> TT) X m →
  L ≡ₚ R ++ flatten_ctx C (Some a) →
  (∀ f C', C = f :: C' → root (f_sib f) ≠ Some a) →
  (∀ m', St F P (R ++ flatten_ctx C p) (<[T := PTree (head_of C p) mb cnt]> TT) X m' →
    Q tt m') →
  runs (if is_null (parent_of C) then
          t ← get_tree (Some T);
          assert (ptr_eq (head t) (Some a));;
          upd_tree (Some T) (with_head p)
        else
          gn ← get_node (parent_of C);
          if ptr_eq (r gn) (Some a) then upd_node (parent_of C) (with_r p)
          else
            assert (ptr_eq (l gn) (Some a));;
            upd_node (parent_of C) (with_l p)) m Q.
Proof.
  intros HS HL Hs HQ. destruct C as [|f C]; simpl in *.
  - rewrite app_nil_r in *. cstep. eapply runs_get_tree; [done|apply lookup_insert_eq|].
    cstep. apply runs_assert; [by apply bool_decide_eq_true|].
    eapply runs_set_head; [done|]. intros m' HS'. apply HQ. by rewrite <-HL.
  - cstep. eapply runs_get_node; [done|rewrite HL; apply elem_of_app; right; left|].
    rewrite fnode_r by (by eapply Hs). unfold fnode in *. destruct (f_dir f) eqn:Ed.
    + eapply runs_upd_node; [done|rewrite HL; apply Permutation_sym, Permutation_middle|].
      intros m' HS'. apply HQ. eapply St_perm, HS'. apply Permutation_middle.
    + cstep. apply runs_assert; [by apply bool_decide_eq_true|].
      eapply runs_upd_node; [done|rewrite HL; apply Permutation_sym, Permutation_middle|].
      intros m' HS'. apply HQ. eapply St_perm, HS'. apply Permutation_middle.
Qed.
End rules.

(** ** Removal *)

(** The key [k] is gone from the trie, and one reference to [q] with it. *)
Definition removed F T mbits t P TT X (k : list bool) (q : loc) (x : prefix_t) (m' : mem) : Prop :=
  ∃ t', Rep F T mbits t' (derefd P q x)
          (<[T := PTree (root t') mbits (Z.of_nat (tsize t'))]> TT) X m' ∧
        content t' = delete k (content t).

Section remove.
Context (F : gmap loc patricia_node_t) (P : gmap loc prefix_t) (T : loc) (mbits : Z).
Context (t : tree) (TT : gmap loc patricia_tree_t) (X : rest_t) (m : mem).
Context (HR : Rep F T mbits t P TT X m) (Hsz : Z.of_nat (tsize t) ≤ INT_MAX).
Context (d : cell) (C : ctx) (tl tr : tree) (Et : t = plug C (Node d tl tr)).
Context (q : loc) (x : prefix_t) (Eq : c_px d = Some q) (Hq : P !! q = Some x) (Hr : 0 < ref_count x).

Abbreviation P' := (derefd P q x).

Lemma wf_here : wf P (key_bound mbits) (Node d tl tr) ∧ wf_ctx P (key_bound mbits) C ∧ fits C (c_key d).
Proof using HR Et. pose proof (rep_wf _ _ _ _ _ _ _ _ HR) as W. rewrite Et in W. by apply wf_plug in W. Qed.

(** A tree made of other nodes of the trie stays well formed. *)
Lemma wf_rest t' : wf P (key_bound mbits) t' →
  entries t ≡ₚ (c_key d, d) :: entries t' → wf P' (key_bound mbits) t'.
Proof using HR Eq.
  intros W HE. eapply wf_ext; [|done]. intros c Hc Hpx. apply px_ok_derefd; [|done]. intros Eq'.
  pose proof (rep_wf _ _ _ _ _ _ _ _ HR) as Wt.
  assert ((c_key d, d) ∈ entries t) as Hd by (rewrite HE; left).
  assert ((c_key c, c) ∈ entries t') as Hc'.
  { apply elem_of_entries. by rewrite Eq'. }
  assert ((c_key c, c) ∈ entries t) as Hct by (rewrite HE; by right).
  apply elem_of_entries in Hd as (Hd & _). apply elem_of_entries in Hct as (Hct & _).
  assert (c = d) as -> by (by eapply cells_px_inj).
  pose proof (NoDup_entries _ _ _ Wt) as Hnd. rewrite HE in Hnd. simpl in Hnd.
  apply NoDup_cons in Hnd as [Hn _]. apply Hn. by apply (list_elem_of_fmap_2 fst) in Hc'.
Qed.

Lemma removed_intro t' L n h m' :
  St F P' L (<[T := PTree h mbits n]> TT) X m' → wf P' (key_bound mbits) t' →
  L ≡ₚ flatten NULL t' → h = root t' → n = Z.of_nat (tsize t') →
  entries t ≡ₚ (c_key d, d) :: entries t' →
  removed F T mbits t P TT X (c_key d) q x m'.
Proof using HR.
  intros HS W HL -> -> HE. exists t'. split; [|by eapply content_delete; [apply HR|]].
  split; [by rewrite <-HL|apply lookup_insert_eq|done|apply HR].
Qed.

Lemma entry_d : entry d = [(c_key d, d)].
Proof using Eq. unfold entry. by rewrite Eq. Qed.

(** The nodes, with those of the subtree split off. *)
Lemma here_St : St F P
  ((c_loc d, cnode d (root tl) (root tr) (parent_of C)) ::
    flatten (Some (c_loc d)) tl ++ flatten (Some (c_loc d)) tr ++ flatten_ctx C (Some (c_loc d)))
  (<[T := PTree (head_of C (Some (c_loc d))) mbits (Z.of_nat (tsize t))]> TT) X m.
Proof using HR Et.
  destruct HR as [HS HT _ _]. rewrite insert_id.
  - rewrite Et, flatten_plug in HS. simpl in HS. by rewrite <-app_assoc in HS.
  - rewrite HT, Et, root_plug. done.
Qed.

Lemma sib_ne f C' : C = f :: C' → root (f_sib f) ≠ Some (c_loc d).
Proof using HR Et.
  intros EC. pose proof here_St as HS. rewrite EC in HS.
  eapply (sibling_ne F P _ _ _ _ ((c_loc d, _) :: flatten _ tl ++ flatten _ tr) f C' (c_loc d)); [done| |left].
  simpl. by rewrite <-app_assoc.
Qed.

(** Two children: the node becomes a glue node. *)
Lemma remove_both_spec : tl ≠ Leaf → tr ≠ Leaf →
  runs (Deref_Prefix (Some q);;
        upd_node (Some (c_loc d)) (with_prefix NULL);;
        upd_node (Some (c_loc d)) (with_data NULL)) m
    (λ _ m', removed F T mbits t P TT X (c_key d) q x m').
Proof using All.
  intros Hl Hrn. cstep. eapply runs_Deref_Prefix; [apply here_St|done..|]. intros m1 HS1.
  cstep. eapply runs_upd_node; [done|done|]. clear HS1. intros m2 HS2.
  eapply runs_upd_node; [done|done|]. clear HS2. intros m3 HS3.
  destruct wf_here as ((? & ? & Hg & ? & ? & ? & ?) & Wc & Hf).
  assert (entries t ≡ₚ (c_key d, d) ::
    entries (plug C (Node (Cell (c_loc d) (c_key d) NULL NULL (c_user d)) tl tr))) as HE.
  { rewrite Et, !entries_plug. unfold entries. simpl. by rewrite entry_d. }
  eapply removed_intro; [done| | | | |exact HE].
  - apply wf_rest; [|done]. apply wf_plug. simpl. by split_and!.
  - rewrite flatten_plug. simpl. by rewrite app_assoc.
  - by rewrite root_plug.
  - by rewrite Et, !tsize_plug.
Qed.

(** One child: it takes the place of the node. *)
Lemma remove_single_spec s : s ≠ Leaf → (tl = s ∧ tr = Leaf ∨ tl = Leaf ∧ tr = s) →
  runs (upd_node (root s) (with_parent (parent_of C));;
        Deref_Prefix (Some q);;
        Delete_node (Some (c_loc d));;
        add_active (Some T) (-1);;
        if is_null (parent_of C) then
          t ← get_tree (Some T);
          assert (ptr_eq (head t) (Some (c_loc d)));;
          upd_tree (Some T) (with_head (root s))
        else
          pn ← get_node (parent_of C);
          if ptr_eq (r pn) (Some (c_loc d)) then upd_node (parent_of C) (with_r (root s))
          else
            assert (ptr_eq (l pn) (Some (c_loc d)));;
            upd_node (parent_of C) (with_l (root s))) m
    (λ _ m', removed F T mbits t P TT X (c_key d) q x m').
Proof using All.
  intros Hs Hor. destruct wf_here as ((? & ? & Hg & Bl & Br & ? & ?) & Wc & Hf).
  assert (flatten (Some (c_loc d)) tl ++ flatten (Some (c_loc d)) tr ++ flatten_ctx C (Some (c_loc d))
    = flatten (Some (c_loc d)) s ++ flatten_ctx C (Some (c_loc d))) as EL.
  { destruct Hor as [[-> ->]|[-> ->]]; done. }
  pose proof here_St as HS. rewrite EL in HS.
  cstep. eapply runs_set_parent; [done|apply Permutation_middle|done|]. clear HS. intros m1 HS1.
  cstep. eapply runs_Deref_Prefix; [done..|]. clear HS1. intros m2 HS2.
  cstep. eapply runs_delete_node; [done|apply Permutation_sym, Permutation_middle|].
  clear HS2. intros m3 HS3.
  cstep. eapply runs_count; [done|unfold is_int, INT_MIN, INT_MAX in *; lia|]. clear HS3. intros m4 HS4.
  eapply runs_redirect; [done|done|apply sib_ne|]. clear HS4. intros m5 HS5.
  assert (entries t ≡ₚ (c_key d, d) :: entries (plug C s)) as HE.
  { rewrite Et, !entries_plug. unfold entries. simpl. rewrite entry_d, bind_app.
    destruct Hor as [[-> ->]|[-> ->]]; simpl; by rewrite ?app_nil_r. }
  eapply removed_intro; [done| | | | |exact HE].
  - apply wf_rest; [|done]. apply wf_plug. split_and!; [by destruct Hor as [[-> ->]|[-> ->]]|done|].
    destruct s as [|c' ??]; [done|]. simpl. destruct C as [|f C']; [done|]. simpl in *.
    etrans; [done|]. destruct Hor as [[-> ->]|[-> ->]]; by eapply prefix_snoc_l.
  - by rewrite flatten_plug.
  - by rewrite root_plug.
  - rewrite Et, !tsize_plug. unfold tsize. simpl. rewrite length_app.
    destruct Hor as [[-> ->]|[-> ->]]; simpl; lia.
Qed.

(** The last node of the trie. *)
Lemma remove_last_spec m1 : tl = Leaf → tr = Leaf → C = [] →
  St F P' [] (<[T := PTree (Some (c_loc d)) mbits (Z.of_nat (tsize t) + -1)]> TT) X m1 →
  runs (t ← get_tree (Some T);
        assert (ptr_eq (head t) (Some (c_loc d)));;
        upd_tree (Some T) (with_head NULL)) m1
    (λ _ m', removed F T mbits t P TT X (c_key d) q x m').
Proof using HR Et Eq.
  intros El Er EC HS1. cstep. eapply runs_get_tree; [done|apply lookup_insert_eq|].
  cstep. apply runs_assert; [by apply bool_decide_eq_true|].
  eapply runs_set_head; [done|]. intros m2 HS2.
  eapply (removed_intro Leaf); [done|done|done|done|..]; rewrite Et, EC, El, Er; [done|].
  unfold entries. simpl. by rewrite entry_d.
Qed.

(** A leaf below the frame [f]: the pointer to it is cleared. *)
Lemma runs_detach m1 f C1 n TT' (Q : ptr → mem → Prop) : C = f :: C1 →
  St F P' ((c_loc (f_cell f), fnode f (Some (c_loc d)) (parent_of C1)) ::
    flatten (Some (c_loc (f_cell f))) (f_sib f) ++ flatten_ctx C1 (Some (c_loc (f_cell f)))) TT' X m1 →
  n = fnode f (Some (c_loc d)) (parent_of C1) →
  (∀ m2, St F P' ((c_loc (f_cell f), fnode f NULL (parent_of C1)) ::
    flatten (Some (c_loc (f_cell f))) (f_sib f) ++ flatten_ctx C1 (Some (c_loc (f_cell f)))) TT' X m2 →
    Q (root (f_sib f)) m2) →
  runs (if ptr_eq (r n) (Some (c_loc d)) then
          upd_node (Some (c_loc (f_cell f))) (with_r NULL);; mret (l n)
        else
          assert (ptr_eq (l n) (Some (c_loc d)));;
          upd_node (Some (c_loc (f_cell f))) (with_l NULL);; mret (r n)) m1 Q.
Proof using HR Et.
  intros EC HS1 -> HQ. rewrite fnode_r by (by eapply sib_ne). unfold fnode in *.
  destruct (f_dir f) eqn:Ed; [|cstep; apply runs_assert; [by apply bool_decide_eq_true|]];
    (cstep; eapply runs_upd_node; [done|done|]; intros m2 HS2; cstep; by apply HQ).
Qed.

(** A leaf whose parent is a glue node: the sibling takes the parent's place. *)
Lemma remove_glue_spec m1 f C1 : tl = Leaf → tr = Leaf → C = f :: C1 → c_px (f_cell f) = NULL →
  St F P' ((c_loc (f_cell f), fnode f NULL (parent_of C1)) ::
    flatten (Some (c_loc (f_cell f))) (f_sib f) ++ flatten_ctx C1 (Some (c_loc (f_cell f))))
    (<[T := PTree (head_of C1 (Some (c_loc (f_cell f)))) mbits (Z.of_nat (tsize t) + -1)]> TT) X m1 →
  runs ((if is_null (parent_of C1) then
           t ← get_tree (Some T);
           assert (ptr_eq (head t) (Some (c_loc (f_cell f))));;
           upd_tree (Some T) (with_head (root (f_sib f)))
         else
           gn ← get_node (parent_of C1);
           if ptr_eq (r gn) (Some (c_loc (f_cell f))) then upd_node (parent_of C1) (with_r (root (f_sib f)))
           else
             assert (ptr_eq (l gn) (Some (c_loc (f_cell f))));;
             upd_node (parent_of C1) (with_l (root (f_sib f))));;
        upd_node (root (f_sib f)) (with_parent (parent_of C1));;
        Delete_node (Some (c_loc (f_cell f)));;
        add_active (Some T) (-1)) m1
    (λ _ m', removed F T mbits t P TT X (c_key d) q x m').
Proof using All.
  intros El Er EC Hpx HS1. destruct wf_here as (_ & Wc & Hf). rewrite EC in Wc.
  destruct Wc as (_ & _ & Hsib & Bs & Ws & Hf1 & Wc). specialize (Hsib Hpx).
  set (g := c_loc (f_cell f)) in *.
  cstep. eapply (runs_redirect F _ T mbits _ ((g, fnode f NULL (parent_of C1)) :: flatten (Some g) (f_sib f)));
    [done|done| |].
  { intros f' C' EC1. rewrite EC1 in HS1.
    eapply (sibling_ne F _ _ _ _ _ ((g, fnode f NULL (parent_of (f' :: C'))) ::
      flatten (Some g) (f_sib f)) f' C'); [exact HS1|reflexivity|left]. }
  clear HS1. intros m2 HS2.
  cstep. eapply runs_set_parent; [done|simpl; apply Permutation_middle|done|]. clear HS2. intros m3 HS3.
  cstep. eapply runs_delete_node; [done|apply Permutation_sym, Permutation_middle|].
  clear HS3. intros m4 HS4.
  eapply runs_count; [done|unfold is_int, INT_MIN, INT_MAX in *; lia|]. clear HS4. intros m5 HS5.
  assert (entries t ≡ₚ (c_key d, d) :: entries (plug C1 (f_sib f))) as HE.
  { rewrite Et, EC, El, Er, !entries_plug. simpl. unfold entries at 1. simpl.
    rewrite entry_d, bind_app. unfold entry at 1. by rewrite Hpx. }
  eapply removed_intro; [done| | | | |exact HE].
  - apply wf_rest; [|done]. apply wf_plug. split_and!; [done..|].
    destruct (f_sib f) as [|c' ??]; [done|]. simpl in *. destruct C1 as [|f' C']; [done|]. simpl in *.
    etrans; [done|]. by eapply prefix_snoc_l.
  - by rewrite flatten_plug.
  - by rewrite root_plug.
  - rewrite Et, EC, El, Er, !tsize_plug. simpl. rewrite length_app. unfold tsize. simpl. lia.
Qed.

(** A leaf whose parent holds a prefix. *)
Lemma remove_leaf_intro m1 f C1 : tl = Leaf → tr = Leaf → C = f :: C1 → c_px (f_cell f) ≠ NULL →
  St F P' ((c_loc (f_cell f), fnode f NULL (parent_of C1)) ::
    flatten (Some (c_loc (f_cell f))) (f_sib f) ++ flatten_ctx C1 (Some (c_loc (f_cell f))))
    (<[T := PTree (head_of C1 (Some (c_loc (f_cell f)))) mbits (Z.of_nat (tsize t) + -1)]> TT) X m1 →
  removed F T mbits t P TT X (c_key d) q x m1.
Proof using All.
  intros El Er EC Hpx HS1. destruct wf_here as (_ & Wc & Hf).
  assert (entries t ≡ₚ (c_key d, d) :: entries (plug C Leaf)) as HE.
  { rewrite Et, El, Er, !entries_plug. unfold entries. simpl. by rewrite entry_d. }
  eapply removed_intro; [done| | | | |exact HE].
  - apply wf_rest; [|done]. apply wf_plug. split_and!; [done..|]. by rewrite EC.
  - by rewrite flatten_plug, EC.
  - by rewrite root_plug, EC.
  - rewrite Et, El, Er, !tsize_plug. unfold tsize. simpl. lia.
Qed.

Lemma remove_spec :
  runs (patricia_remove (Some T) (Some (c_loc d))) m
    (λ _ m', removed F T mbits t P TT X (c_key d) q x m').
Proof using All.
  unfold patricia_remove. cstep. apply runs_assert; [done|]. cstep. apply runs_assert; [done|].
  cstep. eapply runs_get_node; [apply here_St|left|]. simpl. rewrite Eq.
  destruct (is_null (root tr)) eqn:Nr, (is_null (root tl)) eqn:Nl; simpl.
  - apply is_null_root in Nr, Nl. pose proof here_St as HS. rewrite Nl, Nr in HS.
    cstep. eapply runs_Deref_Prefix; [done..|]. clear HS. intros m1 HS1.
    cstep. eapply runs_delete_node; [done|done|]. clear HS1. intros m2 HS2.
    cstep. eapply runs_count; [done|unfold is_int, INT_MIN, INT_MAX in *; lia|]. clear HS2. intros m3 HS3.
    assert (C = [] ∨ ∃ f C1, C = f :: C1) as [EC|(f & C1 & EC)] by (destruct C; eauto);
      rewrite EC in HS3 |- *; simpl in HS3 |- *; [by apply remove_last_spec|].
    cstep. eapply runs_get_node; [done|left|].
    cstep. eapply runs_detach; [done..|]. clear HS3. intros m4 HS4.
    replace (prefix (fnode f (Some (c_loc d)) (parent_of C1))) with (c_px (f_cell f))
      by (unfold fnode; by destruct (f_dir f)).
    replace (parent (fnode f (Some (c_loc d)) (parent_of C1))) with (parent_of C1)
      by (unfold fnode; by destruct (f_dir f)).
    destruct (is_null (c_px (f_cell f))) eqn:Np; simpl.
    + apply bool_decide_eq_true in Np. by eapply remove_glue_spec.
    + apply bool_decide_eq_false in Np. cstep. by eapply remove_leaf_intro.
  - apply is_null_root in Nr. do 4 cstep.
    apply remove_single_spec; [by rewrite <-is_null_root, Nl|by left].
  - apply is_null_root in Nl. cstep. cstep.
    apply remove_single_spec; [by rewrite <-is_null_root, Nr|by right].
  - cstep. eapply runs_mono; [|intros ?? HH; exact HH].
    apply runs_bind_inv, remove_both_spec; by rewrite <-is_null_root, ?Nr, ?Nl.
Qed.
End remove.
