(* ===== verification/PatWalk.v ===== *)
(** * Walks, clearing and destruction

    The stack-based walks ([PATRICIA_WALK], [Clear_Patricia]) visit the nodes
    in pre-order and never overflow their stack; [patricia_walk_inorder] visits
    them in order and counts the prefixes.  [Clear_Patricia] frees every node
    and gives up every reference. *)

From stdpp Require Import base gmap list strings.
From Stdlib Require Import ZArith Lia Sorted.
From S2P Require Import Prelude Bits PatMem PrefixCode Patricia PatState PatTree PatPath PatSearch PatInsert PatRemove.

Local Open Scope Z_scope.

(** ** The stack of pending subtrees *)

(** The current node and the stack, as the roots of a list of subtrees. *)
Definition current (ts : list tree) : ptr := match ts with [] => NULL | s :: _ => root s end.
Definition stacked (ts : list tree) : list ptr := root <$> tail ts.

(** The subtrees that remain to be visited after a node. *)
Definition after (tl tr : tree) (ts : list tree) : list tree :=
  match tl, tr with
  | Leaf, Leaf => ts
  | Leaf, _ => tr :: ts
  | _, Leaf => tl :: ts
  | _, _ => tl :: tr :: ts
  end.

(** No pending subtree is empty, and there are never more of them than the key
    above them has bits. *)
Fixpoint stack_ok (ts : list tree) : Prop :=
  match ts with
  | [] => True
  | Leaf :: _ => False
  | Node c _ _ :: ts => (length ts ≤ length (c_key c))%nat ∧ stack_ok ts
  end.

Section stack.
Context (P : gmap loc prefix_t) (mb : nat) (Hmb : (mb ≤ 128)%nat).

Lemma stack_ok_after c tl tr ts :
  wf P mb (Node c tl tr) → stack_ok (Node c tl tr :: ts) → stack_ok (after tl tr ts).
Proof using.
  clear Hmb. intros (_ & _ & _ & Bl & Br & _ & _) [Hl Hs].
  destruct tl as [|cl ??], tr as [|cr ??]; simpl in *; [done|..];
    repeat match goal with H : _ `prefix_of` _ |- _ => apply prefix_snoc_length in H end;
    split_and!; simpl; try done; lia.
Qed.

Lemma wf_after c tl tr ts :
  Forall (wf P mb) (Node c tl tr :: ts) → Forall (wf P mb) (after tl tr ts).
Proof using.
  intros [(_ & _ & _ & _ & _ & Wl & Wr) Ws]%Forall_cons.
  destruct tl, tr; simpl; repeat (apply Forall_cons; split); done.
Qed.

Lemma cells_after tl tr ts : after tl tr ts ≫= cells = cells tl ++ cells tr ++ (ts ≫= cells).
Proof using. destruct tl, tr; simpl; by rewrite <-?app_assoc. Qed.

Lemma runs_walk_next c tl tr ts m (Q : ptr * list ptr → mem → Prop) :
  wf P mb (Node c tl tr) → stack_ok (Node c tl tr :: ts) →
  Q (current (after tl tr ts), stacked (after tl tr ts)) m →
  runs (walk_next (root tl) (root tr) (root <$> ts)) m Q.
Proof using Hmb.
  intros (Hk & _) [Hl Hs] HQ. unfold walk_next.
  destruct tl as [|cl ??], tr as [|cr ??]; simpl in *.
  - destruct ts as [|[|c' ??] ts]; simpl in *; [by cstep|done|by cstep].
  - by cstep.
  - cstep. cstep. by cstep.
  - cstep. unfold push. rewrite decide_True; [by do 2 cstep|].
    rewrite length_fmap. unfold PATRICIA_MAXBITS. lia.
Qed.

(** The positions of subtrees of [t]. *)
Definition within (t s : tree) : Prop := ∃ C, t = plug C s.

Lemma within_after t c tl tr ts :
  Forall (within t) (Node c tl tr :: ts) → Forall (within t) (after tl tr ts).
Proof using.
  intros [[C Et] Hs]%Forall_cons.
  assert (within t tl) by (exists (down false c tl tr C); by rewrite <-(plug_down false) in Et).
  assert (within t tr) by (exists (down true c tl tr C); by rewrite <-(plug_down true) in Et).
  destruct tl, tr; simpl; repeat (apply Forall_cons; split); done.
Qed.



End stack.

(** ** Walking *)
Section walk.
Context (F : gmap loc patricia_node_t) (P : gmap loc prefix_t) (mb : nat) (Hmb : (mb ≤ 128)%nat).
Context (t : tree) (TT : gmap loc patricia_tree_t) (W : wf P mb t).

(** The callback: on the node [c] it may change buffers and output, as
    described by [g], and leaves the tries alone. *)
Context (func : ptr → ptr → M mem unit) (g : cell → rest_t → rest_t).
Context (Hfunc : ∀ X m c, c ∈ cells t → c_px c ≠ NULL → St F P (flatten NULL t) TT X m →
  runs (func (c_px c) (c_data c)) m (λ _ m', St F P (flatten NULL t) TT (g c X) m')).

Definition visit (X : rest_t) (c : cell) : rest_t := match c_px c with None => X | Some _ => g c X end.

Lemma runs_visit X m c : c ∈ cells t → St F P (flatten NULL t) TT X m →
  runs (if negb (is_null (c_px c)) then func (c_px c) (c_data c) else mret tt) m
    (λ _ m', St F P (flatten NULL t) TT (visit X c) m').
Proof using Hfunc.
  intros Hc HS. unfold visit. pose proof (Hfunc X m c Hc) as Hf.
  destruct (c_px c) as [q|]; simpl; [by apply Hf|by cstep].
Qed.

Lemma walk_loop_spec fuel ts X m :
  St F P (flatten NULL t) TT X m → stack_ok ts → Forall (within t) ts →
  (length (ts ≫= cells) < fuel)%nat →
  runs (walk_loop fuel func (current ts) (stacked ts)) m
    (λ _ m', St F P (flatten NULL t) TT (foldl visit X (ts ≫= cells)) m').
Proof using Hmb Hfunc W.
  revert ts X m. induction fuel as [|fuel IH]; intros ts X m HS Hok Hin Hf; [lia|].
  destruct ts as [|[|c tl tr] ts]; [simpl; by cstep|done|].
  pose proof Hin as [[C Et] _]%Forall_cons.
  rewrite bind_cons in Hf |- *. simpl in Hf. rewrite <-app_assoc in Hf. rewrite <-cells_after in Hf.
  replace (cells (Node c tl tr) ++ (ts ≫= cells)) with (c :: (after tl tr ts ≫= cells))
    by (rewrite cells_after; simpl; by rewrite <-app_assoc).
  simpl.
  assert (∀ X m, St F P (flatten NULL t) TT X m → ∀ Q : _ → _ → Prop,
    Q (cnode c (root tl) (root tr) (parent_of C)) m → runs (get_node (Some (c_loc c))) m Q) as Hget.
  { intros. eapply runs_get_node; [done|rewrite Et; apply node_in_plug|done]. }
  assert (c ∈ cells t) as Hc by (rewrite Et, cells_plug; left).
  assert (wf P mb (Node c tl tr)) as Wc by (rewrite Et in W; by apply wf_plug in W as [? _]).
  cstep. eapply Hget; [done|]. simpl. cstep. eapply runs_mono; [by apply runs_visit|].
  intros [] m1 HS1. cstep. eapply Hget; [done|]. simpl.
  cstep. eapply runs_walk_next; [done..|].
  eapply IH; [done|by eapply stack_ok_after|by eapply within_after|lia].
Qed.

Lemma process_spec T X m n mbits :
  St F P (flatten NULL t) TT X m → TT !! T = Some (PTree (root t) mbits n) →
  runs (patricia_process (Some T) func) m
    (λ _ m', St F P (flatten NULL t) TT (foldl visit X (cells t)) m').
Proof using Hmb Hfunc W.
  intros HS HT. unfold patricia_process. cstep. eapply runs_get_tree; [done..|].
  cstep. apply runs_gets. cbn [head]. pose proof (rep_fuel _ _ _ _ _ _ HS) as Hf. unfold tsize in Hf.
  assert (t = Leaf ∨ stack_ok [t]) as [Et|Hok] by (destruct t; simpl; auto with lia).
  { rewrite Et in HS |- *. by cstep. }
  eapply runs_mono; [apply (walk_loop_spec _ [t] X)|].
  - done.
  - done.
  - apply Forall_singleton. by exists [].
  - simpl. by rewrite app_nil_r.
  - intros ? m'. simpl. by rewrite app_nil_r.
Qed.

(** ** In order *)
Fixpoint inorder (t : tree) : list cell :=
  match t with Leaf => [] | Node c tl tr => inorder tl ++ c :: inorder tr end.

Lemma inorder_perm s : inorder s ≡ₚ cells s.
Proof using. induction s as [|c tl IHl tr IHr]; simpl; [done|]. rewrite IHl, IHr. solve_Permutation. Qed.

(** The number of prefixes. *)
Definition nprefixes (cs : list cell) : nat := length (filter (λ c, c_px c ≠ NULL) cs).

Lemma nprefixes_app cs cs' : nprefixes (cs ++ cs') = (nprefixes cs + nprefixes cs')%nat.
Proof using. unfold nprefixes. by rewrite filter_app, length_app. Qed.

Lemma nprefixes_inorder s : nprefixes (inorder s) = nprefixes (cells s).
Proof using. unfold nprefixes. by rewrite inorder_perm. Qed.

Lemma nprefixes_le cs : (nprefixes cs ≤ length cs)%nat.
Proof using. apply length_filter. Qed.

Lemma nprefixes_1 c : nprefixes [c] = match c_px c with None => 0 | Some _ => 1 end%nat.
Proof using.
  unfold nprefixes. rewrite filter_cons. case_decide as H; destruct (c_px c); naive_solver.
Qed.

(** Visiting and counting one node. *)
Lemma runs_count_visit X m c n :
  c ∈ cells t → 0 ≤ n → n + 1 < 2 ^ 64 → St F P (flatten NULL t) TT X m →
  runs (if negb (is_null (c_px c)) then func (c_px c) (c_data c);; mret (u64 (n + 1)) else mret n) m
    (λ k m', k = n + Z.of_nat (nprefixes [c]) ∧ St F P (flatten NULL t) TT (visit X c) m').
Proof using Hmb Hfunc.
  intros Hc H0 Hn HS. pose proof (Hfunc X m c Hc) as Hf. rewrite nprefixes_1. unfold visit.
  destruct (c_px c) as [q|]; simpl.
  - cstep. eapply runs_mono; [by apply Hf|]. intros [] m2 HS2. cstep. split; [|done].
    unfold u64. rewrite Z.mod_small by lia. done.
  - cstep. split; [lia|done].
Qed.

Definition counted (s : tree) (X : rest_t) (n : Z) (m' : mem) : Prop :=
  n = Z.of_nat (nprefixes (inorder s)) ∧ St F P (flatten NULL t) TT (foldl visit X (inorder s)) m'.

Lemma runs_subtree s X m (walk : M mem Z) :
  (s ≠ Leaf → runs walk m (counted s X)) → St F P (flatten NULL t) TT X m →
  runs (if negb (is_null (root s)) then walk else mret 0) m (counted s X).
Proof using.
  intros Hw HS. destruct (is_null (root s)) eqn:En; simpl.
  - apply is_null_root in En as ->. by cstep.
  - apply Hw. by rewrite <-is_null_root, En.
Qed.

Lemma walk_inorder_spec fuel s C X m :
  St F P (flatten NULL t) TT X m → t = plug C s → s ≠ Leaf → (tsize s ≤ fuel)%nat →
  (Z.of_nat (tsize s) < 2 ^ 64) →
  runs (walk_inorder fuel (root s) func) m (counted s X).
Proof using Hmb Hfunc.
  revert s C X m. induction fuel as [|fuel IH]; intros s C X m HS Et Hs Hf Hn.
  { destruct s; [done|]. unfold tsize in Hf. simpl in Hf. lia. }
  destruct s as [|c tl tr]; [done|]. cbn [walk_inorder root].
  assert (∀ X m, St F P (flatten NULL t) TT X m → ∀ Q : _ → _ → Prop,
    Q (cnode c (root tl) (root tr) (parent_of C)) m → runs (get_node (Some (c_loc c))) m Q) as Hget.
  { intros. eapply runs_get_node; [done|rewrite Et; apply node_in_plug|done]. }
  assert (c ∈ cells t) as Hc by (rewrite Et, cells_plug; left).
  assert (tsize (Node c tl tr) = S (tsize tl + tsize tr)) as Hsz by apply (tsize_join false).
  assert (∀ b X m, St F P (flatten NULL t) TT X m → child b tl tr ≠ Leaf →
    runs (walk_inorder fuel (root (child b tl tr)) func) m (counted (child b tl tr) X)) as Hrec.
  { intros b X' m' HS' Hne. eapply (IH _ (down b c tl tr C)); [done|by rewrite plug_down|done|..];
      destruct b; simpl in *; lia. }
  pose proof (nprefixes_le (cells tl)). pose proof (nprefixes_le (cells tr)).
  pose proof (nprefixes_le [c]) as Hc1. simpl in Hc1. rewrite Hsz in Hn. unfold tsize in Hn.
  cstep. eapply Hget; [done|]. cbn [l cnode]. cstep.
  eapply runs_mono; [apply runs_subtree with (s := tl); [by apply (Hrec false)|done]|].
  intros n1 m1 [-> HS1]. cstep. eapply Hget; [done|]. cbn [prefix data cnode]. cstep.
  rewrite nprefixes_inorder.
  eapply runs_mono; [apply runs_count_visit; [done|lia|lia|done]|].
  intros n2 m2 [-> HS2]. cstep. eapply Hget; [done|]. cbn [r cnode].
  assert (∀ nr m3, counted tr (visit (foldl visit X (inorder tl)) c) nr m3 →
    counted (Node c tl tr) X (u64 (Z.of_nat (nprefixes (cells tl)) + Z.of_nat (nprefixes [c]) + nr)) m3)
    as Hfin.
  { intros nr m3 [-> HS3]. unfold counted. change (inorder (Node c tl tr)) with (inorder tl ++ [c] ++ inorder tr). rewrite !foldl_app, nprefixes_app.
    rewrite nprefixes_app, !nprefixes_inorder. split; [|done]. unfold u64.
    rewrite Z.mod_small; lia. }
  destruct (is_null (root tr)) eqn:En; cbn [negb].
  - apply is_null_root in En. cstep.
    destruct (Hfin 0 m2) as [E HS3]; [rewrite En; by split|]. split; [|done]. rewrite <-E.
    unfold u64. rewrite Z.mod_small; lia.
  - cstep. eapply runs_mono; [apply (Hrec true); [done|rewrite <-is_null_root; simpl; by rewrite En]|].
    intros k m3 Hk. cstep. by apply Hfin.
Qed.
End walk.

(** ** Clearing *)

(** One reference to the prefix of a node is given up. *)
Definition clear_px (P : gmap loc prefix_t) (c : cell) : gmap loc prefix_t :=
  match c_px c with
  | None => P
  | Some q => match P !! q with Some x => derefd P q x | None => P end
  end.

Section clear.
Context (F : gmap loc patricia_node_t) (P0 : gmap loc prefix_t) (mb : nat) (Hmb : (mb ≤ 128)%nat).
Context (T : loc) (h : ptr) (mbits : Z) (TT : gmap loc patricia_tree_t).

(** The callback on the data of a node. *)
Context (func : option (ptr → M mem unit)) (g : ptr → rest_t → rest_t).
Context (Hfunc : ∀ f, func = Some f → ∀ dp P L TT X m, St F P L TT X m →
  runs (f dp) m (λ _ m', St F P L TT (g dp X) m')).

Definition clear_X (X : rest_t) (c : cell) : rest_t :=
  match c_px c, func, c_data c with Some _, Some _, Some _ => g (c_data c) X | _, _, _ => X end.

(** The prefix and data of one node. *)
Lemma runs_release P L TT' X m c : px_ok P c → St F P L TT' X m →
  runs (if negb (is_null (c_px c)) then
          Deref_Prefix (c_px c);;
          match func with
          | Some f => if negb (is_null (c_data c)) then f (c_data c) else mret tt
          | None => mret tt
          end
        else assert (is_null (c_data c))) m
    (λ _ m', St F (clear_px P c) L TT' (clear_X X c) m').
Proof using Hfunc.
  unfold px_ok, clear_px, clear_X. destruct (c_px c) as [q|]; simpl.
  - intros (x & Hq & _ & Hr & _) HS. rewrite Hq. cstep.
    eapply runs_Deref_Prefix; [done..|]. intros m1 HS1.
    destruct func as [f|]; [|by cstep]. destruct (c_data c) as [dp|]; simpl; [|by cstep].
    by apply Hfunc.
  - intros -> HS. by apply runs_assert.
Qed.

(** The nodes of a list of subtrees with parents [ps]. *)
Definition flats (ps : list ptr) (ts : list tree) : list (loc * patricia_node_t) :=
  concat (zip_with flatten ps ts).

Lemma flats_after c tl tr ps ts : length ps = length ts →
  ∃ ps', length ps' = length (after tl tr ts) ∧
    flats ps' (after tl tr ts) =
    flatten (Some (c_loc c)) tl ++ flatten (Some (c_loc c)) tr ++ flats ps ts.
Proof using.
  clear Hmb. intros Hl. set (p := Some (c_loc c)). unfold flats.
  destruct tl as [|cl ??], tr as [|cr ??].
  - by exists ps.
  - exists (p :: ps). split; [simpl; lia|done].
  - exists (p :: ps). split; [simpl; lia|done].
  - exists (p :: p :: ps). split; [simpl; lia|done].
Qed.

Lemma px_ok_clear P c c' : c_px c = NULL ∨ c_px c' ≠ c_px c → px_ok P c' → px_ok (clear_px P c) c'.
Proof using.
  unfold clear_px. destruct (c_px c) as [q|]; [|done]. intros [?|Hne]; [done|].
  destruct (P !! q); [by apply px_ok_derefd|done].
Qed.

Lemma clear_loop_spec fuel ps ts P X m :
  St F P (flats ps ts) (<[T := PTree h mbits (Z.of_nat (length (ts ≫= cells)))]> TT) X m →
  length ps = length ts → stack_ok ts → Forall (wf P0 mb) ts →
  Forall (px_ok P) (ts ≫= cells) → NoDup (omap c_px (ts ≫= cells)) →
  (length (ts ≫= cells) < fuel)%nat → Z.of_nat (length (ts ≫= cells)) ≤ INT_MAX →
  runs (clear_loop fuel (Some T) func (current ts) (stacked ts)) m
    (λ _ m', St F (foldl clear_px P (ts ≫= cells)) [] (<[T := PTree h mbits 0]> TT)
               (foldl clear_X X (ts ≫= cells)) m').
Proof using Hmb Hfunc.
  revert ps ts P X m. induction fuel as [|fuel IH];
    intros ps ts P X m HS Hps Hok Hwf Hpx Hnd Hf Hi; [lia|].
  destruct ts as [|[|c tl tr] ts].
  { destruct ps; [|done]. simpl. by cstep. }
  { done. }
  destruct ps as [|p ps]; [done|]. injection Hps as Hps.
  assert ((Node c tl tr :: ts) ≫= cells = c :: (after tl tr ts ≫= cells)) as Ec.
  { rewrite bind_cons, cells_after. simpl. by rewrite <-app_assoc. }
  rewrite Ec in *. set (cs := after tl tr ts ≫= cells) in *.
  apply Forall_cons in Hpx as [Hc Hpx]. pose proof Hwf as [Wc _]%Forall_cons.
  destruct (flats_after c tl tr ps ts Hps) as (ps' & Hps' & EL).
  assert (flats (p :: ps) (Node c tl tr :: ts) =
    (c_loc c, cnode c (root tl) (root tr) p) :: flats ps' (after tl tr ts)) as EL'.
  { rewrite EL. unfold flats. simpl. by rewrite <-app_assoc. }
  rewrite EL' in HS. cbn [clear_loop current root]. change (is_null (Some (c_loc c))) with false. cbv iota.
  cstep. eapply runs_get_node; [done|left|]. cbn [l r prefix data cnode].
  cstep. eapply runs_mono; [by apply runs_release|]. intros [] m1 HS1.
  cstep. eapply runs_delete_node; [done|done|]. clear HS1. intros m2 HS2.
  cstep. eapply runs_count; [done|unfold is_int, INT_MIN; lia|]. clear HS2. intros m3 HS3.
  cstep. eapply (runs_walk_next P0 mb); [done..|]. simpl.
  replace (Z.of_nat (length (c :: cs)) + -1) with (Z.of_nat (length cs)) in HS3 by (simpl; lia).
  eapply IH; try done.
  - by eapply stack_ok_after.
  - by eapply wf_after.
  - rewrite Forall_forall in *. intros c' Hc'. apply px_ok_clear; [|by apply Hpx].
    simpl in Hnd. destruct (c_px c) as [q|] eqn:Eq; [right|by left].
    apply NoDup_cons in Hnd as [Hq _]. intros Eq'. apply Hq, list_elem_of_omap. eauto.
  - simpl in Hnd. destruct (c_px c); [by apply NoDup_cons in Hnd as [_ ?]|done].
  - fold cs; simpl in Hf; lia.
  - fold cs; simpl in Hi; lia.
Qed.
End clear.

Lemma NoDup_px P mb t : wf P mb t → NoDup (omap c_px (cells t)).
Proof.
  intros W. assert (∀ cs, cs ⊆ cells t → NoDup (c_key <$> cs) → NoDup (omap c_px cs)) as H.
  { induction cs as [|c cs IH]; intros Hs Hk; simpl; [constructor|].
    apply NoDup_cons in Hk as [Hc Hk].
    assert (NoDup (omap c_px cs)) by (apply IH; [|done]; intros d Hd; apply Hs; by right).
    destruct (c_px c) as [q|] eqn:Eq; [|done]. apply NoDup_cons. split; [|done].
    intros (c' & Hc' & Eq')%list_elem_of_omap. apply Hc.
    assert (c = c') as -> by (eapply cells_px_inj; [done|apply Hs; left|apply Hs; by right|done..]).
    by apply list_elem_of_fmap_2. }
  apply H; [done|]. by eapply NoDup_keys.
Qed.

Lemma cells_px_ok P mb t : wf P mb t → Forall (px_ok P) (cells t).
Proof. intros W. apply Forall_forall. intros c Hc. by destruct (cells_wf _ _ _ _ W Hc). Qed.

(** Every prefix object held by the nodes [cs] loses one reference, the others
    keep theirs. *)
Lemma clear_prefixes_lookup P cs q :
  Forall (px_ok P) cs → NoDup (omap c_px cs) →
  foldl clear_px P cs !! q =
    if decide (q ∈ omap c_px cs) then P !! q ≫= λ x, derefd P q x !! q else P !! q.
Proof.
  revert P. induction cs as [|c cs IH]; intros P Hok Hnd; simpl; [done|].
  apply Forall_cons in Hok as [Hc Hok].
  assert (Forall (px_ok (clear_px P c)) cs) as Hok'.
  { rewrite Forall_forall in *. intros c' Hc'. apply px_ok_clear; [|by apply Hok].
    simpl in Hnd. destruct (c_px c) as [q1|] eqn:E; [right|by left]. apply NoDup_cons in Hnd as [Hn _].
    intros E'. apply Hn, list_elem_of_omap. eauto. }
  simpl in Hnd. unfold px_ok in Hc. unfold clear_px in *.
  destruct (c_px c) as [q1|] eqn:E; [|by rewrite IH].
  destruct Hc as (x & Hq1 & _). rewrite Hq1 in *. apply NoDup_cons in Hnd as [Hn Hnd].
  rewrite IH by done. destruct (decide (q = q1)) as [->|Hne].
  - rewrite decide_False by done. rewrite decide_True by left. by rewrite Hq1.
  - assert (∀ x', derefd P q1 x' !! q = P !! q) as Hd.
    { intros x'. unfold derefd. destruct (_ =? _); [by rewrite lookup_delete_ne|by rewrite lookup_insert_ne]. }
    rewrite Hd. destruct (decide (q ∈ omap c_px cs)) as [Hin|Hout].
    + rewrite decide_True by (by right). destruct (P !! q) as [x'|] eqn:Eq; [|done]. simpl.
      unfold derefd. destruct (ref_count x' =? 1); [by rewrite !lookup_delete_eq|by rewrite !lookup_insert_eq].
    + rewrite decide_False; [done|]. rewrite elem_of_cons. naive_solver.
Qed.

(** [num_active_patricia] in the rest of the memory. *)
Definition x_active (X : rest_t) : Z := X.1.1.2.
Definition x_set_active (z : Z) (X : rest_t) : rest_t := (X.1.1.1, z, X.1.2, X.2).

Lemma x_active_St F P L TT X m : St F P L TT X m → num_active_patricia m = x_active X.
Proof. intros H. by rewrite <-(st_X _ _ _ _ _ _ H). Qed.

Lemma runs_set_active F P L TT X m z (Q : unit → mem → Prop) :
  St F P L TT X m → (∀ m', St F P L TT (x_set_active z X) m' → Q tt m') →
  runs (modify (set_num_active_patricia z)) m Q.
Proof.
  intros [H1 H2 H3 H4 H5 H6] HQ. apply runs_modify, HQ. split; try done. by rewrite <-H3.
Qed.

Lemma runs_delete_tree F P L TT X m T (Q : unit → mem → Prop) :
  St F P L TT X m → is_Some (TT !! T) → (∀ m', St F P L (delete T TT) X m' → Q tt m') →
  runs (Delete_tree (Some T)) m Q.
Proof.
  intros [H1 H2 H3 H4 H5 H6] [t Ht] HQ. exists tt, (set_trees (delete T) m).
  unfold Delete_tree. rewrite H2, Ht. split; [done|]. apply HQ. split; simpl; try done. by rewrite H2.
Qed.

Section destroy.
Context (F : gmap loc patricia_node_t) (P : gmap loc prefix_t) (T : loc) (mbits : Z).
Context (t : tree) (TT : gmap loc patricia_tree_t) (X : rest_t) (m : mem).
Context (HR : Rep F T mbits t P TT X m) (Hsz : Z.of_nat (tsize t) ≤ INT_MAX).
Context (func : option (ptr → M mem unit)) (g : ptr → rest_t → rest_t).
Context (Hfunc : ∀ f, func = Some f → ∀ dp P L TT X m, St F P L TT X m →
  runs (f dp) m (λ _ m', St F P L TT (g dp X) m')).

Lemma clear_spec :
  runs (Clear_Patricia (Some T) func) m
    (λ _ m', St F (foldl clear_px P (cells t)) [] (<[T := PTree (root t) mbits 0]> TT)
               (foldl (clear_X func g) X (cells t)) m').
Proof using All.
  destruct HR as [HS HT W Hmb]. unfold Clear_Patricia. cstep. apply runs_assert; [done|].
  cstep. eapply runs_get_tree; [done..|]. cstep. apply runs_gets. cbn [head]. cstep.
  eapply runs_mono with (Q := λ _ m', St F (foldl clear_px P (cells t)) []
    (<[T := PTree (root t) mbits 0]> TT) (foldl (clear_X func g) X (cells t)) m').
  - assert (t = Leaf ∨ stack_ok [t] ∧ is_null (root t) = false) as [Et|[Hok ->]]
      by (destruct t; simpl; auto with lia).
    { rewrite Et in *. simpl. cstep. rewrite insert_id; done. }
    cbn [negb]. pose proof (clear_loop_spec F P (key_bound mbits) ltac:(unfold key_bound; lia)
      T (root t) mbits TT func g Hfunc (loop_fuel m) [NULL] [t] P X m) as Hc.
    pose proof (rep_fuel _ _ _ _ _ _ HS) as Hf. unfold tsize, flats in *. simpl in Hc, HT.
    rewrite !app_nil_r in Hc. apply Hc; try done.
    + by rewrite insert_id.
    + by apply Forall_singleton.
    + by eapply cells_px_ok.
    + by eapply NoDup_px.
  - intros [] m1 HS1. cstep. eapply runs_get_tree; [done|apply lookup_insert_eq|].
    by apply runs_assert.
Qed.

Lemma destroy_spec : is_int (x_active (foldl (clear_X func g) X (cells t)) - 1) →
  runs (Destroy_Patricia (Some T) func) m
    (λ _ m', let X' := foldl (clear_X func g) X (cells t) in
       St F (foldl clear_px P (cells t)) [] (delete T TT) (x_set_active (x_active X' - 1) X') m').
Proof using All.
  intros Hi. unfold Destroy_Patricia. cstep. eapply runs_mono; [apply clear_spec|]. intros [] m1 HS1.
  cstep. eapply runs_delete_tree; [done|rewrite lookup_insert_eq; eauto|]. clear HS1.
  intros m2 HS2. rewrite delete_insert_eq in HS2. cstep. apply runs_gets.
  rewrite (x_active_St _ _ _ _ _ _ HS2). cstep. apply runs_chk_int; [done|].
  by eapply runs_set_active.
Qed.
End destroy.
