(* ===== verification/PatPrefix.v ===== *)
(** * Prefix objects: parsing, printing, reference counts

    [my_inet_pton] is total and writes in bounds; what [prefix_toa2x] prints is
    what [ascii2prefix] reads; [Ref_Prefix] and [Deref_Prefix] are inverse. *)

From stdpp Require Import base gmap list strings.
From Stdlib Require Import ZArith Lia.
From S2P Require Import Prelude Bits PatMem PrefixCode Patricia PatState PatTree PatSearch PatInsert PatRemove.

Local Open Scope Z_scope.

(** ** Parsing addresses *)

Lemma octet_loop_bound c val src v c' rest :
  0 ≤ val → 48 ≤ c → octet_loop c val src = Some (v, c', rest) → 0 ≤ v ≤ 255.
Proof.
  revert c val. induction src as [|d src IH]; intros c val Hv Hc; simpl;
    (destruct (Z.ltb_spec 255 (val * 10 + c - 48)) as [?|Hle]; [done|]).
  - intros [= <- _ _]. lia.
  - destruct (isdigit d) eqn:Ed; [|intros [= <- _ _]; lia].
    apply IH; [lia|]. unfold isdigit in Ed. apply andb_true_iff in Ed as [?%Z.leb_le _]. done.
Qed.

Lemma pton_loop_total fuel i xp src :
  (4 < fuel + i)%nat → (i < 4)%nat → length xp = 4%nat → Forall is_byte xp →
  ∃ r xp', pton_loop fuel i xp src = Ok (r, xp') ∧ r ∈ [-1; 0; 1] ∧
    length xp' = 4%nat ∧ Forall is_byte xp'.
Proof.
  revert i xp src. induction fuel as [|fuel IH]; intros i xp src Hf Hi Hl Hb; [lia|].
  assert (∀ r xp', r ∈ [-1; 0; 1] → length xp' = 4%nat → Forall is_byte xp' →
    ∃ r' xp'', Ok (r, xp') = Ok (r', xp'') ∧ r' ∈ [-1; 0; 1] ∧
      length xp'' = 4%nat ∧ Forall is_byte xp'') as Hret by eauto 10.
  cbn [pton_loop]. destruct src as [|c src]; [apply Hret; set_solver|].
  destruct (isdigit c) eqn:Ec; cbn [negb]; [|apply Hret; set_solver].
  destruct (octet_loop c 0 src) as [[[v c'] rest]|] eqn:Eo; [|apply Hret; set_solver].
  rewrite decide_True by lia.
  assert (Forall is_byte (<[i := u8 v]> xp)) as Hb'.
  { apply Forall_insert; [done|]. unfold u8, is_byte. apply Z.mod_pos_bound. lia. }
  assert (length (<[i := u8 v]> xp) = 4%nat) as Hl' by (by rewrite length_insert).
  destruct (c' =? 0); [apply Hret; set_solver|].
  destruct (c' =? 46); cbn [negb]; [|apply Hret; set_solver].
  destruct (Nat.leb_spec 3 i); [apply Hret; set_solver|]. apply IH; [lia|lia|done|done].
Qed.

(** The text and length part of a prefix string, as [ascii2prefix] splits it. *)
Definition split_prefix (s : list Z) : Z * list Z :=
  match strchr s 47 with
  | Some (before, after) => (if 32 <? u64 (atol after) then 32 else u64 (atol after), before)
  | None => (32, s)
  end.

(** The address and length a string stands for. *)
Definition parse_prefix (s : list Z) : option (list Z * Z) :=
  let '(len, body) := split_prefix s in
  match pton_loop 5 0 [0; 0; 0; 0] body with
  | Ok (1, xp) => Some (xp, len)
  | _ => None
  end.

Lemma u64_pos z : 0 ≤ u64 z.
Proof. unfold u64. apply Z.mod_pos_bound. lia. Qed.

Lemma split_prefix_len s : 0 ≤ (split_prefix s).1 ≤ 32.
Proof.
  unfold split_prefix. destruct (strchr s 47) as [[b a]|]; simpl; [|lia].
  pose proof (u64_pos (atol a)). destruct (Z.ltb_spec 32 (u64 (atol a))); lia.
Qed.

Lemma parse_prefix_ok s xp len :
  parse_prefix s = Some (xp, len) → prefix_ok (Prefix AF_INET len 1 xp).
Proof.
  unfold parse_prefix. pose proof (split_prefix_len s) as Hl. destruct (split_prefix s) as [n body].
  destruct (pton_loop_total 5 0 [0; 0; 0; 0] body) as (r & xp' & E & Hr & H4 & Hb); [lia..|done| |].
  { repeat constructor; unfold is_byte; lia. }
  rewrite E. destruct r as [|[]|]; try done. intros [= <- <-]. by split.
Qed.

Lemma strchr_length s c b a : strchr s c = Some (b, a) → (length b < length s)%nat.
Proof.
  revert b a. induction s as [|x s IH]; intros b a; simpl; [done|].
  destruct (x =? c); [intros [= <- <-]; simpl; lia|].
  destruct (strchr s c) as [[b' a']|]; simpl; [|done]. intros [= <- <-]. simpl.
  specialize (IH _ _ eq_refl). lia.
Qed.

(** [New_Prefix] allocates an object with one reference. *)
Lemma runs_New_Prefix F P L TT X m (bs : list Z) len (Q : ptr → mem → Prop) :
  St F P L TT X m → length bs = 4%nat → 0 ≤ len < 2 ^ 16 →
  (∀ q m', P !! q = None → St F (<[q := Prefix AF_INET len 1 bs]> P) L TT X m' → Q (Some q) m') →
  runs (New_Prefix AF_INET bs len) m Q.
Proof.
  intros HS Hbs Hlen HQ. unfold New_Prefix, New_Prefix2. simpl. cstep. cstep.
  eapply runs_calloc_prefix; [done|]. intros q m1 Hq HS1. cstep. simpl.
  do 5 (cstep; eapply runs_upd_prefix;
    [eassumption|apply lookup_insert_eq|]; clear HS1; intros m2 HS1; rewrite insert_insert_eq in HS1;
    simpl in HS1; clear dependent m1; rename m2 into m1).
  cstep. apply HQ; [done|]. rewrite (proj2 (Z.leb_le 0 len)) in HS1 by lia.
  rewrite (u16_small len) in HS1 by lia. by rewrite take_ge in HS1 by lia.
Qed.

(** [ascii2prefix]: a fresh object for a well-formed string, else null. *)
Lemma runs_ascii2prefix F P L TT X m s (Q : ptr → mem → Prop) :
  St F P L TT X m → Z.of_nat (length s) ≤ MAXLINE →
  match parse_prefix s with
  | Some (xp, len) => ∀ q m', P !! q = None → St F (<[q := Prefix AF_INET len 1 xp]> P) L TT X m' →
      Q (Some q) m'
  | None => Q NULL m
  end →
  runs (ascii2prefix AF_INET (Some s)) m Q.
Proof.
  intros HS Hs HQ. unfold ascii2prefix. simpl.
  cstep. eapply (runs_mono _ _ (λ a m', a = split_prefix s ∧ m' = m)).
  { unfold split_prefix. destruct (strchr s 47) as [[b a]|] eqn:E; [|by cstep].
    apply strchr_length in E. cstep. apply runs_assert; [apply Z.ltb_lt; lia|]. by cstep. }
  intros a m' [-> ->]. pose proof (parse_prefix_ok s) as Hok. unfold parse_prefix in *.
  destruct (split_prefix s) as [len body].
  destruct (pton_loop_total 5 0 [0; 0; 0; 0] body) as (r & xp & E & Hr & H4 & Hb); [lia..|done| |].
  { repeat constructor; unfold is_byte; lia. }
  rewrite E in *. cstep. unfold my_inet_pton. rewrite Z.eqb_refl.
  cstep. eapply runs_lift; [done|].
  assert (r = -1 ∨ r = 0 ∨ r = 1) as [->|[->| ->]] by set_solver; [by do 2 cstep..|].
  cstep. simpl. destruct (Hok xp len eq_refl) as [_ ? ? _]. simpl in *.
  eapply runs_New_Prefix; [done|done|lia|done].
Qed.

(** ** Printing *)

(** The text of an address, and with its length. *)
Definition quad (bs : list Z) : list Z :=
  match bs with
  | [a0; a1; a2; a3] => fmt_d a0 ++ [46] ++ fmt_d a1 ++ [46] ++ fmt_d a2 ++ [46] ++ fmt_d a3
  | _ => []
  end.
Definition toa_text (x : prefix_t) (with_len : bool) : list Z :=
  if with_len then quad (add x) ++ [47] ++ fmt_d (bitlen x) else quad (add x).

Section toa.
Context (m : mem) (q : loc) (x : prefix_t).
Context (Hq : m_prefix m !! q = Some x) (Ho : prefix_ok x) (Hr : 0 ≤ ref_count x).

(** What remains of [prefix_toa2x] once the buffer is chosen. *)
Lemma toa_print m' c wl m'' :
  sprintf c (toa_text x wl) m' = Ok (tt, m'') →
  (if family x =? AF_INET then
     assert (bitlen x <=? 32);;
     a0 ← from_option_or BadAccess (add x !! 0%nat);
     a1 ← from_option_or BadAccess (add x !! 1%nat);
     a2 ← from_option_or BadAccess (add x !! 2%nat);
     a3 ← from_option_or BadAccess (add x !! 3%nat);
     let quad := fmt_d a0 ++ [46] ++ fmt_d a1 ++ [46] ++ fmt_d a2 ++ [46] ++ fmt_d a3 in
     (if wl then sprintf c (quad ++ [47] ++ fmt_d (bitlen x)) else sprintf c quad);;
     mret c
   else mret CNull) m' = Ok (c, m'').
Proof using Ho.
  intros Hs. destruct Ho as [Hf Hb Ha _]. rewrite Hf, Z.eqb_refl.
  rewrite (proj2 (Z.leb_le _ _)) by lia. unfold toa_text, quad in Hs.
  destruct (add x) as [|a0 [|a1 [|a2 [|a3 [|]]]]]; try done.
  cbv [assert mbind M_bind mret M_ret from_option_or lookup list_lookup]. cbv beta iota zeta.
  by destruct wl; rewrite Hs.
Qed.

(** Into the caller's buffer. *)
Lemma toa2x_buf b old wl : m_buf m !! b = Some old →
  prefix_toa2x (Some q) (Some b) wl m = Ok (CBuf b, set_buf <[b := toa_text x wl]> m).
Proof using Hq Ho Hr.
  intros Hb. unfold prefix_toa2x. unfold mbind at 1, M_bind at 1, get_prefix, load. simpl. rewrite Hq.
  rewrite (proj2 (Z.leb_le _ _) Hr).
  cbn [assert mret M_ret]. unfold mbind at 1, M_bind at 1. cbn [mret M_ret].
  unfold mbind at 1, M_bind at 1. cbn [mret M_ret]. apply toa_print. simpl. by rewrite Hb.
Qed.

(** Into the next of the 16 static buffers. *)
Lemma toa2x_static wl : length (buffs (local_buff m)) = 16%nat →
  let i := buff_i (local_buff m) in let k := Z.to_nat (i mod 16) in
  prefix_toa2x (Some q) NULL wl m =
    Ok (CStatic k, set_local_buff
          (ToaBuffer (<[k := toa_text x wl]> (buffs (local_buff m))) (u32 (i + 1))) m).
Proof using Hq Ho Hr.
  intros Hl i k. unfold prefix_toa2x. unfold mbind at 1, M_bind at 1, get_prefix, load. simpl. rewrite Hq.
  rewrite (proj2 (Z.leb_le _ _) Hr).
  cbn [assert mret M_ret]. unfold mbind at 1, M_bind at 1. cbn [mret M_ret].
  unfold mbind at 1, M_bind at 1. unfold mbind at 1, M_bind at 1, gets.
  unfold mbind at 1, M_bind at 1, modify. cbn [mret M_ret]. apply toa_print. simpl.
  rewrite decide_True; [done|]. rewrite Hl. fold i.
  pose proof (Z.mod_pos_bound i 16 ltac:(lia)). lia.
Qed.
End toa.

(** ** Reading back what was printed *)

Lemma octet_loop_app d v ds b c rest :
  Forall (λ c, isdigit c = true) ds → octet_loop d v ds = Some (b, 0, []) → isdigit c = false →
  octet_loop d v (ds ++ c :: rest) = Some (b, c, rest).
Proof.
  intros Hds. revert d v. induction Hds as [|d' ds Hd _ IH]; intros d v H Hc; simpl in *;
    destruct (255 <? v * 10 + d - 48); try done.
  - rewrite Hc. by simplify_eq.
  - rewrite Hd in *. by apply IH.
Qed.

(** Checked for each of the 256 bytes. *)
Definition octet_check (b : Z) : bool :=
  match fmt_d b with
  | d :: ds => forallb isdigit (d :: ds) && (length ds <? 3)%nat &&
      bool_decide (octet_loop d 0 ds = Some (b, 0, []))
  | [] => false
  end.

Lemma octet_checked b : is_byte b → octet_check b = true.
Proof.
  intros [H0 H1]. assert (forallb octet_check (seqZ 0 256) = true) as H by (vm_compute; done).
  rewrite forallb_forall in H. apply H, list_elem_of_In, elem_of_seqZ. lia.
Qed.

Lemma octet_roundtrip b : is_byte b →
  ∃ d ds, fmt_d b = d :: ds ∧ Forall (λ c, isdigit c = true) (d :: ds) ∧ (length ds < 3)%nat ∧
    octet_loop d 0 ds = Some (b, 0, []) ∧
    ∀ c rest, isdigit c = false → octet_loop d 0 (ds ++ c :: rest) = Some (b, c, rest).
Proof.
  intros Hb%octet_checked. unfold octet_check in Hb. destruct (fmt_d b) as [|d ds]; [done|].
  apply andb_true_iff in Hb as [[Hd Hl%Nat.ltb_lt]%andb_true_iff Ho%bool_decide_eq_true].
  assert (Forall (λ c, isdigit c = true) (d :: ds)) as HF.
  { apply Forall_forall. intros c Hc%list_elem_of_In. rewrite forallb_forall in Hd. auto. }
  exists d, ds. split_and!; [done..|]. intros c rest Hc. apply Forall_cons in HF as [_ HF].
  by apply octet_loop_app.
Qed.

Lemma pton_octet fuel i xp b c rest :
  is_byte b → (i < length xp)%nat → isdigit c = false → c ≠ 0 →
  pton_loop (S fuel) i xp (fmt_d b ++ c :: rest) =
    if negb (c =? 46) then Ok (0, <[i := b]> xp)
    else if (3 <=? i)%nat then Ok (0, <[i := b]> xp)
    else pton_loop fuel (S i) (<[i := b]> xp) rest.
Proof.
  intros Hb Hi Hc Hc0. destruct (octet_roundtrip b Hb) as (d & ds & -> & [Hd _]%Forall_cons & _ & _ & Hl).
  cbn [pton_loop app]. rewrite Hd. cbn [negb]. rewrite (Hl c rest Hc), decide_True by done.
  rewrite (proj2 (Z.eqb_neq c 0)), u8_small by done. done.
Qed.

Lemma pton_last fuel i xp b : is_byte b → (i < length xp)%nat →
  pton_loop (S fuel) i xp (fmt_d b) = Ok (1, <[i := b]> xp).
Proof.
  intros Hb Hi. destruct (octet_roundtrip b Hb) as (d & ds & -> & [Hd _]%Forall_cons & _ & Hl & _).
  cbn [pton_loop]. rewrite Hd. cbn [negb]. rewrite Hl, decide_True by done.
  by rewrite u8_small.
Qed.

Lemma pton_quad bs : length bs = 4%nat → Forall is_byte bs →
  pton_loop 5 0 [0; 0; 0; 0] (quad bs) = Ok (1, bs).
Proof.
  intros H4 Hb. destruct bs as [|a0 [|a1 [|a2 [|a3 [|]]]]]; try done.
  repeat (apply Forall_cons in Hb as [? Hb]). unfold quad. cbn [app].
  rewrite !pton_octet by (done || simpl; lia). rewrite pton_last by (done || simpl; lia). done.
Qed.

Lemma strchr_app s r : 47 ∉ s → strchr (s ++ 47 :: r) 47 = Some (s, r).
Proof.
  induction s as [|x s IH]; intros Hs; simpl; [done|].
  apply not_elem_of_cons in Hs as [Hx Hs].
  destruct (Z.eqb_spec x 47); [by subst|]. by rewrite IH.
Qed.

Lemma fmt_d_facts b : is_byte b → 47 ∉ fmt_d b ∧ (length (fmt_d b) ≤ 3)%nat.
Proof.
  intros Hb. destruct (octet_roundtrip b Hb) as (d & ds & -> & Hd & Hl & _). split; [|simpl; lia].
  intros Hin. rewrite Forall_forall in Hd. by specialize (Hd _ Hin).
Qed.

Lemma quad_facts bs : Forall is_byte bs → 47 ∉ quad bs ∧ (length (quad bs) ≤ 15)%nat.
Proof.
  intros Hb. destruct bs as [|a0 [|a1 [|a2 [|a3 [|]]]]]; try (split; [apply not_elem_of_nil|simpl; lia]).
  repeat (apply Forall_cons in Hb as [? Hb]).
  destruct (fmt_d_facts a0), (fmt_d_facts a1), (fmt_d_facts a2), (fmt_d_facts a3); [done..|].
  unfold quad. rewrite !elem_of_app, !length_app, !list_elem_of_singleton. simpl. split; [|lia].
  intros [?|[?|[?|[?|[?|[?|?]]]]]]; done.
Qed.

Lemma atol_len n : 0 ≤ n ≤ 32 → u64 (atol (fmt_d n)) = n.
Proof.
  intros Hn. assert (n ∈ seqZ 0 33) as H by (apply elem_of_seqZ; lia). clear Hn. revert n H.
  apply Forall_forall. by repeat constructor.
Qed.

Lemma parse_toa x : prefix_ok x → parse_prefix (toa_text x true) = Some (add x, bitlen x).
Proof.
  intros [_ Hb H4 Hby]. unfold parse_prefix, split_prefix, toa_text.
  destruct (quad_facts (add x) Hby) as [Hq _]. cbn [app]. rewrite strchr_app, atol_len by done.
  rewrite (proj2 (Z.ltb_ge 32 _)) by lia. cbv beta iota. by rewrite pton_quad.
Qed.

Lemma toa_text_length x wl : prefix_ok x → Z.of_nat (length (toa_text x wl)) ≤ MAXLINE.
Proof.
  intros [_ Hb H4 Hby]. destruct (quad_facts (add x) Hby) as [_ Hl].
  destruct (fmt_d_facts (bitlen x)) as [_ ?]; [unfold is_byte; lia|].
  unfold toa_text, MAXLINE. destruct wl; rewrite ?length_app; simpl; lia.
Qed.
