(* ===== verification/PatClient.v ===== *)
(** * The trie as a routing table, and its client

    [TrieSpec] is what the trie promises to its users: four operations on a
    finite map from bit strings to nodes.  [trie_spec] discharges it with the
    theorems about the pointer code.  The demo helpers ([make_and_lookup],
    [try_search_exact], [lookup_then_remove], [try_search_best]) are verified
    against the interface only: they keep the table and the prefix objects in
    step, so nothing leaks. *)

From stdpp Require Import base gmap list strings.
From Stdlib Require Import ZArith Lia.
From S2P Require Import Prelude Bits PatMem PrefixCode Patricia PatState PatTree PatPath PatSearch PatDemo PatInsert PatRemove PatWalk PatPrefix.

Local Open Scope Z_scope.

Abbreviation table := (gmap (list bool) cell) (only parsing).

(** ** The interface *)
Class TrieSpec (F : gmap loc patricia_node_t) (T : loc) (mbits : Z)
    (R : table → gmap loc prefix_t → rest_t → mem → Prop) : Prop := {
  (** The nodes and trie structs are the trie's business; prefix objects and
      output may change under it as long as stored prefixes stay valid. *)
  ts_open σ P X m : R σ P X m → ∃ L TT, St F P L TT X m ∧
    (∀ k d, σ !! k = Some d → c_key d = k ∧ px_ok P d ∧ c_px d ≠ NULL ∧
      ∃ n, (c_loc d, n) ∈ L ∧ prefix n = c_px d) ∧
    (∀ k d k' d', σ !! k = Some d → σ !! k' = Some d' → c_px d = c_px d' → k = k') ∧
    (∀ P' X' m', St F P' L TT X' m' → (∀ k d, σ !! k = Some d → px_ok P' d) → R σ P' X' m');
  ts_exact σ P X m q x : R σ P X m → Query mbits P q x →
    runs (patricia_search_exact (Some T) (Some q)) m
      (λ r m', m' = m ∧ r = c_loc <$> σ !! pbits x);
  ts_best σ P X m q x : R σ P X m → Query mbits P q x →
    runs (patricia_search_best (Some T) (Some q)) m (λ r m', m' = m ∧
      match r with
      | None => ∀ k d, σ !! k = Some d → ¬ k `prefix_of` pbits x
      | Some a => ∃ k d, σ !! k = Some d ∧ c_loc d = a ∧ k `prefix_of` pbits x ∧
          ∀ k' d', σ !! k' = Some d' → k' `prefix_of` pbits x → (length k' ≤ length k)%nat
      end);
  ts_lookup σ P X m q x : R σ P X m → Query mbits P q x → ref_ok x →
    2 * Z.of_nat (size σ) + 2 ≤ INT_MAX →
    runs (patricia_lookup (Some T) (Some q)) m (λ r m',
      (m' = m ∧ ∃ d, σ !! pbits x = Some d ∧ r = Some (c_loc d)) ∨
      (σ !! pbits x = None ∧ ∃ a u q' x', r = Some a ∧ refd P q x q' x' ∧
        R (<[pbits x := Cell a (pbits x) (Some q') NULL u]> σ) (<[q' := x']> P) X m'));
  ts_remove σ P X m k d q x : R σ P X m → σ !! k = Some d → c_px d = Some q → P !! q = Some x →
    2 * Z.of_nat (size σ) ≤ INT_MAX →
    runs (patricia_remove (Some T) (Some (c_loc d))) m
      (λ _ m', R (delete k σ) (derefd P q x) X m')
}.

(** ** The implementation *)

(** Glue nodes are fewer than prefixes. *)
Lemma tsize_bound P mb t : wf P mb t → (tsize t ≤ 2 * length (entries t) ∧
  (t ≠ Leaf → tsize t < 2 * length (entries t)))%nat.
Proof.
  unfold tsize, entries. induction t as [|c tl IHl tr IHr]; [done|].
  intros (_ & _ & Hg & _ & _ & [Hl Hl']%IHl & [Hr Hr']%IHr). cbn [cells].
  rewrite bind_cons, bind_app. cbn [length]. rewrite !length_app.
  assert (length (entry c) = match c_px c with None => 0 | Some _ => 1 end)%nat as ->
    by (unfold entry; by destruct (c_px c)).
  destruct (c_px c) eqn:E.
  - lia.
  - destruct (Hg E) as [Nl Nr]. specialize (Hl' Nl). specialize (Hr' Nr). lia.
Qed.

Lemma size_content P mb t : wf P mb t → size (content t) = length (entries t).
Proof.
  intros W. unfold content. by apply map_size_list_to_map, (NoDup_entries P mb).
Qed.

(** The table [σ] is represented in [m]; [D] are the other tries. *)
Definition Table (F : gmap loc patricia_node_t) (D : gmap loc patricia_tree_t) (T : loc) (mbits : Z)
    (σ : table) (P : gmap loc prefix_t) (X : rest_t) (m : mem) : Prop :=
  ∃ t TT, Rep F T mbits t P TT X m ∧ content t = σ ∧ delete T TT = D.

#[export] Instance trie_spec F D T mbits : TrieSpec F T mbits (Table F D T mbits).
Proof.
  split.
  - intros σ P X m (t & TT & [HS HT W Hmb] & <- & ED). exists (flatten NULL t), TT. split_and!; [done|..].
    + intros k d (Hd & Hpx & Hk)%(content_lookup _ _ _ _ _ W).
      destruct (cells_wf _ _ _ _ W Hd) as [_ ?]. split_and!; try done.
      destruct (flatten_cell NULL t d Hd) as (lp & rp & par & Hn). by eexists.
    + intros k d k' d' (Hd & Hpx & <-)%(content_lookup _ _ _ _ _ W)
        (Hd' & _ & <-)%(content_lookup _ _ _ _ _ W) E.
      destruct (c_px d) as [q|] eqn:Eq; [|done]. f_equal. by eapply cells_px_inj.
    + intros P' X' m' HS' Hpx. exists t, TT. split; [|done]. split; try done.
      eapply wf_ext; [|done]. intros c Hc Hok. destruct (c_px c) as [q|] eqn:Eq.
      * eapply (Hpx (c_key c)). eapply content_lookup; [done|]. by rewrite Eq.
      * unfold px_ok in *. by rewrite Eq in *.
  - intros σ P X m q x (t & TT & HR & <- & ED) HQ. by eapply search_exact_spec.
  - intros σ P X m q x (t & TT & HR & <- & ED) HQ. unfold patricia_search_best.
    eapply runs_mono; [by eapply search_best2_spec|]. intros r m' [-> Hl]. split; [done|].
    unfold longest_match, best_candidate in Hl. destruct r as [a|].
    + destruct Hl as (k & d & ? & ? & [? _] & Hmax). exists k, d. split_and!; [done..|].
      intros k' d' Hk Hp. eapply Hmax; [done|]. split; [done|by left].
    + intros k d Hk Hp. eapply Hl; [done|]. split; [done|by left].
  - intros σ P X m q x (t & TT & HR & <- & ED) HQ Hr Hsz.
    pose proof (rep_wf _ _ _ _ _ _ _ _ HR) as W.
    rewrite (size_content _ _ _ W) in Hsz. pose proof (proj1 (tsize_bound _ _ _ W)).
    eapply runs_mono; [by eapply lookup_spec; try done; lia|].
    intros r m' [?|(Hn & t' & a & u & q' & x' & -> & Hrf & HR' & Hc)]; [by left|right].
    split; [done|]. exists a, u, q', x'. split_and!; [done..|]. eexists t', _. split_and!; [done..|]. by rewrite delete_insert_eq.
  - intros σ P X m k d q x (t & TT & HR & <- & ED) Hk Hpx Hq Hsz.
    pose proof (rep_wf _ _ _ _ _ _ _ _ HR) as W.
    rewrite (size_content _ _ _ W) in Hsz. pose proof (proj1 (tsize_bound _ _ _ W)).
    apply (content_lookup _ _ _ _ _ W) in Hk as (Hd & _ & <-).
    destruct (cell_position _ _ Hd) as (C & tl & tr & Et).
    assert (0 < ref_count x) as Hr.
    { destruct (cells_wf _ _ _ _ W Hd) as [_ H1]. unfold px_ok in H1. rewrite Hpx in H1.
      destruct H1 as (x1 & ? & _ & ? & _). by simplify_eq. }
    eapply runs_mono; [eapply remove_spec; try done; lia|].
    intros [] m' (t' & HR' & Hc). eexists t', _. split_and!; [done..|]. by rewrite delete_insert_eq.
Qed.

(** ** Output *)
Definition x_out (X : rest_t) : list (list Z) := X.2.
Definition x_lb (X : rest_t) : toa_buffer := X.1.1.1.2.
Definition buffers_ok (X : rest_t) : Prop := length (buffs (x_lb X)) = 16%nat.

(** [X'] is [X] after printing the lines [ls]. *)
Record says (X : rest_t) (ls : list (list Z)) (X' : rest_t) : Prop := {
  says_out : x_out X' = x_out X ++ ls;
  says_active : x_active X' = x_active X;
  says_buf : X'.1.1.1.1 = X.1.1.1.1;
  says_ok : buffers_ok X'
}.

Lemma says_trans X X' X'' ls ls' : says X ls X' → says X' ls' X'' → says X (ls ++ ls') X''.
Proof.
  intros [H1 H2 H3 _] [H1' H2' H3' H4]. split; [|congruence..|done].
  by rewrite H1', H1, app_assoc.
Qed.

Definition prefix_line (a : string) (x : prefix_t) (b : string) : list Z :=
  cs a ++ quad (add x) ++ [47] ++ fmt_d (bitlen x) ++ cs b ++ [10].

Lemma runs_printf F P L TT X m s (Q : unit → mem → Prop) :
  St F P L TT X m → buffers_ok X →
  (∀ X' m', St F P L TT X' m' → says X [s] X' → Q tt m') → runs (printf s) m Q.
Proof.
  intros [H1 H2 H3 H4 H5 H6] Hb HQ. subst X. apply runs_modify.
  eapply HQ; [split; [done|done|reflexivity|done..]|done].
Qed.

Lemma runs_print_prefix F P L TT X m a b q x (Q : unit → mem → Prop) :
  St F P L TT X m → buffers_ok X → P !! q = Some x → prefix_ok x → 0 ≤ ref_count x →
  (∀ X' m', St F P L TT X' m' → says X [prefix_line a x b] X' → Q tt m') →
  runs (print_prefix a (Some q) b) m Q.
Proof.
  intros HS Hb Hq Ho Hr HQ. pose proof HS as [H1 H2 H3 H4 H5 H6]. unfold print_prefix.
  assert (length (buffs (local_buff m)) = 16%nat) as Hl by (by subst X).
  cstep. unfold prefix_toa, prefix_toa2.
  assert (m_prefix m !! q = Some x) as Hq' by congruence.
  pose proof (toa2x_static m q x Hq' Ho Hr false Hl) as Et. simpl in Et.
  set (k := Z.to_nat _) in Et. set (m1 := set_local_buff _ m) in Et.
  exists (CStatic k), m1. split; [done|].
  assert (St F P L TT (rest m1) m1) as HS1 by (by split).
  cstep. eapply runs_get_prefix; [done..|]. cstep. apply runs_gets.
  cstep. eapply runs_from_option.
  { simpl. apply list_lookup_insert_eq. rewrite Hl. unfold k.
    pose proof (Z.mod_pos_bound (buff_i (local_buff m)) 16 ltac:(lia)). lia. }
  assert (buffers_ok (rest m1)) as Hb1 by (unfold buffers_ok; simpl; by rewrite length_insert).
  eapply runs_printf; [done|done|]. intros X' m' HS' Hs. eapply HQ; [done|].
  destruct Hs as [S1 S2 S3 S4]. subst X. by split.
Qed.

(** ** The client *)

(** Every prefix object belongs to the table, with its one reference. *)
Definition owned (σ : table) (P : gmap loc prefix_t) : Prop :=
  ∀ q x, P !! q = Some x → ref_count x = 1 ∧ ∃ k d, σ !! k = Some d ∧ c_px d = Some q.

(** The table's node [d] holds the prefix [y]. *)
Definition holds (P : gmap loc prefix_t) (d : cell) (y : prefix_t) : Prop :=
  ∃ q, c_px d = Some q ∧ P !! q = Some y ∧ pbits y = c_key d.

(** The lines a search prints. *)
Definition search_lines (who : string) (x : prefix_t) (found : option prefix_t) : list (list Z) :=
  [prefix_line (who +:+ ": ") x "";
   match found with
   | None => cs (who +:+ ": not found") ++ [10]
   | Some y => prefix_line (who +:+ ": ") y " found"
   end].

(** ** The abstract table: the stored prefixes by their bits *)
Abbreviation prefixes := (gmap (list bool) prefix_t) (only parsing).

(** The operations on it: the first prefix with given bits is kept. *)
Definition put_prefix (A : prefixes) (x : prefix_t) : prefixes :=
  match A !! pbits x with None => <[pbits x := x]> A | Some _ => A end.
(** The stored prefix with the longest match of the first [n] bits of [k]. *)
Fixpoint longest (A : prefixes) (k : list bool) (n : nat) : option prefix_t :=
  match A !! take n k, n with
  | Some y, _ => Some y
  | None, S n => longest A k n
  | None, O => None
  end.

Lemma longest_none A k n : (∀ i, (i ≤ n)%nat → A !! take i k = None) → longest A k n = None.
Proof.
  induction n as [|n IH]; intros H; simpl longest; [by rewrite (H 0%nat)|].
  rewrite (H (S n)) by lia. apply IH. intros. apply H. lia.
Qed.
Lemma longest_some A k n j y :
  (j ≤ n)%nat → A !! take j k = Some y → (∀ i, (j < i ≤ n)%nat → A !! take i k = None) → longest A k n = Some y.
Proof.
  induction n as [|n IH]; intros Hj Hy H.
  { assert (j = 0)%nat as -> by lia. simpl. by rewrite Hy. }
  destruct (decide (j = S n)) as [->|Hn]; simpl longest; [by rewrite Hy|].
  rewrite (H (S n)) by lia. apply IH; [lia|done|]. intros. apply H. lia.
Qed.

(** The nodes of [σ] show the prefixes of [A]. *)
Definition shows (P : gmap loc prefix_t) (σ : table) (A : prefixes) : Prop :=
  ∀ k, match σ !! k, A !! k with
       | Some d, Some y => pbits y = k ∧ ∃ q, c_px d = Some q ∧ P !! q = Some y
       | None, None => True
       | _, _ => False
       end.

Lemma shows_none P σ A k : shows P σ A → σ !! k = None → A !! k = None.
Proof. intros H E. specialize (H k). rewrite E in H. by destruct (A !! k). Qed.
Lemma shows_some P σ A k d : shows P σ A → σ !! k = Some d →
  ∃ y q, A !! k = Some y ∧ pbits y = k ∧ c_px d = Some q ∧ P !! q = Some y.
Proof. intros H E. specialize (H k). rewrite E in H. destruct (A !! k) as [y|]; [|done]. naive_solver. Qed.
Lemma shows_dom P σ A : shows P σ A → dom A = dom σ.
Proof.
  intros H. apply set_eq. intros k. rewrite !elem_of_dom. specialize (H k).
  destruct (σ !! k), (A !! k); try done; by split; intros [? [=]].
Qed.
Lemma shows_holds P σ A k d y : shows P σ A → σ !! k = Some d → holds P d y → A !! k = Some y.
Proof.
  intros H Hd (q & Eq & Hq & _). destruct (shows_some _ _ _ _ _ H Hd) as (y' & q' & -> & _ & Eq' & Hq').
  congruence.
Qed.
Lemma shows_insert P σ A q x d : shows P σ A → P !! q = None → σ !! pbits x = None → c_px d = Some q →
  shows (<[q := x]> P) (<[pbits x := d]> σ) (put_prefix A x).
Proof.
  intros H Hq Hn Hd k. unfold put_prefix. rewrite (shows_none _ _ _ _ H Hn).
  destruct (decide (k = pbits x)) as [->|Hk].
  - rewrite !lookup_insert_eq. split; [done|]. exists q. by rewrite lookup_insert_eq.
  - rewrite !(lookup_insert_ne _ (pbits x)) by done. specialize (H k).
    destruct (σ !! k), (A !! k); try done. destruct H as (? & q' & ? & Hq'). split; [done|]. exists q'.
    rewrite lookup_insert_ne by congruence. done.
Qed.
Lemma shows_delete P σ A k d q y : shows P σ A → σ !! k = Some d → c_px d = Some q → P !! q = Some y →
  shows (delete q P) (delete k σ) (delete k A).
Proof.
  intros H Hd Eq Hq k'. destruct (shows_some _ _ _ _ _ H Hd) as (y0 & q0 & _ & E0 & Eq0 & Hq0).
  destruct (decide (k' = k)) as [->|Hk]; [by rewrite !lookup_delete_eq|].
  rewrite !(lookup_delete_ne _ k) by done. specialize (H k').
  destruct (σ !! k'), (A !! k'); try done. destruct H as (? & q' & ? & Hq'). split; [done|]. exists q'.
  rewrite lookup_delete_ne; [done|]. intros <-. congruence.
Qed.

Section client.
Context (F : gmap loc patricia_node_t) (T : loc) (mbits : Z).
Context (R : table → gmap loc prefix_t → rest_t → mem → Prop) `{HT : !TrieSpec F T mbits R}.

(** A temporary prefix object at [q], not in the table. *)
Lemma temp_px_ok (σ : table) P q x : P !! q = None → (∀ k d, σ !! k = Some d → px_ok P d) →
  ∀ k d, σ !! k = Some d → px_ok (<[q := x]> P) d.
Proof using.
  intros Hq H k d Hk. specialize (H k d Hk). unfold px_ok in *. destruct (c_px d) as [q1|]; [|done].
  destruct H as (x1 & H1 & H2). exists x1. by rewrite lookup_insert_ne by congruence.
Qed.

(** The common start of the helpers: parse the string, print it. *)
Lemma runs_start σ P X m s a xp len (A : Type) (k : ptr → M mem A) (Q : A → mem → Prop) :
  R σ P X m → buffers_ok X → parse_prefix s = Some (xp, len) → Z.of_nat (length s) ≤ MAXLINE →
  (∀ q X' m', let x := Prefix AF_INET len 1 xp in
    P !! q = None → R σ (<[q := x]> P) X' m' → says X [prefix_line a x ""] X' →
    runs (k (Some q)) m' Q) →
  runs (pfx ← ascii2prefix AF_INET (Some s); print_prefix a pfx "";; k pfx) m Q.
Proof using HT.
  intros HR Hb Hs Hl HQ. destruct (ts_open _ _ _ _ HR) as (L & TT & HS & Hd & _ & Hclose).
  pose proof (parse_prefix_ok _ _ _ Hs) as Ho.
  cstep. eapply runs_ascii2prefix; [done|done|]. rewrite Hs. intros q m1 Hq HS1.
  cstep. eapply runs_print_prefix; [done|done|apply lookup_insert_eq|done|done|].
  intros X' m2 HS2 Hsays. eapply HQ; [done| |done]. apply Hclose; [done|].
  eapply temp_px_ok; [done|]. intros k' d' Hk. by apply Hd in Hk as (_ & ? & _).
Qed.

(** Dropping the temporary object. *)
Lemma runs_drop_temp σ P X m q x (Q : unit → mem → Prop) :
  P !! q = None → ref_count x = 1 → R σ (<[q := x]> P) X m → (∀ k d, σ !! k = Some d → px_ok P d) →
  (∀ m', R σ P X m' → Q tt m') → runs (Deref_Prefix (Some q)) m Q.
Proof using HT.
  intros Hq Hr HR Hok HQ. destruct (ts_open _ _ _ _ HR) as (L & TT & HS & _ & _ & Hclose).
  eapply runs_Deref_Prefix; [done|apply lookup_insert_eq|lia|]. intros m1 HS1.
  unfold derefd in HS1. rewrite Hr in HS1. simpl in HS1. rewrite delete_insert_eq, delete_id in HS1 by done.
  apply HQ. by apply Hclose.
Qed.

Lemma R_px_ok σ P X m : R σ P X m → ∀ k d, σ !! k = Some d → px_ok P d.
Proof using HT.
  intros HR k d Hk. destruct (ts_open _ _ _ _ HR) as (L & TT & _ & Hd & _).
  by destruct (Hd _ _ Hk) as (_ & Hp & _).
Qed.

(** Looking a temporary prefix up and dropping it: the table gets the key, and
    keeps the only reference to the object if it was new. *)
Lemma runs_insert_drop σ P X m q xp len :
  let x := Prefix AF_INET len 1 xp in
  P !! q = None → R σ (<[q := x]> P) X m → owned σ P → (∀ k d, σ !! k = Some d → px_ok P d) →
  prefix_ok x → len ≤ mbits → 2 * Z.of_nat (size σ) + 2 ≤ INT_MAX →
  runs (node ← patricia_lookup (Some T) (Some q); Deref_Prefix (Some q);; mret node) m
    (λ r m', ∃ σ' P' d, R σ' P' X m' ∧ owned σ' P' ∧ σ' !! pbits x = Some d ∧ r = Some (c_loc d) ∧
      (σ !! pbits x = Some d ∧ σ' = σ ∨ σ !! pbits x = None ∧ σ' = <[pbits x := d]> σ) ∧
      ∀ A, shows P σ A → shows P' σ' (put_prefix A x)).
Proof using HT.
  intros x Hq HR1 How Hok Ho Hle Hsz.
  assert (Query mbits (<[q := x]> P) q x) as HQ by (split; [apply lookup_insert_eq|done|done]).
  cstep. eapply runs_mono; [eapply ts_lookup; [done|done|done|done]|].
  intros r m2 [(-> & d & Hd & ->)|(Hn & a & u & q' & x' & -> & Hrf & HR2)].
  - cstep. eapply (runs_drop_temp _ _ _ _ _ x); [done|done|exact HR1|done|].
    intros m3 HR3. cstep. exists σ, P, d. split_and!; try done; [by left|].
    intros A HA. destruct (shows_some _ _ _ _ _ HA Hd) as (y & _ & Hy & _). unfold put_prefix. by rewrite Hy.
  - destruct Hrf as [(_ & -> & ->)|(Hr & _)]; [|done]. rewrite insert_insert_eq in HR2. simpl in HR2.
    set (d := Cell a (pbits x) (Some q) NULL u) in *. set (σ' := <[pbits x := d]> σ) in *.
    destruct (ts_open _ _ _ _ HR2) as (L & TT & HS & Hd & _ & Hclose).
    cstep. eapply runs_Deref_Prefix; [done|apply lookup_insert_eq|done|]. intros m3 HS3.
    unfold derefd in HS3. simpl in HS3. rewrite insert_insert_eq in HS3. cstep.
    exists σ', (<[q := x]> P), d. split_and!; try done.
    + apply Hclose; [done|]. intros k d' Hk. apply Hd in Hk as (_ & Hpx & _). unfold px_ok in *.
      destruct (c_px d') as [q1|]; [|done]. destruct Hpx as (x1 & H1 & Ho1 & Hr1 & Hk1).
      destruct (decide (q1 = q)) as [->|Hne].
      * rewrite lookup_insert_eq in H1. simplify_eq. exists x. by rewrite lookup_insert_eq.
      * exists x1. rewrite lookup_insert_ne in * by done. done.
    + intros q1 x1 [[<- <-]|[Hne H1]]%lookup_insert_Some.
      * split; [done|]. exists (pbits x), d. unfold σ'. by rewrite lookup_insert_eq.
      * destruct (How _ _ H1) as (? & k1 & d1 & Hk1 & ?). split; [done|]. exists k1, d1.
        unfold σ'. rewrite lookup_insert_ne; [done|]. congruence.
    + unfold σ'. by rewrite lookup_insert_eq.
    + by right.
    + intros A HA. by apply shows_insert.
Qed.

Lemma make_and_lookup_spec σ P X m s xp len :
  R σ P X m → owned σ P → buffers_ok X → parse_prefix s = Some (xp, len) → len ≤ mbits →
  Z.of_nat (length s) ≤ MAXLINE → 2 * Z.of_nat (size σ) + 2 ≤ INT_MAX →
  let x := Prefix AF_INET len 1 xp in
  runs (make_and_lookup (Some T) s) m (λ r m', ∃ σ' P' X' d,
    R σ' P' X' m' ∧ owned σ' P' ∧ says X [prefix_line "make_and_lookup: " x ""] X' ∧
    σ' !! pbits x = Some d ∧ r = Some (c_loc d) ∧
    (σ !! pbits x = Some d ∧ σ' = σ ∨ σ !! pbits x = None ∧ σ' = <[pbits x := d]> σ) ∧
    ∀ A, shows P σ A → shows P' σ' (put_prefix A x)).
Proof using HT.
  intros HR How Hb Hs Hle Hl Hsz x. unfold make_and_lookup.
  eapply runs_start; [done..|]. intros q X' m1 ? Hq HR1 Hsays. subst x0. fold x in HR1, Hsays.
  eapply runs_mono; [eapply runs_insert_drop; try done; [by eapply R_px_ok|by eapply parse_prefix_ok]|].
  intros r m2 (σ' & P' & d & H). exists σ', P', X', d. naive_solver.
Qed.

(** The insertion of [perf_test.c]. *)
Lemma perf_insert_spec σ P X m s xp len :
  R σ P X m → owned σ P → parse_prefix s = Some (xp, len) → len ≤ mbits →
  Z.of_nat (length s) ≤ MAXLINE → 2 * Z.of_nat (size σ) + 2 ≤ INT_MAX →
  let x := Prefix AF_INET len 1 xp in
  runs (perf_insert (Some T) s) m (λ _ m', ∃ σ' P',
    R σ' P' X m' ∧ owned σ' P' ∧ dom σ' = {[pbits x]} ∪ dom σ).
Proof using HT.
  intros HR How Hs Hle Hl Hsz x. unfold perf_insert. pose proof (R_px_ok _ _ _ _ HR) as Hok.
  destruct (ts_open _ _ _ _ HR) as (L & TT & HS & _ & _ & Hclose).
  cstep. eapply runs_ascii2prefix; [done|done|]. rewrite Hs. intros q m1 Hq HS1.
  eapply runs_mono; [eapply (runs_insert_drop σ P X m1 q xp len); try done|].
  - apply Hclose; [done|]. by apply temp_px_ok.
  - by eapply parse_prefix_ok.
  - intros r m2 (σ' & P' & d & HR' & How' & Hd & _ & Hor & _). exists σ', P'. split_and!; [done..|].
    fold x in Hd, Hor. destruct Hor as [[_ ->]|[_ ->]]; [|apply dom_insert_L].
    apply elem_of_dom_2 in Hd. set_solver.
Qed.

(** Printing the prefix of a node of the table. *)
Lemma runs_report σ P X m k d a b (Q : unit → mem → Prop) :
  R σ P X m → buffers_ok X → σ !! k = Some d →
  (∀ X' m' q1 x1, R σ P X' m' → c_px d = Some q1 → P !! q1 = Some x1 → pbits x1 = k →
    says X [prefix_line a x1 b] X' → Q tt m') →
  runs (nd ← get_node (Some (c_loc d)); print_prefix a (prefix nd) b) m Q.
Proof using HT.
  intros HR Hb Hk HQ. pose proof (R_px_ok _ _ _ _ HR) as Hok.
  destruct (ts_open _ _ _ _ HR) as (L & TT & HS & Hd & _ & Hclose).
  destruct (Hd _ _ Hk) as (Ek & Hpx & Hne & n & Hn & En). unfold px_ok in Hpx.
  destruct (c_px d) as [q1|] eqn:Eq; [|done]. destruct Hpx as (x1 & H1 & Ho1 & Hr1 & Hk1).
  cstep. eapply runs_get_node; [done..|]. rewrite En.
  eapply runs_print_prefix; [done|done|done|done|lia|]. intros X' m' HS' Hsays.
  eapply HQ; [by apply Hclose|done|done|by rewrite Hk1|done].
Qed.

Lemma runs_notfound σ P X m s (Q : unit → mem → Prop) :
  R σ P X m → buffers_ok X → (∀ X' m', R σ P X' m' → says X [s] X' → Q tt m') →
  runs (printf s) m Q.
Proof using HT.
  intros HR Hb HQ. pose proof (R_px_ok _ _ _ _ HR) as Hok.
  destruct (ts_open _ _ _ _ HR) as (L & TT & HS & Hd & _ & Hclose).
  eapply runs_printf; [done..|]. intros X' m' HS' Hsays. eapply HQ; [by apply Hclose|done].
Qed.

Lemma table_loc_inj σ P X m k k' d d' :
  R σ P X m → σ !! k = Some d → σ !! k' = Some d' → c_loc d = c_loc d' → d = d'.
Proof using HT.
  intros HR Hk Hk' E. destruct (ts_open _ _ _ _ HR) as (L & TT & HS & Hd & Hinj & _).
  destruct (Hd _ _ Hk) as (_ & _ & _ & n & Hn & En), (Hd _ _ Hk') as (_ & _ & _ & n' & Hn' & En').
  rewrite E in Hn. assert (n = n') as -> by (by eapply St_unique).
  assert (k = k') as -> by (eapply Hinj; [done..|congruence]). congruence.
Qed.

(** The part of the searches after the walk: report the result [r], drop the
    temporary object. *)
Lemma runs_finish σ P X m q x (r : ptr) who l0 X0 (Q : unit → mem → Prop) :
  says X0 [l0] X → P !! q = None → ref_count x = 1 → R σ (<[q := x]> P) X m → buffers_ok X →
  (∀ k d, σ !! k = Some d → px_ok P d) →
  (∀ a, r = Some a → ∃ k d, σ !! k = Some d ∧ c_loc d = a) →
  (∀ X' m' (found : option prefix_t), R σ P X' m' →
     says X0 (l0 :: [match found with
       | None => cs (who +:+ ": not found") ++ [10]
       | Some y => prefix_line (who +:+ ": ") y " found" end]) X' →
     (match found, r with
      | None, None => True
      | Some y, Some a => ∃ k d, σ !! k = Some d ∧ c_loc d = a ∧ holds P d y
      | _, _ => False end) → Q tt m') →
  runs ((if is_null r then printf (cs (who +:+ ": not found") ++ [10])
         else nd ← get_node r; print_prefix (who +:+ ": ") (prefix nd) " found");;
        Deref_Prefix (Some q)) m Q.
Proof using HT.
  intros Hs0 Hq Hr HR Hb Hok Hres HQ. cstep. destruct r as [a|]; simpl.
  - destruct (Hres a eq_refl) as (k & d & Hk & <-). eapply runs_report; [done..|].
    intros X' m1 q1 x1 HR1 Eq1 H1 Hk1 Hs1. eapply runs_drop_temp; [done|done|done|done|].
    intros m2 HR2. eapply (HQ X' m2 (Some x1)); [done|by eapply (says_trans _ _ _ [_])|].
    exists k, d. split_and!; [done..|]. exists q1.
    destruct (ts_open _ _ _ _ HR) as (L & TT & _ & Hd & _). destruct (Hd _ _ Hk) as (Ek & _).
    split_and!; [done| |congruence]. rewrite lookup_insert_ne in H1; [done|]. intros <-.
    specialize (Hok _ _ Hk). unfold px_ok in Hok. rewrite Eq1 in Hok. destruct Hok as (? & ? & _). congruence.
  - eapply runs_notfound; [done..|]. intros X' m1 HR1 Hs1. eapply runs_drop_temp; [done|done|done|done|].
    intros m2 HR2. eapply (HQ X' m2 None); [done|by eapply (says_trans _ _ _ [_])|done].
Qed.

Lemma try_search_exact_spec σ P X m s xp len :
  R σ P X m → buffers_ok X → parse_prefix s = Some (xp, len) → len ≤ mbits →
  Z.of_nat (length s) ≤ MAXLINE →
  let x := Prefix AF_INET len 1 xp in
  runs (try_search_exact (Some T) s) m (λ r m', ∃ X' found,
    R σ P X' m' ∧ says X (search_lines "try_search_exact" x found) X' ∧
    r = c_loc <$> σ !! pbits x ∧
    match found, σ !! pbits x with
    | None, None => True | Some y, Some d => holds P d y | _, _ => False end ∧
    ∀ A, shows P σ A → found = A !! pbits x).
Proof using HT.
  intros HR Hb Hs Hle Hl x. pose proof (parse_prefix_ok _ _ _ Hs) as Ho. unfold try_search_exact.
  pose proof (R_px_ok _ _ _ _ HR) as Hok.
  eapply runs_start; [done..|]. intros q X' m1 ? Hq HR1 Hsays. subst x0. fold x in HR1, Hsays.
  assert (Query mbits (<[q := x]> P) q x) as HQ by (split; [apply lookup_insert_eq|done|done]).
  cstep. eapply runs_mono; [by eapply ts_exact|]. intros r m2 [-> ->].
  apply runs_seq. eapply (runs_finish _ _ _ _ q x _ "try_search_exact");
    [done|done|done|done|apply Hsays|done| |].
  - intros a Ha. apply fmap_Some in Ha as (d & Hd & ->). eauto.
  - intros X2 m3 found HR3 Hs3 Hf. cstep. exists X2, found.
    destruct found as [y|], (σ !! pbits x) as [d|] eqn:Ed; simpl in Hf; try done.
    + destruct Hf as (k & d' & Hk & El & Hh). assert (d' = d) as -> by by eapply table_loc_inj.
      split_and!; [done..|]. intros A HA. symmetry. by eapply shows_holds.
    + split_and!; [done..|]. intros A HA. symmetry. by eapply shows_none.
Qed.

Lemma longest_found (σ : table) P x found :
  match found with
  | None => ∀ k d, σ !! k = Some d → ¬ k `prefix_of` pbits x
  | Some y => ∃ d, σ !! pbits y = Some d ∧ holds P d y ∧ pbits y `prefix_of` pbits x ∧
      ∀ k' d', σ !! k' = Some d' → k' `prefix_of` pbits x → (length k' ≤ length (pbits y))%nat
  end → ∀ A, shows P σ A → found = longest A (pbits x) (length (pbits x)).
Proof using.
  intros H A HA. symmetry.
  assert (∀ i, is_Some (A !! take i (pbits x)) → ∃ d, σ !! take i (pbits x) = Some d) as Hσ.
  { intros i Hi%elem_of_dom. rewrite (shows_dom _ _ _ HA) in Hi. by apply elem_of_dom in Hi. }
  destruct found as [y|].
  - destruct H as (d & Hd & Hh & [z Hp] & Hmax). apply (longest_some _ _ _ (length (pbits y))).
    + rewrite Hp, length_app. lia.
    + rewrite Hp, take_app_length. by eapply shows_holds.
    + intros i Hi. apply eq_None_not_Some. intros [d' Hd']%Hσ.
      pose proof (Hmax _ _ Hd' (prefix_take _ _)) as Hl. rewrite length_take in Hl. lia.
  - apply longest_none. intros i Hi. apply eq_None_not_Some. intros [d' Hd']%Hσ.
    by apply (H _ _ Hd'), prefix_take.
Qed.

Lemma try_search_best_spec σ P X m s xp len :
  R σ P X m → buffers_ok X → parse_prefix s = Some (xp, len) → len ≤ mbits →
  Z.of_nat (length s) ≤ MAXLINE →
  let x := Prefix AF_INET len 1 xp in
  runs (try_search_best (Some T) s) m (λ _ m', ∃ X' found,
    R σ P X' m' ∧ says X (search_lines "try_search_best" x found) X' ∧
    match found with
    | None => ∀ k d, σ !! k = Some d → ¬ k `prefix_of` pbits x
    | Some y => ∃ d, σ !! pbits y = Some d ∧ holds P d y ∧ pbits y `prefix_of` pbits x ∧
        ∀ k' d', σ !! k' = Some d' → k' `prefix_of` pbits x → (length k' ≤ length (pbits y))%nat
    end ∧
    ∀ A, shows P σ A → found = longest A (pbits x) (length (pbits x))).
Proof using HT.
  intros HR Hb Hs Hle Hl x. pose proof (parse_prefix_ok _ _ _ Hs) as Ho. unfold try_search_best.
  pose proof (R_px_ok _ _ _ _ HR) as Hok.
  eapply runs_start; [done..|]. intros q X' m1 ? Hq HR1 Hsays. subst x0. fold x in HR1, Hsays.
  assert (Query mbits (<[q := x]> P) q x) as HQ by (split; [apply lookup_insert_eq|done|done]).
  cstep. eapply runs_mono; [by eapply ts_best|]. intros r m2 [-> Hr].
  eapply (runs_finish _ _ _ _ q x _ "try_search_best"); [done|done|done|done|apply Hsays|done| |].
  - intros a ->. destruct Hr as (k & d & ? & ? & _). eauto.
  - intros X2 m3 found HR3 Hs3 Hf. exists X2, found. split; [done|]. split; [done|].
    match goal with |- ?H ∧ _ => enough H as Hres by (split; [exact Hres|by apply longest_found]) end.
    destruct found as [y|], r as [a|]; try done.
    destruct Hr as (k & d & Hk & El & Hp & Hmax), Hf as (k' & d' & Hk' & El' & Hh).
    assert (d' = d) as -> by (eapply table_loc_inj; [done..|congruence]).
    destruct Hh as (q1 & Eq1 & H1 & Ey).
    destruct (ts_open _ _ _ _ HR) as (L & TT & _ & Hd & _). destruct (Hd _ _ Hk) as (Ek & _).
    assert (pbits y = k) as -> by congruence. exists d. split_and!; try done. by exists q1.
Qed.

Lemma lookup_then_remove_spec σ P X m s xp len :
  R σ P X m → owned σ P → buffers_ok X → parse_prefix s = Some (xp, len) → len ≤ mbits →
  Z.of_nat (length s) ≤ MAXLINE → 2 * Z.of_nat (size σ) ≤ INT_MAX →
  let x := Prefix AF_INET len 1 xp in
  runs (lookup_then_remove (Some T) s) m (λ _ m', ∃ P' X' found,
    R (delete (pbits x) σ) P' X' m' ∧ owned (delete (pbits x) σ) P' ∧
    says X (search_lines "try_search_exact" x found) X' ∧
    ∀ A, shows P σ A → found = A !! pbits x ∧ shows P' (delete (pbits x) σ) (delete (pbits x) A)).
Proof using HT.
  intros HR How Hb Hs Hle Hl Hsz x. unfold lookup_then_remove.
  cstep. eapply runs_mono; [by eapply try_search_exact_spec|].
  intros r m1 (X' & found & HR1 & Hsays & -> & Hf & HA). fold x in Hsays, Hf, HA |- *.
  destruct (σ !! pbits x) as [d|] eqn:Ed; simpl.
  - destruct found as [y|]; [|done]. destruct Hf as (q1 & Eq1 & H1 & Ey).
    eapply runs_mono; [by eapply ts_remove|]. intros [] m2 HR2.
    exists (derefd P q1 y), X', (Some y).
    destruct (How _ _ H1) as [Hr1 _]. revert HR2. unfold derefd. rewrite Hr1. simpl. intros HR2.
    split_and!; [done| |done|intros A HA1; split; [auto|by eapply shows_delete]].
    intros q2 x2 [Hne H2]%lookup_delete_Some. destruct (How _ _ H2) as (? & k2 & d2 & Hk2 & E2).
    split; [done|]. exists k2, d2. rewrite lookup_delete_ne; [done|]. congruence.
  - cstep. exists P, X', found. rewrite delete_id by done. split_and!; [done..|].
    intros A HA1. split; [auto|]. by rewrite delete_id by by eapply shows_none.
Qed.
End client.

(** ** Sessions *)

(** Sequences of demo operations on a table. *)
Inductive op : Type := OpMake (s : list Z) | OpExact (s : list Z) | OpBest (s : list Z) | OpRemove (s : list Z).

Definition run_op (T : ptr) (o : op) : M mem unit :=
  match o with
  | OpMake s => make_and_lookup T s;; mret tt
  | OpExact s => try_search_exact T s;; mret tt
  | OpBest s => try_search_best T s
  | OpRemove s => lookup_then_remove T s
  end.
Fixpoint run_ops (T : ptr) (os : list op) : M mem unit :=
  match os with [] => mret tt | o :: os => run_op T o;; run_ops T os end.

(** The abstract table is the set of its keys. *)
Definition key_of (s : list Z) : list bool :=
  match parse_prefix s with Some (xp, len) => pbits (Prefix AF_INET len 1 xp) | None => [] end.
Definition abs_op (K : gset (list bool)) (o : op) : gset (list bool) :=
  match o with
  | OpMake s => {[key_of s]} ∪ K
  | OpRemove s => K ∖ {[key_of s]}
  | OpExact _ | OpBest _ => K
  end.

Definition arg (o : op) : list Z := match o with OpMake s | OpExact s | OpBest s | OpRemove s => s end.
(** The abstract table holds the prefixes, and the operations print lines. *)
Definition abs_prefixes (A : prefixes) (o : op) : prefixes :=
  match o with
  | OpMake s =>
      match parse_prefix s with Some (xp, len) => put_prefix A (Prefix AF_INET len 1 xp) | None => A end
  | OpRemove s => delete (key_of s) A
  | OpExact _ | OpBest _ => A
  end.
Definition abs_lines (A : prefixes) (o : op) : list (list Z) :=
  match parse_prefix (arg o) with
  | None => []
  | Some (xp, len) =>
      let x := Prefix AF_INET len 1 xp in
      match o with
      | OpMake _ => [prefix_line "make_and_lookup: " x ""]
      | OpExact _ | OpRemove _ => search_lines "try_search_exact" x (A !! pbits x)
      | OpBest _ => search_lines "try_search_best" x (longest A (pbits x) (length (pbits x)))
      end
  end.
Fixpoint abs_output (A : prefixes) (os : list op) : list (list Z) :=
  match os with [] => [] | o :: os => abs_lines A o ++ abs_output (abs_prefixes A o) os end.

(** The argument is a prefix with at most [mbits] bits. *)
Definition op_ok (mbits : Z) (o : op) : Prop :=
  Z.of_nat (length (arg o)) ≤ MAXLINE ∧
  match parse_prefix (arg o) with Some (_, len) => len ≤ mbits | None => False end.

Lemma abs_op_size K o : (size (abs_op K o) ≤ S (size K))%nat.
Proof.
  destruct o as [s|s|s|s]; simpl; try lia;
    pose proof (subseteq_size (K ∖ {[key_of s]}) K ltac:(set_solver)).
  - rewrite size_union_alt, size_singleton. lia.
  - lia.
Qed.

Lemma abs_ops_size K os : (size (foldl abs_op K os) ≤ size K + length os)%nat.
Proof.
  revert K. induction os as [|o os IH]; intros K; simpl; [lia|].
  specialize (IH (abs_op K o)). pose proof (abs_op_size K o). lia.
Qed.

Section session.
Context (F : gmap loc patricia_node_t) (T : loc) (mbits : Z).
Context (R : table → gmap loc prefix_t → rest_t → mem → Prop) `{HT : !TrieSpec F T mbits R}.

Lemma run_op_spec σ P X m o :
  R σ P X m → owned σ P → buffers_ok X → op_ok mbits o → 2 * Z.of_nat (size σ) + 2 ≤ INT_MAX →
  runs (run_op (Some T) o) m (λ _ m', ∃ σ' P' X', R σ' P' X' m' ∧ owned σ' P' ∧ buffers_ok X' ∧
    x_active X' = x_active X ∧ dom σ' = abs_op (dom σ) o ∧
    ∀ A, shows P σ A → shows P' σ' (abs_prefixes A o) ∧ x_out X' = x_out X ++ abs_lines A o).
Proof using HT.
  intros HR How Hb [Hl Hp] Hsz. destruct (parse_prefix (arg o)) as [[xp len]|] eqn:Es; [|done].
  assert (key_of (arg o) = pbits (Prefix AF_INET len 1 xp)) as Hk by (unfold key_of; by rewrite Es).
  destruct o as [s|s|s|s]; unfold abs_lines; simpl in *; rewrite Es.
  - cstep. eapply runs_mono; [by eapply make_and_lookup_spec|].
    intros r m' (σ' & P' & X' & d & HR' & How' & [? ? _ ?] & Hd & _ & Hor & HA). cstep.
    exists σ', P', X'. split_and!; [done..| |auto]. rewrite Hk. destruct Hor as [[Hd' ->]|[_ ->]].
    + apply elem_of_dom_2 in Hd. set_solver.
    + apply dom_insert_L.
  - cstep. eapply runs_mono; [by eapply try_search_exact_spec|].
    intros r m' (X' & found & HR' & [? ? _ ?] & _ & _ & HA). cstep. exists σ, P, X'. split_and!; [done..|].
    intros A H. by rewrite <-(HA A H).
  - eapply runs_mono; [by eapply try_search_best_spec|].
    intros r m' (X' & found & HR' & [? ? _ ?] & _ & HA). exists σ, P, X'. split_and!; [done..|].
    intros A H. by rewrite <-(HA A H).
  - eapply runs_mono; [eapply lookup_then_remove_spec; try done; lia|].
    intros r m' (P' & X' & found & HR' & How' & [? ? _ ?] & HA). eexists _, P', X'.
    split_and!; [done..|by rewrite dom_delete_L, Hk|].
    intros A H. destruct (HA A H) as [<- ?]. by rewrite Hk.
Qed.

Lemma run_ops_spec os σ P X m :
  R σ P X m → owned σ P → buffers_ok X → Forall (op_ok mbits) os →
  2 * (Z.of_nat (size σ) + Z.of_nat (length os)) ≤ INT_MAX →
  runs (run_ops (Some T) os) m (λ _ m', ∃ σ' P' X', R σ' P' X' m' ∧ owned σ' P' ∧ buffers_ok X' ∧
    x_active X' = x_active X ∧ dom σ' = foldl abs_op (dom σ) os ∧
    ∀ A, shows P σ A → shows P' σ' (foldl abs_prefixes A os) ∧ x_out X' = x_out X ++ abs_output A os).
Proof using HT.
  revert σ P X m. induction os as [|o os IH]; intros σ P X m HR How Hb Hos Hsz; simpl.
  { cstep. exists σ, P, X. split_and!; [done..|]. intros A HA. by rewrite app_nil_r. }
  apply Forall_cons in Hos as [Ho Hos]. simpl in Hsz.
  cstep. eapply runs_mono; [eapply run_op_spec; try done; lia|].
  intros [] m1 (σ1 & P1 & X1 & HR1 & How1 & Hb1 & Ha1 & Hd1 & HA1).
  assert (size σ1 ≤ S (size σ))%nat as Hs1 by (rewrite <-!size_dom, Hd1; apply abs_op_size).
  eapply runs_mono; [eapply IH; try done; lia|].
  intros [] m2 (σ2 & P2 & X2 & HR2 & How2 & Hb2 & Ha2 & Hd2 & HA2).
  exists σ2, P2, X2. split_and!; try done; [congruence|by rewrite Hd2, Hd1|].
  intros A HA. destruct (HA1 A HA) as [HA' O1]. destruct (HA2 _ HA') as [? O2]. split; [done|].
  by rewrite O2, O1, app_assoc.
Qed.
End session.

(** ** Creation and destruction *)

Lemma mem_St m : St (m_node m) (m_prefix m) [] (m_tree m) (rest m) m.
Proof.
  split; try done; [|constructor|by intros a ?%not_elem_of_nil].
  intros a n. rewrite elem_of_nil. tauto.
Qed.

Lemma St_nil_node F P TT X m : St F P [] TT X m → m_node m = F.
Proof.
  intros H. apply map_eq. intros a. apply option_eq. intros n.
  rewrite (st_lookup _ _ _ _ _ _ H), elem_of_nil. tauto.
Qed.

Lemma runs_calloc_tree F P L TT X m (Q : ptr → mem → Prop) :
  St F P L TT X m →
  (∀ T m', TT !! T = None → St F P L (<[T := zero_tree]> TT) X m' → Q (Some T) m') →
  runs calloc_tree m Q.
Proof.
  intros [H1 H2 H3 H4 H5 H6] HQ.
  exists (Some (fresh (dom (m_tree m)))), (set_trees <[fresh (dom (m_tree m)) := zero_tree]> m).
  split; [done|]. apply HQ.
  - rewrite <-H2. apply not_elem_of_dom, is_fresh.
  - split; simpl; try done. by rewrite H2.
Qed.

Lemma New_Patricia_spec F P L TT X m mbits :
  St F P L TT X m → 0 ≤ mbits ≤ 128 → is_int (x_active X + 1) →
  runs (New_Patricia mbits) m (λ r m', ∃ T, r = Some T ∧ TT !! T = None ∧
    St F P L (<[T := PTree NULL mbits 0]> TT) (x_set_active (x_active X + 1) X) m').
Proof.
  intros HS Hmb Hi. unfold New_Patricia.
  cstep. eapply runs_calloc_tree; [done|]. intros T m1 HT HS1.
  do 3 (cstep; eapply runs_upd_tree; [eassumption|apply lookup_insert_eq|];
    clear HS1; intros ? HS1; rewrite insert_insert_eq in HS1).
  simpl in HS1. rewrite u32_small in HS1 by lia.
  cstep. apply runs_assert; [unfold PATRICIA_MAXBITS; lia|].
  cstep. apply runs_gets. rewrite (x_active_St _ _ _ _ _ _ HS1).
  cstep. apply runs_chk_int; [done|]. cstep. eapply runs_set_active; [done|]. intros m2 HS2.
  cstep. by exists T.
Qed.

(** Destroying a table that owns all prefix objects frees everything. *)
Lemma destroy_table_spec F D T mbits σ P X m :
  Table F D T mbits σ P X m → owned σ P → 2 * Z.of_nat (size σ) ≤ INT_MAX →
  is_int (x_active X - 1) →
  runs (Destroy_Patricia (Some T) None) m
    (λ _ m', St F ∅ [] D (x_set_active (x_active X - 1) X) m').
Proof.
  intros (t & TT & HR & <- & ED) How Hsz Hi. pose proof (rep_wf _ _ _ _ _ _ _ _ HR) as W.
  rewrite (size_content _ _ _ W) in Hsz. pose proof (proj1 (tsize_bound _ _ _ W)).
  assert (foldl (clear_X None (λ _ X, X)) X (cells t) = X) as EX.
  { clear. induction (cells t) as [|c cs IH]; simpl; [done|].
    unfold clear_X at 2. by destruct (c_px c). }
  eapply runs_mono.
  { eapply (destroy_spec _ _ _ _ _ _ _ _ HR ltac:(lia) None (λ _ X, X)); [done|by rewrite EX]. }
  intros [] m'. cbv zeta. rewrite EX, ED. enough (foldl clear_px P (cells t) = ∅) as -> by done.
  apply map_eq. intros q. rewrite lookup_empty.
  rewrite clear_prefixes_lookup; [|by eapply cells_px_ok|by eapply NoDup_px].
  destruct (P !! q) as [x|] eqn:Eq; [|by case_decide]. destruct (How _ _ Eq) as (Hr & k & d & Hk & Hd).
  rewrite decide_True.
  - simpl. unfold derefd. rewrite Hr. simpl. apply lookup_delete_eq.
  - apply list_elem_of_omap. exists d. split; [|done]. by apply (content_lookup _ _ _ _ _ W) in Hk as [? _].
Qed.

(** A whole session: create a table, use it, destroy it. *)
Definition session (mbits : Z) (os : list op) : M mem unit :=
  T ← New_Patricia mbits; run_ops T os;; Destroy_Patricia T None.

Lemma session_spec mbits os m :
  0 ≤ mbits ≤ 128 → Forall (op_ok mbits) os → 2 * Z.of_nat (length os) ≤ INT_MAX →
  m_prefix m = ∅ → length (buffs (local_buff m)) = 16%nat →
  0 ≤ num_active_patricia m < INT_MAX →
  runs (session mbits os) m (λ _ m', m_prefix m' = ∅ ∧ m_node m' = m_node m ∧
    m_tree m' = m_tree m ∧ num_active_patricia m' = num_active_patricia m).
Proof.
  intros Hmb Hos Hsz HP Hb Hn. unfold session. pose proof (mem_St m) as HS. rewrite HP in HS.
  cstep. eapply runs_mono; [eapply New_Patricia_spec; [done|done|]|].
  { unfold is_int, INT_MIN, INT_MAX, x_active in *. simpl. lia. }
  intros r m1 (T & -> & HT & HS1). set (X1 := x_set_active _ _) in HS1.
  assert (Table (m_node m) (m_tree m) T mbits ∅ ∅ X1 m1) as HTab.
  { exists Leaf, (<[T := PTree NULL mbits 0]> (m_tree m)). split_and!; [|done|by apply delete_insert_id].
    split; [done|apply lookup_insert_eq|done|lia]. }
  cstep. eapply runs_mono; [eapply run_ops_spec; [apply _|done|by intros ??? |done|done|]|].
  { rewrite map_size_empty. lia. }
  intros [] m2 (σ & P & X & HTab2 & How & Hb2 & Ha & Hd & _).
  assert (size σ ≤ length os)%nat as Hσ.
  { rewrite <-size_dom, Hd, dom_empty_L. pose proof (abs_ops_size ∅ os) as H. by rewrite size_empty in H. }
  assert (x_active X - 1 = num_active_patricia m) as Ha'.
  { rewrite Ha. unfold X1, x_active. simpl. lia. }
  eapply runs_mono; [eapply destroy_table_spec; [done|done|lia|]|].
  { rewrite Ha'. unfold is_int, INT_MIN, INT_MAX in *. lia. }
  intros [] m3 HS3. split_and!.
  - apply HS3.
  - by eapply St_nil_node.
  - apply HS3.
  - rewrite (x_active_St _ _ _ _ _ _ HS3), Ha'. done.
Qed.

(** ** Programs built from the helpers *)
Section program.
Context (F : gmap loc patricia_node_t) (D : gmap loc patricia_tree_t) (T : loc) (mbits act : Z).

(** A table of at most [n] prefixes that owns all prefix objects. *)
Definition Inv (n : Z) (m : mem) : Prop :=
  ∃ σ P X, Table F D T mbits σ P X m ∧ owned σ P ∧ buffers_ok X ∧ x_active X = act ∧
    Z.of_nat (size σ) ≤ n.

Lemma inv_op n m o : Inv n m → op_ok mbits o → 2 * n + 2 ≤ INT_MAX →
  runs (run_op (Some T) o) m (λ _ m', Inv (n + 1) m').
Proof using.
  intros (σ & P & X & HR & How & Hb & Ha & Hn) Ho Hsz.
  eapply runs_mono; [eapply run_op_spec; [apply _|done|done|done|done|lia]|].
  intros [] m1 (σ1 & P1 & X1 & HR1 & How1 & Hb1 & Ha1 & Hd1 & _). exists σ1, P1, X1.
  split_and!; try done; [congruence|]. rewrite <-!size_dom, Hd1.
  pose proof (abs_op_size (dom σ) o) as H. rewrite size_dom in H. lia.
Qed.

Lemma inv_make n m s : Inv n m → op_ok mbits (OpMake s) → 2 * n + 2 ≤ INT_MAX →
  runs (make_and_lookup (Some T) s) m (λ _ m', Inv (n + 1) m').
Proof using.
  intros H1 H2 H3. pose proof (inv_op _ _ _ H1 H2 H3) as H. apply runs_bind_inv in H.
  eapply runs_mono; [exact H|]. by intros r m' (? & ? & [= <- <-] & ?).
Qed.

Lemma inv_exact n m s : Inv n m → op_ok mbits (OpExact s) → 2 * n + 2 ≤ INT_MAX →
  runs (try_search_exact (Some T) s) m (λ _ m', Inv (n + 1) m').
Proof using.
  intros H1 H2 H3. pose proof (inv_op _ _ _ H1 H2 H3) as H. apply runs_bind_inv in H.
  eapply runs_mono; [exact H|]. by intros r m' (? & ? & [= <- <-] & ?).
Qed.

Lemma inv_best n m s : Inv n m → op_ok mbits (OpBest s) → 2 * n + 2 ≤ INT_MAX →
  runs (try_search_best (Some T) s) m (λ _ m', Inv (n + 1) m').
Proof using. apply (inv_op n m (OpBest s)). Qed.

Lemma inv_perf_insert n m s : Inv n m → op_ok mbits (OpMake s) → 2 * n + 2 ≤ INT_MAX →
  runs (perf_insert (Some T) s) m (λ _ m', Inv (n + 1) m').
Proof using.
  intros (σ & P & X & HR & How & Hb & Ha & Hn) [Hl Hp] Hsz. simpl in *.
  destruct (parse_prefix s) as [[xp len]|] eqn:Es; [|done].
  eapply runs_mono; [eapply perf_insert_spec; [apply _|done|done|done|done|done|lia]|].
  intros r m1 (σ1 & P1 & HR1 & How1 & Hd1). exists σ1, P1, X. split_and!; try done.
  rewrite <-!size_dom, Hd1. pose proof (abs_op_size (dom σ) (OpMake s)) as H. simpl in H.
  unfold key_of in H. rewrite Es in H. rewrite (size_dom σ) in H. lia.
Qed.

Lemma inv_perf_load lines n m : Inv n m → Forall (λ s, op_ok mbits (OpMake s)) lines →
  2 * (n + Z.of_nat (length lines)) ≤ INT_MAX →
  runs (perf_load (Some T) lines) m (λ _ m', Inv (n + Z.of_nat (length lines)) m').
Proof using.
  revert n m. induction lines as [|s lines IH]; intros n m HI Hl Hsz; simpl.
  { cstep. by rewrite Z.add_0_r. }
  apply Forall_cons in Hl as [Hs Hl]. simpl in Hsz.
  cstep. eapply runs_mono; [apply inv_perf_insert; [done|done|lia]|]. intros r m1 HI1.
  replace (n + Z.of_nat (S (length lines))) with (n + 1 + Z.of_nat (length lines)) by lia.
  apply IH; [done|done|lia].
Qed.

Lemma inv_destroy n m : Inv n m → 2 * n ≤ INT_MAX → is_int (act - 1) →
  runs (Destroy_Patricia (Some T) None) m (λ _ m', m_prefix m' = ∅ ∧ m_node m' = F ∧
    m_tree m' = D ∧ num_active_patricia m' = act - 1).
Proof using.
  intros (σ & P & X & HR & How & Hb & <- & Hn) Hsz Hi.
  eapply runs_mono; [eapply destroy_table_spec; [done|done|lia|done]|]. intros [] m1 HS1.
  split_and!; [apply HS1|by eapply St_nil_node|apply HS1|]. by rewrite (x_active_St _ _ _ _ _ _ HS1).
Qed.
End program.

Lemma inv_new m mbits : 0 ≤ mbits ≤ 128 → m_prefix m = ∅ → length (buffs (local_buff m)) = 16%nat →
  0 ≤ num_active_patricia m < INT_MAX →
  runs (New_Patricia mbits) m (λ r m', ∃ T, r = Some T ∧
    Inv (m_node m) (m_tree m) T mbits (num_active_patricia m + 1) 0 m').
Proof.
  intros Hmb HP Hb Hn. pose proof (mem_St m) as HS. rewrite HP in HS.
  eapply runs_mono; [eapply New_Patricia_spec; [done|done|]|].
  { unfold is_int, INT_MIN, INT_MAX, x_active in *. simpl. lia. }
  intros r m1 (T & -> & HT & HS1). exists T. split; [done|]. set (X1 := x_set_active _ _) in HS1.
  exists ∅, ∅, X1. split_and!; [|by intros ???|done|done|by rewrite map_size_empty].
  exists Leaf, (<[T := PTree NULL mbits 0]> (m_tree m)). split_and!; [|done|by apply delete_insert_id].
  split; [done|apply lookup_insert_eq|done|lia].
Qed.
