(* ===== verification/PatTheorems.v ===== *)
(** * The Patricia component: its theorems

    The properties of the trie, prefix and demo code, each stated for the code
    itself, with concrete instances. *)

From stdpp Require Import base gmap list strings.
From Stdlib Require Import ZArith Lia Sorted.
From S2P Require Import Prelude Bits PatMem PrefixCode Patricia PatState PatTree PatPath PatSearch PatDemo PatInsert PatRemove PatWalk PatPrefix PatClient.

Local Open Scope Z_scope.

(** ** A concrete trie: 10.0.0.0/8 with 10.128.0.0/9 below it *)
Definition ex_p1 : prefix_t := Prefix AF_INET 8 1 [10; 0; 0; 0].
Definition ex_p2 : prefix_t := Prefix AF_INET 9 1 [10; 128; 0; 0].
(** A host address and a third network, held by the caller. *)
Definition ex_q : prefix_t := Prefix AF_INET 32 1 [10; 200; 0; 1].
Definition ex_n : prefix_t := Prefix AF_INET 12 1 [10; 16; 0; 0].

Definition ex_c1 : cell := Cell 1 (pbits ex_p1) (Some 1%positive) NULL NULL.
Definition ex_c2 : cell := Cell 2 (pbits ex_p2) (Some 2%positive) NULL NULL.
Definition ex_tree : tree := Node ex_c1 Leaf (Node ex_c2 Leaf Leaf).

Definition ex_P : gmap loc prefix_t :=
  {[ 1%positive := ex_p1; 2%positive := ex_p2; 3%positive := ex_q; 4%positive := ex_n ]}.
Definition ex_TT : gmap loc patricia_tree_t := {[ 1%positive := PTree (Some 1%positive) 32 2 ]}.
Definition ex_mem : mem :=
  Mem ex_P (list_to_map (flatten NULL ex_tree)) ex_TT {[ 1%positive := [] ]}
    (ToaBuffer (replicate 16 []) 0) 1 0 [].

Lemma St_of_list L m : NoDup L.*1 → m_node m = list_to_map L →
  St ∅ (m_prefix m) L (m_tree m) (rest m) m.
Proof.
  intros Hnd Hm. split; try done. intros a n. rewrite Hm, lookup_empty.
  rewrite <-elem_of_list_to_map by done. naive_solver.
Qed.

Lemma ex_ok x : (x = ex_p1 ∨ x = ex_p2 ∨ x = ex_q ∨ x = ex_n) → prefix_ok x.
Proof.
  intros [->|[->|[->| ->]]]; split; try done; repeat constructor; unfold is_byte; lia.
Qed.

Lemma ex_rep : Rep ∅ 1 32 ex_tree ex_P ex_TT (rest ex_mem) ex_mem.
Proof.
  split; [|done| |done].
  - apply (St_of_list _ ex_mem); [|done]. apply (bool_decide_unpack _). vm_compute. done.
  - assert (∀ c q x, c_px c = Some q → ex_P !! q = Some x → prefix_ok x → ref_count x = 1 →
      pbits x = c_key c → px_ok ex_P c) as Hpx.
    { intros c q x E H1 H2 H3 H4. unfold px_ok. rewrite E. exists x. split_and!; try done. lia. }
    simpl. split_and!; try (by (vm_compute; lia)); try done.
    + eapply (Hpx _ 1%positive ex_p1); try done. apply ex_ok. auto.
    + eapply (Hpx _ 2%positive ex_p2); try done. apply ex_ok. auto.
Qed.

Lemma ex_query q x : ex_P !! q = Some x → (x = ex_q ∨ x = ex_n ∨ x = ex_p1) → Query 32 ex_P q x.
Proof. intros Hq Hx. split; [done|apply ex_ok; naive_solver|]. by destruct Hx as [->|[->| ->]]. Qed.

(** ** The trie *)

(** C1. [patricia_lookup] of a prefix that is not in the trie returns a node,
    and the new memory represents a well-formed trie whose content is the old
    content with the key of the prefix bound to that node, which holds a
    reference to the prefix; every other binding (node, prefix, data) is kept.
    No assertion fails, no pointer is invalid, no counter overflows. *)
Theorem lookup_inserts F P T mbits q x t TT X m :
  Rep F T mbits t P TT X m → Query mbits P q x → ref_ok x →
  Z.of_nat (tsize t) + 2 ≤ INT_MAX → content t !! pbits x = None →
  ∃ a m' t' u q' x', patricia_lookup (Some T) (Some q) m = Ok (Some a, m') ∧
    refd P q x q' x' ∧
    Rep F T mbits t' (<[q' := x']> P)
      (<[T := PTree (root t') mbits (Z.of_nat (tsize t'))]> TT) X m' ∧
    content t' = <[pbits x := Cell a (pbits x) (Some q') NULL u]> (content t).
Proof.
  intros HR HQ Hr Hsz Hn. destruct (lookup_spec F P T mbits q x HQ Hr t TT X m HR Hsz)
    as (r & m' & E & [(_ & d & Hd & _)|(_ & t' & a & u & q' & x' & -> & H)]); [congruence|].
  exists a, m', t', u, q', x'. done.
Qed.

(** The network 10.16.0.0/12 goes into the example trie. *)
Lemma lookup_inserts_witness : ∃ a m' t' u q' x',
  patricia_lookup (Some 1%positive) (Some 4%positive) ex_mem = Ok (Some a, m') ∧
  refd ex_P 4 ex_n q' x' ∧
  Rep ∅ 1 32 t' (<[q' := x']> ex_P)
    (<[1%positive := PTree (root t') 32 (Z.of_nat (tsize t'))]> ex_TT) (rest ex_mem) m' ∧
  content t' = <[pbits ex_n := Cell a (pbits ex_n) (Some q') NULL u]> (content ex_tree).
Proof.
  apply (lookup_inserts ∅ ex_P 1 32 4 ex_n ex_tree ex_TT (rest ex_mem) ex_mem).
  - exact ex_rep.
  - apply ex_query; [reflexivity|auto].
  - by vm_compute.
  - by vm_compute.
  - vm_compute. reflexivity.
Defined.

(** [patricia_lookup] of a prefix that is in the trie returns its node and
    changes nothing. *)
Theorem lookup_finds F P T mbits q x t TT X m d :
  Rep F T mbits t P TT X m → Query mbits P q x → ref_ok x →
  Z.of_nat (tsize t) + 2 ≤ INT_MAX → content t !! pbits x = Some d →
  patricia_lookup (Some T) (Some q) m = Ok (Some (c_loc d), m).
Proof.
  intros HR HQ Hr Hsz Hd. destruct (lookup_spec F P T mbits q x HQ Hr t TT X m HR Hsz)
    as (r & m' & E & [(-> & d' & Hd' & ->)|(Hn & _)]); congruence.
Qed.

Lemma lookup_finds_witness :
  patricia_lookup (Some 1%positive) (Some 1%positive) ex_mem = Ok (Some 1%positive, ex_mem).
Proof.
  apply (lookup_finds ∅ ex_P 1 32 1 ex_p1 ex_tree ex_TT (rest ex_mem) ex_mem ex_c1).
  - exact ex_rep.
  - apply ex_query; [reflexivity|auto].
  - by vm_compute.
  - by vm_compute.
  - vm_compute. reflexivity.
Defined.

(** C3. [patricia_search_best2] is longest-prefix match: it returns the node of
    a longest stored key that is a prefix of the query (when not [inclusive]
    only keys shorter than the query count), or null when there is none, and
    changes nothing; its stack never overflows. *)
Theorem search_best2_longest F P T mbits q x t TT X m inclusive :
  Rep F T mbits t P TT X m → Query mbits P q x →
  ∃ r, patricia_search_best2 (Some T) (Some q) inclusive m = Ok (r, m) ∧
       longest_match t (best_candidate x inclusive) r.
Proof.
  intros HR HQ. destruct (search_best2_spec _ _ _ _ _ _ _ _ _ _ inclusive HR HQ) as (r & m' & E & -> & H).
  by exists r.
Qed.

(** 10.200.0.1 matches 10.128.0.0/9 rather than 10.0.0.0/8. *)
Lemma search_best2_longest_witness :
  ∃ r, patricia_search_best2 (Some 1%positive) (Some 3%positive) true ex_mem = Ok (r, ex_mem) ∧
       longest_match ex_tree (best_candidate ex_q true) r.
Proof.
  apply (search_best2_longest ∅ ex_P 1 32 3 ex_q ex_tree ex_TT (rest ex_mem) ex_mem true).
  - exact ex_rep.
  - apply ex_query; [reflexivity|auto].
Defined.

(** C9. [patricia_search_exact] is a lookup in the finite map of stored
    prefixes: it returns the node of the key, or null, and changes nothing. *)
Theorem search_exact_correct F P T mbits q x t TT X m :
  Rep F T mbits t P TT X m → Query mbits P q x →
  patricia_search_exact (Some T) (Some q) m = Ok (c_loc <$> content t !! pbits x, m).
Proof. intros HR HQ. by destruct (search_exact_spec _ _ _ _ _ _ _ _ _ _ HR HQ) as (r & m' & E & -> & ->). Qed.

Lemma search_exact_correct_witness :
  patricia_search_exact (Some 1%positive) (Some 1%positive) ex_mem =
    Ok (c_loc <$> content ex_tree !! pbits ex_p1, ex_mem) ∧
  content ex_tree !! pbits ex_p1 = Some ex_c1.
Proof.
  split; [|vm_compute; reflexivity].
  apply (search_exact_correct ∅ ex_P 1 32 1 ex_p1 ex_tree ex_TT (rest ex_mem) ex_mem).
  - exact ex_rep.
  - apply ex_query; [reflexivity|auto].
Defined.

(** C2. [patricia_remove] of the node of a stored prefix succeeds, deletes its
    key and no other, gives up one reference to its prefix object, and leaves a
    well-formed trie (a useless glue parent is removed with it). *)
Theorem remove_deletes F P T mbits t TT X m k d q x :
  Rep F T mbits t P TT X m → Z.of_nat (tsize t) ≤ INT_MAX →
  content t !! k = Some d → c_px d = Some q → P !! q = Some x →
  ∃ m' t', patricia_remove (Some T) (Some (c_loc d)) m = Ok (tt, m') ∧
    Rep F T mbits t' (derefd P q x)
      (<[T := PTree (root t') mbits (Z.of_nat (tsize t'))]> TT) X m' ∧
    content t' = delete k (content t).
Proof.
  intros HR Hsz Hk Hpx Hq. pose proof (rep_wf _ _ _ _ _ _ _ _ HR) as W.
  apply (content_lookup _ _ _ _ _ W) in Hk as (Hd & _ & <-).
  destruct (cell_position _ _ Hd) as (C & tl & tr & Et).
  destruct (cells_wf _ _ _ _ W Hd) as [_ H1]. unfold px_ok in H1. rewrite Hpx in H1.
  destruct H1 as (x1 & H1 & _ & Hr & _). rewrite Hq in H1. injection H1 as <-.
  destruct (remove_spec F P T mbits _ TT X m HR Hsz d C tl tr Et q x Hpx Hq Hr)
    as ([] & m' & E & t' & HR' & Hc). by exists m', t'.
Qed.

Lemma remove_deletes_witness :
  ∃ m' t', patricia_remove (Some 1%positive) (Some 1%positive) ex_mem = Ok (tt, m') ∧
    Rep ∅ 1 32 t' (derefd ex_P 1 ex_p1)
      (<[1%positive := PTree (root t') 32 (Z.of_nat (tsize t'))]> ex_TT) (rest ex_mem) m' ∧
    content t' = delete (pbits ex_p1) (content ex_tree).
Proof.
  apply (remove_deletes ∅ ex_P 1 32 ex_tree ex_TT (rest ex_mem) ex_mem (pbits ex_p1) ex_c1 1 ex_p1).
  - exact ex_rep.
  - by vm_compute.
  - vm_compute. reflexivity.
  - reflexivity.
  - reflexivity.
Defined.

(** C14. [Clear_Patricia] visits the nodes in pre-order: it frees every node of
    the trie, calls the callback exactly once on each non-null data pointer of
    a node with a prefix (its effect on the rest of the memory is [g]), gives
    up exactly one reference to each stored prefix object (freeing those whose
    last reference it was) and no other, and ends with a zero node count; the
    stack of 129 pointers never overflows. *)
Theorem clear_frees_all F P T mbits t TT X m func g :
  Rep F T mbits t P TT X m → Z.of_nat (tsize t) ≤ INT_MAX →
  (∀ f, func = Some f → ∀ dp P L TT X m, St F P L TT X m →
    runs (f dp) m (λ _ m', St F P L TT (g dp X) m')) →
  ∃ m', Clear_Patricia (Some T) func m = Ok (tt, m') ∧
    m_node m' = F ∧ rest m' = foldl (clear_X func g) X (cells t) ∧
    m_tree m' = <[T := PTree (root t) mbits 0]> TT ∧
    ∀ q, m_prefix m' !! q =
      if decide (q ∈ omap c_px (cells t)) then P !! q ≫= λ x, derefd P q x !! q else P !! q.
Proof.
  intros HR Hsz Hf. pose proof (rep_wf _ _ _ _ _ _ _ _ HR) as W.
  destruct (clear_spec F P T mbits t TT X m HR Hsz func g Hf) as ([] & m' & E & HS).
  exists m'. split_and!; [done|by eapply St_nil_node|apply HS|apply HS|].
  intros q. rewrite (st_P _ _ _ _ _ _ HS). apply clear_prefixes_lookup; [by eapply cells_px_ok|by eapply NoDup_px].
Qed.

Lemma clear_frees_all_witness :
  ∃ m', Clear_Patricia (Some 1%positive) None ex_mem = Ok (tt, m') ∧
    m_node m' = ∅ ∧ rest m' = foldl (clear_X None (λ _ X, X)) (rest ex_mem) (cells ex_tree) ∧
    m_tree m' = <[1%positive := PTree (root ex_tree) 32 0]> ex_TT ∧
    ∀ q, m_prefix m' !! q =
      if decide (q ∈ omap c_px (cells ex_tree))
      then ex_P !! q ≫= λ x, derefd ex_P q x !! q else ex_P !! q.
Proof.
  apply (clear_frees_all ∅ ex_P 1 32 ex_tree ex_TT (rest ex_mem) ex_mem None (λ _ X, X)).
  - exact ex_rep.
  - by vm_compute.
  - discriminate.
Defined.

(** After [Clear_Patricia] the trie struct still points to its freed head:
    any search through the cleared (non-empty) trie is an invalid access. *)
Theorem clear_leaves_head_dangling F P T mbits t TT X m q x :
  Rep F T mbits t P TT X m → Z.of_nat (tsize t) ≤ INT_MAX → t ≠ Leaf →
  Query mbits P q x → q ∉ omap c_px (cells t) →
  ∃ m', Clear_Patricia (Some T) None m = Ok (tt, m') ∧
    patricia_search_exact (Some T) (Some q) m' = Err BadAccess.
Proof.
  intros HR Hsz Ht [Hq Ho Hle] Hnin. pose proof (rep_wf _ _ _ _ _ _ _ _ HR) as W.
  destruct (clear_spec F P T mbits t TT X m HR Hsz None (λ _ X, X)) as ([] & m' & E & HS); [done|].
  exists m'. split; [done|]. destruct t as [|c tl tr]; [done|].
  assert (m_prefix m' !! q = Some x) as Hq'.
  { rewrite (st_P _ _ _ _ _ _ HS). rewrite clear_prefixes_lookup;
      [|by eapply cells_px_ok|by eapply NoDup_px]. by rewrite decide_False. }
  assert (m_node m' !! c_loc c = None) as Hc.
  { rewrite (St_nil_node _ _ _ _ _ HS). destruct HR as [HS0 _ _ _]. eapply (st_disj _ _ _ _ _ _ HS0). left. }
  unfold patricia_search_exact, mbind, M_bind, assert, get_prefix, get_tree, load. simpl.
  rewrite Hq', (st_T _ _ _ _ _ _ HS). simpl. rewrite lookup_insert_eq. simpl.
  rewrite (proj2 (Z.leb_le _ _) Hle). simpl.
  assert (prefix_touchar (Some q) m' = Ok (add x, m')) as ->.
  { unfold prefix_touchar, get_prefix, mbind, M_bind, load. simpl. by rewrite Hq'. }
  erewrite bind_err; [done|]. unfold get_node, load. simpl. by rewrite Hc.
Qed.

Lemma clear_leaves_head_dangling_witness :
  ∃ m', Clear_Patricia (Some 1%positive) None ex_mem = Ok (tt, m') ∧
    patricia_search_exact (Some 1%positive) (Some 3%positive) m' = Err BadAccess.
Proof.
  apply (clear_leaves_head_dangling ∅ ex_P 1 32 ex_tree ex_TT (rest ex_mem) ex_mem 3 ex_q).
  - exact ex_rep.
  - by vm_compute.
  - discriminate.
  - apply ex_query; [reflexivity|auto].
  - apply (bool_decide_unpack _). vm_compute. exact I.
Defined.

(** A callback that prints a dot. *)
Definition dot_func (_ _ : ptr) : M mem unit := printf (cs ".").
Definition dot (_ : cell) (X : rest_t) : rest_t := (X.1, X.2 ++ [cs "."]).

Lemma dot_ok F P L TT X m p d c : St F P L TT X m →
  runs (dot_func p d) m (λ _ m', St F P L TT (dot c X) m').
Proof. intros [H1 H2 H3 H4 H5 H6]. apply runs_modify. split; try done. by subst X. Qed.

(** [patricia_process] calls the function exactly once for each stored
    prefix, with the prefix and data of its node, in pre-order, and returns;
    its stack of 129 pointers never overflows.  [g] is the effect of the
    function on the rest of the memory. *)
Theorem process_visits_all F P T mbits t TT X m func g :
  Rep F T mbits t P TT X m →
  (∀ X m c, c ∈ cells t → c_px c ≠ NULL → St F P (flatten NULL t) TT X m →
    runs (func (c_px c) (c_data c)) m (λ _ m', St F P (flatten NULL t) TT (g c X) m')) →
  ∃ m', patricia_process (Some T) func m = Ok (tt, m') ∧
    Rep F T mbits t P TT (foldl (visit g) X (cells t)) m'.
Proof.
  intros [HS HT W Hmb] Hf.
  destruct (process_spec F P (key_bound mbits) ltac:(unfold key_bound; lia) t TT W func g Hf
    T X m _ mbits HS HT) as ([] & m' & E & HS'). exists m'. by split.
Qed.

Lemma process_visits_all_witness :
  ∃ m', patricia_process (Some 1%positive) dot_func ex_mem = Ok (tt, m') ∧
    Rep ∅ 1 32 ex_tree ex_P ex_TT (foldl (visit dot) (rest ex_mem) (cells ex_tree)) m'.
Proof.
  apply (process_visits_all ∅ ex_P 1 32 ex_tree ex_TT (rest ex_mem) ex_mem dot_func dot).
  - exact ex_rep.
  - intros X m c _ _ H. apply dot_ok. exact H.
Defined.

Lemma nprefixes_entries t : nprefixes (cells t) = length (entries t).
Proof.
  unfold nprefixes, entries. induction (cells t) as [|c cs IH]; [done|].
  rewrite filter_cons, bind_cons, length_app, <-IH. unfold entry.
  case_decide as Hc; destruct (c_px c); naive_solver.
Qed.

(** [patricia_walk_inorder] from the head visits each stored prefix exactly
    once, left subtree before node before right subtree, and returns their
    number. *)
Theorem walk_inorder_counts F P T mbits t TT X m func g :
  Rep F T mbits t P TT X m → t ≠ Leaf → Z.of_nat (tsize t) < 2 ^ 64 →
  (∀ X m c, c ∈ cells t → c_px c ≠ NULL → St F P (flatten NULL t) TT X m →
    runs (func (c_px c) (c_data c)) m (λ _ m', St F P (flatten NULL t) TT (g c X) m')) →
  ∃ m', patricia_walk_inorder (root t) func m = Ok (Z.of_nat (size (content t)), m') ∧
    Rep F T mbits t P TT (foldl (visit g) X (inorder t)) m'.
Proof.
  intros [HS HT W Hmb] Ht Hsz Hf.
  destruct (walk_inorder_spec F P (key_bound mbits) ltac:(unfold key_bound; lia) t TT func g Hf
    (loop_fuel m) t [] X m HS eq_refl Ht) as (n & m' & E & -> & HS').
  - pose proof (rep_fuel _ _ _ _ _ _ HS). lia.
  - done.
  - exists m'. rewrite (size_content _ _ _ W). split; [|by split].
    unfold patricia_walk_inorder, mbind, M_bind, gets. rewrite E. do 3 f_equal.
    by rewrite nprefixes_inorder, nprefixes_entries.
Qed.

Lemma walk_inorder_counts_witness :
  ∃ m', patricia_walk_inorder (root ex_tree) dot_func ex_mem =
      Ok (Z.of_nat (size (content ex_tree)), m') ∧
    Rep ∅ 1 32 ex_tree ex_P ex_TT (foldl (visit dot) (rest ex_mem) (inorder ex_tree)) m'.
Proof.
  apply (walk_inorder_counts ∅ ex_P 1 32 ex_tree ex_TT (rest ex_mem) ex_mem dot_func dot).
  - exact ex_rep.
  - discriminate.
  - by vm_compute.
  - intros X m c _ _ H. apply dot_ok. exact H.
Defined.

(** The node count the trie keeps is less than twice the number of stored
    prefixes: glue nodes are fewer than prefixes. *)
Theorem glue_nodes_bounded F P T mbits t TT X m :
  Rep F T mbits t P TT X m → t ≠ Leaf →
  ∃ s, m_tree m !! T = Some s ∧ head s = root t ∧
    num_active_node s < 2 * Z.of_nat (size (content t)).
Proof.
  intros [HS HT W _] Ht. exists (PTree (root t) mbits (Z.of_nat (tsize t))).
  rewrite (st_T _ _ _ _ _ _ HS), (size_content _ _ _ W). split_and!; [done..|]. simpl.
  pose proof (proj2 (tsize_bound _ _ _ W) Ht). lia.
Qed.

Lemma glue_nodes_bounded_witness :
  ∃ s, m_tree ex_mem !! 1%positive = Some s ∧ head s = root ex_tree ∧
    num_active_node s < 2 * Z.of_nat (size (content ex_tree)).
Proof.
  apply (glue_nodes_bounded ∅ ex_P 1 32 ex_tree ex_TT (rest ex_mem) ex_mem).
  - exact ex_rep.
  - discriminate.
Defined.

(** ** Clients of the trie *)

(** C6. Any sequence of demo operations ([make_and_lookup], [try_search_exact],
    [try_search_best], [lookup_then_remove]) on well-formed prefixes refines
    operations on a finite map [A] from bit strings to the prefixes stored with
    them: insertion of a new one, lookup, longest match, and lookup with
    deletion.  It always returns; the trie then holds the prefixes that the
    abstract operations leave, and the lines it printed are those that the
    abstract operations give ([abs_output]: each query, and the prefix found or
    that none was).  All prefix objects stay owned by the table with one
    reference each. *)
Theorem run_ops_refines F D T mbits os σ P X m A :
  Table F D T mbits σ P X m → owned σ P → buffers_ok X → Forall (op_ok mbits) os →
  2 * (Z.of_nat (size σ) + Z.of_nat (length os)) ≤ INT_MAX → shows P σ A →
  ∃ m' σ' P' X', run_ops (Some T) os m = Ok (tt, m') ∧ Table F D T mbits σ' P' X' m' ∧
    owned σ' P' ∧ shows P' σ' (foldl abs_prefixes A os) ∧ dom σ' = foldl abs_op (dom σ) os ∧
    stdout m' = stdout m ++ abs_output A os.
Proof.
  intros HR How Hb Hos Hsz HA.
  destruct (run_ops_spec F T mbits _ os σ P X m HR How Hb Hos Hsz)
    as ([] & m' & E & σ' & P' & X' & HR' & How' & _ & _ & Hd & Hout). destruct (Hout A HA) as [HA' Ho].
  exists m', σ', P', X'. split_and!; try done.
  destruct HR as (t & TT & [HS _ _ _] & _), HR' as (t' & TT' & [HS' _ _ _] & _).
  rewrite <-(st_X _ _ _ _ _ _ HS), <-(st_X _ _ _ _ _ _ HS') in Ho. exact Ho.
Qed.

Definition ex_ops : list op :=
  [OpMake (cs "10.0.0.0/8"); OpMake (cs "10.128.0.0/9"); OpBest (cs "10.200.0.1");
   OpRemove (cs "10.0.0.0/8"); OpExact (cs "10.0.0.0/8")].

Lemma ex_ops_ok : Forall (op_ok 32) ex_ops.
Proof. repeat constructor; vm_compute; discriminate. Qed.

(** A memory with an empty trie at address 1. *)
Definition ex_mem0 : mem :=
  Mem ∅ ∅ {[ 1%positive := PTree NULL 32 0 ]} ∅ (ToaBuffer (replicate 16 []) 0) 1 0 [].

Lemma ex_table0 : Table ∅ ∅ 1 32 ∅ ∅ (rest ex_mem0) ex_mem0.
Proof.
  exists Leaf, {[ 1%positive := PTree NULL 32 0 ]}. split_and!; [|done|done].
  split; [|done|done|done]. by apply (St_of_list [] ex_mem0); [constructor|].
Qed.

(** What the operations of the example print. *)
Definition ex_lines : list string :=
  ["make_and_lookup: 10.0.0.0/8"; "make_and_lookup: 10.128.0.0/9";
          "try_search_best: 10.200.0.1/32"; "try_search_best: 10.128.0.0/9 found";
          "try_search_exact: 10.0.0.0/8"; "try_search_exact: 10.0.0.0/8 found";
          "try_search_exact: 10.0.0.0/8"; "try_search_exact: not found"]%string.

Lemma run_ops_refines_witness :
  ∃ m' σ' P' X', run_ops (Some 1%positive) ex_ops ex_mem0 = Ok (tt, m') ∧
    Table ∅ ∅ 1 32 σ' P' X' m' ∧ owned σ' P' ∧ shows P' σ' (foldl abs_prefixes ∅ ex_ops) ∧
    dom σ' = foldl abs_op (dom (∅ : gmap (list bool) cell)) ex_ops ∧
    stdout m' = (λ s, cs s ++ [10]) <$> ex_lines.
Proof.
  replace ((λ s, cs s ++ [10]) <$> ex_lines) with (stdout ex_mem0 ++ abs_output ∅ ex_ops) by (vm_compute; reflexivity).
  apply (run_ops_refines ∅ ∅ 1 32 ex_ops ∅ ∅ (rest ex_mem0) ex_mem0 ∅).
  - exact ex_table0.
  - intros ? ? H. discriminate H.
  - reflexivity.
  - exact ex_ops_ok.
  - by vm_compute.
  - intros k. by rewrite !lookup_empty.
Defined.

(** C15. A session that creates a trie, runs any sequence of well-formed demo
    operations and destroys it returns, and leaks nothing: every node and
    prefix object it allocated is freed, and the trie count is restored. *)
Theorem session_no_leak mbits os m :
  0 ≤ mbits ≤ 128 → Forall (op_ok mbits) os → 2 * Z.of_nat (length os) ≤ INT_MAX →
  m_prefix m = ∅ → length (buffs (local_buff m)) = 16%nat →
  0 ≤ num_active_patricia m < INT_MAX →
  ∃ m', (T ← New_Patricia mbits; run_ops T os;; Destroy_Patricia T None) m = Ok (tt, m') ∧
    m_prefix m' = ∅ ∧ m_node m' = m_node m ∧ m_tree m' = m_tree m ∧
    num_active_patricia m' = num_active_patricia m.
Proof.
  intros H1 H2 H3 H4 H5 H6. destruct (session_spec mbits os m H1 H2 H3 H4 H5 H6) as ([] & m' & E & H).
  by exists m'.
Qed.

Lemma session_no_leak_witness :
  ∃ m', (T ← New_Patricia 32; run_ops T ex_ops;; Destroy_Patricia T None) empty_mem = Ok (tt, m') ∧
    m_prefix m' = ∅ ∧ m_node m' = m_node empty_mem ∧ m_tree m' = m_tree empty_mem ∧
    num_active_patricia m' = num_active_patricia empty_mem.
Proof.
  apply (session_no_leak 32 ex_ops empty_mem).
  - lia.
  - exact ex_ops_ok.
  - by vm_compute.
  - reflexivity.
  - reflexivity.
  - by vm_compute.
Defined.

(** One call of a helper with a literal argument. *)
Ltac perf_step HI :=
  lazymatch goal with
  | |- runs (make_and_lookup _ _) _ _ => eapply inv_make
  | |- runs (try_search_best _ _) _ _ => eapply inv_best
  | |- runs (try_search_exact _ _) _ _ => eapply inv_exact
  end; [exact HI|split; vm_compute; discriminate|lia].

(** [perf_test.c] on any file of well-formed IPv4 prefixes (and any
    well-formed second argument) runs to completion and returns 0, with every
    node, prefix object and trie it allocated freed. *)
Theorem perf_main_completes lines str m :
  Forall (λ s, op_ok 32 (OpMake s)) lines → (∀ s, str = Some s → op_ok 32 (OpMake s)) →
  2 * (Z.of_nat (length lines) + 20) ≤ INT_MAX →
  m_prefix m = ∅ → length (buffs (local_buff m)) = 16%nat →
  0 ≤ num_active_patricia m < INT_MAX →
  ∃ m', perf_main (Some lines) str m = Ok (0, m') ∧ m_prefix m' = ∅ ∧ m_node m' = m_node m ∧
    m_tree m' = m_tree m ∧ num_active_patricia m' = num_active_patricia m.
Proof.
  intros Hl Hstr Hsz HP Hb Hn.
  enough (runs (perf_main (Some lines) str) m (λ r m', r = 0 ∧ m_prefix m' = ∅ ∧
    m_node m' = m_node m ∧ m_tree m' = m_tree m ∧ num_active_patricia m' = num_active_patricia m))
    as (r & m' & E & -> & H) by eauto.
  assert (op_ok 32 (OpMake (default (cs "2.232.71.192/26") str))) as Hs.
  { destruct str as [s|]; [by apply Hstr|]. split; vm_compute; discriminate. }
  unfold perf_main. cstep. eapply runs_mono; [by apply (inv_new m 32)|]. intros r m1 (T & -> & HI).
  cstep. eapply runs_mono; [apply inv_perf_load; [exact HI|done|lia]|]. clear HI. intros ? m2 HI.
  cstep. eapply runs_mono; [apply inv_perf_insert; [exact HI|done|lia]|]. clear HI. intros ? m3 HI.
  do 13 (cstep; eapply runs_mono; [perf_step HI|]; clear HI; intros ? ? HI).
  cstep. eapply runs_mono; [eapply inv_destroy; [exact HI|lia|]|].
  { unfold is_int, INT_MIN, INT_MAX in *. lia. }
  intros [] m4 (H1 & H2 & H3 & H4). cstep. apply runs_modify. cstep. simpl. split_and!; try done. lia.
Qed.

Lemma perf_main_completes_witness :
  ∃ m', perf_main (Some [cs "2.16.0.0/13" ++ [10]; cs "2.16.0.0/13" ++ [10]]) None empty_mem = Ok (0, m') ∧
    m_prefix m' = ∅ ∧ m_node m' = m_node empty_mem ∧ m_tree m' = m_tree empty_mem ∧
    num_active_patricia m' = num_active_patricia empty_mem.
Proof.
  apply (perf_main_completes [cs "2.16.0.0/13" ++ [10]; cs "2.16.0.0/13" ++ [10]] None empty_mem).
  - repeat constructor; vm_compute; discriminate.
  - discriminate.
  - by vm_compute.
  - reflexivity.
  - reflexivity.
  - by vm_compute.
Defined.

(** The text [demo.c] prints, without the newlines. *)
Definition demo_output : list string :=
  ["make_and_lookup: 127.0.0.0/8"; "try_search_best: 127.0.0.1/32";
   "try_search_best: 127.0.0.0/8 found"; "try_search_best: 10.0.0.1/32";
   "try_search_best: not found"; "make_and_lookup: 10.42.42.0/24";
   "make_and_lookup: 10.42.69.0/24"; "make_and_lookup: 10.0.0.0/8";
   "make_and_lookup: 10.0.0.0/9"; "try_search_best: 10.42.42.0/24";
   "try_search_best: 10.42.42.0/24 found"; "try_search_best: 10.10.10.10/32";
   "try_search_best: 10.0.0.0/9 found"; "try_search_best: 10.10.10.1/32";
   "try_search_best: 10.0.0.0/9 found"; "try_search_exact: 10.0.0.0/32";
   "try_search_exact: not found"; "try_search_exact: 10.0.0.0/8";
   "try_search_exact: 10.0.0.0/8 found"; "node: 10.42.42.0/24"; "node: 10.42.69.0/24";
   "node: 10.0.0.0/9"; "node: 10.0.0.0/8"; "node: 127.0.0.0/8"; "5 total nodes.";
   "try_search_exact: 42.0.0.0/8"; "try_search_exact: not found";
   "try_search_exact: 10.0.0.0/8"; "try_search_exact: 10.0.0.0/8 found";
   "try_search_exact: 10.0.0.0/32"; "try_search_exact: not found"; "node: 10.42.42.0/24";
   "node: 10.42.69.0/24"; "node: 10.0.0.0/9"; "node: 127.0.0.0/8"; "4 total nodes."]%string.

Definition demo_check : bool :=
  match demo_main empty_mem with
  | Ok (_, m) => bool_decide (stdout m = (λ s, cs s ++ [10]) <$> demo_output) &&
      bool_decide (m_node m = ∅) && bool_decide (m_prefix m = ∅) && bool_decide (m_tree m = ∅) &&
      (num_active_patricia m =? 0)
  | Err _ => false
  end.

Lemma demo_checked : demo_check = true.
Proof. vm_compute. reflexivity. Qed.

(** [demo.c] runs to completion on an empty heap, prints the expected
    36 lines (five prefixes, then four after the removal), and frees all
    nodes, prefix objects and the trie. *)
Theorem demo_main_output :
  ∃ m', demo_main empty_mem = Ok (tt, m') ∧ stdout m' = (λ s, cs s ++ [10]) <$> demo_output ∧
    m_node m' = ∅ ∧ m_prefix m' = ∅ ∧ m_tree m' = ∅ ∧ num_active_patricia m' = 0.
Proof.
  pose proof demo_checked as H. unfold demo_check in H.
  destruct (demo_main empty_mem) as [[[] m']|e]; [|done]. exists m'.
  rewrite !andb_true_iff, !bool_decide_eq_true, Z.eqb_eq in H. tauto.
Qed.

(** The demo helpers do not check the result of [ascii2prefix]: on a string
    that is not a prefix [make_and_lookup] dereferences a null pointer. *)
Theorem make_and_lookup_malformed T s m :
  parse_prefix s = None → Z.of_nat (length s) ≤ MAXLINE →
  make_and_lookup T s m = Err BadAccess.
Proof.
  intros Hs Hl.
  assert (ascii2prefix AF_INET (Some s) m = Ok (NULL, m)) as E.
  { enough (runs (ascii2prefix AF_INET (Some s)) m (λ r m', r = NULL ∧ m' = m)) as (r & m' & E & -> & ->)
      by done. eapply runs_ascii2prefix; [apply mem_St|done|]. by rewrite Hs. }
  unfold make_and_lookup. rewrite (bind_ok _ _ _ _ _ E). by apply bind_err.
Qed.

Lemma make_and_lookup_malformed_witness :
  make_and_lookup (Some 1%positive) (cs "10.0.0.256/8") ex_mem = Err BadAccess.
Proof.
  apply (make_and_lookup_malformed (Some 1%positive) (cs "10.0.0.256/8") ex_mem).
  - vm_compute. reflexivity.
  - by vm_compute.
Defined.

(** ** Prefix objects *)

(** Reading back what was printed: the text [prefix_toa2x] writes for a
    prefix, given to [ascii2prefix], yields a fresh object with the same
    address, length and family, and one reference. *)
Theorem toa_ascii_roundtrip m q x b old :
  m_prefix m !! q = Some x → prefix_ok x → 0 ≤ ref_count x → m_buf m !! b = Some old →
  ∃ m1 s q' m2, prefix_toa2x (Some q) (Some b) true m = Ok (CBuf b, m1) ∧
    deref_char (CBuf b) m1 = Some s ∧ ascii2prefix AF_INET (Some s) m1 = Ok (Some q', m2) ∧
    m_prefix m !! q' = None ∧
    m_prefix m2 = <[q' := Prefix AF_INET (bitlen x) 1 (add x)]> (m_prefix m).
Proof.
  intros Hq Ho Hr Hb. set (m1 := set_buf <[b := toa_text x true]> m).
  enough (runs (ascii2prefix AF_INET (Some (toa_text x true))) m1 (λ r m2, ∃ q', r = Some q' ∧
    m_prefix m !! q' = None ∧ m_prefix m2 = <[q' := Prefix AF_INET (bitlen x) 1 (add x)]> (m_prefix m)))
    as (r & m2 & E & q' & -> & H).
  { exists m1, (toa_text x true), q', m2. split_and!; try done; try by apply H.
    - by apply (toa2x_buf m q x Hq Ho Hr b old).
    - simpl. apply lookup_insert_eq. }
  eapply runs_ascii2prefix; [apply mem_St|by apply toa_text_length|]. rewrite parse_toa by done.
  intros q' m2 Hq' HS. exists q'. split_and!; [done|done|apply HS].
Qed.

Lemma toa_ascii_roundtrip_witness :
  ∃ m1 s q' m2, prefix_toa2x (Some 2%positive) (Some 1%positive) true ex_mem = Ok (CBuf 1, m1) ∧
    deref_char (CBuf 1) m1 = Some s ∧ ascii2prefix AF_INET (Some s) m1 = Ok (Some q', m2) ∧
    m_prefix ex_mem !! q' = None ∧
    m_prefix m2 = <[q' := Prefix AF_INET (bitlen ex_p2) 1 (add ex_p2)]> (m_prefix ex_mem).
Proof.
  apply (toa_ascii_roundtrip ex_mem 2 ex_p2 1 []).
  - reflexivity.
  - apply ex_ok. auto.
  - by vm_compute.
  - reflexivity.
Defined.

(** [prefix_toa] of several prefixes, one after the other. *)
Fixpoint toa_all (qs : list loc) : M mem (list charptr) :=
  match qs with
  | [] => mret []
  | q :: qs => c ← prefix_toa (Some q); cs ← toa_all qs; mret (c :: cs)
  end.

Lemma u32_mod_16 z : u32 z mod 16 = z mod 16.
Proof.
  unfold u32. apply Z.mod_mod_divide. exists (2 ^ 28). lia.
Qed.

Lemma toa_all_spec qs xs m :
  Forall2 (λ q x, m_prefix m !! q = Some x ∧ prefix_ok x ∧ 0 ≤ ref_count x) qs xs →
  (length qs ≤ 16)%nat → length (buffs (local_buff m)) = 16%nat →
  let slot j := Z.to_nat ((buff_i (local_buff m) + Z.of_nat j) mod 16) in
  ∃ ps m', toa_all qs m = Ok (ps, m') ∧
    Forall2 (λ c x, deref_char c m' = Some (toa_text x false)) ps xs ∧
    ∀ s, (∀ j, (j < length qs)%nat → s ≠ slot j) →
      buffs (local_buff m') !! s = buffs (local_buff m) !! s.
Proof.
  intros H. revert m H. revert xs. induction qs as [|q qs IH]; intros xs m HF Hl Hb slot.
  { apply Forall2_nil_inv_l in HF as ->. exists [], m. by split_and!. }
  apply Forall2_cons_inv_l in HF as (x & xs' & (Hq & Ho & Hr) & HF & ->). simpl in Hl.
  pose proof (toa2x_static m q x Hq Ho Hr false Hb) as E. cbv zeta in E.
  set (k := Z.to_nat (buff_i (local_buff m) mod 16)) in E. set (m1 := set_local_buff _ m) in E.
  assert (k < 16)%nat as Hk by (pose proof (Z.mod_pos_bound (buff_i (local_buff m)) 16 ltac:(lia)); lia).
  assert (length (buffs (local_buff m1)) = 16%nat) as Hb1 by (simpl; by rewrite length_insert).
  destruct (IH xs' m1 HF ltac:(lia) Hb1) as (ps & m' & E' & Hps & Hkeep).
  assert (∀ j, Z.to_nat ((buff_i (local_buff m1) + Z.of_nat j) mod 16) = slot (S j)) as Hslot.
  { intros j. unfold slot. f_equal. change (buff_i (local_buff m1)) with (u32 (buff_i (local_buff m) + 1)).
    rewrite Z.add_mod, u32_mod_16, <-Z.add_mod by lia. f_equal. lia. }
  exists (CStatic k :: ps), m'. split_and!.
  - simpl. unfold prefix_toa, prefix_toa2. rewrite (bind_ok _ _ _ _ _ E). by rewrite (bind_ok _ _ _ _ _ E').
  - constructor; [|done]. simpl. rewrite Hkeep.
    + simpl. apply list_lookup_insert_eq. lia.
    + intros j Hj. rewrite Hslot. unfold slot, k. intros Ek.
      pose proof (Z.mod_pos_bound (buff_i (local_buff m)) 16 ltac:(lia)).
      pose proof (Z.mod_pos_bound (buff_i (local_buff m) + Z.of_nat (S j)) 16 ltac:(lia)).
      apply Z2Nat.inj in Ek; [|lia..].
      pose proof (Z.div_mod (buff_i (local_buff m)) 16 ltac:(lia)).
      pose proof (Z.div_mod (buff_i (local_buff m) + Z.of_nat (S j)) 16 ltac:(lia)). lia.
  - intros s Hs. rewrite Hkeep.
    + simpl. apply list_lookup_insert_ne. intros <-. apply (Hs 0%nat); [simpl; lia|].
      unfold slot. by rewrite Z.add_0_r.
    + intros j Hj. rewrite Hslot. apply Hs. simpl. lia.
Qed.

(** The static buffers of [prefix_toa] are used in rotation: after up to 16
    consecutive calls all returned pointers still refer to the texts of their
    prefixes, also when the [u_int] counter wraps around. *)
Theorem toa_sixteen_live qs xs m :
  Forall2 (λ q x, m_prefix m !! q = Some x ∧ prefix_ok x ∧ 0 ≤ ref_count x) qs xs →
  (length qs ≤ 16)%nat → length (buffs (local_buff m)) = 16%nat →
  ∃ ps m', toa_all qs m = Ok (ps, m') ∧
    Forall2 (λ c x, deref_char c m' = Some (toa_text x false)) ps xs.
Proof. intros H1 H2 H3. destruct (toa_all_spec qs xs m H1 H2 H3) as (ps & m' & H & H' & _). eauto. Qed.

Lemma toa_sixteen_live_witness :
  ∃ ps m', toa_all [1%positive; 2%positive; 1%positive] ex_mem = Ok (ps, m') ∧
    Forall2 (λ c x, deref_char c m' = Some (toa_text x false)) ps [ex_p1; ex_p2; ex_p1].
Proof.
  apply (toa_sixteen_live [1%positive; 2%positive; 1%positive] [ex_p1; ex_p2; ex_p1] ex_mem).
  - repeat constructor; vm_compute; congruence.
  - simpl. lia.
  - reflexivity.
Defined.

Lemma St_eq F P TT X m m' : St F P [] TT X m → St F P [] TT X m' → m = m'.
Proof.
  intros H H'. pose proof (St_nil_node _ _ _ _ _ H) as E1. pose proof (St_nil_node _ _ _ _ _ H') as E2.
  destruct H as [H1 H2 H3 _ _ _], H' as [H1' H2' H3' _ _ _], m, m'. unfold rest in *. simpl in *. congruence.
Qed.

(** [Ref_Prefix] and [Deref_Prefix] are inverse: taking a reference to a
    dynamic prefix, or to a static one (which is copied), and giving it up
    leaves the memory as it was. *)
Theorem ref_deref_identity m q x :
  m_prefix m !! q = Some x → prefix_ok x → ref_count x = -1 ∨ 0 < ref_count x < INT_MAX →
  (p ← Ref_Prefix (Some q); Deref_Prefix p) m = Ok (tt, m).
Proof.
  intros Hq Ho Hr.
  enough (runs (p ← Ref_Prefix (Some q); Deref_Prefix p) m
    (λ _ m', St (m_node m) (m_prefix m) [] (m_tree m) (rest m) m')) as ([] & m' & E & HS).
  { by rewrite E, (St_eq _ _ _ _ _ _ (mem_St m) HS). }
  cstep. eapply runs_Ref_Prefix; [apply mem_St|done|done|unfold ref_ok, INT_MAX in *; lia|].
  intros q' x' m1 Hrf HS1. pose proof (refd_ok _ _ _ _ _ Ho ltac:(unfold ref_ok, INT_MAX in *; lia) Hrf) as (_ & Hr' & _).
  eapply runs_Deref_Prefix; [done|apply lookup_insert_eq|done|]. intros m2 HS2.
  enough (derefd (<[q' := x']> (m_prefix m)) q' x' = m_prefix m) as HE by (by rewrite HE in HS2).
  unfold derefd. destruct Hrf as [(Hne & -> & ->)|(E1 & Hn & ->)]; simpl.
  - rewrite (proj2 (Z.eqb_neq _ _)) by lia. rewrite insert_insert_eq. apply insert_id. rewrite Hq.
    f_equal. destruct x. unfold with_ref_count. simpl. f_equal. lia.
  - by rewrite delete_insert_id.
Qed.

Lemma ref_deref_identity_witness :
  (p ← Ref_Prefix (Some 3%positive); Deref_Prefix p) ex_mem = Ok (tt, ex_mem).
Proof.
  apply (ref_deref_identity ex_mem 3 ex_q).
  - reflexivity.
  - apply ex_ok. auto.
  - right. by vm_compute.
Defined.

(** [my_inet_pton] is total for [AF_INET]: on any string it returns -1, 0 or
    1 without an access out of bounds, and when it returns 1 it has written
    four bytes. *)
Theorem my_inet_pton_total s m :
  ∃ r dst, my_inet_pton AF_INET s m = Ok ((r, dst), m) ∧ r ∈ [-1; 0; 1] ∧
    (r = 1 ↔ is_Some dst) ∧ ∀ bs, dst = Some bs → length bs = 4%nat ∧ Forall is_byte bs.
Proof.
  destruct (pton_loop_total 5 0 [0; 0; 0; 0] s) as (r & xp & E & Hr & H4 & Hb); [lia..|done| |].
  { repeat constructor; unfold is_byte; lia. }
  unfold my_inet_pton. rewrite Z.eqb_refl. unfold mbind, M_bind, lift. rewrite E.
  destruct (Z.eqb_spec r 1) as [->|Hne].
  - exists 1, (Some xp). split_and!; [done|done|by split|]. by intros ? [= <-].
  - exists r, None. split_and!; [done|done| |done]. split; [done|by intros [? ?]].
Qed.

(** [comp_with_mask] on addresses of four bytes compares exactly the first
    [mask] bits. *)
Theorem comp_with_mask_bits a d (mask : nat) :
  length a = 4%nat → length d = 4%nat → Forall is_byte a → Forall is_byte d → (mask ≤ 32)%nat →
  comp_with_mask a d (Z.of_nat mask) =
    Ok (bool_decide (take mask (bits_of a) = take mask (bits_of d))).
Proof. intros. apply comp_with_mask_correct; done || lia. Qed.

Lemma comp_with_mask_bits_witness :
  comp_with_mask [10; 128; 0; 0] [10; 200; 0; 1] (Z.of_nat 9) =
    Ok (bool_decide (take 9 (bits_of [10; 128; 0; 0]) = take 9 (bits_of [10; 200; 0; 1]))).
Proof.
  apply (comp_with_mask_bits [10; 128; 0; 0] [10; 200; 0; 1] 9).
  - reflexivity.
  - reflexivity.
  - repeat constructor; vm_compute; discriminate || reflexivity.
  - repeat constructor; vm_compute; discriminate || reflexivity.
  - lia.
Defined.

(** The byte-wise loop of [patricia_lookup] computes the length of the
    longest common prefix of the two addresses, cut at [check_bit]. *)
Theorem first_differ_is_lcp a d (check : nat) :
  length a = 4%nat → length d = 4%nat → Forall is_byte a → Forall is_byte d → (check ≤ 32)%nat →
  first_differ a d (Z.of_nat check) = Ok (Z.of_nat (check `min` lcp (bits_of a) (bits_of d))).
Proof. intros. apply first_differ_correct; done || lia. Qed.

Lemma first_differ_is_lcp_witness :
  first_differ [10; 128; 0; 0] [10; 200; 0; 1] (Z.of_nat 32) =
    Ok (Z.of_nat (32 `min` lcp (bits_of [10; 128; 0; 0]) (bits_of [10; 200; 0; 1]))).
Proof.
  apply (first_differ_is_lcp [10; 128; 0; 0] [10; 200; 0; 1] 32).
  - reflexivity.
  - reflexivity.
  - repeat constructor; vm_compute; discriminate || reflexivity.
  - repeat constructor; vm_compute; discriminate || reflexivity.
  - lia.
Defined.
