(* ===== verification/ArraySearch.v ===== *)
(** * Binary search in an array ([Database_perf_test/array_test.c])

    [binarySearch] on a sorted [int] array, with the overflow behaviour of its
    index arithmetic, and the test program around it. *)

From stdpp Require Import base gmap list strings.
From Stdlib Require Import ZArith Lia.
From S2P Require Import Prelude PatMem PrefixCode.

Local Open Scope Z_scope.

(** [arr[i]]. *)
Definition arr_get (arr : list Z) (i : Z) : res Z :=
  if 0 <=? i then res_of BadAccess (arr !! Z.to_nat i) else Err BadAccess.

(** An [int] expression. *)
Definition int_expr (z : Z) : res Z := if int_ok z then Ok z else Err IntOverflow.

(** The recursion; [fuel] bounds its depth. *)
Fixpoint binarySearch_rec (fuel : nat) (arr : list Z) (l r x : Z) : res Z :=
  match fuel with
  | O => Err OutOfFuel
  | S fuel =>
      if l <=? r then
        d ← int_expr (r - l);
        mid ← int_expr (l + Z.quot d 2);
        a ← arr_get arr mid;
        if a =? x then mret mid
        else
          a ← arr_get arr mid;
          if x <? a then r' ← int_expr (mid - 1); binarySearch_rec fuel arr l r' x
          else l' ← int_expr (mid + 1); binarySearch_rec fuel arr l' r x
      else mret (-1)
  end.

(** The range halves at each call, so 33 calls are enough for any [int] range. *)
Definition binarySearch (arr : list Z) (l r x : Z) : res Z := binarySearch_rec 33 arr l r x.

(** [atoi]. *)
Definition atoi (s : list Z) : Z := i32 (atol s).

Definition MAX_CNT : Z := 100000.

(** [main], with [argv1] the first argument; the result is what is printed.
    The time measurement is compiled out. *)
Definition array_main (argv1 : option (list Z)) : res (list (list Z)) :=
  let find := default (cs "100") argv1 in
  let find_val := atoi find in
  let as_list := seqZ 1 MAX_CNT in
  let found := 0 in
  let n := MAX_CNT in
  let x := find_val in
  _ ← binarySearch as_list 0 (n - 1) x;
  let result := found in
  let out := if result =? -1 then [cs "Element is not present in array" ++ [10]]
             else [cs "Element is present at index " ++ fmt_d result ++ [10]] in
  let found := if negb (result =? -1) then 1 else found in
  let out := if negb (found =? 0) then out ++ [cs " value found : " ++ fmt_d find_val ++ [10]] else out in
  mret (out ++ [cs "Work Done " ++ [10]]).

(** ** Correctness *)

(** The array is sorted in the order of [int]. *)
Definition sorted (arr : list Z) : Prop :=
  ∀ i j a b, (i ≤ j)%nat → arr !! i = Some a → arr !! j = Some b → a ≤ b.

(** The result of a search for [x] between [l] and [r]. *)
Definition search_ok (arr : list Z) (l r x i : Z) : Prop :=
  (i = -1 ∧ ∀ j, l ≤ j ≤ r → arr !! Z.to_nat j ≠ Some x) ∨
  (l ≤ i ≤ r ∧ arr !! Z.to_nat i = Some x).

Lemma binarySearch_rec_spec fuel arr l r x :
  sorted arr → 0 ≤ l → r < Z.of_nat (length arr) → Z.of_nat (length arr) ≤ INT_MAX →
  -1 ≤ r → l ≤ INT_MAX → r - l + 1 < 2 ^ (Z.of_nat fuel - 1) → (0 < fuel)%nat →
  ∃ i, binarySearch_rec fuel arr l r x = Ok i ∧ search_ok arr l r x i.
Proof.
  intros Hs. revert l r. induction fuel as [|fuel IH]; intros l r Hl Hr Hlen Hr1 Hl1 Hf Hf0; [lia|].
  simpl. destruct (Z.leb_spec l r) as [Hlr|Hlr].
  2:{ exists (-1). split; [done|]. left. split; [done|]. intros j Hj. lia. }
  assert (∀ z, -1 ≤ z ≤ INT_MAX → int_expr z = Ok z) as Hint.
  { intros z Hz. unfold int_expr. rewrite int_ok_true; [done|]. unfold is_int, INT_MIN. lia. }
  rewrite Hint by lia. simpl. rewrite (Z.quot_div_nonneg (r - l) 2) by lia.
  set (mid := l + (r - l) / 2).
  assert (l ≤ mid ≤ r) as Hmid.
  { unfold mid. pose proof (Z.div_pos (r - l) 2). pose proof (Z.div_le_upper_bound (r - l) 2 (r - l)). lia. }
  rewrite (Hint mid) by lia. simpl. unfold arr_get. rewrite (proj2 (Z.leb_le 0 mid)) by lia.
  destruct (lookup_lt_is_Some_2 arr (Z.to_nat mid)) as [a Ha]; [lia|]. rewrite Ha. simpl.
  destruct (Z.eqb_spec a x) as [->|Hne].
  { exists mid. split; [done|]. right. done. }
  assert (2 ^ (Z.of_nat (S fuel) - 1) = 2 * 2 ^ (Z.of_nat fuel - 1)) as Hpow.
  { destruct fuel as [|fuel']; [simpl in Hf; lia|].
    replace (Z.of_nat (S (S fuel')) - 1) with (Z.succ (Z.of_nat (S fuel') - 1)) by lia.
    apply Z.pow_succ_r. lia. }
  assert (0 < fuel)%nat as Hf1 by (destruct fuel; [simpl in Hf|]; lia).
  pose proof (Z.div_mod (r - l) 2 ltac:(lia)) as Hdm. pose proof (Z.mod_pos_bound (r - l) 2 ltac:(lia)).
  destruct (Z.ltb_spec x a) as [Hlt|Hge].
  - rewrite (Hint (mid - 1)) by lia. simpl.
    destruct (IH l (mid - 1)) as (i & E & Hi); [lia..|unfold mid; lia|done|]. exists i. split; [done|].
    destruct Hi as [[-> Hno]|[Hi Hx]]; [left|right; split; [lia|done]]. split; [done|].
    intros j Hj Hx. destruct (decide (j ≤ mid - 1)); [apply (Hno j); [lia|done]|].
    pose proof (Hs (Z.to_nat mid) (Z.to_nat j) a x ltac:(lia) Ha Hx). lia.
  - rewrite (Hint (mid + 1)) by lia. simpl.
    destruct (IH (mid + 1) r) as (i & E & Hi); [lia..|unfold mid; lia|done|]. exists i. split; [done|].
    destruct Hi as [[-> Hno]|[Hi Hx]]; [left|right; split; [lia|done]]. split; [done|].
    intros j Hj Hx. destruct (decide (mid + 1 ≤ j)); [apply (Hno j); [lia|done]|].
    pose proof (Hs (Z.to_nat j) (Z.to_nat mid) x a ltac:(lia) Hx Ha). lia.
Qed.

Lemma sorted_seqZ n : sorted (seqZ 1 n).
Proof.
  intros i j a b Hij [-> _]%lookup_seqZ [-> _]%lookup_seqZ. lia.
Qed.

(** [binarySearch] on a whole sorted array returns the index of an element
    equal to [x] when there is one and -1 when there is none; it terminates,
    reads only inside the array, and its index arithmetic cannot overflow. *)
Theorem binarySearch_correct arr x :
  sorted arr → Z.of_nat (length arr) ≤ INT_MAX →
  ∃ i, binarySearch arr 0 (Z.of_nat (length arr) - 1) x = Ok i ∧
    (i = -1 ∧ x ∉ arr ∨ 0 ≤ i ∧ arr !! Z.to_nat i = Some x).
Proof.
  intros Hs Hlen. unfold binarySearch.
  destruct (binarySearch_rec_spec 33 arr 0 (Z.of_nat (length arr) - 1) x) as (i & E & Hi);
    [done|lia|lia|done|lia|unfold INT_MAX; lia| |lia|].
  { change (2 ^ (Z.of_nat 33 - 1)) with 4294967296. unfold INT_MAX in Hlen. lia. }
  exists i. split; [done|]. destruct Hi as [[-> Hno]|[Hi Hx]]; [left|right; split; [lia|done]].
  split; [done|]. intros (j & Hj)%list_elem_of_lookup. apply (Hno (Z.of_nat j)).
  - apply lookup_lt_Some in Hj. lia.
  - by rewrite Nat2Z.id.
Qed.

Lemma binarySearch_correct_witness :
  ∃ i, binarySearch [2; 3; 4; 10; 40] 0 (Z.of_nat (length [2; 3; 4; 10; 40]) - 1) 10 = Ok i ∧
    (i = -1 ∧ 10 ∉ [2; 3; 4; 10; 40] ∨ 0 ≤ i ∧ [2; 3; 4; 10; 40] !! Z.to_nat i = Some 10).
Proof.
  apply (binarySearch_correct [2; 3; 4; 10; 40] 10).
  - intros [|[|[|[|[|i]]]]] [|[|[|[|[|j]]]]] a b Hij Ha Hb; simpl in *; simplify_eq; lia.
  - by vm_compute.
Defined.

(** The test program reports index 0 whatever value is searched: [main]
    overwrites the result of [binarySearch] with the flag [found], which is
    still 0, and then reports the value as found. *)
Theorem array_main_always_index_0 argv1 :
  array_main argv1 = Ok [cs "Element is present at index 0" ++ [10];
    cs " value found : " ++ fmt_d (atoi (default (cs "100") argv1)) ++ [10];
    cs "Work Done " ++ [10]].
Proof.
  unfold array_main.
  destruct (binarySearch_rec_spec 33 (seqZ 1 MAX_CNT) 0 (MAX_CNT - 1) (atoi (default (cs "100") argv1)))
    as (i & E & _); try (rewrite ?length_seqZ; unfold MAX_CNT, INT_MAX; lia).
  { apply sorted_seqZ. }
  unfold binarySearch. unfold mbind at 1, res_bind at 1. rewrite E. done.
Qed.
