(* ===== verification/DigitTrie.v ===== *)
(** * The digit trie ([Database_perf_test/trie_test.c])

    A ten-way trie of decimal strings in a heap of nodes.  The heap invariant
    is stated on paths: distinct words lead to distinct live nodes. *)

From stdpp Require Import base gmap list strings.
From Stdlib Require Import ZArith Lia.
From S2P Require Import Prelude PatMem PrefixCode ArraySearch.

Local Open Scope Z_scope.

(** ** The code *)
Definition N_children : nat := 10.

Record TrieNode := TNode { tdata : Z; children : list ptr; is_leaf : Z }.

Record tmem := TMem { t_node : gmap loc TrieNode; t_out : list (list Z) }.

Definition t_printf (s : list Z) : M tmem unit :=
  modify (λ m, TMem (t_node m) (t_out m ++ [s])).

Definition t_get (p : ptr) : M tmem TrieNode := λ m,
  match p ≫= λ a, t_node m !! a with Some n => Ok (n, m) | None => Err BadAccess end.
Definition t_set (a : loc) (n : TrieNode) : M tmem unit :=
  modify (λ m, TMem (<[a := n]> (t_node m)) (t_out m)).
Definition t_upd (p : ptr) (f : TrieNode → TrieNode) : M tmem unit :=
  n ← t_get p; match p with Some a => t_set a (f n) | None => fail BadAccess end.

(** [node->children[idx]], read and written; [idx] must be in range. *)
Definition get_child (n : TrieNode) (idx : Z) : M tmem ptr :=
  if 0 <=? idx then from_option_or BadAccess (children n !! Z.to_nat idx) else fail BadAccess.
Definition set_child (idx : Z) (p : ptr) (n : TrieNode) : TrieNode :=
  TNode (tdata n) (<[Z.to_nat idx := p]> (children n)) (is_leaf n).

Definition make_trienode (d : Z) : M tmem ptr := λ m,
  let a := fresh (dom (t_node m)) in
  Ok (Some a, TMem (<[a := TNode d (replicate N_children NULL) 0]> (t_node m)) (t_out m)).

(** [free (node)]. *)
Definition t_free (p : ptr) : M tmem unit := λ m,
  match p with
  | None => Ok (tt, m)
  | Some a => match t_node m !! a with
              | Some _ => Ok (tt, TMem (delete a (t_node m)) (t_out m))
              | None => Err BadAccess
              end
  end.

Fixpoint free_trienode (fuel : nat) (node : ptr) : M tmem unit :=
  match fuel with
  | O => fail OutOfFuel
  | S fuel =>
      (fix loop (ks : list nat) : M tmem unit :=
         match ks with
         | [] => mret tt
         | i :: ks =>
             n ← t_get node;
             c ← get_child n (Z.of_nat i);
             (match c with Some _ => free_trienode fuel c | None => mret tt end);;
             loop ks
         end) (seq 0 N_children);;
      t_free node
  end.

(** The loop of [insert_trie]: the node reached at the end of the word. *)
Fixpoint insert_loop (temp : ptr) (word : list Z) : M tmem ptr :=
  match word with
  | [] => mret temp
  | c :: word =>
      let idx := c - 48 in
      n ← t_get temp;
      ch ← get_child n idx;
      (match ch with
       | None => p ← make_trienode c; t_upd temp (set_child idx p)
       | Some _ => mret tt
       end);;
      n ← t_get temp;
      temp ← get_child n idx;
      insert_loop temp word
  end.

Definition insert_trie (root : ptr) (word : list Z) : M tmem ptr :=
  temp ← insert_loop root word;
  t_upd temp (λ n, TNode (tdata n) (children n) 1);;
  mret root.

Fixpoint search_loop (temp : ptr) (word : list Z) : M tmem Z :=
  match word with
  | [] => match temp with
          | None => mret 0
          | Some _ => n ← t_get temp; mret (if is_leaf n =? 1 then 1 else 0)
          end
  | c :: word =>
      n ← t_get temp;
      ch ← get_child n (c - 48);
      match ch with None => mret 0 | Some _ => search_loop ch word end
  end.
Definition search_trie (root : ptr) (word : list Z) : M tmem Z := search_loop root word.

Fixpoint print_trie (fuel : nat) (root : ptr) : M tmem unit :=
  match root, fuel with
  | None, _ => mret tt
  | Some _, O => fail OutOfFuel
  | Some _, S fuel =>
      n ← t_get root;
      t_printf ([tdata n] ++ cs " -> ");;
      (fix loop (ks : list nat) : M tmem unit :=
         match ks with
         | [] => mret tt
         | i :: ks => c ← get_child n (Z.of_nat i); print_trie fuel c;; loop ks
         end) (seq 0 N_children)
  end.

Definition print_search (root : ptr) (word : list Z) : M tmem unit :=
  t_printf (cs "Searching for " ++ word ++ cs ": ");;
  r ← search_trie root word;
  if r =? 0 then t_printf (cs "Not Found" ++ [10]) else t_printf (cs "Found!" ++ [10]).

(** The insertion loop of [main], for the numbers [ks]. *)
Fixpoint load_numbers (root : ptr) (ks : list Z) : M tmem ptr :=
  match ks with
  | [] => mret root
  | i :: ks => root ← insert_trie root (fmt_d i); load_numbers root ks
  end.

(** The query loop; each element of [lines] is a line of input.  [in] has ten
    characters, so a longer line overflows it.  At the end of the input [gets]
    leaves [in] as it is and the loop goes on forever. *)
Fixpoint query_loop (root : ptr) (lines : list (list Z)) : M tmem unit :=
  t_printf (cs "AS number? for testing perf" ++ [10]);;
  match lines with
  | [] => fail OutOfFuel
  | line :: lines =>
      if decide (length line < 10)%nat then
        let id := u32 (atoi line) in
        _ ← search_trie root line;
        if id =? 0 then mret tt else query_loop root lines
      else fail BadAccess
  end.

Definition trie_main (lines : list (list Z)) : M tmem unit :=
  let max_int := 100000 in
  root ← make_trienode 0;
  root ← load_numbers root (seqZ 0 max_int);
  query_loop root lines;;
  t_printf (cs "Work Done " ++ [10]).

(** ** Paths *)
Definition digit (c : Z) : Prop := 48 ≤ c ≤ 57.

Definition step (h : gmap loc TrieNode) (a : loc) (c : Z) : option loc :=
  h !! a ≫= λ n, children n !! Z.to_nat (c - 48) ≫= id.
Fixpoint walk (h : gmap loc TrieNode) (a : loc) (w : list Z) : option loc :=
  match w with [] => Some a | c :: w => step h a c ≫= λ b, walk h b w end.

(** Distinct words lead to distinct live nodes with ten children. *)
Record trie_inv (h : gmap loc TrieNode) (root : loc) : Prop := {
  ti_live w a : Forall digit w → walk h root w = Some a →
    ∃ n, h !! a = Some n ∧ length (children n) = N_children;
  ti_inj w w' a : Forall digit w → Forall digit w' →
    walk h root w = Some a → walk h root w' = Some a → w = w'
}.

(** The words in the trie. *)
Definition in_trie (h : gmap loc TrieNode) (root : loc) (w : list Z) : Prop :=
  ∃ a n, walk h root w = Some a ∧ h !! a = Some n ∧ is_leaf n = 1.

Lemma walk_snoc h a w c : walk h a (w ++ [c]) = walk h a w ≫= λ b, step h b c.
Proof.
  revert a. induction w as [|d w IH]; intros a; simpl; [by destruct (step h a c)|].
  destruct (step h a d); simpl; [apply IH|done].
Qed.

Lemma digit_idx c c' : digit c → digit c' → Z.to_nat (c - 48) = Z.to_nat (c' - 48) → c = c'.
Proof. unfold digit. lia. Qed.

Section extend.
Context (h : gmap loc TrieNode) (root a b : loc) (u : list Z) (c : Z) (n : TrieNode).
Context (HI : trie_inv h root) (Hu : Forall digit u) (Hc : digit c) (Ha : walk h root u = Some a).
Context (Hn : h !! a = Some n) (Hnone : children n !! Z.to_nat (c - 48) = Some NULL).
Context (Hb : h !! b = None).

(** The heap after a child was added at [a] for the character [c]. *)
Definition extended : gmap loc TrieNode :=
  <[a := set_child (c - 48) (Some b) n]> (<[b := TNode c (replicate N_children NULL) 0]> h).

Lemma ab_ne : a ≠ b.
Proof using Hn Hb. congruence. Qed.

Lemma step_new d : step extended b d = None.
Proof using Hn Hb.
  unfold step, extended. rewrite lookup_insert_ne by apply ab_ne. rewrite lookup_insert_eq. simpl.
  destruct (Z.to_nat (d - 48)) as [|[|[|[|[|[|[|[|[|[|k]]]]]]]]]]; done.
Qed.

Lemma step_other a' d : a' ≠ b → (a' ≠ a ∨ d ≠ c) → digit d → step extended a' d = step h a' d.
Proof using Hn Hb Hc.
  intros Hne Hor Hd. unfold step, extended. destruct (decide (a' = a)) as [->|Hna].
  - rewrite lookup_insert_eq, Hn. simpl. rewrite list_lookup_insert_ne; [done|].
    intros E. apply digit_idx in E; [|done..]. destruct Hor; congruence.
  - by rewrite !lookup_insert_ne.
Qed.

Lemma walk_extended v : Forall digit v →
  walk extended root v = if decide (v = u ++ [c]) then Some b else walk h root v.
Proof using All.
  induction v as [|d v IH] using rev_ind; intros Hv.
  { rewrite decide_False; [done|]. by destruct u. }
  apply Forall_app in Hv as [Hv Hd]. apply Forall_cons in Hd as [Hd _]. specialize (IH Hv).
  rewrite !walk_snoc, IH. destruct (decide (v = u ++ [c])) as [->|Hne].
  - simpl. rewrite step_new. rewrite decide_False.
    + rewrite walk_snoc, Ha. simpl. unfold step at 2. rewrite Hn. simpl. by rewrite Hnone.
    + intros E. apply (f_equal length) in E. rewrite !length_app in E. simpl in E. lia.
  - destruct (walk h root v) as [a'|] eqn:Ev; simpl.
    2:{ rewrite decide_False; [done|]. intros E. apply app_inj_2 in E as [-> _]; [congruence|done]. }
    destruct (ti_live _ _ HI v a' Hv Ev) as (n' & Hn' & _).
    destruct (decide (v ++ [d] = u ++ [c])) as [E|Hne'].
    + apply app_inj_2 in E as [-> [= ->]]; [|done]. assert (a' = a) as -> by congruence. unfold step, extended. rewrite lookup_insert_eq. simpl.
      rewrite list_lookup_insert_eq; [done|]. by eapply lookup_lt_Some.
    + apply step_other; [congruence| |done]. destruct (decide (a' = a)) as [->|]; [right|by left].
      intros ->. apply Hne'. f_equal. by eapply (ti_inj _ _ HI).
Qed.

Lemma extended_inv : trie_inv extended root.
Proof using All.
  assert (∀ a' n', h !! a' = Some n' → length (children n') = N_children →
    ∃ n'', extended !! a' = Some n'' ∧ length (children n'') = N_children) as Hlive.
  { intros a' n' H1 H2. unfold extended. destruct (decide (a' = a)) as [->|].
    - rewrite lookup_insert_eq. eexists. split; [done|]. simpl. rewrite length_insert. congruence.
    - rewrite !lookup_insert_ne by congruence. eauto. }
  split.
  - intros w a' Hw. rewrite walk_extended by done. destruct (decide (w = u ++ [c])) as [->|_].
    + intros [= <-]. unfold extended. rewrite lookup_insert_ne by apply ab_ne.
      rewrite lookup_insert_eq. eexists. split; [done|]. done.
    + intros E. destruct (ti_live _ _ HI w a' Hw E) as (n' & H1 & H2). by eapply Hlive.
  - intros w w' a' Hw Hw'. rewrite !walk_extended by done.
    destruct (decide (w = u ++ [c])) as [->|Hne], (decide (w' = u ++ [c])) as [->|Hne']; [done|..].
    + intros [= <-] E. destruct (ti_live _ _ HI w' b Hw' E) as (n' & H1 & _). congruence.
    + intros E [= <-]. destruct (ti_live _ _ HI w b Hw E) as (n' & H1 & _). congruence.
    + by apply (ti_inj _ _ HI).
Qed.

Lemma extended_in_trie v : Forall digit v → in_trie extended root v ↔ in_trie h root v.
Proof using All.
  intros Hv. unfold in_trie. rewrite walk_extended by done. destruct (decide (v = u ++ [c])) as [->|Hne].
  - split.
    + intros (a' & n' & [= <-] & H1 & H2). unfold extended in H1.
      rewrite lookup_insert_ne, lookup_insert_eq in H1 by apply ab_ne. by simplify_eq.
    + intros (a' & n' & E & _). rewrite walk_snoc, Ha in E. simpl in E. unfold step in E.
      rewrite Hn in E. simpl in E. by rewrite Hnone in E.
  - assert (∀ a', walk h root v = Some a' → (∃ n'', extended !! a' = Some n'' ∧ is_leaf n'' = 1) ↔
      (∃ n'', h !! a' = Some n'' ∧ is_leaf n'' = 1)) as Heq.
    { intros a' E. destruct (ti_live _ _ HI v a' Hv E) as (n1 & H1 & _). unfold extended.
      destruct (decide (a' = a)) as [->|].
      - rewrite lookup_insert_eq, Hn. split; intros (n2 & [= <-] & H2); eexists; (split; [done|]); done.
      - by rewrite !lookup_insert_ne by congruence. }
    split; intros (a' & n' & E & H1 & H2); exists a'; destruct (Heq a' E) as [P1 P2].
    + destruct P1 as (n'' & ? & ?); [eauto|]. eauto.
    + destruct P2 as (n'' & ? & ?); [eauto|]. eauto.
Qed.
End extend.

(** Setting the leaf flag of a node changes no path. *)
Lemma walk_leaf h root a n x w : h !! a = Some n →
  walk (<[a := TNode (tdata n) (children n) x]> h) root w = walk h root w.
Proof.
  intros Hn. revert root. induction w as [|c w IH]; intros root; simpl; [done|].
  assert (step (<[a := TNode (tdata n) (children n) x]> h) root c = step h root c) as ->.
  { unfold step. destruct (decide (root = a)) as [->|]; [by rewrite lookup_insert_eq, Hn|].
    by rewrite lookup_insert_ne. }
  destruct (step h root c); simpl; [apply IH|done].
Qed.

(** ** The operations *)

Lemma runs_t_get m a n (Q : TrieNode → tmem → Prop) :
  t_node m !! a = Some n → Q n m → runs (t_get (Some a)) m Q.
Proof. intros H HQ. exists n, m. unfold t_get. simpl. by rewrite H. Qed.

Lemma runs_get_child m n c p (Q : ptr → tmem → Prop) :
  digit c → children n !! Z.to_nat (c - 48) = Some p → Q p m → runs (get_child n (c - 48)) m Q.
Proof.
  intros Hc H HQ. unfold get_child. unfold digit in Hc. rewrite (proj2 (Z.leb_le 0 (c - 48))) by lia.
  by eapply runs_from_option.
Qed.

Lemma child_exists n c : digit c → length (children n) = N_children →
  ∃ p, children n !! Z.to_nat (c - 48) = Some p.
Proof. intros Hc Hl. apply lookup_lt_is_Some_2. unfold digit in Hc. rewrite Hl. unfold N_children. lia. Qed.

Lemma insert_loop_spec root w : ∀ u a m,
  trie_inv (t_node m) root → Forall digit u → Forall digit w → walk (t_node m) root u = Some a →
  runs (insert_loop (Some a) w) m (λ r m', ∃ b, r = Some b ∧ trie_inv (t_node m') root ∧
    walk (t_node m') root (u ++ w) = Some b ∧
    ∀ v, Forall digit v → in_trie (t_node m') root v ↔ in_trie (t_node m) root v).
Proof.
  induction w as [|c w IH]; intros u a m HI Hu Hw Ha; simpl.
  { cstep. exists a. by rewrite app_nil_r. }
  apply Forall_cons in Hw as [Hc Hw]. destruct (ti_live _ _ HI u a Hu Ha) as (n & Hn & Hl).
  destruct (child_exists n c Hc Hl) as [p Hp].
  assert (Forall digit (u ++ [c])) as Huc by (apply Forall_app; split; [done|by apply Forall_singleton]).
  assert (∀ v, u ++ c :: v = (u ++ [c]) ++ v) as Happ by (intros; by rewrite <-app_assoc).
  cstep. eapply runs_t_get; [done|]. cstep. eapply runs_get_child; [done..|].
  destruct p as [b|].
  - cstep. cstep. cstep. eapply runs_t_get; [done|]. cstep. eapply runs_get_child; [done..|].
    rewrite Happ. apply IH; try done. rewrite walk_snoc, Ha. simpl. unfold step. rewrite Hn. simpl.
    by rewrite Hp.
  - cstep. cstep. unfold make_trienode. set (b := fresh (dom (t_node m))).
    assert (t_node m !! b = None) as Hb by apply not_elem_of_dom, is_fresh.
    assert (b ≠ a) as Hba by (intros E; rewrite E in Hb; congruence).
    eexists _, _. split; [done|]. cbn beta. unfold t_upd. cstep.
    eapply runs_t_get; [simpl; rewrite lookup_insert_ne by exact Hba; done|].
    apply runs_modify. simpl. set (m1 := TMem _ _).
    assert (t_node m1 = extended (t_node m) a b c n) as Em1 by done.
    cstep. eapply runs_t_get; [apply lookup_insert_eq|]. cstep. eapply runs_get_child; [done| |].
    { simpl. apply list_lookup_insert_eq. by eapply lookup_lt_Some. }
    rewrite Happ. eapply runs_mono; [apply (IH (u ++ [c]) b m1); try done|].
    + rewrite Em1. by apply extended_inv with (u := u).
    + rewrite Em1, walk_extended with (u := u) by done. by rewrite decide_True.
    + intros r m2 (b' & -> & HI2 & Hw2 & Hin). exists b'. split_and!; [done..|].
      intros v Hv. rewrite Hin by done. rewrite Em1. by apply extended_in_trie with (u := u).
Qed.

Lemma insert_trie_spec root w m :
  trie_inv (t_node m) root → Forall digit w →
  runs (insert_trie (Some root) w) m (λ r m', r = Some root ∧ trie_inv (t_node m') root ∧
    ∀ v, Forall digit v → in_trie (t_node m') root v ↔ v = w ∨ in_trie (t_node m) root v).
Proof.
  intros HI Hw. unfold insert_trie. cstep. eapply runs_mono; [by apply (insert_loop_spec root w [])|].
  intros r m1 (b & -> & HI1 & Hb & Hin). simpl in Hb.
  destruct (ti_live _ _ HI1 w b Hw Hb) as (n & Hn & Hl).
  cstep. unfold t_upd. cstep. eapply runs_t_get; [done|]. apply runs_modify. cstep. simpl.
  split_and!; [done| |].
  - split.
    + intros v a Hv. rewrite walk_leaf by done. intros E.
      destruct (ti_live _ _ HI1 v a Hv E) as (n' & Hn' & Hl'). destruct (decide (a = b)) as [->|].
      * rewrite lookup_insert_eq. eauto.
      * rewrite lookup_insert_ne by done. eauto.
    + intros v v' a Hv Hv'. rewrite !walk_leaf by done. by apply (ti_inj _ _ HI1).
  - intros v Hv. rewrite <-Hin by done. unfold in_trie. rewrite walk_leaf by done. split.
    + intros (a & n' & E & H1 & H2). destruct (decide (a = b)) as [->|].
      * left. by eapply (ti_inj _ _ HI1).
      * right. rewrite lookup_insert_ne in H1 by done. eauto.
    + intros [->|(a & n' & E & H1 & H2)]; [exists b; rewrite lookup_insert_eq; eauto|].
      exists a. destruct (decide (a = b)) as [->|]; [rewrite lookup_insert_eq; eauto|].
      rewrite lookup_insert_ne by done. eauto.
Qed.

Lemma search_loop_spec root w : ∀ u a m,
  trie_inv (t_node m) root → Forall digit u → Forall digit w → walk (t_node m) root u = Some a →
  runs (search_loop (Some a) w) m (λ r m', m' = m ∧
    (r = 1 ∧ in_trie (t_node m) root (u ++ w) ∨ r = 0 ∧ ¬ in_trie (t_node m) root (u ++ w))).
Proof.
  induction w as [|c w IH]; intros u a m HI Hu Hw Ha; simpl;
    destruct (ti_live _ _ HI u a Hu Ha) as (n & Hn & Hl).
  - rewrite app_nil_r. cstep. eapply runs_t_get; [done|]. cstep. split; [done|]. unfold in_trie.
    destruct (Z.eqb_spec (is_leaf n) 1); [left|right]; split; try done; [by exists a, n|].
    intros (a' & n' & E & H1 & H2). congruence.
  - apply Forall_cons in Hw as [Hc Hw]. destruct (child_exists n c Hc Hl) as [p Hp].
    assert (walk (t_node m) root (u ++ [c]) = p) as Hp'.
    { rewrite walk_snoc, Ha. simpl. unfold step. rewrite Hn. simpl. by rewrite Hp. }
    cstep. eapply runs_t_get; [done|]. cstep. eapply runs_get_child; [done..|].
    replace (u ++ c :: w) with ((u ++ [c]) ++ w) by (by rewrite <-app_assoc).
    destruct p as [b|].
    + apply IH; try done. apply Forall_app; split; [done|by apply Forall_singleton].
    + cstep. split; [done|]. right. split; [done|]. intros (a' & n' & E & _).
      assert (∀ v w0, walk (t_node m) v w0 = None → ∀ w1, walk (t_node m) v (w0 ++ w1) = None) as Hnone.
      { intros v w0. revert v. induction w0 as [|d w0 IH0]; intros v; simpl; [done|].
        destruct (step (t_node m) v d); simpl; [apply IH0|done]. }
      by rewrite (Hnone _ _ Hp') in E.
Qed.

Lemma load_numbers_spec root ks m :
  trie_inv (t_node m) root → Forall (λ k, Forall digit (fmt_d k)) ks →
  runs (load_numbers (Some root) ks) m (λ r m', r = Some root ∧ trie_inv (t_node m') root ∧
    ∀ v, Forall digit v → in_trie (t_node m') root v ↔ v ∈ fmt_d <$> ks ∨ in_trie (t_node m) root v).
Proof.
  revert m. induction ks as [|k ks IH]; intros m HI Hks; simpl.
  { cstep. split_and!; [done..|]. intros v _. split; [by right|]. by intros [?%not_elem_of_nil|?]. }
  apply Forall_cons in Hks as [Hk Hks]. cstep. eapply runs_mono; [by apply insert_trie_spec|].
  intros r m1 (-> & HI1 & Hin1). eapply runs_mono; [by apply IH|].
  intros r m2 (-> & HI2 & Hin2). split_and!; [done..|]. intros v Hv. rewrite Hin2, Hin1 by done.
  rewrite elem_of_cons. tauto.
Qed.

Lemma dec_digits_digit fuel z acc : Forall digit acc → Forall digit (dec_digits fuel z acc).
Proof.
  revert z acc. induction fuel as [|fuel IH]; intros z acc Ha; simpl; [done|].
  assert (Forall digit ((48 + z mod 10) :: acc)).
  { apply Forall_cons. split; [|done]. unfold digit. pose proof (Z.mod_pos_bound z 10). lia. }
  destruct (z <? 10); [done|by apply IH].
Qed.

Lemma fmt_d_digit z : 0 ≤ z → Forall digit (fmt_d z).
Proof. intros Hz. unfold fmt_d. rewrite (proj2 (Z.ltb_ge z 0) Hz). by apply dec_digits_digit. Qed.
Lemma fmt_d_no_nul z : 0 ≤ z → 0 ∉ fmt_d z.
Proof.
  intros Hz Hin. pose proof (fmt_d_digit z Hz) as Hd. rewrite Forall_forall in Hd.
  specialize (Hd 0 Hin). unfold digit in Hd. lia.
Qed.

Lemma dec_digits_length fuel z n acc :
  0 ≤ z < 10 ^ Z.of_nat (S n) → (length (dec_digits fuel z acc) ≤ S n + length acc)%nat.
Proof.
  revert z n acc. induction fuel as [|fuel IH]; intros z n acc Hz; simpl; [lia|].
  destruct (Z.ltb_spec z 10); [simpl; lia|].
  destruct n as [|n]; [simpl in Hz; lia|].
  etransitivity; [apply (IH _ n)|simpl; lia].
  rewrite (Nat2Z.inj_succ (S n)), Z.pow_succ_r in Hz by lia.
  split; [apply Z.div_pos; lia|]. apply Z.div_lt_upper_bound; lia.
Qed.
Lemma fmt_d_pos z : (1 ≤ length (fmt_d z))%nat.
Proof.
  assert (∀ fuel z acc, (length acc < length (dec_digits (S fuel) z acc))%nat) as Hd.
  { induction fuel as [|fuel IH]; intros y acc; [simpl; destruct (y <? 10); simpl; lia|].
    cbn [dec_digits]. destruct (y <? 10); [simpl; lia|]. etransitivity; [|apply IH]. simpl. lia. }
  unfold fmt_d. destruct (z <? 0); [cbn [length]; lia|]. exact (Hd 19%nat z []).
Qed.
Lemma fmt_d_length z n : 0 ≤ z < 10 ^ Z.of_nat (S n) → (length (fmt_d z) ≤ S n)%nat.
Proof.
  intros Hz. unfold fmt_d. rewrite (proj2 (Z.ltb_ge z 0)) by lia.
  etransitivity; [by apply (dec_digits_length 20 z n [])|simpl; lia].
Qed.

(** A new root: the empty trie. *)
Lemma make_root_spec m d (Q : ptr → tmem → Prop) :
  (∀ root m', trie_inv (t_node m') root → (∀ v, ¬ in_trie (t_node m') root v) → Q (Some root) m') →
  runs (make_trienode d) m Q.
Proof.
  intros HQ. unfold make_trienode. set (a := fresh (dom (t_node m))). eexists _, _. split; [done|].
  set (h := <[a := TNode d (replicate N_children NULL) 0]> (t_node m)). apply HQ; cbn [t_node].
  - assert (∀ c, step h a c = None) as Hst.
    { intros c. unfold step, h. rewrite lookup_insert_eq. simpl.
      by destruct (Z.to_nat (c - 48)) as [|[|[|[|[|[|[|[|[|[|k]]]]]]]]]]. }
    assert (∀ w b, walk h a w = Some b → w = [] ∧ b = a) as Hw.
    { intros [|c w] b; simpl; [by intros [= <-]|]. by rewrite Hst. }
    split.
    + intros w b _ [_ ->]%Hw. unfold h. rewrite lookup_insert_eq. by eexists.
    + intros w w' b _ _ [-> _]%Hw [-> _]%Hw. done.
  - intros v (b & n & E & Hn & Hl). destruct v as [|c v]; simpl in E.
    + injection E as <-. unfold h in Hn. rewrite lookup_insert_eq in Hn. by simplify_eq.
    + unfold step, h in E. rewrite lookup_insert_eq in E. simpl in E.
      by destruct (Z.to_nat (c - 48)) as [|[|[|[|[|[|[|[|[|[|k]]]]]]]]]].
Qed.

(** In the trie the test program builds from the numbers below [n],
    [search_trie] of a decimal string answers 1 exactly for the decimal
    representations of those numbers, and 0 otherwise. *)
Theorem trie_load_search n w m :
  Forall digit w →
  ∃ r m', (root ← make_trienode 0; root ← load_numbers root (seqZ 0 n); search_trie root w) m = Ok (r, m') ∧
    (r = 0 ∨ r = 1) ∧ (r = 1 ↔ ∃ i, 0 ≤ i < n ∧ w = fmt_d i).
Proof.
  intros Hw.
  enough (runs (root ← make_trienode 0; root ← load_numbers root (seqZ 0 n); search_trie root w) m
    (λ r _, (r = 0 ∨ r = 1) ∧ (r = 1 ↔ ∃ i, 0 ≤ i < n ∧ w = fmt_d i))) as (r & m' & H) by eauto.
  cstep. apply make_root_spec. intros root m1 HI Hno. cstep. eapply runs_mono.
  { apply load_numbers_spec; [done|]. apply Forall_forall. intros k [? ?]%elem_of_seqZ. by apply fmt_d_digit. }
  intros r m2 (-> & HI2 & Hin). eapply runs_mono; [by apply (search_loop_spec root w [])|].
  intros r m3 (-> & Hr). simpl in Hr. rewrite Hin in Hr by done.
  assert (w ∈ fmt_d <$> seqZ 0 n ∨ in_trie (t_node m1) root w ↔ ∃ i, 0 ≤ i < n ∧ w = fmt_d i) as Heq.
  { split.
    - intros [(i & -> & Hi%elem_of_seqZ)%list_elem_of_fmap|?%Hno]; [|done]. exists i. split; [lia|done].
    - intros (i & Hi & ->). left. apply list_elem_of_fmap. exists i. split; [done|]. apply elem_of_seqZ. lia. }
  rewrite Heq in Hr. destruct Hr as [[-> H]|[-> H]]; [tauto|]. split; [by left|]. split; [done|tauto].
Qed.

Definition empty_tmem : tmem := TMem ∅ [].

Lemma trie_load_search_witness :
  ∃ r m', (root ← make_trienode 0; root ← load_numbers root (seqZ 0 20); search_trie root (cs "17")) empty_tmem
      = Ok (r, m') ∧
    (r = 0 ∨ r = 1) ∧ (r = 1 ↔ ∃ i, 0 ≤ i < 20 ∧ cs "17" = fmt_d i).
Proof.
  apply (trie_load_search 20 (cs "17") empty_tmem).
  repeat constructor; vm_compute; discriminate.
Defined.

(** [insert_trie] on a well-formed trie adds the word and nothing else, and
    keeps the trie well formed: distinct words lead to distinct live nodes. *)
Theorem insert_trie_adds root w m :
  trie_inv (t_node m) root → Forall digit w →
  ∃ m', insert_trie (Some root) w m = Ok (Some root, m') ∧ trie_inv (t_node m') root ∧
    ∀ v, Forall digit v → in_trie (t_node m') root v ↔ v = w ∨ in_trie (t_node m) root v.
Proof.
  intros HI Hw. destruct (insert_trie_spec root w m HI Hw) as (r & m' & E & -> & H). eauto.
Qed.

Definition ex_tnode : TrieNode := TNode 0 (replicate N_children NULL) 0.
Definition ex_tmem : tmem := TMem {[ 1%positive := ex_tnode ]} [].

Lemma ex_trie_inv : trie_inv (t_node ex_tmem) 1.
Proof.
  assert (∀ w b, walk (t_node ex_tmem) 1 w = Some b → w = [] ∧ b = 1%positive) as Hw.
  { intros [|c w] b; simpl; [by intros [= <-]|].
    unfold step. simpl. by destruct (Z.to_nat (c - 48)) as [|[|[|[|[|[|[|[|[|[|k]]]]]]]]]]. }
  split.
  - intros w b _ [_ ->]%Hw. by exists ex_tnode.
  - by intros w w' b _ _ [-> _]%Hw [-> _]%Hw.
Qed.

Lemma insert_trie_adds_witness :
  ∃ m', insert_trie (Some 1%positive) (cs "65001") ex_tmem = Ok (Some 1%positive, m') ∧
    trie_inv (t_node m') 1 ∧
    ∀ v, Forall digit v → in_trie (t_node m') 1 v ↔ v = cs "65001" ∨ in_trie (t_node ex_tmem) 1 v.
Proof.
  apply (insert_trie_adds 1 (cs "65001") ex_tmem).
  - exact ex_trie_inv.
  - repeat constructor; vm_compute; discriminate.
Defined.

(** A character that is not a digit indexes [children] out of bounds, both
    in [search_trie] and in [insert_trie]: the comment in the source allows
    lower-case words, but a node has ten children. *)
Theorem trie_nondigit_faults root n c w m :
  t_node m !! root = Some n → length (children n) = N_children → ¬ digit c →
  search_trie (Some root) (c :: w) m = Err BadAccess ∧
  insert_trie (Some root) (c :: w) m = Err BadAccess.
Proof.
  intros Hn Hl Hc.
  assert (∀ m, get_child n (c - 48) m = Err BadAccess) as Hg.
  { intros m1. unfold get_child. destruct (Z.leb_spec 0 (c - 48)); [|done].
    assert (children n !! Z.to_nat (c - 48) = None) as ->; [|done].
    apply lookup_ge_None. rewrite Hl. unfold N_children, digit in *. lia. }
  assert (t_get (Some root) m = Ok (n, m)) as Hget by (unfold t_get; simpl; by rewrite Hn).
  split.
  - unfold search_trie. simpl. rewrite (bind_ok _ _ _ _ _ Hget). by apply bind_err.
  - unfold insert_trie. apply bind_err. simpl. rewrite (bind_ok _ _ _ _ _ Hget). by apply bind_err.
Qed.

Lemma trie_nondigit_faults_witness :
  search_trie (Some 1%positive) (cs "as") ex_tmem = Err BadAccess ∧
  insert_trie (Some 1%positive) (cs "as") ex_tmem = Err BadAccess.
Proof.
  apply (trie_nondigit_faults 1 ex_tnode 97 [115] ex_tmem).
  - reflexivity.
  - reflexivity.
  - unfold digit. lia.
Defined.
