(* ===== verification/Game.v ===== *)
(** * The game of chance ([hacking_the_art_of_exploitation_booksrc/game_of_chance.c])

    A menu of three betting games over an account kept in a data file.  The
    state is the global [player], the data file (a list of whole [struct user]
    records), the remaining characters of standard input, the number of calls
    of [rand] so far, and what was printed.  [rand], the code address printed
    for debugging and the user id are parameters.  Using a variable that a
    failed [scanf] left unset is a fault, as is a write past [player.name]. *)

From stdpp Require Import base gmap list strings.
From Stdlib Require Import ZArith Lia.
From S2P Require Import Prelude PatMem PrefixCode ArraySearch.

Local Open Scope Z_scope.

(** ** State *)
Inductive game : Set := pick_a_number_ptr | dealer_no_match_ptr | find_the_ace_ptr.

(** [name] is the text before the NUL; [current_game] is [None] for a value
    that is not one of the three functions. *)
Record user := User {
  uid : Z; credits : Z; highscore : Z; name : list Z; current_game : option game
}.

Record gst := GSt {
  player : user;
  datafile : option (list user);   (* [None]: no file; creating it succeeds *)
  input : list Z;
  rand_i : nat;
  g_out : list (list Z)
}.

Definition set_player f s := GSt (f (player s)) (datafile s) (input s) (rand_i s) (g_out s).
Definition set_file f s := GSt (player s) f (input s) (rand_i s) (g_out s).
Definition set_input i s := GSt (player s) (datafile s) i (rand_i s) (g_out s).
Definition with_uid z u := User z (credits u) (highscore u) (name u) (current_game u).
Definition with_credits z u := User (uid u) z (highscore u) (name u) (current_game u).
Definition with_highscore z u := User (uid u) (credits u) z (name u) (current_game u).
Definition with_name z u := User (uid u) (credits u) (highscore u) z (current_game u).
Definition with_game z u := User (uid u) (credits u) (highscore u) (name u) z.

Definition nl : list Z := [10].
Definition tab : list Z := [9].
Definition say (s : list Z) : M gst unit :=
  modify (λ s', GSt (player s') (datafile s') (input s') (rand_i s') (g_out s' ++ [s])).
Definition fmt_u (z : Z) : list Z := fmt_d (u32 z).
(** [%2d]. *)
Definition fmt_2d (z : Z) : list Z := replicate (2 - length (fmt_d z)) 32 ++ fmt_d z.

(** [player.credits = z], an [int] computation. *)
Definition set_credits (z : Z) : M gst unit :=
  z ← chk_int z; modify (set_player (with_credits z)).

(** [fatal (message)]: prints and calls [exit (-1)]. *)
Definition fatal {A} (message : string) : M gst A :=
  say (cs "[!!] Fatal Error " ++ cs message);; fail (Exited (-1)).

(** ** Input *)

(** [scanf ("%c", &c)]; [None] at the end of input, where [c] is unchanged. *)
Definition scanf_c : M gst (option Z) := λ s,
  match input s with
  | [] => Ok (None, s)
  | c :: i => Ok (Some c, set_input i s)
  end.

Fixpoint skip_space (i : list Z) : list Z :=
  match i with c :: i' => if isspace c then skip_space i' else i | [] => [] end.
Fixpoint digits_of (i : list Z) : list Z * list Z :=
  match i with
  | c :: i' => if isdigit c then let '(d, r) := digits_of i' in (c :: d, r) else ([], i)
  | [] => ([], [])
  end.
Definition digits_val (d : list Z) : Z := fold_left (λ v c, v * 10 + (c - 48)) d 0.

(** [scanf ("%d", &n)]: the value stored (out-of-range values saturate as
    [strtol] does and are cut to an [int]), or [None] when there is no number. *)
Definition scanf_d : M gst (option Z) := λ s,
  let i := skip_space (input s) in
  let '(sgn, i) := match i with
                   | c :: i' => if c =? 45 then (-1, i') else if c =? 43 then (1, i') else (1, i)
                   | [] => (1, [])
                   end in
  let '(d, rest) := digits_of i in
  match d with
  | [] => Ok (None, set_input i s)
  | _ => Ok (Some (i32 (Z.max LONG_MIN (Z.min LONG_MAX (sgn * digits_val d)))), set_input rest s)
  end.

(** [c = '\n'; while (c == '\n') scanf ("%c", &c);] *)
Fixpoint flush_newlines (i : list Z) : option (Z * list Z) :=
  match i with
  | [] => None
  | c :: i => if c =? 10 then flush_newlines i else Some (c, i)
  end.
Definition read_char : M gst Z := λ s,
  match flush_newlines (input s) with
  | Some (c, i) => Ok (c, set_input i s)
  | None => Err OutOfFuel          (* at the end of input the loop never ends *)
  end.

(** The loop of [input_name]: characters up to the newline go to [player.name],
    which has room for 100 of them with the final NUL. *)
Fixpoint name_loop (n : nat) (c : Z) (i : list Z) : option (list Z * list Z) :=
  if decide (100 ≤ n)%nat then None
  else if c =? 10 then Some ([], i)
  else match i with
       | [] => None
       | c' :: i => '(s, r) ← name_loop (S n) c' i; Some (c :: s, r)
       end.
Definition input_name : M gst unit :=
  c ← read_char;
  s ← gets input;
  '(nm, rest) ← from_option_or BadAccess (name_loop 0 c s);
  modify (set_player (with_name nm));;
  modify (set_input rest).

Section code.
Context (rnd : nat → Z) (game_addr : option game → list Z) (getuid : Z).

(** [rand ()]. *)
Definition rand : M gst Z := λ s,
  Ok (rnd (rand_i s), GSt (player s) (datafile s) (input s) (S (rand_i s)) (g_out s)).

(** ** The data file *)

(** The first record with the given uid. *)
Fixpoint find_user (u : Z) (es : list user) : option user :=
  match es with
  | [] => None
  | e :: es => if uid e =? u then Some e else find_user u es
  end.

Definition get_player_data : M gst Z :=
  f ← gets datafile;
  match f with
  | None => mret (-1)
  | Some es =>
      match find_user getuid es with
      | None => mret (-1)
      | Some e => modify (set_player (λ _, e));; mret 1
      end
  end.

Definition register_new_player : M gst unit :=
  say (cs "-=-={ New Player Registration }=-=-" ++ nl);;
  say (cs "Enter your name: ");;
  input_name;;
  modify (set_player (with_uid getuid));;
  modify (set_player (λ u, with_highscore 100 (with_credits 100 u)));;
  p ← gets player;
  f ← gets datafile;
  modify (set_file (Some (default [] f ++ [p])));;
  say (nl ++ cs "Welcome to the Game of Chance " ++ name p ++ cs "." ++ nl);;
  say (cs "You have been given " ++ fmt_u (credits p) ++ cs " credits." ++ nl).

(** The records after the credits, high score and name of the first record with
    the uid of [p] were overwritten; [None] when the search runs past the end
    of the file, where it never stops. *)
Fixpoint write_user (p : user) (es : list user) : option (list user) :=
  match es with
  | [] => None
  | e :: es =>
      if uid e =? uid p
      then Some (User (uid e) (credits p) (highscore p) (name p) (current_game e) :: es)
      else es' ← write_user p es; Some (e :: es')
  end.

Definition update_player_data : M gst unit :=
  f ← gets datafile;
  match f with
  | None => fatal "in update_player_data() while opening file"
  | Some es =>
      p ← gets player;
      es' ← from_option_or OutOfFuel (write_user p es);
      modify (set_file (Some es'))
  end.

(** The loop of [show_highscore]; [top_score] is unsigned. *)
Fixpoint top_user (es : list user) (top_score : Z) (top_name : list Z) : Z * list Z :=
  match es with
  | [] => (top_score, top_name)
  | e :: es => if top_score <? u32 (highscore e) then top_user es (u32 (highscore e)) (name e)
               else top_user es top_score top_name
  end.

Definition show_highscore : M gst unit :=
  say (nl ++ cs "====================| HIGH SCORE |====================" ++ nl);;
  f ← gets datafile;
  match f with
  | None => fatal "in show_highscore() while opening file"
  | Some es =>
      let '(top_score, top_name) := top_user es 0 [] in
      p ← gets player;
      (if u32 (highscore p) <? top_score
       then say (top_name ++ cs " has the high score of " ++ fmt_d top_score ++ nl)
       else say (cs "You currently have the high score of " ++ fmt_u (highscore p) ++ cs " credits!" ++ nl));;
      say (cs "======================================================" ++ nl ++ nl)
  end.

(** ** The games *)
Definition jackpot : M gst unit :=
  say (cs "*+*+*+*+*+* JACKPOT *+*+*+*+*+*" ++ nl);;
  say (cs "You have won the jackpot of 100 credits!" ++ nl);;
  p ← gets player;
  set_credits (credits p + 100).

Definition print_cards (message : string) (cards : list Z) (user_pick : Z) : M gst unit :=
  say (nl ++ tab ++ cs "*** " ++ cs message ++ cs " ***" ++ nl);;
  say (cs "      " ++ tab ++ cs "._." ++ tab ++ cs "._." ++ tab ++ cs "._." ++ nl);;
  c0 ← from_option_or BadAccess (cards !! 0%nat);
  c1 ← from_option_or BadAccess (cards !! 1%nat);
  c2 ← from_option_or BadAccess (cards !! 2%nat);
  say (cs "Cards:" ++ tab ++ cs "|" ++ [c0] ++ cs "|" ++ tab ++ cs "|" ++ [c1] ++ cs "|" ++ tab ++
       cs "|" ++ [c2] ++ cs "|" ++ nl ++ tab);;
  if user_pick =? -1 then say (cs " 1 " ++ tab ++ cs " 2 " ++ tab ++ cs " 3" ++ nl)
  else say (replicate (Z.to_nat user_pick) 9);; say (cs " ^-- your pick" ++ nl).

Definition take_wager (available_credits previous_wager : Z) : M gst Z :=
  say (cs "How many of your " ++ fmt_d available_credits ++ cs " credits would you like to wager?  ");;
  w ← scanf_d;
  wager ← from_option_or BadAccess w;
  if wager <? 1 then
    say (cs "Nice try, but you must wager a positive number!" ++ nl);; mret (-1)
  else
    total_wager ← chk_int (previous_wager + wager);
    if available_credits <? total_wager then
      say (cs "Your total wager of " ++ fmt_d total_wager ++ cs " is more than you have!" ++ nl);;
      say (cs "You only have " ++ fmt_d available_credits ++ cs " available credits, try again." ++ nl);;
      mret (-1)
    else mret wager.

(** [while (wager == -1) wager = take_wager (player.credits, prev);]  Each
    call consumes input, so the length of the input bounds the loop. *)
Fixpoint wager_loop (fuel : nat) (prev wager : Z) : M gst Z :=
  if wager =? -1 then
    match fuel with
    | O => fail OutOfFuel
    | S fuel => p ← gets player; w ← take_wager (credits p) prev; wager_loop fuel prev w
    end
  else mret wager.
Definition get_wager (prev : Z) : M gst Z :=
  i ← gets input; wager_loop (S (length i)) prev (-1).

Definition pick_a_number : M gst Z :=
  say (nl ++ cs "####### Pick a Number ######" ++ nl);;
  say (cs "This game costs 10 credits to play. Simply pick a number" ++ nl);;
  say (cs "between 1 and 20, and if you pick the winning number, you" ++ nl);;
  say (cs "will win the jackpot of 100 credits!" ++ nl ++ nl);;
  r ← rand;
  let winning_number := Z.rem r 20 + 1 in
  p ← gets player;
  if credits p <? 10 then
    say (cs "You only have " ++ fmt_d (credits p) ++ cs " credits. That's not enough to play!" ++ nl ++ nl);;
    mret (-1)
  else
    set_credits (credits p - 10);;
    say (cs "10 credits have been deducted from your account." ++ nl);;
    say (cs "Pick a number between 1 and 20: ");;
    pk ← scanf_d;
    pick ← from_option_or BadAccess pk;
    say (cs "The winning number is " ++ fmt_d winning_number ++ nl);;
    (if pick =? winning_number then jackpot
     else say (cs "Sorry, you didn't win." ++ nl));;
    mret 0.

(** [for (i = 0; i < 16; i++) { numbers[i] = rand () % 100; ... }] *)
Fixpoint deal (n i : nat) : M gst (list Z) :=
  match n with
  | O => mret []
  | S n =>
      r ← rand;
      let x := Z.rem r 100 in
      say (fmt_2d x ++ tab);;
      (if (i mod 8 =? 7)%nat then say nl else mret tt);;
      xs ← deal n (S i);
      mret (x :: xs)
  end.

(** The two loops that look for a match: the last one found, or -1. *)
Fixpoint match_inner (x : Z) (xs : list Z) (m : Z) : Z :=
  match xs with [] => m | y :: xs => match_inner x xs (if x =? y then x else m) end.
Fixpoint match_loop (xs : list Z) (m : Z) : Z :=
  match xs with [] => m | x :: xs => match_loop xs (match_inner x xs m) end.

Definition dealer_no_match : M gst Z :=
  say (nl ++ cs "::::::: No Match Dealer :::::::" ++ nl);;
  say (cs "In this game, you can wager up to all of your credits." ++ nl);;
  say (cs "The dealer will deal out 16 random numbers between 0 and 99." ++ nl);;
  say (cs "If there are no matches among them, you double your money!" ++ nl ++ nl);;
  p ← gets player;
  if credits p =? 0 then
    say (cs "You don't have any credits to wager!" ++ nl ++ nl);; mret (-1)
  else
    wager ← get_wager 0;
    say (tab ++ tab ++ cs "::: Dealing out 16 random numbers :::" ++ nl);;
    numbers ← deal 16 0;
    let m := match_loop numbers (-1) in
    p ← gets player;
    (if negb (m =? -1) then
       say (cs "The dealer matched the number " ++ fmt_d m ++ cs "!" ++ nl);;
       say (cs "You lose " ++ fmt_d wager ++ cs " credits." ++ nl);;
       set_credits (credits p - wager)
     else
       say (cs "There were no matches! You win " ++ fmt_d wager ++ cs " credits!" ++ nl);;
       set_credits (credits p + wager));;
    mret 0.

(** [while ((pick < 1) || (pick > 3)) ...]; a failed [scanf] leaves [pick]. *)
Fixpoint pick_loop (fuel : nat) (pick : Z) : M gst Z :=
  if (pick <? 1) || (3 <? pick) then
    match fuel with
    | O => fail OutOfFuel
    | S fuel =>
        say (cs "Select a card: 1, 2, or 3  ");;
        p ← scanf_d;
        pick_loop fuel (default pick p)
    end
  else mret pick.

(** [i = 0; while (i == ace || i == pick) i++;] *)
Fixpoint queen_loop (fuel : nat) (ace pick i : Z) : Z :=
  match fuel with
  | O => i
  | S fuel => if (i =? ace) || (i =? pick) then queen_loop fuel ace pick (i + 1) else i
  end.

(** [i = 0; while (i == pick || cards[i] == 'Q') i++;] *)
Fixpoint other_loop (fuel : nat) (cards : list Z) (pick i : Z) : res Z :=
  match fuel with
  | O => Err OutOfFuel
  | S fuel =>
      if i =? pick then other_loop fuel cards pick (i + 1)
      else
        c ← res_of BadAccess (cards !! Z.to_nat i);
        if c =? 81 then other_loop fuel cards pick (i + 1) else mret i
  end.

(** The second choice: the new pick and the second wager (-1 for none).  Both
    [if]s test the same character. *)
Fixpoint choice_loop (fuel : nat) (cards : list Z) (pick wager_one : Z) : M gst (Z * Z) :=
  match fuel with
  | O => fail OutOfFuel
  | S fuel =>
      say (cs "Would you like to:" ++ nl ++ cs "[c]hange your pick" ++ tab ++ cs "or" ++ tab ++
           cs "[i]ncrease your wager?" ++ nl);;
      say (cs "Select c or i:  ");;
      c ← read_char;
      if c =? 105 then
        wager_two ← get_wager wager_one;
        mret (pick, wager_two)
      else if c =? 99 then
        i ← lift (other_loop 4 cards pick 0);
        say (cs "Your card pick has been changed to card " ++ fmt_d (i + 1) ++ nl);;
        mret (i, -1)
      else choice_loop fuel cards pick wager_one
  end.

(** The wagers are won or lost one after the other. *)
Definition settle (sgn wager_one wager_two : Z) (first : string) : M gst unit :=
  say (cs first ++ fmt_d wager_one ++ cs " credits from your first wager" ++ nl);;
  p ← gets player;
  set_credits (credits p + sgn * wager_one);;
  if negb (wager_two =? -1) then
    say (cs "and an additional " ++ fmt_d wager_two ++ cs " credits from your second wager!" ++ nl);;
    p ← gets player;
    set_credits (credits p + sgn * wager_two)
  else mret tt.

Definition find_the_ace : M gst Z :=
  r ← rand;
  let ace := Z.rem r 3 in
  let cards := [88; 88; 88] in
  say (cs "******* Find the Ace *******" ++ nl);;
  say (cs "In this game, you can wager up to all of your credits." ++ nl);;
  say (cs "Three cards will be dealt out, two queens and one ace." ++ nl);;
  say (cs "If you find the ace, you will win your wager." ++ nl);;
  say (cs "After choosing a card, one of the queens will be revealed." ++ nl);;
  say (cs "At this point, you may either select a different card or" ++ nl);;
  say (cs "increase your wager." ++ nl ++ nl);;
  p ← gets player;
  if credits p =? 0 then
    say (cs "You don't have any credits to wager!" ++ nl ++ nl);; mret (-1)
  else
    wager_one ← get_wager 0;
    print_cards "Dealing cards" cards (-1);;
    inp ← gets input;
    pick ← pick_loop (S (length inp)) (-1);
    let pick := pick - 1 in
    let i := queen_loop 3 ace pick 0 in
    (if decide (0 ≤ i < 3) then mret tt else fail BadAccess);;
    let cards := <[Z.to_nat i := 81]> cards in
    print_cards "Revealing a queen" cards pick;;
    inp ← gets input;
    '(pick, wager_two) ← choice_loop (S (length inp)) cards pick wager_one;
    let cards := (λ i, if ace =? i then 65 else 81) <$> [0; 1; 2] in
    print_cards "End result" cards pick;;
    (if pick =? ace then settle 1 wager_one wager_two "You have won "
     else settle (-1) wager_one wager_two "You have lost ");;
    mret 0.

(** ** Playing *)
Definition call_game (g : option game) : M gst Z :=
  match g with
  | Some pick_a_number_ptr => pick_a_number
  | Some dealer_no_match_ptr => dealer_no_match
  | Some find_the_ace_ptr => find_the_ace
  | None => fail BadAccess
  end.

Fixpoint play_loop (fuel : nat) : M gst unit :=
  match fuel with
  | O => fail OutOfFuel
  | S fuel =>
      p ← gets player;
      say (nl ++ cs "[DEBUG] current_game pointer @ 0x" ++ game_addr (current_game p) ++ nl);;
      r ← call_game (current_game p);
      if negb (r =? -1) then
        p ← gets player;
        (if highscore p <? credits p then modify (set_player (with_highscore (credits p))) else mret tt);;
        p ← gets player;
        say (nl ++ cs "You now have " ++ fmt_u (credits p) ++ cs " credits" ++ nl);;
        update_player_data;;
        say (cs "Would you like to play again? (y/n)  ");;
        selection ← read_char;
        if selection =? 110 then mret tt else play_loop fuel
      else mret tt
  end.
Definition play_the_game : M gst unit := i ← gets input; play_loop (S (length i)).

Definition show_menu : M gst unit :=
  say (cs "-=[ Game of Chance Menu ]=-" ++ nl);;
  say (cs "1 - Play the Pick a Number game" ++ nl);;
  say (cs "2 - Play the No Match Dealer game" ++ nl);;
  say (cs "3 - Play the Find the Ace game" ++ nl);;
  say (cs "4 - View current high score" ++ nl);;
  say (cs "5 - Change your user name" ++ nl);;
  say (cs "6 - Reset your account at 100 credits" ++ nl);;
  say (cs "7 - Quit" ++ nl);;
  p ← gets player;
  say (cs "[Name: " ++ name p ++ cs "]" ++ nl);;
  say (cs "[You have " ++ fmt_u (credits p) ++ cs " credits] ->  ").

(** The menu loop.  [choice] and [last_game] start with whatever the stack
    holds. *)
Fixpoint menu_loop (fuel : nat) (choice last_game : Z) : M gst unit :=
  if choice =? 7 then mret tt
  else
    match fuel with
    | O => fail OutOfFuel
    | S fuel =>
        show_menu;;
        c ← scanf_d;
        let choice := default choice c in
        if (choice <? 1) || (7 <? choice) then
          say (nl ++ cs "[!!] The number " ++ fmt_d choice ++ cs " is an invalid selection." ++ nl ++ nl);;
          menu_loop fuel choice last_game
        else if choice <? 4 then
          last_game ←
            (if negb (choice =? last_game) then
               modify (set_player (with_game (Some
                 (if choice =? 1 then pick_a_number_ptr
                  else if choice =? 2 then dealer_no_match_ptr else find_the_ace_ptr))));;
               mret choice
             else mret last_game);
          play_the_game;;
          menu_loop fuel choice last_game
        else if choice =? 4 then show_highscore;; menu_loop fuel choice last_game
        else if choice =? 5 then
          say (nl ++ cs "Change user name" ++ nl);;
          say (cs "Enter your new name: ");;
          input_name;;
          say (cs "Your name has been changed." ++ nl ++ nl);;
          menu_loop fuel choice last_game
        else if choice =? 6 then
          say (nl ++ cs "Your account has been reset with 100 credits." ++ nl ++ nl);;
          modify (set_player (with_credits 100));;
          menu_loop fuel choice last_game
        else menu_loop fuel choice last_game
    end.

Definition game_main (choice0 last_game0 : Z) : M gst unit :=
  r ← get_player_data;
  (if r =? -1 then register_new_player else mret tt);;
  i ← gets input;
  menu_loop (S (length i)) choice0 last_game0;;
  update_player_data;;
  say (nl ++ cs "Thanks for playing! Bye." ++ nl).
End code.
