(* ===== verification/GameProofs.v ===== *)
(** * Theorems about the game of chance

    The account never goes negative, the dealer's match test is exact, changing
    the pick in Find the Ace wins exactly when the first pick was wrong, and
    the data file keeps the records of all users. *)

From stdpp Require Import base gmap list strings.
From Stdlib Require Import ZArith Lia.
From S2P Require Import Prelude PatMem PrefixCode ArraySearch Game.

Local Open Scope Z_scope.

(** ** The invariant: no account is overdrawn *)
Definition acct_ok (s : gst) : Prop :=
  0 ≤ credits (player s) ∧ ∀ es, datafile s = Some es → Forall (λ u, 0 ≤ credits u) es.

(** A command that touches neither the account nor the file. *)
Definition quiet {A} (c : M gst A) : Prop :=
  ∀ s a s', c s = Ok (a, s') → player s' = player s ∧ datafile s' = datafile s.

Lemma quiet_say x : quiet (say x).
Proof. by intros s [] s' [= <-]. Qed.
Lemma quiet_ret {A} (a : A) : quiet (mret a).
Proof. by intros s b s' [= <- <-]. Qed.
Lemma quiet_fail {A} e : quiet (A:=A) (fail e).
Proof. by intros s b s' ?. Qed.
Lemma quiet_gets {A} (f : gst → A) : quiet (gets f).
Proof. by intros s b s' [= <- <-]. Qed.
Lemma quiet_bind {A B} (c : M gst A) (k : A → M gst B) :
  quiet c → (∀ a, quiet (k a)) → quiet (c ≫= k).
Proof.
  intros Hc Hk s b s'' (a & s' & E & E')%bind_inv.
  destruct (Hc _ _ _ E), (Hk _ _ _ _ E'). split; congruence.
Qed.
Lemma quiet_chk_int z : quiet (chk_int z).
Proof. unfold chk_int. destruct (int_ok z); [apply quiet_ret|apply quiet_fail]. Qed.
Lemma quiet_from_option {A} e (o : option A) : quiet (from_option_or e o).
Proof. destruct o; [apply quiet_ret|apply quiet_fail]. Qed.
Lemma quiet_lift {A} (r : res A) : quiet (lift r).
Proof. destruct r; [by intros s b s' [= <- <-]|by intros s b s' ?]. Qed.
Lemma quiet_scanf_d : quiet scanf_d.
Proof. intros s a s'. unfold scanf_d. repeat case_match; intros; by simplify_eq. Qed.
Lemma quiet_read_char : quiet read_char.
Proof. intros s a s'. unfold read_char. destruct (flush_newlines _) as [[c i]|]; [|done]. by intros [= <- <-]. Qed.
Lemma quiet_rand rnd : quiet (rand rnd).
Proof. by intros s a s' [= <- <-]. Qed.
Lemma quiet_if {A} (b : bool) (c d : M gst A) : quiet c → quiet d → quiet (if b then c else d).
Proof. by destruct b. Qed.

Create HintDb quiet.
#[export] Hint Resolve quiet_say quiet_ret quiet_fail quiet_gets quiet_chk_int quiet_from_option
  quiet_lift quiet_scanf_d quiet_read_char quiet_rand quiet_if : quiet.
#[export] Hint Extern 2 (quiet (_ ≫= _)) => apply quiet_bind; [|intros] : quiet.

Lemma quiet_ht {A} (c : M gst A) (I : gst → Prop) :
  quiet c → (∀ s s', player s' = player s → datafile s' = datafile s → I s → I s') →
  ht I c (λ _, I).
Proof. intros Hc HI s a s' Hs E. apply Hc in E as [? ?]. by eapply HI. Qed.

Lemma quiet_print_cards msg cards p : quiet (print_cards msg cards p).
Proof. unfold print_cards. eauto 20 with quiet. Qed.
Lemma quiet_deal rnd n i : quiet (deal rnd n i).
Proof. revert i. induction n; intros i; simpl; eauto 20 with quiet. Qed.
Lemma quiet_pick_loop fuel p : quiet (pick_loop fuel p).
Proof. revert p. induction fuel; intros p; simpl; eauto 20 with quiet. Qed.
#[export] Hint Resolve quiet_print_cards quiet_deal quiet_pick_loop : quiet.

(** The account holds [a] credits. *)
Definition acct (a : Z) (s : gst) : Prop := acct_ok s ∧ credits (player s) = a.

Lemma acct_quiet {A} (c : M gst A) a : quiet c → ht (acct a) c (λ _, acct a).
Proof.
  intros Hc. apply quiet_ht; [done|]. intros s s' Hp Hf [[H1 H2] H3]. unfold acct, acct_ok.
  by rewrite Hp, Hf.
Qed.

(** [qstep]: run a command that leaves the account alone. *)
Ltac qstep := eapply ht_bind; [apply acct_quiet; eauto with quiet|intros ?].

Lemma ht_gets_player {A} a (k : user → M gst A) Q :
  (∀ p, credits p = a → ht (acct a) (k p) Q) → ht (acct a) (p ← gets player; k p) Q.
Proof.
  intros H s b s' Hs (p & s1 & E1 & E2)%bind_inv. injection E1 as <- <-.
  eapply H; [|done|done]. by destruct Hs.
Qed.

Lemma ht_set_credits a z : 0 ≤ z → ht (acct a) (set_credits z) (λ _, acct z).
Proof.
  intros Hz. unfold set_credits. eapply ht_bind.
  { apply (ht_chk_int _ _ (λ z' s, z' = z ∧ acct a s)). by intros s Hs _. }
  intros z'. apply ht_pure. intros ->. apply ht_modify. intros s [[H1 H2] H3]. by split.
Qed.

(** ** Wagers *)

(** A wager is refused (-1), or positive and covered together with [prev]. *)
Definition wager_ok (a prev w : Z) : Prop := w = -1 ∨ 1 ≤ w ∧ prev + w ≤ a.

Lemma take_wager_ht a prev :
  ht (acct a) (take_wager a prev) (λ w s, wager_ok a prev w ∧ acct a s).
Proof.
  unfold take_wager. qstep. qstep.
  eapply ht_bind; [apply acct_quiet; eauto with quiet|]. intros w.
  destruct (Z.ltb_spec w 1).
  { qstep. apply ht_ret. intros s Hs. split; [by left|done]. }
  eapply ht_bind.
  { apply (ht_chk_int _ _ (λ z' s, z' = prev + w ∧ acct a s)). by intros s Hs _. }
  intros z'. apply ht_pure. intros ->. destruct (Z.ltb_spec a (prev + w)).
  - qstep. qstep. apply ht_ret. intros s Hs. split; [by left|done].
  - apply ht_ret. intros s Hs. split; [right; lia|done].
Qed.

Lemma wager_loop_ht fuel a prev w : wager_ok a prev w →
  ht (acct a) (wager_loop fuel prev w) (λ w s, (1 ≤ w ∧ prev + w ≤ a) ∧ acct a s).
Proof.
  revert w. induction fuel as [|fuel IH]; intros w Hw; simpl;
    (destruct (Z.eqb_spec w (-1)) as [->|Hne]; [|apply ht_ret; intros s Hs; split; [|done];
       destruct Hw; [done|lia]]).
  - apply ht_fail.
  - apply ht_gets_player. intros p Hp. rewrite Hp. eapply ht_bind; [apply take_wager_ht|].
    intros w. apply ht_pure. apply IH.
Qed.

Lemma get_wager_ht a prev :
  ht (acct a) (get_wager prev) (λ w s, (1 ≤ w ∧ prev + w ≤ a) ∧ acct a s).
Proof. unfold get_wager. qstep. apply wager_loop_ht. by left. Qed.

(** ** The games *)
Definition some_acct (s : gst) : Prop := acct_ok s.

Lemma acct_some a s : acct a s → some_acct s.
Proof. by intros [? ?]. Qed.

Lemma some_acct_ht {A} (c : M gst A) Q :
  (∀ a, 0 ≤ a → ht (acct a) c Q) → ht some_acct c Q.
Proof. intros H s b s' Hs E. eapply (H (credits (player s))); [apply Hs|by split|done]. Qed.

Lemma ht_some {A} P (c : M gst A) a : ht P c (λ _, acct a) → ht P c (λ _, some_acct).
Proof. intros H s b s' HP E. exact (acct_some _ _ (H s b s' HP E)). Qed.

Lemma ht_then {A} P (c : M gst unit) (r : A) :
  ht P c (λ _, some_acct) → ht P (c;; mret r) (λ _, some_acct).
Proof. intros H. eapply ht_bind; [exact H|]. intros []. by apply ht_ret. Qed.

Lemma pick_a_number_ht rnd : ht some_acct (pick_a_number rnd) (λ _, some_acct).
Proof.
  apply some_acct_ht. intros a Ha. unfold pick_a_number. do 5 qstep.
  apply ht_gets_player. intros p Hp. destruct (Z.ltb_spec (credits p) 10).
  { qstep. apply ht_ret. apply acct_some. }
  eapply ht_bind; [apply ht_set_credits; lia|]. intros ?. do 5 qstep.
  apply ht_then.
  destruct (_ =? _).
  - unfold jackpot. do 2 qstep. apply ht_gets_player. intros p' Hp'.
    eapply ht_some, ht_set_credits; lia.
  - eapply ht_some, acct_quiet; eauto with quiet.
Qed.

Lemma dealer_ht rnd : ht some_acct (dealer_no_match rnd) (λ _, some_acct).
Proof.
  apply some_acct_ht. intros a Ha. unfold dealer_no_match. do 4 qstep.
  apply ht_gets_player. intros p Hp. destruct (Z.eqb_spec (credits p) 0).
  { qstep. apply ht_ret. apply acct_some. }
  eapply ht_bind; [apply get_wager_ht|]. intros w. apply ht_pure. intros Hw. do 2 qstep.
  apply ht_gets_player. intros p' Hp'.
  apply ht_then.
  destruct (negb _); [do 2 qstep|qstep]; eapply ht_some, ht_set_credits; lia.
Qed.

Lemma settle_ht a sgn w1 w2 first :
  0 ≤ a + sgn * w1 → (w2 ≠ -1 → 0 ≤ a + sgn * w1 + sgn * w2) →
  ht (acct a) (settle sgn w1 w2 first) (λ _, some_acct).
Proof.
  intros H1 H2. unfold settle. qstep. apply ht_gets_player. intros p Hp. rewrite Hp.
  eapply ht_bind; [by apply ht_set_credits|]. intros ?. destruct (Z.eqb_spec w2 (-1)) as [->|Hne]; simpl.
  - apply ht_ret. intros s. apply acct_some.
  - qstep. apply ht_gets_player. intros p' Hp'. rewrite Hp'.
    eapply ht_some, ht_set_credits; auto.
Qed.

Lemma choice_loop_ht fuel cards pick w1 a :
  ht (acct a) (choice_loop fuel cards pick w1)
    (λ r s, (r.2 = -1 ∨ 1 ≤ r.2 ∧ w1 + r.2 ≤ a) ∧ acct a s).
Proof.
  induction fuel as [|fuel IH]; simpl; [apply ht_fail|]. do 3 qstep.
  destruct (_ =? 105).
  { eapply ht_bind; [apply get_wager_ht|]. intros w2. apply ht_pure. intros Hw2. apply ht_ret.
    intros s Hs. split; [by right|done]. }
  destruct (_ =? 99); [|done]. do 2 qstep. apply ht_ret. intros s Hs. split; [by left|done].
Qed.

Lemma find_the_ace_ht rnd : ht some_acct (find_the_ace rnd) (λ _, some_acct).
Proof.
  apply some_acct_ht. intros a Ha. unfold find_the_ace. do 8 qstep.
  apply ht_gets_player. intros p Hp. destruct (Z.eqb_spec (credits p) 0).
  { qstep. apply ht_ret. apply acct_some. }
  eapply ht_bind; [apply get_wager_ht|]. intros w1. apply ht_pure. intros Hw1. do 3 qstep.
  eapply ht_bind; [apply acct_quiet; case_decide; eauto with quiet|]. intros ?. do 2 qstep.
  eapply ht_bind; [apply choice_loop_ht|]. intros [pick w2]. apply ht_pure. simpl. intros Hw2. qstep.
  apply ht_then.
  destruct (_ =? _); apply settle_ht; lia.
Qed.

(** ** The whole program *)
Lemma some_quiet {A} (c : M gst A) : quiet c → ht some_acct c (λ _, some_acct).
Proof.
  intros Hc. apply quiet_ht; [done|]. intros s s' Hp Hf [H1 H2]. unfold some_acct, acct_ok.
  by rewrite Hp, Hf.
Qed.

Ltac sstep := eapply ht_bind; [first [apply some_quiet; by eauto with quiet|eauto]|intros ?].

(** A change of the player other than of its credits. *)
Lemma some_set_player f : (∀ u, 0 ≤ credits u → 0 ≤ credits (f u)) →
  ht some_acct (modify (set_player f)) (λ _, some_acct).
Proof. intros Hf. apply ht_modify. intros s [H1 H2]. split; simpl; auto. Qed.

Lemma input_name_ht : ht some_acct input_name (λ _, some_acct).
Proof.
  unfold input_name. sstep. sstep. eapply ht_bind; [apply some_quiet; eauto with quiet|].
  intros [nm rest]. eapply ht_bind; [by apply some_set_player|]. intros ?. apply ht_modify. done.
Qed.

Lemma write_user_ok p es es' : 0 ≤ credits p → Forall (λ u, 0 ≤ credits u) es →
  write_user p es = Some es' → Forall (λ u, 0 ≤ credits u) es'.
Proof.
  intros Hp He. revert es'. induction He as [|e es He Hes IH]; intros es'; simpl; [done|].
  destruct (uid e =? uid p); [intros [= <-]; by constructor|].
  destruct (write_user p es) as [es1|]; simpl; [|done]. intros [= <-]. constructor; auto.
Qed.

Lemma update_ht : ht some_acct update_player_data (λ _, some_acct).
Proof.
  intros s [] s' [H1 H2]. unfold update_player_data, mbind, M_bind, gets.
  destruct (datafile s) as [es|] eqn:Ef; [|done].
  destruct (write_user (player s) es) as [es'|] eqn:Ew; simpl; [|done]. intros [= <-].
  split; simpl; [done|]. intros ? [= <-]. eapply write_user_ok; [..|done]; [done|]. by apply H2.
Qed.

Lemma call_game_ht rnd g : ht some_acct (call_game rnd g) (λ _, some_acct).
Proof.
  destruct g as [[]|]; [apply pick_a_number_ht|apply dealer_ht|apply find_the_ace_ht|apply ht_fail].
Qed.

Lemma play_loop_ht rnd addr fuel : ht some_acct (play_loop rnd addr fuel) (λ _, some_acct).
Proof.
  induction fuel as [|fuel IH]; simpl; [apply ht_fail|]. do 2 sstep.
  eapply ht_bind; [apply call_game_ht|]. intros r. destruct (negb _); [|by apply ht_ret].
  sstep. eapply ht_bind.
  { destruct (highscore _ <? _); [by apply some_set_player|by apply ht_ret]. }
  intros ?. do 2 sstep. eapply ht_bind; [apply update_ht|]. intros ?. do 2 sstep.
  destruct (_ =? _); [by apply ht_ret|done].
Qed.

Lemma menu_loop_ht rnd addr fuel c l : ht some_acct (menu_loop rnd addr fuel c l) (λ _, some_acct).
Proof.
  revert c l. induction fuel as [|fuel IH]; intros c l; simpl;
    (destruct (c =? 7); [by apply ht_ret|]); [apply ht_fail|].
  eapply ht_bind; [apply some_quiet; unfold show_menu; eauto 20 with quiet|]. intros ?. sstep.
  set (ch := default c _). destruct ((ch <? 1) || (7 <? ch)); [sstep; apply IH|].
  destruct (ch <? 4).
  { eapply (ht_bind _ _ _ (λ _, some_acct)).
    { destruct (negb _); [|by apply ht_ret]. eapply ht_bind; [by apply some_set_player|]. intros ?. by apply ht_ret. }
    intros l'. eapply ht_bind; [unfold play_the_game; sstep; apply play_loop_ht|]. intros ?. apply IH. }
  destruct (ch =? 4).
  { eapply (ht_bind _ _ _ (λ _, some_acct)); [|intros ?; apply IH]. apply some_quiet. unfold show_highscore.
    apply quiet_bind; [eauto with quiet|]. intros ?. apply quiet_bind; [eauto with quiet|].
    intros [es|]; [|unfold fatal; eauto with quiet]. destruct (top_user es 0 []). eauto 10 with quiet. }
  destruct (ch =? 5).
  { do 2 sstep. eapply ht_bind; [apply input_name_ht|]. intros ?. sstep. apply IH. }
  destruct (ch =? 6); [|apply IH]. sstep. eapply ht_bind; [by apply some_set_player|]. intros ?. apply IH.
Qed.

Lemma find_user_ok u es e : Forall (λ u, 0 ≤ credits u) es → find_user u es = Some e → 0 ≤ credits e.
Proof.
  induction 1 as [|e' es He Hes IH]; simpl; [done|]. destruct (uid e' =? u); [by intros [= <-]|done].
Qed.

Lemma game_main_ht rnd addr u c l : ht some_acct (game_main rnd addr u c l) (λ _, some_acct).
Proof.
  unfold game_main. eapply (ht_bind _ _ _ (λ _, some_acct)).
  { intros s r s' [H1 H2]. unfold get_player_data, mbind, M_bind, gets.
    destruct (datafile s) as [es|] eqn:Ef; [|intros [= <- <-]; by split; [|rewrite Ef]].
    destruct (find_user u es) as [e|] eqn:Eu; simpl; intros [= <- <-]; split; simpl; rewrite ?Ef; auto.
    eapply find_user_ok; [|done]. by apply H2. }
  intros r. eapply (ht_bind _ _ _ (λ _, some_acct)).
  { destruct (_ =? _); [|by apply ht_ret]. unfold register_new_player. do 2 sstep.
    eapply ht_bind; [apply input_name_ht|]. intros ?.
    eapply ht_bind; [by apply some_set_player|]. intros ?.
    eapply ht_bind; [by apply some_set_player|]. intros ?.
    intros s [] s' [H1 H2] E. unfold mbind, M_bind, gets, modify, say in E. injection E as <-.
    split; simpl; [done|]. intros es [= <-]. apply Forall_app. split; [|by apply Forall_singleton].
    destruct (datafile s) as [es|]; simpl; [by apply H2|done]. }
  intros ?. sstep. eapply ht_bind; [apply menu_loop_ht|]. intros ?.
  eapply ht_bind; [apply update_ht|]. intros ?. apply some_quiet. eauto with quiet.
Qed.

(** ** Properties *)

(** A player with 100 credits, alone in the data file. *)
Definition ex_user : user := User 1000 100 100 (cs "jose") None.
Definition ex_rand (i : nat) : Z := Z.of_nat i * 7.
Definition ex_addr (g : option game) : list Z := cs "08048d70".
(** Play each game once and quit. *)
Definition ex_input : list Z :=
  cs "1" ++ nl ++ cs "5" ++ nl ++ cs "n" ++ nl ++ cs "2" ++ nl ++ cs "50" ++ nl ++ cs "n" ++ nl ++
  cs "3" ++ nl ++ cs "10" ++ nl ++ cs "1" ++ nl ++ cs "c" ++ nl ++ cs "n" ++ nl ++ cs "7" ++ nl.
Definition ex_game : gst := GSt (User 0 0 0 [] None) (Some [ex_user]) ex_input 0 [].

(** C27. No account goes negative: when the game program, started with accounts
    that are not overdrawn, returns, then neither the player's account nor any
    account in the data file is overdrawn, whatever was typed and drawn. *)
Theorem credits_never_negative rnd addr u c l s s' :
  acct_ok s → game_main rnd addr u c l s = Ok (tt, s') → acct_ok s'.
Proof. intros H E. by eapply (game_main_ht rnd addr u c l s tt s'). Qed.

Definition ex_game_end : gst :=
  match game_main ex_rand ex_addr 1000 0 0 ex_game with Ok (_, s) => s | Err _ => ex_game end.

Lemma credits_never_negative_witness :
  game_main ex_rand ex_addr 1000 0 0 ex_game = Ok (tt, ex_game_end) ∧ acct_ok ex_game_end.
Proof.
  split; [vm_compute; reflexivity|].
  apply (credits_never_negative ex_rand ex_addr 1000 0 0 ex_game ex_game_end).
  - split; [vm_compute; discriminate|]. intros es E. injection E as <-.
    repeat constructor. vm_compute. discriminate.
  - vm_compute. reflexivity.
Defined.

(** [take_wager] accepts exactly the positive wagers that are covered by the
    credits together with the previous wager, and answers -1 to the others,
    when the sum of the wagers is an [int]. *)
Theorem take_wager_spec avail prev w s s1 :
  scanf_d (GSt (player s) (datafile s) (input s) (rand_i s) (g_out s ++ [cs "How many of your " ++
    fmt_d avail ++ cs " credits would you like to wager?  "])) = Ok (Some w, s1) →
  is_int (prev + w) →
  ∃ s', take_wager avail prev s =
      Ok (if bool_decide (1 ≤ w ∧ prev + w ≤ avail) then w else -1, s') ∧ player s' = player s.
Proof.
  intros Hs Hi. pose proof (quiet_scanf_d _ _ _ Hs) as [Hp _]. simpl in Hp.
  unfold take_wager, mbind, M_bind, say, modify. rewrite Hs. simpl.
  destruct (Z.ltb_spec w 1).
  { rewrite bool_decide_false by lia. eexists. split; [done|]. done. }
  rewrite chk_int_ok by done. destruct (Z.ltb_spec avail (prev + w)).
  - rewrite bool_decide_false by lia. eexists. split; [done|]. done.
  - rewrite bool_decide_true by lia. eexists. split; [done|]. done.
Qed.

Definition ex_wager : gst := GSt ex_user None (cs "30" ++ nl) 0 [].

Lemma take_wager_spec_witness :
  ∃ s', take_wager 100 50 ex_wager =
      Ok (if bool_decide (1 ≤ 30 ∧ 50 + 30 ≤ 100) then 30 else -1, s') ∧ player s' = player ex_wager.
Proof.
  eapply (take_wager_spec 100 50 30 ex_wager).
  - vm_compute. reflexivity.
  - by vm_compute.
Defined.

(** The sum of the two wagers of Find the Ace can overflow: with a first
    wager of at least 1, a second wager of [INT_MAX] is signed overflow in
    [take_wager], before it is compared with the credits. *)
Theorem take_wager_overflow avail prev w s s1 :
  scanf_d (GSt (player s) (datafile s) (input s) (rand_i s) (g_out s ++ [cs "How many of your " ++
    fmt_d avail ++ cs " credits would you like to wager?  "])) = Ok (Some w, s1) →
  1 ≤ w → INT_MAX < prev + w → take_wager avail prev s = Err IntOverflow.
Proof.
  intros Hs Hw Hi. unfold take_wager, mbind, M_bind, say, modify. rewrite Hs. simpl.
  rewrite (proj2 (Z.ltb_ge w 1)) by lia. unfold chk_int, int_ok.
  by rewrite (proj2 (Z.leb_gt _ INT_MAX)), andb_false_r by lia.
Qed.

Lemma take_wager_overflow_witness :
  take_wager 100 1 (GSt ex_user None (cs "2147483647" ++ nl) 0 []) = Err IntOverflow.
Proof.
  eapply (take_wager_overflow 100 1 2147483647).
  - vm_compute. reflexivity.
  - lia.
  - by vm_compute.
Defined.

Lemma match_inner_spec x xs m : x ≠ -1 → m = -1 ∨ m ≠ -1 →
  match_inner x xs m ≠ -1 ↔ m ≠ -1 ∨ x ∈ xs.
Proof.
  intros Hx _. revert m. induction xs as [|y xs IH]; intros m; simpl; [set_solver|].
  rewrite IH, elem_of_cons. destruct (Z.eqb_spec x y); naive_solver.
Qed.

Lemma match_loop_spec xs m : Forall (λ x, 0 ≤ x) xs → match_loop xs m ≠ -1 ↔ m ≠ -1 ∨ ¬ NoDup xs.
Proof.
  intros Hxs. revert m. induction Hxs as [|x xs Hx Hxs IH]; intros m; simpl.
  { split; [by left|]. intros [?|[]]; [done|constructor]. }
  rewrite IH, match_inner_spec by lia. rewrite NoDup_cons.
  destruct (decide (x ∈ xs)), (decide (NoDup xs)); tauto.
Qed.

(** The dealer's two nested loops find a match exactly when two of the
    numbers dealt are equal. *)
Theorem dealer_match_exact numbers :
  Forall (λ x, 0 ≤ x) numbers → match_loop numbers (-1) ≠ -1 ↔ ¬ NoDup numbers.
Proof. intros H. rewrite match_loop_spec by done. tauto. Qed.

Lemma dealer_match_exact_witness :
  match_loop [42; 7; 99; 7] (-1) ≠ -1 ↔ ¬ NoDup [42; 7; 99; 7].
Proof. apply (dealer_match_exact [42; 7; 99; 7]). repeat constructor; lia. Defined.

(** Find the Ace: the card revealed is a queen the player did not pick, the
    loops that choose it and the other card stay inside the array, and changing
    the pick wins exactly when the first pick was wrong. *)
Theorem changing_pick_wins ace pick :
  0 ≤ ace < 3 → 0 ≤ pick < 3 →
  let i := queen_loop 3 ace pick 0 in
  0 ≤ i < 3 ∧ i ≠ ace ∧ i ≠ pick ∧
  ∃ j, other_loop 4 (<[Z.to_nat i := 81]> [88; 88; 88]) pick 0 = Ok j ∧
    j ≠ pick ∧ j ≠ i ∧ (j = ace ↔ pick ≠ ace).
Proof.
  intros Ha Hp.
  assert (ace = 0 ∨ ace = 1 ∨ ace = 2) as [->|[->| ->]] by lia;
    assert (pick = 0 ∨ pick = 1 ∨ pick = 2) as [->|[->| ->]] by lia;
    vm_compute; split_and!; try lia; try congruence; eexists; split_and!;
    try reflexivity; try lia; try congruence; split; congruence.
Qed.

Lemma changing_pick_wins_witness :
  let i := queen_loop 3 2 0 0 in
  0 ≤ i < 3 ∧ i ≠ 2 ∧ i ≠ 0 ∧
  ∃ j, other_loop 4 (<[Z.to_nat i := 81]> [88; 88; 88]) 0 0 = Ok j ∧
    j ≠ 0 ∧ j ≠ i ∧ (j = 2 ↔ 0 ≠ 2).
Proof. apply (changing_pick_wins 2 0); lia. Defined.

Lemma write_user_spec p es e : find_user (uid p) es = Some e →
  ∃ es', write_user p es = Some es' ∧ length es' = length es ∧
    find_user (uid p) es' = Some (User (uid p) (credits p) (highscore p) (name p) (current_game e)) ∧
    ∀ v, v ≠ uid p → find_user v es' = find_user v es.
Proof.
  induction es as [|e' es IH]; simpl; [done|]. destruct (Z.eqb_spec (uid e') (uid p)) as [E|E].
  - intros [= ->]. eexists. split; [done|]. simpl. rewrite E, Z.eqb_refl. split_and!; [done..|].
    intros v Hv. by rewrite (proj2 (Z.eqb_neq _ _)) by congruence.
  - intros (es' & -> & Hl & Hf & Ho)%IH. eexists. split; [done|]. simpl.
    rewrite (proj2 (Z.eqb_neq _ _)) by done. split_and!; [by rewrite Hl|done|].
    intros v Hv. destruct (uid e' =? v); [done|by apply Ho].
Qed.

(** [update_player_data] followed by [get_player_data] restores the account:
    the credits, high score and name written are read back, and the records of
    all other users are unchanged. *)
Theorem update_get_roundtrip s es e :
  datafile s = Some es → find_user (uid (player s)) es = Some e →
  ∃ s1 es1 s2, update_player_data s = Ok (tt, s1) ∧ datafile s1 = Some es1 ∧
    length es1 = length es ∧ (∀ v, v ≠ uid (player s) → find_user v es1 = find_user v es) ∧
    get_player_data (uid (player s)) s1 = Ok (1, s2) ∧
    player s2 = User (uid (player s)) (credits (player s)) (highscore (player s)) (name (player s))
      (current_game e).
Proof.
  intros Hf He. destruct (write_user_spec (player s) es e He) as (es1 & Hw & Hl & Hfind & Ho).
  unfold update_player_data, get_player_data, mbind, M_bind, gets. rewrite Hf, Hw.
  exists (set_file (Some es1) s), es1, (set_player (λ _, User (uid (player s)) (credits (player s))
    (highscore (player s)) (name (player s)) (current_game e)) (set_file (Some es1) s)).
  split_and!; [done..| |done]. simpl. by rewrite Hfind.
Qed.

Lemma update_get_roundtrip_witness :
  let s := GSt (User 1000 250 250 (cs "jose") None) (Some [ex_user]) [] 0 [] in
  ∃ s1 es1 s2, update_player_data s = Ok (tt, s1) ∧ datafile s1 = Some es1 ∧
    length es1 = length [ex_user] ∧ (∀ v, v ≠ uid (player s) → find_user v es1 = find_user v [ex_user]) ∧
    get_player_data (uid (player s)) s1 = Ok (1, s2) ∧
    player s2 = User (uid (player s)) (credits (player s)) (highscore (player s)) (name (player s))
      (current_game ex_user).
Proof.
  apply (update_get_roundtrip (GSt (User 1000 250 250 (cs "jose") None) (Some [ex_user]) [] 0 [])
    [ex_user] ex_user); reflexivity.
Defined.

Lemma name_loop_overflow n c i : (n ≤ 100)%nat → Forall (λ c, c ≠ 10) (take (100 - n) (c :: i)) →
  name_loop n c i = None ∨ (length (c :: i) < 100 - n)%nat.
Proof.
  revert n c. induction i as [|c' i IH]; intros n c Hn HF; simpl.
  - case_decide; [by left|]. destruct (100 - n)%nat as [|k] eqn:E; [lia|]. simpl in HF.
    apply Forall_cons in HF as [Hc _]. rewrite (proj2 (Z.eqb_neq _ _) Hc). by left.
  - case_decide; [by left|]. destruct (100 - n)%nat as [|k] eqn:E; [lia|]. simpl in HF.
    apply Forall_cons in HF as [Hc HF]. rewrite (proj2 (Z.eqb_neq _ _) Hc).
    destruct (IH (S n) c') as [->|Hl]; [lia| |by left|right; simpl in *; lia].
    by replace (100 - S n)%nat with k by lia.
Qed.

(** [input_name] does not bound its input: a name of 100 characters or more
    is written past the end of [player.name]. *)
Theorem input_name_overflows nm rest s :
  input s = nm ++ rest → (100 ≤ length nm)%nat → Forall (λ c, c ≠ 10) nm →
  input_name s = Err BadAccess.
Proof.
  intros Hi Hl HF. destruct nm as [|c nm]; [simpl in Hl; lia|].
  apply Forall_cons in HF as [Hc HF].
  unfold input_name. assert (read_char s = Ok (c, set_input (nm ++ rest) s)) as E.
  { unfold read_char. rewrite Hi. simpl. by rewrite (proj2 (Z.eqb_neq _ _) Hc). }
  rewrite (bind_ok _ _ _ _ _ E). unfold mbind at 1, M_bind at 1, gets. apply bind_err. simpl.
  destruct (name_loop_overflow 0 c (nm ++ rest)) as [->|Hs]; [lia| |done|].
  - replace (100 - 0)%nat with 100%nat by lia. simpl in Hl.
    change (c :: nm ++ rest) with ((c :: nm) ++ rest). rewrite take_app_le by (simpl; lia).
    apply Forall_take. by constructor.
  - simpl in Hs, Hl. rewrite length_app in Hs. lia.
Qed.

Lemma input_name_overflows_witness :
  input_name (GSt ex_user None (replicate 120 65 ++ nl) 0 []) = Err BadAccess.
Proof.
  apply (input_name_overflows (replicate 120 65) nl).
  - reflexivity.
  - apply Nat.leb_le. vm_compute. reflexivity.
  - repeat constructor; discriminate.
Defined.
