(* ===== verification/CryptoApi.v ===== *)
(** * The SRx crypto API: configuration and binding
    ([openssl_util_code/srxcryptoapi-VariousKeyManipulation.c])

    [srxCryptoInit] reads the configuration, opens the configured library and
    binds the ten methods of the API to its symbols, with the internal wrappers
    as the last resort; [srxCryptoUnbind] closes the library.  The configuration
    files (libconfig) and the dynamic linker are parameters ([SysEnv]).  The
    build is the one without [HAVE_LTDL_H]. *)

From stdpp Require Import base gmap list strings.
From Stdlib Require Import ZArith Lia.
From S2P Require Import Prelude.

Local Open Scope Z_scope.

Definition MAX_CMD_LEN : nat := 1024.
Definition MAXPATHLEN : nat := 4096.
Definition LOG_ERR : Z := 3.
Definition LOG_INFO : Z := 6.

Definition SYS_CFG_FILE : list Z := cs "/etc/srxcryptoapi.conf".
Definition LOC_CFG_FILE : list Z := cs "./srxcryptoapi.conf".

(** ** Methods *)
Inductive meth : Set :=
| M_validate | M_extValidate | M_sign_with_id | M_sign_with_key
| M_registerPrivateKey | M_unregisterPrivateKey | M_registerPublicKey | M_unregisterPublicKey
| M_isExtended | M_isPrivateKeyStorage.

#[export] Instance meth_eq_dec : EqDecision meth.
Proof. solve_decision. Defined.

(** The configuration key of a method ([SCA_...]) and the name of its symbol
    when none is configured ([SCA_DEF_...]). *)
Definition sca_key (f : meth) : list Z :=
  match f with
  | M_validate => cs "method_validate"
  | M_extValidate => cs "method_exitValidate"
  | M_sign_with_id => cs "method_sign_with_id"
  | M_sign_with_key => cs "method_sign_with_key"
  | M_registerPrivateKey => cs "method_registerPrivateKey"
  | M_unregisterPrivateKey => cs "method_unregisterPrivateKey"
  | M_registerPublicKey => cs "method_registerPublicKey"
  | M_unregisterPublicKey => cs "method_unregisterPublicKey"
  | M_isExtended => cs "method_isExtended"
  | M_isPrivateKeyStorage => cs "method_isPrivateKeyStorage"
  end.
Definition sca_def (f : meth) : list Z :=
  match f with
  | M_validate => cs "validate"
  | M_extValidate => cs "extValidate"
  | M_sign_with_id => cs "sign_with_id"
  | M_sign_with_key => cs "sign_with_key"
  | M_registerPrivateKey => cs "registerPrivateKey"
  | M_unregisterPrivateKey => cs "unregisterPrivateKey"
  | M_registerPublicKey => cs "registerPublicKey"
  | M_unregisterPublicKey => cs "unregisterPublicKey"
  | M_isExtended => cs "isExtended"
  | M_isPrivateKeyStorage => cs "isPrivateKeyStorage"
  end.

(** What the internal wrapper of a method returns. *)
Definition wrap_result (f : meth) : Z :=
  match f with
  | M_validate | M_extValidate => -1
  | M_sign_with_key | M_sign_with_id => 0
  | M_registerPrivateKey | M_unregisterPrivateKey | M_registerPublicKey | M_unregisterPublicKey => 0
  | M_isExtended | M_isPrivateKeyStorage => 1
  end.

(** [sca_SetKeyPath]: the return value and the new [_keyPath[MAXPATHLEN]]. *)
Definition sca_SetKeyPath (old key_path : list Z) : res (Z * list Z) :=
  if decide (length key_path < MAX_CMD_LEN - 1)%nat then
    if decide (length key_path < MAXPATHLEN)%nat then Ok (1, key_path) else Err BadAccess
  else Ok (0, old).

(** ** The system *)
Class SysEnv := {
  Cfg : Type;
  Setting : Type;
  Handle : Type;
  Addr : Type;
  (** [fopen (name, "r")] succeeds. *)
  can_open : list Z → bool;
  config_read_file : list Z → option Cfg;
  config_lookup_int : Cfg → list Z → option Z;
  config_lookup_string : Cfg → list Z → option (list Z);
  config_lookup : Cfg → list Z → option Setting;
  config_setting_lookup_string : Setting → list Z → option (list Z);
  (** A null name opens the main program. *)
  dlopen : option (list Z) → option Handle;
  dlsym : Handle → list Z → option Addr
}.

Section code.
Context `{SysEnv}.

(** A function pointer of the API: a symbol of the library or a wrapper. *)
Inductive fn : Type := Sym (a : Addr) | Wrap (f : meth).

(** The [SRxCryptoAPI] object, the globals, the pending error of the dynamic
    linker and the number of open library handles. *)
Record sca := Sca {
  configFile : option (list Z);
  libHandle : option Handle;
  fns : meth → option fn;
  g_loglevel : Z;
  term_debug : Z;
  _keyPath : list Z;
  dl_pending : bool;
  dl_open : Z
}.

Definition set_config f s := Sca f (libHandle s) (fns s) (g_loglevel s) (term_debug s)
  (_keyPath s) (dl_pending s) (dl_open s).
Definition set_lib h s := Sca (configFile s) h (fns s) (g_loglevel s) (term_debug s)
  (_keyPath s) (dl_pending s) (dl_open s).
Definition set_fn (f : meth) (v : option fn) s := Sca (configFile s) (libHandle s)
  (λ g, if decide (g = f) then v else fns s g) (g_loglevel s) (term_debug s)
  (_keyPath s) (dl_pending s) (dl_open s).
Definition set_log z s := Sca (configFile s) (libHandle s) (fns s) z z
  (_keyPath s) (dl_pending s) (dl_open s).
Definition set_path p s := Sca (configFile s) (libHandle s) (fns s) (g_loglevel s) (term_debug s)
  p (dl_pending s) (dl_open s).
Definition set_pending b s := Sca (configFile s) (libHandle s) (fns s) (g_loglevel s) (term_debug s)
  (_keyPath s) b (dl_open s).
Definition add_open d s := Sca (configFile s) (libHandle s) (fns s) (g_loglevel s) (term_debug s)
  (_keyPath s) (dl_pending s) (dl_open s + d).

(** [dlerror () != NULL]: reports the pending error and clears it. *)
Definition dlerror : M sca bool := λ s, Ok (dl_pending s, set_pending false s).
(** [api->f = dlsym (api->libHandle, name)]; a failure leaves an error. *)
Definition bind_sym (h : Handle) (f : meth) (name : list Z) : M sca unit := λ s,
  match dlsym h name with
  | Some a => Ok (tt, set_fn f (Some (Sym a)) s)
  | None => Ok (tt, set_pending true (set_fn f None s))
  end.

(** ** Configuration *)
Definition checkConfigFile : M sca Z :=
  c ← gets configFile;
  match c with
  | Some _ => mret 1
  | None =>
      if can_open SYS_CFG_FILE then modify (set_config (Some SYS_CFG_FILE));; mret 1
      else if can_open LOC_CFG_FILE then modify (set_config (Some LOC_CFG_FILE));; mret 1
      else mret 0
  end.

(** What the configuration yields: [retVal], [useLocal], the library's name
    and the configured names of the methods. *)
Record cfg_result := CfgResult {
  cr_ret : Z; cr_local : bool; cr_lib : option (list Z); cr_names : meth → option (list Z)
}.
Definition no_names : meth → option (list Z) := λ _, None.

Definition read_config : M sca cfg_result :=
  c ← gets configFile;
  file ← from_option_or BadAccess c;
  match config_read_file file with
  | None => mret (CfgResult 0 false None no_names)
  | Some cfg =>
      modify (set_log (default LOG_ERR (config_lookup_int cfg (cs "debug-type"))));;
      match config_lookup_string cfg (cs "key_volt") with
      | Some key_volt =>
          old ← gets _keyPath;
          '(_, p) ← lift (sca_SetKeyPath old key_volt);
          modify (set_path p)
      | None => mret tt
      end;;
      match config_lookup_string cfg (cs "library_conf") with
      | Some library_conf =>
          match config_lookup cfg library_conf with
          | Some set =>
              mret (CfgResult 1 false (config_setting_lookup_string set (cs "library_name"))
                      (λ f, config_setting_lookup_string set (sca_key f)))
          | None => mret (CfgResult 0 false None no_names)
          end
      | None => mret (CfgResult 0 true None no_names)
      end
  end.

(** ** Binding *)

(** One of the ten blocks "Bind ...": the configured name when it is not
    empty, else the default name, else the wrapper. *)
Definition bind (h : Handle) (f : meth) (name : option (list Z)) : M sca unit :=
  loadDefault ← match name with
                | Some (c :: n) =>
                    bind_sym h f (c :: n);;
                    e ← dlerror;
                    dlerror;;
                    mret e
                | _ => mret true
                end;
  if loadDefault : bool then
    bind_sym h f (sca_def f);;
    error ← dlerror;
    if error : bool then modify (set_fn f (Some (Wrap f))) else mret tt
  else mret tt.

Fixpoint bind_all (h : Handle) (names : meth → option (list Z)) (fs : list meth) : M sca unit :=
  match fs with
  | [] => mret tt
  | f :: fs => bind h f (names f);; bind_all h names fs
  end.
(** The methods in the order of the code. *)
Definition bind_order : list meth :=
  [M_validate; M_extValidate; M_sign_with_id; M_sign_with_key; M_registerPrivateKey; M_unregisterPrivateKey;
   M_registerPublicKey; M_unregisterPublicKey; M_isExtended; M_isPrivateKeyStorage].

Definition use_wrappers : M sca unit :=
  modify (set_fn M_sign_with_id (Some (Wrap M_sign_with_id)));;
  modify (set_fn M_sign_with_key (Some (Wrap M_sign_with_key)));;
  modify (set_fn M_validate (Some (Wrap M_validate)));;
  modify (set_fn M_registerPrivateKey (Some (Wrap M_registerPrivateKey)));;
  modify (set_fn M_unregisterPrivateKey (Some (Wrap M_unregisterPrivateKey))).

(** The [else] branch of [srxCryptoInit], with a configuration file. *)
Definition load_config : M sca Z :=
  r ← read_config;
  if negb (cr_ret r =? 0) then
    match dlopen (cr_lib r) with
    | None => mret 0
    | Some h =>
        modify (set_lib (Some h));;
        modify (add_open 1);;
        dlerror;;
        bind_all h (cr_names r) bind_order;;
        mret 1
    end
  else if cr_local r then use_wrappers;; mret 1
  else mret 0.

Definition srxCryptoUnbind : M sca Z :=
  h ← gets libHandle;
  match h with Some _ => modify (add_open (-1)) | None => mret tt end;;
  modify (set_lib None);;
  modify (set_fn M_registerPrivateKey None);;
  modify (set_fn M_unregisterPrivateKey None);;
  modify (set_fn M_sign_with_id None);;
  modify (set_fn M_sign_with_key None);;
  modify (set_fn M_validate None);;
  mret 0.

(** [api] is dereferenced before it is compared with [NULL]. *)
Definition srxCryptoInit (api : option unit) : M sca Z :=
  match api with
  | None => fail BadAccess
  | Some _ =>
      h ← gets libHandle;
      match h with
      | Some _ => mret 0
      | None =>
          modify (set_lib None);;
          modify (set_fn M_registerPrivateKey None);;
          modify (set_fn M_sign_with_id None);;
          modify (set_fn M_sign_with_key None);;
          modify (set_fn M_validate None);;
          c ← checkConfigFile;
          retVal ← (if c =? 0 then mret 0 else load_config);
          if retVal =? 0 then srxCryptoUnbind;; mret retVal else mret retVal
      end
  end.

(** ** Properties *)

(** What a method is bound to. *)
Definition resolve_default (h : Handle) (f : meth) : fn :=
  match dlsym h (sca_def f) with Some a => Sym a | None => Wrap f end.
Definition resolve (h : Handle) (names : meth → option (list Z)) (f : meth) : fn :=
  match names f with
  | Some (c :: n) => match dlsym h (c :: n) with Some a => Sym a | None => resolve_default h f end
  | _ => resolve_default h f
  end.

(** [s'] differs from [s] only in its methods. *)
Record only_fns (s s' : sca) : Prop := {
  of_config : configFile s' = configFile s;
  of_lib : libHandle s' = libHandle s;
  of_open : dl_open s' = dl_open s;
  of_pending : dl_pending s' = false
}.

Lemma only_fns_trans s1 s2 s3 : only_fns s1 s2 → only_fns s2 s3 → only_fns s1 s3.
Proof. intros [] []. split; congruence. Qed.

Lemma set_fn_eq f v s : fns (set_fn f v s) f = v.
Proof. simpl. by rewrite decide_True. Qed.
Lemma set_fn_ne f g v s : g ≠ f → fns (set_fn f v s) g = fns s g.
Proof. intros. simpl. by rewrite decide_False. Qed.

(** [s'] is [s] with the method [f] set to [v]. *)
Definition bound (s s' : sca) (f : meth) (v : fn) : Prop :=
  fns s' f = Some v ∧ (∀ g, g ≠ f → fns s' g = fns s g) ∧ only_fns s s'.

Lemma bind_default h f s0 s : dl_pending s = false → only_fns s0 s →
  (∀ g, g ≠ f → fns s g = fns s0 g) →
  runs (bind_sym h f (sca_def f);;
        error ← dlerror; if error : bool then modify (set_fn f (Some (Wrap f))) else mret tt) s
    (λ _ s', bound s0 s' f (resolve_default h f)).
Proof.
  intros Hp [] Hg. unfold runs, bind_sym, resolve_default, mbind, M_bind, dlerror.
  destruct (dlsym h (sca_def f)) as [a|]; simpl; [rewrite Hp|]; simpl; eexists _, _; (split; [done|]);
    (split; [|split; [|by split]]); simpl; rewrite ?decide_True by done; try done;
    intros g Hne; rewrite !decide_False by done; by apply Hg.
Qed.

Lemma bind_spec h f names s : dl_pending s = false →
  runs (bind h f (names f)) s (λ _ s', bound s s' f (resolve h names f)).
Proof.
  intros Hp. unfold bind, resolve. assert (only_fns s s) as Hs by by split.
  destruct (names f) as [[|c n]|].
  - apply runs_bind, runs_ret. by apply bind_default.
  - apply runs_bind. unfold bind_sym at 1. destruct (dlsym h (c :: n)) as [a|].
    + eexists _, _. unfold mbind, M_bind, dlerror. simpl. rewrite Hp. split; [done|].
      apply runs_ret. split; [by simpl; rewrite decide_True|]. split; [|by split].
      intros g Hne. simpl. by rewrite decide_False.
    + eexists _, _. unfold mbind at 1 2 3, M_bind, dlerror. simpl. split; [done|].
      apply bind_default; [done|by split|]. intros g Hne. simpl. by rewrite decide_False.
  - apply runs_bind, runs_ret. by apply bind_default.
Qed.

Lemma bind_all_spec h names fs s : NoDup fs → dl_pending s = false →
  runs (bind_all h names fs) s (λ _ s', only_fns s s' ∧
    (∀ f, f ∈ fs → fns s' f = Some (resolve h names f)) ∧ (∀ g, g ∉ fs → fns s' g = fns s g)).
Proof.
  revert s. induction fs as [|f fs IH]; intros s Hnd Hp; simpl.
  { apply runs_ret. split; [by split|]. split; [|done]. intros f Hf. by apply elem_of_nil in Hf. }
  apply NoDup_cons in Hnd as [Hf Hnd]. apply runs_bind.
  eapply runs_mono; [by apply bind_spec|]. intros [] s1 (H1 & H2 & H3).
  eapply runs_mono; [apply IH; [done|apply H3]|]. intros [] s2 (H4 & H5 & H6).
  split; [by eapply only_fns_trans|]. split.
  - intros g [->|Hg]%elem_of_cons; [by rewrite H6|by apply H5].
  - intros g [Hne Hg]%not_elem_of_cons. by rewrite H6, H2.
Qed.

Lemma bind_order_all f : f ∈ bind_order.
Proof. destruct f; set_solver. Qed.
Lemma bind_order_nodup : NoDup bind_order.
Proof. apply (bool_decide_unpack _). vm_compute. exact I. Qed.

(** The state in which [srxCryptoInit] has cleared four of the methods. *)
Definition cleared (s : sca) : sca :=
  set_fn M_validate None (set_fn M_sign_with_key None (set_fn M_sign_with_id None
    (set_fn M_registerPrivateKey None (set_lib None s)))).

Lemma init_start s : libHandle s = None →
  srxCryptoInit (Some tt) s =
  (c ← checkConfigFile;
   retVal ← (if c =? 0 then mret 0 else load_config);
   if retVal =? 0 then srxCryptoUnbind;; mret retVal else mret retVal) (cleared s).
Proof. intros Hl. unfold srxCryptoInit, mbind, M_bind, gets, modify. by rewrite Hl. Qed.

(** Reading a configuration that names a library section. *)
Lemma read_config_ok s file cfg conf set :
  configFile s = Some file → config_read_file file = Some cfg →
  config_lookup_string cfg (cs "library_conf") = Some conf → config_lookup cfg conf = Some set →
  runs read_config s (λ r s',
    r = CfgResult 1 false (config_setting_lookup_string set (cs "library_name"))
          (λ f, config_setting_lookup_string set (sca_key f)) ∧
    dl_pending s' = dl_pending s ∧ dl_open s' = dl_open s ∧ fns s' = fns s).
Proof.
  intros Hf Hc Hl Hs. unfold read_config, runs, mbind, M_bind, gets, modify. rewrite Hf. simpl. rewrite Hc.
  destruct (config_lookup_string cfg (cs "key_volt")) as [kv|]; simpl.
  - unfold sca_SetKeyPath. repeat case_decide; simpl; try (rewrite Hl, Hs; by eexists _, _).
    unfold MAX_CMD_LEN, MAXPATHLEN in *. lia.
  - rewrite Hl, Hs. by eexists _, _.
Qed.

(** C26. With a configuration whose library section exists and whose library
    opens, [srxCryptoInit] succeeds and binds every one of the ten methods: to
    the configured symbol, else to the symbol of the default name, else to the
    internal wrapper.  The library is open once, and [srxCryptoUnbind] closes
    it. *)
Theorem init_binds_all s file cfg conf set h :
  libHandle s = None → configFile s = Some file → config_read_file file = Some cfg →
  config_lookup_string cfg (cs "library_conf") = Some conf → config_lookup cfg conf = Some set →
  dlopen (config_setting_lookup_string set (cs "library_name")) = Some h →
  ∃ s' s'', srxCryptoInit (Some tt) s = Ok (1, s') ∧ libHandle s' = Some h ∧
    dl_open s' = dl_open s + 1 ∧
    (∀ f, fns s' f = Some (resolve h (λ f, config_setting_lookup_string set (sca_key f)) f)) ∧
    srxCryptoUnbind s' = Ok (0, s'') ∧ libHandle s'' = None ∧ dl_open s'' = dl_open s.
Proof.
  intros Hl Hf Hc Hconf Hset Hopen. rewrite init_start by done.
  rewrite (bind_ok _ _ (cleared s) 1 (cleared s));
    [|unfold checkConfigFile, mbind, M_bind, gets; simpl; by rewrite Hf].
  destruct (read_config_ok (cleared s) file cfg conf set) as (r & s1 & E & -> & Hp & Ho & _); [done..|].
  set (names := λ f, config_setting_lookup_string set (sca_key f)) in *.
  destruct (bind_all_spec h names bind_order (set_pending false (add_open 1 (set_lib (Some h) s1))))
    as ([] & s2 & Eb & [Hcf Hlib Hopn Hpend] & Hall & _); [apply bind_order_nodup|done|].
  assert (load_config (cleared s) = Ok (1, s2)) as El.
  { unfold load_config. rewrite (bind_ok _ _ _ _ _ E). cbn [cr_ret cr_lib cr_names Z.eqb negb].
    rewrite Hopen. do 3 (erewrite bind_ok; [|done]). by rewrite (bind_ok _ _ _ _ _ Eb). }
  exists s2. eexists. change (1 =? 0) with false. cbv iota. rewrite (bind_ok _ _ _ _ _ El).
  simpl in Hlib, Hopn, Ho. split_and!; [done|done|lia|intros f; apply Hall, bind_order_all|..].
  - unfold srxCryptoUnbind, mbind, M_bind, gets, modify. rewrite Hlib. done.
  - done.
  - simpl. lia.
Qed.

(** The local fallback is incomplete.  Without any configuration file the
    initialization fails, although it announces local settings; with a
    configuration that names no library it succeeds with the wrappers of five
    methods, and leaves the other five pointers as it found them. *)
Theorem init_local_fallback s :
  libHandle s = None →
  (configFile s = None → can_open SYS_CFG_FILE = false → can_open LOC_CFG_FILE = false →
   ∃ s', srxCryptoInit (Some tt) s = Ok (0, s') ∧ fns s' M_validate = None ∧ fns s' M_sign_with_key = None) ∧
  (∀ file cfg, configFile s = Some file → config_read_file file = Some cfg →
   config_lookup_string cfg (cs "library_conf") = None → config_lookup_string cfg (cs "key_volt") = None →
   ∃ s', srxCryptoInit (Some tt) s = Ok (1, s') ∧
     (∀ f, f ∈ [M_validate; M_sign_with_id; M_sign_with_key; M_registerPrivateKey; M_unregisterPrivateKey] →
        fns s' f = Some (Wrap f)) ∧
     (∀ f, f ∈ [M_extValidate; M_registerPublicKey; M_unregisterPublicKey; M_isExtended; M_isPrivateKeyStorage] →
        fns s' f = fns s f)).
Proof.
  intros Hl. rewrite init_start by done. split.
  - intros Hc H1 H2. eexists. split; [|split].
    + unfold checkConfigFile, mbind, M_bind, gets. simpl. rewrite Hc, H1, H2. reflexivity.
    + done.
    + done.
  - intros file cfg Hf Hc Hn Hk. eexists. split; [|split].
    + unfold checkConfigFile, load_config, read_config, mbind, M_bind, gets, modify. simpl.
      rewrite Hf. simpl. rewrite Hf. simpl. rewrite Hc, Hk, Hn. reflexivity.
    + intros f Hin. repeat (apply elem_of_cons in Hin as [->|Hin]; [reflexivity|]). by apply elem_of_nil in Hin.
    + intros f Hin. repeat (apply elem_of_cons in Hin as [->|Hin]; [reflexivity|]). by apply elem_of_nil in Hin.
Qed.
End code.

(** ** A concrete system *)
Module ToySys.
(** One configuration file and one library with two symbols. *)
Definition toy_env (conf : bool) : SysEnv := {|
  Cfg := unit; Setting := unit; Handle := Z; Addr := Z;
  can_open _ := false;
  config_read_file _ := Some tt;
  config_lookup_int _ _ := Some 7;
  config_lookup_string _ k := if conf && bool_decide (k = cs "library_conf") then Some (cs "openssl") else None;
  config_lookup _ _ := Some tt;
  config_setting_lookup_string _ k :=
    if decide (k = cs "library_name") then Some (cs "libbgpsec.so")
    else if decide (k = cs "method_validate") then Some (cs "my_validate") else None;
  dlopen _ := Some 1;
  dlsym _ n := if decide (n = cs "my_validate") then Some 10
               else if decide (n = cs "sign_with_key") then Some 20 else None
|}.

Definition start (conf : bool) : @sca (toy_env conf) :=
  @Sca (toy_env conf) (Some (cs "my.conf")) None (λ _, None) 6 3 [] false 0.

Lemma init_binds_all_witness :
  ∃ s' s'', @srxCryptoInit (toy_env true) (Some tt) (start true) = Ok (1, s') ∧
    @libHandle (toy_env true) s' = Some 1 ∧ dl_open s' = dl_open (start true) + 1 ∧
    (∀ f, fns s' f = Some (@resolve (toy_env true) 1
       (λ f, @config_setting_lookup_string (toy_env true) tt (sca_key f)) f)) ∧
    srxCryptoUnbind s' = Ok (0, s'') ∧ libHandle s'' = None ∧ dl_open s'' = dl_open (start true).
Proof.
  apply (@init_binds_all (toy_env true) (start true) (cs "my.conf") tt (cs "openssl") tt 1); reflexivity.
Defined.

Lemma init_local_fallback_witness :
  ∃ s', @srxCryptoInit (toy_env false) (Some tt) (start false) = Ok (1, s') ∧
    (∀ f, f ∈ [M_validate; M_sign_with_id; M_sign_with_key; M_registerPrivateKey; M_unregisterPrivateKey] →
       fns s' f = Some (Wrap f)) ∧
    (∀ f, f ∈ [M_extValidate; M_registerPublicKey; M_unregisterPublicKey; M_isExtended; M_isPrivateKeyStorage] →
       fns s' f = fns (start false) f).
Proof. eapply (@init_local_fallback (toy_env false) (start false)); reflexivity. Defined.
End ToySys.
