(* ===== verification/BgpsecLib.v ===== *)
(** * What the BGPsec crypto code is built on

    [bgpsec_openssl-VariousKeyManipulation.c] includes headers and libraries
    that are not in the repository.  Their content is a parameter here, one
    class per library:
    - [ApiConsts]: the macros of [srxcryptoapi.h] and [bgpsec_openssl.h] and
      the [PSIZE] macro of the routing daemon's [prefix.h];
    - [OpenSSL]: the libcrypto routines that the code calls, as functions on
      the values of keys, points, certificates and files;
    - [UTHash]: the [HASH_FIND], [HASH_ADD] and [HASH_DEL] macros, and
      [UTHashLaws], what uthash documents about them.

    The rest of the file is the memory the code works on: byte buffers,
    [EC_KEY] objects, [BGPSecKey] and [Record_t] structures, each with its own
    set of live addresses, so that a pointer of the wrong kind, a null pointer
    or a freed one is a fault. *)

From stdpp Require Import base gmap list.
From Stdlib Require Import ZArith Lia.
From S2P Require Import Prelude.

Local Open Scope Z_scope.

Class ApiConsts := {
  SKI_LENGTH : nat;
  SKI_HEX_LENGTH : nat;
  ID_NUM_MAX : Z;
  RET_ID_OFFSET : Z;
  BGPSEC_MAX_SIG_LENGTH : nat;
  OCTET_SECURE_PATH_LEN : Z;
  OCTET_SECURE_PATH_SEGMENT : Z;
  API_BGPSEC_SUCCESS : Z;
  API_BGPSEC_FAILURE : Z;
  API_BGPSEC_VERIFY_SUCCESS : Z;
  API_BGPSEC_VERIFY_FAILURE : Z;
  API_BGPSEC_VERIFY_ERROR : Z;
  API_BGPSEC_DEFAULT_CURVE : Z;
  DEFAULT_KEYFILE_EXT : list Z;
  DEFAULT_CERTFILE_EXT : list Z;
  PSIZE : Z → nat
}.

(** The verification codes are told apart. *)
Class ApiLaws `{ApiConsts} := {
  verify_failure_code : API_BGPSEC_VERIFY_FAILURE ≠ API_BGPSEC_VERIFY_SUCCESS;
  verify_error_code : API_BGPSEC_VERIFY_ERROR ≠ API_BGPSEC_VERIFY_SUCCESS
}.

Class OpenSSL := {
  EcKey : Type;
  EcGroup : Type;
  EcPoint : Type;
  BigNum : Type;
  NID_X9_62_prime256v1 : Z;
  sizeof_EC_KEY : nat;
  (** [d2i_ECPrivateKey] on the octets it is given. *)
  d2i_ECPrivateKey : list Z → option EcKey;
  (** [d2i_PUBKEY]; the inner option is [EVP_PKEY_get1_EC_KEY] of the result. *)
  d2i_PUBKEY : list Z → option (option EcKey);
  (** [EC_KEY_get0_public_key (key) != NULL]. *)
  has_public_key : EcKey → bool;
  EC_KEY_check : EcKey → bool;
  SHA256 : list Z → list Z;
  (** 1 for a valid signature, 0 for an invalid one, -1 on an error. *)
  ECDSA_verify : list Z → list Z → EcKey → Z;
  (** The n-th signature made: signing uses a random number. *)
  ECDSA_sign : nat → list Z → EcKey → option (list Z);
  EC_KEY_new_by_curve_name : Z → option EcKey;
  EC_GROUP_new_by_curve_name : Z → option EcGroup;
  EC_POINT_oct2point : EcGroup → list Z → option EcPoint;
  EC_KEY_set_public_key : EcKey → EcPoint → option EcKey;
  EC_KEY_set_private_key : EcKey → BigNum → option EcKey;
  (** [BIO_read_filename] succeeds. *)
  can_read : list Z → bool;
  (** [PEM_read_bio_PrivateKey]: the EC key in the file; the inner option is
      [None] for a key of another type. *)
  PEM_read_PrivateKey : list Z → option (option EcKey);
  EC_KEY_get0_private_key : EcKey → option BigNum;
  (** [d2i_X509_bio]: the octets of the certificate's public key. *)
  d2i_X509 : list Z → option (list Z);
  (** Whether the n-th call of [malloc] succeeds. *)
  malloc_ok : nat → bool
}.

Class UTHash := {
  Tbl : Type;
  h_empty : Tbl;
  (** The records in the table with their keys, in the order of [hh.next]. *)
  h_items : Tbl → list (Z * loc);
  HASH_FIND : Z → Tbl → ptr;
  HASH_ADD : Z → loc → Tbl → Tbl;
  HASH_DEL : loc → Tbl → Tbl;
  (** [hh.hashv] of a key, and [hh.tbl->num_buckets]. *)
  hashv : Z → Z;
  num_buckets : Tbl → Z
}.

(** uthash appends to its list of items, and finds some item with the key when
    there is one; keys are not required to be unique by the macros. *)
Class UTHashLaws `{UTHash} := {
  items_empty : h_items h_empty = [];
  items_add k l t : h_items (HASH_ADD k l t) = h_items t ++ [(k, l)];
  items_del l t : h_items (HASH_DEL l t) = filter (λ i, i.2 ≠ l) (h_items t);
  find_some k t l : HASH_FIND k t = Some l → (k, l) ∈ h_items t;
  find_none k t l : HASH_FIND k t = None → (k, l) ∉ h_items t
}.

(** ** Structures *)

(** [BGPSecKey]; [keyData] points to a byte buffer. *)
Record bskey := BsKey {
  k_algoID : Z; k_keyLength : nat; k_keyData : ptr; k_asn : Z; k_ski : list Z
}.

(** [Record_t]: the hash key is the AS number. *)
Record record := Rec { r_asn : Z; r_ski : ptr; r_data : ptr }.

(** [struct Enbuf_Eckey_t]. *)
Record slot := Slot { en_buf : ptr; ec_key : ptr; slot_id : Z }.

(** [BGPSecSignData].  The data and the SKI are only read and are given by
    their octets; [signature] is a buffer. *)
Record sign_data := SignData {
  sd_data : option (list Z); sd_dataLength : nat; sd_ski : option (list Z);
  sd_algoID : Z; sd_signature : ptr; sd_sigLen : nat
}.

(** The segments of a BGPsec path attribute. *)
Record path_seg := PathSeg { ps_as : Z; ps_pCount : Z; ps_flags : Z }.
Record sig_seg := SigSeg { ss_ski : option (list Z); ss_sigLen : nat; ss_signature : ptr }.
Record sig_block := SigBlock { sb_algo : Z; sb_segs : list sig_seg }.
Record path_attr := PathAttr {
  securePathLen : Z; pathSegments : list path_seg; sigBlocks : option sig_block
}.
(** [struct prefix]: the length and the octets of the address. *)
Record nlri := Nlri { prefixlen : Z; u_prefix : list Z }.

(** ** Memory *)
Section mem.
Context `{OpenSSL} `{UTHash}.

Record mem := Mem {
  bufs : gmap loc (list Z);
  ecs : gmap loc EcKey;
  bkeys : gmap loc bskey;
  recs : gmap loc record;
  g_records : Tbl;
  stEnbuf_Eckey : list slot;
  keyPath : list Z;
  mallocs : nat;
  signs : nat
}.

Definition set_bufs f m := Mem (f (bufs m)) (ecs m) (bkeys m) (recs m) (g_records m)
  (stEnbuf_Eckey m) (keyPath m) (mallocs m) (signs m).
Definition set_ecs f m := Mem (bufs m) (f (ecs m)) (bkeys m) (recs m) (g_records m)
  (stEnbuf_Eckey m) (keyPath m) (mallocs m) (signs m).
Definition set_bkeys f m := Mem (bufs m) (ecs m) (f (bkeys m)) (recs m) (g_records m)
  (stEnbuf_Eckey m) (keyPath m) (mallocs m) (signs m).
Definition set_recs f m := Mem (bufs m) (ecs m) (bkeys m) (f (recs m)) (g_records m)
  (stEnbuf_Eckey m) (keyPath m) (mallocs m) (signs m).
Definition set_tbl f m := Mem (bufs m) (ecs m) (bkeys m) (recs m) (f (g_records m))
  (stEnbuf_Eckey m) (keyPath m) (mallocs m) (signs m).
Definition set_slots f m := Mem (bufs m) (ecs m) (bkeys m) (recs m) (g_records m)
  (f (stEnbuf_Eckey m)) (keyPath m) (mallocs m) (signs m).
Definition set_keyPath f m := Mem (bufs m) (ecs m) (bkeys m) (recs m) (g_records m)
  (stEnbuf_Eckey m) f (mallocs m) (signs m).
Definition tick_malloc m := Mem (bufs m) (ecs m) (bkeys m) (recs m) (g_records m)
  (stEnbuf_Eckey m) (keyPath m) (S (mallocs m)) (signs m).
Definition tick_sign m := Mem (bufs m) (ecs m) (bkeys m) (recs m) (g_records m)
  (stEnbuf_Eckey m) (keyPath m) (mallocs m) (S (signs m)).

(** An address that no live object has. *)
Definition new_loc (m : mem) : loc :=
  fresh (dom (bufs m) ∪ dom (ecs m) ∪ dom (bkeys m) ∪ dom (recs m) : gset loc).

(** [malloc] with the stores of the object's contents that follow it. *)
Definition malloc (init : loc → mem → mem) : M mem ptr := λ m,
  let m' := tick_malloc m in
  if malloc_ok (mallocs m) then Ok (Some (new_loc m), init (new_loc m) m') else Ok (None, m').

Definition deref {A} (f : mem → gmap loc A) (p : ptr) : M mem A := λ m,
  match p ≫= λ l, f m !! l with Some a => Ok (a, m) | None => Err BadAccess end.

(** The first [n] octets of a buffer. *)
Definition octets (b : list Z) (n : nat) : res (list Z) :=
  if decide (n ≤ length b)%nat then Ok (take n b) else Err BadAccess.
Definition read_buf (p : ptr) (n : nat) : M mem (list Z) :=
  b ← deref bufs p; lift (octets b n).
(** Overwrite the start of a buffer. *)
Definition write_buf (p : ptr) (d : list Z) : M mem unit :=
  b ← deref bufs p;
  if decide (length d ≤ length b)%nat
  then modify (set_bufs (λ bs, from_option (λ l, <[l := d ++ drop (length d) b]> bs) bs p))
  else fail BadAccess.

Definition free_in {A} (f : mem → gmap loc A) (set : (gmap loc A → gmap loc A) → mem → mem)
    (p : ptr) : M mem unit :=
  deref f p;; modify (set (λ h, from_option (λ l, delete l h) h p)).

(** [EC_KEY] objects: a new one, and [EC_KEY_free], which ignores [NULL]. *)
Definition new_ec (k : EcKey) : M mem ptr := λ m,
  Ok (Some (new_loc m), set_ecs <[new_loc m := k]> m).
Definition EC_KEY_free (p : ptr) : M mem unit :=
  match p with None => mret tt | Some _ => free_in ecs set_ecs p end.
(** [EC_KEY_check_key] is false of [NULL]. *)
Definition EC_KEY_check_key (p : ptr) : M mem bool :=
  match p with None => mret false | Some _ => k ← deref ecs p; mret (EC_KEY_check k) end.

(** ** Lemmas on memory *)
Lemma new_loc_fresh m :
  bufs m !! new_loc m = None ∧ ecs m !! new_loc m = None ∧
  bkeys m !! new_loc m = None ∧ recs m !! new_loc m = None.
Proof.
  pose proof (is_fresh (dom (bufs m) ∪ dom (ecs m) ∪ dom (bkeys m) ∪ dom (recs m) : gset loc)) as Hf.
  unfold new_loc. split_and!; apply not_elem_of_dom; set_solver.
Qed.

Lemma deref_ok {A} (f : mem → gmap loc A) l a m :
  f m !! l = Some a → deref f (Some l) m = Ok (a, m).
Proof. intros E. unfold deref. simpl. by rewrite E. Qed.
Lemma deref_freed {A} (f : mem → gmap loc A) l m :
  f m !! l = None → deref f (Some l) m = Err BadAccess.
Proof. intros E. unfold deref. simpl. by rewrite E. Qed.
Lemma deref_null {A} (f : mem → gmap loc A) m : deref f NULL m = Err BadAccess.
Proof. done. Qed.

Lemma octets_ok b n : (n ≤ length b)%nat → octets b n = Ok (take n b).
Proof. intros. unfold octets. by rewrite decide_True. Qed.
Lemma read_buf_ok l b n m :
  bufs m !! l = Some b → (n ≤ length b)%nat → read_buf (Some l) n m = Ok (take n b, m).
Proof.
  intros Hb Hn. unfold read_buf. rewrite (bind_ok _ _ _ _ _ (deref_ok bufs l b m Hb)).
  unfold lift. by rewrite octets_ok.
Qed.

Lemma write_buf_ok l b d m :
  bufs m !! l = Some b → (length d ≤ length b)%nat →
  write_buf (Some l) d m = Ok (tt, set_bufs <[l := d ++ drop (length d) b]> m).
Proof.
  intros Hb Hl. unfold write_buf. rewrite (bind_ok _ _ _ _ _ (deref_ok bufs l b m Hb)).
  by rewrite decide_True.
Qed.

Lemma EC_KEY_free_ok l k m :
  ecs m !! l = Some k → EC_KEY_free (Some l) m = Ok (tt, set_ecs (delete l) m).
Proof. intros E. unfold EC_KEY_free, free_in. by rewrite (bind_ok _ _ _ _ _ (deref_ok ecs l k m E)). Qed.
Lemma EC_KEY_free_bad l m : ecs m !! l = None → EC_KEY_free (Some l) m = Err BadAccess.
Proof. intros E. unfold EC_KEY_free, free_in. apply bind_err. by apply deref_freed. Qed.

Lemma set_ecs_same m : set_ecs (λ x, x) m = m.
Proof. by destruct m. Qed.
(** Freeing a key right after it was made restores the memory. *)
Lemma set_ecs_new_free m k :
  set_ecs (delete (new_loc m)) (set_ecs <[new_loc m := k]> m) = m.
Proof.
  destruct m as [b e bk r g s kp n sg]. unfold set_ecs. simpl. f_equal.
  apply delete_insert_id. by apply (new_loc_fresh (Mem b e bk r g s kp n sg)).
Qed.
Lemma EC_KEY_free_new k m :
  EC_KEY_free (Some (new_loc m)) (set_ecs <[new_loc m := k]> m) = Ok (tt, m).
Proof.
  rewrite (EC_KEY_free_ok _ k) by apply lookup_insert_eq. by rewrite set_ecs_new_free.
Qed.
Lemma new_ec_check k m :
  EC_KEY_check_key (Some (new_loc m)) (set_ecs <[new_loc m := k]> m) =
  Ok (EC_KEY_check k, set_ecs <[new_loc m := k]> m).
Proof.
  unfold EC_KEY_check_key. erewrite bind_ok; [|apply deref_ok, lookup_insert_eq]. done.
Qed.
End mem.
