(* ===== verification/Bgpsec.v ===== *)
(** * BGPsec signing, verification and the key store
    ([openssl_util_code/bgpsec_openssl-VariousKeyManipulation.c])

    The operations of the crypto plug-in: the digests of a BGPsec path and
    their verification ([cl_BgpsecVerify]), signing with a key, a key file or a
    registered key id, and the store of registered keys, a uthash table keyed
    by AS number ([g_records]) with an array of decoded keys
    ([stEnbuf_Eckey]).  The configuration is the one of the source: private
    keys and public keys in DER ([USE_EC_PRIVATE]), and [IS_DEBUG_ENABLED] off.
    Log lines are left out, but where an argument of one reads memory the read
    is kept. *)

From stdpp Require Import base gmap list.
From Stdlib Require Import ZArith Lia.
From S2P Require Import Prelude CryptoApi BgpsecLib.

Local Open Scope Z_scope.

Definition API_BGPSEC_ALGO_ID_256 : Z := 1.

(** ** DER detection *)
Definition ID_SEQUENCE : Z := 48.
Definition ID_INTEGER : Z := 2.
Definition ID_OCTET_STRING : Z := 4.

Definition rd (p : list Z) (pos : Z) : res Z := res_of BadAccess (p !! Z.to_nat pos).

(** 1: a private key, 0: a public key, -1: neither.  [pos] is an
    [unsigned char]. *)
Definition IS_DER_PRIVATE (buf : option (list Z)) (length : Z) : res Z :=
  match buf with
  | None => Ok (-1)
  | Some p =>
      tag ← rd p 0;
      if negb (tag =? ID_SEQUENCE) then Ok (-1)
      else
        init_len ← rd p 1;
        if (length <? 127) && (Z.land init_len 128 =? 0) then
          tag ← rd p 2;
          if tag =? ID_INTEGER then
            int_len ← rd p 3;
            tag ← rd p (u8 (4 + int_len));
            if tag =? ID_OCTET_STRING then Ok 1 else Ok (-1)
          else if tag =? ID_SEQUENCE then Ok 0 else Ok (-1)
        else
          let subseq_len := Z.land init_len 127 in
          let pos := u8 (2 + subseq_len) in
          tag ← rd p pos;
          if tag =? ID_INTEGER then
            int_len ← rd p (u8 (pos + 1));
            tag ← rd p (u8 (pos + 2 + int_len));
            if tag =? ID_OCTET_STRING then Ok 1 else Ok (-1)
          else if tag =? ID_SEQUENCE then Ok 0 else Ok (-1)
  end.

(** ** Octets of the signed data *)

(** [put_u32]: network byte order. *)
Definition put_u32 (x : Z) : list Z :=
  [u8 (Z.shiftr x 24); u8 (Z.shiftr x 16); u8 (Z.shiftr x 8); u8 x].

(** The octets of [hashbuff] for a transit segment and for the origin. *)
Definition hash_transit (targetAS : Z) (seg : path_seg) (next_signature : list Z) : list Z :=
  put_u32 targetAS ++ put_u32 (ps_as seg) ++ [u8 (ps_pCount seg); u8 (ps_flags seg)] ++ next_signature.
Definition hash_origin (targetAS : Z) (seg : path_seg) (algoSuiteId : Z) (plen : Z)
    (prefix : list Z) : list Z :=
  put_u32 targetAS ++ put_u32 (ps_as seg) ++
  [u8 (ps_pCount seg); u8 (ps_flags seg); u8 algoSuiteId; u8 plen] ++ prefix.

Section code.
Context `{ApiConsts} `{OpenSSL} `{UTHash}.
Abbreviation M' := (M mem).

(** ** Comparison of SKIs *)
Fixpoint cmp_loop (n : nat) (arr1 arr2 : list Z) : res bool :=
  match n with
  | O => Ok true
  | S n =>
      match arr1, arr2 with
      | x :: arr1, y :: arr2 => if x =? y then cmp_loop n arr1 arr2 else Ok false
      | _, _ => Err BadAccess
      end
  end.
Definition cmpSKI (arr1 arr2 : list Z) : res bool := cmp_loop SKI_LENGTH arr1 arr2.

(** ** Parameter checks *)
Definition is_null {A} (o : option A) : bool := match o with None => true | Some _ => false end.

Definition cl_SignParamSanityCheck (signData : option sign_data) : Z :=
  match signData with
  | None => -1
  | Some d => if is_null (sd_ski d) || is_null (sd_data d) || is_null (sd_signature d) then -1 else 0
  end.

Definition cl_SignParamWithKeySanityCheck (signData : option sign_data) (key : ptr) : M' Z :=
  match signData with
  | None => mret (-1)
  | Some d =>
      if is_null (sd_ski d) || is_null (sd_data d) || is_null (sd_signature d) then mret (-1)
      else if is_null key then mret (-1)
      else k ← deref bkeys key; if is_null (k_keyData k) then mret (-1) else mret 0
  end.

Definition cl_SignParamWithIDSanityCheck (signData : option sign_data) (keyID : Z) : Z :=
  match signData with
  | None => -1
  | Some d =>
      if is_null (sd_data d) || is_null (sd_signature d) then -1
      else if keyID =? 0 then -1 else 0
  end.

Definition cl_BgpsecSanityCheck (bpa : option path_attr) : Z :=
  match bpa with
  | None => -1
  | Some a =>
      match pathSegments a, sigBlocks a with
      | _ :: _, Some sb =>
          match sb_segs sb with
          | [] => -1
          | ss :: _ => if is_null (ss_signature ss) || is_null (ss_ski ss) then -1 else 0
          end
      | _, _ => -1
      end
  end.

(** ** Digest and verification of one signature *)
Definition cl_BgpsecOctetDigest (octet : option (list Z)) (octet_len : nat) : res (list Z) :=
  match octet with
  | None => Err BadAccess
  | Some o => b ← octets o octet_len; Ok (SHA256 b)
  end.

Definition cl_BgpsecDoVerifySignature (digest : list Z) (eckey : ptr) (signature : ptr)
    (signature_len : nat) : M' Z :=
  k ← deref ecs eckey;
  sg ← read_buf signature signature_len;
  if ECDSA_verify digest sg k =? 0 then mret API_BGPSEC_VERIFY_FAILURE
  else mret API_BGPSEC_VERIFY_SUCCESS.

(** The part of [stcl_BgpsecVerifySignatureSSL_withKeyInfo] that decodes
    [keys[keyCnt]]: whether it succeeded, and [ecdsa_key]. *)
Definition decode_key (keys : option (list ptr)) (keyCnt : Z) : M' (bool * ptr) :=
  match keys with
  | None => mret (false, NULL)
  | Some ks =>
      kp ← (if keyCnt <? 0 then fail BadAccess else from_option_or BadAccess (ks !! Z.to_nat keyCnt));
      if is_null kp then mret (false, NULL)
      else
        k ← deref bkeys kp;
        if is_null (k_keyData k) then mret (false, NULL)
        else
          p ← deref bufs (k_keyData k);
          retType ← lift (IS_DER_PRIVATE (Some p) (u16 (Z.of_nat (k_keyLength k))));
          der ← lift (octets p (k_keyLength k));
          ecdsa_key ← (if retType =? 1 then
                         match d2i_ECPrivateKey der with
                         | None => mret NULL
                         | Some e => new_ec e
                         end
                       else
                         match d2i_PUBKEY der with
                         | Some (Some e) => new_ec e
                         | _ => mret NULL
                         end);
          if is_null ecdsa_key then mret (false, NULL)
          else
            e ← deref ecs ecdsa_key;
            mret (has_public_key e, ecdsa_key)
  end.

Definition stcl_BgpsecVerifySignatureSSL_withKeyInfo (d : sign_data) (keys : option (list ptr))
    (keyCnt : Z) : M' Z :=
  '(ok, ecdsa_key) ← decode_key keys keyCnt;
  if negb ok then EC_KEY_free ecdsa_key;; mret (-1)
  else
    valid ← EC_KEY_check_key ecdsa_key;
    if negb valid then EC_KEY_free ecdsa_key;; mret (-1)
    else
      md ← lift (cl_BgpsecOctetDigest (sd_data d) (sd_dataLength d));
      status ← cl_BgpsecDoVerifySignature md ecdsa_key (sd_signature d) (sd_sigLen d);
      EC_KEY_free ecdsa_key;;
      if negb (status =? API_BGPSEC_VERIFY_SUCCESS) then mret API_BGPSEC_VERIFY_FAILURE
      else mret status.

(** ** Keys in files *)

(** [sca_FindDirInSKI]: the directory and file name of a key, from the
    hexadecimal digits of its SKI; [BIO_snprintf] cuts it to the buffer. *)
Definition hex_digit (n : Z) : Z := if n <? 10 then 48 + n else 55 + n.
Definition hex_octet (o : Z) : list Z := [hex_digit (Z.shiftr o 4); hex_digit (Z.land o 15)].
Definition sca_FindDirInSKI (filenamebufLen : nat) (ski : option (list Z)) : M' (list Z) :=
  s ← from_option_or BadAccess ski;
  s ← lift (octets s SKI_LENGTH);
  let skiHex := s ≫= hex_octet in
  if decide (SKI_HEX_LENGTH < length skiHex)%nat then fail BadAccess
  else
    path ← gets keyPath;
    mret (take (filenamebufLen - 2)
      (path ++ [47] ++ take 2 skiHex ++ [47] ++ take 4 (drop 2 skiHex) ++ [47] ++ drop 6 skiHex)).

Definition file_name (fn ext : list Z) : list Z := take (MAXPATHLEN - 2) (fn ++ [46] ++ ext).

(** The [EVP_PKEY] read from the file, by the [EC_KEY] it owns ([Some NULL] for a
    key of another type). *)
Definition cl_GetPrivateKey (fn : list Z) : M' (option ptr) :=
  let szFileName := file_name fn DEFAULT_KEYFILE_EXT in
  if can_read szFileName then
    match PEM_read_PrivateKey szFileName with
    | None => mret None
    | Some None => mret (Some NULL)
    | Some (Some k) => e ← new_ec k; mret (Some e)
    end
  else mret None.

Definition cl_GetPublicKey (fn : list Z) : option (list Z) :=
  let szFileName := file_name fn DEFAULT_CERTFILE_EXT in
  if can_read szFileName then d2i_X509 szFileName else None.

Definition curve (curveId : Z) : Z :=
  if curveId =? API_BGPSEC_ALGO_ID_256 then NID_X9_62_prime256v1 else curveId.

(** The code reads [privateKey->pkey.ec] whatever the type of the key, and never
    frees [privateKey].  Without a private number there is nothing to set. *)
Definition cl_BgpsecSetEcPrivateKey (filePrefix : list Z) (ecdsa_key : ptr) : M' Z :=
  privateKey ← cl_GetPrivateKey filePrefix;
  match privateKey with
  | None => mret API_BGPSEC_FAILURE
  | Some pkey_ec =>
      f ← deref ecs pkey_ec;
      k ← deref ecs ecdsa_key;
      match EC_KEY_get0_private_key f ≫= EC_KEY_set_private_key k with
      | None => mret API_BGPSEC_FAILURE
      | Some k' =>
          modify (set_ecs (λ h, from_option (λ l, <[l := k']> h) h ecdsa_key));;
          mret API_BGPSEC_SUCCESS
      end
  end.

(** The return code and the final [*ecdsa_key]. *)
Definition cl_BgpsecSetEcPublicKey (filePrefix : list Z) (curveId : Z) : M' (Z * ptr) :=
  match cl_GetPublicKey filePrefix with
  | None => mret (API_BGPSEC_FAILURE, NULL)
  | Some pubkey =>
      ecdsa_key ← match EC_KEY_new_by_curve_name (curve curveId) with
                  | None => mret NULL
                  | Some k => new_ec k
                  end;
      match EC_GROUP_new_by_curve_name (curve curveId) with
      | None => EC_KEY_free ecdsa_key;; mret (API_BGPSEC_FAILURE, ecdsa_key)
      | Some ecGroup =>
          if decide (4096 < length pubkey)%nat then fail BadAccess
          else
            set ← match EC_POINT_oct2point ecGroup pubkey with
                  | None => mret false
                  | Some pt =>
                      k ← deref ecs ecdsa_key;
                      match EC_KEY_set_public_key k pt with
                      | None => mret false
                      | Some k' =>
                          modify (set_ecs (λ h, from_option (λ l, <[l := k']> h) h ecdsa_key));;
                          mret true
                      end
                  end;
            if negb set then EC_KEY_free ecdsa_key;; mret (API_BGPSEC_FAILURE, ecdsa_key)
            else
              valid ← EC_KEY_check_key ecdsa_key;
              if negb valid then EC_KEY_free ecdsa_key;; mret (API_BGPSEC_FAILURE, ecdsa_key)
              else mret (API_BGPSEC_SUCCESS, ecdsa_key)
      end
  end.

Definition stcl_BgpsecVerifySignatureSSL (d : sign_data) : M' Z :=
  szFileName ← sca_FindDirInSKI MAXPATHLEN (sd_ski d);
  '(r, ecdsa_key) ← cl_BgpsecSetEcPublicKey szFileName API_BGPSEC_DEFAULT_CURVE;
  if negb (API_BGPSEC_SUCCESS =? r) then EC_KEY_free ecdsa_key;; mret (-1)
  else
    md ← lift (cl_BgpsecOctetDigest (sd_data d) (sd_dataLength d));
    status ← cl_BgpsecDoVerifySignature md ecdsa_key (sd_signature d) (sd_sigLen d);
    if negb (status =? API_BGPSEC_VERIFY_SUCCESS)
    then EC_KEY_free ecdsa_key;; mret API_BGPSEC_VERIFY_FAILURE
    else mret status.

(** ** Verification of a path *)

(** [hashbuff] has [BGPSEC_MAX_SIG_LENGTH + 10] octets. *)
Definition fill_hashbuff (d : list Z) : M' (list Z) :=
  if decide (length d ≤ BGPSEC_MAX_SIG_LENGTH + 10)%nat then mret d else fail BadAccess.

(** [keys && keys[i]]. *)
Definition has_key (keys : option (list ptr)) (i : Z) : M' bool :=
  match keys with
  | None => mret false
  | Some ks =>
      k ← (if i <? 0 then fail BadAccess else from_option_or BadAccess (ks !! Z.to_nat i));
      mret (negb (is_null k))
  end.

Definition verify_data (sb : sig_block) (ss : sig_seg) (hashbuff : list Z) : sign_data :=
  SignData (Some hashbuff) (length hashbuff) (ss_ski ss) (sb_algo sb) (ss_signature ss) (ss_sigLen ss).

(** The verification of a transit segment, whose signature covers the one of
    the next signature segment, and of the origin.  [iter] segments remain. *)
Definition verify_transit (sb : sig_block) (number_keys : Z) (keys : option (list ptr))
    (sg : path_seg) (s nxt : sig_seg) (iter targetAS : Z) : M' Z :=
  sig ← read_buf (ss_signature nxt) (ss_sigLen nxt);
  hashbuff ← fill_hashbuff (hash_transit targetAS sg sig);
  let d := verify_data sb s hashbuff in
  let currNum := number_keys - iter in
  k ← has_key keys currNum;
  if k : bool then stcl_BgpsecVerifySignatureSSL_withKeyInfo d keys (u16 currNum)
  else stcl_BgpsecVerifySignatureSSL d.

Definition verify_origin (sb : sig_block) (number_keys : Z) (keys : option (list ptr))
    (p : option nlri) (sg : path_seg) (s : sig_seg) (iter targetAS : Z) : M' Z :=
  pf ← from_option_or BadAccess p;
  pfx ← lift (octets (u_prefix pf) (PSIZE (prefixlen pf)));
  hashbuff ← fill_hashbuff (hash_origin targetAS sg (sb_algo sb) (prefixlen pf) pfx);
  let d := verify_data sb s hashbuff in
  k ← has_key keys 0;
  if k : bool then stcl_BgpsecVerifySignatureSSL_withKeyInfo d keys (u16 (number_keys - iter))
  else stcl_BgpsecVerifySignatureSSL d.

(** The [while] loop of [cl_BgpsecVerify]. *)
Fixpoint verify_loop (sb : sig_block) (number_keys : Z) (keys : option (list ptr)) (p : option nlri)
    (seg : list path_seg) (ss : list sig_seg) (iter : Z) (targetAS : Z) : M' Z :=
  match seg, ss with
  | sg :: seg', s :: ss' =>
      if iter =? 0 then mret API_BGPSEC_VERIFY_SUCCESS
      else if 1 <? iter then
        match ss' with
        | [] => mret API_BGPSEC_VERIFY_ERROR
        | nxt :: _ =>
            status ← verify_transit sb number_keys keys sg s nxt iter targetAS;
            if negb (API_BGPSEC_VERIFY_SUCCESS =? status) then mret API_BGPSEC_VERIFY_ERROR
            else verify_loop sb number_keys keys p seg' ss' (iter - 1) (ps_as sg)
        end
      else
        status ← verify_origin sb number_keys keys p sg s iter targetAS;
        if negb (API_BGPSEC_VERIFY_SUCCESS =? status) then mret API_BGPSEC_VERIFY_ERROR
        else verify_loop sb number_keys keys p seg' ss' (iter - 1) targetAS
  | _, _ => mret API_BGPSEC_VERIFY_SUCCESS
  end.

Definition cl_BgpsecVerify (bpa : option path_attr) (number_keys : Z) (keys : option (list ptr))
    (prefix : option nlri) (local_as : Z) : M' Z :=
  if negb (cl_BgpsecSanityCheck bpa =? 0) then mret API_BGPSEC_VERIFY_ERROR
  else
    match bpa with
    | Some (PathAttr len seg (Some sb)) =>
        let iter := u16 (Z.quot (len - OCTET_SECURE_PATH_LEN) OCTET_SECURE_PATH_SEGMENT) in
        verify_loop sb number_keys keys prefix seg (sb_segs sb) iter local_as
    | _ => fail BadAccess
    end.

Definition validate := cl_BgpsecVerify.

(** ** Signing *)

(** The length of the caller's signature buffer is not consulted. *)
Definition cl_BgpsecECDSA_Sign (digest : list Z) (ecdsa_key : ptr) (signature : ptr) : M' Z :=
  k ← deref ecs ecdsa_key;
  n ← gets signs;
  modify tick_sign;;
  match ECDSA_sign n digest k with
  | None => EC_KEY_free ecdsa_key;; mret 0
  | Some sg =>
      write_buf signature sg;;
      if ECDSA_verify digest sg k =? 1 then mret (Z.of_nat (length sg))
      else EC_KEY_free ecdsa_key;; mret (Z.of_nat (length sg))
  end.

(** The [switch] on the algorithm of the signing functions. *)
Definition sign_switch (d : sign_data) (ecdsa_key : ptr) : M' Z :=
  if sd_algoID d =? API_BGPSEC_ALGO_ID_256 then
    md ← lift (cl_BgpsecOctetDigest (sd_data d) (sd_dataLength d));
    cl_BgpsecECDSA_Sign md ecdsa_key (sd_signature d)
  else mret 0.

Definition stBgpsecReqSigning (sslSignData : option sign_data) : M' Z :=
  match sslSignData with
  | Some d =>
      if negb (cl_SignParamSanityCheck sslSignData =? 0) then mret (-1)
      else
        szFileName ← sca_FindDirInSKI MAXPATHLEN (sd_ski d);
        '(r, ecdsa_key) ← cl_BgpsecSetEcPublicKey szFileName API_BGPSEC_DEFAULT_CURVE;
        failed ← (if negb (API_BGPSEC_SUCCESS =? r) then mret true
                  else r ← cl_BgpsecSetEcPrivateKey szFileName ecdsa_key; mret (negb (r =? 0)));
        if failed : bool then EC_KEY_free ecdsa_key;; mret (-1)
        else
          valid ← EC_KEY_check_key ecdsa_key;
          if negb valid then EC_KEY_free ecdsa_key;; mret 0
          else sign_switch d ecdsa_key
  | None => mret (-1)
  end.

Definition stBgpsecReqSigningWithKeyInfo (sslSignData : option sign_data) (bgpsecKey : ptr) : M' Z :=
  c ← cl_SignParamWithKeySanityCheck sslSignData bgpsecKey;
  match sslSignData with
  | Some d =>
      if negb (c =? 0) then mret (-1)
      else
        bk ← deref bkeys bgpsecKey;
        der ← read_buf (k_keyData bk) (k_keyLength bk);
        ecdsa_key ← match d2i_ECPrivateKey der with
                    | None => mret NULL
                    | Some k => new_ec k
                    end;
        valid ← EC_KEY_check_key ecdsa_key;
        if negb valid then mret 0
        else
          ret ← sign_switch d ecdsa_key;
          EC_KEY_free ecdsa_key;;
          mret ret
  | None => mret (-1)
  end.

(** [stEnbuf_Eckey[keyID]]. *)
Definition get_slot (keyID : Z) : M' slot :=
  s ← gets stEnbuf_Eckey; from_option_or BadAccess (s !! Z.to_nat keyID).
Definition put_slot (keyID : Z) (v : slot) : M' unit :=
  get_slot keyID;; modify (set_slots <[Z.to_nat keyID := v]>).

Definition stBgpsecReqSigningWithID (sslSignData : option sign_data) (inID : Z) : M' Z :=
  match sslSignData with
  | Some d =>
      if negb (cl_SignParamWithIDSanityCheck sslSignData inID =? 0) then mret (-1)
      else
        s ← get_slot (u8 (inID - RET_ID_OFFSET));
        valid ← EC_KEY_check_key (ec_key s);
        if negb valid then mret 0
        else sign_switch d (ec_key s)
  | None => mret (-1)
  end.

Definition sign_with_key (bgpsec_data : option sign_data) (key : ptr) : M' Z :=
  kd ← match key with
       | None => mret NULL
       | Some _ => k ← deref bkeys key; mret (k_keyData k)
       end;
  if is_null kd then stBgpsecReqSigning bgpsec_data
  else stBgpsecReqSigningWithKeyInfo bgpsec_data key.

Definition sign_with_id (dataLength : nat) (data : option (list Z)) (keyID : Z) (sigLen : nat)
    (signature : ptr) : M' Z :=
  stBgpsecReqSigningWithID
    (Some (SignData data dataLength None API_BGPSEC_ALGO_ID_256 signature sigLen)) keyID.

(** ** The key store *)
Definition inputKeyInfo (ec : ptr) (ski : list Z) (asn : Z) (outKey : ptr) : M' Z :=
  if is_null ec || is_null outKey then mret (-1)
  else
    ok ← deref bkeys outKey;
    bsKeyInfo ← malloc (λ l, set_bkeys <[l := BsKey API_BGPSEC_ALGO_ID_256 sizeof_EC_KEY
      (k_keyData ok) (k_asn ok) (take SKI_LENGTH (k_ski ok))]>);
    match bsKeyInfo with
    | None => fail BadAccess                 (* [goto err], where [new] is not set *)
    | Some _ =>
        new ← malloc (λ l, set_recs <[l := Rec 0 NULL NULL]>);
        match new with
        | None => fail BadAccess             (* [memset (NULL, ...)] *)
        | Some nw =>
            skibuf ← malloc (λ l, set_bufs <[l := replicate SKI_LENGTH 0]>);
            match skibuf with
            | None => free_in bkeys set_bkeys bsKeyInfo;; free_in recs set_recs new;; mret (-1)
            | Some _ =>
                s ← lift (octets ski SKI_LENGTH);
                write_buf skibuf s;;
                modify (set_recs <[nw := Rec asn skibuf bsKeyInfo]>);;
                modify (set_tbl (HASH_ADD asn nw));;
                mret (Z.land (hashv asn) (ID_NUM_MAX - 1))
            end
        end
    end.

Definition restoreKeyInfo (ski : option (list Z)) (asn : Z) : M' ptr :=
  s ← from_option_or BadAccess ski;
  from_option_or BadAccess (head s);;
  t ← gets g_records;
  match HASH_FIND asn t with
  | None => mret NULL
  | Some out =>
      r ← deref recs (Some out);
      rs ← deref bufs (r_ski r);
      same ← lift (cmpSKI rs s);
      if same : bool then deref bkeys (r_data r);; mret (Some out) else mret NULL
  end.

(** The loop of [restoreKeyInfo_withID]. *)
Definition withID_step (ski : list Z) (asn id : Z) (s : loc) : M' ptr :=
  r ← deref recs (Some s);
  if r_asn r =? asn then
    rs ← deref bufs (r_ski r);
    same ← lift (cmpSKI rs ski);
    if same : bool then if id =? hashv (r_asn r) then mret (Some s) else mret NULL
    else mret NULL
  else mret NULL.
Definition restoreKeyInfo_withID (ski : list Z) (asn id : Z) : M' ptr :=
  t ← gets g_records;
  match h_items t with
  | [] => mret NULL
  | (_, s) :: _ => withID_step ski asn id s  (* both branches of the body return *)
  end.

Definition hashKey_get_BGPSecKey (asn : Z) (ski : option (list Z)) : M' ptr :=
  if is_null ski || (asn =? 0) then mret NULL
  else
    rec ← restoreKeyInfo ski asn;
    match rec with
    | Some _ => r ← deref recs rec; mret (r_data r)
    | None => mret NULL
    end.

(** [ret_hash_id] of a record, and the id returned for it. *)
Definition rec_id (r : record) : Z := u8 (Z.land (hashv (r_asn r)) (ID_NUM_MAX - 1)).
Definition ret_id (ret_hash_id : Z) : Z := u8 (ret_hash_id + RET_ID_OFFSET).
Definition hash_id_of (retVal : Z) : Z := if retVal =? -1 then 0 else u8 retVal.

Definition registerPrivateKey (outKey : ptr) : M' Z :=
  if is_null outKey then mret 0
  else
    ok ← deref bkeys outKey;
    if k_asn ok =? 0 then mret 0
    else
      rec ← restoreKeyInfo (Some (k_ski ok)) (k_asn ok);
      match rec with
      | Some _ => r ← deref recs rec; mret (ret_id (rec_id r))
      | None =>
          der ← read_buf (k_keyData ok) (k_keyLength ok);
          match d2i_ECPrivateKey der with
          | None => mret 0
          | Some k =>
              ec ← new_ec k;
              retVal ← inputKeyInfo ec (k_ski ok) (k_asn ok) outKey;
              let ret_hash_id := hash_id_of retVal in
              put_slot ret_hash_id (Slot (k_keyData ok) ec ret_hash_id);;
              mret (ret_id ret_hash_id)
          end
      end.

(** The branch of [registerPublicKey] for a key that is registered: the
    caller's empty key is filled from the stored one. *)
Definition fill_outKey (outKey : ptr) (rec : ptr) : M' unit :=
  r ← deref recs rec;
  tmp ← deref bkeys (r_data r);
  kd ← malloc (λ l, set_bufs <[l := replicate (k_keyLength tmp) 0]>);
  (if is_null kd then mret tt
   else b ← read_buf (k_keyData tmp) (k_keyLength tmp); write_buf kd b);;
  ok ← deref bkeys outKey;
  kd' ← (if is_null (k_keyData ok) then mret kd
         else (if is_null kd then mret tt else free_in bufs set_bufs kd);; mret (k_keyData ok));
  let len' := if decide (k_keyLength ok = 0)%nat then k_keyLength tmp else k_keyLength ok in
  modify (set_bkeys (λ h, from_option (λ l,
    <[l := BsKey (k_algoID ok) len' kd' (k_asn ok) (k_ski ok)]> h) h outKey)).

(** The sixth argument of the call of [inputKeyInfo] has no parameter and is
    left out. *)
Definition registerPublicKey (outKey : ptr) : M' Z :=
  if is_null outKey then mret 0
  else
    ok ← deref bkeys outKey;
    if k_asn ok =? 0 then mret 0
    else
      rec ← restoreKeyInfo (Some (k_ski ok)) (k_asn ok);
      match rec with
      | Some _ =>
          r ← deref recs rec;
          fill_outKey outKey rec;;
          mret (ret_id (rec_id r))
      | None =>
          if is_null (k_keyData ok) then mret 0
          else
            der ← read_buf (k_keyData ok) (k_keyLength ok);
            match d2i_PUBKEY der with
            | None => mret 0
            | Some None => fail BadAccess      (* [ec_key->pub_key] in a log line *)
            | Some (Some k) =>
                ec ← new_ec k;
                retVal ← inputKeyInfo ec (k_ski ok) (k_asn ok) outKey;
                mret (ret_id (hash_id_of retVal))
            end
      end.

(** [deleteKeyInfo] frees [keyData] as an [EC_KEY]. *)
Definition deleteKeyInfo (rec : ptr) : M' Z :=
  match rec with
  | None => mret (-1)
  | Some l =>
      r ← deref recs rec;
      bs ← deref bkeys (r_data r);
      EC_KEY_free (k_keyData bs);;
      free_in bkeys set_bkeys (r_data r);;
      (if is_null (r_ski r) then mret tt else free_in bufs set_bufs (r_ski r));;
      modify (set_tbl (HASH_DEL l));;
      free_in recs set_recs rec;;
      mret 0
  end.

Definition unregisterKey (ski : option (list Z)) (asn : Z) : M' Z :=
  if asn =? 0 then mret 0
  else
    rec ← restoreKeyInfo ski asn;
    match rec with
    | Some _ => deleteKeyInfo rec;; mret 0
    | None => mret 0
    end.

(** The loop of [unregisterPrivateKey] over the records; after [free (s)] the
    step reads [s->hh.next]. *)
Fixpoint unregister_loop (keyID : Z) (eb : ptr) (items : list (Z * loc)) : M' unit :=
  match items with
  | [] => mret tt
  | (_, s) :: items =>
      r ← deref recs (Some s);
      t ← gets g_records;
      if Z.land (hashv (r_asn r)) (num_buckets t - 1) =? keyID then
        tmp ← deref bkeys (r_data r);
        if decide (eb = k_keyData tmp) then
          modify (set_tbl (HASH_DEL s));;
          free_in recs set_recs (Some s);;
          deref recs (Some s);;
          unregister_loop keyID eb items
        else unregister_loop keyID eb items
      else unregister_loop keyID eb items
  end.

Definition unregisterPrivateKey (inID : Z) : M' Z :=
  let keyID := u8 (inID - RET_ID_OFFSET) in
  s ← get_slot keyID;
  if negb (keyID =? slot_id s) then mret 0
  else
    t ← gets g_records;
    unregister_loop keyID (en_buf s) (h_items t);;
    EC_KEY_free (ec_key s);;
    (if is_null (en_buf s) then mret tt else free_in bufs set_bufs (en_buf s));;
    put_slot keyID (Slot NULL NULL 0);;
    mret 0.
End code.
