(* ===== verification/BgpsecProofs.v ===== *)
(** * BGPsec: correctness of DER detection, verification, signing and the key store

    [path_valid] is the meaning of a signed path: each hop's signature is valid
    over the octets of RFC 8205 that [hash_transit] and [hash_origin] list;
    [path_accepted] is what the code tests, which also lets errors pass.
    [verify_path_correct] relates it to [cl_BgpsecVerify].  [store_wf] is the
    invariant of the key store, against the laws of the hash table.  The last
    section instantiates the libraries with small concrete functions. *)

From stdpp Require Import base gmap list.
From Stdlib Require Import ZArith Lia.
From S2P Require Import Prelude BgpsecLib Bgpsec.

Local Open Scope Z_scope.

(** Run the next command of a sequence, given its result. *)
Ltac exec H := rewrite (bind_ok _ _ _ _ _ H).

(** ** DER *)

(** The DER length octets and a SEQUENCE (X.690, 8.1.3). *)
Definition der_len (n : nat) : list Z :=
  if decide (n < 128)%nat then [Z.of_nat n]
  else if decide (n < 256)%nat then [129; Z.of_nat n]
  else [130; Z.of_nat n / 256; Z.of_nat n mod 256].
Definition der_seq (body : list Z) : list Z := ID_SEQUENCE :: der_len (length body) ++ body.

Lemma der_seq_length body : Z.of_nat (length body) < 65000 →
  u16 (Z.of_nat (length (der_seq body))) = Z.of_nat (length (der_seq body)).
Proof.
  intros Hl. apply u16_small. unfold der_seq, der_len. simpl. rewrite length_app.
  repeat case_decide; simpl; lia.
Qed.

(** In the long form the contents start after the length octets. *)
Lemma der_long_form body c rest : body = c :: rest → (128 ≤ length body)%nat →
  ∃ l0 lens, der_seq body = ID_SEQUENCE :: l0 :: lens ++ body ∧ Z.land l0 128 ≠ 0 ∧
    Z.land l0 127 = Z.of_nat (length lens) ∧ (length lens ≤ 2)%nat.
Proof.
  intros Hb Hl. unfold der_seq, der_len. rewrite decide_False by lia.
  case_decide; [exists 129, [Z.of_nat (length body)]|exists 130, [Z.of_nat (length body) / 256; Z.of_nat (length body) mod 256]];
    (split_and!; [done|done|done|simpl; lia]).
Qed.

Lemma land_short n : 0 ≤ n < 128 → Z.land n 128 = 0.
Proof.
  intros Hn. apply Z.bits_inj'. intros i Hi. rewrite Z.land_spec, Z.bits_0.
  change 128 with (2 ^ 7). rewrite Z.pow2_bits_eqb by lia.
  destruct (Z.eqb_spec 7 i) as [<-|]; [|by rewrite andb_false_r].
  rewrite andb_true_r, Z.testbit_false, Z.div_small by lia. done.
Qed.
Lemma land_127 n : 0 ≤ n < 128 → Z.land n 127 = n.
Proof. intros. change 127 with (Z.ones 7). rewrite Z.land_ones by lia. by apply Z.mod_small. Qed.

Lemma rd_at p pos c : 0 ≤ pos → p !! Z.to_nat pos = Some c → rd p pos = Ok c.
Proof. intros _ Hp. unfold rd. by rewrite Hp. Qed.

(** [IS_DER_PRIVATE] tells the DER encoding of a private key (an INTEGER of
    one octet and an OCTET STRING in a SEQUENCE) from that of a public key (a
    SEQUENCE in a SEQUENCE), in the short and the long form of the length,
    without reading outside of the buffer. *)
Theorem der_classifies body :
  (length body ≤ 124 ∨ 128 ≤ length body)%nat → Z.of_nat (length body) < 65000 →
  (∀ v rest, body = ID_INTEGER :: 1 :: v :: ID_OCTET_STRING :: rest →
     IS_DER_PRIVATE (Some (der_seq body)) (u16 (Z.of_nat (length (der_seq body)))) = Ok 1) ∧
  (∀ rest, body = ID_SEQUENCE :: rest →
     IS_DER_PRIVATE (Some (der_seq body)) (u16 (Z.of_nat (length (der_seq body)))) = Ok 0).
Proof.
  intros Hl Hmax. rewrite der_seq_length by done. destruct Hl as [Hs|Hlong].
  - assert (der_seq body = ID_SEQUENCE :: Z.of_nat (length body) :: body) as ->.
    { unfold der_seq, der_len. by rewrite decide_True by lia. }
    split; [intros v rest Hb|intros rest Hb]; unfold IS_DER_PRIVATE;
      change (rd (?a :: ?b :: ?c) 0) with (Ok a); change (rd (?a :: ?b :: ?c) 1) with (Ok b);
      cbn [mbind res_bind]; simpl negb; cbv iota; rewrite land_short by lia;
      rewrite (proj2 (Z.ltb_lt _ _)) by (simpl; lia); simpl andb; cbv iota; by rewrite Hb.
  - split; [intros v rest Hb|intros rest Hb];
      destruct (der_long_form body _ _ Hb Hlong) as (l0 & lens & E & Hn & H7 & Hlen);
      unfold IS_DER_PRIVATE; rewrite E;
      change (rd (?a :: ?b :: ?c) 0) with (Ok a); change (rd (?a :: ?b :: ?c) 1) with (Ok b);
      cbn [mbind res_bind]; simpl negb; cbv iota; rewrite (proj2 (Z.eqb_neq _ _) Hn), andb_false_r, H7;
      destruct lens as [|? [|? [|??]]]; simpl in Hlen; try lia; by rewrite Hb.
Qed.

(** A DER sequence of 125 to 127 octets has a length of one octet, but the
    code takes that octet for the number of length octets and reads one past
    the end of the buffer. *)
Theorem der_gap_overread body :
  (125 ≤ length body ≤ 127)%nat →
  IS_DER_PRIVATE (Some (der_seq body)) (u16 (Z.of_nat (length (der_seq body)))) = Err BadAccess.
Proof.
  intros Hl. rewrite der_seq_length by lia.
  assert (der_seq body = ID_SEQUENCE :: Z.of_nat (length body) :: body) as E.
  { unfold der_seq, der_len. by rewrite decide_True by lia. }
  rewrite E. unfold IS_DER_PRIVATE.
  change (rd (?a :: ?b :: ?c) 0) with (Ok a); change (rd (?a :: ?b :: ?c) 1) with (Ok b).
  cbn [mbind res_bind]. cbn [is_null negb].
  rewrite (proj2 (Z.ltb_ge _ _)) by (simpl; lia). simpl andb. cbv iota. rewrite land_127 by lia.
  assert (rd (ID_SEQUENCE :: Z.of_nat (length body) :: body) (u8 (2 + Z.of_nat (length body))) =
    Err BadAccess) as ->; [|done].
  unfold rd, u8. rewrite Z.mod_small by lia. rewrite lookup_ge_None_2; [done|]. simpl. lia.
Qed.

(** ** Verification *)
Section verify.
Context `{ApiConsts} `{OpenSSL} `{UTHash}.
Implicit Types m : mem.

(** A hop of a signed path: its segment, the signer's key and the signature. *)
Record hop := Hop { h_seg : path_seg; h_key : EcKey; h_sig : list Z }.

(** The results of [ECDSA_verify] on the hops of a path signed for the AS
    [target] satisfy [ok]. *)
Fixpoint path_all (ok : Z → Prop) (algo plen : Z) (pfx : list Z) (target : Z) (hops : list hop) : Prop :=
  match hops with
  | [] => True
  | h :: rest =>
      let d := match rest with
               | [] => hash_origin target (h_seg h) algo plen pfx
               | h' :: _ => hash_transit target (h_seg h) (h_sig h')
               end in
      ok (ECDSA_verify (SHA256 d) (h_sig h) (h_key h)) ∧ path_all ok algo plen pfx (ps_as (h_seg h)) rest
  end.
(** The path is validly signed; no signature is found invalid; no verification
    ends in an error. *)
Definition path_valid := path_all (λ v, v = 1).
Definition path_accepted := path_all (λ v, v ≠ 0).
Definition path_decided := path_all (λ v, v = 0 ∨ v = 1).

Lemma path_all_impl (P Q : Z → Prop) a n x hops : (∀ v, P v → Q v) →
  ∀ t, path_all P a n x t hops → path_all Q a n x t hops.
Proof. intros HPQ. induction hops as [|h hops IH]; intros t; simpl; [done|]. intros [? ?]. auto. Qed.
Lemma path_all_and P Q a n x hops :
  ∀ t, path_all P a n x t hops → path_all Q a n x t hops → path_all (λ v, P v ∧ Q v) a n x t hops.
Proof. induction hops as [|h hops IH]; intros t; simpl; [done|]. intros [? ?] [? ?]. auto. Qed.
Lemma valid_accepted a n x t hops : path_valid a n x t hops → path_accepted a n x t hops.
Proof. apply path_all_impl. lia. Qed.
Lemma decided_accepted a n x t hops :
  path_decided a n x t hops → path_accepted a n x t hops → path_valid a n x t hops.
Proof. intros Hd Ha. generalize (path_all_and _ _ _ _ _ _ _ Hd Ha). apply path_all_impl. lia. Qed.

(** [p] points to a [BGPSecKey] whose DER data decode to the sound key [k]. *)
Definition key_rep m (k : EcKey) (p : ptr) : Prop :=
  ∃ l bk b der t, p = Some l ∧ bkeys m !! l = Some bk ∧ k_keyData bk = Some b ∧
    bufs m !! b = Some der ∧ (k_keyLength bk ≤ length der)%nat ∧
    IS_DER_PRIVATE (Some der) (u16 (Z.of_nat (k_keyLength bk))) = Ok t ∧
    (if t =? 1 then d2i_ECPrivateKey (take (k_keyLength bk) der) = Some k
     else d2i_PUBKEY (take (k_keyLength bk) der) = Some (Some k)) ∧
    has_public_key k = true ∧ EC_KEY_check k = true.

(** [s] is a signature segment with the signature [sg]. *)
Definition sig_rep m (sg : list Z) (s : sig_seg) : Prop :=
  ∃ l b, ss_signature s = Some l ∧ bufs m !! l = Some b ∧ (ss_sigLen s ≤ length b)%nat ∧
    take (ss_sigLen s) b = sg ∧ (length sg ≤ BGPSEC_MAX_SIG_LENGTH)%nat.

Definition verdict (d sg : list Z) (k : EcKey) : Z :=
  if ECDSA_verify (SHA256 d) sg k =? 0 then API_BGPSEC_VERIFY_FAILURE else API_BGPSEC_VERIFY_SUCCESS.

Lemma decode_key_spec m k p ks i :
  key_rep m k p → 0 ≤ i → ks !! Z.to_nat i = Some p →
  decode_key (Some ks) i m = Ok (true, Some (new_loc m), set_ecs <[new_loc m := k]> m).
Proof.
  intros (l & bk & b & der & t & -> & Hbk & Hkd & Hder & Hlen & Ht & Hd & Hp & Hc) Hi Hks.
  unfold decode_key. rewrite (proj2 (Z.ltb_ge _ _)) by lia. rewrite Hks.
  change (from_option_or BadAccess (Some ?x)) with (mret (M:=M mem) x).
  erewrite bind_ok; [|done]. cbn [is_null negb]. exec (deref_ok bkeys l bk m Hbk).
  rewrite Hkd. cbn [is_null negb]. exec (deref_ok bufs b der m Hder).
  rewrite Ht, octets_ok by done. do 2 (erewrite bind_ok; [|done]).
  assert (∃ c, (if t =? 1 then match d2i_ECPrivateKey (take (k_keyLength bk) der) with
                         | None => mret NULL | Some e => new_ec e end
           else match d2i_PUBKEY (take (k_keyLength bk) der) with
                | Some (Some e) => new_ec e | _ => mret NULL end) = c ∧ c m = new_ec k m) as (c & -> & Ec).
  { eexists. split; [done|]. by destruct (t =? 1); rewrite Hd. }
  exec Ec. cbn [is_null negb]. erewrite bind_ok; [|by apply deref_ok, lookup_insert_eq].
  by rewrite Hp.
Qed.

Lemma do_verify_spec m k sg s d l :
  sig_rep m sg s → ecs m !! l = Some k →
  cl_BgpsecDoVerifySignature (SHA256 d) (Some l) (ss_signature s) (ss_sigLen s) m =
  Ok (verdict d sg k, m).
Proof.
  intros (b & bs & Hs & Hb & Hl & <- & _) Hk. unfold cl_BgpsecDoVerifySignature.
  exec (deref_ok ecs l k m Hk). rewrite Hs. exec (read_buf_ok b bs _ m Hb Hl).
  unfold verdict. by destruct (_ =? 0).
Qed.

Lemma sig_rep_set_ecs m f sg s : sig_rep m sg s → sig_rep (set_ecs f m) sg s.
Proof. done. Qed.

Lemma withKeyInfo_spec m sb k p ks i sg s d :
  key_rep m k p → sig_rep m sg s → 0 ≤ i → ks !! Z.to_nat i = Some p →
  stcl_BgpsecVerifySignatureSSL_withKeyInfo (verify_data sb s d) (Some ks) i m = Ok (verdict d sg k, m).
Proof.
  intros Hk Hs Hi Hks. unfold stcl_BgpsecVerifySignatureSSL_withKeyInfo.
  exec (decode_key_spec m k p ks i Hk Hi Hks). cbn [is_null negb]. exec (new_ec_check k m).
  destruct Hk as (? & ? & ? & ? & ? & ? & ? & ? & ? & ? & ? & ? & ? & Hc). rewrite Hc. cbn [is_null negb].
  unfold cl_BgpsecOctetDigest, verify_data. cbn [sd_data sd_dataLength sd_signature sd_sigLen].
  rewrite octets_ok, take_ge by done. erewrite bind_ok; [|done].
  erewrite bind_ok; [|apply do_verify_spec; [by apply sig_rep_set_ecs|apply lookup_insert_eq]].
  exec (EC_KEY_free_new k m). unfold verdict. destruct (_ =? 0); [|by rewrite Z.eqb_refl].
  destruct (Z.eqb_spec API_BGPSEC_VERIFY_FAILURE API_BGPSEC_VERIFY_SUCCESS) as [E|]; simpl; by rewrite ?E.
Qed.

Lemma put_u32_length x : length (put_u32 x) = 4%nat.
Proof. done. Qed.

(** One test of the loop: continue on success, report an error otherwise. *)
Lemma verdict_test `{!ApiLaws} {A} d sg k (a b : A) :
  (if negb (API_BGPSEC_VERIFY_SUCCESS =? verdict d sg k) then a else b) =
  if ECDSA_verify (SHA256 d) sg k =? 0 then a else b.
Proof.
  unfold verdict. destruct (_ =? 0); [|by rewrite Z.eqb_refl].
  rewrite (proj2 (Z.eqb_neq _ _)); [done|]. apply not_eq_sym, verify_failure_code.
Qed.

Definition all_keys m (ks : list ptr) : Prop := Forall (λ p, ∃ k, key_rep m k p) ks.

Lemma has_key_spec m ks i p : all_keys m ks → 0 ≤ i → ks !! Z.to_nat i = Some p →
  has_key (Some ks) i m = Ok (true, m).
Proof.
  intros Hall Hi Hks. unfold has_key. rewrite (proj2 (Z.ltb_ge _ _)) by lia. rewrite Hks.
  destruct (Forall_lookup_1 _ _ _ _ Hall Hks) as (k & l & ? & ? & ? & ? & -> & _). done.
Qed.

Lemma fill_hashbuff_ok d m : (length d ≤ BGPSEC_MAX_SIG_LENGTH + 10)%nat →
  fill_hashbuff d m = Ok (d, m).
Proof. intros. unfold fill_hashbuff. by rewrite decide_True. Qed.
Lemma hash_transit_length a g x : length (hash_transit a g x) = (10 + length x)%nat.
Proof. done. Qed.
Lemma hash_origin_length a g c pl x : length (hash_origin a g c pl x) = (12 + length x)%nat.
Proof. done. Qed.

Section loop.
Context {laws : ApiLaws} (m : mem) (sb : sig_block) (ks : list ptr) (pf : nlri).
Hypothesis keys_ok : all_keys m ks.
Hypothesis keys_len : Z.of_nat (length ks) < 65536.
Hypothesis prefix_len : (PSIZE (prefixlen pf) ≤ length (u_prefix pf))%nat.
Hypothesis prefix_fits : (PSIZE (prefixlen pf) + 2 ≤ BGPSEC_MAX_SIG_LENGTH)%nat.

Let loop := verify_loop sb (Z.of_nat (length ks)) (Some ks) (Some pf).
Let pfx := take (PSIZE (prefixlen pf)) (u_prefix pf).

Lemma transit_step i kp h sg' s s' seg ss iter target :
  key_rep m (h_key h) kp → sig_rep m (h_sig h) s → sig_rep m sg' s' →
  ks !! i = Some kp → 1 < iter → Z.of_nat (length ks) - iter = Z.of_nat i →
  loop (h_seg h :: seg) (s :: s' :: ss) iter target m =
  if ECDSA_verify (SHA256 (hash_transit target (h_seg h) sg')) (h_sig h) (h_key h) =? 0
  then Ok (API_BGPSEC_VERIFY_ERROR, m)
  else loop seg (s' :: ss) (iter - 1) (ps_as (h_seg h)) m.
Proof using All.
  intros Hk Hs (lb & b & Hl & Hb & Hn & Ht & Hm) Hi Hit Hidx. unfold loop. cbn [verify_loop].
  rewrite (proj2 (Z.eqb_neq _ _)), (proj2 (Z.ltb_lt 1 _)) by lia.
  pose proof (lookup_lt_Some _ _ _ Hi).
  rewrite (bind_ok _ _ m (verdict (hash_transit target (h_seg h) sg') (h_sig h) (h_key h)) m);
    [rewrite verdict_test; by destruct (ECDSA_verify _ _ _ =? 0)|].
  unfold verify_transit. rewrite Hl, Hidx, u16_small by lia.
  exec (read_buf_ok lb b _ m Hb Hn). rewrite Ht.
  erewrite bind_ok; [|apply fill_hashbuff_ok; rewrite hash_transit_length; lia].
  erewrite bind_ok; [|apply (has_key_spec m ks _ kp); [done|lia|by rewrite Nat2Z.id]].
  apply (withKeyInfo_spec m sb (h_key h) kp ks _ (h_sig h)); [done|done|lia|by rewrite Nat2Z.id].
Qed.

Lemma origin_step i kp h s target :
  key_rep m (h_key h) kp → sig_rep m (h_sig h) s →
  ks !! i = Some kp → Z.of_nat (length ks) - 1 = Z.of_nat i →
  loop [h_seg h] [s] 1 target m =
  Ok (if ECDSA_verify (SHA256 (hash_origin target (h_seg h) (sb_algo sb) (prefixlen pf) pfx)) (h_sig h) (h_key h) =? 0
      then API_BGPSEC_VERIFY_ERROR else API_BGPSEC_VERIFY_SUCCESS, m).
Proof using All.
  intros Hk Hs Hi Hidx. unfold loop. cbn [verify_loop].
  pose proof (lookup_lt_Some _ _ _ Hi).
  destruct (lookup_lt_is_Some_2 ks 0) as [k0 Hk0]; [lia|].
  change (1 =? 0) with false. change (1 <? 1) with false. cbv iota.
  rewrite (bind_ok _ _ m (verdict (hash_origin target (h_seg h) (sb_algo sb) (prefixlen pf) pfx)
    (h_sig h) (h_key h)) m); [rewrite verdict_test; by destruct (ECDSA_verify _ _ _ =? 0)|].
  unfold verify_origin. erewrite bind_ok; [|done]. rewrite octets_ok by done. erewrite bind_ok; [|done].
  erewrite bind_ok; [|apply fill_hashbuff_ok; rewrite hash_origin_length, length_take; lia].
  erewrite bind_ok; [|by apply (has_key_spec m ks 0 k0)]. rewrite Hidx, u16_small by lia.
  apply (withKeyInfo_spec m sb (h_key h) kp ks _ (h_sig h)); [done|done|lia|by rewrite Nat2Z.id].
Qed.

Lemma verify_loop_spec hops : ∀ kps sss pre target,
  ks = pre ++ kps →
  Forall2 (λ h, key_rep m (h_key h)) hops kps → Forall2 (λ h, sig_rep m (h_sig h)) hops sss →
  ∃ r, loop (h_seg <$> hops) sss (Z.of_nat (length hops)) target m = Ok (r, m) ∧
    ((r = API_BGPSEC_VERIFY_SUCCESS ∧ path_accepted (sb_algo sb) (prefixlen pf) pfx target hops) ∨
     (r = API_BGPSEC_VERIFY_ERROR ∧ ¬ path_accepted (sb_algo sb) (prefixlen pf) pfx target hops)).
Proof using All.
  induction hops as [|h hops IH]; intros kps sss pre target Hks Hkp Hsg; [by eexists; split; [|left]|].
  inversion Hkp as [|? kp ? kps' Hk Hkp' E1 E2]; subst kps. clear Hkp.
  inversion Hsg as [|? s ? sss' Hs Hsg' E1' E2']; subst sss. clear Hsg.
  assert (ks !! length pre = Some kp) as Hlk by by rewrite Hks, lookup_app_r, Nat.sub_diag by lia.
  assert (Z.of_nat (length ks) - Z.of_nat (S (length hops)) = Z.of_nat (length pre)) as Hidx.
  { rewrite Hks, length_app. simpl. rewrite <-(Forall2_length _ _ _ Hkp'). lia. }
  destruct hops as [|h' hops].
  - inversion Hsg'; subst sss'. eexists. split; [by apply (origin_step (length pre) kp)|].
    unfold path_accepted. simpl. case_match eqn:E; [apply Z.eqb_eq in E|apply Z.eqb_neq in E]; tauto.
  - inversion Hsg' as [|? s' ? sss'' Hs' Hsg'' E3 E4]; subst sss'. cbn [length fmap list_fmap].
    rewrite (transit_step (length pre) kp h (h_sig h') s s') by (done || simpl; lia).
    destruct (IH kps' (s' :: sss'') (pre ++ [kp]) (ps_as (h_seg h))) as (r & Hr & Hiff);
      [by rewrite Hks, <-app_assoc|done..|].
    replace (Z.of_nat (S (S (length hops))) - 1) with (Z.of_nat (length (h' :: hops))) by (simpl; lia).
    change (path_accepted ?a ?p ?x target (h :: h' :: hops)) with
      (ECDSA_verify (SHA256 (hash_transit target (h_seg h) (h_sig h'))) (h_sig h) (h_key h) ≠ 0 ∧
       path_accepted a p x (ps_as (h_seg h)) (h' :: hops)).
    destruct (Z.eqb_spec (ECDSA_verify (SHA256 (hash_transit target (h_seg h) (h_sig h'))) (h_sig h) (h_key h)) 0).
    + eexists. split; [done|]. right. tauto.
    + exists r. split; [done|]. tauto.
Qed.
End loop.

(** C5. [cl_BgpsecVerify] given the keys of a path always returns success or the
    verification error, and leaves the memory as it was: every [EC_KEY] it
    decoded is freed again.  It accepts exactly when [ECDSA_verify] gives 0 for
    no hop: each hop over its target AS, its own AS, its counters and the
    signature of the hop before it, the origin over the announced prefix.  So it
    accepts every validly signed path and, when no verification ends in an error
    (-1), only these; a path whose verification ends in an error it accepts
    too. *)
Theorem verify_path_correct `{!ApiLaws} m bpa sb ks pf hops local_as :
  let pfx := take (PSIZE (prefixlen pf)) (u_prefix pf) in
  0 < OCTET_SECURE_PATH_SEGMENT → hops ≠ [] → Z.of_nat (length hops) < 65536 →
  securePathLen bpa = OCTET_SECURE_PATH_LEN + OCTET_SECURE_PATH_SEGMENT * Z.of_nat (length hops) →
  pathSegments bpa = h_seg <$> hops → sigBlocks bpa = Some sb →
  Forall2 (λ h, key_rep m (h_key h)) hops ks →
  Forall2 (λ h, sig_rep m (h_sig h)) hops (sb_segs sb) →
  Forall (λ s, is_Some (ss_ski s)) (sb_segs sb) →
  (PSIZE (prefixlen pf) ≤ length (u_prefix pf))%nat →
  (PSIZE (prefixlen pf) + 2 ≤ BGPSEC_MAX_SIG_LENGTH)%nat →
  ∃ r, cl_BgpsecVerify (Some bpa) (Z.of_nat (length ks)) (Some ks) (Some pf) local_as m = Ok (r, m) ∧
    (r = API_BGPSEC_VERIFY_SUCCESS ∨ r = API_BGPSEC_VERIFY_ERROR) ∧
    (r = API_BGPSEC_VERIFY_SUCCESS ↔ path_accepted (sb_algo sb) (prefixlen pf) pfx local_as hops) ∧
    (path_valid (sb_algo sb) (prefixlen pf) pfx local_as hops → r = API_BGPSEC_VERIFY_SUCCESS) ∧
    (path_decided (sb_algo sb) (prefixlen pf) pfx local_as hops →
     r = API_BGPSEC_VERIFY_SUCCESS → path_valid (sb_algo sb) (prefixlen pf) pfx local_as hops).
Proof.
  intros pfx Hseg Hne Hmax Hlen Hps Hsb Hk Hs Hski Hp1 Hp2. unfold cl_BgpsecVerify.
  assert (cl_BgpsecSanityCheck (Some bpa) = 0) as ->.
  { unfold cl_BgpsecSanityCheck. rewrite Hps, Hsb. destruct hops as [|h hops]; [done|]. simpl.
    inversion Hs as [|? s ? ss (? & ? & E & _) ? E1 E2]; subst. rewrite <-E2 in Hski. rewrite E.
    apply Forall_cons in Hski as [[? ->] _]. done. }
  destruct bpa as [len seg sbo]. simpl in Hlen, Hps, Hsb. subst len seg sbo. cbn [Z.eqb negb].
  replace (OCTET_SECURE_PATH_LEN + _ - OCTET_SECURE_PATH_LEN)
    with (Z.of_nat (length hops) * OCTET_SECURE_PATH_SEGMENT) by lia.
  rewrite Z.quot_mul, u16_small by lia. pose proof (Forall2_length _ _ _ Hk).
  assert (all_keys m ks) as Hall.
  { apply Forall_lookup. intros i p Hi.
    destruct (Forall2_lookup_r _ _ _ _ _ Hk Hi) as (h & _ & Hh). by exists (h_key h). }
  destruct (verify_loop_spec m sb ks pf Hall ltac:(lia) Hp1 Hp2 hops ks (sb_segs sb) [] local_as) as (r & E & Hr);
    [done..|]. exists r. split; [exact E|]. pose proof verify_error_code.
  pose proof (valid_accepted (sb_algo sb) (prefixlen pf) pfx local_as hops).
  pose proof (decided_accepted (sb_algo sb) (prefixlen pf) pfx local_as hops).
  fold pfx in Hr. destruct Hr as [[-> ?]|[-> ?]]; split_and!; auto; try tauto; intros; exfalso; auto; lia.
Qed.

(** OpenSSL's [ECDSA_verify] returns -1 on an internal error; the code only
    tests for 0, so a signature whose verification failed with an error is
    accepted as valid. *)
Theorem ecdsa_error_accepted m sb k p ks i sg s d :
  key_rep m k p → sig_rep m sg s → 0 ≤ i → ks !! Z.to_nat i = Some p →
  ECDSA_verify (SHA256 d) sg k = -1 →
  stcl_BgpsecVerifySignatureSSL_withKeyInfo (verify_data sb s d) (Some ks) i m =
  Ok (API_BGPSEC_VERIFY_SUCCESS, m).
Proof.
  intros Hk Hs Hi Hks E. rewrite (withKeyInfo_spec m sb k p ks i sg s d) by done.
  unfold verdict. by rewrite E.
Qed.

(** A path attribute whose length field leaves room for no segment is
    accepted, whatever its segments and signatures are. *)
Theorem empty_path_accepted bpa n keys p local_as m :
  cl_BgpsecSanityCheck (Some bpa) = 0 →
  0 ≤ securePathLen bpa - OCTET_SECURE_PATH_LEN < OCTET_SECURE_PATH_SEGMENT →
  cl_BgpsecVerify (Some bpa) n keys p local_as m = Ok (API_BGPSEC_VERIFY_SUCCESS, m).
Proof.
  intros Hs Hl. unfold cl_BgpsecVerify. rewrite Hs. destruct bpa as [len seg [sb|]].
  - simpl in Hl. cbn [Z.eqb negb]. rewrite Z.quot_small by lia. change (u16 0) with 0.
    destruct seg as [|g seg]; [done|]. destruct sb as [a [|s ss]]; [done|]. done.
  - unfold cl_BgpsecSanityCheck in Hs. simpl in Hs. by destruct seg.
Qed.
End verify.

(** ** Signing *)
Section sign.
Context `{ApiConsts} `{OpenSSL} `{UTHash}.
Context (m : mem) (d : sign_data) (l : loc) (bk : bskey) (kb : loc) (der : list Z) (k : EcKey)
  (o : list Z) (b : loc) (old : list Z).
Hypothesis key_live : bkeys m !! l = Some bk.
Hypothesis key_data : k_keyData bk = Some kb.
Hypothesis der_live : bufs m !! kb = Some der.
Hypothesis der_len_ok : (k_keyLength bk ≤ length der)%nat.
Hypothesis decodes : d2i_ECPrivateKey (take (k_keyLength bk) der) = Some k.
Hypothesis sound : EC_KEY_check k = true.
Hypothesis has_ski : is_Some (sd_ski d).
Hypothesis algo : sd_algoID d = API_BGPSEC_ALGO_ID_256.
Hypothesis data : sd_data d = Some o.
Hypothesis data_len : (sd_dataLength d ≤ length o)%nat.
Hypothesis sig_ptr : sd_signature d = Some b.
Hypothesis sig_live : bufs m !! b = Some old.

Let md := SHA256 (take (sd_dataLength d) o).
Let m1 := set_ecs <[new_loc m := k]> m.

Lemma sign_switch_ok ec m' : sign_switch d ec m' = cl_BgpsecECDSA_Sign md ec (Some b) m'.
Proof using algo data data_len sig_ptr.
  unfold sign_switch. rewrite algo, Z.eqb_refl, data, sig_ptr. unfold cl_BgpsecOctetDigest.
  rewrite octets_ok by done. by erewrite bind_ok; [|done].
Qed.

(** [sign_with_key] up to the call of [cl_BgpsecECDSA_Sign]. *)
Lemma sign_with_key_call :
  sign_with_key (Some d) (Some l) m =
  (ret ← cl_BgpsecECDSA_Sign md (Some (new_loc m)) (Some b);
   EC_KEY_free (Some (new_loc m));; mret ret) m1.
Proof using All.
  unfold sign_with_key. rewrite (bind_ok _ _ m (k_keyData bk) m);
    [|by exec (deref_ok bkeys l bk m key_live)].
  rewrite key_data. cbn [is_null]. unfold stBgpsecReqSigningWithKeyInfo, cl_SignParamWithKeySanityCheck.
  destruct has_ski as [ski Hski]. rewrite Hski, data, sig_ptr. cbn [is_null orb].
  rewrite (bind_ok _ _ m 0 m); [|by exec (deref_ok bkeys l bk m key_live); rewrite key_data].
  cbn [Z.eqb negb]. exec (deref_ok bkeys l bk m key_live). rewrite key_data.
  exec (read_buf_ok kb der _ m der_live der_len_ok). rewrite decodes.
  erewrite bind_ok; [|done]. exec (new_ec_check k m). rewrite sound. cbn [negb].
  unfold mbind at 1 3, M_bind. by rewrite sign_switch_ok.
Qed.

Lemma ecdsa_sign_none :
  ECDSA_sign (signs m) md k = None →
  cl_BgpsecECDSA_Sign md (Some (new_loc m)) (Some b) m1 = Ok (0, tick_sign m).
Proof.
  intros Hs. unfold cl_BgpsecECDSA_Sign.
  erewrite bind_ok; [|by apply deref_ok, lookup_insert_eq]. do 2 (erewrite bind_ok; [|done]).
  change (signs m1) with (signs m). rewrite Hs.
  rewrite (bind_ok _ _ (tick_sign m1) tt (tick_sign m)); [done|].
  erewrite EC_KEY_free_ok; [|by apply lookup_insert_eq].
  change (set_ecs (delete (new_loc m)) (tick_sign m1)) with (tick_sign (set_ecs (delete (new_loc m)) m1)).
  unfold m1. by rewrite set_ecs_new_free.
Qed.

Let signed sg := tick_sign (set_bufs <[b := sg ++ drop (length sg) old]> m).

Lemma free_signed sg :
  EC_KEY_free (Some (new_loc m)) (set_bufs <[b := sg ++ drop (length sg) old]> (tick_sign m1)) =
  Ok (tt, signed sg).
Proof.
  erewrite EC_KEY_free_ok; [|by apply lookup_insert_eq].
  change (set_ecs (delete (new_loc m)) (set_bufs ?f (tick_sign m1)))
    with (tick_sign (set_bufs f (set_ecs (delete (new_loc m)) m1))).
  unfold m1, signed. by rewrite set_ecs_new_free.
Qed.

Lemma ecdsa_sign_some sg :
  ECDSA_sign (signs m) md k = Some sg → (length sg ≤ length old)%nat →
  cl_BgpsecECDSA_Sign md (Some (new_loc m)) (Some b) m1 =
  Ok (Z.of_nat (length sg),
      if ECDSA_verify md sg k =? 1
      then set_bufs <[b := sg ++ drop (length sg) old]> (tick_sign m1) else signed sg).
Proof using sig_live.
  intros Hs Hl. unfold cl_BgpsecECDSA_Sign.
  erewrite bind_ok; [|by apply deref_ok, lookup_insert_eq]. do 2 (erewrite bind_ok; [|done]).
  change (signs m1) with (signs m). rewrite Hs. erewrite bind_ok; [|by apply write_buf_ok; [apply sig_live|]].
  destruct (_ =? 1); [done|]. by exec (free_signed sg).
Qed.

(** [sign_with_key] with the DER data of a sound private key writes the
    signature of the digest into the caller's buffer, returns its length, and
    leaves no [EC_KEY] behind. *)
Theorem sign_with_key_ok sg :
  ECDSA_sign (signs m) md k = Some sg → (length sg ≤ length old)%nat → ECDSA_verify md sg k = 1 →
  sign_with_key (Some d) (Some l) m = Ok (Z.of_nat (length sg), signed sg).
Proof using All.
  intros Hs Hl Hv. rewrite sign_with_key_call. exec (ecdsa_sign_some sg Hs Hl).
  rewrite Hv. cbn [Z.eqb]. by exec (free_signed sg).
Qed.

(** When the signature cannot be made, or does not verify,
    [cl_BgpsecECDSA_Sign] frees the caller's key and [sign_with_key] frees it a
    second time. *)
Theorem sign_failure_double_free :
  ECDSA_sign (signs m) md k = None ∨
  (∃ sg, ECDSA_sign (signs m) md k = Some sg ∧ (length sg ≤ length old)%nat ∧ ECDSA_verify md sg k ≠ 1) →
  sign_with_key (Some d) (Some l) m = Err BadAccess.
Proof using All.
  intros Hs. rewrite sign_with_key_call. pose proof (new_loc_fresh m) as (_ & Hf & _).
  destruct Hs as [Hs|(sg & Hs & Hl & Hv)].
  - exec (ecdsa_sign_none Hs). apply bind_err. by apply EC_KEY_free_bad.
  - exec (ecdsa_sign_some sg Hs Hl). rewrite (proj2 (Z.eqb_neq _ _) Hv).
    apply bind_err. by apply EC_KEY_free_bad.
Qed.
End sign.

(** ** The key store *)
Section store.
Context `{ApiConsts} `{OpenSSL} `{UTHash} {laws : UTHashLaws}.
Implicit Types m : mem.

(** A record of the table: it is live, stored under its own AS number, with a
    copy of an SKI and the key data. *)
Definition rec_live m (asn : Z) (l : loc) (sk : list Z) (p : loc) : Prop :=
  ∃ s bk, recs m !! l = Some (Rec asn (Some s) (Some p)) ∧ bufs m !! s = Some sk ∧
    length sk = SKI_LENGTH ∧ bkeys m !! p = Some bk.

Definition store_wf m : Prop :=
  ∀ asn l, (asn, l) ∈ h_items (g_records m) → ∃ sk p, rec_live m asn l sk p.

Lemma cmp_loop_spec a b : length a = length b →
  cmp_loop (length a) a b = Ok (bool_decide (a = b)).
Proof.
  revert b. induction a as [|x a IH]; intros [|y b] Hl; simpl in *; try lia; [done|].
  destruct (Z.eqb_spec x y) as [->|Hne].
  - rewrite IH by lia. f_equal. apply bool_decide_ext. naive_solver.
  - rewrite bool_decide_eq_false_2; [done|congruence].
Qed.

(** What [restoreKeyInfo] returns, in a well-formed store. *)
Lemma restoreKeyInfo_spec m ski asn :
  store_wf m → (0 < SKI_LENGTH)%nat → length ski = SKI_LENGTH →
  restoreKeyInfo (Some ski) asn m = Ok (NULL, m) ∧
    (∀ l, HASH_FIND asn (g_records m) = Some l → ∃ sk p, rec_live m asn l sk p ∧ sk ≠ ski) ∨
  ∃ l p, HASH_FIND asn (g_records m) = Some l ∧ rec_live m asn l ski p ∧
    restoreKeyInfo (Some ski) asn m = Ok (Some l, m).
Proof.
  intros Hwf H0S Hl. unfold restoreKeyInfo. erewrite bind_ok; [|done].
  destruct ski as [|c ski'] eqn:Eski; [simpl in Hl; lia|]. rewrite <-Eski in *.
  rewrite (bind_ok _ _ m c m) by by subst. erewrite bind_ok; [|done].
  destruct (HASH_FIND asn (g_records m)) as [l|] eqn:Hf; [|by left].
  destruct (Hwf asn l) as (sk & p & s & bk & Hr & Hb & Hsl & Hk); [by apply find_some|].
  exec (deref_ok recs l _ m Hr). exec (deref_ok bufs s sk m Hb). unfold cmpSKI.
  rewrite <-Hsl, cmp_loop_spec by congruence. erewrite bind_ok; [|done].
  case_bool_decide as E.
  - right. exists l, p. subst sk. split_and!; [done|by exists s, bk|].
    by exec (deref_ok bkeys p bk m Hk).
  - left. split; [done|]. intros ? [= <-]. exists sk, p. split; [by exists s, bk|done].
Qed.

Lemma hashKey_get_spec m ski asn :
  store_wf m → (0 < SKI_LENGTH)%nat → length ski = SKI_LENGTH → asn ≠ 0 →
  hashKey_get_BGPSecKey asn (Some ski) m = Ok (NULL, m) ∧
    (∀ l, HASH_FIND asn (g_records m) = Some l → ∃ sk p, rec_live m asn l sk p ∧ sk ≠ ski) ∨
  ∃ l p, HASH_FIND asn (g_records m) = Some l ∧ rec_live m asn l ski p ∧
    hashKey_get_BGPSecKey asn (Some ski) m = Ok (Some p, m).
Proof.
  intros Hwf H0S Hl Ha. unfold hashKey_get_BGPSecKey. cbn [is_null orb].
  rewrite (proj2 (Z.eqb_neq _ _) Ha).
  destruct (restoreKeyInfo_spec m ski asn Hwf H0S Hl) as [[E Hn]|(l & p & Hf & Hr & E)].
  - left. by exec E.
  - right. exists l, p. split_and!; [done|done|]. exec E. destruct Hr as (s & bk & Hr & _).
    by exec (deref_ok recs l _ m Hr).
Qed.

(** The store is keyed by the AS number alone and compares one record's SKI:
    of two SKIs registered for the same AS number, at most one is ever found,
    although every lookup names the AS number and the SKI. *)
Theorem one_key_per_as m asn ski1 ski2 :
  store_wf m → (0 < SKI_LENGTH)%nat → length ski1 = SKI_LENGTH → length ski2 = SKI_LENGTH →
  asn ≠ 0 → ski1 ≠ ski2 →
  hashKey_get_BGPSecKey asn (Some ski1) m = Ok (NULL, m) ∨
  hashKey_get_BGPSecKey asn (Some ski2) m = Ok (NULL, m).
Proof.
  intros Hwf HS Hl1 Hl2 Ha Hne.
  destruct (hashKey_get_spec m ski1 asn Hwf HS Hl1 Ha) as [[E _]|(l & p & Hf & Hr & _)]; [by left|].
  destruct (hashKey_get_spec m ski2 asn Hwf HS Hl2 Ha) as [[E _]|(l' & p' & Hf' & Hr' & _)]; [by right|].
  destruct Hr as (s & ? & Hr & Hb & _), Hr' as (s' & ? & Hr' & Hb' & _). congruence.
Qed.

(** [m'] is [m] with a record for the key of [bk] added to the store. *)
Record added m m' (asn : Z) (ski : list Z) (bk : bskey) (p nw : loc) : Prop := {
  add_bufs : ∀ b x, bufs m !! b = Some x → bufs m' !! b = Some x;
  add_ecs : ecs m' = ecs m;
  add_bkeys : ∀ b x, bkeys m !! b = Some x → bkeys m' !! b = Some x;
  add_recs : ∀ b x, recs m !! b = Some x → recs m' !! b = Some x;
  add_tbl : g_records m' = HASH_ADD asn nw (g_records m);
  add_slots : stEnbuf_Eckey m' = stEnbuf_Eckey m;
  add_signs : signs m' = signs m;
  add_rec : rec_live m' asn nw ski p;
  add_key : bkeys m' !! p = Some bk
}.

Lemma insert_fresh {A} (h : gmap loc A) i (a : A) b x : h !! i = None → h !! b = Some x → <[i:=a]> h !! b = Some x.
Proof. intros. rewrite lookup_insert_ne by congruence. done. Qed.

Lemma inputKeyInfo_spec m l ok e :
  bkeys m !! l = Some ok → length (k_ski ok) = SKI_LENGTH →
  (∀ i, (i < 3)%nat → malloc_ok (mallocs m + i) = true) →
  ∃ p nw m', inputKeyInfo (Some e) (k_ski ok) (k_asn ok) (Some l) m =
      Ok (Z.land (hashv (k_asn ok)) (ID_NUM_MAX - 1), m') ∧
    added m m' (k_asn ok) (k_ski ok)
      (BsKey API_BGPSEC_ALGO_ID_256 sizeof_EC_KEY (k_keyData ok) (k_asn ok) (k_ski ok)) p nw.
Proof.
  intros Hl Hs Hm. unfold inputKeyInfo. cbn [is_null orb]. exec (deref_ok bkeys l ok m Hl).
  rewrite (take_ge (k_ski ok)) by lia. set (bk := BsKey _ _ _ _ _).
  pose proof (Hm 0%nat ltac:(lia)) as M0. pose proof (Hm 1%nat ltac:(lia)) as M1.
  pose proof (Hm 2%nat ltac:(lia)) as M2. rewrite Nat.add_0_r in M0. rewrite Nat.add_1_r in M1.
  replace (mallocs m + 2)%nat with (S (S (mallocs m))) in M2 by lia.
  set (p := new_loc m). set (m2 := set_bkeys <[p := bk]> (tick_malloc m)).
  set (nw := new_loc m2). set (m3 := set_recs <[nw := Rec 0 NULL NULL]> (tick_malloc m2)).
  set (s := new_loc m3). set (m4 := set_bufs <[s := replicate SKI_LENGTH 0]> (tick_malloc m3)).
  pose proof (new_loc_fresh m) as (_ & _ & Fp & _). pose proof (new_loc_fresh m2) as (_ & _ & _ & Fn).
  pose proof (new_loc_fresh m3) as (Fs & _ & _ & _).
  rewrite (bind_ok _ _ m (Some p) m2) by (unfold malloc; by rewrite M0).
  rewrite (bind_ok _ _ m2 (Some nw) m3) by (unfold malloc; change (mallocs m2) with (S (mallocs m)); by rewrite M1).
  rewrite (bind_ok _ _ m3 (Some s) m4) by (unfold malloc; change (mallocs m3) with (S (S (mallocs m))); by rewrite M2).
  rewrite octets_ok, take_ge by lia. erewrite bind_ok; [|done].
  erewrite bind_ok; [|apply write_buf_ok; [apply lookup_insert_eq|by rewrite length_replicate, Hs]].
  rewrite drop_ge, app_nil_r by (rewrite length_replicate; lia). do 2 (erewrite bind_ok; [|done]). eexists p, nw, _. split; [done|].
  split; simpl; try done.
  - intros b x Hb. rewrite insert_insert_eq. by apply insert_fresh.
  - intros b x Hb. by apply insert_fresh.
  - intros b x Hb. rewrite insert_insert_eq. by apply insert_fresh.
  - exists s, bk. simpl. rewrite !lookup_insert_eq. done.
  - by rewrite lookup_insert_eq.
Qed.

Lemma rec_live_added m m' asn ski bk p nw a l sk q :
  added m m' asn ski bk p nw → rec_live m a l sk q → rec_live m' a l sk q.
Proof.
  intros Ha (s & bk0 & Hr & Hb & Hl & Hk). exists s, bk0.
  split_and!; [by eapply add_recs|by eapply add_bufs|done|by eapply add_bkeys].
Qed.

Lemma added_wf m m' asn ski bk p nw : added m m' asn ski bk p nw → store_wf m → store_wf m'.
Proof.
  intros Ha Hwf a l. rewrite (add_tbl _ _ _ _ _ _ _ Ha), items_add, elem_of_app, list_elem_of_singleton.
  intros [Hi|[= -> ->]].
  - destruct (Hwf a l Hi) as (sk & q & Hr). exists sk, q. by eapply rec_live_added.
  - exists ski, p. apply Ha.
Qed.

(** The new record is the one that is found, when the AS number was not used. *)
Lemma added_find m m' asn ski bk p nw :
  added m m' asn ski bk p nw → HASH_FIND asn (g_records m) = None →
  HASH_FIND asn (g_records m') = Some nw.
Proof.
  intros Ha Hn. rewrite (add_tbl _ _ _ _ _ _ _ Ha).
  destruct (HASH_FIND asn (HASH_ADD asn nw (g_records m))) as [l|] eqn:E.
  - apply find_some in E. rewrite items_add, elem_of_app, list_elem_of_singleton in E.
    destruct E as [E|[= <-]]; [|done]. by destruct (find_none asn (g_records m) l).
  - exfalso. apply (find_none asn _ nw E). rewrite items_add, elem_of_app, list_elem_of_singleton. by right.
Qed.

Lemma mod_pow2_bounds h j : 0 ≤ j ≤ 8 → 0 ≤ h mod 2 ^ j < 2 ^ j ∧ 2 ^ j ≤ 256.
Proof.
  intros Hj. split; [apply Z.mod_pos_bound; apply Z.pow_pos_nonneg; lia|].
  change 256 with (2 ^ 8). apply Z.pow_le_mono_r; lia.
Qed.

Lemma hash_id_of_land h j : ID_NUM_MAX = 2 ^ j → 0 ≤ j ≤ 8 →
  hash_id_of (Z.land h (ID_NUM_MAX - 1)) = h mod 2 ^ j.
Proof.
  intros -> Hj. pose proof (mod_pow2_bounds h j Hj).
  replace (2 ^ j - 1) with (Z.ones j) by (rewrite Z.ones_equiv; lia).
  rewrite Z.land_ones by lia. unfold hash_id_of.
  rewrite (proj2 (Z.eqb_neq _ _)) by lia. apply u8_small. unfold is_byte. lia.
Qed.

Lemma ecdsa_sign_good m e k b old digest sg :
  ecs m !! e = Some k → bufs m !! b = Some old → ECDSA_sign (signs m) digest k = Some sg →
  (length sg ≤ length old)%nat → ECDSA_verify digest sg k = 1 →
  cl_BgpsecECDSA_Sign digest (Some e) (Some b) m =
  Ok (Z.of_nat (length sg), set_bufs <[b := sg ++ drop (length sg) old]> (tick_sign m)).
Proof.
  intros He Hb Hs Hl Hv. unfold cl_BgpsecECDSA_Sign. exec (deref_ok ecs e k m He).
  do 2 (erewrite bind_ok; [|done]). rewrite Hs. erewrite bind_ok; [|by apply write_buf_ok; [apply Hb|]].
  by rewrite Hv.
Qed.

(** [sign_with_id] signs with the key in the slot of the id. *)
Lemma sign_with_id_ok mf id q e i k o n b old sg sigLen :
  RET_ID_OFFSET = 1 → 0 ≤ id < 255 → stEnbuf_Eckey mf !! Z.to_nat id = Some (Slot q (Some e) i) →
  ecs mf !! e = Some k → EC_KEY_check k = true → (n ≤ length o)%nat → bufs mf !! b = Some old →
  ECDSA_sign (signs mf) (SHA256 (take n o)) k = Some sg → (length sg ≤ length old)%nat →
  ECDSA_verify (SHA256 (take n o)) sg k = 1 →
  sign_with_id n (Some o) (ret_id id) sigLen (Some b) mf =
  Ok (Z.of_nat (length sg), set_bufs <[b := sg ++ drop (length sg) old]> (tick_sign mf)).
Proof.
  intros Hoff Hid Hsl He Hck Hn Hb Hs Hl Hv.
  unfold ret_id. rewrite Hoff, u8_small by (unfold is_byte; lia).
  unfold sign_with_id, stBgpsecReqSigningWithID, cl_SignParamWithIDSanityCheck. cbn [sd_data sd_signature is_null orb].
  rewrite (proj2 (Z.eqb_neq (id + 1) 0)) by lia. cbn [Z.eqb negb].
  rewrite Hoff, Z.add_simpl_r, u8_small by (unfold is_byte; lia).
  rewrite (bind_ok _ _ mf (Slot q (Some e) i) mf)
    by (unfold get_slot, gets, mbind, M_bind; by rewrite Hsl).
  rewrite (bind_ok _ _ mf true mf); [|by cbn [ec_key EC_KEY_check_key]; exec (deref_ok ecs _ k mf He); rewrite Hck].
  cbn [negb ec_key]. unfold sign_switch, cl_BgpsecOctetDigest.
  cbn [sd_algoID sd_data sd_dataLength sd_signature]. rewrite Z.eqb_refl, octets_ok by done.
  erewrite bind_ok; [|done]. by apply (ecdsa_sign_good mf e k b old _ sg).
Qed.

(** A registration that succeeds: the AS number is new, the key decodes and the
    three allocations succeed. *)
Section register.
Context (m : mem) (l : loc) (ok : bskey) (kb : loc) (der : list Z) (k : EcKey) (j : Z).
Hypothesis wf : store_wf m.
Hypothesis ski_pos : (0 < SKI_LENGTH)%nat.
Hypothesis ids : ID_NUM_MAX = 2 ^ j.
Hypothesis ids_u8 : 0 ≤ j ≤ 8.
Hypothesis slots : Z.of_nat (length (stEnbuf_Eckey m)) = ID_NUM_MAX.
Hypothesis key_live : bkeys m !! l = Some ok.
Hypothesis asn_ok : k_asn ok ≠ 0.
Hypothesis ski_len : length (k_ski ok) = SKI_LENGTH.
Hypothesis asn_new : HASH_FIND (k_asn ok) (g_records m) = None.
Hypothesis key_data : k_keyData ok = Some kb.
Hypothesis der_live : bufs m !! kb = Some der.
Hypothesis der_len_ok : (k_keyLength ok ≤ length der)%nat.
Hypothesis decodes : d2i_ECPrivateKey (take (k_keyLength ok) der) = Some k.
Hypothesis mallocs_ok : ∀ i, (i < 3)%nat → malloc_ok (mallocs m + i) = true.

Let id := hashv (k_asn ok) mod 2 ^ j.
Let stored := BsKey API_BGPSEC_ALGO_ID_256 sizeof_EC_KEY (Some kb) (k_asn ok) (k_ski ok).

Lemma register_spec :
  ∃ m' p nw, registerPrivateKey (Some l) m =
      Ok (ret_id id, set_slots <[Z.to_nat id := Slot (Some kb) (Some (new_loc m)) id]> m') ∧
    added (set_ecs <[new_loc m := k]> m) m' (k_asn ok) (k_ski ok) stored p nw.
Proof using All.
  unfold registerPrivateKey. cbn [is_null]. exec (deref_ok bkeys l ok m key_live).
  rewrite (proj2 (Z.eqb_neq _ _) asn_ok).
  destruct (restoreKeyInfo_spec m (k_ski ok) (k_asn ok)) as [[E _]|(l' & p & Hf & _)];
    [done..| |congruence].
  exec E. rewrite key_data. exec (read_buf_ok kb der _ m der_live der_len_ok). rewrite decodes.
  erewrite bind_ok; [|done].
  destruct (inputKeyInfo_spec (set_ecs <[new_loc m := k]> m) l ok (new_loc m)) as (p & nw & m' & Ei & Ha); [done..|].
  exec Ei. rewrite (hash_id_of_land _ j) by done. fold id. exists m', p, nw.
  rewrite key_data in Ha. split; [|done].
  rewrite (bind_ok _ _ m' tt (set_slots <[Z.to_nat id := Slot (Some kb) (Some (new_loc m)) id]> m')); [done|].
  unfold put_slot, get_slot.
  destruct (lookup_lt_is_Some_2 (stEnbuf_Eckey m') (Z.to_nat id)) as [sl Hsl].
  { rewrite (add_slots _ _ _ _ _ _ _ Ha). simpl. pose proof (mod_pow2_bounds (hashv (k_asn ok)) j ids_u8). unfold id. lia. }
  rewrite (bind_ok _ _ m' sl m'); [done|]. unfold gets, mbind, M_bind. by rewrite Hsl.
Qed.

(** C10. A private key that is registered for an AS number (not 0) of which the
    well-formed store has no key yet is found again, when its octets decode, the
    allocations succeed and the slot table has [ID_NUM_MAX = 2 ^ j], at most 256,
    entries: the store stays well formed, the decoded key is in the slot of the
    id that is returned, and [hashKey_get_BGPSecKey] with the AS number and SKI
    returns the stored key.  With another key of the AS in the store it need not
    be found ([one_key_per_as]). *)
Theorem register_lookup :
  ∃ m' p, registerPrivateKey (Some l) m = Ok (ret_id id, m') ∧ store_wf m' ∧
    (∃ e, stEnbuf_Eckey m' !! Z.to_nat id = Some (Slot (Some kb) (Some e) id) ∧ ecs m' !! e = Some k) ∧
    hashKey_get_BGPSecKey (k_asn ok) (Some (k_ski ok)) m' = Ok (Some p, m') ∧
    bkeys m' !! p = Some stored.
Proof using All.
  destruct register_spec as (m' & p & nw & E & Ha). eexists _, p. split; [exact E|].
  pose proof (added_wf _ _ _ _ _ _ _ Ha wf) as Hwf. split; [done|]. split; [|split].
  - exists (new_loc m). simpl. rewrite (add_slots _ _ _ _ _ _ _ Ha), (add_ecs _ _ _ _ _ _ _ Ha). simpl.
    rewrite list_lookup_insert_eq, lookup_insert_eq; [done|].
    pose proof (mod_pow2_bounds (hashv (k_asn ok)) j ids_u8). unfold id. lia.
  - pose proof (added_find _ _ _ _ _ _ _ Ha asn_new) as Hf.
    pose proof (add_rec _ _ _ _ _ _ _ Ha) as (s & bk & Hr & Hb & _).
    set (mf := set_slots _ m').
    destruct (hashKey_get_spec mf (k_ski ok) (k_asn ok)) as [[_ Hn]|(nw' & p' & Hf' & Hr' & Eg)]; [done..| |].
    + destruct (Hn nw Hf) as (sk' & p' & (s' & ? & Hr' & Hb' & _) & Hne). simpl in *. congruence.
    + rewrite Eg. destruct Hr' as (s' & ? & Hr' & _). simpl in *. congruence.
  - apply (add_key _ _ _ _ _ _ _ Ha).
Qed.

(** The id returned for a registered private key signs with that key:
    [sign_with_id] writes the key's signature of the digest into the caller's
    buffer and returns its length. *)
Theorem register_then_sign o n b old sg sigLen :
  RET_ID_OFFSET = 1 → id < 255 → EC_KEY_check k = true →
  (n ≤ length o)%nat → bufs m !! b = Some old →
  ECDSA_sign (signs m) (SHA256 (take n o)) k = Some sg → (length sg ≤ length old)%nat →
  ECDSA_verify (SHA256 (take n o)) sg k = 1 →
  ∃ r m' m'', registerPrivateKey (Some l) m = Ok (r, m') ∧
    sign_with_id n (Some o) r sigLen (Some b) m' = Ok (Z.of_nat (length sg), m'') ∧
    bufs m'' !! b = Some (sg ++ drop (length sg) old).
Proof using All.
  intros Hoff Hid Hck Hn Hb Hs Hl Hv. destruct register_spec as (m' & p & nw & E & Ha).
  pose proof (mod_pow2_bounds (hashv (k_asn ok)) j ids_u8) as [Hi1 Hi2]. fold id in Hi1.
  exists (ret_id id). eexists _, _. split; [exact E|]. split.
  - apply sign_with_id_ok with (q := Some kb) (e := new_loc m) (i := id) (k := k) (old := old); try done.
    + lia.
    + simpl. rewrite list_lookup_insert_eq; [done|]. rewrite (add_slots _ _ _ _ _ _ _ Ha). simpl. lia.
    + simpl. rewrite (add_ecs _ _ _ _ _ _ _ Ha). apply lookup_insert_eq.
    + by apply (add_bufs _ _ _ _ _ _ _ Ha).
    + simpl. by rewrite (add_signs _ _ _ _ _ _ _ Ha).
  - simpl. apply lookup_insert_eq.
Qed.

(** The stored key keeps the caller's DER buffer in [keyData], but
    [deleteKeyInfo] frees [keyData] as an [EC_KEY]: unregistering a registered
    key by AS number and SKI frees memory that is no [EC_KEY]. *)
Theorem unregister_frees_der_as_key :
  ecs m !! kb = None →
  ∃ r m', registerPrivateKey (Some l) m = Ok (r, m') ∧
    unregisterKey (Some (k_ski ok)) (k_asn ok) m' = Err BadAccess.
Proof using All.
  intros Hkb. destruct register_spec as (m' & p & nw & E & Ha). eexists _, _. split; [exact E|].
  set (mf := set_slots _ m'). unfold unregisterKey. rewrite (proj2 (Z.eqb_neq _ _) asn_ok).
  pose proof (added_find _ _ _ _ _ _ _ Ha asn_new) as Hf.
  pose proof (add_rec _ _ _ _ _ _ _ Ha) as (s & bk & Hr & Hb & _).
  destruct (restoreKeyInfo_spec mf (k_ski ok) (k_asn ok)) as [[_ Hn]|(nw' & p' & Hf' & Hr' & Eg)];
    [by eapply (added_wf _ _ _ _ _ _ _ Ha)|done..| |].
  - destruct (Hn nw Hf) as (sk' & p' & (s' & ? & Hr' & Hb' & _) & Hne). simpl in *. congruence.
  - assert (nw' = nw) as -> by (simpl in Hf'; congruence).
    exec Eg. apply bind_err. unfold deleteKeyInfo. exec (deref_ok recs nw _ mf Hr). cbn [r_data].
    exec (deref_ok bkeys p _ mf (add_key _ _ _ _ _ _ _ Ha)). apply bind_err.
    apply EC_KEY_free_bad. simpl. rewrite (add_ecs _ _ _ _ _ _ _ Ha). simpl.
    rewrite lookup_insert_ne; [done|]. pose proof (new_loc_fresh m) as (Hfr & _). congruence.
Qed.
End register.
End store.

(** ** Concrete instances

    A small library instance on which the theorems above are evaluated: keys
    are octet lists, the digest is the data, and a signature is a checksum. *)
Module Toy.
(** Evaluate a side condition on concrete data. *)
Ltac conc := repeat split; first [reflexivity | simpl; lia | vm_compute; congruence | vm_compute; lia].
#[local] Instance toy_consts : ApiConsts := {|
  SKI_LENGTH := 2; SKI_HEX_LENGTH := 4; ID_NUM_MAX := 16; RET_ID_OFFSET := 1;
  BGPSEC_MAX_SIG_LENGTH := 72; OCTET_SECURE_PATH_LEN := 2; OCTET_SECURE_PATH_SEGMENT := 6;
  API_BGPSEC_SUCCESS := 0; API_BGPSEC_FAILURE := -1; API_BGPSEC_VERIFY_SUCCESS := 0;
  API_BGPSEC_VERIFY_FAILURE := -1; API_BGPSEC_VERIFY_ERROR := 2; API_BGPSEC_DEFAULT_CURVE := 1;
  DEFAULT_KEYFILE_EXT := [100; 101; 114]; DEFAULT_CERTFILE_EXT := [99; 101; 114; 116];
  PSIZE n := Z.to_nat ((n + 7) / 8)
|}.
#[local] Instance toy_laws : ApiLaws.
Proof. by split. Qed.

Definition checksum (d k : list Z) : list Z := [u8 (foldr Z.add 0 d + 7 * foldr Z.add 0 k)].

(** [err]: the code for an empty signature; [works]: signing succeeds. *)
Definition toy_ssl (err : Z) (works : bool) : OpenSSL := {|
  EcKey := list Z; EcGroup := Z; EcPoint := list Z; BigNum := Z;
  NID_X9_62_prime256v1 := 415; sizeof_EC_KEY := 8;
  d2i_ECPrivateKey := Some; d2i_PUBKEY b := Some (Some b);
  has_public_key _ := true; EC_KEY_check _ := true; SHA256 d := d;
  ECDSA_verify d s k := if decide (s = []) then err else if decide (s = checksum d k) then 1 else 0;
  ECDSA_sign _ d k := if works then Some (checksum d k) else None;
  EC_KEY_new_by_curve_name _ := Some []; EC_GROUP_new_by_curve_name := Some;
  EC_POINT_oct2point _ p := Some p; EC_KEY_set_public_key _ p := Some p;
  EC_KEY_set_private_key k _ := Some k; can_read _ := false;
  PEM_read_PrivateKey _ := None; EC_KEY_get0_private_key _ := None; d2i_X509 _ := None; malloc_ok _ := true
|}.

#[local] Instance toy_hash : UTHash := {|
  Tbl := list (Z * loc); h_empty := []; h_items t := t;
  HASH_FIND k t := snd <$> head (filter (λ i, i.1 = k) t);
  HASH_ADD k l t := t ++ [(k, l)]; HASH_DEL l t := filter (λ i, i.2 ≠ l) t;
  hashv k := k; num_buckets _ := 32
|}.

#[local] Instance toy_hash_laws : UTHashLaws.
Proof.
  split; simpl; [done..| |].
  - intros k t l Hf. destruct (filter (λ i : Z * positive, i.1 = k) t) as [|[k' l'] t'] eqn:E; [done|].
    injection Hf as ->. assert ((k', l) ∈ filter (λ i : Z * positive, i.1 = k) t) as Hi by (rewrite E; set_solver).
    apply list_elem_of_filter in Hi as [Hk Hi]. simpl in Hk. by subst.
  - intros k t l Hf Hi. destruct (filter (λ i : Z * positive, i.1 = k) t) as [|[k' l'] t'] eqn:E; [|done].
    assert ((k, l) ∈ filter (λ i : Z * positive, i.1 = k) t) as He by by apply list_elem_of_filter.
    rewrite E in He. set_solver.
Qed.

(** Two hops: AS 65001 forwards what AS 65002 originated, to AS 65010. *)
Definition der1 : list Z := der_seq [2; 1; 1; 4; 2; 11; 22].
Definition der2 : list Z := der_seq [48; 2; 33; 44].
Definition pfx24 : nlri := Nlri 24 [10; 1; 2; 0].
Definition g1 := PathSeg 65001 1 0.
Definition g2 := PathSeg 65002 1 0.
Definition sig2 := checksum (hash_origin 65001 g2 1 24 [10; 1; 2]) der2.
Definition sig1 := checksum (hash_transit 65010 g1 sig2) der1.

Section ssl.
Context (err : Z) (works : bool).
#[local] Instance ssl : OpenSSL := toy_ssl err works.
Definition mem0 : mem := Mem
  {[ 1%positive := der1; 2%positive := der2; 3%positive := sig1; 4%positive := sig2;
     7%positive := [0; 0; 0]; 8%positive := [] ]} ∅
  {[ 5%positive := BsKey 1 9 (Some 1%positive) 65001 [10; 20];
     6%positive := BsKey 1 6 (Some 2%positive) 65002 [30; 40] ]}
  ∅ h_empty (replicate 16 (Slot NULL NULL 0)) [47] 0 0.
Definition path2 : path_attr := PathAttr 14 [g1; g2]
  (Some (SigBlock 1 [SigSeg (Some [10; 20]) 1 (Some 3%positive); SigSeg (Some [30; 40]) 1 (Some 4%positive)])).
Definition hops2 : list hop := [Hop g1 der1 sig1; Hop g2 der2 sig2].

Lemma mem0_wf : store_wf mem0.
Proof. intros asn l Hi. by apply elem_of_nil in Hi. Qed.
Lemma key1_rep : key_rep mem0 der1 (Some 5%positive).
Proof. eexists _, _, _, _, _. split_and!; conc. Qed.
Lemma key2_rep : key_rep mem0 der2 (Some 6%positive).
Proof. eexists _, _, _, _, _. split_and!; conc. Qed.
Lemma sig_at l sg : bufs mem0 !! l = Some sg → (length sg ≤ 1)%nat →
  sig_rep mem0 sg (SigSeg (Some [10; 20]) (length sg) (Some l)).
Proof. intros Hb Hl. exists l, sg. split_and!; [done|done|done|by rewrite take_ge|simpl; lia]. Qed.
Definition data0 : sign_data := SignData (Some [1; 2; 3]) 2 (Some [10; 20]) 1 (Some 7%positive) 3.
End ssl.

#[local] Instance ssl_ok : OpenSSL := toy_ssl 0 true.
Abbreviation m0 := (mem0 0 true).

Lemma der_classifies_witness :
  IS_DER_PRIVATE (Some der1) (u16 (Z.of_nat (length der1))) = Ok 1 ∧
  IS_DER_PRIVATE (Some der2) (u16 (Z.of_nat (length der2))) = Ok 0.
Proof.
  split.
  - eapply (der_classifies [2; 1; 1; 4; 2; 11; 22]); [simpl; lia|simpl; lia|reflexivity].
  - eapply (der_classifies [48; 2; 33; 44]); [simpl; lia|simpl; lia|reflexivity].
Defined.

Lemma der_gap_overread_witness :
  IS_DER_PRIVATE (Some (der_seq (2 :: 1 :: 1 :: 4 :: replicate 121 7)))
    (u16 (Z.of_nat (length (der_seq (2 :: 1 :: 1 :: 4 :: replicate 121 7))))) = Err BadAccess.
Proof. apply (der_gap_overread (2 :: 1 :: 1 :: 4 :: replicate 121 7)). simpl. lia. Defined.

Lemma verify_path_correct_witness :
  ∃ r, cl_BgpsecVerify (Some path2) (Z.of_nat (length [Some 5%positive; Some 6%positive]))
      (Some [Some 5%positive; Some 6%positive]) (Some pfx24) 65010 m0 = Ok (r, m0) ∧
    (r = API_BGPSEC_VERIFY_SUCCESS ∨ r = API_BGPSEC_VERIFY_ERROR) ∧
    (r = API_BGPSEC_VERIFY_SUCCESS ↔ path_accepted 1 24 (take (PSIZE 24) [10; 1; 2; 0]) 65010 (hops2 0 true)) ∧
    (path_valid 1 24 (take (PSIZE 24) [10; 1; 2; 0]) 65010 (hops2 0 true) → r = API_BGPSEC_VERIFY_SUCCESS) ∧
    (path_decided 1 24 (take (PSIZE 24) [10; 1; 2; 0]) 65010 (hops2 0 true) →
     r = API_BGPSEC_VERIFY_SUCCESS → path_valid 1 24 (take (PSIZE 24) [10; 1; 2; 0]) 65010 (hops2 0 true)).
Proof.
  apply (verify_path_correct m0 path2 (SigBlock 1 [SigSeg (Some [10; 20]) 1 (Some 3%positive);
    SigSeg (Some [30; 40]) 1 (Some 4%positive)]) [Some 5%positive; Some 6%positive] pfx24 (hops2 0 true) 65010).
  - conc.
  - discriminate.
  - conc.
  - reflexivity.
  - reflexivity.
  - reflexivity.
  - constructor; [apply key1_rep|]. constructor; [apply key2_rep|constructor].
  - constructor; [|constructor; [|constructor]]; eexists _, _; split_and!; conc.
  - repeat constructor; eexists; reflexivity.
  - conc.
  - conc.
Defined.

Lemma ecdsa_error_accepted_witness :
  @stcl_BgpsecVerifySignatureSSL_withKeyInfo _ (toy_ssl (-1) true) _
    (verify_data (SigBlock 1 []) (SigSeg (Some [10; 20]) 0 (Some 8%positive)) [1; 2])
    (Some [Some 5%positive]) 0 (mem0 (-1) true) = Ok (API_BGPSEC_VERIFY_SUCCESS, mem0 (-1) true).
Proof.
  apply (@ecdsa_error_accepted _ (toy_ssl (-1) true) _ (mem0 (-1) true) _ der1 (Some 5%positive) _ _ []).
  - apply key1_rep.
  - eexists _, _. split_and!; conc.
  - lia.
  - reflexivity.
  - reflexivity.
Defined.

Lemma empty_path_accepted_witness :
  cl_BgpsecVerify (Some (PathAttr 2 (pathSegments path2) (sigBlocks path2))) 0 None None 65010 m0 =
  Ok (API_BGPSEC_VERIFY_SUCCESS, m0).
Proof.
  apply (empty_path_accepted (PathAttr 2 (pathSegments path2) (sigBlocks path2)));
    conc.
Defined.

Lemma sign_with_key_ok_witness :
  sign_with_key (Some data0) (Some 5%positive) m0 =
  Ok (1, tick_sign (set_bufs <[7%positive := checksum [1; 2] der1 ++ [0; 0]]> m0)).
Proof.
  apply (sign_with_key_ok m0 data0 5 (BsKey 1 9 (Some 1%positive) 65001 [10; 20]) 1 der1 der1 [1; 2; 3] 7 [0; 0; 0])
    with (sg := checksum [1; 2] der1); try reflexivity; try conc.
  eexists. reflexivity.
Defined.

Lemma sign_failure_double_free_witness :
  @sign_with_key _ (toy_ssl 0 false) _ (Some data0) (Some 5%positive) (mem0 0 false) = Err BadAccess.
Proof.
  apply (@sign_failure_double_free _ (toy_ssl 0 false) _ (mem0 0 false) data0 5
    (BsKey 1 9 (Some 1%positive) 65001 [10; 20]) 1 der1 der1 [1; 2; 3] 7 [0; 0; 0]);
    try reflexivity; try conc.
  - eexists. reflexivity.
  - left. reflexivity.
Defined.

Lemma one_key_per_as_witness :
  hashKey_get_BGPSecKey 65001 (Some [10; 20]) m0 = Ok (NULL, m0) ∨
  hashKey_get_BGPSecKey 65001 (Some [10; 21]) m0 = Ok (NULL, m0).
Proof.
  apply (one_key_per_as m0 65001 [10; 20] [10; 21]); try reflexivity; try discriminate.
  - apply mem0_wf.
  - conc.
Defined.

Abbreviation key5 := (BsKey 1 9 (Some 1%positive) 65001 [10; 20]).

Lemma register_lookup_witness :
  ∃ m' p, registerPrivateKey (Some 5%positive) m0 = Ok (ret_id (65001 mod 2 ^ 4), m') ∧ store_wf m' ∧
    (∃ e, stEnbuf_Eckey m' !! Z.to_nat (65001 mod 2 ^ 4) =
            Some (Slot (Some 1%positive) (Some e) (65001 mod 2 ^ 4)) ∧ ecs m' !! e = Some der1) ∧
    hashKey_get_BGPSecKey 65001 (Some [10; 20]) m' = Ok (Some p, m') ∧
    bkeys m' !! p = Some (BsKey API_BGPSEC_ALGO_ID_256 sizeof_EC_KEY (Some 1%positive) 65001 [10; 20]).
Proof.
  apply (register_lookup m0 5 key5 1 der1 der1 4); try reflexivity; try discriminate; try conc.
  apply mem0_wf.
Defined.

Lemma register_then_sign_witness :
  ∃ r m' m'', registerPrivateKey (Some 5%positive) m0 = Ok (r, m') ∧
    sign_with_id 2 (Some [1; 2; 3]) r 3 (Some 7%positive) m' = Ok (1, m'') ∧
    bufs m'' !! 7%positive = Some (checksum [1; 2] der1 ++ [0; 0]).
Proof.
  apply (register_then_sign m0 5 key5 1 der1 der1 4) with (old := [0; 0; 0]) (sg := checksum [1; 2] der1);
    try reflexivity; try discriminate; try conc.
  apply mem0_wf.
Defined.

Lemma unregister_frees_der_as_key_witness :
  ∃ r m', registerPrivateKey (Some 5%positive) m0 = Ok (r, m') ∧
    unregisterKey (Some [10; 20]) 65001 m' = Err BadAccess.
Proof.
  apply (unregister_frees_der_as_key m0 5 key5 1 der1 der1 4);
    try reflexivity; try discriminate; try conc.
  apply mem0_wf.
Defined.
End Toy.
