(* ===== verification/EvPool.v ===== *)
(** * The epoll thread pool ([alsp/src/appendix/io_epoll], [alsp/include/io_epoll_pthread.h])

    A server of seven threads: a listener that accepts clients, a poller that
    waits for their data and sends the ready descriptors through a message
    queue, a scheduler that deals them out to the queues of four workers, and
    the workers, which receive.  A thread is a program ([prog]) over the shared
    memory [pool] whose scheduling points are the accesses to shared memory, the
    operations on mutexes and condition variables, and the system calls; every
    C function is one such program.  The loops of a thread are its [mode]s: the
    program of a mode ends with the mode that follows.  [step] lets one thread
    do one action, with an [answer] of the outside world for a system call, so
    a run of the server is a sequence of pairs of a thread and an answer.

    A mutex is held by one thread and is of the default kind: locking it again
    blocks, and unlocking it without holding it is a fault.  A thread waiting on
    a condition variable may also wake up spuriously.  Printing is not modelled.
    [log] is an auxiliary variable that records what is queued and received; no
    thread reads it. *)

From stdpp Require Import functions base gmap list.
From Stdlib Require Import ZArith Lia.
From S2P Require Import Prelude.

Local Open Scope Z_scope.

(** ** The platform

    The number of [int]s in a [long] and in a [size_t] (1 where the repository's
    program was built, a 32-bit executable; 2 on 64-bit systems), and
    [sysconf (_SC_OPEN_MAX)], above which there are no descriptors. *)
Class Platform := { long_ints : nat; sc_open_max : Z }.
Definition ILP32 (m : Z) : Platform := {| long_ints := 1; sc_open_max := m |}.
Definition LP64 (m : Z) : Platform := {| long_ints := 2; sc_open_max := m |}.

(** ** Constants and data *)
Definition DFL_OPEN_MAX_FILES : Z := 1024.
Definition MAX_WORKER_THREAD : Z := 4.
Definition MAX_EVENT_QUEUE : Z := 200.
Definition MQ_INTERNAL : Z := 16.
Definition T_IDLE : Z := 0.
Definition T_RUNNING : Z := 1.
Definition EPOLLIN : Z := 1.
Definition EPOLLERR : Z := 8.
Definition EPOLLHUP : Z := 16.
Definition AF_INET : Z := 2.

(** An [int] that may not have been set. *)
Abbreviation cint := (option Z) (only parsing).

Record evlist := EVLIST { i1_ev : Z; i2_ev : Z; n_ev : Z; q_ev : list cint }.
Definition with_i1 z e := EVLIST z (i2_ev e) (n_ev e) (q_ev e).
Definition with_i2 z e := EVLIST (i1_ev e) z (n_ev e) (q_ev e).
Definition with_n z e := EVLIST (i1_ev e) (i2_ev e) z (q_ev e).
Definition with_q q e := EVLIST (i1_ev e) (i2_ev e) (n_ev e) q.

Record fdlist := FDLIST { fdl_fd : Z; t_conn : Z }.
Record sockaddr := SockAddr { sin_family : Z; s_addr : Z; sin_port : Z }.

Inductive tid : Set := Listener | Poller | Iosched | Worker (no : nat).
Inductive mutex : Set := MConn | MEvl (no : nat).
#[export] Instance tid_eq_dec : EqDecision tid.
Proof. solve_decision. Defined.
#[export] Instance mutex_eq_dec : EqDecision mutex.
Proof. solve_decision. Defined.

(** What the auxiliary variable records: a descriptor queued for worker [k],
    dropped because its queue is full, taken from the queue, a queue found empty
    by [pop_evlist], and a call of [recv]. *)
Inductive event : Set :=
| EPush (k : nat) (fd : cint)
| EDrop (k : nat) (fd : cint)
| EPop (k : nat) (fd : cint)
| EUnder (k : nat)
| ERecv (k : nat) (fd : Z).

Record pool := Pool {
  cur_open_files : Z;              (* [p_conninfo] *)
  max_open_files : Z;
  p_evlists : list evlist;
  p_fdlists : list fdlist;
  saddr_s : sockaddr;              (* [Targ_listener] *)
  fd_listener : Z;
  n_epevent : Z;                   (* [Targ_poller] *)
  w_status : list Z;               (* [Targ_worker[].status] *)
  ep_events : list (Z * Z);        (* events and descriptor *)
  owner : mutex → option tid;
  waiters : mutex → list tid;
  interest : list Z;               (* the kernel: descriptors added to [epollfd] *)
  open_fds : list Z;               (* the kernel: open client sockets *)
  msq : list (Z * list cint);      (* the kernel: the message queue *)
  log : list event
}.

Definition set_cur z s := Pool z (max_open_files s) (p_evlists s) (p_fdlists s) (saddr_s s) (fd_listener s) (n_epevent s) (w_status s) (ep_events s) (owner s) (waiters s) (interest s) (open_fds s) (msq s) (log s).
Definition set_evls l s := Pool (cur_open_files s) (max_open_files s) l (p_fdlists s) (saddr_s s) (fd_listener s) (n_epevent s) (w_status s) (ep_events s) (owner s) (waiters s) (interest s) (open_fds s) (msq s) (log s).
Definition set_fdl l s := Pool (cur_open_files s) (max_open_files s) (p_evlists s) l (saddr_s s) (fd_listener s) (n_epevent s) (w_status s) (ep_events s) (owner s) (waiters s) (interest s) (open_fds s) (msq s) (log s).
Definition set_listener a f s := Pool (cur_open_files s) (max_open_files s) (p_evlists s) (p_fdlists s) a f (n_epevent s) (w_status s) (ep_events s) (owner s) (waiters s) (interest s) (open_fds s) (msq s) (log s).
Definition set_nep z s := Pool (cur_open_files s) (max_open_files s) (p_evlists s) (p_fdlists s) (saddr_s s) (fd_listener s) z (w_status s) (ep_events s) (owner s) (waiters s) (interest s) (open_fds s) (msq s) (log s).
Definition set_status l s := Pool (cur_open_files s) (max_open_files s) (p_evlists s) (p_fdlists s) (saddr_s s) (fd_listener s) (n_epevent s) l (ep_events s) (owner s) (waiters s) (interest s) (open_fds s) (msq s) (log s).
Definition set_epev l s := Pool (cur_open_files s) (max_open_files s) (p_evlists s) (p_fdlists s) (saddr_s s) (fd_listener s) (n_epevent s) (w_status s) l (owner s) (waiters s) (interest s) (open_fds s) (msq s) (log s).
Definition set_owner m o s := Pool (cur_open_files s) (max_open_files s) (p_evlists s) (p_fdlists s) (saddr_s s) (fd_listener s) (n_epevent s) (w_status s) (ep_events s) (<[m := o]> (owner s)) (waiters s) (interest s) (open_fds s) (msq s) (log s).
Definition set_waiters m l s := Pool (cur_open_files s) (max_open_files s) (p_evlists s) (p_fdlists s) (saddr_s s) (fd_listener s) (n_epevent s) (w_status s) (ep_events s) (owner s) (<[m := l]> (waiters s)) (interest s) (open_fds s) (msq s) (log s).
Definition set_fds i o s := Pool (cur_open_files s) (max_open_files s) (p_evlists s) (p_fdlists s) (saddr_s s) (fd_listener s) (n_epevent s) (w_status s) (ep_events s) (owner s) (waiters s) i o (msq s) (log s).
Definition set_msq q s := Pool (cur_open_files s) (max_open_files s) (p_evlists s) (p_fdlists s) (saddr_s s) (fd_listener s) (n_epevent s) (w_status s) (ep_events s) (owner s) (waiters s) (interest s) (open_fds s) q (log s).
Definition set_log l s := Pool (cur_open_files s) (max_open_files s) (p_evlists s) (p_fdlists s) (saddr_s s) (fd_listener s) (n_epevent s) (w_status s) (ep_events s) (owner s) (waiters s) (interest s) (open_fds s) (msq s) l.

(** ** Thread programs *)

(** What the outside world answers to a system call: an [int], or the events of
    [epoll_wait]. *)
Inductive answer : Set :=
| AInt (z : Z)
| AEvents (l : list (Z * Z)).

(** [Act]: an access to shared memory.  [Sys]: a system call, [None] while it
    blocks and for answers the kernel does not give. *)
Inductive prog (R : Type) : Type :=
| Ret (r : R)
| Act {A : Type} (f : pool → res (A * pool)) (k : A → prog R)
| Sys {A : Type} (f : answer → pool → option (A * pool)) (k : A → prog R)
| Lock (m : mutex) (k : prog R)
| Unlock (m : mutex) (k : prog R)
| Broadcast (m : mutex) (k : prog R)
| Wait (m : mutex) (k : prog R)
| Exit (code : Z).
Arguments Ret {R} r.
Arguments Act {R A} f k.
Arguments Sys {R A} f k.
Arguments Lock {R} m k.
Arguments Unlock {R} m k.
Arguments Broadcast {R} m k.
Arguments Wait {R} m k.
Arguments Exit {R} code.

Fixpoint pbind {A B} (f : A → prog B) (p : prog A) : prog B :=
  match p with
  | Ret r => f r
  | Act g k => Act g (λ a, pbind f (k a))
  | Sys g k => Sys g (λ a, pbind f (k a))
  | Lock m k => Lock m (pbind f k)
  | Unlock m k => Unlock m (pbind f k)
  | Broadcast m k => Broadcast m (pbind f k)
  | Wait m k => Wait m (pbind f k)
  | Exit c => Exit c
  end.
#[export] Instance prog_ret : MRet prog := @Ret.
#[export] Instance prog_bind : MBind prog := @pbind.

Definition MUTEX_LOCK (m : mutex) : prog unit := Lock m (Ret tt).
Definition MUTEX_UNLOCK (m : mutex) : prog unit := Unlock m (Ret tt).
(** [CV_SIGNAL] is [pthread_cond_broadcast]. *)
Definition CV_SIGNAL (m : mutex) : prog unit := Broadcast m (Ret tt).
Definition CV_WAIT (m : mutex) : prog unit := Wait m (Ret tt).
Definition exit_ {A} (c : Z) : prog A := Exit c.

(** Reading and writing shared variables. *)
Definition read {A} (f : pool → A) : prog A := Act (λ s, Ok (f s, s)) Ret.
Definition write (f : pool → pool) : prog unit := Act (λ s, Ok (tt, f s)) Ret.
Definition emit (e : event) : prog unit := write (λ s, set_log (log s ++ [e]) s).

(** An array element; the index is an [int]. *)
Definition idx (i : Z) : option nat := if 0 <=? i then Some (Z.to_nat i) else None.
Definition at_ {A} (l : list A) (i : Z) : option A := j ← idx i; l !! j.
Definition put_at {A} (l : list A) (i : Z) (a : A) : option (list A) :=
  j ← idx i; _ ← l !! j; Some (<[j := a]> l).

Definition evl_get {A} (k : nat) (f : evlist → A) : prog A :=
  Act (λ s, match p_evlists s !! k with Some e => Ok (f e, s) | None => Err BadAccess end) Ret.
Definition evl_upd {A} (k : nat) (f : evlist → option (A * evlist)) : prog A :=
  Act (λ s, match (e ← p_evlists s !! k; f e) with
            | Some (a, e') => Ok (a, set_evls (<[k := e']> (p_evlists s)) s)
            | None => Err BadAccess end) Ret.
Definition evl_set (k : nat) (f : evlist → evlist) : prog unit :=
  evl_upd k (λ e, Some (tt, f e)).

(** ** Threads and their loops *)
Inductive mode : Type :=
| L_start | L_accept
| P_top (a_mq_buf : list cint)
| P_for (i ret_poll : Z) (a_mq_buf : list cint)
| P_send (i ret_poll : Z) (a_mq_buf : list cint)
| S_top (idx_rr : Z) (a_mq_buf : list cint)
| S_for (i n : Z) (idx_rr : Z) (a_mq_buf : list cint)
| W_top | W_for (i : Z) | W_end
| Returned.

Section code.
Context `{P : Platform}.

(** ** System calls *)
Definition in_list (z : Z) (l : list Z) : bool := bool_decide (z ∈ l).
Definition rem_fd (z : Z) (l : list Z) : list Z := filter (λ x, x ≠ z) l.

(** A call that only succeeds ([0]) or fails ([-1]). *)
Definition sys_01 : prog Z :=
  Sys (λ a s, match a with AInt z => if (z =? 0) || (z =? -1) then Some (z, s) else None | _ => None end) Ret.
Definition socket : prog Z :=
  Sys (λ a s, match a with AInt z => if -1 <=? z then Some (z, s) else None | _ => None end) Ret.
(** The port is chosen by the system. *)
Definition getsockname : prog unit :=
  Sys (λ a s, match a with
              | AInt z => if (0 <? z) && (z <? 65536)
                then Some (tt, set_listener (SockAddr (sin_family (saddr_s s)) (s_addr (saddr_s s)) z) (fd_listener s) s) else None
              | _ => None end) Ret.
Definition time : prog Z := Sys (λ a s, match a with AInt z => Some (z, s) | _ => None end) Ret.
(** A new descriptor is one that is not in use. *)
Definition accept : prog Z :=
  Sys (λ a s, match a with
              | AInt z => if z =? -1 then Some (z, s)
                  else if (0 <=? z) && (z <? sc_open_max) && negb (in_list z (open_fds s))
                  then Some (z, set_fds (interest s) (z :: open_fds s) s) else None
              | _ => None end) Ret.
Definition epoll_ctl_add (fd : Z) : prog Z :=
  Sys (λ a s, match a with
              | AInt z => if z =? -1 then Some (z, s)
                  else if (z =? 0) && in_list fd (open_fds s) && negb (in_list fd (interest s))
                  then Some (z, set_fds (fd :: interest s) (open_fds s) s) else None
              | _ => None end) Ret.
Definition epoll_ctl_del (fd : Z) : prog Z :=
  Sys (λ a s, match a with
              | AInt z => if z =? -1 then Some (z, s)
                  else if (z =? 0) && in_list fd (interest s)
                  then Some (z, set_fds (rem_fd fd (interest s)) (open_fds s) s) else None
              | _ => None end) Ret.
Definition close (fd : Z) : prog unit :=
  write (λ s, set_fds (rem_fd fd (interest s)) (rem_fd fd (open_fds s)) s).
(** Without a timeout: at least one event, at most [maxevents], which must be
    positive. *)
Definition epoll_wait (maxevents : Z) : prog Z :=
  Sys (λ a s, match a with
              | AInt z => if z =? -1 then Some (z, s) else None
              | AEvents l => if (0 <? maxevents) && (0 <? Z.of_nat (length l)) && (Z.of_nat (length l) <=? maxevents)
                              && forallb (λ x, in_list x.2 (interest s)) l
                  then Some (Z.of_nat (length l), set_epev (l ++ drop (length l) (ep_events s)) s) else None
              end) Ret.
Definition recv (fd : Z) : prog Z :=
  Sys (λ a s, match a with
              | AInt z => if (z =? -1) || ((0 <=? z) && (z <=? 16384) && in_list fd (open_fds s))
                  then Some (z, s) else None
              | _ => None end) Ret.

(** [msgsnd] and [msgrcv] take the address of an array of [int]s as that of a
    [long] followed by text. *)
Definition msg_type (buf : list cint) : cint :=
  match long_ints with
  | 1%nat => mjoin (buf !! 0%nat)
  | _ => lo ← mjoin (buf !! 0%nat); hi ← mjoin (buf !! 1%nat); Some (u32 lo + 2 ^ 32 * hi)
  end.
Definition msg_text (buf : list cint) (n : Z) : option (list cint) :=
  let text := drop long_ints buf in
  if n <=? Z.of_nat (length text) then Some (take (Z.to_nat n) text) else None.
Definition msgsnd (mtype : Z) (text : list cint) : prog Z :=
  Sys (λ a s, match a with
              | AInt z => if z =? -1 then Some (z, s)
                  else if (z =? 0) && (1 <=? mtype) then Some (z, set_msq (msq s ++ [(mtype, text)]) s) else None
              | _ => None end) Ret.
(** The first message of a type, and the other messages. *)
Fixpoint take_msg (ty : Z) (q : list (Z * list cint)) : option (list cint * list (Z * list cint)) :=
  match q with
  | [] => None
  | (ty', t) :: q' => if ty' =? ty then Some (t, q')
      else match take_msg ty q' with Some (t', r) => Some (t', (ty', t) :: r) | None => None end
  end.
(** The number of bytes received and the text; [-1] when interrupted or when
    the text is longer than [sz] [int]s. *)
Definition msgrcv (sz ty : Z) : prog (Z * list cint) :=
  Sys (λ a s, match a with
              | AInt z => if z =? -1 then Some ((-1, []), s)
                  else match take_msg ty (msq s) with
                       | Some (t, r) => if Z.of_nat (length t) <=? sz
                           then Some ((4 * Z.of_nat (length t), t), set_msq r s) else None
                       | None => None end
              | _ => None end) Ret.
(** The array after a message of type [ty] was received into it. *)
Definition msg_store (buf : list cint) (ty : Z) (text : list cint) : option (list cint) :=
  let hd := match long_ints with 1%nat => [Some ty] | _ => [Some (i32 ty); Some (ty / 2 ^ 32)] end in
  let new := hd ++ text in
  if Z.of_nat (length new) <=? Z.of_nat (length buf) then Some (new ++ drop (length new) buf) else None.
(** [n /= sizeof (int)] for an [int] [n]: the division is of [size_t]s. *)
Definition div_sizeof_int (n : Z) : Z := i32 ((n mod 2 ^ (32 * Z.of_nat long_ints)) / 4).

(** ** [mng_io.c] *)
Definition add_efd (fd : Z) : prog Z :=
  MUTEX_LOCK MConn;;
  cur ← read cur_open_files; max ← read max_open_files;
  if max <=? cur then MUTEX_UNLOCK MConn;; mret (-1)
  else
    r ← epoll_ctl_add fd;
    if r =? -1 then mret (-1)
    else
      write (λ s, set_cur (cur_open_files s + 1) s);;
      cur ← read cur_open_files;
      (if cur =? 1 then CV_SIGNAL MConn else mret tt);;
      MUTEX_UNLOCK MConn;;
      mret 0.

Definition del_efd (fd : Z) : prog Z :=
  MUTEX_LOCK MConn;;
  r ← epoll_ctl_del fd;
  if r =? -1 then mret (-1)
  else
    close fd;;
    write (λ s, set_cur (cur_open_files s - 1) s);;
    MUTEX_UNLOCK MConn;;
    mret 0.

Definition push_evlist (k : nat) (fd : cint) : prog Z :=
  MUTEX_LOCK (MEvl k);;
  n ← evl_get k n_ev;
  if n =? MAX_EVENT_QUEUE then emit (EDrop k fd);; mret (-1)
  else
    i2 ← evl_get k i2_ev;
    (if i2 =? MAX_EVENT_QUEUE then evl_set k (with_i2 0) else mret tt);;
    evl_upd k (λ e, q ← put_at (q_ev e) (i2_ev e) fd; Some (tt, with_i2 (i2_ev e + 1) (with_q q e)));;
    evl_set k (λ e, with_n (n_ev e + 1) e);;
    emit (EPush k fd);;
    n ← evl_get k n_ev;
    (if n =? 1 then CV_SIGNAL (MEvl k) else mret tt);;
    MUTEX_UNLOCK (MEvl k);;
    mret 0.

Definition pop_evlist (k : nat) : prog cint :=
  MUTEX_LOCK (MEvl k);;
  n ← evl_get k n_ev;
  if n =? 0 then emit (EUnder k);; mret (Some (-1))
  else
    ret ← evl_upd k (λ e, x ← at_ (q_ev e) (i1_ev e); Some (x, with_i1 (i1_ev e + 1) e));
    evl_set k (λ e, with_n (n_ev e - 1) e);;
    emit (EPop k ret);;
    MUTEX_UNLOCK (MEvl k);;
    mret ret.

(** [get_fdlistbyfd fd] and the fields of the result. *)
Definition fdl_get (fd : cint) : prog Z :=
  Act (λ s, match (i ← fd; at_ (p_fdlists s) i) with Some x => Ok (fdl_fd x, s) | None => Err BadAccess end) Ret.
Definition fdl_upd (fd : Z) (f : fdlist → fdlist) : prog unit :=
  Act (λ s, match (x ← at_ (p_fdlists s) fd; put_at (p_fdlists s) fd (f x)) with
            | Some l => Ok (tt, set_fdl l s) | None => Err BadAccess end) Ret.

Definition ADD_FDLIST (fd : Z) : prog unit :=
  fdl_upd fd (λ x, FDLIST fd (t_conn x));;
  t ← time; fdl_upd fd (λ x, FDLIST (fdl_fd x) t).
Definition DEL_FDLIST (fd : Z) : prog unit := fdl_upd fd (λ x, FDLIST (-1) (t_conn x)).
Definition ADD_EFD (fd : Z) : prog unit :=
  r ← add_efd fd; if r <? 0 then exit_ 1 else mret tt.
Definition DEL_EFD (fd : Z) : prog unit :=
  r ← del_efd fd; if r <? 0 then exit_ 1 else mret tt.

(** ** [mng_thread.c]: one program per loop of a thread *)
Definition start_listener (m : mode) : prog mode :=
  match m with
  | L_start =>
      fd ← socket;
      write (λ s, set_listener (saddr_s s) fd s);;
      if fd <? 0 then exit_ 1
      else
        b ← sys_01;
        if b =? -1 then exit_ 1
        else
          a ← read saddr_s;
          (if sin_port a =? 0 then getsockname else mret tt);;
          mret L_accept
  | L_accept =>
      fd_client ← accept;
      if fd_client =? -1 then mret Returned
      else ADD_EFD fd_client;; ADD_FDLIST fd_client;; mret L_accept
  | _ => mret m
  end.

Definition start_poller (m : mode) : prog mode :=
  match m with
  | P_top buf =>
      MUTEX_LOCK MConn;;
      cur ← read cur_open_files;
      (if cur =? 0 then CV_WAIT MConn else mret tt);;
      MUTEX_UNLOCK MConn;;
      cur ← read cur_open_files;
      ret_poll ← epoll_wait cur;
      if ret_poll =? -1 then exit_ 1 else mret (P_for 0 ret_poll buf)
  | P_for i ret_poll buf =>
      if i <? ret_poll then
        ev ← Act (λ s, match at_ (ep_events s) i with Some x => Ok (x, s) | None => Err BadAccess end) Ret;
        if negb (Z.land (fst ev) EPOLLIN =? 0) then
          match put_at buf (i + 1) (Some (snd ev)) with
          | Some buf' => mret (P_for (i + 1) ret_poll buf')
          | None => Act (λ _, Err BadAccess) (λ x : mode, Ret x)
          end
        else mret (P_for (i + 1) ret_poll buf)
      else mret (P_send i ret_poll buf)
  | P_send i ret_poll buf =>
      write (λ s, set_nep (u32 (n_epevent s + ret_poll)) s);;
      match put_at buf 0 (Some MQ_INTERNAL) with
      | Some buf' =>
          match msg_type buf', msg_text buf' i with
          | Some ty, Some text => _ ← msgsnd ty text; mret (P_top buf')
          | _, _ => Act (λ _, Err BadAccess) (λ x : mode, Ret x)
          end
      | None => Act (λ _, Err BadAccess) (λ x : mode, Ret x)
      end
  | _ => mret m
  end.

Definition start_iosched (m : mode) : prog mode :=
  match m with
  | S_top idx_rr buf =>
      r ← msgrcv MAX_EVENT_QUEUE MQ_INTERNAL;
      if fst r =? -1 then mret (S_for 0 (div_sizeof_int (-1)) idx_rr buf)
      else
        match msg_store buf MQ_INTERNAL (snd r) with
        | Some buf' =>
            if fst r =? 0 then mret (S_top idx_rr buf')
            else mret (S_for 0 (div_sizeof_int (fst r)) idx_rr buf')
        | None => Act (λ _, Err BadAccess) (λ x : mode, Ret x)
        end
  | S_for i n idx_rr buf =>
      if i <? n then
        let idx_rr := if idx_rr =? MAX_WORKER_THREAD then 0 else idx_rr in
        match at_ buf (i + 1), idx idx_rr with
        | Some fd, Some k => _ ← push_evlist k fd; mret (S_for (i + 1) n (idx_rr + 1) buf)
        | _, _ => Act (λ _, Err BadAccess) (λ x : mode, Ret x)
        end
      else mret (S_top idx_rr buf)
  | _ => mret m
  end.

Definition set_wstatus (k : nat) (z : Z) : prog unit := write (λ s, set_status (<[k := z]> (w_status s)) s).

Definition start_worker (k : nat) (m : mode) : prog mode :=
  match m with
  | W_top =>
      set_wstatus k T_IDLE;;
      MUTEX_LOCK (MEvl k);;
      n ← evl_get k n_ev;
      (if n =? 0 then CV_WAIT (MEvl k) else mret tt);;
      _ ← evl_get k n_ev;
      MUTEX_UNLOCK (MEvl k);;
      set_wstatus k T_RUNNING;;
      mret (W_for 0)
  | W_for i =>
      n ← evl_get k n_ev;
      if i <? n then
        p_fdl ← pop_evlist k;
        fd ← fdl_get p_fdl;
        emit (ERecv k fd);;
        n_recv ← recv fd;
        (if n_recv =? -1 then mret tt
         else if n_recv =? 0 then
           fd ← fdl_get p_fdl; DEL_EFD fd;;
           fd ← fdl_get p_fdl; DEL_FDLIST fd
         else mret tt);;
        mret (W_for (i + 1))
      else mret W_end
  | W_end =>
      MUTEX_LOCK (MEvl k);; MUTEX_UNLOCK (MEvl k);; mret W_top
  | _ => mret m
  end.

Definition code (t : tid) : mode → prog mode :=
  match t with
  | Listener => start_listener
  | Poller => start_poller
  | Iosched => start_iosched
  | Worker k => start_worker k
  end.

(** ** Running the threads *)
Record config := Config { gs : pool; th : tid → prog mode }.

(** One action of a thread, or a spurious wake-up. *)
Inductive label : Set :=
| Do (t : tid) (a : answer)
| Wake (t : tid) (m : mutex).

Definition goes (c : config) (t : tid) (s : pool) (p : prog mode) : option (res config) :=
  Some (Ok (Config s (<[t := p]> (th c)))).

(** [None]: the thread is blocked, or has returned. *)
Definition step_prog (c : config) (t : tid) (a : answer) : option (res config) :=
  let s := gs c in
  match th c t with
  | Ret Returned => None
  | Ret m => goes c t s (code t m)
  | Act f k => match f s with Ok (x, s') => goes c t s' (k x) | Err e => Some (Err e) end
  | Sys f k => match f a s with Some (x, s') => goes c t s' (k x) | None => None end
  | Lock m k =>
      if bool_decide (t ∈ waiters s m) then None
      else match owner s m with None => goes c t (set_owner m (Some t) s) k | Some _ => None end
  | Unlock m k =>
      if bool_decide (owner s m = Some t) then goes c t (set_owner m None s) k else Some (Err BadAccess)
  | Broadcast m k => goes c t (set_waiters m [] s) k
  | Wait m k =>
      if bool_decide (owner s m = Some t)
      then goes c t (set_owner m None (set_waiters m (t :: waiters s m) s)) (Lock m k)
      else Some (Err BadAccess)
  | Exit z => Some (Err (Exited z))
  end.

Definition step (l : label) (c : config) : option (res config) :=
  match l with
  | Do t a => step_prog c t a
  | Wake t m =>
      if bool_decide (t ∈ waiters (gs c) m)
      then Some (Ok (Config (set_waiters m (filter (λ x, x ≠ t) (waiters (gs c) m)) (gs c)) (th c)))
      else None
  end.

Fixpoint run (ls : list label) (c : config) : option (res config) :=
  match ls with
  | [] => Some (Ok c)
  | l :: ls => match step l c with Some (Ok c') => run ls c' | r => r end
  end.

(** ** [io_epoll_pthread.c] *)

(** What the system calls of the start-up return: whether each [calloc]
    succeeds, and the descriptors. *)
Record boot := Boot { b_calloc : nat → bool; b_msgget : Z; b_epoll_create : Z }.

(** The byte order of the port. *)
Definition htons (z : Z) : Z := (u16 z mod 256) * 256 + u16 z / 256.
Definition MIN (a b : Z) : Z := if a <=? b then a else b.

(** [false] stands for [NULL]. *)
Definition calloc (b : boot) (i : nat) : M pool bool := mret (b_calloc b i).

Fixpoint alloc_evlists (b : boot) (i : nat) (n : nat) : M pool Z :=
  match n with
  | O => mret 0
  | S n =>
      ok ← calloc b i;
      if ok : bool then
        modify (λ s, set_evls (p_evlists s ++ [EVLIST 0 0 0 (replicate (Z.to_nat MAX_EVENT_QUEUE) (Some 0))]) s);;
        alloc_evlists b (S i) n
      else mret (-1)
  end.

Definition alloc_resources (b : boot) : M pool Z :=
  ok ← calloc b 0;
  if negb ok then mret (-1)
  else
    modify (λ s, Pool 0 (MIN sc_open_max DFL_OPEN_MAX_FILES) (p_evlists s) (p_fdlists s) (saddr_s s) (fd_listener s) (n_epevent s) (w_status s) (ep_events s) (owner s) (waiters s) (interest s) (open_fds s) (msq s) (log s));;
    ok ← calloc b 1;
    if negb ok then mret (-1)
    else
      modify (set_fdl (replicate (Z.to_nat DFL_OPEN_MAX_FILES) (FDLIST 0 0)));;
      r ← alloc_evlists b 2 (Z.to_nat MAX_WORKER_THREAD);
      if r =? -1 then mret (-1)
      else if b_msgget b <? 0 then fail (Exited 1)
      else if b_epoll_create b =? -1 then fail (Exited 1)
      else
        ok ← calloc b 6;
        if negb ok then fail (Exited 1)
        else
          modify (λ s, set_epev (replicate (Z.to_nat (max_open_files s)) (0, 0)) s);;
          mret 0.

(** The thread slots, each with its start function and what [memset] clears. *)
Definition pthr_slots : list (tid * mode * (pool → pool)) :=
  [ (Listener, L_start, set_listener (SockAddr 0 0 0) 0);
    (Poller, P_top (replicate (Z.to_nat (MAX_EVENT_QUEUE + 1)) None), set_nep 0);
    (Iosched, S_top 0 (replicate (Z.to_nat (MAX_EVENT_QUEUE + 1)) None), id) ].

Definition threads : Type := list (tid * mode).

Fixpoint make_slots (l : list (tid * mode * (pool → pool))) (acc : threads) : M pool threads :=
  match l with
  | [] => mret acc
  | (t, m, clear) :: l => modify clear;; make_slots l (acc ++ [(t, m)])
  end.

Definition make_threads : M pool threads :=
  ts ← make_slots pthr_slots [];
  mret (ts ++ ((λ k, (Worker k, W_top)) <$> seq 0 (Z.to_nat MAX_WORKER_THREAD))).

(** The static storage before [main]. *)
Definition pool_zero : pool :=
  Pool 0 0 [] [] (SockAddr 0 0 0) 0 0 (replicate (Z.to_nat MAX_WORKER_THREAD) 0) []
    (λ _, None) (λ _, []) [] [] [] [].

(** [main] up to its idle loop; [argv1] is [atoi (argv[1])]. *)
Definition pool_main (argc : Z) (argv1 : Z) (b : boot) : M pool threads :=
  if 2 <? argc then fail (Exited 1)
  else
    let port := if argc =? 2 then argv1 else 0 in
    modify (set_listener (SockAddr AF_INET 0 (htons port)) 0);;
    r ← alloc_resources b;
    if negb (r =? 0) then fail (Exited 1)
    else make_threads.

(** The threads that were created are at the start of their functions. *)
Definition spawn (ts : threads) (t : tid) : prog mode :=
  match list_find (λ x, x.1 = t) ts with Some (_, (_, m)) => Ret m | None => Ret Returned end.

Definition start (argc argv1 : Z) (b : boot) : res config :=
  match pool_main argc argv1 b pool_zero with
  | Ok (ts, s) => Ok (Config s (spawn ts))
  | Err e => Err e
  end.
End code.
