(* ===== verification/EvLogic.v ===== *)
(** * Rely and guarantee for the thread pool

    A proof rule for the interleaved threads of [EvPool].  A thread is verified
    on its own: each of its actions must keep the invariant [I] and be one of
    the changes [G t] it guarantees, whatever changes [Rl t] the other threads
    make before the action ([good]).  If what one thread guarantees is what the
    others rely on, and the program of every mode is good, then every reachable
    configuration satisfies [I], and no action faults except where [flt] allows
    it ([step_ok], [run_ok]).  [adm] restricts the answers of the system. *)

From stdpp Require Import functions relations base gmap list.
From Stdlib Require Import ZArith Lia.
From S2P Require Import Prelude EvPool.

Section logic.
Context `{P : Platform}.
Context (I : pool → Prop) (Rl G : tid → pool → pool → Prop).
Context (adm : tid → answer → Prop) (flt : pool → fault → Prop).

(** After an action of [t] from [s] to [s']. *)
Definition keeps (t : tid) (s s' : pool) : Prop := G t s s' ∧ I s'.

(** [later t s φ]: [φ] holds after any changes of the other threads. *)
Definition later (t : tid) (s : pool) (φ : pool → Prop) : Prop :=
  ∀ s', Rl t s s' → I s' → φ s'.

Definition acquire (t : tid) (m : mutex) (φ : pool → Prop) (s : pool) : Prop :=
  owner s m = None →
  keeps t s (set_owner m (Some t) s) ∧ φ (set_owner m (Some t) s).

Fixpoint good {A} (t : tid) (p : prog A) (Q : A → pool → Prop) (s : pool) : Prop :=
  later t s (λ s,
    match p with
    | Ret r => Q r s
    | Act f k =>
        match f s with
        | Ok (x, s') => keeps t s s' ∧ good t (k x) Q s'
        | Err e => flt s e
        end
    | Sys f k => ∀ a, adm t a →
        match f a s with
        | Some (x, s') => keeps t s s' ∧ good t (k x) Q s'
        | None => True
        end
    | Lock m k => acquire t m (good t k Q) s
    | Unlock m k =>
        owner s m = Some t ∧ keeps t s (set_owner m None s) ∧ good t k Q (set_owner m None s)
    | Broadcast m k => keeps t s (set_waiters m [] s) ∧ good t k Q (set_waiters m [] s)
    | Wait m k =>
        let s' := set_owner m None (set_waiters m (t :: waiters s m) s) in
        owner s m = Some t ∧ keeps t s s' ∧ later t s' (acquire t m (good t k Q))
    | Exit _ => True
    end).

Context (Rl_refl : ∀ t s, Rl t s s).
Context (Rl_trans : ∀ t s1 s2 s3, Rl t s1 s2 → Rl t s2 s3 → Rl t s1 s3).

Lemma later_rely t s s' φ : Rl t s s' → later t s φ → later t s' φ.
Proof. intros HR H s'' HR' HI. apply H; eauto. Qed.

Lemma good_rely {A} t (p : prog A) Q s s' : Rl t s s' → good t p Q s → good t p Q s'.
Proof. intros HR. destruct p; apply later_rely, HR. Qed.

Lemma good_later {A} t (p : prog A) Q s : later t s (good t p Q) → good t p Q s.
Proof.
  intros H. destruct p; intros s' HR HI; exact (H s' HR HI s' (Rl_refl t s') HI).
Qed.

Lemma later_mono t s (φ ψ : pool → Prop) :
  later t s φ → (∀ s', φ s' → ψ s') → later t s ψ.
Proof. intros H Hm s' HR HI. by apply Hm, H. Qed.

Lemma acquire_mono t m (φ ψ : pool → Prop) s :
  acquire t m φ s → (∀ s', φ s' → ψ s') → acquire t m ψ s.
Proof. intros H Hm Ho. destruct (H Ho). auto. Qed.

Lemma good_bind {A B} t (p : prog A) (f : A → prog B) Q s :
  good t p (λ a, good t (f a) Q) s → good t (pbind f p) Q s.
Proof.
  revert s. induction p as [r|A' g k IH|A' g k IH|m k IH|m k IH|m k IH|m k IH|c]; intros s H; simpl in *.
  - by apply good_later.
  - eapply later_mono; [exact H|]. simpl. intros s' Hs. destruct (g s') as [[x s'']|]; [|done].
    destruct Hs. eauto.
  - eapply later_mono; [exact H|]. simpl. intros s' Hs a Ha. specialize (Hs a Ha).
    destruct (g a s') as [[x s'']|]; [|done]. destruct Hs. eauto.
  - eapply later_mono; [exact H|]. intros s' Hs. eapply acquire_mono; [exact Hs|eauto].
  - eapply later_mono; [exact H|]. intros s' (?&?&?). eauto.
  - eapply later_mono; [exact H|]. intros s' (?&?). eauto.
  - eapply later_mono; [exact H|]. intros s' (?&?&Hl). split_and!; [done..|].
    eapply later_mono; [exact Hl|]. intros. eapply acquire_mono; [done|eauto].
  - done.
Qed.

Lemma good_conseq {A} t (p : prog A) (Q Q' : A → pool → Prop) s :
  good t p Q s → (∀ a s', Q a s' → Q' a s') → good t p Q' s.
Proof.
  intros H HQ. revert s H.
  induction p as [r|A' g k IH|A' g k IH|m k IH|m k IH|m k IH|m k IH|c]; intros s H; simpl in *;
    (eapply later_mono; [exact H|]); simpl; intros s'; eauto.
  - intros Hs. destruct (g s') as [[x s'']|]; [destruct Hs; eauto|done].
  - intros Hs a Ha. specialize (Hs a Ha). destruct (g a s') as [[x s'']|]; [destruct Hs; eauto|done].
  - intros Hs. eapply acquire_mono; [exact Hs|eauto].
  - intros (?&?&?). eauto.
  - intros (?&?). eauto.
  - intros (?&?&Hl). split_and!; [done..|]. eapply later_mono; [exact Hl|]. intros. eapply acquire_mono; [done|eauto].
Qed.

(** ** Soundness *)
Context (pre : tid → mode → pool → Prop).
Context (G_Rl : ∀ t t' s s', t ≠ t' → G t s s' → I s → I s' → Rl t' s s').
Context (code_good : ∀ t m s, I s → pre t m s → good t (code t m) (pre t) s).
(** Spurious wake-ups are like broadcasts. *)
Context (wake_ok : ∀ t s m l, l ⊆ waiters s m → I s →
  I (set_waiters m l s) ∧ Rl t s (set_waiters m l s)).

Definition cfg_ok (c : config) : Prop :=
  I (gs c) ∧ ∀ t, good t (th c t) (pre t) (gs c).

(** Any action but [Wake] on admitted answers. *)
Definition adm_label (l : label) : Prop :=
  match l with Do t a => adm t a | Wake _ _ => True end.

Lemma goes_ok c t s p r :
  cfg_ok c → keeps t (gs c) s → good t p (pre t) s → goes c t s p = Some r →
  ∃ c', r = Ok c' ∧ cfg_ok c'.
Proof.
  intros [HI Hth] [HG HI'] Hp [= <-]. eexists. split; [done|]. split; [done|].
  intros t'. simpl. destruct (decide (t = t')) as [<-|Hne].
  - by rewrite fn_lookup_insert.
  - rewrite fn_lookup_insert_ne by done. eapply good_rely; [|apply Hth]. eauto.
Qed.

Definition res_ok (c : config) (r : res config) : Prop :=
  match r with Ok c' => cfg_ok c' | Err (Exited _) => True | Err e => flt (gs c) e end.

Context (G_refl : ∀ t s, G t s s).

Lemma step_ok l c r : cfg_ok c → adm_label l → step l c = Some r → res_ok c r.
Proof.
  intros Hc Hadm Hst. destruct l as [t a|t m]; simpl in Hst.
  - assert (∀ s p, keeps t (gs c) s → good t p (pre t) s → goes c t s p = Some r → res_ok c r) as Hgo.
    { intros s p ? ? Hg. by destruct (goes_ok c t s p r Hc ltac:(done) ltac:(done) Hg) as (c' & -> & ?). }
    destruct (Hc) as [HI Hth]. specialize (Hth t). unfold step_prog in Hst.
    assert (keeps t (gs c) (gs c)) as Hrefl by by split.
    destruct (th c t) as [m|A' g k|A' g k|m k|m k|m k|m k|z]; simpl in Hth;
      specialize (Hth _ (Rl_refl t (gs c)) HI); simpl in Hth.
    + destruct m; try discriminate; (eapply Hgo; [exact Hrefl|by apply code_good|exact Hst]).
    + destruct (g (gs c)) as [[x s']|e]; [destruct Hth; eauto|].
      injection Hst as <-. by destruct e.
    + specialize (Hth a Hadm). destruct (g a (gs c)) as [[x s']|]; [destruct Hth; eauto|done].
    + case_bool_decide; [done|]. destruct (owner (gs c) m) eqn:Ho; [done|].
      destruct (Hth Ho). eauto.
    + destruct Hth as (Ho & ? & ?). rewrite bool_decide_true in Hst by done. eauto.
    + destruct Hth. eauto.
    + destruct Hth as (Ho & ? & ?). rewrite bool_decide_true in Hst by done.
      by eapply Hgo, Hst.
    + by injection Hst as <-.
  - case_bool_decide; [|done]. injection Hst as <-. destruct Hc as [HI Hth].
    assert (filter (λ x, x ≠ t) (waiters (gs c) m) ⊆ waiters (gs c) m) as Hsub.
    { intros x. rewrite list_elem_of_filter. tauto. }
    split; simpl; [by apply (wake_ok t)|].
    intros t'. eapply good_rely; [by apply wake_ok|]. done.
Qed.

(** A step of a thread is a change it guarantees. *)
Lemma step_keeps t a c c' :
  cfg_ok c → adm t a → step (Do t a) c = Some (Ok c') → keeps t (gs c) (gs c').
Proof.
  intros [HI Hth] Hadm Hst. simpl in Hst. unfold step_prog in Hst. specialize (Hth t).
  assert (∀ s p, keeps t (gs c) s → goes c t s p = Some (Ok c') → keeps t (gs c) (gs c')) as Hgo.
  { by intros s p Hk [= <-]. }
  assert (keeps t (gs c) (gs c)) as Hrefl by by split.
  destruct (th c t) as [m|A' g k|A' g k|m k|m k|m k|m k|z]; simpl in Hth;
    specialize (Hth _ (Rl_refl t (gs c)) HI); simpl in Hth.
  - destruct m; try discriminate; by eapply Hgo, Hst.
  - destruct (g (gs c)) as [[x s']|e]; [destruct Hth; eauto|done].
  - specialize (Hth a Hadm). destruct (g a (gs c)) as [[x s']|]; [destruct Hth; eauto|done].
  - case_bool_decide; [done|]. destruct (owner (gs c) m) eqn:Ho; [done|]. destruct (Hth Ho). eauto.
  - destruct Hth as (Ho & ? & ?). rewrite bool_decide_true in Hst by done. eauto.
  - destruct Hth. eauto.
  - destruct Hth as (Ho & ? & ?). rewrite bool_decide_true in Hst by done. by eapply Hgo, Hst.
  - done.
Qed.

Lemma run_ok ls c r : cfg_ok c → Forall adm_label ls → run ls c = Some r →
  match r with Ok c' => cfg_ok c' | Err (Exited _) => True | Err e => ∃ c', cfg_ok c' ∧ flt (gs c') e end.
Proof.
  revert c. induction ls as [|l ls IH]; intros c Hc Hadm Hrun; simpl in Hrun.
  - by injection Hrun as <-.
  - apply Forall_cons in Hadm as [Hl Hls].
    destruct (step l c) as [r'|] eqn:Hst; [|done].
    pose proof (step_ok _ _ _ Hc Hl Hst) as Hr. destruct r' as [c'|e]; [by eapply IH|].
    injection Hrun as <-. destruct e; simpl in Hr; eauto.
Qed.
End logic.
