(* ===== verification/EvInv.v ===== *)
(** * The invariant of the thread pool

    What each mutex protects, what the threads guarantee to each other ([G]) and
    rely on ([Rl]), the invariant [Inv] of the shared memory, and the actions
    that keep it.  With [calm] set, the outside world is restricted to clients
    that stay connected and calls that are not interrupted, and the invariant
    also says that every descriptor on its way to a worker is a valid one. *)

From stdpp Require Import functions base gmap list.
From Stdlib Require Import ZArith Lia.
From S2P Require Import Prelude EvPool EvLogic.

Local Open Scope Z_scope.

(** ** Histories *)
Definition pushed (k : nat) (l : list event) : list cint :=
  omap (λ e, match e with EPush k' fd => if decide (k' = k) then Some fd else None | _ => None end) l.
Definition popped (k : nat) (l : list event) : list cint :=
  omap (λ e, match e with EPop k' fd => if decide (k' = k) then Some fd else None | _ => None end) l.
(** The workers to which the scheduler dealt an event, dropped ones included. *)
Definition dealt (l : list event) : list nat :=
  omap (λ e, match e with EPush k _ | EDrop k _ => Some k | _ => None end) l.

(** The descriptors waiting in a queue: [n_ev] entries from [i1_ev] on, around
    the end of the array. *)
Definition contents (e : evlist) : list cint :=
  (λ j, q_ev e !!! Z.to_nat ((i1_ev e + Z.of_nat j) mod MAX_EVENT_QUEUE)) <$> seq 0 (Z.to_nat (n_ev e)).

Lemma log_push k fd : pushed k [EPush k fd] = [fd] ∧ popped k [EPush k fd] = [].
Proof. simpl. by rewrite decide_True. Qed.
Lemma log_pop k fd : pushed k [EPop k fd] = [] ∧ popped k [EPop k fd] = [fd].
Proof. simpl. by rewrite decide_True. Qed.
Lemma log_drop k fd : pushed k [EDrop k fd] = [] ∧ popped k [EDrop k fd] = [].
Proof. done. Qed.
Ltac logsimpl :=
  rewrite ?(proj1 (log_push _ _)), ?(proj2 (log_push _ _)), ?(proj1 (log_pop _ _)), ?(proj2 (log_pop _ _)),
    ?(proj1 (log_drop _ _)), ?(proj2 (log_drop _ _)), ?app_nil_r.

Definition valid_fd (x : cint) : Prop := ∃ i, x = Some i ∧ 0 ≤ i < DFL_OPEN_MAX_FILES.

(** ** Array elements *)
Lemma at_lt {A} (l : list A) i : 0 ≤ i < Z.of_nat (length l) → is_Some (at_ l i).
Proof.
  intros. unfold at_, idx. destruct (Z.leb_spec 0 i); [|lia]. apply lookup_lt_is_Some. lia.
Qed.

Lemma put_at_Some {A} (l : list A) i a l' :
  put_at l i a = Some l' → 0 ≤ i ∧ l' = <[Z.to_nat i := a]> l ∧ (Z.to_nat i < length l)%nat.
Proof.
  unfold put_at, idx. destruct (Z.leb_spec 0 i); [|done]. simpl.
  destruct (l !! Z.to_nat i) eqn:E; [|done]. intros [= <-]. split_and!; [done..|]. by eapply lookup_lt_Some.
Qed.

Lemma put_at_lt {A} (l : list A) i a : 0 ≤ i < Z.of_nat (length l) → is_Some (put_at l i a).
Proof.
  intros. unfold put_at, idx. destruct (Z.leb_spec 0 i); [|lia]. simpl.
  destruct (lookup_lt_is_Some_2 l (Z.to_nat i)) as [x ->]; [lia|]. by eexists.
Qed.

Section inv.
Context `{P : Platform} (calm : bool).

(** ** What a mutex protects *)
Definition same (m : mutex) (s s' : pool) : Prop :=
  match m with
  | MConn => cur_open_files s' = cur_open_files s ∧ interest s' = interest s
  | MEvl k => p_evlists s' !! k = p_evlists s !! k ∧
      pushed k (log s') = pushed k (log s) ∧ popped k (log s') = popped k (log s)
  end.

Definition n_of (s : pool) (k : nat) : Z := match p_evlists s !! k with Some e => n_ev e | None => 0 end.

(** A change by thread [t]. *)
Record G (t : tid) (s s' : pool) : Prop := {
  g_same m : owner s m ≠ Some t → same m s s';
  g_wait m : owner s m ≠ Some t → waiters s' m ⊆ waiters s m;
  g_owner m : owner s' m = owner s m ∨ (owner s m = None ∧ owner s' m = Some t)
    ∨ (owner s m = Some t ∧ owner s' m = None);
  g_max : max_open_files s' = max_open_files s;
  g_n k : t ≠ Worker k → n_of s k ≤ n_of s' k;
  g_dealt : t ≠ Iosched → dealt (log s') = dealt (log s);
  g_epev : t ≠ Poller → ep_events s' = ep_events s
}.

(** The changes the other threads make, as seen by [t]. *)
Record Rl (t : tid) (s s' : pool) : Prop := {
  r_same m : owner s m = Some t → same m s s' ∧ waiters s' m ⊆ waiters s m;
  r_owner m : owner s' m = Some t ↔ owner s m = Some t;
  r_max : max_open_files s' = max_open_files s;
  r_n k : t = Worker k → n_of s k ≤ n_of s' k;
  r_dealt : t = Iosched → dealt (log s') = dealt (log s);
  r_epev : t = Poller → ep_events s' = ep_events s
}.

(** ** The invariant *)
Record evl_ok (e : evlist) : Prop := {
  ok_n : 0 ≤ n_ev e ≤ MAX_EVENT_QUEUE;
  ok_i1 : 0 ≤ i1_ev e ≤ MAX_EVENT_QUEUE;
  ok_i2 : 0 ≤ i2_ev e ≤ MAX_EVENT_QUEUE;
  ok_q : Z.of_nat (length (q_ev e)) = MAX_EVENT_QUEUE
}.

(** A queue nobody is working on. *)
Record evl_rest (s : pool) (k : nat) (e : evlist) : Prop := {
  rest_ring : (i1_ev e + n_ev e) mod MAX_EVENT_QUEUE = i2_ev e mod MAX_EVENT_QUEUE;
  rest_fifo : pushed k (log s) = popped k (log s) ++ contents e;
  rest_i1 : i1_ev e = Z.of_nat (length (popped k (log s)));
  rest_wait : Worker k ∈ waiters s (MEvl k) → n_ev e = 0
}.

Record conn_rest (s : pool) : Prop := {
  rest_cur : cur_open_files s = Z.of_nat (length (interest s));
  rest_nodup : NoDup (interest s);
  rest_poller : Poller ∈ waiters s MConn → cur_open_files s = 0
}.

(** With [calm], the descriptors under way are valid. *)
Record calm_inv (s : pool) : Prop := {
  calm_interest : Forall (valid_fd ∘ Some) (interest s);
  calm_open : Forall (valid_fd ∘ Some) (open_fds s);
  calm_msq : Forall (λ x, x.1 = MQ_INTERNAL ∧ Forall valid_fd x.2) (msq s);
  calm_pushed k : Forall valid_fd (pushed k (log s))
}.

Record Inv (s : pool) : Prop := {
  inv_len : length (p_evlists s) = 4%nat;
  inv_fdl : Z.of_nat (length (p_fdlists s)) = DFL_OPEN_MAX_FILES;
  inv_epev : Z.of_nat (length (ep_events s)) = Z.max 0 (max_open_files s);
  inv_cur : cur_open_files s ≤ Z.max 0 (max_open_files s);
  inv_evl k e : p_evlists s !! k = Some e → evl_ok e;
  inv_prefix k : popped k (log s) `prefix_of` pushed k (log s);
  inv_rest k e : p_evlists s !! k = Some e → owner s (MEvl k) = None → evl_rest s k e;
  inv_conn : owner s MConn = None → conn_rest s;
  inv_waitE k t : t ∈ waiters s (MEvl k) → t = Worker k;
  inv_waitC t : t ∈ waiters s MConn → t = Poller;
  inv_under k : EUnder k ∉ log s;
  inv_rr j k : dealt (log s) !! j = Some k → k = (j mod 4)%nat;
  inv_calm : calm = true → calm_inv s
}.

Definition adm (t : tid) (a : answer) : Prop :=
  calm = true →
  match t, a with
  | Poller, AEvents l => Z.of_nat (length l) ≤ MAX_EVENT_QUEUE ∧ Forall (λ x, Z.land x.1 EPOLLIN ≠ 0) l
  | Iosched, AInt z => z ≠ -1
  | Worker _, AInt z => z ≠ 0
  | _, _ => True
  end.
(** Faults: with [calm], only where a queue has run over its end. *)
Definition flt (s : pool) (e : fault) : Prop :=
  calm = true → ∃ k e, p_evlists s !! k = Some e ∧ i1_ev e = MAX_EVENT_QUEUE.

Lemma same_refl m s : same m s s.
Proof. by destruct m. Qed.
Lemma same_trans m s1 s2 s3 : same m s1 s2 → same m s2 s3 → same m s1 s3.
Proof. destruct m; simpl; intuition congruence. Qed.

Lemma G_refl t s : G t s s.
Proof. constructor; auto using same_refl. done. Qed.

Lemma Rl_refl t s : Rl t s s.
Proof. constructor; auto using same_refl; done. Qed.

Lemma Rl_trans t s1 s2 s3 : Rl t s1 s2 → Rl t s2 s3 → Rl t s1 s3.
Proof.
  intros [a1 b1 c1 d1 e1 f1] [a2 b2 c2 d2 e2 f2]. constructor.
  - intros m Hm. destruct (a1 m Hm). destruct (a2 m); [by apply b1|]. split; [by eapply same_trans|set_solver].
  - intros m. rewrite b2. apply b1.
  - congruence.
  - intros k Hk. specialize (d1 k Hk). specialize (d2 k Hk). lia.
  - intros Ht. by rewrite e2, e1.
  - intros Ht. by rewrite f2, f1.
Qed.

Lemma G_Rl t t' s s' : t ≠ t' → G t s s' → Rl t' s s'.
Proof.
  intros Hne [Gs Gw Go Gm Gn Gd Ge]. constructor; auto; try (intros; subst; auto; done).
  - intros m Hm. split; [apply Gs|apply Gw]; congruence.
  - intros m. destruct (Go m) as [-> | [[-> ->]|[-> ->]]]; [done| |]; split; congruence.
Qed.

(** ** Actions that keep the invariant *)
Abbreviation keeps := (keeps (Inv) G) (only parsing).

Lemma pushed_app k l l' : pushed k (l ++ l') = pushed k l ++ pushed k l'.
Proof. apply omap_app. Qed.
Lemma popped_app k l l' : popped k (l ++ l') = popped k l ++ popped k l'.
Proof. apply omap_app. Qed.
Lemma dealt_app l l' : dealt (l ++ l') = dealt l ++ dealt l'.
Proof. apply omap_app. Qed.

(** Private variables, the tables without a mutex, and calls of [recv]. *)
Lemma keeps_frame t s s' :
  Inv s →
  cur_open_files s' = cur_open_files s → max_open_files s' = max_open_files s →
  p_evlists s' = p_evlists s → owner s' = owner s → waiters s' = waiters s →
  interest s' = interest s → ep_events s' = ep_events s →
  length (p_fdlists s') = length (p_fdlists s) →
  (log s' = log s ∨ ∃ k fd, log s' = log s ++ [ERecv k fd]) →
  (calm = true → Forall (valid_fd ∘ Some) (open_fds s') ∧
     Forall (λ x, x.1 = MQ_INTERNAL ∧ Forall valid_fd x.2) (msq s')) →
  keeps t s s'.
Proof.
  intros HI Hc Hm He Ho Hw Hi Hp Hf Hl Hcalm.
  assert ((∀ k, pushed k (log s') = pushed k (log s)) ∧ (∀ k, popped k (log s') = popped k (log s)) ∧
    dealt (log s') = dealt (log s) ∧ (∀ k, EUnder k ∈ log s' → EUnder k ∈ log s)) as (L1 & L2 & L3 & L4).
  { destruct Hl as [->|(k & fd & ->)]; [done|].
    split_and!; intros; rewrite ?pushed_app, ?popped_app, ?dealt_app; simpl; rewrite ?app_nil_r; try done. set_solver. }
  split.
  - constructor; try congruence; intros; rewrite ?Ho, ?Hw; auto.
    + destruct m; simpl; rewrite ?Hc, ?Hi, ?He, ?L1, ?L2; auto.
    + unfold n_of. by rewrite He.
  - destruct HI. constructor; try (rewrite ?He, ?Hf, ?Hp, ?Hm, ?Hc, ?L3; assumption).
    + intros k. by rewrite L1, L2.
    + rewrite He, Ho. intros k e ? ?. destruct (inv_rest0 k e); [done..|].
      constructor; rewrite ?L1, ?L2, ?Hw; auto.
    + rewrite Ho. intros HH. destruct (inv_conn0 HH). constructor; rewrite ?Hc, ?Hi, ?Hm, ?Hw; auto.
    + rewrite Hw. auto.
    + rewrite Hw. auto.
    + intros k Hk. by eapply inv_under0, L4.
    + intros Hca. destruct (Hcalm Hca), (inv_calm0 Hca). constructor; rewrite ?Hi; auto.
      intros k. by rewrite L1.
Qed.

Lemma n_of_insert s k e k' :
  (k < length (p_evlists s))%nat →
  n_of (set_evls (<[k := e]> (p_evlists s)) s) k' = if decide (k = k') then n_ev e else n_of s k'.
Proof.
  intros. unfold n_of, set_evls. simpl. case_decide as E.
  - subst. by rewrite list_lookup_insert_eq.
  - by rewrite list_lookup_insert_ne.
Qed.

(** Working on a queue under its mutex. *)
Lemma keeps_evl t s k e e' :
  Inv s → owner s (MEvl k) = Some t → p_evlists s !! k = Some e → evl_ok e' →
  (t ≠ Worker k → n_ev e ≤ n_ev e') →
  keeps t s (set_evls (<[k := e']> (p_evlists s)) s).
Proof.
  intros HI Ho He Hok Hn. pose proof (lookup_lt_Some _ _ _ He) as Hk. split.
  - constructor; try done; simpl; auto.
    + intros [|k'] Hm; [done|]. simpl. rewrite list_lookup_insert_ne by congruence. done.
    + intros k' Ht. rewrite n_of_insert by done. case_decide; [subst|done].
      unfold n_of. rewrite He. auto.
  - destruct HI. constructor; simpl; try assumption.
    + by rewrite length_insert.
    + intros k' e''. destruct (decide (k = k')) as [<-|].
      * rewrite list_lookup_insert_eq by done. by intros [= <-].
      * rewrite list_lookup_insert_ne by done. eauto.
    + intros k' e'' He' Ho'. assert (k ≠ k') by congruence.
      rewrite list_lookup_insert_ne in He' by done. destruct (inv_rest0 k' e'' He' Ho'). by constructor.
    + intros Hc. destruct (inv_conn0 Hc). by constructor.
    + intros Hc. destruct (inv_calm0 Hc). by constructor.
Qed.

(** The queue an event is about. *)
Definition ev_queue (e : event) : option nat :=
  match e with EPush k _ | EDrop k _ | EPop k _ | EUnder k => Some k | ERecv _ _ => None end.

(** Recording an event of a queue under its mutex. *)
Lemma keeps_emit t s k ev :
  Inv s → owner s (MEvl k) = Some t → ev_queue ev = Some k → ev ≠ EUnder k →
  popped k (log s ++ [ev]) `prefix_of` pushed k (log s ++ [ev]) →
  (dealt [ev] = [] ∨ t = Iosched ∧ dealt [ev] = [k] ∧ k = (length (dealt (log s)) mod 4)%nat) →
  (calm = true → Forall valid_fd (pushed k [ev])) →
  keeps t s (set_log (log s ++ [ev]) s).
Proof.
  intros HI Ho Hev Hu Hpre Hd Hca.
  assert (∀ k', k' ≠ k → pushed k' [ev] = [] ∧ popped k' [ev] = []) as Hoth.
  { intros k' Hk'. destruct ev; simplify_eq/=; rewrite ?decide_False by done; done. }
  assert (∀ k', k' ≠ k → pushed k' (log s ++ [ev]) = pushed k' (log s) ∧
     popped k' (log s ++ [ev]) = popped k' (log s)) as Hoth'.
  { intros k' Hk'. rewrite pushed_app, popped_app. destruct (Hoth k' Hk') as [-> ->]. by rewrite !app_nil_r. }
  split.
  - constructor; try done; simpl; auto.
    + intros [|k'] Hm; [done|]. simpl. destruct (Hoth' k') as [-> ->]; [congruence|done].
    + intros Ht. rewrite dealt_app. destruct Hd as [->|[? _]]; [by rewrite app_nil_r|done].
  - destruct HI. constructor; simpl; try assumption.
    + intros k'. destruct (decide (k' = k)) as [->|]; [done|]. by destruct (Hoth' k') as [-> ->].
    + intros k' e He Ho'. assert (k' ≠ k) by congruence. destruct (inv_rest0 k' e He Ho').
      destruct (Hoth' k') as [E1 E2]; [done|]. constructor; simpl; rewrite ?E1, ?E2; done.
    + intros Hc. destruct (inv_conn0 Hc). by constructor.
    + intros k'. rewrite elem_of_app, list_elem_of_singleton. intros [?|<-]; [by eapply inv_under0|].
      simpl in Hev. congruence.
    + rewrite dealt_app. intros j k' [Hj|[Hj Hk']]%lookup_app_Some; [eauto|].
      destruct Hd as [Hd|(_ & Hd & Hk)]; rewrite Hd in Hk'; [done|].
      apply list_lookup_singleton_Some in Hk' as [Hz <-]. assert (j = length (dealt (log s))) as -> by (clear -Hj Hz; lia). done.
    + intros Hc. destruct (inv_calm0 Hc). constructor; simpl; try assumption.
      intros k'. destruct (decide (k' = k)) as [->|]; [|by destruct (Hoth' k') as [-> _]].
      rewrite pushed_app. apply Forall_app; auto.
Qed.

Lemma owner_set m o s m' : owner (set_owner m o s) m' = if decide (m = m') then o else owner s m'.
Proof.
  simpl. case_decide as E; [subst; by rewrite fn_lookup_insert|by rewrite fn_lookup_insert_ne].
Qed.
Lemma waiters_set m l s m' : waiters (set_waiters m l s) m' = if decide (m = m') then l else waiters s m'.
Proof.
  simpl. case_decide as E; [subst; by rewrite fn_lookup_insert|by rewrite fn_lookup_insert_ne].
Qed.
Lemma same_owner m' m o s : same m' s (set_owner m o s).
Proof. by destruct m'. Qed.
Lemma same_waiters m' m l s : same m' s (set_waiters m l s).
Proof. by destruct m'. Qed.

Lemma keeps_lock t s m : Inv s → owner s m = None → keeps t s (set_owner m (Some t) s).
Proof.
  intros HI Hn. split.
  - constructor; try done; intros; rewrite ?owner_set; auto using same_owner.
    case_decide; subst; auto.
  - destruct HI. constructor; try assumption.
    + intros k e He. rewrite owner_set. case_decide; [done|]. intros Ho.
      destruct (inv_rest0 k e He Ho). by constructor.
    + rewrite owner_set. case_decide; [done|]. intros Ho. destruct (inv_conn0 Ho). by constructor.
    + intros Hc. destruct (inv_calm0 Hc). by constructor.
Qed.

(** What must hold when a mutex is released. *)
Definition rest (m : mutex) (s : pool) : Prop :=
  match m with
  | MConn => conn_rest s
  | MEvl k => ∀ e, p_evlists s !! k = Some e → evl_rest s k e
  end.

Lemma keeps_unlock t s m :
  Inv s → owner s m = Some t → rest m s → keeps t s (set_owner m None s).
Proof.
  intros HI Hn Hr. split.
  - constructor; try done; intros; rewrite ?owner_set; auto using same_owner.
    case_decide; subst; auto.
  - destruct HI. constructor; try assumption.
    + intros k e He. rewrite owner_set. case_decide as E; intros Ho.
      * subst m. destruct (Hr e He). by constructor.
      * destruct (inv_rest0 k e He Ho). by constructor.
    + rewrite owner_set. case_decide as E; intros Ho.
      * subst m. destruct Hr. by constructor.
      * destruct (inv_conn0 Ho). by constructor.
    + intros Hc. destruct (inv_calm0 Hc). by constructor.
Qed.

(** Waking threads up. *)
Lemma inv_set_waiters s m l : l ⊆ waiters s m → Inv s → Inv (set_waiters m l s).
Proof.
  intros Hl HI.
  assert (∀ m', waiters (set_waiters m l s) m' ⊆ waiters s m') as Hsub.
  { intros m'. rewrite waiters_set. case_decide; [by subst|done]. }
  destruct HI. constructor; try assumption.
  - intros k e He Ho. destruct (inv_rest0 k e He Ho). constructor; try assumption. intros. by apply rest_wait0, Hsub.
  - intros Ho. destruct (inv_conn0 Ho). constructor; try assumption. intros. by apply rest_poller0, Hsub.
  - intros k t Ht. by apply inv_waitE0, Hsub.
  - intros t Ht. by apply inv_waitC0, Hsub.
  - intros Hc. destruct (inv_calm0 Hc). by constructor.
Qed.

Lemma keeps_broadcast t s m : Inv s → keeps t s (set_waiters m [] s).
Proof.
  intros HI. split; [|by apply inv_set_waiters; [set_solver|]].
  constructor; try done; intros; rewrite ?waiters_set; auto using same_waiters.
  case_decide; set_solver.
Qed.

Lemma wake_ok t s m l : l ⊆ waiters s m → Inv s → Inv (set_waiters m l s) ∧ Rl t s (set_waiters m l s).
Proof.
  intros Hl HI. split; [by apply inv_set_waiters|].
  constructor; try done. intros m' _. split; [apply same_waiters|].
  rewrite waiters_set. case_decide; by subst.
Qed.

(** A thread that waits on a condition variable finds nothing to do. *)
Definition may_wait (t : tid) (m : mutex) (s : pool) : Prop :=
  match m with
  | MConn => t = Poller ∧ cur_open_files s = 0
  | MEvl k => t = Worker k ∧ n_of s k = 0
  end.

Lemma keeps_wait t s m :
  Inv s → owner s m = Some t → rest m s → may_wait t m s →
  keeps t s (set_owner m None (set_waiters m (t :: waiters s m) s)).
Proof.
  intros HI Hn Hr Hw. set (s' := set_owner _ _ _).
  assert (∀ m', waiters s' m' = if decide (m = m') then t :: waiters s m else waiters s m') as Ew
    by apply waiters_set.
  assert (∀ m', owner s' m' = if decide (m = m') then None else owner s m') as Eo
    by (intros m'; unfold s'; rewrite owner_set; done).
  split.
  - constructor; try done.
    + intros m'. by destruct m'.
    + intros m' Hm'. rewrite Ew. case_decide; [congruence|done].
    + intros m'. rewrite Eo. case_decide; subst; auto.
  - destruct HI. constructor; try assumption.
    + intros k e He. rewrite Eo. case_decide as E; intros Ho.
      * subst m. destruct (Hr e He). constructor; try done. intros _.
        destruct Hw as [_ Hw]. unfold n_of in Hw. change (p_evlists s !! k = Some e) in He. by rewrite He in Hw.
      * destruct (inv_rest0 k e He Ho). constructor; try done. by rewrite Ew, decide_False.
    + rewrite Eo. case_decide as E; intros Ho.
      * subst m. destruct Hr. constructor; try done. intros _. apply Hw.
      * destruct (inv_conn0 Ho). constructor; try done. by rewrite Ew, decide_False.
    + intros k t'. rewrite Ew. case_decide; [subst m|apply inv_waitE0].
      intros [->|?]%elem_of_cons; [apply Hw|eauto].
    + intros t'. rewrite Ew. case_decide; [subst m|apply inv_waitC0].
      intros [->|?]%elem_of_cons; [apply Hw|eauto].
    + intros Hc. destruct (inv_calm0 Hc). by constructor.
Qed.

(** Working on the connections under their mutex. *)
Lemma keeps_conn t s cur i o :
  Inv s → owner s MConn = Some t → cur ≤ Z.max 0 (max_open_files s) →
  (calm = true → Forall (valid_fd ∘ Some) i ∧ Forall (valid_fd ∘ Some) o) →
  keeps t s (set_cur cur (set_fds i o s)).
Proof.
  intros HI Ho Hcur Hc. split.
  - constructor; try done; simpl; auto. intros [|k'] Hm; done.
  - destruct HI. constructor; simpl; try assumption.
    + intros k e He Ho'. destruct (inv_rest0 k e He Ho'). by constructor.
    + congruence.
    + intros Hca. destruct (inv_calm0 Hca), (Hc Hca). by constructor.
Qed.

Lemma keeps_epev s l :
  Inv s → length l = length (ep_events s) → keeps Poller s (set_epev l s).
Proof.
  intros HI Hl. split.
  - constructor; try done; simpl; auto. intros m. by destruct m.
  - destruct HI. constructor; simpl; try assumption.
    + by rewrite Hl.
    + intros k e He Ho'. destruct (inv_rest0 k e He Ho'). by constructor.
    + intros Ho. destruct (inv_conn0 Ho). by constructor.
    + intros Hca. destruct (inv_calm0 Hca). by constructor.
Qed.

(** ** The queue as a ring *)
Lemma contents_length e : 0 ≤ n_ev e → Z.of_nat (length (contents e)) = n_ev e.
Proof. intros. unfold contents. rewrite length_fmap, length_seq. lia. Qed.

Lemma contents_nil e : n_ev e = 0 → contents e = [].
Proof. intros E. unfold contents. by rewrite E. Qed.

(** The state of the queue after [push_evlist] and [pop_evlist]. *)
Definition pushed_evl (fd : cint) (e : evlist) : evlist :=
  let i := if i2_ev e =? MAX_EVENT_QUEUE then 0 else i2_ev e in
  EVLIST (i1_ev e) (i + 1) (n_ev e + 1) (<[Z.to_nat i := fd]> (q_ev e)).

Lemma push_ring fd e :
  evl_ok e → n_ev e < MAX_EVENT_QUEUE →
  (i1_ev e + n_ev e) mod MAX_EVENT_QUEUE = i2_ev e mod MAX_EVENT_QUEUE →
  let e' := pushed_evl fd e in
  evl_ok e' ∧ (i1_ev e' + n_ev e') mod MAX_EVENT_QUEUE = i2_ev e' mod MAX_EVENT_QUEUE ∧
  contents e' = contents e ++ [fd].
Proof.
  intros [Hn Hi1 Hi2 Hq] Hlt Hring e'. unfold MAX_EVENT_QUEUE in *.
  assert (∃ i, pushed_evl fd e = EVLIST (i1_ev e) (i + 1) (n_ev e + 1) (<[Z.to_nat i := fd]> (q_ev e)) ∧
    0 ≤ i < 200 ∧ (i1_ev e + n_ev e) mod 200 = i) as (i & He' & Hi & Hri).
  { unfold pushed_evl, MAX_EVENT_QUEUE. destruct (Z.eqb_spec (i2_ev e) 200) as [E|E].
    - exists 0. split_and!; [done|lia..|]. rewrite Hring, E. done.
    - exists (i2_ev e). split_and!; [done|lia..|]. rewrite Hring. apply Z.mod_small. lia. }
  unfold e'. rewrite He'. split_and!.
  - constructor; simpl; unfold MAX_EVENT_QUEUE; rewrite ?length_insert; lia.
  - simpl. rewrite Z.add_assoc, <-Z.add_mod_idemp_l, Hri by lia. done.
  - unfold contents, MAX_EVENT_QUEUE. simpl.
    replace (Z.to_nat (n_ev e + 1)) with (Z.to_nat (n_ev e) + 1)%nat by lia.
    rewrite seq_app, fmap_app. simpl. f_equal.
    + apply list_fmap_ext. intros j x Hx%lookup_seq. simpl.
      rewrite list_lookup_total_insert_ne; [done|]. intros Heq.
      assert (0 ≤ Z.of_nat x < n_ev e) as H by lia.
      apply (f_equal Z.of_nat) in Heq.
      pose proof (Z.mod_pos_bound (i1_ev e + Z.of_nat x) 200). rewrite !Z2Nat.id in Heq by lia.
      clear -Hri Heq H Hlt. Z.div_mod_to_equations. lia.
    + f_equal. rewrite Z2Nat.id, Hri by lia. apply list_lookup_total_insert_eq. lia.
Qed.

Definition popped_evl (e : evlist) : evlist := EVLIST (i1_ev e + 1) (i2_ev e) (n_ev e - 1) (q_ev e).

Lemma contents_pop e x :
  0 ≤ i1_ev e → 0 < n_ev e → at_ (q_ev e) (i1_ev e) = Some x →
  Z.of_nat (length (q_ev e)) = MAX_EVENT_QUEUE →
  contents e = x :: contents (popped_evl e).
Proof.
  intros Hi Hn Hx Hq. unfold at_, idx in Hx. destruct (Z.leb_spec 0 (i1_ev e)); [|lia]. simpl in Hx.
  pose proof (lookup_lt_Some _ _ _ Hx). unfold contents, MAX_EVENT_QUEUE in *. simpl.
  replace (Z.to_nat (n_ev e)) with (S (Z.to_nat (n_ev e - 1))) by lia.
  simpl. rewrite Z.add_0_r, Z.mod_small by lia. rewrite (list_lookup_total_correct _ _ _ Hx). f_equal.
  rewrite <-(fmap_S_seq 0), <-list_fmap_compose. apply list_fmap_ext. intros j y _. simpl. do 3 f_equal. lia.
Qed.

Lemma pop_ring e x :
  evl_ok e → 0 < n_ev e → at_ (q_ev e) (i1_ev e) = Some x →
  (i1_ev e + n_ev e) mod MAX_EVENT_QUEUE = i2_ev e mod MAX_EVENT_QUEUE →
  let e' := popped_evl e in
  evl_ok e' ∧ (i1_ev e' + n_ev e') mod MAX_EVENT_QUEUE = i2_ev e' mod MAX_EVENT_QUEUE ∧
  contents e = x :: contents e'.
Proof.
  intros [Hn Hi1 Hi2 Hq] Hlt Hx Hring e'.
  assert (i1_ev e < MAX_EVENT_QUEUE).
  { unfold at_, idx in Hx. destruct (Z.leb_spec 0 (i1_ev e)); [|lia]. simpl in Hx.
    apply lookup_lt_Some in Hx. unfold MAX_EVENT_QUEUE in *. lia. }
  split_and!; [|by simpl; replace (i1_ev e + 1 + (n_ev e - 1)) with (i1_ev e + n_ev e) by lia|].
  - constructor; simpl; unfold MAX_EVENT_QUEUE in *; lia.
  - apply contents_pop; [lia|done..].
Qed.
End inv.
