(* ===== verification/EvThreads.v ===== *)
(** * The threads of the pool keep the invariant

    One proof per C function: [push_evlist], [pop_evlist], [add_efd], [del_efd]
    and the four thread functions are [good] for the invariant of [EvInv]. *)

From stdpp Require Import functions base gmap list.
From Stdlib Require Import ZArith Lia.
From S2P Require Import Prelude EvPool EvLogic EvInv.

Local Open Scope Z_scope.

Section threads.
Context `{P : Platform} (calm : bool).
Context (Hplat : calm = true → long_ints = 1%nat ∧ sc_open_max ≤ DFL_OPEN_MAX_FILES).

Abbreviation Inv := (Inv calm).
Abbreviation keeps := (keeps Inv G).
Abbreviation good := (good Inv Rl G (adm calm) (flt calm)).

Lemma g_bind {A B} t (p : prog A) (f : A → prog B) Q s :
  good t p (λ a, good t (f a) Q) s → good t (p ≫= f) Q s.
Proof. apply good_bind, Rl_refl. Qed.

Lemma g_rely {A} t (p : prog A) Q s s' : Rl t s s' → good t p Q s → good t p Q s'.
Proof. apply good_rely, Rl_trans. Qed.

Lemma g_ret {A} t (a : A) (Q : A → pool → Prop) s :
  (∀ s', Rl t s s' → Inv s' → Q a s') → good t (mret a) Q s.
Proof. done. Qed.

(** ** Outside the mutexes *)
Definition free (t : tid) (d : list nat) (s : pool) : Prop :=
  (t ≠ Iosched → ∀ m, owner s m ≠ Some t) ∧ (t = Iosched → dealt (log s) = d).

Lemma free_rely t d s s' : Rl t s s' → free t d s → free t d s'.
Proof.
  intros [] [H1 H2]. split.
  - intros Ht m. rewrite r_owner. by apply H1.
  - intros Ht. rewrite r_dealt by done. auto.
Qed.

(** Reading without a mutex. *)
Lemma g_read {A B} t (g : pool → A) (f : A → prog B) Q s :
  (∀ s', Rl t s s' → Inv s' → good t (f (g s')) Q s') → good t (read g ≫= f) Q s.
Proof. intros H s' HR HI. split; [split; [apply G_refl|done]|]. by apply H. Qed.

Lemma g_evl_get {A B} t k (g : evlist → A) (f : A → prog B) Q s :
  (k < 4)%nat →
  (∀ s' e, Rl t s s' → Inv s' → p_evlists s' !! k = Some e → good t (f (g e)) Q s') →
  good t (evl_get k g ≫= f) Q s.
Proof.
  intros Hk H s' HR HI. destruct (lookup_lt_is_Some_2 (p_evlists s') k) as [e He].
  { by rewrite (inv_len _ _ HI). }
  rewrite He. split; [split; [apply G_refl|done]|]. by apply H.
Qed.

(** A change of what no mutex protects. *)
Lemma g_write {B} t (g : pool → pool) (f : unit → prog B) Q s :
  (∀ s', Rl t s s' → Inv s' → keeps t s' (g s') ∧ good t (f tt) Q (g s')) →
  good t (write g ≫= f) Q s.
Proof. intros H s' HR HI. by apply H. Qed.

(** A system call. *)
Lemma g_sys {A B} t (f : answer → pool → option (A * pool)) (k : A → prog B) Q s :
  (∀ s' a, Rl t s s' → Inv s' → adm calm t a →
     match f a s' with Some (x, s'') => keeps t s' s'' ∧ good t (k x) Q s'' | None => True end) →
  good t (Sys f Ret ≫= k) Q s.
Proof. intros H s' HR HI a Ha. by apply H. Qed.

Lemma keeps_refl t s : Inv s → keeps t s s.
Proof. split; [apply G_refl|done]. Qed.

(** ** Holding the mutex of a queue *)
Record holds (t : tid) (k : nat) (e : evlist) (pu po : list cint) (d : list nat) (w : Prop) (s : pool) : Prop := {
  h_owner : owner s (MEvl k) = Some t;
  h_evl : p_evlists s !! k = Some e;
  h_pu : pushed k (log s) = pu;
  h_po : popped k (log s) = po;
  h_wait : Worker k ∈ waiters s (MEvl k) → w;
  h_other : t ≠ Iosched → ∀ m, m ≠ MEvl k → owner s m ≠ Some t;
  h_dealt : t = Iosched → dealt (log s) = d
}.

Lemma holds_rely t k e pu po d w s s' :
  Rl t s s' → holds t k e pu po d w s → holds t k e pu po d w s'.
Proof.
  intros [R1 R2 R3 R4 R5 R6] []. destruct (R1 (MEvl k) h_owner0) as [[E1 [E2 E3]] E4].
  constructor; rewrite ?E1, ?E2, ?E3; auto.
  - by apply R2.
  - intros Ht m Hm. rewrite R2. auto.
  - intros Ht. rewrite R5; auto.
Qed.

(** The indices of a queue at rest from which [po] was taken. *)
Definition ringed (e : evlist) (po : list cint) : Prop :=
  (i1_ev e + n_ev e) mod MAX_EVENT_QUEUE = i2_ev e mod MAX_EVENT_QUEUE ∧ i1_ev e = Z.of_nat (length po).

(** A queue at rest, with its mutex. *)
Definition at_rest (t : tid) (k : nat) (d : list nat) (s : pool) : Prop :=
  ∃ e po, evl_ok e ∧ ringed e po ∧ holds t k e (po ++ contents e) po d (n_ev e = 0) s.

Lemma at_rest_rely t k d s s' : Rl t s s' → at_rest t k d s → at_rest t k d s'.
Proof. intros HR (e & po & ? & ? & ?). exists e, po. split_and!; [done..|]. by eapply holds_rely. Qed.

Lemma acquire_rest t k d (φ : pool → Prop) s :
  free t d s → (k < 4)%nat →
  (∀ s', Inv s' → at_rest t k d s' → (t = Worker k → n_of s k ≤ n_of s' k) → φ s') →
  later Inv Rl t s (acquire Inv G t (MEvl k) φ).
Proof.
  intros Hf Hk H s' HR HI Ho. split; [by apply keeps_lock|].
  destruct (keeps_lock _ t s' _ HI Ho) as [_ HI'].
  destruct (lookup_lt_is_Some_2 (p_evlists s') k) as [e He].
  { by rewrite (inv_len _ _ HI). }
  destruct (inv_rest _ _ HI k e He Ho) as [Hr1 Hr2 Hr3 Hr4].
  pose proof (free_rely _ _ _ _ HR Hf) as [Hf1 Hf2].
  apply H; [done| |by intros ->; apply (r_n _ _ _ HR)].
  exists e, (popped k (log s')). split_and!; [by eapply inv_evl|done|].
  constructor; simpl; auto.
  - by rewrite fn_lookup_insert.
  - intros Ht m Hm. rewrite fn_lookup_insert_ne by done. auto.
Qed.

Lemma g_lock {B} t k d (f : unit → prog B) Q s :
  free t d s → (k < 4)%nat →
  (∀ s', Inv s' → at_rest t k d s' → (t = Worker k → n_of s k ≤ n_of s' k) → good t (f tt) Q s') →
  good t (MUTEX_LOCK (MEvl k) ≫= f) Q s.
Proof. apply acquire_rest. Qed.

Lemma g_unlock {B} t k e pu po d w (f : unit → prog B) Q s :
  holds t k e pu po d w s → ringed e po →
  pu = po ++ contents e → (w → n_ev e = 0) →
  (∀ s', free t d s' → n_of s' k = n_ev e → Inv s' → good t (f tt) Q s') →
  good t (MUTEX_UNLOCK (MEvl k) ≫= f) Q s.
Proof.
  intros Hh [Hring Hi1] Hpu Hw H s' HR HI. apply (holds_rely _ _ _ _ _ _ _ _ _ HR) in Hh as [].
  assert (keeps t s' (set_owner (MEvl k) None s')) as Hkeep.
  { apply keeps_unlock; [done..|]. intros e' He'. simplify_eq. by constructor; auto. }
  split_and!; [done..|]. apply H; [|unfold n_of; simpl; by rewrite h_evl0|apply Hkeep].
  split; simpl; [|done]. intros Ht m. destruct (decide (m = MEvl k)) as [->|].
  - by rewrite fn_lookup_insert.
  - rewrite fn_lookup_insert_ne by done. auto.
Qed.

Lemma g_hget {A B} t k e pu po d w (g : evlist → A) (f : A → prog B) Q s :
  holds t k e pu po d w s →
  (∀ s', holds t k e pu po d w s' → Inv s' → good t (f (g e)) Q s') →
  good t (evl_get k g ≫= f) Q s.
Proof.
  intros Hh H s' HR HI. apply (holds_rely _ _ _ _ _ _ _ _ _ HR) in Hh.
  rewrite (h_evl _ _ _ _ _ _ _ _ Hh). split; [split; [apply G_refl|done]|]. by apply H.
Qed.

Lemma g_hupd {A B} t k e pu po d w (g : evlist → option (A * evlist)) (f : A → prog B) Q s a e' :
  holds t k e pu po d w s → g e = Some (a, e') →
  evl_ok e' → (t ≠ Worker k → n_ev e ≤ n_ev e') →
  (∀ s', holds t k e' pu po d w s' → Inv s' → good t (f a) Q s') →
  good t (evl_upd k g ≫= f) Q s.
Proof.
  intros Hh Hg Hok Hn H s' HR HI. apply (holds_rely _ _ _ _ _ _ _ _ _ HR) in Hh as [].
  rewrite h_evl0. simpl. rewrite Hg.
  pose proof (keeps_evl calm t s' k e e' HI h_owner0 h_evl0 Hok Hn) as Hk. split; [done|].
  apply H; [|apply Hk]. constructor; simpl; auto.
  apply list_lookup_insert_eq. by eapply lookup_lt_Some.
Qed.

(** An update that runs over the end of the array. *)
Lemma g_hupd_err {A B} t k e pu po d w (g : evlist → option (A * evlist)) (f : A → prog B) Q s :
  holds t k e pu po d w s → g e = None → i1_ev e = MAX_EVENT_QUEUE →
  good t (evl_upd k g ≫= f) Q s.
Proof.
  intros Hh Hg Hi s' HR HI. apply (holds_rely _ _ _ _ _ _ _ _ _ HR) in Hh as [].
  rewrite h_evl0. simpl. rewrite Hg. intros _. eauto.
Qed.

Lemma g_hset {B} t k e pu po d w (g : evlist → evlist) (f : unit → prog B) Q s :
  holds t k e pu po d w s → evl_ok (g e) → (t ≠ Worker k → n_ev e ≤ n_ev (g e)) →
  (∀ s', holds t k (g e) pu po d w s' → Inv s' → good t (f tt) Q s') →
  good t (evl_set k g ≫= f) Q s.
Proof. intros. by eapply g_hupd. Qed.

Lemma g_hemit {B} t k e pu po d d' w ev (f : unit → prog B) Q s :
  holds t k e pu po d w s → ev_queue ev = Some k → ev ≠ EUnder k →
  (po ++ popped k [ev]) `prefix_of` (pu ++ pushed k [ev]) →
  (dealt [ev] = [] ∧ d' = d ∨ t = Iosched ∧ dealt [ev] = [k] ∧ k = (length d mod 4)%nat ∧ d' = d ++ [k]) →
  (calm = true → Forall valid_fd (pushed k [ev])) →
  (∀ s', holds t k e (pu ++ pushed k [ev]) (po ++ popped k [ev]) d' w s' → Inv s' → good t (f tt) Q s') →
  good t (emit ev ≫= f) Q s.
Proof.
  intros Hh Hq Hu Hp Hd Hc H s' HR HI. apply (holds_rely _ _ _ _ _ _ _ _ _ HR) in Hh as [].
  assert (keeps t s' (set_log (log s' ++ [ev]) s')) as Hk.
  { apply (keeps_emit calm t s' k ev); auto.
    - by rewrite pushed_app, popped_app, h_pu0, h_po0.
    - destruct Hd as [[? _]|(-> & ? & ? & _)]; [by left|right].
      by rewrite h_dealt0. }
  split; [done|]. apply H; [|apply Hk]. constructor; simpl; auto.
  - by rewrite pushed_app, h_pu0.
  - by rewrite popped_app, h_po0.
  - intros Ht. rewrite dealt_app, h_dealt0 by done.
    destruct Hd as [[-> ->]|(_ & -> & _ & ->)]; [by rewrite app_nil_r|done].
Qed.

(** Broadcasting wakes the waiting worker. *)
Lemma g_hsignal {B} t k e pu po d w (f : unit → prog B) Q s :
  holds t k e pu po d w s →
  (∀ s', holds t k e pu po d False s' → Inv s' → good t (f tt) Q s') →
  good t (CV_SIGNAL (MEvl k) ≫= f) Q s.
Proof.
  intros Hh H s' HR HI. apply (holds_rely _ _ _ _ _ _ _ _ _ HR) in Hh as [].
  pose proof (keeps_broadcast calm t s' (MEvl k) HI) as Hk. split; [done|].
  apply H; [|apply Hk]. constructor; simpl; auto. rewrite fn_lookup_insert. by intros ?%elem_of_nil.
Qed.

(** ** [push_evlist] and [pop_evlist] *)
Lemma push_good k fd d s :
  free Iosched d s → (k < 4)%nat → k = (length d mod 4)%nat → (calm = true → valid_fd fd) →
  good Iosched (push_evlist k fd) (λ _ s', free Iosched (d ++ [k]) s') s.
Proof.
  intros Hf Hk Hd Hv. unfold push_evlist.
  eapply g_lock; [done..|]. intros s1 HI1 (e & po & Hok & Hring & Hh) _. clear s Hf.
  eapply g_hget; [done|]. clear s1 HI1 Hh. intros s Hh HI. cbn beta.
  destruct (Z.eqb_spec (n_ev e) MAX_EVENT_QUEUE) as [Hfull|Hn].
  - eapply (g_hemit _ _ _ _ _ _ (d ++ [k])); [done..| | | |]; logsimpl.
    + by apply prefix_app_r.
    + by right.
    + done.
    + intros s' [] _. apply g_ret. intros s'' HR _. eapply free_rely; [done|]. by split.
  - assert (n_ev e < MAX_EVENT_QUEUE) as Hlt by (destruct Hok; lia).
    destruct (push_ring fd e Hok Hlt (proj1 Hring)) as (Hok' & Hring' & Hcont).
    eapply g_hget; [done|]. clear s HI Hh. intros s Hh HI. cbn beta.
    set (i := if i2_ev e =? MAX_EVENT_QUEUE then 0 else i2_ev e) in *.
    assert (0 ≤ i < MAX_EVENT_QUEUE) as Hi.
    { unfold i. destruct Hok. destruct (Z.eqb_spec (i2_ev e) MAX_EVENT_QUEUE); unfold MAX_EVENT_QUEUE in *; lia. }
    apply g_bind.
    assert (good Iosched (if i2_ev e =? MAX_EVENT_QUEUE then evl_set k (with_i2 0) else mret tt)
      (λ _, holds Iosched k (with_i2 i e) (po ++ contents e) po d (n_ev e = 0)) s) as Hw.
    { unfold i. destruct (Z.eqb_spec (i2_ev e) MAX_EVENT_QUEUE) as [E|E].
      - eapply (g_hset _ _ _ _ _ _ _ _ Ret); [done|destruct Hok; constructor; simpl; unfold MAX_EVENT_QUEUE in *; lia|done|].
        intros s' Hh' _. apply g_ret. intros s'' HR _. by eapply holds_rely.
      - apply g_ret. intros s' HR _. eapply holds_rely; [done|]. by destruct e. }
    eapply good_conseq; [exact Hw|]. clear s HI Hh Hw. intros [] s Hh. cbn beta in *.
    eapply (g_hupd _ _ _ _ _ _ _ _ _ _ _ tt (with_i2 (i + 1) (with_q (<[Z.to_nat i := fd]> (q_ev e)) (with_i2 i e)))); [done| | |done|].
    { simpl. unfold put_at, idx. destruct (Z.leb_spec 0 i); [|lia]. simpl.
      destruct (lookup_lt_is_Some_2 (q_ev e) (Z.to_nat i)) as [x ->]; [destruct Hok; lia|done]. }
    { destruct Hok; constructor; simpl; rewrite ?length_insert; lia. }
    clear s Hh. intros s Hh HI. eapply g_hset; [done|exact Hok'|simpl; lia|].
    clear s Hh HI. intros s Hh HI.
    change (with_n _ _) with (pushed_evl fd e) in Hh.
    eapply (g_hemit _ _ _ _ _ _ (d ++ [k])); [done..| | | |]; logsimpl; [..|clear s Hh HI].
    + rewrite <-app_assoc. by apply prefix_app_r.
    + by right.
    + auto.
    + intros s Hh HI. eapply g_hget; [done|]. clear s Hh HI. intros s Hh HI. cbn beta.
      apply g_bind. set (e' := pushed_evl fd e) in *.
      assert (good Iosched (if n_ev e' =? 1 then CV_SIGNAL (MEvl k) else mret tt)
        (λ _, holds Iosched k e' ((po ++ contents e) ++ [fd]) po (d ++ [k]) False) s) as Hw.
      { simpl. destruct (Z.eqb_spec (n_ev e + 1) 1) as [E|E].
        - eapply (g_hsignal _ _ _ _ _ _ _ Ret); [done|].
          intros s' Hh' _. apply g_ret. intros s'' HR _. by eapply holds_rely.
        - apply g_ret. intros s' HR _. eapply holds_rely; [done|].
          destruct Hh. constructor; auto. intros ?. apply E. rewrite h_wait0; done. }
      eapply good_conseq; [exact Hw|]. clear s HI Hh Hw. intros [] s Hh. cbn beta in *.
      eapply g_unlock; [done| | | |].
      * split; [done|apply Hring].
      * by rewrite Hcont, app_assoc.
      * done.
      * intros s' Hf _ _. apply g_ret. intros s'' HR _. by eapply free_rely.
Qed.

Lemma pop_good k d s :
  free (Worker k) d s → (k < 4)%nat → 1 ≤ n_of s k →
  good (Worker k) (pop_evlist k) (λ fd s', free (Worker k) d s' ∧ (calm = true → valid_fd fd)) s.
Proof.
  intros Hf Hk H1. unfold pop_evlist.
  eapply g_lock; [done..|]. intros s1 HI1 (e & po & Hok & Hring & Hh) Hn. specialize (Hn eq_refl).
  assert (0 < n_ev e) as Hpos by (unfold n_of in Hn at 2; rewrite (h_evl _ _ _ _ _ _ _ _ Hh) in Hn; lia).
  clear s Hf H1 Hn.
  eapply g_hget; [done|]. clear s1 HI1 Hh. intros s Hh HI. cbn beta.
  destruct (Z.eqb_spec (n_ev e) 0); [lia|].
  destruct (at_ (q_ev e) (i1_ev e)) as [x|] eqn:Hx.
  - destruct (pop_ring e x Hok Hpos Hx (proj1 Hring)) as (Hok' & Hring' & Hcont).
    assert (calm = true → valid_fd x) as Hv.
    { intros Hc. pose proof (calm_pushed _ (inv_calm _ _ HI Hc) k) as HF.
      rewrite (h_pu _ _ _ _ _ _ _ _ Hh), Hcont in HF. apply Forall_app in HF as [_ HF]. by inversion HF. }
    eapply (g_hupd _ _ _ _ _ _ _ _ _ _ _ x (with_i1 (i1_ev e + 1) e)); [done|by rewrite Hx| |done|].
    { destruct Hok, Hok'. constructor; simpl in *; lia. }
    clear s Hh HI. intros s Hh HI. eapply g_hset; [done|exact Hok'|done|].
    clear s Hh HI. intros s Hh HI. change (with_n _ _) with (popped_evl e) in Hh.
    eapply (g_hemit _ _ _ _ _ _ d); [done..| | | |]; logsimpl; [..|clear s Hh HI].
    + rewrite Hcont. apply prefix_app. by apply (prefix_app_r [x] [x]).
    + by left.
    + auto.
    + intros s Hh HI. eapply g_unlock; [done| | | |].
      * split; [done|]. rewrite length_app, Nat2Z.inj_add, <-(proj2 Hring). done.
      * rewrite Hcont. by rewrite <-app_assoc.
      * simpl. lia.
      * intros s' Hf _ _. apply g_ret. intros s'' HR _. split; [by eapply free_rely|done].
  - eapply g_hupd_err; [done|by rewrite Hx|].
    destruct Hok. unfold at_, idx in Hx. destruct (Z.leb_spec 0 (i1_ev e)); [|lia]. simpl in Hx.
    apply lookup_ge_None in Hx. lia.
Qed.

(** ** Holding the mutex of the connections *)
Record cholds (t : tid) (c mx : Z) (i : list Z) (w : Prop) (s : pool) : Prop := {
  c_owner : owner s MConn = Some t;
  c_cur : cur_open_files s = c;
  c_max : max_open_files s = mx;
  c_int : interest s = i;
  c_wait : Poller ∈ waiters s MConn → w;
  c_other m : m ≠ MConn → owner s m ≠ Some t
}.

Lemma cholds_rely t c mx i w s s' : Rl t s s' → cholds t c mx i w s → cholds t c mx i w s'.
Proof.
  intros [R1 R2 R3 R4 R5 R6] []. destruct (R1 MConn c_owner0) as [[E1 E2] E4].
  constructor; rewrite ?E1, ?E2, ?R3; auto.
  - by apply R2.
  - intros m Hm. rewrite R2. auto.
Qed.

(** The connections when their mutex is free. *)
Definition crest (c mx : Z) (i : list Z) : Prop :=
  c = Z.of_nat (length i) ∧ c ≤ Z.max 0 mx ∧ NoDup i.

Lemma g_clock {B} t d (f : unit → prog B) Q s :
  free t d s → t ≠ Iosched →
  (∀ s' c mx i, Inv s' → crest c mx i → cholds t c mx i (c = 0) s' → good t (f tt) Q s') →
  good t (MUTEX_LOCK MConn ≫= f) Q s.
Proof.
  intros Hf Ht H s' HR HI Ho. split; [by apply keeps_lock|].
  destruct (keeps_lock _ t s' _ HI Ho) as [_ HI'].
  destruct (inv_conn _ _ HI Ho) as [H1 H2 H3]. pose proof (inv_cur _ _ HI).
  pose proof (free_rely _ _ _ _ HR Hf) as [Hf1 Hf2].
  eapply (H _ (cur_open_files s') (max_open_files s') (interest s')); [done|done|].
  constructor; simpl; auto.
  intros m Hm. rewrite fn_lookup_insert_ne by done. auto.
Qed.

Lemma g_cunlock {B} t c mx i w (f : unit → prog B) Q s :
  cholds t c mx i w s → t ≠ Iosched → crest c mx i → (w → c = 0) →
  (∀ s', (∀ d, free t d s') → Inv s' → good t (f tt) Q s') →
  good t (MUTEX_UNLOCK MConn ≫= f) Q s.
Proof.
  intros Hh Ht (Hr1 & Hr2 & Hr3) Hw H s' HR HI. apply (cholds_rely _ _ _ _ _ _ _ HR) in Hh as [].
  assert (keeps t s' (set_owner MConn None s')) as Hkeep.
  { apply keeps_unlock; [done..|]. subst. by constructor; auto. }
  split_and!; [done..|]. apply H; [|apply Hkeep].
  split; simpl; [|done]. intros _ m. destruct (decide (m = MConn)) as [->|].
  - by rewrite fn_lookup_insert.
  - rewrite fn_lookup_insert_ne by done. auto.
Qed.

Lemma g_cread {A B} t c mx i w (g : pool → A) (f : A → prog B) Q s :
  cholds t c mx i w s →
  (∀ s', cholds t c mx i w s' → Inv s' → good t (f (g s')) Q s') → good t (read g ≫= f) Q s.
Proof. intros Hh H. apply g_read. intros s' HR HI. apply H; [|done]. by eapply cholds_rely. Qed.

Lemma keeps_set_cur t s c :
  Inv s → owner s MConn = Some t → c ≤ Z.max 0 (max_open_files s) → keeps t s (set_cur c s).
Proof.
  intros HI Ho Hcur. assert (set_cur c s = set_cur c (set_fds (interest s) (open_fds s) s)) as -> by done.
  apply keeps_conn; [done..|]. intros Hc. by destruct (inv_calm _ _ HI Hc).
Qed.

Lemma g_cset {B} t c mx i w (g : Z → Z) (f : unit → prog B) Q s :
  cholds t c mx i w s → g c ≤ Z.max 0 mx →
  (∀ s', cholds t (g c) mx i w s' → Inv s' → good t (f tt) Q s') →
  good t (write (λ s, set_cur (g (cur_open_files s)) s) ≫= f) Q s.
Proof.
  intros Hh Hg H. apply g_write. intros s' HR HI. apply (cholds_rely _ _ _ _ _ _ _ HR) in Hh as [].
  assert (keeps t s' (set_cur (g (cur_open_files s')) s')) as Hk by (apply keeps_set_cur; [done..|by subst]).
  split; [done|].
  apply H; [|apply Hk]. constructor; simpl; auto. by rewrite c_cur0.
Qed.

(** Changing the descriptors polled. *)
Lemma cholds_fds t c mx i w s i' o' :
  cholds t c mx i w s → Inv s →
  (calm = true → Forall (valid_fd ∘ Some) i' ∧ Forall (valid_fd ∘ Some) o') →
  keeps t s (set_fds i' o' s) ∧ cholds t c mx i' w (set_fds i' o' s).
Proof.
  intros [] HI Hc. split; [|by constructor].
  assert (set_fds i' o' s = set_cur (cur_open_files s) (set_fds i' o' s)) as -> by done.
  apply keeps_conn; [done..|by apply (inv_cur calm)|done].
Qed.

Lemma Forall_rem (Pr : Z → Prop) fd l : Forall Pr l → Forall Pr (rem_fd fd l).
Proof.
  unfold rem_fd. induction 1 as [|x l Hx Hl IH]; [constructor|].
  rewrite filter_cons. case_decide; [by constructor|done].
Qed.

Lemma rem_fd_fresh fd l : fd ∉ l → rem_fd fd l = l.
Proof.
  unfold rem_fd. induction l as [|x l IH]; intros Hn; [done|].
  apply not_elem_of_cons in Hn as [? ?]. rewrite filter_cons, decide_True, IH by auto. done.
Qed.

Lemma length_rem fd l : NoDup l → fd ∈ l → Z.of_nat (length (rem_fd fd l)) = Z.of_nat (length l) - 1.
Proof.
  induction l as [|x l IH]; intros Hnd Hin; [by apply elem_of_nil in Hin|].
  apply NoDup_cons in Hnd as [Hx Hnd]. unfold rem_fd in *. rewrite filter_cons.
  destruct (decide (x = fd)) as [->|Hne].
  - rewrite decide_False by auto. fold (rem_fd fd l). rewrite rem_fd_fresh by done. simpl. lia.
  - rewrite decide_True by auto. apply elem_of_cons in Hin as [?|Hin]; [done|].
    simpl. specialize (IH Hnd Hin). lia.
Qed.

Lemma add_good t d fd s :
  free t d s → t ≠ Iosched → (calm = true → valid_fd (Some fd)) →
  good t (add_efd fd) (λ r s', 0 ≤ r → free t d s') s.
Proof.
  intros Hf Ht Hv. unfold add_efd.
  eapply g_clock; [done..|]. clear s Hf. intros s c mx i HI Hr Hh.
  eapply g_cread; [done|]. clear s HI Hh. intros s Hh HI. rewrite (c_cur _ _ _ _ _ _ Hh).
  eapply g_cread; [done|]. clear s HI Hh. intros s Hh HI. rewrite (c_max _ _ _ _ _ _ Hh).
  destruct (Z.leb_spec mx c) as [Hover|Hlt].
  - eapply g_cunlock; [done..|]. intros s' Hf _. apply g_ret. lia.
  - apply g_sys. intros s' a HR HI' Ha. apply (cholds_rely _ _ _ _ _ _ _ HR) in Hh. clear s HI HR.
    destruct a as [z|]; [|done]. cbv beta iota.
    destruct (Z.eqb_spec z (-1)) as [->|Hz].
    { split; [by apply keeps_refl|]. apply g_ret. lia. }
    destruct (_ && _) eqn:Hcond; [|done].
    apply andb_true_iff in Hcond as [[Hz0 Ho]%andb_true_iff Hni%negb_true_iff].
    unfold in_list in Hni. apply bool_decide_eq_false in Hni. rewrite (c_int _ _ _ _ _ _ Hh) in Hni |- *.
    destruct (cholds_fds t c mx i (c = 0) s' (fd :: i) (open_fds s')) as [Hk Hh']; [done..| |].
    { intros Hc. destruct (inv_calm _ _ HI' Hc). rewrite (c_int _ _ _ _ _ _ Hh) in calm_interest.
      split; [|done]. constructor; [by apply Hv|done]. }
    split; [done|]. revert Hh'. generalize (set_fds (fd :: i) (open_fds s') s'). clear s' HI' Hh Hk Ho. intros s Hh.
    destruct (Z.eqb_spec z (-1)); [done|]. destruct Hr as (Hr1 & Hr2 & Hr3).
    eapply (g_cset _ _ _ _ _ (λ c, c + 1)); [done|lia|]. clear s Hh. intros s Hh HI.
    eapply g_cread; [done|]. clear s HI Hh. intros s Hh HI. rewrite (c_cur _ _ _ _ _ _ Hh).
    apply g_bind.
    assert (good t (if c + 1 =? 1 then CV_SIGNAL MConn else mret tt) (λ _, cholds t (c + 1) mx (fd :: i) False) s) as Hw.
    { destruct (Z.eqb_spec (c + 1) 1) as [E|E].
      - intros s' HR HI'. apply (cholds_rely _ _ _ _ _ _ _ HR) in Hh as [].
        pose proof (keeps_broadcast calm t s' MConn HI') as Hk. split; [done|].
        apply g_ret. intros s'' HR' _. eapply cholds_rely; [done|]. constructor; simpl; auto.
        rewrite fn_lookup_insert. by intros ?%elem_of_nil.
      - apply g_ret. intros s' HR _. eapply cholds_rely; [done|].
        destruct Hh. constructor; auto. intros ?. apply E. rewrite c_wait0; done. }
    eapply good_conseq; [exact Hw|]. clear s HI Hh Hw. intros [] s Hh. cbn beta in *.
    eapply g_cunlock; [done..| | |].
    + split_and!; [simpl; lia|lia|by constructor].
    + done.
    + intros s' Hf _. apply g_ret. intros s'' HR _ _. by eapply free_rely.
Qed.

Lemma del_good t d fd s :
  free t d s → t ≠ Iosched →
  good t (del_efd fd) (λ r s', 0 ≤ r → free t d s') s.
Proof.
  intros Hf Ht. unfold del_efd.
  eapply g_clock; [done..|]. clear s Hf. intros s c mx i HI (Hr1 & Hr2 & Hr3) Hh.
  apply g_sys. intros s' a HR HI' Ha. apply (cholds_rely _ _ _ _ _ _ _ HR) in Hh. clear s HI HR.
  destruct a as [z|]; [|done]. cbv beta iota.
  destruct (Z.eqb_spec z (-1)) as [->|Hz].
  { split; [by apply keeps_refl|]. apply g_ret. lia. }
  destruct (_ && _) eqn:Hcond; [|done]. apply andb_true_iff in Hcond as [Hz0 Hin%bool_decide_eq_true].
  rewrite (c_int _ _ _ _ _ _ Hh) in Hin |- *.
  destruct (cholds_fds t c mx i (c = 0) s' (rem_fd fd i) (open_fds s')) as [Hk Hh']; [done..| |].
  { intros Hc. destruct (inv_calm _ _ HI' Hc). rewrite (c_int _ _ _ _ _ _ Hh) in calm_interest.
    split; [by apply Forall_rem|done]. }
  split; [done|]. revert Hh'. generalize (set_fds (rem_fd fd i) (open_fds s') s'). clear s' HI' Hh Hk Hz0. intros s Hh.
  destruct (Z.eqb_spec z (-1)); [done|].
  apply g_write. intros s1 HR HI. apply (cholds_rely _ _ _ _ _ _ _ HR) in Hh. clear s HR. rename s1 into s.
  destruct (cholds_fds t c mx (rem_fd fd i) (c = 0) s (rem_fd fd (interest s)) (rem_fd fd (open_fds s))) as [Hk Hh']; [done..| |].
  { intros Hc. destruct (inv_calm _ _ HI Hc). split; by apply Forall_rem. }
  split; [done|]. rewrite (c_int _ _ _ _ _ _ Hh) in Hh' |- *. clear Hk Hh HI. rename Hh' into Hh.
  assert (rem_fd fd (rem_fd fd i) = rem_fd fd i) as Hidem.
  { apply rem_fd_fresh. intros Hx%list_elem_of_filter. tauto. }
  rewrite Hidem in Hh |- *.
  pose proof (length_rem fd i Hr3 Hin) as Hlen.
  eapply (g_cset _ _ _ _ _ (λ c, c - 1)); [done|lia|]. clear Hh. intros s' Hh HI.
  eapply g_cunlock; [done..| | |].
  + split_and!; [lia|lia|by apply NoDup_filter].
  + lia.
  + intros s'' Hf _. apply g_ret. intros s3 HR _ _. by eapply free_rely.
Qed.

(** ** Waiting on a condition variable *)
Lemma wait_free t m s :
  t ≠ Iosched → owner s m = Some t → (∀ m', m' ≠ m → owner s m' ≠ Some t) →
  ∀ d, free t d (set_owner m None (set_waiters m (t :: waiters s m) s)).
Proof.
  intros Ht Ho Hoth d. split; [|done]. intros _ m'. rewrite owner_set. case_decide; [done|]. by apply Hoth.
Qed.

(** [if (n == 0) CV_WAIT] in a worker. *)
Lemma worker_wait_good k d s e po :
  (k < 4)%nat → evl_ok e → ringed e po →
  holds (Worker k) k e (po ++ contents e) po d (n_ev e = 0) s →
  good (Worker k) (if n_ev e =? 0 then CV_WAIT (MEvl k) else mret tt) (λ _, at_rest (Worker k) k d) s.
Proof.
  intros Hk Hok Hring Hh. destruct (Z.eqb_spec (n_ev e) 0) as [Hn|Hn].
  - intros s' HR HI. apply (holds_rely _ _ _ _ _ _ _ _ _ HR) in Hh as [].
    split_and!; [done| |].
    + apply keeps_wait; [done..| |].
      * intros e' He'. destruct Hring. simplify_eq. by constructor; auto.
      * split; [done|]. unfold n_of. by rewrite h_evl0.
    + eapply acquire_rest; [|done|].
      * apply (wait_free _ (MEvl k)); [done..|]. by apply h_other0.
      * intros s1 HI1 Hr _ s2 HR2 _. by eapply at_rest_rely.
  - apply g_ret. intros s' HR _. eapply at_rest_rely; [done|]. by exists e, po.
Qed.

Lemma poller_wait_good (d : list nat) s c mx i :
  crest c mx i → cholds Poller c mx i (c = 0) s →
  good Poller (if c =? 0 then CV_WAIT MConn else mret tt)
    (λ _ s', ∃ c mx i, crest c mx i ∧ cholds Poller c mx i (c = 0) s') s.
Proof.
  intros Hr Hh. destruct (Z.eqb_spec c 0) as [Hn|Hn].
  - intros s' HR HI. apply (cholds_rely _ _ _ _ _ _ _ HR) in Hh as []. destruct Hr as (Hr1 & Hr2 & Hr3).
    split_and!; [done| |].
    + apply keeps_wait; [done..| |split; [done|congruence]]. constructor; congruence.
    + intros s1 HR1 HI1 Ho. split; [by apply keeps_lock|].
      destruct (inv_conn _ _ HI1 Ho) as [Hc1 Hc2 Hc3]. pose proof (inv_cur _ _ HI1).
      assert (free Poller d s1) as [Hf _].
      { eapply free_rely; [done|]. by apply (wait_free _ MConn). }
      intros s2 HR2 HI2. exists (cur_open_files s1), (max_open_files s1), (interest s1).
      split; [done|]. eapply cholds_rely; [done|]. constructor; simpl; auto.
      intros m Hm. rewrite fn_lookup_insert_ne by done. by apply Hf.
  - apply g_ret. intros s' HR _. exists c, mx, i. split; [done|]. by eapply cholds_rely.
Qed.

(** ** The table of descriptors *)
Lemma at_valid (l : list fdlist) x :
  Z.of_nat (length l) = DFL_OPEN_MAX_FILES → valid_fd x → is_Some (i ← x; at_ l i).
Proof.
  intros Hl (i & -> & Hi). simpl. unfold at_, idx. destruct (Z.leb_spec 0 i); [|lia]. simpl.
  apply lookup_lt_is_Some. unfold DFL_OPEN_MAX_FILES in *. lia.
Qed.

Lemma keeps_fdl t s l : Inv s → length l = length (p_fdlists s) → keeps t s (set_fdl l s).
Proof.
  intros HI Hl. apply keeps_frame; [done..|by left|]. intros Hc. by destruct (inv_calm _ _ HI Hc).
Qed.

Lemma g_fdl_get {B} t d x (f : Z → prog B) Q s :
  free t d s → (calm = true → valid_fd x) →
  (∀ s' z, free t d s' → Inv s' → good t (f z) Q s') → good t (fdl_get x ≫= f) Q s.
Proof.
  intros Hf Hv H s' HR HI. pose proof (free_rely _ _ _ _ HR Hf).
  destruct (i ← x; at_ (p_fdlists s') i) as [y|] eqn:E.
  - split; [by apply keeps_refl|]. by apply H.
  - intros Hc. destruct (at_valid (p_fdlists s') x) as [? E']; [apply HI|auto|]. by rewrite E in E'.
Qed.

Lemma fdl_upd_good t d fd g s :
  free t d s → (calm = true → valid_fd (Some fd)) →
  good t (fdl_upd fd g) (λ _ s', free t d s') s.
Proof.
  intros Hf Hv s' HR HI. pose proof (free_rely _ _ _ _ HR Hf) as Hf'.
  destruct (x ← at_ (p_fdlists s') fd; put_at (p_fdlists s') fd (g x)) as [l|] eqn:E.
  - assert (length l = length (p_fdlists s')) as Hl.
    { unfold at_, put_at in E. simplify_option_eq. apply length_insert. }
    split; [by apply keeps_fdl|]. apply g_ret. intros s'' HR' _. eapply free_rely; [done|]. by destruct Hf'.
  - intros Hc. destruct (at_valid (p_fdlists s') (Some fd)) as [y E']; [apply HI|auto|].
    unfold at_, put_at in *. by simplify_option_eq.
Qed.

Lemma ADD_EFD_good t d fd s :
  free t d s → t ≠ Iosched → (calm = true → valid_fd (Some fd)) →
  good t (ADD_EFD fd) (λ _ s', free t d s') s.
Proof.
  intros. apply g_bind. eapply good_conseq; [by eapply add_good|]. intros r s' Hr. cbn beta.
  destruct (Z.ltb_spec r 0); [done|]. apply g_ret. intros. eapply free_rely; [done|]. by apply Hr.
Qed.

Lemma DEL_EFD_good t d fd s :
  free t d s → t ≠ Iosched → good t (DEL_EFD fd) (λ _ s', free t d s') s.
Proof.
  intros. apply g_bind. eapply good_conseq; [by eapply del_good|]. intros r s' Hr. cbn beta.
  destruct (Z.ltb_spec r 0); [done|]. apply g_ret. intros. eapply free_rely; [done|]. by apply Hr.
Qed.

Lemma ADD_FDLIST_good t d fd s :
  free t d s → (calm = true → valid_fd (Some fd)) →
  good t (ADD_FDLIST fd) (λ _ s', free t d s') s.
Proof.
  intros Hf Hv. apply g_bind. eapply good_conseq; [by eapply fdl_upd_good|]. clear s Hf.
  intros [] s Hf. apply g_sys. intros s' [z|] HR HI _; [|done]. split; [by apply keeps_refl|].
  apply fdl_upd_good; [by eapply free_rely|done].
Qed.

(** ** The loops of the threads *)

(** Entries [lo+1 .. hi] of the message buffer are valid descriptors. *)
Definition vbuf (buf : list cint) (lo hi : Z) : Prop :=
  ∀ j, lo ≤ j < hi → ∃ x, at_ buf (j + 1) = Some x ∧ valid_fd x.
Definition BUF : Z := MAX_EVENT_QUEUE + 1.

Definition dealing (idx_rr : Z) (s : pool) : Prop :=
  0 ≤ idx_rr ≤ MAX_WORKER_THREAD ∧ Z.of_nat (length (dealt (log s))) mod 4 = idx_rr mod 4.

(** What holds at the start of each loop. *)
Definition pre (t : tid) (m : mode) (s : pool) : Prop :=
  match t, m with
  | Listener, (L_start | L_accept) => free t [] s
  | Poller, P_top buf => free t [] s ∧ Z.of_nat (length buf) = BUF
  | Poller, P_for i r buf =>
      free t [] s ∧ Z.of_nat (length buf) = BUF ∧ 0 ≤ i ≤ r ∧ r ≤ Z.of_nat (length (ep_events s)) ∧
      (calm = true → r ≤ MAX_EVENT_QUEUE ∧ vbuf buf 0 i ∧
        ∀ j, 0 ≤ j < r → ∃ x, at_ (ep_events s) j = Some x ∧ Z.land x.1 EPOLLIN ≠ 0 ∧ valid_fd (Some x.2))
  | Poller, P_send i r buf =>
      free t [] s ∧ Z.of_nat (length buf) = BUF ∧ 0 ≤ i ∧ (calm = true → i ≤ MAX_EVENT_QUEUE ∧ vbuf buf 0 i)
  | Iosched, S_top idx_rr buf => dealing idx_rr s ∧ Z.of_nat (length buf) = BUF
  | Iosched, S_for i n idx_rr buf =>
      dealing idx_rr s ∧ Z.of_nat (length buf) = BUF ∧ 0 ≤ i ∧ (calm = true → vbuf buf i n)
  | Worker k, (W_top | W_end) => (k < 4)%nat ∧ free t [] s
  | Worker k, W_for i => (k < 4)%nat ∧ free t [] s ∧ 0 ≤ i
  | (Listener | Worker _), Returned => True
  | _, _ => False
  end.

Lemma pre_rely t m s s' : Rl t s s' → pre t m s → pre t m s'.
Proof.
  intros HR. pose proof (λ d, free_rely t d s s' HR) as Hf.
  destruct t, m; simpl; try done; try (intuition eauto; fail).
  - rewrite (r_epev _ _ _ HR eq_refl). intuition eauto.
  - unfold dealing. by rewrite (r_dealt _ _ _ HR eq_refl).
  - unfold dealing. by rewrite (r_dealt _ _ _ HR eq_refl).
Qed.

Lemma g_next t (m : mode) s : pre t m s → good t (mret m) (pre t) s.
Proof. intros H. apply g_ret. intros s' HR _. by eapply pre_rely. Qed.

(** Private variables of a thread. *)
Lemma keeps_private t s s' :
  Inv s →
  s' = set_listener (saddr_s s') (fd_listener s') (set_nep (n_epevent s') (set_status (w_status s') s)) →
  keeps t s s'.
Proof.
  intros HI ->. apply keeps_frame; [done..|by left|]. intros Hc. by destruct (inv_calm _ _ HI Hc).
Qed.

Lemma free_same t d s s' : owner s' = owner s → log s' = log s → free t d s → free t d s'.
Proof. unfold free. intros -> ->. done. Qed.

Lemma g_private {B} t d (g : pool → pool) (f : unit → prog B) Q s :
  free t d s →
  (∀ s, g s = set_listener (saddr_s (g s)) (fd_listener (g s)) (set_nep (n_epevent (g s)) (set_status (w_status (g s)) s))) →
  (∀ s', Rl t s s' → Inv s' → free t d (g s') → good t (f tt) Q (g s')) →
  good t (write g ≫= f) Q s.
Proof.
  intros Hf Hg H. apply g_write. intros s' HR HI. pose proof (free_rely _ _ _ _ HR Hf) as Hf'.
  split; [by apply keeps_private|]. apply H; [done..|]. rewrite Hg. eapply free_same; [..|done]; done.
Qed.

Lemma listener_good m s : Inv s → pre Listener m s → good Listener (code Listener m) (pre Listener) s.
Proof.
  intros _ Hpre. destruct m; try done; simpl in Hpre; cbv beta iota delta [code start_listener].
  - apply g_sys. intros s1 [z|] HR1 HI1 _; [|done]. cbv beta iota. destruct (-1 <=? z); [|done].
    split; [by apply keeps_refl|]. eapply free_rely in Hpre; [|done]. clear s HR1.
    eapply g_private; [done..|]. cbv beta. intros s2 _ _. generalize (set_listener (saddr_s s2) z s2).
    clear s1 HI1 Hpre s2. intros s Hf.
    destruct (z <? 0); [done|]. apply g_sys. intros s1 [y|] HR1 HI1 _; [|done]. cbv beta iota.
    destruct (_ || _); [|done]. split; [by apply keeps_refl|]. eapply free_rely in Hf; [|done]. clear s HR1.
    destruct (y =? -1); [done|]. apply g_read. intros s HR HI. eapply free_rely in Hf; [|done]. clear s1 HR HI1.
    apply g_bind. destruct (_ =? 0).
    + apply (g_sys _ _ Ret). intros s1 [y'|] HR1 HI1 _; [|done]. cbv beta iota. destruct (_ && _); [|done].
      split; [by apply keeps_private|]. apply g_ret. intros s2 HR2 _. cbn beta. apply g_next.
      eapply free_rely; [done|]. eapply free_same; [| |eapply free_rely; [exact HR1|done]]; done.
    + apply g_ret. intros s1 HR1 _. apply g_next. by eapply free_rely.
  - apply g_sys. intros s1 [z|] HR1 HI1 _; [|done]. eapply free_rely in Hpre; [|done]. clear s HR1.
    cbv beta iota. destruct (Z.eqb_spec z (-1)) as [->|Hz].
    { split; [by apply keeps_refl|]. by apply g_next. }
    destruct (_ && _) eqn:Hcond; [|done].
    apply andb_true_iff in Hcond as [[?%Z.leb_le ?%Z.ltb_lt]%andb_true_iff _].
    assert (calm = true → valid_fd (Some z)) as Hv.
    { intros Hc. exists z. split; [done|]. destruct (Hplat Hc). lia. }
    split.
    { apply keeps_frame; [done..|by left|]. intros Hc. destruct (inv_calm _ _ HI1 Hc). simpl.
      split; [|done]. constructor; [by apply Hv|done]. }
    destruct (Z.eqb_spec z (-1)); [done|]. apply g_bind.
    eapply good_conseq; [eapply (ADD_EFD_good Listener []); [|done|done]|].
    { eapply free_same; [| |done]; done. }
    clear s1 HI1 Hpre. intros [] s Hf. apply g_bind.
    eapply good_conseq; [by eapply ADD_FDLIST_good|]. clear s Hf. intros [] s Hf. by apply g_next.
Qed.

Lemma worker_good k m s :
  Inv s → pre (Worker k) m s → good (Worker k) (code (Worker k) m) (pre (Worker k)) s.
Proof.
  intros _ Hpre. destruct m; try done; simpl in Hpre; cbv beta iota delta [code start_worker].
  - destruct Hpre as [Hk Hf]. eapply g_private; [done..|]. cbv beta. intros s2 _ _.
    generalize (set_status (<[k:=T_IDLE]> (w_status s2)) s2). clear s s2 Hf. intros s Hf.
    eapply g_lock; [done..|]. intros s1 HI (e & po & Hok & Hring & Hh) _. clear s Hf. rename s1 into s.
    eapply g_hget; [done|]. clear s HI Hh. intros s Hh HI. apply g_bind.
    eapply good_conseq; [by eapply worker_wait_good|]. clear s HI Hh e po Hok Hring. intros [] s (e & po & Hok & Hring & Hh).
    eapply g_hget; [done|]. clear s Hh. intros s Hh HI.
    eapply g_unlock; [done..|]. clear s Hh HI. intros s Hf _ HI.
    eapply g_private; [done..|]. intros s' _ _ Hf'. by apply g_next.
  - destruct Hpre as (Hk & Hf & Hi). eapply g_evl_get; [done|]. intros s1 e HR HI He.
    eapply free_rely in Hf; [|done]. clear s HR. rename s1 into s.
    destruct (Z.ltb_spec i (n_ev e)) as [Hlt|]; [|by apply g_next].
    apply g_bind. eapply good_conseq; [eapply pop_good; [done..|unfold n_of; rewrite He; lia]|].
    clear s e He HI Hlt Hf. intros fd s [Hf Hv].
    eapply g_fdl_get; [done..|]. clear s Hf. intros s z Hf HI.
    apply g_write. intros s1 HR1 HI1. eapply free_rely in Hf; [|done].
    assert (keeps (Worker k) s1 (set_log (log s1 ++ [ERecv k z]) s1)) as Hkeep.
    { apply keeps_frame; [done..|by right; eauto|]. intros Hc. by destruct (inv_calm _ _ HI1 Hc). }
    split; [done|]. assert (free (Worker k) [] (set_log (log s1 ++ [ERecv k z]) s1)) as Hf1 by (destruct Hf; by split).
    revert Hf1. generalize (set_log (log s1 ++ [ERecv k z]) s1). clear s HI s1 HR1 HI1 Hf Hkeep. intros s Hf.
    apply g_sys. intros s1 [y|] HR HI Ha; [|done]. cbv beta iota. eapply free_rely in Hf; [|done]. clear s HR.
    destruct (_ || _); [|done]. split; [by apply keeps_refl|]. apply g_bind.
    apply (good_conseq _ _ _ _ _ _ _ (λ _, free (Worker k) [])).
    + destruct (y =? -1); [apply g_ret; intros; by eapply free_rely|].
      destruct (Z.eqb_spec y 0) as [->|]; [|apply g_ret; intros; by eapply free_rely].
      assert (calm = true → False) as Hnc by (intros Hc; by apply Ha).
      eapply g_fdl_get; [done..|]. clear s1 HI Hf. intros s x Hf HI.
      apply g_bind. eapply good_conseq; [by eapply DEL_EFD_good|]. clear s HI Hf. intros [] s Hf.
      eapply g_fdl_get; [done..|]. clear s Hf. intros s x' Hf HI.
      apply fdl_upd_good; [done|]. intros Hc. by destruct Hnc.
    + intros [] s Hf'. apply g_next. simpl. auto with lia.
  - destruct Hpre as [Hk Hf]. eapply g_lock; [done..|]. intros s1 HI (e & po & Hok & Hring & Hh) _. clear s Hf. rename s1 into s.
    eapply g_unlock; [done..|]. clear s Hh HI. intros s Hf _ HI. by apply g_next.
Qed.

(** ** The message buffer *)
Lemma vbuf_put buf i x buf' :
  0 ≤ i → vbuf buf 0 i → put_at buf (i + 1) x = Some buf' → valid_fd x → vbuf buf' 0 (i + 1).
Proof.
  intros Hi Hb (_ & -> & Hl)%put_at_Some Hx j Hj. unfold at_, idx.
  destruct (Z.leb_spec 0 (j + 1)); [|lia]. simpl.
  destruct (decide (j = i)) as [->|Hne].
  - rewrite list_lookup_insert_eq by done. eauto.
  - rewrite list_lookup_insert_ne by lia. destruct (Hb j) as (y & Hy & ?); [lia|].
    exists y. split; [|done]. unfold at_, idx in Hy. destruct (Z.leb_spec 0 (j + 1)); [done|lia].
Qed.

(** The text that [msgsnd] takes from the buffer is valid. *)
Lemma msg_text_valid buf n text :
  long_ints = 1%nat → vbuf buf 0 n → msg_text buf n = Some text → Forall valid_fd text.
Proof.
  unfold msg_text. intros -> Hb. case_match; [|done]. intros [= <-].
  apply Forall_lookup. intros j x [Hx Hj]%lookup_take_Some. rewrite lookup_drop in Hx.
  destruct (Hb (Z.of_nat j)) as (y & Hy & ?); [lia|]. unfold at_, idx in Hy.
  destruct (Z.leb_spec 0 (Z.of_nat j + 1)); [|lia]. simpl in Hy.
  replace (Z.to_nat (Z.of_nat j + 1)) with (1 + j)%nat in Hy by lia. simplify_eq. done.
Qed.

Lemma poller_poll_good c buf s :
  Inv s → free Poller [] s → Z.of_nat (length buf) = BUF → c ≤ Z.of_nat (length (ep_events s)) →
  good Poller (ret_poll ← epoll_wait c; if ret_poll =? -1 then exit_ 1 else mret (P_for 0 ret_poll buf)) (pre Poller) s.
Proof.
  intros _ Hf Hb Hc. apply g_sys. intros s1 a HR HI Ha. rewrite <-(r_epev _ _ _ HR eq_refl) in Hc.
  eapply free_rely in Hf; [|done]. clear s HR. destruct a as [z|l]; cbv beta iota.
  { destruct (Z.eqb_spec z (-1)) as [->|]; [|done]. split; [by apply keeps_refl|done]. }
  destruct (_ && _) eqn:Hcond; [|done].
  apply andb_true_iff in Hcond as [[[?%Z.ltb_lt ?%Z.ltb_lt]%andb_true_iff ?%Z.leb_le]%andb_true_iff Hall].
  split; [apply keeps_epev; [done|rewrite length_app, length_drop; lia]|].
  destruct (Z.eqb_spec (Z.of_nat (length l)) (-1)); [lia|]. apply g_next. simpl.
  split_and!; [by destruct Hf|by destruct Hf|done|lia..|rewrite length_app; lia|].
  intros Hca. destruct (Ha Hca) as [Hl Hev]. split_and!; [done|intros j ?; lia|].
  intros j Hj. destruct (at_lt l j ltac:(lia)) as [x Hx]. exists x.
  unfold at_, idx in *. destruct (Z.leb_spec 0 j); [|lia]. simpl in *.
  split_and!; [by apply lookup_app_l_Some|by eapply (Forall_lookup_1 _ _ _ _ Hev)|].
  pose proof (calm_interest _ (inv_calm _ _ HI Hca)) as Hint.
  rewrite forallb_forall in Hall.
  assert (in_list x.2 (interest s1) = true) as Hin%bool_decide_eq_true.
  { apply Hall, list_elem_of_In. by eapply list_elem_of_lookup_2. }
  rewrite Forall_forall in Hint. by apply (Hint x.2).
Qed.

Lemma poller_good m s : Inv s → pre Poller m s → good Poller (code Poller m) (pre Poller) s.
Proof.
  intros HI0 Hpre. destruct m; try done; simpl in Hpre; cbv beta iota delta [code start_poller].
  - clear HI0. destruct Hpre as [Hf Hb]. eapply g_clock; [done..|]. clear s Hf. intros s c mx i HI Hr Hh.
    eapply g_cread; [done|]. clear s HI Hh. intros s Hh HI. rewrite (c_cur _ _ _ _ _ _ Hh).
    apply g_bind. eapply good_conseq; [by eapply (poller_wait_good [])|].
    clear s HI Hh c mx i Hr. intros [] s (c & mx & i & Hr & Hh).
    eapply g_cunlock; [done..|]. clear s Hh. intros s Hf HI.
    apply g_read. intros s1 HR1 HI1. apply poller_poll_good; [done|by eapply free_rely|done|].
    rewrite (inv_epev _ _ HI1). by apply (inv_cur calm).
  - destruct Hpre as (Hf & Hb & Hi & Hr & Hc). destruct (Z.ltb_spec i ret_poll) as [Hlt|Hge].
    + intros s1 HR HI. pose proof (pre_rely Poller (P_for i ret_poll a_mq_buf) s s1 HR ltac:(simpl; auto)) as Hpre.
      clear s HI0 Hf Hr Hc HR. rename s1 into s. destruct Hpre as (Hf & _ & _ & Hr & Hc).
      destruct (at_lt (ep_events s) i) as [x Hx]; [lia|]. rewrite Hx.
      split; [by apply keeps_refl|]. cbv beta.
      change (good Poller (if negb (Z.land x.1 EPOLLIN =? 0) then
        match put_at a_mq_buf (i + 1) (Some x.2) with
        | Some buf' => mret (P_for (i + 1) ret_poll buf')
        | None => Act (λ _, Err BadAccess) (λ x : mode, Ret x) end
        else mret (P_for (i + 1) ret_poll a_mq_buf)) (pre Poller) s).
      assert (calm = true → Z.land x.1 EPOLLIN ≠ 0 ∧ valid_fd (Some x.2)) as Hx'.
      { intros Hca. destruct (Hc Hca) as (_ & _ & Hall). destruct (Hall i) as (y & Hy & ? & ?); [lia|]. by simplify_eq. }
      destruct (Z.eqb_spec (Z.land x.1 EPOLLIN) 0) as [E|E]; simpl negb; cbv iota.
      * apply g_next. simpl. split_and!; [done|done|lia..|]. intros Hca. by destruct (Hx' Hca).
      * destruct (put_at _ _ _) as [buf'|] eqn:Hput.
        -- apply g_next. simpl. pose proof (put_at_Some _ _ _ _ Hput) as (_ & -> & _).
           rewrite length_insert. split_and!; [done|done|lia..|].
           intros Hca. destruct (Hc Hca) as (? & ? & ?). split_and!; [done| |done].
           eapply vbuf_put; [lia|done..|]. by apply Hx'.
        -- intros s1 HR1 HI1 Hca. destruct (Hc Hca) as [Hr200 _].
           destruct (put_at_lt a_mq_buf (i + 1) (Some x.2)) as [? E']; [unfold BUF in Hb; lia|]. by rewrite Hput in E'.
    + apply g_next. simpl. split_and!; [done|done|lia|].
      intros Hca. destruct (Hc Hca) as (? & ? & ?). assert (i = ret_poll) as -> by lia. done.
  - clear HI0. destruct Hpre as (Hf & Hb & Hi & Hc). eapply g_private; [done..|]. cbv beta. intros s2 _ _.
    generalize (set_nep (u32 (n_epevent s2 + ret_poll)) s2). clear s s2 Hf. intros s Hf.
    destruct (put_at_lt a_mq_buf 0 (Some MQ_INTERNAL)) as [buf' Hput]; [unfold BUF, MAX_EVENT_QUEUE in Hb; lia|].
    rewrite Hput. apply put_at_Some in Hput as (_ & -> & Hlen). set (buf' := <[_ := _]> _).
    assert (calm = true → vbuf buf' 0 i) as Hv.
    { intros Hca. destruct (Hc Hca) as [_ Hvb]. intros j Hj. destruct (Hvb j Hj) as (y & Hy & ?).
      exists y. split; [|done]. unfold at_, idx in *. destruct (Z.leb_spec 0 (j + 1)); [|lia]. simpl in *.
      unfold buf'. by rewrite list_lookup_insert_ne by lia. }
    assert (calm = true → msg_type buf' = Some MQ_INTERNAL ∧ is_Some (msg_text buf' i)) as Hm.
    { intros Hca. destruct (Hplat Hca) as [Hl _]. unfold msg_type, msg_text. rewrite Hl. split.
      - unfold buf'. rewrite list_lookup_insert_eq by done. done.
      - rewrite length_drop. unfold buf'. rewrite length_insert. destruct (Hc Hca) as [Hi200 _].
        destruct (Z.leb_spec i (Z.of_nat (length a_mq_buf - 1))); [by eexists|unfold BUF in Hb; lia]. }
    assert (Z.of_nat (length buf') = BUF) as Hb' by (unfold buf'; by rewrite length_insert).
    destruct (msg_type buf') as [ty|] eqn:Hty, (msg_text buf' i) as [text|] eqn:Htx;
      try (intros s1 _ _ Hca; destruct (Hm Hca) as [? [? ?]]; done).
    apply g_sys. intros s1 [z|] HR HI _; [|done]. cbv beta iota. eapply free_rely in Hf; [|done]. clear s HR.
    destruct (z =? -1).
    { split; [by apply keeps_refl|]. by apply g_next. }
    destruct (_ && _); [|done]. split; [|by apply g_next; split; [destruct Hf|]].
    apply keeps_frame; [done..|by left|]. intros Hca. destruct (inv_calm _ _ HI Hca). split; [done|]. simpl.
    apply Forall_app. split; [done|]. apply Forall_singleton. destruct (Hm Hca) as [[= ->] _]. split; [done|].
    destruct (Hplat Hca). by eapply msg_text_valid, Htx; auto.
Qed.

Lemma take_msg_sub (Pr : Z * list cint → Prop) ty q x r :
  take_msg ty q = Some (x, r) → Forall Pr q → Pr (ty, x) ∧ Forall Pr r.
Proof.
  revert x r. induction q as [|[ty' y] q IH]; intros x r Ht HF; [done|]. simpl in Ht.
  apply Forall_cons in HF as [H1 H2]. destruct (Z.eqb_spec ty' ty) as [->|].
  - by simplify_eq.
  - destruct (take_msg ty q) as [[x' r']|] eqn:E; [|done]. simplify_eq.
    destruct (IH _ _ eq_refl H2). auto.
Qed.

(** What [msgrcv] stores in the buffer is valid if the message is. *)
Lemma msg_store_valid buf ty text buf' :
  long_ints = 1%nat → msg_store buf ty text = Some buf' → Forall valid_fd text →
  vbuf buf' 0 (Z.of_nat (length text)).
Proof.
  unfold msg_store. intros -> Hs HF. simpl in Hs. case_match; [|done]. injection Hs as <-.
  intros j Hj. unfold at_, idx. destruct (Z.leb_spec 0 (j + 1)); [|lia]. simpl.
  replace (Z.to_nat (j + 1)) with (S (Z.to_nat j)) by lia. simpl.
  destruct (lookup_lt_is_Some_2 text (Z.to_nat j)) as [x Hx]; [lia|].
  exists x. split; [by apply lookup_app_l_Some|]. by eapply (Forall_lookup_1 _ _ _ _ HF).
Qed.

Lemma msg_store_length buf ty text buf' :
  msg_store buf ty text = Some buf' → length buf' = length buf.
Proof.
  unfold msg_store. case_match; [|done]. intros [= <-].
  rewrite length_app, length_drop. lia.
Qed.

Lemma div_sizeof_int_mul n :
  long_ints = 1%nat → 0 ≤ n ≤ MAX_EVENT_QUEUE → div_sizeof_int (4 * n) = n.
Proof.
  unfold div_sizeof_int, MAX_EVENT_QUEUE. intros -> Hn. rewrite (Z.mod_small (4 * n)) by (simpl; lia).
  rewrite Z.mul_comm, Z.div_mul by lia. apply i32_small. unfold is_int, INT_MIN, INT_MAX. lia.
Qed.

Lemma dealing_free idx_rr s : dealing idx_rr s → free Iosched (dealt (log s)) s.
Proof. by split. Qed.

(** The worker whose turn it is. *)
Lemma dealing_next idx_rr i s s' :
  i = (if idx_rr =? MAX_WORKER_THREAD then 0 else idx_rr) →
  dealing idx_rr s → dealt (log s') = dealt (log s) ++ [Z.to_nat i] →
  Z.to_nat i = (length (dealt (log s)) mod 4)%nat ∧ (Z.to_nat i < 4)%nat ∧ 0 ≤ i ∧ dealing (i + 1) s'.
Proof.
  unfold dealing, MAX_WORKER_THREAD. intros Ei [Hr Hm] Hd. rewrite Hd, length_app. cbn [length].
  assert (0 ≤ i < 4 ∧ idx_rr mod 4 = i) as [Hi Hri].
  { subst i. destruct (Z.eqb_spec idx_rr 4) as [->|]; [done|].
    split; [lia|]. apply Z.mod_small. lia. }
  clear Ei. rewrite Hri in Hm. split_and!; [|lia..|].
  - apply Nat2Z.inj. rewrite Z2Nat.id, Nat2Z.inj_mod by lia. simpl. lia.
  - rewrite Nat2Z.inj_add, <-Z.add_mod_idemp_l, Hm by lia. done.
Qed.

Lemma iosched_good m s : Inv s → pre Iosched m s → good Iosched (code Iosched m) (pre Iosched) s.
Proof.
  intros HI0 Hpre. destruct m; try done; simpl in Hpre; cbv beta iota zeta delta [code start_iosched].
  - apply g_sys. intros s1 [z|] HR HI Ha; [|done]. cbv beta iota.
    destruct (pre_rely Iosched (S_top idx_rr a_mq_buf) _ _ HR Hpre) as [Hd Hb]. clear s HI0 HR Hpre.
    destruct (Z.eqb_spec z (-1)) as [->|Hz].
    { split; [by apply keeps_refl|]. apply g_next. simpl. split_and!; [done..|].
      intros Hca. exfalso. by apply (Ha Hca). }
    destruct (take_msg MQ_INTERNAL (msq s1)) as [[x r]|] eqn:Htm; [|done].
    destruct (Z.leb_spec (Z.of_nat (length x)) MAX_EVENT_QUEUE) as [Hx|]; [|done].
    assert (calm = true → Forall valid_fd x ∧
      Forall (λ x, x.1 = MQ_INTERNAL ∧ Forall valid_fd x.2) r) as Hv.
    { intros Hca. destruct (take_msg_sub _ _ _ _ _ Htm (calm_msq _ (inv_calm _ _ HI Hca))) as [[_ ?] ?]. done. }
    assert (keeps Iosched s1 (set_msq r s1)) as Hkeep.
    { apply keeps_frame; [done..|by left|]. intros Hca. destruct (inv_calm _ _ HI Hca), (Hv Hca). done. }
    split; [done|]. cbn [fst snd]. destruct (Z.eqb_spec (4 * Z.of_nat (length x)) (-1)); [lia|].
    assert (dealing idx_rr (set_msq r s1)) as Hd' by done.
    destruct (msg_store a_mq_buf MQ_INTERNAL x) as [buf'|] eqn:Hs.
    + pose proof (msg_store_length _ _ _ _ Hs) as Hl.
      destruct (_ =? 0); apply g_next; simpl; rewrite Hl; [done|]. split_and!; [done..|].
      intros Hca. destruct (Hplat Hca) as [Hli _]. rewrite div_sizeof_int_mul by (done || lia).
      eapply msg_store_valid; [done..|]. by apply Hv.
    + intros s2 HR2 HI2 Hca. destruct (Hplat Hca) as [Hli _]. unfold msg_store in Hs. rewrite Hli in Hs. simpl in Hs.
      case_match eqn:E; [done|]. apply Z.leb_gt in E. unfold BUF in Hb. lia.
  - destruct Hpre as (Hd & Hb & Hi & Hc). destruct (Z.ltb_spec i n) as [Hlt|]; [|by apply g_next].
    set (j := if idx_rr =? MAX_WORKER_THREAD then 0 else idx_rr).
    destruct (dealing_next idx_rr j s (set_log (log s ++ [EPush (Z.to_nat j) None]) s) eq_refl Hd) as (Hk1 & Hk2 & Hj & _).
    { simpl. by rewrite dealt_app. }
    assert (idx j = Some (Z.to_nat j)) as -> by (unfold idx; destruct (Z.leb_spec 0 j); [done|lia]).
    destruct (at_ a_mq_buf (i + 1)) as [fd|] eqn:Hfd.
    + apply g_bind. eapply good_conseq; [eapply push_good; [by apply (dealing_free idx_rr)|done..|]|].
      { intros Hca. destruct (Hc Hca i) as (y & Hy & ?); [lia|]. by simplify_eq. }
      intros r s' [_ Hf]. apply g_next.
      destruct (dealing_next idx_rr j s s' eq_refl Hd (Hf eq_refl)) as (_ & _ & _ & Hd'). simpl.
      split_and!; [done..|lia|]. intros Hca j' Hj'. apply Hc; [done|lia].
    + intros s2 HR2 HI2 Hca. destruct (Hc Hca i) as (y & Hy & ?); [lia|]. by simplify_eq.
Qed.

(** ** All threads *)
Lemma code_good t m s : Inv s → pre t m s → good t (code t m) (pre t) s.
Proof. destruct t; eauto using listener_good, poller_good, iosched_good, worker_good. Qed.

Abbreviation cfg_ok := (cfg_ok Inv Rl G (adm calm) (flt calm) pre).

Lemma pool_step_ok l c r :
  cfg_ok c → adm_label (adm calm) l → step l c = Some r →
  res_ok Inv Rl G (adm calm) (flt calm) pre c r.
Proof.
  apply step_ok; eauto using Rl_refl, Rl_trans, G_Rl, code_good, wake_ok, G_refl.
Qed.

Lemma pool_run_ok ls c r :
  cfg_ok c → Forall (adm_label (adm calm)) ls → run ls c = Some r →
  match r with Ok c' => cfg_ok c' | Err (Exited _) => True | Err e => ∃ c', cfg_ok c' ∧ flt calm (gs c') e end.
Proof.
  apply run_ok; eauto using Rl_refl, Rl_trans, G_Rl, code_good, wake_ok, G_refl.
Qed.
End threads.
