(* ===== verification/EvTheorems.v ===== *)
(** * Properties of the thread pool

    Every configuration the server can reach satisfies the invariant of
    [EvInv], whatever the interleaving of the threads and the answers of the
    system; the properties below follow.  The drain of a queue by its worker is
    proved by running the worker alone. *)

From stdpp Require Import functions base gmap list.
From Stdlib Require Import ZArith Lia.
From S2P Require Import Prelude EvPool EvLogic EvInv EvThreads.

Local Open Scope Z_scope.

Section reach.
Context `{P : Platform}.

(** The configurations of a running server. *)
Definition reachable (c : config) : Prop :=
  ∃ argc argv1 b c0 ls, start argc argv1 b = Ok c0 ∧ run ls c0 = Some (Ok c).

(** What [main] leaves behind when it succeeds. *)
Definition pool_init : pool :=
  Pool 0 (MIN sc_open_max DFL_OPEN_MAX_FILES)
    (replicate 4 (EVLIST 0 0 0 (replicate (Z.to_nat MAX_EVENT_QUEUE) (Some 0))))
    (replicate (Z.to_nat DFL_OPEN_MAX_FILES) (FDLIST 0 0)) (SockAddr 0 0 0) 0 0 (replicate 4 0)
    (replicate (Z.to_nat (MIN sc_open_max DFL_OPEN_MAX_FILES)) (0, 0)) (λ _, None) (λ _, []) [] [] [] [].

Definition threads_init : threads :=
  [(Listener, L_start); (Poller, P_top (replicate (Z.to_nat (MAX_EVENT_QUEUE + 1)) None));
   (Iosched, S_top 0 (replicate (Z.to_nat (MAX_EVENT_QUEUE + 1)) None));
   (Worker 0, W_top); (Worker 1, W_top); (Worker 2, W_top); (Worker 3, W_top)].

Definition evlist_zero : evlist := EVLIST 0 0 0 (replicate (Z.to_nat MAX_EVENT_QUEUE) (Some 0)).

Lemma alloc_evlists_inv b i n s r s' :
  alloc_evlists b i n s = Ok (r, s') →
  r = -1 ∨ r = 0 ∧ s' = set_evls (p_evlists s ++ replicate n evlist_zero) s.
Proof.
  revert i s. induction n as [|n IH]; intros i s H; simpl in H.
  - injection H as <- <-. right. split; [done|]. simpl. rewrite app_nil_r. by destruct s.
  - apply bind_inv in H as (ok & s1 & [= <- <-] & H). destruct (b_calloc b i).
    + apply bind_inv in H as ([] & s1 & [= <-] & H). fold evlist_zero in H.
      destruct (IH _ _ H) as [?|[-> ->]]; [by left|right]. split; [done|].
      unfold set_evls. simpl. by rewrite <-app_assoc.
    + injection H as <- <-. by left.
Qed.

Lemma alloc_resources_inv b s r s' :
  alloc_resources b s = Ok (r, s') → p_evlists s = [] →
  r = -1 ∨ r = 0 ∧ s' = Pool 0 (MIN sc_open_max DFL_OPEN_MAX_FILES) (replicate 4 evlist_zero)
    (replicate (Z.to_nat DFL_OPEN_MAX_FILES) (FDLIST 0 0)) (saddr_s s) (fd_listener s) (n_epevent s) (w_status s)
    (replicate (Z.to_nat (MIN sc_open_max DFL_OPEN_MAX_FILES)) (0, 0)) (owner s) (waiters s) (interest s) (open_fds s) (msq s) (log s).
Proof.
  unfold alloc_resources. intros H Hs.
  apply bind_inv in H as (ok & s3 & [= <- <-] & H).
  destruct (b_calloc b 0); [|injection H as <- <-; by left]. cbn [negb] in H.
  apply bind_inv in H as ([] & s3 & [= <-] & H).
  apply bind_inv in H as (ok & s3 & [= <- <-] & H).
  destruct (b_calloc b 1); [|injection H as <- <-; by left]. cbn [negb] in H.
  apply bind_inv in H as ([] & s3 & [= <-] & H).
  apply bind_inv in H as (r' & s3 & E & H).
  apply alloc_evlists_inv in E as [->|[-> ->]]; [injection H as <- <-; by left|].
  cbn [Z.eqb] in H. destruct (b_msgget b <? 0); [done|]. destruct (b_epoll_create b =? -1); [done|].
  apply bind_inv in H as (ok & s3 & [= <- <-] & H).
  destruct (b_calloc b 6); [|done]. cbn [negb] in H.
  apply bind_inv in H as ([] & s3 & [= <-] & H). injection H as <- <-. right. split; [done|].
  unfold set_epev, set_evls, set_fdl. cbn [p_evlists max_open_files saddr_s fd_listener n_epevent w_status owner waiters interest open_fds msq log cur_open_files p_fdlists ep_events].
  by rewrite Hs.
Qed.

Lemma start_init argc argv1 b c : start argc argv1 b = Ok c → c = Config pool_init (spawn threads_init).
Proof.
  unfold start. destruct (pool_main argc argv1 b pool_zero) as [[ts s]|] eqn:E; [|done].
  intros [= <-]. unfold pool_main in E. destruct (2 <? argc); [done|].
  apply bind_inv in E as ([] & s1 & [= <-] & E).
  apply bind_inv in E as (r & s2 & E1 & E).
  apply alloc_resources_inv in E1 as [->|[-> ->]]; [done| |done].
  cbn [Z.eqb negb] in E. unfold make_threads, mbind, M_bind, mret, M_ret in E.
  injection E as <- <-. done.
Qed.

Lemma init_ok calm : Inv calm pool_init.
Proof.
  constructor; try done; simpl.
  - rewrite length_replicate. unfold DFL_OPEN_MAX_FILES, MIN. destruct (Z.leb_spec sc_open_max 1024); lia.
  - lia.
  - intros k e He. apply (list_elem_of_lookup_2 [evlist_zero; evlist_zero; evlist_zero; evlist_zero]) in He.
    assert (e = evlist_zero) as -> by set_solver. constructor; simpl; unfold MAX_EVENT_QUEUE; lia.
  - intros k e He _. apply (list_elem_of_lookup_2 [evlist_zero; evlist_zero; evlist_zero; evlist_zero]) in He.
    assert (e = evlist_zero) as -> by set_solver. by constructor.
  - intros _. constructor; simpl; try done. constructor.
  - intros. set_solver.
  - intros. set_solver.
  - intros k. set_solver.
Qed.

Abbreviation cfg_ok calm := (cfg_ok (Inv calm) Rl G (adm calm) (flt calm) (pre calm)) (only parsing).

(** Where calm runs are considered. *)
Definition plat_ok (calm : bool) : Prop :=
  calm = true → long_ints = 1%nat ∧ sc_open_max ≤ DFL_OPEN_MAX_FILES.

Lemma start_ok calm argc argv1 b c : plat_ok calm → start argc argv1 b = Ok c → cfg_ok calm c.
Proof.
  intros Hplat ->%start_init. split; [apply init_ok|]. intros t. simpl.
  assert (∀ m, pre calm t m pool_init → good (Inv calm) Rl G (adm calm) (flt calm) t (Ret m) (pre calm t) pool_init) as Hg.
  { intros m Hm. exact (g_next calm Hplat t m _ Hm). }
  assert (∀ d, free t d pool_init ∨ t = Iosched) as Hf.
  { intros d. destruct (decide (t = Iosched)); [by right|left]. by split. }
  destruct t as [| | |no]; try (apply Hg; simpl; by destruct (Hf [])).
  destruct no as [|[|[|[|no]]]]; try (apply Hg; simpl; destruct (Hf []); [split; [lia|done]|done]).
  by apply Hg.
Qed.

Lemma reachable_ok c : reachable c → cfg_ok false c.
Proof.
  intros (argc & argv1 & b & c0 & ls & Hs & Hr).
  eapply (pool_run_ok false _ ls c0 (Ok c)); [done..|by eapply start_ok| |done].
  apply Forall_forall. by intros [] _.
  Unshelve. all: done.
Qed.

Lemma reachable_inv c : reachable c → Inv false (gs c).
Proof. by intros [? _]%reachable_ok. Qed.

Lemma reachable_run c ls c' : reachable c → run ls c = Some (Ok c') → reachable c'.
Proof.
  intros (argc & argv1 & b & c0 & ls0 & Hs & Hr) Hr'. exists argc, argv1, b, c0, (ls0 ++ ls).
  split; [done|]. clear Hs. revert c0 Hr. induction ls0 as [|l ls0 IH]; intros c0 Hr; simpl in *.
  - by injection Hr as ->.
  - destruct (step l c0) as [[c1|]|]; [by apply IH|done..].
Qed.

(** ** What holds of every run *)

(** C4. In every reachable configuration and for every worker, the descriptors
    taken from the worker's queue are a prefix of those put in; when nobody holds
    the queue's mutex, what was put in is exactly what was taken followed by the
    [n_ev] entries of the ring buffer, in order, and [i1_ev] is the number of
    descriptors taken. *)
Theorem fifo_delivery c k e :
  reachable c → p_evlists (gs c) !! k = Some e →
  popped k (log (gs c)) `prefix_of` pushed k (log (gs c)) ∧
  (owner (gs c) (MEvl k) = None →
     pushed k (log (gs c)) = popped k (log (gs c)) ++ contents e ∧
     Z.of_nat (length (contents e)) = n_ev e ∧
     i1_ev e = Z.of_nat (length (popped k (log (gs c))))).
Proof.
  intros HI%reachable_inv He. split; [apply HI|]. intros Ho.
  destruct (inv_rest _ _ HI k e He Ho). destruct (inv_evl _ _ HI k e He).
  split_and!; [done| |done]. apply contents_length. lia.
Qed.

(** [pop_evlist] never finds its queue empty: although a worker tests
    [n_ev] without the mutex and may wake up spuriously, its error path, which
    would return with the mutex held, is never taken. *)
Theorem pop_never_underflows c k : reachable c → ¬ In (EUnder k) (log (gs c)).
Proof. intros HI%reachable_inv Hin%list_elem_of_In. by eapply inv_under. Qed.

(** C8. No wake-up is lost: a worker that waits on its condition variable while
    the mutex is free has handled every descriptor queued for it, and a waiting
    poller has no descriptor to poll. *)
Theorem no_lost_wakeup c :
  reachable c →
  (∀ k, owner (gs c) (MEvl k) = None → Worker k ∈ waiters (gs c) (MEvl k) → (k < 4)%nat →
     pushed k (log (gs c)) = popped k (log (gs c))) ∧
  (owner (gs c) MConn = None → Poller ∈ waiters (gs c) MConn → interest (gs c) = []).
Proof.
  intros HI%reachable_inv. split.
  - intros k Ho Hw Hk. destruct (lookup_lt_is_Some_2 (p_evlists (gs c)) k) as [e He].
    { by rewrite (inv_len _ _ HI). }
    destruct (inv_rest _ _ HI k e He Ho). rewrite rest_fifo, contents_nil, app_nil_r by auto. done.
  - intros Ho Hw. destruct (inv_conn _ _ HI Ho). specialize (rest_poller Hw).
    destruct (interest (gs c)); [done|]. simpl in *. lia.
Qed.

(** The connection counter is right: when its mutex is free,
    [cur_open_files] is the number of descriptors registered with epoll, each
    registered once, and it never exceeds [max_open_files]. *)
Theorem open_files_counted c :
  reachable c →
  cur_open_files (gs c) ≤ Z.max 0 (max_open_files (gs c)) ∧
  (owner (gs c) MConn = None →
     cur_open_files (gs c) = Z.of_nat (length (interest (gs c))) ∧ NoDup (interest (gs c))).
Proof.
  intros HI%reachable_inv. split; [apply HI|]. intros Ho. by destruct (inv_conn _ _ HI Ho).
Qed.

(** The number of events dealt to worker [k] among the first [n]. *)
Lemma count_mod4 n k :
  (k < 4)%nat → length (filter (λ x, x = k) ((λ j, (j mod 4)%nat) <$> seq 0 n)) = ((n + 3 - k) / 4)%nat.
Proof.
  intros Hk. induction n as [|n IH].
  - rewrite Nat.div_small by lia. done.
  - rewrite seq_S, fmap_app, filter_app, length_app, IH.
    change (_ <$> [_]) with [(n mod 4)%nat].
    rewrite filter_cons, filter_nil.
    pose proof (Nat.div_mod_eq n 4). pose proof (Nat.mod_upper_bound n 4 ltac:(lia)).
    pose proof (Nat.div_mod_eq (n + 3 - k) 4). pose proof (Nat.mod_upper_bound (n + 3 - k) 4 ltac:(lia)).
    pose proof (Nat.div_mod_eq (S n + 3 - k) 4). pose proof (Nat.mod_upper_bound (S n + 3 - k) 4 ltac:(lia)).
    case_decide; cbn [length]; lia.
Qed.

(** Events are dealt out round robin: the [j]-th event the scheduler hands
    out goes to worker [j mod 4], so that the loads of any two workers differ by
    at most one. *)
Theorem round_robin c :
  reachable c →
  let d := dealt (log (gs c)) in
  d = (λ j, (j mod 4)%nat) <$> seq 0 (length d) ∧
  ∀ k k', (k < 4)%nat → (k' < 4)%nat →
    (length (filter (λ x, x = k) d) ≤ length (filter (λ x, x = k') d) + 1)%nat.
Proof.
  intros HI%reachable_inv d.
  assert (d = (λ j, (j mod 4)%nat) <$> seq 0 (length d)) as Hd.
  { apply list_eq. intros j. rewrite list_lookup_fmap.
    destruct (d !! j) as [k|] eqn:E.
    - pose proof (lookup_lt_Some _ _ _ E). rewrite lookup_seq_lt by done. simpl.
      f_equal. by apply (inv_rr _ _ HI).
    - apply lookup_ge_None in E. by rewrite lookup_seq_ge. }
  split; [done|]. intros k k' Hk Hk'. rewrite Hd, !count_mod4 by done.
  pose proof (Nat.div_mod_eq (length d + 3 - k) 4). pose proof (Nat.mod_upper_bound (length d + 3 - k) 4 ltac:(lia)).
  pose proof (Nat.div_mod_eq (length d + 3 - k') 4). pose proof (Nat.mod_upper_bound (length d + 3 - k') 4 ltac:(lia)).
  lia.
Qed.

(** Clients stay connected, no call is interrupted, and at most
    [MAX_EVENT_QUEUE] events, all of them input, are reported at once. *)
Definition calm_label : label → Prop := adm_label (adm true).

(** On a 32-bit system with at most 1024 descriptors and a calm outside
    world, no thread ever faults (no index out of range, no mutex unlocked by a
    thread that does not hold it) as long as no queue has reached the end of its
    array; the server either goes on or exits on purpose. *)
Theorem calm_no_fault argc argv1 b c0 ls c l r :
  plat_ok true → start argc argv1 b = Ok c0 → Forall calm_label ls → run ls c0 = Some (Ok c) →
  (∀ k e, p_evlists (gs c) !! k = Some e → i1_ev e < MAX_EVENT_QUEUE) →
  calm_label l → step l c = Some r →
  (∃ c', r = Ok c') ∨ ∃ z, r = Err (Exited z).
Proof.
  intros Hplat Hs Hls Hr Hi Hl Hst.
  pose proof (pool_run_ok true Hplat ls c0 (Ok c) (start_ok true _ _ _ _ Hplat Hs) Hls Hr) as Hok.
  pose proof (pool_step_ok true Hplat l c r Hok Hl Hst) as Hres.
  destruct r as [c'|e]; [by left; exists c'|right]. destruct e; simpl in Hres; eauto;
    destruct (Hres eq_refl) as (k & e & He & Heq); specialize (Hi k e He); lia.
Qed.

(** The port given on the command line is ignored: by the time the listener
    thread starts, the address that [main] filled in has been cleared by
    [make_threads], so that the socket is bound to a port chosen by the system. *)
Theorem listener_port_ignored argc argv1 b c :
  start argc argv1 b = Ok c → saddr_s (gs c) = SockAddr 0 0 0.
Proof. by intros ->%start_init. Qed.

(** ** One thread running alone *)
Inductive solo (t : tid) (a : answer) : prog mode → pool → prog mode → pool → Prop :=
| solo_refl p s : solo t a p s p s
| solo_step p s p1 s1 p2 s2 :
    (∀ c, th c t = p → gs c = s → step_prog c t a = goes c t s1 p1) →
    solo t a p1 s1 p2 s2 → solo t a p s p2 s2.

Lemma solo_trans t a p1 s1 p2 s2 p3 s3 :
  solo t a p1 s1 p2 s2 → solo t a p2 s2 p3 s3 → solo t a p1 s1 p3 s3.
Proof. induction 1; eauto using solo. Qed.

Lemma solo_run t a p s p' s' c :
  solo t a p s p' s' → th c t = p → gs c = s →
  ∃ n c', run (replicate n (Do t a)) c = Some (Ok c') ∧ th c' t = p' ∧ gs c' = s' ∧
    ∀ t', t' ≠ t → th c' t' = th c t'.
Proof.
  intros H. revert c. induction H as [p s|p s p1 s1 p2 s2 Hst _ IH]; intros c Hp Hs.
  - by exists 0%nat, c.
  - destruct (IH (Config s1 (<[t := p1]> (th c)))) as (n & c' & Hr & Hp' & Hs' & Ht).
    + simpl. by rewrite fn_lookup_insert.
    + done.
    + exists (S n), c'. split_and!; [|done..|].
      * simpl. by rewrite (Hst c Hp Hs).
      * intros t' Hne. rewrite Ht by done. simpl. by rewrite fn_lookup_insert_ne.
Qed.

Lemma solo_ret t a m s p2 s2 : m ≠ Returned → solo t a (code t m) s p2 s2 → solo t a (Ret m) s p2 s2.
Proof. intros Hm. apply solo_step. intros c Hp <-. unfold step_prog. rewrite Hp. by destruct m. Qed.

Lemma solo_act {A} t a (f : pool → res (A * pool)) k s x s' p2 s2 :
  f s = Ok (x, s') → solo t a (k x) s' p2 s2 → solo t a (Act f k) s p2 s2.
Proof. intros Hf. apply solo_step. intros c Hp <-. unfold step_prog. by rewrite Hp, Hf. Qed.

Lemma solo_sys {A} t a (f : answer → pool → option (A * pool)) k s x s' p2 s2 :
  f a s = Some (x, s') → solo t a (k x) s' p2 s2 → solo t a (Sys f k) s p2 s2.
Proof. intros Hf. apply solo_step. intros c Hp <-. unfold step_prog. by rewrite Hp, Hf. Qed.

Lemma solo_lock t a m k s p2 s2 :
  t ∉ waiters s m → owner s m = None → solo t a k (set_owner m (Some t) s) p2 s2 → solo t a (Lock m k) s p2 s2.
Proof.
  intros Hw Ho. apply solo_step. intros c Hp <-. unfold step_prog. rewrite Hp.
  by rewrite bool_decide_false, Ho.
Qed.

Lemma solo_unlock t a m k s p2 s2 :
  owner s m = Some t → solo t a k (set_owner m None s) p2 s2 → solo t a (Unlock m k) s p2 s2.
Proof.
  intros Ho. apply solo_step. intros c Hp <-. unfold step_prog. rewrite Hp. by rewrite bool_decide_true.
Qed.

(** ** A worker alone *)

(** What a worker sees: its queue, free, and the table of descriptors. *)
Record wst (k : nat) (e : evlist) (l : list event) (fl : list fdlist) (o : list Z) (s : pool) : Prop := {
  ws_evl : p_evlists s !! k = Some e;
  ws_own : owner s (MEvl k) = None;
  ws_wait : Worker k ∉ waiters s (MEvl k);
  ws_log : log s = l;
  ws_fdl : p_fdlists s = fl;
  ws_open : open_fds s = o
}.

(** An open socket: the table has its descriptor. *)
Definition open_at (fl : list fdlist) (o : list Z) (x : cint) (fd : Z) : Prop :=
  ∃ i y, x = Some i ∧ at_ fl i = Some y ∧ fdl_fd y = fd ∧ fd ∈ o.

(** Evaluates the memory after updates. *)
Ltac memsimp :=
  cbn [set_owner set_log set_evls set_status set_waiters owner waiters log p_evlists p_fdlists open_fds w_status];
  rewrite ?fn_lookup_insert, ?list_lookup_insert_eq by (rewrite ?length_insert; eauto using lookup_lt_Some);
  eauto.

(** One iteration of the worker's loop takes and receives one descriptor. *)
Lemma worker_iter k e l fl o s i x fd :
  wst k e l fl o s → i < n_ev e → 0 ≤ i → at_ (q_ev e) (i1_ev e) = Some x → open_at fl o x fd →
  ∃ s', solo (Worker k) (AInt 1) (Ret (W_for i)) s (Ret (W_for (i + 1))) s' ∧
    wst k (popped_evl e) (l ++ [EPop k x; ERecv k fd]) fl o s'.
Proof.
  intros [] Hn Hi Hx (j & y & -> & Hy & <- & Ho). eexists. split.
  - apply solo_ret; [done|]. simpl.
    eapply solo_act; [by rewrite ws_evl0|]. simpl. destruct (Z.ltb_spec i (n_ev e)); [|lia].
    apply solo_lock; [done..|].
    eapply solo_act; [by memsimp; rewrite ws_evl0|]. simpl. destruct (Z.eqb_spec (n_ev e) 0); [lia|].
    eapply solo_act; [memsimp; rewrite ws_evl0; simpl; by rewrite Hx|].
    eapply solo_act; [by memsimp|].
    eapply solo_act; [done|].
    apply solo_unlock; [by memsimp|].
    eapply solo_act; [memsimp; rewrite ws_fdl0; simpl; by rewrite Hy|].
    eapply solo_act; [done|].
    eapply solo_sys.
    { memsimp. rewrite ws_open0. unfold in_list. by rewrite (bool_decide_true _ Ho). }
    apply solo_refl.
  - constructor; memsimp. by rewrite ws_log0, <-app_assoc.
Qed.

(** After its loop the worker returns to the start, and does not wait while
    there is something in its queue. *)
Lemma worker_again k e l fl o s i :
  wst k e l fl o s → n_ev e ≤ i → n_ev e ≠ 0 →
  ∃ s', solo (Worker k) (AInt 1) (Ret (W_for i)) s (Ret (W_for 0)) s' ∧ wst k e l fl o s'.
Proof.
  intros [] Hi Hn. eexists. split.
  - apply solo_ret; [done|]. simpl.
    eapply solo_act; [by rewrite ws_evl0|]. simpl. destruct (Z.ltb_spec i (n_ev e)); [lia|].
    apply solo_ret; [done|]. simpl. apply solo_lock; [done..|]. apply solo_unlock; [by memsimp|].
    apply solo_ret; [done|]. simpl.
    eapply solo_act; [done|]. apply solo_lock; [by memsimp..|].
    eapply solo_act; [by memsimp; rewrite ws_evl0|]. simpl. destruct (Z.eqb_spec (n_ev e) 0); [done|]. simpl.
    eapply solo_act; [by memsimp; rewrite ws_evl0|]. apply solo_unlock; [by memsimp|].
    eapply solo_act; [done|]. apply solo_refl.
  - constructor; memsimp.
Qed.

Lemma worker_start k e l fl o s :
  wst k e l fl o s → n_ev e ≠ 0 →
  ∃ s', solo (Worker k) (AInt 1) (Ret W_top) s (Ret (W_for 0)) s' ∧ wst k e l fl o s'.
Proof.
  intros [] Hn. eexists. split.
  - apply solo_ret; [done|]. simpl.
    eapply solo_act; [done|]. apply solo_lock; [by memsimp..|].
    eapply solo_act; [by memsimp; rewrite ws_evl0|]. simpl. destruct (Z.eqb_spec (n_ev e) 0); [done|]. simpl.
    eapply solo_act; [by memsimp; rewrite ws_evl0|]. apply solo_unlock; [by memsimp|].
    eapply solo_act; [done|]. apply solo_refl.
  - constructor; memsimp.
Qed.

(** What taking and receiving a list of descriptors records. *)
Definition handled (k : nat) (xs : list (cint * Z)) : list event :=
  xs ≫= λ x, [EPop k x.1; ERecv k x.2].

(** The descriptors of a queue that has not wrapped around. *)
Lemma contents_head e x xs :
  contents e = x :: xs → 0 ≤ i1_ev e → 0 ≤ n_ev e → i1_ev e + n_ev e ≤ MAX_EVENT_QUEUE →
  Z.of_nat (length (q_ev e)) = MAX_EVENT_QUEUE →
  at_ (q_ev e) (i1_ev e) = Some x ∧ contents (popped_evl e) = xs ∧ 0 < n_ev e.
Proof.
  intros Hc Hi Hn Hs Hq. unfold MAX_EVENT_QUEUE in *.
  assert (0 < n_ev e) as Hpos.
  { apply (f_equal length) in Hc. pose proof (contents_length e Hn) as Hl. rewrite Hc in Hl. simpl in Hl. lia. }
  destruct (at_lt (q_ev e) (i1_ev e)) as [y Hy]; [lia|].
  pose proof (contents_pop e y Hi Hpos Hy Hq) as Hc'.
  rewrite Hc in Hc'. injection Hc' as <- ->. done.
Qed.

Lemma worker_loop k xs e l fl o s i :
  wst k e l fl o s → contents e = xs.*1 → Forall (λ x, open_at fl o x.1 x.2) xs →
  0 ≤ i → 0 ≤ i1_ev e → 0 ≤ n_ev e → i1_ev e + n_ev e ≤ MAX_EVENT_QUEUE →
  Z.of_nat (length (q_ev e)) = MAX_EVENT_QUEUE →
  ∃ j s' e', solo (Worker k) (AInt 1) (Ret (W_for i)) s (Ret (W_for j)) s' ∧
    wst k e' (l ++ handled k xs) fl o s' ∧ n_ev e' = 0.
Proof.
  revert e l s i. induction xs as [|[x fd] xs IH]; intros e l s i Hw Hc HF Hi Hi1 Hn Hs Hq.
  - exists i, s, e. split; [apply solo_refl|]. simpl. rewrite app_nil_r. split; [done|].
    pose proof (contents_length e Hn). rewrite Hc in *. simpl in *. lia.
  - apply Forall_cons in HF as [Hx HF]. simpl in Hc.
    destruct (contents_head e x xs.*1 Hc Hi1 Hn Hs Hq) as (Hat & Hc' & Hpos).
    assert (∃ i' s1, solo (Worker k) (AInt 1) (Ret (W_for i)) s (Ret (W_for i')) s1 ∧
      wst k e l fl o s1 ∧ 0 ≤ i' < n_ev e) as (i' & s1 & Hrun1 & Hw1 & Hi').
    { destruct (decide (i < n_ev e)).
      - exists i, s. split_and!; [apply solo_refl|done|lia..].
      - destruct (worker_again k e l fl o s i Hw) as (s1 & ? & ?); [lia..|]. exists 0, s1. auto with lia. }
    destruct (worker_iter k e l fl o s1 i' x fd Hw1) as (s2 & Hrun2 & Hw2); [lia..|done|done|].
    destruct (IH _ _ s2 (i' + 1) Hw2) as (j & s3 & e3 & Hrun3 & Hw3 & He3); [done|done|simpl; lia..|done|].
    exists j, s3, e3. split_and!; [|by rewrite <-app_assoc in Hw3|done].
    eauto using solo_trans.
Qed.

(** C19. A worker drains its queue: started at the top of its loop with [n_ev > 0]
    descriptors of open sockets queued in places that do not run past the end of
    the array, and running alone with every [recv] returning data, it takes and
    receives all of them, in order, after finitely many steps, although its inner
    loop stops half way whenever [i] meets the shrinking [n_ev]; the other
    threads do not move.  A queue that runs past the end it reads out of bounds
    ([pop_past_end]). *)
Theorem worker_drains c k e xs :
  th c (Worker k) = Ret W_top → p_evlists (gs c) !! k = Some e →
  owner (gs c) (MEvl k) = None → Worker k ∉ waiters (gs c) (MEvl k) →
  contents e = xs.*1 → Forall (λ x, open_at (p_fdlists (gs c)) (open_fds (gs c)) x.1 x.2) xs →
  0 ≤ i1_ev e → 0 < n_ev e → i1_ev e + n_ev e ≤ MAX_EVENT_QUEUE →
  Z.of_nat (length (q_ev e)) = MAX_EVENT_QUEUE →
  ∃ n c', run (replicate n (Do (Worker k) (AInt 1))) c = Some (Ok c') ∧
    log (gs c') = log (gs c) ++ handled k xs ∧ n_of (gs c') k = 0 ∧
    owner (gs c') (MEvl k) = None ∧ ∀ t, t ≠ Worker k → th c' t = th c t.
Proof.
  intros Hth He Ho Hw Hc HF Hi1 Hn Hs Hq.
  destruct (worker_start k e (log (gs c)) (p_fdlists (gs c)) (open_fds (gs c)) (gs c)) as (s1 & Hr1 & Hw1); [done|lia|].
  destruct (worker_loop k xs e _ _ _ s1 0 Hw1) as (j & s2 & e2 & Hr2 & Hw2 & He2); [done|done|lia..|].
  destruct (solo_run _ _ _ _ _ _ c (solo_trans _ _ _ _ _ _ _ _ Hr1 Hr2) Hth eq_refl) as (n & c' & Hrun & _ & Hg & Hoth).
  exists n, c'. rewrite Hg. split_and!; [done|apply Hw2| |apply Hw2|done].
  unfold n_of. by rewrite (ws_evl _ _ _ _ _ _ Hw2).
Qed.

(** ** The ends of a queue *)

(** [pop_evlist] never wraps [i1_ev] around: once a worker has taken
    [MAX_EVENT_QUEUE] descriptors, taking the next one reads past the end of
    [q_ev]. *)
Theorem pop_past_end c k e (f : cint → prog mode) a :
  th c (Worker k) = pop_evlist k ≫= f → p_evlists (gs c) !! k = Some e →
  owner (gs c) (MEvl k) = None → Worker k ∉ waiters (gs c) (MEvl k) →
  i1_ev e = MAX_EVENT_QUEUE → 0 < n_ev e → Z.of_nat (length (q_ev e)) = MAX_EVENT_QUEUE →
  run (replicate 3 (Do (Worker k) a)) c = Some (Err BadAccess).
Proof.
  intros Hth He Ho Hw Hi Hn Hq. cbn [replicate run].
  assert (∀ c s p, goes c (Worker k) s p = Some (Ok (Config s (<[Worker k := p]> (th c))))) as Hgo by done.
  cbn [step]. unfold step_prog at 1. rewrite Hth. cbn [pop_evlist mbind prog_bind pbind MUTEX_LOCK].
  rewrite bool_decide_false, Ho, Hgo by done. cbv iota.
  unfold step_prog at 1. cbn [th gs]. rewrite fn_lookup_insert. cbn [pbind evl_get mbind prog_bind].
  cbn [set_owner p_evlists]. rewrite He, Hgo. cbv iota.
  unfold step_prog at 1. cbn [th gs]. rewrite fn_lookup_insert.
  destruct (Z.eqb_spec (n_ev e) 0); [lia|]. cbn [pbind evl_upd mbind prog_bind set_owner p_evlists].
  rewrite He. cbn [mbind option_bind]. unfold at_, idx. rewrite Hi. simpl.
  rewrite lookup_ge_None_2; [done|]. unfold MAX_EVENT_QUEUE in *. lia.
Qed.

(** A program that keeps its hands off queue [k] and does not release its mutex. *)
Definition off (k : nat) (s s' : pool) : Prop :=
  p_evlists s' !! k = p_evlists s !! k ∧ popped k (log s') = popped k (log s) ∧
  owner s' (MEvl k) = owner s (MEvl k).

Fixpoint stuck {A} (k : nat) (p : prog A) : Prop :=
  match p with
  | Ret _ | Exit _ => True
  | Act f q => (∀ s x s', f s = Ok (x, s') → off k s s') ∧ ∀ x, stuck k (q x)
  | Sys f q => (∀ a s x s', f a s = Some (x, s') → off k s s') ∧ ∀ x, stuck k (q x)
  | Lock m q => m = MEvl k ∨ stuck k q
  | Unlock m q => m ≠ MEvl k ∧ stuck k q
  | Broadcast _ q => stuck k q
  | Wait _ _ => False
  end.

Lemma off_refl k s : off k s s.
Proof. done. Qed.

Lemma stuck_push {A} k k' fd (f : Z → prog A) :
  (∀ r, stuck k (f r)) → stuck k (push_evlist k' fd ≫= f).
Proof.
  intros Hf. simpl. destruct (decide (MEvl k' = MEvl k)) as [E|E]; [by left|right].
  assert (k' ≠ k) as Hne by congruence.
  assert (∀ {B} (g : evlist → option (B * evlist)) s x s',
    match (e ← p_evlists s !! k'; g e) with
    | Some (a, e') => Ok (a, set_evls (<[k' := e']> (p_evlists s)) s) | None => Err BadAccess end = Ok (x, s') → off k s s') as Hupd.
  { intros B g s x s' H. case_match; [|done]. case_match; simplify_eq. split; [|done]. simpl. by rewrite list_lookup_insert_ne. }
  assert (∀ {B} (g : evlist → B) s x s',
    match p_evlists s !! k' with Some e => Ok (g e, s) | None => Err BadAccess end = Ok (x, s') → off k s s') as Hget.
  { intros B g s x s' H. case_match; simplify_eq. done. }
  assert (∀ ev s (x : unit) s', popped k [ev] = [] → Ok (tt, set_log (log s ++ [ev]) s) = Ok (x, s') → off k s s') as Hemit.
  { intros ev s x s' Hev [= <- <-]. split_and!; [done| |done]. simpl. by rewrite popped_app, Hev, app_nil_r. }
  split; [apply Hget|]. intros n. destruct (n =? MAX_EVENT_QUEUE); simpl.
  { split; [|done]. intros. by eapply (Hemit (EDrop k' fd)). }
  split; [apply Hget|]. intros i2.
  destruct (i2 =? MAX_EVENT_QUEUE); simpl.
  1: split; [apply Hupd|]; intros _.
  all: split; [apply Hupd|]; intros _; split; [apply (Hupd unit)|]; intros _;
    (split; [intros; by eapply (Hemit (EPush k' fd))|]); intros _; (split; [apply Hget|]); intros n';
    destruct (n' =? 1); simpl; auto.
Qed.

Lemma stuck_code k m : stuck k (code Iosched m).
Proof.
  destruct m; simpl; try done.
  - split.
    + intros a s x s' H. repeat case_match; simplify_eq; done.
    + intros r. repeat case_match; simpl; try done.
  - case_match; [|done]. repeat case_match; try (simpl; by split); by apply stuck_push.
Qed.

(** A queue whose mutex the scheduler never releases. *)
Definition lost (k : nat) (e : evlist) (po : list cint) (c : config) : Prop :=
  cfg_ok false c ∧ owner (gs c) (MEvl k) = Some Iosched ∧ p_evlists (gs c) !! k = Some e ∧
  popped k (log (gs c)) = po ∧ stuck k (th c Iosched).

Lemma lost_goes k e po c s p c' :
  lost k e po c → cfg_ok false c' → off k (gs c) s → stuck k p →
  goes c Iosched s p = Some (Ok c') → lost k e po c'.
Proof.
  intros (_ & Ho & He & Hp & _) Hok (H1 & H2 & H3) Hs [= <-]. unfold lost. cbn [gs th].
  rewrite H1, H2, H3, fn_lookup_insert. done.
Qed.

Lemma lost_step k e po c l c' : lost k e po c → step l c = Some (Ok c') → lost k e po c'.
Proof.
  intros HL Hst. destruct (HL) as (Hok & Ho & He & Hp & Hs).
  assert (∀ l, adm_label (adm false) l) as Hadm by by intros [].
  pose proof (pool_step_ok false ltac:(done) l c _ Hok (Hadm l) Hst) as Hok'. simpl in Hok'.
  destruct l as [t a|t m].
  - destruct (decide (t = Iosched)) as [->|Hne].
    + simpl in Hst. unfold step_prog in Hst.
      destruct (th c Iosched) as [m|A' g q|A' g q|m q|m q|m q|m q|z]; simpl in Hs.
      * destruct m; try done; (eapply lost_goes; [done..|apply off_refl|apply stuck_code|exact Hst]).
      * destruct Hs as [Hf Hq]. destruct (g (gs c)) as [[x s']|] eqn:E; [|done]. eapply lost_goes; eauto.
      * destruct Hs as [Hf Hq]. destruct (g a (gs c)) as [[x s']|] eqn:E; [|done]. eapply lost_goes; eauto.
      * case_bool_decide; [done|]. destruct Hs as [->|Hs]; [by rewrite Ho in Hst|].
        destruct (owner (gs c) m) eqn:Hm; [done|]. eapply lost_goes; [done..| |done|done].
        split_and!; [done..|]. rewrite owner_set, decide_False; [done|congruence].
      * destruct Hs as [Hm Hs]. case_bool_decide; [|done]. eapply lost_goes; [done..| |done|done].
        split_and!; [done..|]. by rewrite owner_set, decide_False.
      * eapply (lost_goes _ _ _ c (set_waiters m [] (gs c)) q); [exact HL|exact Hok'|by split_and!|exact Hs|exact Hst].
      * done.
      * done.
    + pose proof (step_keeps _ _ _ _ _ Rl_refl (pre false) (G_refl) t a c c' Hok ltac:(done) Hst) as [HG _].
      destruct (g_same _ _ _ HG (MEvl k)) as (E1 & _ & E2); [congruence|].
      split_and!; [done| |by rewrite E1|by rewrite E2|].
      * destruct (g_owner _ _ _ HG (MEvl k)) as [->|[[? _]|[? _]]]; congruence.
      * simpl in Hst. unfold step_prog, goes in Hst. repeat case_match; simplify_eq; simpl;
          rewrite fn_lookup_insert_ne by done; done.
  - simpl in Hst. case_bool_decide; [|done]. injection Hst as <-. done.
Qed.

Lemma lost_run k e po ls c c' : lost k e po c → run ls c = Some (Ok c') → lost k e po c'.
Proof.
  revert c. induction ls as [|l ls IH]; intros c HL Hr; simpl in Hr.
  - by injection Hr as <-.
  - destruct (step l c) as [[c1|]|] eqn:E; [|done..]. eapply IH; [by eapply lost_step|done].
Qed.

(** A full queue is lost for good: when the scheduler finds the queue of a
    worker full, [push_evlist] returns without releasing the mutex, and from then
    on, in every run of the server, the scheduler holds it and nothing is taken
    from the queue any more. *)
Theorem overflow_blocks_queue c k e fd m a :
  cfg_ok false c → th c Iosched = (_ ← push_evlist k fd; mret m) →
  p_evlists (gs c) !! k = Some e → n_ev e = MAX_EVENT_QUEUE → owner (gs c) (MEvl k) = None →
  ∃ c1, run (replicate 3 (Do Iosched a)) c = Some (Ok c1) ∧ th c1 Iosched = mret m ∧
    ∀ ls c2, run ls c1 = Some (Ok c2) →
      owner (gs c2) (MEvl k) = Some Iosched ∧ p_evlists (gs c2) !! k = Some e ∧
      popped k (log (gs c2)) = popped k (log (gs c)).
Proof.
  intros Hok Hth He Hn Ho.
  assert (Iosched ∉ waiters (gs c) (MEvl k)) as Hw.
  { intros Hin. destruct Hok as [HI _]. by apply (inv_waitE _ _ HI) in Hin. }
  assert (∃ c1, run (replicate 3 (Do Iosched a)) c = Some (Ok c1) ∧ th c1 Iosched = mret m ∧
    gs c1 = set_log (log (gs c) ++ [EDrop k fd]) (set_owner (MEvl k) (Some Iosched) (gs c))) as (c1 & Hr & Hth1 & Hg).
  { cbn [replicate run]. cbn [step]. unfold step_prog at 1. rewrite Hth. cbn [push_evlist mbind prog_bind pbind MUTEX_LOCK].
    rewrite bool_decide_false, Ho by done. unfold goes at 1. cbv iota.
    unfold step_prog at 1. cbn [th gs]. rewrite fn_lookup_insert. cbn [pbind evl_get mbind prog_bind set_owner p_evlists].
    rewrite He. unfold goes at 1. cbv iota.
    unfold step_prog at 1. cbn [th gs]. rewrite fn_lookup_insert, Hn. simpl. eexists. split; [done|]. simpl.
    by rewrite fn_lookup_insert. }
  exists c1. split_and!; [done..|]. intros ls c2 Hr2.
  assert (lost k e (popped k (log (gs c))) c1) as HL.
  { split_and!.
    - eapply (pool_run_ok false _ _ c (Ok c1)); [done| |done]. apply Forall_forall. by intros [] _.
      Unshelve. all: done.
    - rewrite Hg. simpl. by rewrite fn_lookup_insert.
    - by rewrite Hg.
    - rewrite Hg. simpl. rewrite popped_app. apply app_nil_r.
    - by rewrite Hth1. }
  by destruct (lost_run _ _ _ _ _ _ HL Hr2) as (_ & ? & ? & ? & _).
Qed.
End reach.

(** ** Concrete runs

    On a 32-bit system with 1024 descriptors. *)
Module Runs.
#[local] Instance plat32 : Platform := ILP32 1024.
Definition boot_ok : boot := Boot (λ _, true) 5 6.
Definition c_init : config := Config pool_init (spawn threads_init).

Definition D (t : tid) (z : Z) : label := Do t (AInt z).
Definition many (n : nat) (t : tid) (z : Z) : list label := replicate n (D t z).

(** A client connects as descriptor 7; the poller reports its data and is about
    to poll again. *)
Definition connect : list label :=
  [D Listener 0; D Listener 3; D Listener 0; D Listener 0; D Listener 0; D Listener 5000;
   D Listener 0; D Listener 7] ++ many 11 Listener 0 ++
  many 5 Poller 0 ++ [Do Poller (AEvents [(EPOLLIN, 7)])] ++ many 10 Poller 0.
(** The scheduler gives the descriptor to worker 0. *)
Definition deal : list label := connect ++ many 12 Iosched 0.
(** The client has disconnected: the worker closes the descriptor. *)
Definition race : list label := deal ++ many 24 (Worker 0) 0 ++ [D Poller 0].
(** Worker 0 waits for work. *)
Definition idle : list label := many 5 (Worker 0) 0.

Definition at_run (ls : list label) : config :=
  match run ls c_init with Some (Ok c) => c | _ => c_init end.
Definition isSome {A} (o : option A) : bool := match o with Some _ => true | None => false end.
Definition runs_ok (ls : list label) : bool :=
  match run ls c_init with Some (Ok _) => true | _ => false end.

Lemma start_c_init : start 1 0 boot_ok = Ok c_init.
Proof.
  destruct (start 1 0 boot_ok) as [c|] eqn:E; [by rewrite (start_init _ _ _ _ E)|].
  exfalso. revert E. vm_compute. discriminate.
Qed.

Lemma at_run_run ls : runs_ok ls = true → run ls c_init = Some (Ok (at_run ls)).
Proof. unfold runs_ok, at_run. by destruct (run ls c_init) as [[c|]|]. Qed.

Lemma at_run_reachable ls : runs_ok ls = true → reachable (at_run ls).
Proof. intros. exists 1, 0, boot_ok, c_init, ls. split; [apply start_c_init|by apply at_run_run]. Qed.

Lemma poll_nothing c buf a r :
  th c Poller = (ret_poll ← epoll_wait 0; if ret_poll =? -1 then exit_ 1 else mret (P_for 0 ret_poll buf)) →
  step (Do Poller a) c = Some r →
  a = AInt (-1) ∧ ∃ c', r = Ok c' ∧ ∀ a', step (Do Poller a') c' = Some (Err (Exited 1)).
Proof.
  intros Hth. simpl. unfold step_prog. rewrite Hth. simpl. destruct a as [z|l]; simpl.
  - destruct (Z.eqb_spec z (-1)) as [->|]; [|done]. intros [= <-]. split; [done|].
    eexists. split; [done|]. intros a'. simpl. unfold step_prog. simpl. done.
  - done.
Qed.

(** A client that connects, sends and disconnects can bring the server down
    although no system call reports an error: if the worker closes the last
    descriptor after the poller has passed its test of [cur_open_files], the
    poller calls [epoll_wait] with room for 0 events, which can only fail, and
    the process exits. *)
Theorem poll_race_exits argc argv1 b c0 :
  start argc argv1 b = Ok c0 →
  ∃ ls c, Forall (λ l, ∀ t, l ≠ Do t (AInt (-1))) ls ∧ run ls c0 = Some (Ok c) ∧
    ∀ a r, step (Do Poller a) c = Some r →
      a = AInt (-1) ∧ ∃ c', r = Ok c' ∧ ∀ a', step (Do Poller a') c' = Some (Err (Exited 1)).
Proof.
  intros ->%start_init. exists race, (at_run race). split_and!.
  - apply Forall_forall. intros l Hl t ->. unfold race, deal, connect, many in Hl.
    rewrite !elem_of_app, !elem_of_replicate in Hl. set_solver.
  - apply at_run_run. vm_compute. reflexivity.
  - intros a r. apply (poll_nothing _ (Some MQ_INTERNAL :: Some 7 :: replicate 199 None)).
    vm_compute. reflexivity.
Qed.

(** *** Instances of the theorems *)
Lemma poll_race_exits_witness :
  ∃ ls c, Forall (λ l, ∀ t, l ≠ Do t (AInt (-1))) ls ∧ run ls c_init = Some (Ok c) ∧
    ∀ a r, step (Do Poller a) c = Some r →
      a = AInt (-1) ∧ ∃ c', r = Ok c' ∧ ∀ a', step (Do Poller a') c' = Some (Err (Exited 1)).
Proof. exact (poll_race_exits 1 0 boot_ok c_init start_c_init). Defined.

Definition queue0 (ls : list label) : evlist := default evlist_zero (p_evlists (gs (at_run ls)) !! 0%nat).

Lemma fifo_delivery_witness :
  pushed 0 (log (gs (at_run deal))) = popped 0 (log (gs (at_run deal))) ++ contents (queue0 deal).
Proof.
  apply (fifo_delivery (at_run deal) 0 (queue0 deal));
    [apply at_run_reachable; vm_compute; reflexivity|vm_compute; reflexivity..].
Defined.

Lemma pop_never_underflows_witness : ¬ In (EUnder 0) (log (gs (at_run race))).
Proof. apply pop_never_underflows, at_run_reachable. vm_compute. reflexivity. Defined.

Lemma no_lost_wakeup_witness :
  Worker 0 ∈ waiters (gs (at_run idle)) (MEvl 0) ∧
  pushed 0 (log (gs (at_run idle))) = popped 0 (log (gs (at_run idle))).
Proof.
  assert (Worker 0 ∈ waiters (gs (at_run idle)) (MEvl 0)) as Hw.
  { apply (bool_decide_unpack _). vm_compute. exact I. }
  split; [done|]. apply (no_lost_wakeup (at_run idle)); [|vm_compute; reflexivity|done|lia].
  apply at_run_reachable. vm_compute. reflexivity.
Defined.

Lemma open_files_counted_witness :
  cur_open_files (gs (at_run deal)) = Z.of_nat (length (interest (gs (at_run deal)))) ∧
  cur_open_files (gs (at_run deal)) = 1.
Proof.
  split; [|vm_compute; reflexivity].
  apply (open_files_counted (at_run deal)); [|vm_compute; reflexivity].
  apply at_run_reachable. vm_compute. reflexivity.
Defined.

Lemma round_robin_witness :
  let d := dealt (log (gs (at_run deal))) in
  d = [0%nat] ∧ (length (filter (λ x, x = 0%nat) d) ≤ length (filter (λ x, x = 1%nat) d) + 1)%nat.
Proof.
  split; [vm_compute; reflexivity|].
  apply (round_robin (at_run deal)); [|lia..]. apply at_run_reachable. vm_compute. reflexivity.
Defined.

Lemma calm_no_fault_witness :
  ∃ r, step (D Poller 0) (at_run connect) = Some r ∧ ((∃ c', r = Ok c') ∨ ∃ z, r = Err (Exited z)).
Proof.
  destruct (step (D Poller 0) (at_run connect)) as [r|] eqn:E.
  2: { assert (isSome (step (D Poller 0) (at_run connect)) = true) as Hb by (vm_compute; reflexivity).
       by rewrite E in Hb. }
  exists r. split; [reflexivity|].
  apply (calm_no_fault 1 0 boot_ok c_init connect (at_run connect) (D Poller 0)).
  - intros _. split; [reflexivity|vm_compute; congruence].
  - exact start_c_init.
  - unfold connect, many. rewrite !Forall_app. split_and!; try (apply Forall_replicate; by intros _).
    + by repeat constructor.
    + repeat constructor; by vm_compute.
  - apply at_run_run. vm_compute. reflexivity.
  - assert (forallb (λ e, i1_ev e <? MAX_EVENT_QUEUE) (p_evlists (gs (at_run connect))) = true) as HF
      by (vm_compute; reflexivity).
    intros k e He. rewrite forallb_forall in HF. apply Z.ltb_lt, HF, list_elem_of_In. by eapply list_elem_of_lookup_2.
  - by intros _.
  - exact E.
Defined.

Lemma listener_port_ignored_witness : saddr_s (gs c_init) = SockAddr 0 0 0.
Proof.
  apply (listener_port_ignored 2 8080 boot_ok). destruct (start 2 8080 boot_ok) as [c|] eqn:E.
  - by rewrite (start_init _ _ _ _ E).
  - exfalso. revert E. vm_compute. discriminate.
Defined.

Lemma worker_drains_witness :
  ∃ n c', run (replicate n (Do (Worker 0) (AInt 1))) (at_run deal) = Some (Ok c') ∧
    log (gs c') = log (gs (at_run deal)) ++ handled 0 [(Some 7, 7)] ∧ n_of (gs c') 0 = 0.
Proof.
  destruct (worker_drains (at_run deal) 0 (queue0 deal) [(Some 7, 7)]) as (n & c' & H1 & H2 & H3 & _).
  - vm_compute. reflexivity.
  - vm_compute. reflexivity.
  - vm_compute. reflexivity.
  - apply (bool_decide_unpack _). vm_compute. exact I.
  - vm_compute. reflexivity.
  - constructor; [|constructor]. exists 7, (FDLIST 7 0). split_and!; [done|vm_compute; reflexivity|done|].
    apply (bool_decide_unpack _). vm_compute. exact I.
  - vm_compute. congruence.
  - vm_compute. congruence.
  - vm_compute. congruence.
  - vm_compute. reflexivity.
  - exists n, c'. exact (conj H1 (conj H2 H3)).
Defined.

(** A queue from which [MAX_EVENT_QUEUE] descriptors were taken, with one more. *)
Definition c_end : config :=
  Config (set_evls [EVLIST 200 1 1 (replicate 200 (Some 7))] pool_init) (λ _, pop_evlist 0 ≫= λ _, mret W_end).

Lemma pop_past_end_witness : run (replicate 3 (D (Worker 0) 0)) c_end = Some (Err BadAccess).
Proof.
  apply (pop_past_end c_end 0 (EVLIST 200 1 1 (replicate 200 (Some 7))) (λ _, mret W_end) (AInt 0));
    [reflexivity|reflexivity|reflexivity|by intros ?%elem_of_nil|reflexivity|reflexivity|vm_compute; reflexivity].
Defined.

(** All queues full, and the scheduler has one more event. *)
Definition full_queue : evlist := EVLIST 0 200 200 (replicate 200 (Some 7)).
Definition full_log : list event := (λ j, EPush (j mod 4) (Some 7)) <$> seq 0 800.
Definition s_full : pool := set_log full_log (set_evls (replicate 4 full_queue) pool_init).
Definition after_push : mode := S_for 1 1 1 (replicate 201 (Some 7)).
Definition c_full : config :=
  Config s_full (λ t, match t with
                      | Iosched => _ ← push_evlist 0 (Some 7); mret after_push
                      | Listener => Ret L_accept
                      | Poller => Ret (P_top (replicate 201 None))
                      | Worker k => if decide (k < 4)%nat then Ret W_top else Ret Returned
                      end).

Lemma full_dealt j k : dealt full_log !! j = Some k → k = (j mod 4)%nat.
Proof.
  assert (dealt full_log = (λ j, (j mod 4)%nat) <$> seq 0 800) as ->.
  { unfold full_log. generalize (seq 0 800). intros l. induction l as [|x l IH]; [done|]. simpl. by f_equal. }
  rewrite list_lookup_fmap. destruct (seq 0 800 !! j) as [x|] eqn:E; [|done].
  apply lookup_seq in E as [-> _]. simpl. by intros [= <-].
Qed.

Lemma full_popped k : popped k full_log = [].
Proof.
  unfold full_log. generalize (seq 0 800). intros l. induction l as [|x l IH]; [done|]. done.
Qed.

Lemma full_evl k e : p_evlists s_full !! k = Some e → e = full_queue ∧ (k < 4)%nat.
Proof.
  intros He. split; [|exact (lookup_lt_Some _ _ _ He)].
  change (replicate 4 full_queue !! k = Some e) in He. by apply lookup_replicate in He as [-> _].
Qed.

Lemma full_fifo k : (k < 4)%nat → pushed k full_log = contents full_queue.
Proof. intros Hk. destruct k as [|[|[|[|k]]]]; [vm_compute; reflexivity..|lia]. Qed.

Lemma full_under k : EUnder k ∉ full_log.
Proof. unfold full_log. rewrite list_elem_of_fmap. by intros (j & ? & _). Qed.

Lemma s_full_inv : Inv false s_full.
Proof.
  constructor.
  - reflexivity.
  - vm_compute. reflexivity.
  - vm_compute. reflexivity.
  - vm_compute. congruence.
  - intros k e [-> _]%full_evl. constructor; vm_compute; try split; congruence.
  - intros k. change (popped k full_log `prefix_of` pushed k full_log). rewrite full_popped. apply prefix_nil.
  - intros k e [-> Hk]%full_evl _. constructor.
    + vm_compute. reflexivity.
    + change (pushed k full_log = popped k full_log ++ contents full_queue).
      by rewrite full_popped, full_fifo.
    + change (0 = Z.of_nat (length (popped k full_log))). by rewrite full_popped.
    + by intros ?%elem_of_nil.
  - intros _. constructor; [reflexivity|constructor|by intros ?%elem_of_nil].
  - by intros k t ?%elem_of_nil.
  - by intros t ?%elem_of_nil.
  - exact full_under.
  - exact full_dealt.
  - discriminate.
Qed.

Lemma c_full_ok : cfg_ok (Inv false) Rl G (adm false) (flt false) (pre false) c_full.
Proof.
  split; [apply s_full_inv|]. intros t.
  assert (free Iosched (dealt full_log) s_full) as Hfs by by split.
  assert (∀ t, t ≠ Iosched → free t [] s_full) as Hf by by split.
  assert (∀ t m, pre false t m s_full →
    good (Inv false) Rl G (adm false) (flt false) t (Ret m) (pre false t) s_full) as Hg.
  { intros t' m Hm. exact (g_next false ltac:(done) t' m _ Hm). }
  destruct t as [| | |k].
  - apply (Hg Listener L_accept). by apply Hf.
  - apply (Hg Poller (P_top (replicate 201 None))). split; [by apply Hf|vm_compute; reflexivity].
  - apply (g_bind false). eapply good_conseq; [apply (push_good false ltac:(done) 0 (Some 7) _ _ Hfs); [lia|vm_compute; reflexivity|done]|].
    intros r s [_ Hd]. apply (g_next false ltac:(done)). unfold pre, dealing, after_push. rewrite Hd by done.
    split_and!; [lia|vm_compute; congruence|vm_compute; reflexivity|vm_compute; reflexivity|lia|done].
  - cbn [th c_full]. case_decide; [|by apply (Hg (Worker k) Returned)].
    apply (Hg (Worker k) W_top). by split; [|apply Hf].
Qed.

Lemma overflow_blocks_queue_witness :
  ∃ c1, run (replicate 3 (D Iosched 0)) c_full = Some (Ok c1) ∧
    ∀ ls c2, run ls c1 = Some (Ok c2) →
      owner (gs c2) (MEvl 0) = Some Iosched ∧ popped 0 (log (gs c2)) = popped 0 full_log.
Proof.
  destruct (overflow_blocks_queue c_full 0 full_queue (Some 7) after_push (AInt 0) c_full_ok) as (c1 & H1 & _ & H2);
    [reflexivity..|].
  exists c1. split; [exact H1|]. intros ls c2 Hr. destruct (H2 ls c2 Hr) as (? & _ & ?). by split.
Defined.
End Runs.
