(* ===== verification/Arrays.v ===== *)
(** * Arrays on the stack, strings in them, and counted loops

    An array starts unset; reading an element that is unset or missing, and
    writing a missing one, is a fault.  A string in an array ends at the first
    NUL. *)

From stdpp Require Import base gmap list.
From Stdlib Require Import ZArith Lia.
From S2P Require Import Prelude.

Local Open Scope Z_scope.

(** ** Arrays and loops *)
Abbreviation arr := (list (option Z)) (only parsing).
Definition unset (n : nat) : arr := replicate n None.
Definition ints (l : list Z) : arr := Some <$> l.

Definition rd (a : arr) (i : Z) : res Z :=
  match (if 0 <=? i then mjoin (a !! Z.to_nat i) else None) with Some z => Ok z | None => Err BadAccess end.
Definition wr (a : arr) (i : Z) (z : Z) : res arr :=
  if (0 <=? i) && (i <? Z.of_nat (length a)) then Ok (<[Z.to_nat i := Some z]> a) else Err BadAccess.
(** Arrays of other elements, which are all set. *)
Definition rd_at {A} (a : list A) (i : Z) : res A :=
  match (if 0 <=? i then a !! Z.to_nat i else None) with Some x => Ok x | None => Err BadAccess end.
Definition wr_at {A} (a : list A) (i : Z) (x : A) : res (list A) :=
  if (0 <=? i) && (i <? Z.of_nat (length a)) then Ok (<[Z.to_nat i := x]> a) else Err BadAccess.
(** An [int] expression. *)
Definition ck (z : Z) : res Z := if int_ok z then Ok z else Err IntOverflow.

(** [for (k = from; k < from + n; k++)]. *)
Fixpoint for_ {A} (n : nat) (from : Z) (body : Z → A → res A) (a : A) : res A :=
  match n with
  | O => Ok a
  | S n => a ← body from a; for_ n (from + 1) body a
  end.
(** A loop over [l] that is left when something is found. *)
Fixpoint find_first {A} (l : list Z) (body : Z → res (option A)) : res (option A) :=
  match l with
  | [] => Ok None
  | i :: l => r ← body i; match r with Some x => Ok (Some x) | None => find_first l body end
  end.

(** A [char] from an [int]. *)
Definition schar (z : Z) : Z := (z + 128) mod 256 - 128.

(** ** Strings *)

(** The string at the start of an array. *)
Fixpoint c_string (a : arr) : res (list Z) :=
  match a with
  | Some c :: a => if c =? 0 then Ok [] else t ← c_string a; Ok (c :: t)
  | _ => Err BadAccess
  end.
(** The string [t] with its NUL written from index [i] on. *)
Definition wr_str (a : arr) (i : nat) (t : list Z) : res arr :=
  if decide (i + length t < length a)%nat
  then Ok (take i a ++ ints (t ++ [0]) ++ drop (i + length t + 1) a) else Err BadAccess.

(** [strcat] behind the string that starts at index [i]. *)
Definition strcat (a : arr) (i : nat) (t : list Z) : res arr :=
  s ← c_string (drop i a); wr_str a (i + length s) t.

(** ** Lemmas *)
Lemma rd_ints l i z : 0 ≤ i → l !! Z.to_nat i = Some z → rd (ints l) i = Ok z.
Proof.
  intros Hi Hl. unfold rd, ints. destruct (Z.leb_spec 0 i); [|lia]. by rewrite list_lookup_fmap, Hl.
Qed.

Lemma wr_ints l i z : 0 ≤ i < Z.of_nat (length l) → wr (ints l) i z = Ok (ints (<[Z.to_nat i := z]> l)).
Proof.
  intros Hi. unfold wr, ints. rewrite length_fmap.
  destruct (Z.leb_spec 0 i), (Z.ltb_spec i (Z.of_nat (length l))); try lia. simpl. by rewrite list_fmap_insert.
Qed.

Lemma rd_total l i : 0 ≤ i < Z.of_nat (length l) → rd (ints l) i = Ok (l !!! Z.to_nat i).
Proof. intros Hi. apply rd_ints; [lia|]. apply list_lookup_lookup_total_lt. lia. Qed.

Lemma schar_small z : -128 ≤ z < 128 → schar z = z.
Proof. intros. unfold schar. rewrite Z.mod_small by lia. lia. Qed.
Lemma rd_at_ok {A} (a : list A) i x : 0 ≤ i → a !! Z.to_nat i = Some x → rd_at a i = Ok x.
Proof. intros Hi Hx. unfold rd_at. by rewrite (proj2 (Z.leb_le 0 i)), Hx. Qed.
Lemma wr_at_ok {A} (a : list A) i x : 0 ≤ i < Z.of_nat (length a) → wr_at a i x = Ok (<[Z.to_nat i := x]> a).
Proof. intros Hi. unfold wr_at. by rewrite (proj2 (Z.leb_le 0 i)), (proj2 (Z.ltb_lt i _)) by lia. Qed.

Lemma ck_ok z : is_int z → ck z = Ok z.
Proof. intros. unfold ck. by rewrite int_ok_true. Qed.

Lemma for_inv {A} (n : nat) (from : Z) (body : Z → A → res A) (I : Z → A → Prop) a :
  I from a →
  (∀ k a, from ≤ k < from + Z.of_nat n → I k a → ∃ a', body k a = Ok a' ∧ I (k + 1) a') →
  ∃ a', for_ n from body a = Ok a' ∧ I (from + Z.of_nat n) a'.
Proof.
  revert from a. induction n as [|n IH]; intros from a Ha Hb.
  - exists a. by rewrite Z.add_0_r.
  - destruct (Hb from a) as (a1 & H1 & I1); [lia|done|].
    destruct (IH (from + 1) a1 I1) as (a2 & H2 & I2).
    { intros k a' Hk. apply Hb. lia. }
    exists a2. split; [simpl; by rewrite H1|].
    by replace (from + Z.of_nat (S n)) with (from + 1 + Z.of_nat n) by lia.
Qed.

Lemma find_first_ok {A} (l : list Z) (body : Z → res (option A)) (S : A → Prop) (N : Z → Prop) :
  (∀ i, i ∈ l → ∃ r, body i = Ok r ∧ match r with Some x => S x | None => N i end) →
  ∃ r, find_first l body = Ok r ∧ match r with Some x => S x | None => ∀ i, i ∈ l → N i end.
Proof.
  induction l as [|i l IH]; intros Hb; cbn [find_first].
  - exists None. split; [done|]. intros i Hi. by apply not_elem_of_nil in Hi.
  - destruct (Hb i) as (r & E & Hr); [set_solver|]. rewrite E. unfold mbind, res_bind.
    destruct r as [x|]; [by exists (Some x)|].
    destruct IH as (r & E' & Hr'); [intros j Hj; apply Hb; set_solver|]. exists r. split; [done|].
    destruct r; [done|]. intros j [->|Hj]%elem_of_cons; auto.
Qed.

(** A loop that computes a fold. *)
Lemma for_foldl {A B} (n : nat) (from : Z) (body : Z → A → res A) (emb : B → A) (f : B → Z → B) (I : B → Prop) b :
  I b → (∀ k b, from ≤ k < from + Z.of_nat n → I b → body k (emb b) = Ok (emb (f b k)) ∧ I (f b k)) →
  for_ n from body (emb b) = Ok (emb (foldl f b (seqZ from (Z.of_nat n)))) ∧
  I (foldl f b (seqZ from (Z.of_nat n))).
Proof.
  revert from b. induction n as [|n IH]; intros from b Hb H; [done|].
  rewrite (seqZ_cons from (Z.of_nat (S n))) by lia.
  replace (Z.succ from) with (from + 1) by lia. replace (Z.pred (Z.of_nat (S n))) with (Z.of_nat n) by lia. simpl.
  destruct (H from b) as [H1 H2]; [lia|done|]. rewrite H1. simpl.
  apply IH; [done|]. intros k b' Hk. apply H. lia.
Qed.

(** A loop that appends what it makes of each element of a list. *)
Lemma for_emit {A} (d : list A) (g : A → list Z) from body out :
  (∀ j x out, d !! j = Some x → body (from + Z.of_nat j) out = Ok (out ++ g x)) →
  for_ (length d) from body out = Ok (out ++ (d ≫= g)).
Proof.
  revert from out. induction d as [|x d IH]; intros from out Hb; cbn [length for_].
  { by rewrite app_nil_r. }
  pose proof (Hb 0%nat x out eq_refl) as H0. rewrite Z.add_0_r in H0. rewrite H0. cbn [mbind res_bind].
  rewrite (IH (from + 1)); [by rewrite bind_cons, (assoc_L (++))|].
  intros j y out' Hj. replace (from + 1 + Z.of_nat j) with (from + Z.of_nat (S j)) by lia. by apply Hb.
Qed.
Lemma for_add {A} n m from (body : Z → A → res A) a :
  for_ (n + m) from body a = a' ← for_ n from body a; for_ m (from + Z.of_nat n) body a'.
Proof.
  revert from a. induction n as [|n IH]; intros from a; cbn [Nat.add for_].
  { cbn [mbind res_bind]. by rewrite Z.add_0_r. }
  destruct (body from a) as [a1|]; cbn [mbind res_bind]; [|done]. rewrite IH.
  by replace (from + 1 + Z.of_nat n) with (from + Z.of_nat (S n)) by lia.
Qed.
(** Every step of a loop that returns has returned. *)
Lemma for_steps {A} n from (body : Z → A → res A) a r : for_ n from body a = Ok r →
  ∀ k, from ≤ k < from + Z.of_nat n → ∃ b c, body k b = Ok c.
Proof.
  revert from a. induction n as [|n IH]; intros from a Hr k Hk; [lia|]. cbn [for_] in Hr.
  destruct (body from a) as [a1|] eqn:E; [|done]. destruct (decide (k = from)) as [->|]; [by exists a, a1|].
  eapply (IH (from + 1)); [exact Hr|lia].
Qed.

(** The array starts with the string [t]. *)
Definition holds (a : arr) (t : list Z) : Prop := 0 ∉ t ∧ ∃ tl, a = ints t ++ Some 0 :: tl.

Lemma length_ints l : length (ints l) = length l.
Proof. apply length_fmap. Qed.
Lemma ints_app l k : ints (l ++ k) = ints l ++ ints k.
Proof. apply fmap_app. Qed.

Lemma c_string_ints t a : 0 ∉ t → c_string (ints t ++ Some 0 :: a) = Ok t.
Proof.
  induction t as [|x t IH]; [done|]. rewrite not_elem_of_cons. intros [Hx Ht].
  change (ints (x :: t) ++ Some 0 :: a) with (Some x :: (ints t ++ Some 0 :: a)). cbn [c_string].
  rewrite (proj2 (Z.eqb_neq x 0)) by done. by rewrite IH.
Qed.
Lemma holds_c_string a t : holds a t → c_string a = Ok t.
Proof. intros (Ht & tl & ->). by apply c_string_ints. Qed.
(** A string that no NUL ends. *)
Lemma c_string_open t n : 0 ∉ t → c_string (ints t ++ replicate n None) = Err BadAccess.
Proof.
  induction t as [|x t IH]; [by destruct n|]. rewrite not_elem_of_cons. intros [Hx Ht].
  change (ints (x :: t) ++ replicate n None) with (Some x :: (ints t ++ replicate n None)). cbn [c_string].
  rewrite (proj2 (Z.eqb_neq x 0)) by done. by rewrite IH.
Qed.

Lemma holds_drop a t i : holds a t → (i ≤ length t)%nat → holds (drop i a) (drop i t).
Proof.
  intros (Ht & tl & ->) Hi. split.
  - intros Hin. apply Ht. by eapply subseteq_drop.
  - exists tl. rewrite drop_app_le by by rewrite length_ints. unfold ints. by rewrite fmap_drop.
Qed.
Lemma holds_rd a t i : holds a t → (i < length t)%nat → rd a (Z.of_nat i) = Ok (t !!! i).
Proof.
  intros (_ & tl & ->) Hi. unfold rd. rewrite (proj2 (Z.leb_le 0 _)), Nat2Z.id by lia.
  rewrite lookup_app_l by by rewrite length_ints. unfold ints. rewrite list_lookup_fmap.
  by rewrite (list_lookup_lookup_total_lt t i Hi).
Qed.
(** Writing a NUL into it. *)
Lemma holds_trunc a t p :
  holds a t → (p < length t)%nat →
  ∃ a', wr a (Z.of_nat p) 0 = Ok a' ∧ holds a' (take p t) ∧ length a' = length a.
Proof.
  intros (Ht & tl & ->) Hp. eexists. unfold wr.
  rewrite (proj2 (Z.leb_le 0 _)), (proj2 (Z.ltb_lt _ _)) by (rewrite ?length_app, ?length_ints; lia).
  split; [done|]. rewrite Nat2Z.id, length_insert. split; [|done]. split.
  - intros Hin. apply Ht. by eapply subseteq_take.
  - rewrite insert_app_l by by rewrite length_ints. unfold ints.
    exists ((Some <$> drop (S p) t) ++ Some 0 :: tl).
    rewrite insert_take_drop by by rewrite length_fmap. by rewrite fmap_take, fmap_drop, <-(assoc_L (++)).
Qed.

Lemma wr_str_ok a i t :
  (i + length t < length a)%nat → wr_str a i t = Ok (take i a ++ ints t ++ Some 0 :: drop (i + length t + 1) a).
Proof. intros Hl. unfold wr_str. rewrite decide_True by done. by rewrite ints_app, <-(assoc_L (++)). Qed.

Lemma wr_str_length a i t a' : wr_str a i t = Ok a' → length a' = length a.
Proof.
  unfold wr_str. case_decide; [|done]. intros [= <-].
  rewrite !length_app, length_take, length_ints, length_app, length_drop. simpl. lia.
Qed.
Lemma holds_strcpy a t :
  0 ∉ t → (length t < length a)%nat → ∃ a', wr_str a 0 t = Ok a' ∧ holds a' t ∧ length a' = length a.
Proof.
  intros Ht Hl. pose proof (wr_str_ok a 0 t ltac:(lia)) as E. eexists. split; [exact E|].
  split; [|by eapply wr_str_length]. split; [done|]. by eexists.
Qed.
Lemma holds_strcat a t i x :
  holds a t → (i ≤ length t)%nat → 0 ∉ x → (length t + length x < length a)%nat →
  ∃ a', strcat a i x = Ok a' ∧ holds a' (t ++ x) ∧ length a' = length a.
Proof.
  intros Ha Hi Hx Hl. pose proof (holds_drop a t i Ha Hi) as Hd. unfold strcat.
  rewrite (holds_c_string _ _ Hd). destruct Ha as (Ht & tl & ->). unfold mbind, res_bind.
  rewrite length_drop. replace (i + (length t - i))%nat with (length t) by lia.
  pose proof (wr_str_ok (ints t ++ Some 0 :: tl) (length t) x Hl) as E. eexists. split; [exact E|].
  split; [|by eapply wr_str_length]. split; [set_solver|].
  eexists. rewrite ints_app, <-(assoc_L (++)). f_equal. rewrite take_app_le by by rewrite length_ints.
  by rewrite take_ge by by rewrite length_ints.
Qed.
