(* ===== verification/Rc4.v ===== *)
(** * RC4 and the FMS attack ([hacking_the_art_of_exploitation_booksrc/fms.c])

    The program encrypts with RC4 under an initialization vector that leaks one
    byte of the key, repeats the first steps of the key scheduling that only the
    vector determines, and tallies the key byte this predicts.  Arrays on the
    stack start unset, and reading an unset or missing element is a fault, as is
    [int] overflow.  What is printed is recorded line by line with the values
    printed, not character by character. *)

From stdpp Require Import base gmap list.
From Stdlib Require Import ZArith Lia.
From S2P Require Import Prelude PatMem PrefixCode ArraySearch Arrays.

Local Open Scope Z_scope.

(** ** RC4 *)
Definition N : Z := 256.

(** [seed = IV + key]. *)
Definition make_seed (IV key : arr) : res arr :=
  seed ← for_ 3 0 (λ k seed, x ← rd IV k; wr seed k x) (unset 16);
  for_ 13 0 (λ k seed, x ← rd key k; wr seed (k + 3) x) seed.

(** The arrays [S] and [K]. *)
Definition init_arrays (seed : arr) : res (arr * arr) :=
  for_ 256 0 (λ k SK,
    S ← wr (fst SK) k k; x ← rd seed (Z.rem k 16); K ← wr (snd SK) k x; Ok (S, K)) (unset 256, unset 256).

(** [t = S[i]; S[i] = S[j]; S[j] = t;] *)
Definition swap (S : arr) (i j : Z) : res arr :=
  t ← rd S i; x ← rd S j; S ← wr S i x; wr S j t.

(** The first [n] steps of the key scheduling. *)
Definition ksa (n : nat) (S K : arr) : res (arr * Z) :=
  for_ n 0 (λ i Sj,
    x ← rd (fst Sj) i; y ← rd K i; t ← ck (snd Sj + x + y);
    let j := Z.rem t 256 in
    S ← swap (fst Sj) i j; Ok (S, j)) (S, 0).

Definition RC4 (IV key : arr) : res Z :=
  seed ← make_seed IV key;
  SK ← init_arrays seed;
  Sj ← ksa 256 (fst SK) (snd SK);
  let S := fst Sj in
  let i := 0 in let j := 0 in
  let i := i + 1 in
  x ← rd S i; j ← ck (j + x);
  S ← swap S i j;
  x ← rd S i; y ← rd S j; t ← ck (x + y);
  let k := Z.rem t 256 in
  rd S k.

(** ** The attack

    What is printed before an early [exit] is not recorded. *)
Inductive out : Set :=
| OUsing (iv0 iv1 iv2 keystream : Z)
| OSteps (n : Z) | ODisturbed
| OAt (n j : Z) (s : Z)
| OPrediction (a keystream j s keybyte : Z)
| OTable (a : Z) | OCell (t count : Z) (star : bool) | ONewline
| OActual (key : list Z) | OProbably (a max_result : Z).

Definition key0 : list Z := [1; 2; 3; 4; 5; 66; 75; 123; 99; 100; 123; 43; 213].

(** [while (keybyte < 0) keybyte = keybyte + 256;] *)
Fixpoint adjust (fuel : nat) (keybyte : Z) : res Z :=
  match fuel with
  | O => Err OutOfFuel
  | S fuel => if keybyte <? 0 then adjust fuel (keybyte + 256) else Ok keybyte
  end.

(** One initialization vector: the tally and the output. *)
Definition attack_iv (A : Z) (key : arr) (x : Z) (st : arr * list out) : res (arr * list out) :=
  let '(results, o) := st in
  let IV := ints [A + 3; N - 1; x] in
  keystream ← RC4 IV key;
  let o := o ++ [OUsing (A + 3) (N - 1) x keystream; OSteps (A + 3)] in
  seed ← make_seed IV key;
  SK ← init_arrays seed;
  Sj ← ksa (Z.to_nat (A + 3)) (fst SK) (snd SK);
  let j := snd Sj in
  if j <? 2 then Ok (results, o ++ [ODisturbed])
  else
    known_S ← rd (fst Sj) (A + 3);
    d ← ck (keystream - j); d ← ck (d - known_S);
    keybyte ← adjust (S (Z.to_nat (- d))) d;
    r ← rd results keybyte; r ← ck (r + 1);
    results ← wr results keybyte r;
    Ok (results, o ++ [OAt (A + 3) j known_S; OPrediction A keystream j known_S keybyte]).

(** The most frequent prediction. *)
Definition find_max (results : arr) : res (Z * Z) :=
  for_ 256 0 (λ k m, r ← rd results k; Ok (if fst m <? r then (r, k) else m)) (0, -1).

Definition print_table (results : arr) (max_result : Z) (o : list out) : res (list out) :=
  for_ 32 0 (λ k o,
    o ← for_ 8 0 (λ i o,
      let t := k + i * 32 in
      r ← rd results t; Ok (o ++ [OCell t r (max_result =? t)])) o;
    Ok (o ++ [ONewline])) o.

(** [main]: the tally, the most frequent byte and the output. *)
Definition fms_main (argv1 : option (list Z)) : res (arr * Z * list out) :=
  match argv1 with
  | None => Err (Exited 0)
  | Some text =>
      let A := atoi text in
      if (12 <? A) || (A <? 0) then Err (Exited 0)
      else
        results ← for_ 256 0 (λ k r, wr r k 0) (unset 256);
        st ← for_ 256 0 (attack_iv A (ints key0)) (results, []);
        m ← find_max (fst st);
        o ← print_table (fst st) (snd m) (snd st ++ [OTable A]);
        Ok (fst st, snd m, o ++ [OActual key0; OProbably A (snd m)])
  end.
