(* ===== verification/Rc4Proofs.v ===== *)
(** * Properties of RC4 and of the FMS attack

    The array code is first shown to compute [kstep] and [swapL] on lists of
    bytes; the state [S] stays a permutation of 0..255, which keeps every index
    in range.  RC4 then equals a textbook definition on functions, the attack
    program runs to the end and tallies every vector it does not discard, and the
    prediction of a key byte is right under the conditions of Fluhrer, Mantin and
    Shamir. *)

From stdpp Require Import base gmap list.
From Stdlib Require Import ZArith Lia.
From S2P Require Import Prelude PatMem PrefixCode ArraySearch Rc4 Arrays.

Local Open Scope Z_scope.

Lemma seqZ_one x : seqZ x 1 = [x].
Proof. done. Qed.

(** ** The key scheduling on lists of bytes *)
Definition swapL (S : list Z) (i j : Z) : list Z :=
  <[Z.to_nat j := S !!! Z.to_nat i]> (<[Z.to_nat i := S !!! Z.to_nat j]> S).
Definition kstep (K : list Z) (st : list Z * Z) (i : Z) : list Z * Z :=
  let j := (snd st + fst st !!! Z.to_nat i + K !!! Z.to_nat i) mod 256 in
  (swapL (fst st) i j, j).
Definition S_init : list Z := seqZ 0 256.
(** The array [K] of a seed. *)
Definition K_of (seed : list Z) : list Z := (λ k, seed !!! Z.to_nat (k mod 16)) <$> seqZ 0 256.
Definition ksaL (n : nat) (K : list Z) : list Z * Z := foldl (kstep K) (S_init, 0) (seqZ 0 (Z.of_nat n)).

(** The type of the state: [S] is a permutation of the bytes, [j] is a byte. *)
Definition perm (S : list Z) : Prop := S ≡ₚ S_init.
Definition kst_ok (st : list Z * Z) : Prop := perm (fst st) ∧ is_byte (snd st).

Lemma perm_length S : perm S → Z.of_nat (length S) = 256.
Proof. intros ->%Permutation_length. unfold S_init. by rewrite length_seqZ. Qed.

Lemma perm_byte S i : perm S → 0 ≤ i < 256 → is_byte (S !!! Z.to_nat i).
Proof.
  intros Hp Hi. pose proof (perm_length S Hp).
  assert (S !!! Z.to_nat i ∈ S) as Hin.
  { apply list_elem_of_lookup. exists (Z.to_nat i). apply list_lookup_lookup_total_lt. lia. }
  revert Hin. generalize (S !!! Z.to_nat i). intros x Hin. unfold perm, S_init in Hp.
  rewrite Hp in Hin. apply elem_of_seqZ in Hin. unfold is_byte. lia.
Qed.

Lemma swapL_perm S i j : 0 ≤ i < Z.of_nat (length S) → 0 ≤ j < Z.of_nat (length S) → swapL S i j ≡ₚ S.
Proof.
  intros Hi Hj. unfold swapL.
  assert (∀ (a b : nat), (a < length S)%nat → (b < length S)%nat →
    <[b := S !!! a]> (<[a := S !!! b]> S) ≡ₚ S) as H; [|apply H; lia].
  clear i j Hi Hj. intros a b Ha Hb. apply Permutation_inj.
  split; [by rewrite !length_insert|].
  exists (λ i, if decide (i = a) then b else if decide (i = b) then a else i). split.
  - intros x y. repeat case_decide; congruence.
  - intros i. destruct (decide (i = b)) as [->|Hib].
    + rewrite list_lookup_insert_eq by (by rewrite length_insert).
      repeat case_decide; subst; by rewrite list_lookup_lookup_total_lt.
    + rewrite list_lookup_insert_ne by done. destruct (decide (i = a)) as [->|Hia].
      * rewrite list_lookup_insert_eq by done. by rewrite list_lookup_lookup_total_lt.
      * by rewrite list_lookup_insert_ne.
Qed.

Lemma swap_ints S i j :
  0 ≤ i < Z.of_nat (length S) → 0 ≤ j < Z.of_nat (length S) → swap (ints S) i j = Ok (ints (swapL S i j)).
Proof.
  intros Hi Hj. unfold swap. rewrite !rd_total by done. simpl. rewrite wr_ints by done. simpl.
  apply wr_ints. by rewrite length_insert.
Qed.

Lemma kstep_ok K st i : 0 ≤ i < 256 → kst_ok st → kst_ok (kstep K st i).
Proof.
  intros Hi [Hp Hj]. pose proof (perm_length _ Hp) as Hl.
  assert (∀ z, is_byte (z mod 256)) as Hb by (intros z; unfold is_byte; pose proof (Z.mod_pos_bound z 256); lia).
  split; simpl; [|apply Hb]. unfold perm. rewrite swapL_perm; [done|lia|].
  rewrite Hl. apply Hb.
Qed.

Definition bytes (l : list Z) : Prop := Forall is_byte l.

Lemma bytes_total l (i : nat) : bytes l → (i < length l)%nat → is_byte (l !!! i).
Proof. intros Hb Hi. eapply (Forall_lookup_1 _ _ _ _ Hb). by apply list_lookup_lookup_total_lt. Qed.

(** The array code computes [ksaL]. *)
Lemma ksa_pure n K :
  bytes K → length K = 256%nat → (n ≤ 256)%nat →
  ksa n (ints S_init) (ints K) = Ok (ints (fst (ksaL n K)), snd (ksaL n K)) ∧ kst_ok (ksaL n K).
Proof.
  intros HK Hl Hn. unfold ksa, ksaL.
  apply (for_foldl n 0 _ (λ st : list Z * Z, (ints (fst st), snd st)) (kstep K) kst_ok (S_init, 0)).
  - split; [apply Permutation_refl|]. unfold is_byte. simpl. lia.
  - intros k [S j] Hk [Hp Hj]. simpl in Hp, Hj. pose proof (perm_length _ Hp) as HS.
    split; [|apply kstep_ok; [lia|done]]. simpl.
    assert (is_byte (S !!! Z.to_nat k)) as Hx by (apply perm_byte; [done|lia]).
    assert (is_byte (K !!! Z.to_nat k)) as Hy by (apply bytes_total; [done|lia]).
    unfold is_byte in *. rewrite !rd_total by lia. simpl. rewrite ck_ok by (unfold is_int, INT_MIN, INT_MAX; lia). simpl.
    rewrite Z.rem_mod_nonneg by lia.
    pose proof (Z.mod_pos_bound (j + S !!! Z.to_nat k + K !!! Z.to_nat k) 256).
    rewrite swap_ints by lia. done.
Qed.

(** ** The seed and the initial arrays *)
Lemma make_seed_ok iv key :
  length iv = 3%nat → length key = 13%nat → make_seed (ints iv) (ints key) = Ok (ints (iv ++ key)).
Proof.
  intros Hiv Hk. do 3 (destruct iv as [|? iv]; [done|]). destruct iv; [|done].
  do 13 (destruct key as [|? key]; [done|]). destruct key; [|done]. reflexivity.
Qed.

(** Filling an array front to back. *)
Definition filled (f : Z → Z) (k : Z) : list (option Z) :=
  (Some ∘ f <$> seqZ 0 k) ++ replicate (Z.to_nat (256 - k)) None.

Lemma filled_length f k : 0 ≤ k ≤ 256 → length (filled f k) = 256%nat.
Proof. intros. unfold filled. rewrite length_app, length_fmap, length_seqZ, length_replicate. lia. Qed.

Lemma wr_filled f k : 0 ≤ k < 256 → wr (filled f k) k (f k) = Ok (filled f (k + 1)).
Proof.
  intros Hk. unfold wr. rewrite filled_length by lia.
  destruct (Z.leb_spec 0 k), (Z.ltb_spec k (Z.of_nat 256)); try lia. simpl. f_equal.
  unfold filled. replace (Z.to_nat (256 - k)) with (S (Z.to_nat (256 - (k + 1)))) by lia. simpl replicate.
  rewrite insert_app_r_alt by (rewrite length_fmap, length_seqZ; lia).
  rewrite length_fmap, length_seqZ, Nat.sub_diag. simpl.
  rewrite seqZ_app by lia. rewrite fmap_app, <-app_assoc. done.
Qed.

Lemma filled_full f : filled f 256 = ints (f <$> seqZ 0 256).
Proof. unfold filled, ints. rewrite <-list_fmap_compose. simpl replicate. by rewrite app_nil_r. Qed.

Lemma init_arrays_ok seed :
  length seed = 16%nat → init_arrays (ints seed) = Ok (ints S_init, ints (K_of seed)).
Proof.
  intros Hs. unfold init_arrays.
  destruct (for_inv 256 0 (λ k SK,
    S ← wr (fst SK) k k; x ← rd (ints seed) (Z.rem k 16); K ← wr (snd SK) k x; Ok (S, K))
    (λ k SK, SK = (filled id k, filled (λ k, seed !!! Z.to_nat (k mod 16)) k)) (unset 256, unset 256)) as (SK & H & ->).
  - done.
  - intros k SK Hk ->. simpl fst. simpl snd. eexists. split; [|done].
    rewrite (wr_filled id) by lia. simpl. rewrite Z.rem_mod_nonneg by lia.
    pose proof (Z.mod_pos_bound k 16). rewrite rd_total by lia. simpl.
    rewrite (wr_filled (λ k, seed !!! Z.to_nat (k mod 16))) by lia. done.
  - rewrite H. simpl (0 + _). rewrite !filled_full. unfold S_init. by rewrite list_fmap_id.
Qed.

Lemma K_of_length seed : length (K_of seed) = 256%nat.
Proof. unfold K_of. by rewrite length_fmap, length_seqZ. Qed.

Lemma K_of_lookup seed i : 0 ≤ i < 256 → K_of seed !!! Z.to_nat i = seed !!! Z.to_nat (i mod 16).
Proof.
  intros Hi. apply list_lookup_total_correct. unfold K_of. rewrite list_lookup_fmap.
  rewrite lookup_seqZ_lt by lia. simpl. by rewrite Z2Nat.id by lia.
Qed.

Lemma K_of_bytes seed : bytes seed → length seed = 16%nat → bytes (K_of seed).
Proof.
  intros Hb Hl. apply Forall_fmap, Forall_seqZ. intros k Hk. simpl.
  apply bytes_total; [done|]. pose proof (Z.mod_pos_bound k 16). lia.
Qed.

(** The key scheduling of a vector and a key. *)
Definition sched (n : nat) (iv key : list Z) : list Z * Z := ksaL n (K_of (iv ++ key)).

Section seeded.
Context (iv key : list Z) (Hiv : length iv = 3%nat) (Hkey : length key = 13%nat).
Context (Biv : bytes iv) (Bkey : bytes key).

Lemma seed_ok : length (iv ++ key) = 16%nat ∧ bytes (iv ++ key).
Proof. split; [rewrite length_app; lia|by apply Forall_app]. Qed.

Lemma sched_ok n :
  (n ≤ 256)%nat →
  ksa n (ints S_init) (ints (K_of (iv ++ key))) = Ok (ints (fst (sched n iv key)), snd (sched n iv key)) ∧
  kst_ok (sched n iv key).
Proof.
  intros Hn. destruct seed_ok. apply ksa_pure; [by apply K_of_bytes|apply K_of_length|done].
Qed.

(** C24. The key scheduling keeps its state a permutation: after any number of
    steps on byte inputs, the array [S] holds each of the values 0..255 exactly
    once and [j] is a byte; no access is out of range and nothing overflows. *)
Theorem ksa_permutation n :
  (n ≤ 256)%nat →
  ∃ seed SK S j, make_seed (ints iv) (ints key) = Ok seed ∧ init_arrays seed = Ok SK ∧
    ksa n (fst SK) (snd SK) = Ok (ints S, j) ∧ S ≡ₚ seqZ 0 256 ∧ is_byte j.
Proof.
  intros Hn. destruct seed_ok as [Hl _]. destruct (sched_ok n Hn) as [H [Hp Hj]].
  exists (ints (iv ++ key)), (ints S_init, ints (K_of (iv ++ key))), (fst (sched n iv key)), (snd (sched n iv key)).
  split_and!; [by apply make_seed_ok|by apply init_arrays_ok|exact H|exact Hp|exact Hj].
Qed.

(** The first output byte from the scheduled array. *)
Definition first_byte (S : list Z) : Z :=
  let j := S !!! 1%nat in
  let S' := swapL S 1 j in
  S' !!! Z.to_nat ((S' !!! 1%nat + S' !!! Z.to_nat j) mod 256).

Lemma RC4_pure : RC4 (ints iv) (ints key) = Ok (first_byte (fst (sched 256 iv key))) ∧
  is_byte (first_byte (fst (sched 256 iv key))).
Proof.
  destruct seed_ok as [Hl _]. destruct (sched_ok 256) as [H [Hp Hj]]; [lia|].
  unfold RC4. rewrite make_seed_ok by done. simpl mbind. unfold mbind, res_bind.
  rewrite init_arrays_ok by done. cbn [fst snd]. rewrite H. cbn [fst snd].
  set (S := fst (sched 256 iv key)) in *. pose proof (perm_length S Hp) as HS.
  pose proof (perm_byte S 1 Hp ltac:(lia)) as H1. change (Z.to_nat 1) with 1%nat in H1.
  rewrite (rd_total S (0 + 1)) by lia. change (Z.to_nat (0 + 1)) with 1%nat.
  unfold is_byte in H1. rewrite Z.add_0_l, ck_ok by (unfold is_int, INT_MIN, INT_MAX; lia).
  rewrite swap_ints by lia. unfold first_byte. set (S' := swapL S 1 (S !!! 1%nat)).
  assert (perm S') as Hp'. { unfold perm, S'. rewrite swapL_perm by lia. done. }
  pose proof (perm_length S' Hp') as HS'.
  pose proof (perm_byte S' 1 Hp' ltac:(lia)) as Hb1. change (Z.to_nat 1) with 1%nat in Hb1.
  pose proof (perm_byte S' (S !!! 1%nat) Hp' H1) as Hb2.
  change (swapL S (0 + 1) (S !!! 1%nat)) with S'.
  rewrite (rd_total S' (0 + 1)), (rd_total S' (S !!! 1%nat)) by lia. change (Z.to_nat (0 + 1)) with 1%nat.
  unfold is_byte in Hb1, Hb2. rewrite ck_ok by (unfold is_int, INT_MIN, INT_MAX; lia).
  rewrite Z.rem_mod_nonneg by lia.
  set (t := S' !!! 1%nat + _). pose proof (Z.mod_pos_bound t 256). rewrite rd_total by lia.
  split; [done|]. apply perm_byte; [done|lia].
Qed.
End seeded.

(** ** Textbook RC4

    The state is a function on 0..255; all arithmetic is modulo 256. *)
Definition fswap (f : Z → Z) (i j : Z) : Z → Z :=
  λ x, if x =? i then f j else if x =? j then f i else f x.
Definition ref_ksa (key : Z → Z) (n : nat) : (Z → Z) * Z :=
  foldl (λ st i, let j := (snd st + fst st i + key i) mod 256 in (fswap (fst st) i j, j))
    (λ x, x, 0) (seqZ 0 (Z.of_nat n)).
(** The first byte of the key stream. *)
Definition ref_rc4 (key : Z → Z) : Z :=
  let f := fst (ref_ksa key 256) in
  let i := 1 mod 256 in
  let j := (0 + f i) mod 256 in
  let f := fswap f i j in
  f ((f i + f j) mod 256).

Definition rep (S : list Z) (f : Z → Z) : Prop := ∀ x, 0 ≤ x < 256 → S !!! Z.to_nat x = f x.

Lemma swapL_lookup S i j x :
  0 ≤ i < Z.of_nat (length S) → 0 ≤ j < Z.of_nat (length S) → 0 ≤ x →
  swapL S i j !!! Z.to_nat x = if x =? i then S !!! Z.to_nat j else if x =? j then S !!! Z.to_nat i else S !!! Z.to_nat x.
Proof.
  intros Hi Hj Hx. unfold swapL.
  destruct (Z.eqb_spec x j) as [->|Hxj].
  - rewrite list_lookup_total_insert_eq by (rewrite length_insert; lia).
    destruct (Z.eqb_spec j i) as [->|]; done.
  - rewrite list_lookup_total_insert_ne by lia. destruct (Z.eqb_spec x i) as [->|].
    + by rewrite list_lookup_total_insert_eq by lia.
    + by rewrite list_lookup_total_insert_ne by lia.
Qed.

Lemma rep_swap S f i j : perm S → rep S f → 0 ≤ i < 256 → 0 ≤ j < 256 → rep (swapL S i j) (fswap f i j).
Proof.
  intros Hp Hr Hi Hj x Hx. pose proof (perm_length S Hp). rewrite swapL_lookup by lia.
  unfold fswap. rewrite !Hr by done. done.
Qed.

Lemma ksaL_ref K key n :
  (∀ i, 0 ≤ i < 256 → K !!! Z.to_nat i = key i) → (n ≤ 256)%nat →
  rep (fst (ksaL n K)) (fst (ref_ksa key n)) ∧ snd (ksaL n K) = snd (ref_ksa key n) ∧ kst_ok (ksaL n K).
Proof.
  intros HK Hn. unfold ksaL, ref_ksa. induction n as [|n IH].
  - simpl. split_and!; [|done|split; [apply Permutation_refl|by vm_compute]]. intros x Hx.
    apply list_lookup_total_correct. unfold S_init. rewrite lookup_seqZ_lt by lia. f_equal. lia.
  - destruct IH as (H1 & H2 & H3); [lia|].
    replace (Z.of_nat (S n)) with (Z.of_nat n + 1) by lia. rewrite seqZ_app, !foldl_app by lia. rewrite Z.add_0_l.
    rewrite seqZ_one. cbn [foldl].
    revert H1 H2 H3. generalize (foldl (kstep K) (S_init, 0) (seqZ 0 (Z.of_nat n))).
    generalize (foldl (λ st i, let j := (snd st + fst st i + key i) mod 256 in (fswap (fst st) i j, j)) (λ x, x, 0) (seqZ 0 (Z.of_nat n))).
    intros [f j] [S j'] Hr Hj Hok. simpl in Hr, Hj. subst j'.
    split_and!; [| |apply kstep_ok; [lia|done]]; simpl; rewrite Hr, HK by lia; [|done].
    apply rep_swap; [apply Hok|done|lia|]. apply Z.mod_pos_bound. lia.
Qed.

(** C7. The function [RC4] is the cipher: on a 3-byte vector and a 13-byte key it
    returns the first key stream byte of textbook RC4 under the 16-byte key made
    of both. *)
Theorem rc4_textbook iv key :
  length iv = 3%nat → length key = 13%nat → bytes iv → bytes key →
  RC4 (ints iv) (ints key) = Ok (ref_rc4 (λ i, (iv ++ key) !!! Z.to_nat (i mod 16))).
Proof.
  intros Hiv Hk Biv Bk. destruct (RC4_pure iv key Hiv Hk Biv Bk) as [-> _]. f_equal.
  unfold sched. set (kf := λ i, _). destruct (ksaL_ref (K_of (iv ++ key)) kf 256) as (Hr & _ & [Hp _]); [|lia|].
  { intros i Hi. by apply K_of_lookup. }
  unfold ref_rc4, first_byte. revert Hr Hp. generalize (fst (ksaL 256 (K_of (iv ++ key)))), (fst (ref_ksa kf 256)).
  intros S f Hr Hp. pose proof (perm_byte S 1 Hp ltac:(lia)) as Hj. change (Z.to_nat 1) with 1%nat in Hj.
  change (1 mod 256) with 1. rewrite <-(Hr 1) by lia. change (Z.to_nat 1) with 1%nat.
  rewrite Z.add_0_l. rewrite (Z.mod_small (S !!! 1%nat)) by apply Hj.
  pose proof (rep_swap S f 1 (S !!! 1%nat) Hp Hr ltac:(lia) Hj) as Hs.
  rewrite <-(Hs 1), <-(Hs (S !!! 1%nat)) by (done || apply Hj). change (Z.to_nat 1) with 1%nat.
  apply Hs. apply Z.mod_pos_bound. lia.
Qed.

(** ** The tally *)
Lemma adjust_ok fuel d : - 256 * Z.of_nat fuel ≤ d → d < 256 → adjust (S fuel) d = Ok (d mod 256).
Proof.
  revert d. induction fuel as [|fuel IH]; intros d H1 H2; cbn [adjust].
  - destruct (Z.ltb_spec d 0); [lia|]. by rewrite Z.mod_small by lia.
  - destruct (Z.ltb_spec d 0).
    + rewrite <-(Z.mod_add d 1 256) by lia. rewrite Z.mul_1_l. apply IH; lia.
    + by rewrite Z.mod_small by lia.
Qed.

(** What one vector adds to the tally: nothing, or one to the predicted byte. *)
Definition prediction (A : Z) (key : list Z) (x : Z) : option Z :=
  let iv := [A + 3; 255; x] in
  let st := sched (Z.to_nat (A + 3)) iv key in
  if snd st <? 2 then None
  else Some ((first_byte (fst (sched 256 iv key)) - snd st - fst st !!! Z.to_nat (A + 3)) mod 256).
Definition tally1 (A : Z) (key : list Z) (r : list Z) (x : Z) : list Z :=
  match prediction A key x with Some b => <[Z.to_nat b := r !!! Z.to_nat b + 1]> r | None => r end.

Lemma attack_iv_ok A key x r o :
  0 ≤ A ≤ 12 → length key = 13%nat → bytes key → is_byte x →
  length r = 256%nat → Forall (λ c, 0 ≤ c < INT_MAX) r →
  ∃ o', attack_iv A (ints key) x (ints r, o) = Ok (ints (tally1 A key r x), o').
Proof.
  intros HA Hk Bk Hx Hr Hc. unfold attack_iv, tally1, prediction, N. change (256 - 1) with 255.
  assert (bytes [A + 3; 255; x]) as Biv by (repeat constructor; unfold is_byte in *; lia).
  destruct (RC4_pure [A + 3; 255; x] key eq_refl Hk Biv Bk) as [-> Hb].
  destruct (sched_ok [A + 3; 255; x] key eq_refl Hk Biv Bk (Z.to_nat (A + 3))) as [Hs [Hp Hj]]; [lia|].
  set (ks := first_byte _) in *. clearbody ks. unfold mbind, res_bind. rewrite make_seed_ok by done.
  rewrite init_arrays_ok by (rewrite length_app; simpl; lia). cbn [fst snd]. rewrite Hs. cbn [fst snd].
  set (st := sched _ _ _) in *. clearbody st. destruct (Z.ltb_spec (snd st) 2); [by eexists|].
  pose proof (perm_length _ Hp) as Hl. rewrite rd_total by lia.
  pose proof (perm_byte (fst st) (A + 3) Hp ltac:(lia)) as HS. unfold is_byte in *.
  rewrite ck_ok by (unfold is_int, INT_MIN, INT_MAX; lia).
  rewrite ck_ok by (unfold is_int, INT_MIN, INT_MAX; lia).
  set (d := ks - snd st - fst st !!! Z.to_nat (A + 3)).
  rewrite adjust_ok by lia. pose proof (Z.mod_pos_bound d 256).
  rewrite rd_total by lia. assert (0 ≤ r !!! Z.to_nat (d mod 256) < INT_MAX) as Hc'.
  { eapply (Forall_lookup_1 _ _ _ _ Hc). apply list_lookup_lookup_total_lt. lia. }
  rewrite ck_ok by (unfold is_int, INT_MIN; lia). rewrite wr_ints by lia. by eexists.
Qed.

Definition sumZ : list Z → Z := foldr Z.add 0.

Lemma sumZ_insert l (i : nat) z : (i < length l)%nat → sumZ (<[i := z]> l) = sumZ l - l !!! i + z.
Proof.
  revert i. induction l as [|x l IH]; intros i Hi; [simpl in Hi; lia|].
  destruct i as [|i]; simpl in *; [lia|]. rewrite IH by lia. lia.
Qed.

(** The tally of the vectors [0 .. n-1]. *)
Definition tally (A : Z) (key : list Z) (n : nat) : list Z :=
  foldl (tally1 A key) (replicate 256 0) (seqZ 0 (Z.of_nat n)).
Definition kept (A : Z) (key : list Z) (n : nat) : list Z := omap (prediction A key) (seqZ 0 (Z.of_nat n)).

Lemma prediction_byte A key x b : prediction A key x = Some b → is_byte b.
Proof.
  unfold prediction. generalize (sched (Z.to_nat (A + 3)) [A + 3; 255; x] key), (sched 256 [A + 3; 255; x] key).
  intros st st'. cbv zeta. destruct (_ <? 2); [done|]. intros [= <-]. unfold is_byte. apply Z.mod_pos_bound. lia.
Qed.

Lemma kept_bytes A key n b : b ∈ kept A key n → is_byte b.
Proof. intros (x & _ & Hx)%list_elem_of_omap. by eapply prediction_byte. Qed.

(** The tally counts the predictions. *)
Lemma tally_counts A key n :
  length (tally A key n) = 256%nat ∧
  (∀ b, is_byte b → tally A key n !!! Z.to_nat b = Z.of_nat (length (filter (λ x, x = b) (kept A key n)))) ∧
  sumZ (tally A key n) = Z.of_nat (length (kept A key n)).
Proof.
  induction n as [|n (H1 & H2 & H3)].
  - split_and!; [reflexivity| |reflexivity]. intros b Hb. unfold is_byte in Hb.
    change (tally A key 0) with (replicate 256 0). by rewrite lookup_total_replicate_2 by lia.
  - assert (tally A key (S n) = tally1 A key (tally A key n) (Z.of_nat n)) as ->.
    { unfold tally. replace (Z.of_nat (S n)) with (Z.of_nat n + 1) by lia.
      rewrite seqZ_app, foldl_app, Z.add_0_l, seqZ_one by lia. done. }
    assert (kept A key (S n) = kept A key n ++ omap (prediction A key) [Z.of_nat n]) as ->.
    { unfold kept. replace (Z.of_nat (S n)) with (Z.of_nat n + 1) by lia.
      rewrite seqZ_app, omap_app, Z.add_0_l, seqZ_one by lia. done. }
    unfold tally1. cbn [omap list_omap]. destruct (prediction A key (Z.of_nat n)) as [b|] eqn:E.
    + apply prediction_byte in E. unfold is_byte in *. rewrite length_insert, sumZ_insert, length_app by lia. simpl.
      split_and!; [done| |lia]. intros c Hc. rewrite filter_app, length_app, filter_cons, filter_nil.
      destruct (decide (b = c)) as [->|Hne]; simpl.
      * rewrite list_lookup_total_insert_eq, H2 by lia. lia.
      * rewrite list_lookup_total_insert_ne by lia. rewrite H2 by done. lia.
    + rewrite app_nil_r. done.
Qed.

Lemma omap_length_le {A B} (f : A → option B) l : (length (omap f l) ≤ length l)%nat.
Proof.
  induction l as [|x l IH]; [done|]. simpl. unfold omap in IH. destruct (f x); simpl; lia.
Qed.

Lemma tally_bound A key n : (n ≤ 256)%nat → Forall (λ c, 0 ≤ c < INT_MAX) (tally A key n).
Proof.
  intros Hn. destruct (tally_counts A key n) as (H1 & H2 & _). apply Forall_lookup. intros i c Hc.
  pose proof (lookup_lt_Some _ _ _ Hc) as Hi. apply list_lookup_total_correct in Hc. subst c.
  replace i with (Z.to_nat (Z.of_nat i)) by lia. rewrite H2 by (unfold is_byte; lia).
  pose proof (length_filter (λ x, x = Z.of_nat i) (kept A key n)) as Hf.
  pose proof (omap_length_le (prediction A key) (seqZ 0 (Z.of_nat n))) as Hk. fold (kept A key n) in Hk.
  rewrite length_seqZ in Hk. unfold INT_MAX. lia.
Qed.

Lemma attack_loop A key :
  0 ≤ A ≤ 12 → length key = 13%nat → bytes key →
  ∃ o, for_ 256 0 (attack_iv A (ints key)) (ints (replicate 256 0), []) = Ok (ints (tally A key 256), o).
Proof.
  intros HA Hk Bk.
  destruct (for_inv 256 0 (attack_iv A (ints key)) (λ x st, 0 ≤ x ∧ ∃ o, st = (ints (tally A key (Z.to_nat x)), o))
    (ints (replicate 256 0), [])) as (st & H & _ & o & ->).
  - split; [lia|]. by exists [].
  - intros x st Hx [_ [o ->]]. destruct (tally_counts A key (Z.to_nat x)) as (H1 & _).
    destruct (attack_iv_ok A key x (tally A key (Z.to_nat x)) o HA Hk Bk) as [o' Ho'];
      [unfold is_byte; lia|done|apply tally_bound; lia|].
    eexists. split; [exact Ho'|]. split; [lia|]. exists o'. do 2 f_equal.
    replace (Z.to_nat (x + 1)) with (S (Z.to_nat x)) by lia. unfold tally.
    replace (Z.of_nat (S (Z.to_nat x))) with (Z.of_nat (Z.to_nat x) + 1) by lia.
    rewrite seqZ_app, foldl_app, Z.add_0_l, seqZ_one by lia. simpl. by rewrite Z2Nat.id by lia.
  - exists o. exact H.
Qed.

(** [find_max] returns the first maximum, or -1 when the tally is empty. *)
Definition is_max (r : list Z) (n : Z) (m : Z * Z) : Prop :=
  (∀ k, 0 ≤ k < n → r !!! Z.to_nat k ≤ fst m) ∧
  (m = (0, -1) ∨ 0 ≤ snd m < n ∧ 0 < fst m ∧ r !!! Z.to_nat (snd m) = fst m).

Lemma find_max_ok r :
  length r = 256%nat → ∃ m, find_max (ints r) = Ok m ∧ is_max r 256 m.
Proof.
  intros Hr. unfold find_max.
  destruct (for_inv 256 0 (λ k (m : Z * Z), x ← rd (ints r) k; Ok (if fst m <? x then (x, k) else m))
    (λ k m, is_max r k m) (0, -1)) as (m & H & Hm).
  - split; [intros; lia|by left].
  - intros k m Hk [H1 H2]. rewrite rd_total by lia. simpl. eexists. split; [done|].
    destruct (Z.ltb_spec (fst m) (r !!! Z.to_nat k)) as [Hlt|Hge]; simpl.
    + assert (0 ≤ fst m) by (destruct H2 as [->|?]; simpl; lia).
      split; simpl; [|right; split_and!; lia]. intros k' Hk'.
      destruct (decide (k' = k)) as [->|]; [done|]. specialize (H1 k'). lia.
    + split.
      * intros k' Hk'. destruct (decide (k' = k)) as [->|]; [done|]. apply H1. lia.
      * destruct H2 as [->|(? & ? & ?)]; [by left|right]. split_and!; [lia..|done].
  - exists m. done.
Qed.

Lemma print_table_ok r m o : length r = 256%nat → ∃ o', print_table (ints r) m o = Ok o'.
Proof.
  intros Hr. unfold print_table.
  destruct (for_inv 32 0 (λ k o,
    o ← for_ 8 0 (λ i o, let t := k + i * 32 in x ← rd (ints r) t; Ok (o ++ [OCell t x (m =? t)])) o;
    Ok (o ++ [ONewline])) (λ _ _, True) o) as (o' & H & _); [done| |by exists o'].
  intros k o1 Hk _.
  destruct (for_inv 8 0 (λ i o, let t := k + i * 32 in x ← rd (ints r) t; Ok (o ++ [OCell t x (m =? t)]))
    (λ _ _, True) o1) as (o2 & H & _); [done| |rewrite H; simpl; by eexists].
  intros i o2 Hi _. cbv zeta. rewrite rd_total by lia. by eexists.
Qed.

Lemma zero_results : for_ 256 0 (λ k r, wr r k 0) (unset 256) = Ok (ints (replicate 256 0)).
Proof. vm_compute. reflexivity. Qed.

#[local] Opaque for_ tally kept find_max print_table attack_iv unset.
(** The attack program always runs to the end: for every key byte number it
    accepts, the loops terminate without a fault, entry [b] of the printed table
    is the number of vectors whose prediction is [b], the entries add up to the
    number of vectors that were not discarded, and the byte reported is the most
    frequent one (or -1 if every vector was discarded). *)
Theorem fms_main_completes text :
  0 ≤ atoi text ≤ 12 →
  ∃ r m o, fms_main (Some text) = Ok (ints r, m, o) ∧ length r = 256%nat ∧
    (∀ b, is_byte b → r !!! Z.to_nat b = Z.of_nat (length (filter (λ x, x = b) (kept (atoi text) key0 256)))) ∧
    sumZ r = Z.of_nat (length (kept (atoi text) key0 256)) ∧
    (m = -1 ∧ kept (atoi text) key0 256 = [] ∨
     is_byte m ∧ ∀ b, is_byte b → r !!! Z.to_nat b ≤ r !!! Z.to_nat m).
Proof.
  intros HA. set (A := atoi text) in *.
  destruct (tally_counts A key0 256) as (H1 & H2 & H3).
  destruct (attack_loop A key0) as [o Ho]; [done|done|by repeat constructor; vm_compute|].
  destruct (find_max_ok (tally A key0 256) H1) as ([c m] & Hm & Hmax & Hmm).
  destruct (print_table_ok (tally A key0 256) m (o ++ [OTable A]) H1) as [o' Ho'].
  exists (tally A key0 256), m, (o' ++ [OActual key0; OProbably A m]). split_and!; [|done..|].
  - unfold fms_main. fold A. destruct (Z.ltb_spec 12 A), (Z.ltb_spec A 0); try lia. cbn [orb].
    rewrite zero_results. unfold mbind, res_bind. rewrite Ho. cbn [fst snd]. rewrite Hm. cbn [fst snd]. by rewrite Ho'.
  - destruct Hmm as [[= -> ->]|(Hb & Hc & Hmc)].
    + left. split; [done|]. destruct (kept A key0 256) as [|b l] eqn:E; [done|exfalso].
      assert (is_byte b) as Hb.
      { apply (kept_bytes A key0 256). rewrite E. constructor. }
      specialize (Hmax b Hb). specialize (H2 b Hb). simpl in Hmax. rewrite filter_cons, decide_True in H2 by done.
      simpl in H2. lia.
    + right. split; [done|]. intros b Hb'. simpl in Hmc. rewrite Hmc. by apply Hmax.
Qed.

(** ** Why the attack works *)
Lemma ksaL_S n K : ksaL (S n) K = kstep K (ksaL n K) (Z.of_nat n).
Proof.
  unfold ksaL. replace (Z.of_nat (S n)) with (Z.of_nat n + 1) by lia.
  by rewrite seqZ_app, foldl_app, Z.add_0_l, seqZ_one by lia.
Qed.

Lemma recover j s k : 0 ≤ k < 256 → ((j + s + k) mod 256 - j - s) mod 256 = k.
Proof.
  intros Hk. rewrite (Z.mod_eq (j + s + k)) by lia.
  replace (j + s + k - 256 * ((j + s + k) / 256) - j - s) with (k + - ((j + s + k) / 256) * 256) by lia.
  rewrite Z.mod_add by lia. by apply Z.mod_small.
Qed.

Section fms.
Context (A x : Z) (key : list Z).
Context (HA : 0 ≤ A ≤ 12) (Hkey : length key = 13%nat) (Bkey : bytes key) (Hx : is_byte x).
Let iv : list Z := [A + 3; 255; x].
Let K : list Z := K_of (iv ++ key).

Lemma fms_K0 : K !!! 0%nat = A + 3 ∧ K !!! 1%nat = 255 ∧ K !!! Z.to_nat (A + 3) = key !!! Z.to_nat A.
Proof.
  unfold K. split_and!.
  - apply (K_of_lookup (iv ++ key) 0). lia.
  - apply (K_of_lookup (iv ++ key) 1). lia.
  - rewrite K_of_lookup, Z.mod_small by lia. replace (Z.to_nat (A + 3)) with (3 + Z.to_nat A)%nat by lia. done.
Qed.

Lemma fms_ok n : (n ≤ 256)%nat → kst_ok (ksaL n K).
Proof.
  intros Hn. apply (sched_ok iv key eq_refl Hkey); [|done|done]. repeat constructor; unfold is_byte in *; lia.
Qed.

(** What one step leaves alone. *)
Lemma kstep_keeps n i :
  (n < 256)%nat → 0 ≤ i < 256 → i ≠ Z.of_nat n → i ≠ snd (ksaL (S n) K) →
  fst (ksaL (S n) K) !!! Z.to_nat i = fst (ksaL n K) !!! Z.to_nat i.
Proof.
  intros Hn Hi Hne Hj. destruct (fms_ok n) as [Hp _]; [lia|]. pose proof (perm_length _ Hp) as Hl.
  rewrite ksaL_S in Hj |- *. unfold kstep in *. cbn [fst snd] in *.
  set (j := _ mod 256) in *. pose proof (Z.mod_pos_bound (snd (ksaL n K) + fst (ksaL n K) !!! Z.to_nat (Z.of_nat n) + K !!! Z.to_nat (Z.of_nat n)) 256) as Hb.
  fold j in Hb. rewrite swapL_lookup by lia.
  destruct (Z.eqb_spec i (Z.of_nat n)), (Z.eqb_spec i j); done.
Qed.

(** The first two steps do not depend on the key. *)
Lemma fms_two : fst (ksaL 2 K) !!! 0%nat = A + 3 ∧ fst (ksaL 2 K) !!! 1%nat = 0.
Proof.
  destruct fms_K0 as (K0 & K1 & _).
  assert (∀ i, 0 ≤ i < 256 → S_init !!! Z.to_nat i = i) as Hinit.
  { intros i Hi. apply list_lookup_total_correct. unfold S_init. rewrite lookup_seqZ_lt by lia. f_equal. lia. }
  assert (Z.of_nat (length S_init) = 256) as Hl by (unfold S_init; rewrite length_seqZ; lia).
  assert (ksaL 1 K = (swapL S_init 0 (A + 3), A + 3)) as E1.
  { rewrite ksaL_S. change (ksaL 0 K) with (S_init, 0). unfold kstep. cbn [fst snd].
    change (Z.to_nat (Z.of_nat 0)) with 0%nat. rewrite K0, (Hinit 0 ltac:(lia) : S_init !!! 0%nat = 0).
    rewrite Z.mod_small by lia. done. }
  assert (∀ i, 0 ≤ i < 256 → swapL S_init 0 (A + 3) !!! Z.to_nat i =
    if i =? 0 then A + 3 else if i =? A + 3 then 0 else i) as L1.
  { intros i Hi. rewrite swapL_lookup by lia. rewrite !Hinit by lia. done. }
  rewrite ksaL_S, E1. unfold kstep. cbn [fst snd]. change (Z.to_nat (Z.of_nat 1)) with (Z.to_nat 1).
  rewrite (L1 1) by lia. destruct (Z.eqb_spec 1 0), (Z.eqb_spec 1 (A + 3)); try lia.
  change (Z.to_nat 1) with 1%nat. rewrite K1.
  assert ((A + 3 + 1 + 255) mod 256 = A + 3) as ->.
  { replace (A + 3 + 1 + 255) with (A + 3 + 1 * 256) by lia. rewrite Z.mod_add by lia. apply Z.mod_small. lia. }
  assert (Z.of_nat (length (swapL S_init 0 (A + 3))) = 256) as Hl' by (unfold swapL; rewrite !length_insert; lia).
  split.
  - rewrite (swapL_lookup _ (Z.of_nat 1) (A + 3) 0) by lia.
    destruct (Z.eqb_spec 0 (Z.of_nat 1)), (Z.eqb_spec 0 (A + 3)); try lia. by rewrite (L1 0) by lia.
  - rewrite (swapL_lookup _ (Z.of_nat 1) (A + 3) 1) by lia.
    destruct (Z.eqb_spec 1 (Z.of_nat 1)); [|lia]. rewrite (L1 (A + 3)) by lia.
    destruct (Z.eqb_spec (A + 3) 0), (Z.eqb_spec (A + 3) (A + 3)); lia.
Qed.

(** The vector's own positions stay as they are while [j] stays away. *)
Lemma fms_early n :
  (2 ≤ n)%nat → Z.of_nat n ≤ A + 3 → (∀ m, (3 ≤ m ≤ n)%nat → 2 ≤ snd (ksaL m K)) →
  fst (ksaL n K) !!! 0%nat = A + 3 ∧ fst (ksaL n K) !!! 1%nat = 0.
Proof.
  intros H2 Hn Hj. induction n as [|n IH]; [lia|].
  destruct (decide (n = 1%nat)) as [->|Hne]; [apply fms_two|].
  destruct IH as [I0 I1]; [lia|lia|intros; apply Hj; lia|]. specialize (Hj (S n) ltac:(lia)).
  rewrite <-I0, <-I1. split; [apply (kstep_keeps n 0)|apply (kstep_keeps n 1)]; lia.
Qed.

Lemma fms_late n i :
  A + 4 ≤ Z.of_nat n → (n ≤ 256)%nat → i ∈ [0; 1; A + 3] →
  (∀ m, A + 5 ≤ Z.of_nat m → (m ≤ n)%nat → snd (ksaL m K) ∉ [0; 1; A + 3]) →
  fst (ksaL n K) !!! Z.to_nat i = fst (ksaL (Z.to_nat (A + 4)) K) !!! Z.to_nat i.
Proof.
  intros Hn Hle Hi Hj. assert (0 ≤ i ≤ A + 3) as Hi' by (revert Hi; rewrite !elem_of_cons, elem_of_nil; lia).
  induction n as [|n IH]; [lia|].
  destruct (decide (Z.of_nat n = A + 3)) as [E|Hne]; [do 3 f_equal; lia|].
  rewrite <-IH by (lia || (intros; apply Hj; lia)).
  apply kstep_keeps; [lia..|]. intros ->. apply (Hj (S n)); [lia..|done].
Qed.

(** The prediction is right when [j] avoids the positions 0 and 1 before step
    [A+3], avoids 0, 1 and [A+3] after it, and [S] still has its initial value
    at the new [j]. *)
Lemma fms_predicts :
  (∀ n, 3 ≤ Z.of_nat n ≤ A + 3 → 2 ≤ snd (sched n iv key)) →
  fst (sched (Z.to_nat (A + 3)) iv key) !!! Z.to_nat (snd (sched (Z.to_nat (A + 4)) iv key)) =
    snd (sched (Z.to_nat (A + 4)) iv key) →
  (∀ n, A + 5 ≤ Z.of_nat n ≤ 256 → snd (sched n iv key) ∉ [0; 1; A + 3]) →
  prediction A key x = Some (key !!! Z.to_nat A).
Proof.
  unfold sched. fold K. intros Hearly Hmid Hlate. unfold prediction. fold iv. unfold sched. fold K.
  set (m := Z.to_nat (A + 3)) in *. replace (Z.to_nat (A + 4)) with (S m) in Hmid by lia.
  destruct (fms_early m) as [E0 E1]; [lia..|intros n Hn; apply Hearly; lia|].
  destruct (fms_ok m) as [Hp Hb]; [lia|]. pose proof (perm_length _ Hp) as Hl.
  specialize (Hearly m ltac:(lia)). destruct (Z.ltb_spec (snd (ksaL m K)) 2); [lia|].
  destruct fms_K0 as (_ & _ & KA). fold m in KA.
  set (st := ksaL m K) in *. set (j1 := snd (ksaL (S m) K)) in *.
  assert (j1 = (snd st + fst st !!! m + key !!! Z.to_nat A) mod 256) as Hj1.
  { unfold j1. rewrite ksaL_S. unfold kstep. cbn [snd]. rewrite Nat2Z.id, KA. done. }
  assert (0 ≤ j1 < 256) as Hj1b by (rewrite Hj1; apply Z.mod_pos_bound; lia).
  assert (2 ≤ j1) as Hj2.
  { destruct (decide (j1 = 0)) as [E|]; [rewrite E in Hmid; change (Z.to_nat 0) with 0%nat in Hmid; lia|].
    destruct (decide (j1 = 1)) as [E|]; [rewrite E in Hmid; change (Z.to_nat 1) with 1%nat in Hmid; lia|lia]. }
  assert (∀ i, i ∈ [0; 1; A + 3] → fst (ksaL 256 K) !!! Z.to_nat i = fst (ksaL (S m) K) !!! Z.to_nat i) as Hfin.
  { intros i Hi. rewrite (fms_late 256 i) by (lia || done || (intros; apply Hlate; lia)). do 3 f_equal. lia. }
  assert (fst (ksaL 256 K) !!! 0%nat = A + 3) as F0.
  { rewrite <-E0. change 0%nat with (Z.to_nat 0). rewrite Hfin by (rewrite !elem_of_cons; auto). apply (kstep_keeps m 0); lia. }
  assert (fst (ksaL 256 K) !!! 1%nat = 0) as F1.
  { rewrite <-E1. change 1%nat with (Z.to_nat 1). rewrite Hfin by (rewrite !elem_of_cons; auto). apply (kstep_keeps m 1); lia. }
  assert (fst (ksaL 256 K) !!! m = j1) as FA.
  { unfold m. rewrite Hfin by (rewrite !elem_of_cons; auto). fold m. rewrite ksaL_S. fold st.
    assert (snd (kstep K st (Z.of_nat m)) = j1) as Hk by (unfold j1; by rewrite ksaL_S).
    unfold kstep in Hk |- *. cbn [fst snd] in *. rewrite Hk, <-(Nat2Z.id m) at 1.
    rewrite swapL_lookup by lia. rewrite Z.eqb_refl. done. }
  destruct (fms_ok 256) as [Hpf _]; [lia|]. pose proof (perm_length _ Hpf) as Hlf.
  assert (first_byte (fst (ksaL 256 K)) = j1) as ->.
  { revert F0 F1 FA Hlf. generalize (fst (ksaL 256 K)). intros T F0 F1 FA Hlf. unfold first_byte. rewrite F1.
    assert (swapL T 1 0 !!! 1%nat = A + 3 ∧ swapL T 1 0 !!! 0%nat = 0 ∧ swapL T 1 0 !!! m = j1) as (G1 & G0 & Gm).
    { pose proof (swapL_lookup T 1 0) as L. split_and!.
      - change 1%nat with (Z.to_nat 1). rewrite (L 1) by lia. exact F0.
      - change 0%nat with (Z.to_nat 0). rewrite (L 0) by lia. exact F1.
      - unfold m. rewrite (L (A + 3)) by lia. destruct (Z.eqb_spec (A + 3) 1), (Z.eqb_spec (A + 3) 0); lia || done. }
    change (Z.to_nat 0) with 0%nat. rewrite G1, G0, Z.add_0_r, Z.mod_small by lia. done. }
  f_equal. rewrite Hj1. pose proof (bytes_total key (Z.to_nat A) Bkey ltac:(lia)) as Hkb. unfold is_byte in Hkb.
  apply recover. lia.
Qed.
End fms.

(** C22. The attack recovers the key: for a vector [(A+3, 255, x)] for which [j]
    avoids the positions 0 and 1 in steps 2 to [A+2] of the key scheduling, [S]
    has its initial value at the [j] of step [A+3], and [j] avoids 0, 1 and [A+3]
    in the later steps, [main] adds one to the tally of the true key byte
    [key[A]]. *)
Theorem fms_recovers_key A x key r o :
  let iv := [A + 3; 255; x] in
  0 ≤ A ≤ 12 → length key = 13%nat → bytes key → is_byte x →
  length r = 256%nat → Forall (λ c, 0 ≤ c < INT_MAX) r →
  (∀ n, 3 ≤ Z.of_nat n ≤ A + 3 → 2 ≤ snd (sched n iv key)) →
  fst (sched (Z.to_nat (A + 3)) iv key) !!! Z.to_nat (snd (sched (Z.to_nat (A + 4)) iv key)) =
    snd (sched (Z.to_nat (A + 4)) iv key) →
  (∀ n, A + 5 ≤ Z.of_nat n ≤ 256 → snd (sched n iv key) ∉ [0; 1; A + 3]) →
  let b := Z.to_nat (key !!! Z.to_nat A) in
  ∃ o', attack_iv A (ints key) x (ints r, o) = Ok (ints (<[b := r !!! b + 1]> r), o').
Proof.
  intros iv HA Hk Bk Hx Hr Hc H1 H2 H3 b.
  destruct (attack_iv_ok A key x r o HA Hk Bk Hx Hr Hc) as [o' Ho']. exists o'. rewrite Ho'.
  unfold tally1. by rewrite (fms_predicts A x key HA Hk Bk Hx H1 H2 H3).
Qed.

(** ** Instances *)

(** The indices [j] of the key scheduling, in one pass. *)
Fixpoint trace (K : list Z) (n : nat) (i : Z) (st : list Z * Z) : list Z :=
  match n with
  | O => []
  | S n => let st' := kstep K st i in snd st' :: trace K n (i + 1) st'
  end.

Lemma trace_lookup K n i st m :
  (m < n)%nat → trace K n i st !! m = Some (snd (foldl (kstep K) st (seqZ i (Z.of_nat (S m))))).
Proof.
  revert i st m. induction n as [|n IH]; intros i st m Hm; [lia|].
  rewrite seqZ_cons by lia. cbn [foldl]. replace (Z.succ i) with (i + 1) by lia. destruct m as [|m]; simpl; [done|].
  rewrite IH by lia. do 3 f_equal. f_equal. lia.
Qed.

Lemma trace_sched iv key n :
  (1 ≤ n ≤ 256)%nat →
  trace (K_of (iv ++ key)) 256 0 (S_init, 0) !! (n - 1)%nat = Some (snd (sched n iv key)).
Proof.
  intros Hn. rewrite trace_lookup by lia. unfold sched, ksaL. by replace (S (n - 1)) with n by lia.
Qed.

Definition trace16 : list Z := trace (K_of ([0 + 3; 255; 16] ++ key0)) 256 0 (S_init, 0).
Lemma trace16_late : Forall (λ j, j ∉ [0; 1; 3]) (drop 4 trace16).
Proof. apply (bool_decide_unpack _). vm_compute. exact I. Qed.

Lemma key0_bytes : bytes key0.
Proof. unfold bytes. apply (bool_decide_unpack _). vm_compute. exact I. Qed.

Lemma fms_recovers_key_witness :
  ∃ o', attack_iv 0 (ints key0) 16 (ints (replicate 256 0), []) =
    Ok (ints (<[1%nat := 1]> (replicate 256 0)), o').
Proof.
  apply (fms_recovers_key 0 16 key0 (replicate 256 0) []).
  - lia.
  - reflexivity.
  - exact key0_bytes.
  - unfold is_byte. lia.
  - reflexivity.
  - apply Forall_replicate. unfold INT_MAX. lia.
  - intros n Hn. assert (n = 3%nat) as -> by lia. vm_compute. congruence.
  - vm_compute. reflexivity.
  - intros n Hn. eapply (Forall_lookup_1 _ _ (n - 5)%nat _ trace16_late).
    rewrite lookup_drop. replace (4 + (n - 5))%nat with (n - 1)%nat by lia. apply trace_sched. lia.
Defined.

Lemma ksa_permutation_witness :
  ∃ seed SK S j, make_seed (ints [3; 255; 16]) (ints key0) = Ok seed ∧ init_arrays seed = Ok SK ∧
    ksa 256 (fst SK) (snd SK) = Ok (ints S, j) ∧ S ≡ₚ seqZ 0 256 ∧ is_byte j.
Proof.
  apply (ksa_permutation [3; 255; 16] key0); [reflexivity|reflexivity| |exact key0_bytes|lia].
  repeat constructor; unfold is_byte; lia.
Defined.

Lemma rc4_textbook_witness :
  RC4 (ints [3; 255; 16]) (ints key0) = Ok (ref_rc4 (λ i, ([3; 255; 16] ++ key0) !!! Z.to_nat (i mod 16))).
Proof.
  apply rc4_textbook; [reflexivity|reflexivity| |exact key0_bytes].
  repeat constructor; unfold is_byte; lia.
Defined.

Lemma fms_main_completes_witness :
  ∃ r m o, fms_main (Some [48]) = Ok (ints r, m, o) ∧ length r = 256%nat ∧
    sumZ r = Z.of_nat (length (kept (atoi [48]) key0 256)).
Proof.
  destruct (fms_main_completes [48]) as (r & m & o & H1 & H2 & _ & H3 & _).
  - vm_compute. split; congruence.
  - exists r, m, o. exact (conj H1 (conj H2 H3)).
Defined.
