(* ===== verification/KeyLoad.v ===== *)
(** * Loading keys from files ([srxcryptoapi-VariousKeyManipulation.c], from line 1142)

    [sca_loadKey] finds the files of a key by its SKI, builds an [EC_KEY] from
    the certificate and, on request, the private key, encodes it in DER, decodes
    the result again as a test, and hands the DER to the caller in a
    [BGPSecKey].  The code runs on the memory of the plug-in that uses the key
    ([BgpsecLib.mem]), extended by what only this file uses: [EVP_PKEY] objects
    and the reference counts of [EC_KEY]s.  The configuration is the one of the
    source: [USE_EC_PUB_EVP_PKEY], [DECODING_TEST_CODE] and [HEX_DEBUG_OUTPUT]
    are defined.  Of the hexadecimal dumps only the accesses to the key are
    modelled, and of certificates, groups, points and BIOs only their values. *)

From stdpp Require Import base gmap gmultiset list strings.
From Stdlib Require Import ZArith Lia.
From S2P Require Import Prelude CryptoApi BgpsecLib Bgpsec.

Local Open Scope Z_scope.

(** What this code uses of the system and of libcrypto beyond [OpenSSL]. *)
Class KeyLib `{OpenSSL} := {
  (** [st_mode], [None] where [stat] fails. *)
  stat : list Z → option Z;
  (** The content of a file, [None] where [fopen] fails. *)
  read_file : list Z → option (list Z);
  (** The encoding; empty where the routine returns 0. *)
  i2d_ECPrivateKey : EcKey → list Z;
  i2d_PUBKEY : EcKey → list Z;
  (** [d2i_PrivateKey]; the inner option is [EVP_PKEY_get1_EC_KEY] of the result. *)
  d2i_PrivateKey : list Z → option (option EcKey);
  (** The point that [BN_bin2bn] and [EC_POINT_mul] make of the first octets of
      the key structure. *)
  dummy_point : bskey → EcPoint;
  (** Elliptic-curve parameters. *)
  Oid : Type;
  OBJ_nid2obj : Z → Oid;
  OBJ_obj2nid : Oid → Z;
  EC_KEY_get0_group : EcKey → option EcGroup;
  EC_GROUP_get_asn1_flag : EcGroup → Z;
  EC_GROUP_get_curve_name : EcGroup → Z;
  EC_GROUP_set_named : EcGroup → EcGroup;
  i2d_ECParameters : EcKey → option (list Z);
  d2i_ECParameters : list Z → option EcKey;
  EC_KEY_new : option EcKey;
  EC_KEY_set_group : EcKey → EcGroup → option EcKey
}.

Definition API_SUCCESS : Z := 0.
Definition API_FAILURE : Z := -1.
Definition API_DEFAULT_CURVE : Z := 1.
Definition API_LOADKEY_SUCCESS : Z := 1.
Definition API_LOADKEY_FAILURE : Z := 0.
Definition SCA_CERTFILE_EXT : list Z := cs "pub".
Definition SCA_KEYFILE_EXT : list Z := cs "private".
Definition SIZE_DER_PUBKEY : nat := 91.

(** [S_IFMT] and the kinds of file. *)
Definition S_IFMT : Z := 61440.
Definition S_IFREG : Z := 32768.
Definition S_IFLNK : Z := 40960.

(** The value of [pptype] and [ppval]. *)
Inductive ec_params `{KeyLib} : Type :=
| V_ASN1_OBJECT (o : Oid)
| V_ASN1_SEQUENCE (s : list Z).

Section code.
Context `{ApiConsts} `{UTHash} `{KL : KeyLib}.

(** ** Memory

    [refs] holds an [EC_KEY] once for every reference to it beyond the first;
    [pkeys] are the [EVP_PKEY] objects with the [EC_KEY] they refer to. *)
Record kmem := KMem { base : mem; refs : gmultiset loc; pkeys : gmap loc ptr }.
Abbreviation K := (M kmem).

Definition set_base b s := KMem b (refs s) (pkeys s).
Definition set_refs f s := KMem (base s) (f (refs s)) (pkeys s).
Definition set_pkeys f s := KMem (base s) (refs s) (f (pkeys s)).

Definition on_base {A} (c : M mem A) : K A := λ s,
  match c (base s) with Ok (a, b) => Ok (a, set_base b s) | Err e => Err e end.

Definition EC_KEY_up_ref (l : loc) : K unit :=
  on_base (deref ecs (Some l));; modify (set_refs (λ r, {[+ l +]} ⊎ r)).
(** [EC_KEY_free] drops a reference, and frees the object with the last one. *)
Definition ec_free (p : ptr) : K unit :=
  match p with
  | None => mret tt
  | Some l =>
      on_base (deref ecs p);;
      r ← gets refs;
      if decide (l ∈ r) then modify (set_refs (λ r, r ∖ {[+ l +]})) else on_base (EC_KEY_free p)
  end.

Definition EVP_PKEY_new : K ptr := λ s,
  let s' := set_base (tick_malloc (base s)) s in
  let l := fresh (dom (pkeys s) : gset loc) in
  if malloc_ok (mallocs (base s)) then Ok (Some l, set_pkeys <[l := NULL]> s') else Ok (NULL, s').
Definition pkey_ec (pkey : ptr) : K ptr := λ s,
  match pkey ≫= λ l, pkeys s !! l with Some p => Ok (p, s) | None => Err BadAccess end.
(** The key takes a reference to [ec], and drops the one to the key it had. *)
Definition EVP_PKEY_set1_EC_KEY (pkey ec : ptr) : K unit :=
  old ← pkey_ec pkey;
  match pkey, ec with
  | Some l, Some e => EC_KEY_up_ref e;; ec_free old;; modify (set_pkeys <[l := ec]>)
  | _, _ => mret tt
  end.
Definition EVP_PKEY_get1_EC_KEY (pkey : ptr) : K ptr :=
  ec ← pkey_ec pkey;
  match ec with None => mret NULL | Some e => EC_KEY_up_ref e;; mret ec end.
Definition EVP_PKEY_free (pkey : ptr) : K unit :=
  match pkey with
  | None => mret tt
  | Some l => ec ← pkey_ec pkey; modify (set_pkeys (delete l));; ec_free ec
  end.
(** A decoded [EVP_PKEY]. *)
Definition new_pkey (k : option EcKey) : K ptr :=
  ec ← match k with None => mret NULL | Some k => on_base (new_ec k) end;
  l ← gets (λ s, fresh (dom (pkeys s) : gset loc));
  modify (set_pkeys <[l := ec]>);;
  mret (Some l).

(** [PrintPrivPubKeyHex]: converting the public key reads it. *)
Definition PrintPrivPubKeyHex (ec : ptr) : K unit :=
  match ec with
  | None => mret tt
  | Some _ =>
      k ← on_base (deref ecs ec);
      if has_public_key k then mret tt else fail BadAccess
  end.

Definition upd_ec (ec : ptr) (k : EcKey) : K unit :=
  on_base (modify (set_ecs (λ h, from_option (λ l, <[l := k]> h) h ec))).

(** ** Key files *)
Definition sca_GetPublicKey (fn : list Z) : option (list Z) :=
  let szFileName := file_name fn SCA_CERTFILE_EXT in
  if can_read szFileName then d2i_X509 szFileName else None.

(** A new [EVP_PKEY], or [NULL]. *)
Definition sca_GetPrivateKey (fn : list Z) : K ptr :=
  let szFileName := file_name fn SCA_KEYFILE_EXT in
  if can_read szFileName then
    match PEM_read_PrivateKey szFileName with
    | None => mret NULL
    | Some k => new_pkey k
    end
  else mret NULL.

(** The return code and the final [*ecdsa_key]. *)
Definition sca_BgpsecSetEcPublicKey (filePrefix : list Z) (ecdsa_key : ptr) (curveId : Z) : K (Z * ptr) :=
  let err_cleanup (ec : ptr) : K (Z * ptr) := ec_free ec;; mret (API_FAILURE, ec) in
  match sca_GetPublicKey filePrefix with
  | None => err_cleanup ecdsa_key
  | Some pubkey =>
      ecdsa_key ← match EC_KEY_new_by_curve_name (curve curveId) with
                  | None => mret NULL
                  | Some k => on_base (new_ec k)
                  end;
      match EC_GROUP_new_by_curve_name (curve curveId) with
      | None => err_cleanup ecdsa_key
      | Some ecGroup =>
          if decide (4096 < length pubkey)%nat then fail BadAccess
          else
            set ← match EC_POINT_oct2point ecGroup pubkey with
                  | None => mret false
                  | Some pt =>
                      k ← on_base (deref ecs ecdsa_key);
                      match EC_KEY_set_public_key k pt with
                      | None => mret false
                      | Some k' => upd_ec ecdsa_key k';; mret true
                      end
                  end;
            if negb set then err_cleanup ecdsa_key
            else
              valid ← on_base (EC_KEY_check_key ecdsa_key);
              if negb valid then err_cleanup ecdsa_key
              else mret (API_SUCCESS, ecdsa_key)
      end
  end.

(** The [EVP_PKEY] and the reference to its [EC_KEY] are not given back.  For a
    key of another type [tmpEckey] is [NULL], which [EC_KEY_get0_private_key]
    dereferences.  Without a private number there is nothing to set. *)
Definition sca_BgpsecSetEcPrivateKey (filePrefix : list Z) (ecdsa_key : ptr) : K Z :=
  privateKey ← sca_GetPrivateKey filePrefix;
  if is_null privateKey then mret API_FAILURE
  else
    tmpEckey ← EVP_PKEY_get1_EC_KEY privateKey;
    f ← on_base (deref ecs tmpEckey);
    let bn := EC_KEY_get0_private_key f in
    k ← on_base (deref ecs ecdsa_key);
    match bn ≫= EC_KEY_set_private_key k with
    | None => mret API_FAILURE
    | Some k' => upd_ec ecdsa_key k';; mret API_SUCCESS
    end.

(** [stat] says that the file is regular. *)
Definition is_regular (szFileName : list Z) : bool :=
  match stat szFileName with
  | None => false
  | Some st_mode => (Z.land st_mode S_IFMT =? S_IFREG) || (Z.land st_mode S_IFMT =? S_IFLNK)
  end.

(** ** [sca_loadKey]

    The result of an encoding branch is the DER's length and buffer, [None]
    where it goes to [int_err]. *)

(** A second buffer of [eplen] octets for the encoding. *)
Definition OPENSSL_malloc (n : nat) : K ptr :=
  on_base (malloc (λ l, set_bufs <[l := replicate n 0]>)).

(** Without a public key in the decoded key it is loaded once more. *)
Definition complete_recon (filePrefix : list Z) (pub_status : bool) (recon_key : ptr) : K (bool * ptr) :=
  k ← on_base (deref ecs recon_key);
  if negb (has_public_key k) && pub_status then
    r ← sca_BgpsecSetEcPublicKey filePrefix recon_key API_DEFAULT_CURVE;
    mret (r.1 =? API_SUCCESS, r.2)
  else mret (true, recon_key).

Definition encode_private (filePrefix : list Z) (pub_status : bool) (ec_key : ptr) : K (option (nat * ptr)) :=
  PrintPrivPubKeyHex ec_key;;
  k ← on_base (deref ecs ec_key);
  let eplen := length (i2d_ECPrivateKey k) in
  if decide (eplen = 0)%nat then mret None
  else
    ep ← OPENSSL_malloc eplen;
    if is_null ep then mret None
    else
      on_base (write_buf ep (i2d_ECPrivateKey k));;
      ec_free ec_key;;
      der ← on_base (read_buf ep eplen);
      match d2i_ECPrivateKey der with
      | None => mret None
      | Some rk =>
          recon_key ← on_base (new_ec rk);
          PrintPrivPubKeyHex recon_key;;
          r ← complete_recon filePrefix pub_status recon_key;
          if negb r.1 then mret None
          else
            ec_free r.2;;
            mret (Some (eplen, ep))
      end.

Definition encode_public (filePrefix : list Z) (pub_status : bool) (ec_key : ptr) : K (option (nat * ptr)) :=
  pkey ← EVP_PKEY_new;
  if is_null pkey then mret None
  else
    EVP_PKEY_set1_EC_KEY pkey ec_key;;
    ec ← pkey_ec pkey;
    k ← on_base (deref ecs ec);
    let eplen := length (i2d_PUBKEY k) in
    if decide (eplen = 0)%nat then mret None
    else
      ep ← OPENSSL_malloc eplen;
      if is_null ep then mret None
      else
        on_base (write_buf ep (i2d_PUBKEY k));;
        ec_free ec_key;;
        EVP_PKEY_free pkey;;
        der ← on_base (read_buf ep eplen);
        match d2i_PUBKEY der with
        | None => mret None
        | Some rk =>
            pkey_tmp ← new_pkey rk;
            recon_key ← EVP_PKEY_get1_EC_KEY pkey_tmp;
            if is_null recon_key then mret None
            else
              PrintPrivPubKeyHex recon_key;;
              r ← complete_recon filePrefix pub_status recon_key;
              if negb r.1 then mret None
              else
                ec_free r.2;;
                mret (Some (eplen, ep))
        end.

Definition set_keyData (key : ptr) (f : bskey → bskey) : K unit :=
  on_base (k ← deref bkeys key; modify (set_bkeys (λ h, from_option (λ l, <[l := f k]> h) h key))).

Definition int_err (ec_key key : ptr) : K Z :=
  ec_free ec_key;;
  set_keyData key (λ k, BsKey (k_algoID k) (k_keyLength k) NULL (k_asn k) (k_ski k));;
  mret API_LOADKEY_FAILURE.

(** The [EC_KEY] built from the files, and whether to go on. *)
Definition load_ec (filePrefix : list Z) (pub_status priv_status fPrivate : bool) (key : ptr) : K (bool * ptr) :=
  r ← (if pub_status then
         r ← sca_BgpsecSetEcPublicKey filePrefix NULL API_DEFAULT_CURVE;
         mret (r.1 =? API_SUCCESS, r.2)
       else
         (* the dummy public key *)
         b ← on_base (deref bkeys key);
         k ← on_base (deref ecs NULL);
         match EC_KEY_set_public_key k (dummy_point b) with
         | None => mret (false, NULL)
         | Some k' => upd_ec NULL k';; mret (true, NULL)
         end);
  if negb r.1 then mret (false, r.2)
  else
    ok ← (if priv_status && fPrivate then
            c ← sca_BgpsecSetEcPrivateKey filePrefix r.2; mret (c =? API_SUCCESS)
          else mret true);
    if negb ok then mret (false, r.2)
    else
      valid ← on_base (EC_KEY_check_key r.2);
      mret (valid, r.2).

Definition sca_loadKey (key : ptr) (fPrivate : bool) : K Z :=
  b ← on_base (deref bkeys key);
  filePrefix ← on_base (sca_FindDirInSKI MAXPATHLEN (Some (k_ski b)));
  let pub_status := is_regular (file_name filePrefix SCA_CERTFILE_EXT) in
  let priv_status := is_regular (file_name filePrefix SCA_KEYFILE_EXT) in
  r ← load_ec filePrefix pub_status priv_status fPrivate key;
  if negb r.1 then int_err r.2 key
  else
    e ← (if fPrivate then encode_private else encode_public) filePrefix pub_status r.2;
    match e with
    | None => int_err r.2 key
    | Some (eplen, ep) =>
        set_keyData key (λ k, BsKey (k_algoID k) eplen ep (k_asn k) (k_ski k));;
        mret API_LOADKEY_SUCCESS
    end.

(** ** Keys in DER form *)

(** The stream, the key and its length; [None] for [NULL]. *)
Definition sca_new_PrivateKeyStream (fn : list Z) : K (option (ptr * ptr * nat)) :=
  match read_file (take (MAXPATHLEN - 2) (fn ++ [46] ++ SCA_KEYFILE_EXT)) with
  | None => mret None
  | Some content =>
      let buffer := take 2048 content in
      let size_read := length buffer in
      if decide (size_read = 0)%nat then mret None
      else
        privateKeyStream ← OPENSSL_malloc size_read;
        if is_null privateKeyStream then mret None
        else
          on_base (write_buf privateKeyStream buffer);;
          match d2i_PrivateKey buffer with
          | None => on_base (free_in bufs set_bufs privateKeyStream);; mret None
          | Some rk =>
              privateKey ← new_pkey rk;
              tmpEckey ← EVP_PKEY_get1_EC_KEY privateKey;
              EVP_PKEY_free privateKey;;
              mret (Some (privateKeyStream, tmpEckey, size_read))
          end
  end.

Definition arrPubDerHead : list Z :=
  [48; 89; 48; 19; 6; 7; 42; 134; 72; 206; 61; 2; 1; 6; 8; 42; 134; 72; 206; 61; 3; 1; 7; 3; 66; 0].

(** [bin_ecpoint] points to the given octets, of which 65 are read. *)
Definition new_pub_ecpoint2Der (bin_ecpoint : list Z) : K ptr :=
  pubDer ← OPENSSL_malloc SIZE_DER_PUBKEY;
  if is_null pubDer then mret NULL
  else
    pt ← lift (octets bin_ecpoint 65);
    on_base (write_buf pubDer (arrPubDerHead ++ pt));;
    mret pubDer.

(** ** Curve parameters *)
Definition eckey_param2type (ec : ptr) : K (option ec_params) :=
  match ec with
  | None => mret None
  | Some _ =>
      k ← on_base (deref ecs ec);
      match EC_KEY_get0_group k with
      | None => mret None
      | Some group =>
          let nid := EC_GROUP_get_curve_name group in
          if negb (EC_GROUP_get_asn1_flag group =? 0) && negb (nid =? 0)
          then mret (Some (V_ASN1_OBJECT (OBJ_nid2obj nid)))
          else mret (V_ASN1_SEQUENCE <$> i2d_ECParameters k)
      end
  end.

Definition eckey_type2param (p : ec_params) : K ptr :=
  match p with
  | V_ASN1_SEQUENCE pm =>
      match d2i_ECParameters pm with None => mret NULL | Some k => on_base (new_ec k) end
  | V_ASN1_OBJECT poid =>
      match EC_KEY_new with
      | None => mret NULL
      | Some k =>
          eckey ← on_base (new_ec k);
          match EC_GROUP_new_by_curve_name (OBJ_obj2nid poid) with
          | None => ec_free eckey;; mret NULL
          | Some group =>
              match EC_KEY_set_group k (EC_GROUP_set_named group) with
              | None => ec_free eckey;; mret NULL
              | Some k' => upd_ec eckey k';; mret eckey
              end
          end
      end
  end.
End code.
