(* ===== verification/KeyLoadProofs.v ===== *)
(** * Loading keys: correctness

    [holds_cert] says what it means for a certificate file to hold a usable
    public key, [private_key_of] which key the files give, and [leaves] what
    reading a private key's file leaves behind for good.  The theorems relate
    [sca_loadKey] to them on every branch, compose it with the plug-in's
    registration and signing, and show the branches that are wrong.  The last
    module instantiates the libraries with small concrete functions. *)

From stdpp Require Import base gmap gmultiset list strings.
From Stdlib Require Import ZArith Lia.
From S2P Require Import Prelude CryptoApi BgpsecLib Bgpsec BgpsecProofs KeyLoad.

Local Open Scope Z_scope.

(** What libcrypto documents: a checked key has a public key, and decoding is
    the inverse of encoding. *)
Class KeyLaws `{KeyLib} := {
  check_public k : EC_KEY_check k = true → has_public_key k = true;
  decode_private k : i2d_ECPrivateKey k ≠ [] → d2i_ECPrivateKey (i2d_ECPrivateKey k) = Some k;
  decode_public k : i2d_PUBKEY k ≠ [] →
    ∃ k', d2i_PUBKEY (i2d_PUBKEY k) = Some (Some k') ∧ has_public_key k' = true
}.

Section proofs.
Context `{ApiConsts} `{UTHash} `{KL : KeyLib}.

(** ** Running on the plug-in's memory *)
Lemma set_base_id s : set_base (base s) s = s.
Proof. by destruct s. Qed.
Lemma on_base_ok {A} (c : M mem A) m s a m' :
  c m = Ok (a, m') → on_base c (set_base m s) = Ok (a, set_base m' s).
Proof. intros E. unfold on_base. simpl. by rewrite E. Qed.
Lemma on_base_err {A} (c : M mem A) m s e : c m = Err e → on_base c (set_base m s) = Err e.
Proof. intros E. unfold on_base. simpl. by rewrite E. Qed.

(** Every extra reference is to a live key. *)
Definition refs_ok (m : mem) (s : kmem) : Prop := ∀ l, l ∈ refs s → is_Some (ecs m !! l).
Definition refs_wf (s : kmem) : Prop := refs_ok (base s) s.

Lemma ec_free_ok l k m s :
  ecs m !! l = Some k → l ∉ refs s →
  ec_free (Some l) (set_base m s) = Ok (tt, set_base (set_ecs (delete l) m) s).
Proof.
  intros El Hr. unfold ec_free.
  rewrite (bind_ok _ _ _ _ _ (on_base_ok _ m s _ _ (deref_ok ecs l k m El))).
  erewrite bind_ok; [|done]. simpl. rewrite decide_False by done.
  by apply on_base_ok, (EC_KEY_free_ok _ k).
Qed.
Lemma ec_free_bad l m s : ecs m !! l = None → ec_free (Some l) (set_base m s) = Err BadAccess.
Proof. intros El. unfold ec_free. apply bind_err, on_base_err, deref_freed, El. Qed.
Lemma no_ref e m s : refs_ok m s → ecs m !! e = None → e ∉ refs s.
Proof. intros Hw He [k Hk]%Hw. congruence. Qed.
Lemma fresh_no_ref m s : refs_ok m s → new_loc m ∉ refs s.
Proof. intros Hw. apply (no_ref _ m s Hw), new_loc_fresh. Qed.

Lemma upd_ec_ok l k m s : upd_ec (Some l) k (set_base m s) = Ok (tt, set_base (set_ecs <[l := k]> m) s).
Proof. by apply on_base_ok. Qed.
Lemma upd_new_ec k k' m s :
  upd_ec (Some (new_loc m)) k' (set_base (set_ecs <[new_loc m := k]> m) s) =
  Ok (tt, set_base (set_ecs <[new_loc m := k']> m) s).
Proof. unfold upd_ec. apply on_base_ok. unfold modify, set_ecs. simpl. by rewrite insert_insert_eq. Qed.

(** [EVP_PKEY] objects and references. *)
Lemma pkey_ec_ok l p s : pkeys s !! l = Some p → pkey_ec (Some l) s = Ok (p, s).
Proof. intros E. unfold pkey_ec. simpl. by rewrite E. Qed.
Lemma up_ref_ok e k m s :
  ecs m !! e = Some k → EC_KEY_up_ref e (set_base m s) = Ok (tt, set_base m (set_refs (λ r, {[+ e +]} ⊎ r) s)).
Proof.
  intros He. unfold EC_KEY_up_ref.
  by rewrite (bind_ok _ _ _ _ _ (on_base_ok _ m s _ _ (deref_ok ecs e k m He))).
Qed.
Lemma ec_free_ref e k m s :
  ecs m !! e = Some k → ec_free (Some e) (set_base m (set_refs (λ r, {[+ e +]} ⊎ r) s)) = Ok (tt, set_base m s).
Proof.
  intros He. unfold ec_free.
  rewrite (bind_ok _ _ _ _ _ (on_base_ok _ m _ _ _ (deref_ok ecs e k m He))).
  erewrite bind_ok; [|done]. simpl. rewrite decide_True by multiset_solver.
  unfold modify, set_refs. simpl. f_equal. f_equal. unfold set_base. simpl. f_equal. multiset_solver.
Qed.
Definition new_pk (s : kmem) : loc := fresh (dom (pkeys s) : gset loc).
Lemma new_pk_fresh s : pkeys s !! new_pk s = None.
Proof. apply not_elem_of_dom, (is_fresh (dom (pkeys s) : gset loc)). Qed.

(** ** The file name of a key *)
Definition key_prefix (path ski : list Z) : list Z :=
  let skiHex := take SKI_LENGTH ski ≫= hex_octet in
  take (MAXPATHLEN - 2)
    (path ++ [47] ++ take 2 skiHex ++ [47] ++ take 4 (drop 2 skiHex) ++ [47] ++ drop 6 skiHex).
Definition ski_ok (ski : list Z) : Prop := (SKI_LENGTH ≤ length ski ∧ 2 * SKI_LENGTH ≤ SKI_HEX_LENGTH)%nat.

Lemma length_hex l : length (l ≫= hex_octet) = (2 * length l)%nat.
Proof. induction l as [|x l IH]; [done|]. rewrite bind_cons, length_app, IH. simpl. lia. Qed.
Lemma find_dir_ok ski m :
  ski_ok ski → sca_FindDirInSKI MAXPATHLEN (Some ski) m = Ok (key_prefix (keyPath m) ski, m).
Proof.
  intros [Hl Hh]. unfold sca_FindDirInSKI. rewrite (bind_ok _ _ m ski m) by done.
  rewrite (bind_ok _ _ m (take SKI_LENGTH ski) m) by (unfold lift; by rewrite octets_ok).
  rewrite decide_False by (rewrite length_hex, length_take; lia).
  by rewrite (bind_ok _ _ m (keyPath m) m).
Qed.

(** ** Certificates and private keys *)

(** The certificate of a key holds [oct], from which the code starts with the
    new key [k0] of the curve and its group [g]. *)
Record cert_octets (fp : list Z) (oct : list Z) (k0 : EcKey) (g : EcGroup) : Prop := {
  co_file : sca_GetPublicKey fp = Some oct;
  co_len : (length oct ≤ 4096)%nat;
  co_key : EC_KEY_new_by_curve_name NID_X9_62_prime256v1 = Some k0;
  co_group : EC_GROUP_new_by_curve_name NID_X9_62_prime256v1 = Some g
}.
(** They encode a point that makes a valid key [k]. *)
Definition holds_cert (fp : list Z) (k : EcKey) : Prop :=
  ∃ oct k0 g pt, cert_octets fp oct k0 g ∧ EC_POINT_oct2point g oct = Some pt ∧
    EC_KEY_set_public_key k0 pt = Some k ∧ EC_KEY_check k = true.
(** They do not. *)
Definition bad_cert (fp : list Z) : Prop :=
  ∃ oct k0 g, cert_octets fp oct k0 g ∧
    match EC_POINT_oct2point g oct ≫= EC_KEY_set_public_key k0 with
    | None => True | Some k => EC_KEY_check k = false end.

Lemma set_public_ok fp p k m s :
  holds_cert fp k →
  sca_BgpsecSetEcPublicKey fp p API_DEFAULT_CURVE (set_base m s) =
  Ok ((API_SUCCESS, Some (new_loc m)), set_base (set_ecs <[new_loc m := k]> m) s).
Proof.
  intros (oct & k0 & g & pt & [Hf Hl Hk Hg] & Hp & Hs & Hc). unfold sca_BgpsecSetEcPublicKey.
  change (curve API_DEFAULT_CURVE) with NID_X9_62_prime256v1. rewrite Hf, Hk, Hg.
  rewrite (bind_ok _ _ _ (Some (new_loc m)) (set_base (set_ecs <[new_loc m := k0]> m) s)) by by apply on_base_ok.
  rewrite decide_False, Hp by lia.
  rewrite (bind_ok _ _ _ true (set_base (set_ecs <[new_loc m := k]> m) s)).
  - cbn [negb]. rewrite (bind_ok _ _ _ true (set_base (set_ecs <[new_loc m := k]> m) s)); [done|].
    apply on_base_ok. rewrite new_ec_check. by rewrite Hc.
  - erewrite bind_ok; [|apply on_base_ok, deref_ok, lookup_insert_eq]. rewrite Hs.
    by rewrite (bind_ok _ _ _ _ _ (upd_new_ec k0 k m s)).
Qed.

(** A certificate that cannot be used leaves [*ecdsa_key] pointing to a freed
    key. *)
Lemma set_public_bad fp p m s :
  bad_cert fp → new_loc m ∉ refs s →
  sca_BgpsecSetEcPublicKey fp p API_DEFAULT_CURVE (set_base m s) =
  Ok ((API_FAILURE, Some (new_loc m)), set_base m s).
Proof.
  intros (oct & k0 & g & [Hf Hl Hk Hg] & Hbad) Hr. unfold sca_BgpsecSetEcPublicKey.
  change (curve API_DEFAULT_CURVE) with NID_X9_62_prime256v1. rewrite Hf, Hk, Hg.
  rewrite (bind_ok _ _ _ (Some (new_loc m)) (set_base (set_ecs <[new_loc m := k0]> m) s)) by by apply on_base_ok.
  rewrite decide_False by lia.
  assert (∀ k, ec_free (Some (new_loc m)) (set_base (set_ecs <[new_loc m := k]> m) s) = Ok (tt, set_base m s)) as Hfree.
  { intros k. rewrite (ec_free_ok _ k) by (simpl; rewrite ?lookup_insert_eq; done). by rewrite set_ecs_new_free. }
  destruct (EC_POINT_oct2point g oct) as [pt|]; simpl in Hbad;
    [|erewrite bind_ok by done; cbn [negb]; by rewrite (bind_ok _ _ _ _ _ (Hfree k0))].
  destruct (EC_KEY_set_public_key k0 pt) as [k|] eqn:Es.
  - rewrite (bind_ok _ _ _ true (set_base (set_ecs <[new_loc m := k]> m) s)).
    + cbn [negb]. rewrite (bind_ok _ _ _ false (set_base (set_ecs <[new_loc m := k]> m) s)).
      * cbn [negb]. by rewrite (bind_ok _ _ _ _ _ (Hfree k)).
      * apply on_base_ok. by rewrite new_ec_check, Hbad.
    + erewrite bind_ok; [|apply on_base_ok, deref_ok, lookup_insert_eq]. rewrite Es.
      by rewrite (bind_ok _ _ _ _ _ (upd_new_ec k0 k m s)).
  - rewrite (bind_ok _ _ _ false (set_base (set_ecs <[new_loc m := k0]> m) s)).
    + cbn [negb]. by rewrite (bind_ok _ _ _ _ _ (Hfree k0)).
    + erewrite bind_ok; [|apply on_base_ok, deref_ok, lookup_insert_eq]. by rewrite Es.
Qed.

(** What [PEM_read_bio_PrivateKey] makes of the private key's file, and the key
    [k1] with the private number in it. *)
Definition file_pkey (fp : list Z) : option (option EcKey) :=
  let f := file_name fp SCA_KEYFILE_EXT in if can_read f then PEM_read_PrivateKey f else None.
Definition with_number (fp : list Z) (k1 : EcKey) : option EcKey :=
  o ← file_pkey fp; f ← o; n ← EC_KEY_get0_private_key f; EC_KEY_set_private_key k1 n.
(** The key that the files of a private key give. *)
Definition private_key_of (fp : list Z) (k1 : EcKey) : option EcKey :=
  k ← (if is_regular (file_name fp SCA_KEYFILE_EXT) then with_number fp k1 else Some k1);
  if EC_KEY_check k then Some k else None.
(** The key that is encoded. *)
Definition key_of (fPrivate : bool) (fp : list Z) (k1 : EcKey) : option EcKey :=
  if fPrivate then private_key_of fp k1 else Some k1.
(** The key that is read from the private key's file, if any. *)
Definition used_pkey (fPrivate : bool) (fp : list Z) : option (option EcKey) :=
  if is_regular (file_name fp SCA_KEYFILE_EXT) && fPrivate then file_pkey fp else None.

(** What reading it leaves behind: a new [EVP_PKEY] with a new [EC_KEY], to which
    there is one more reference than the one of the [EVP_PKEY]. *)
Definition leaves (o : option (option EcKey)) (s s' : kmem) : Prop :=
  match o with
  | Some (Some f) => ∃ e pk, ecs (base s) !! e = None ∧ pkeys s !! pk = None ∧
      s' = KMem (set_ecs <[e := f]> (base s)) ({[+ e +]} ⊎ refs s) (<[pk := Some e]> (pkeys s))
  | _ => s' = s
  end.

Lemma leaves_refs o s s' : leaves o s s' → refs_wf s → refs_wf s'.
Proof.
  destruct o as [[f|]|]; simpl; [|by intros ->..]. intros (e & pk & _ & _ & ->) Hr l Hl. simpl.
  destruct (decide (l = e)) as [->|Hn]; [by rewrite lookup_insert_eq|].
  rewrite lookup_insert_ne by done. apply Hr. simpl in Hl. multiset_solver.
Qed.
Lemma leaves_base {A} (f : mem → A) o s s' :
  (∀ g m, f (set_ecs g m) = f m) → leaves o s s' → f (base s') = f (base s).
Proof. intros Hf. destruct o as [[k|]|]; simpl; [|by intros ->..]. intros (e & pk & _ & _ & ->). simpl. apply Hf. Qed.

(** A key [k] under construction at [e], in a state that is [s] without it. *)
Definition with_ec (e : loc) (k : EcKey) (s : kmem) : kmem := set_base (set_ecs <[e := k]> (base s)) s.

Lemma set_private_non_ec fp p s :
  file_pkey fp = Some None → sca_BgpsecSetEcPrivateKey fp p s = Err BadAccess.
Proof.
  unfold file_pkey, sca_BgpsecSetEcPrivateKey, sca_GetPrivateKey. destruct (can_read _); [|done]. intros ->.
  set (pk := fresh (dom (pkeys s) : gset loc)).
  rewrite (bind_ok _ _ _ (Some pk) (set_pkeys <[pk := NULL]> s)) by done. cbn [is_null].
  rewrite (bind_ok _ _ _ NULL (set_pkeys <[pk := NULL]> s)); [done|].
  unfold EVP_PKEY_get1_EC_KEY, pkey_ec, set_pkeys. unfold mbind at 1, M_bind. simpl. by rewrite lookup_insert_eq.
Qed.

Lemma set_private_ok fp e k s :
  ecs (base s) !! e = None → file_pkey fp ≠ Some None →
  ∃ k' c s', sca_BgpsecSetEcPrivateKey fp (Some e) (with_ec e k s) = Ok (c, with_ec e k' s') ∧
    leaves (file_pkey fp) s s' ∧ ecs (base s') !! e = None ∧
    with_number fp k = (if c =? API_SUCCESS then Some k' else None).
Proof.
  intros He Hn. unfold sca_BgpsecSetEcPrivateKey, sca_GetPrivateKey, with_number. unfold file_pkey in *.
  destruct (can_read _); [|by exists k, API_FAILURE, s].
  destruct (PEM_read_PrivateKey _) as [[f|]|]; [|done|by exists k, API_FAILURE, s]. clear Hn.
  set (m1 := set_ecs <[e := k]> (base s)). set (e' := new_loc m1). set (pk := new_pk s).
  assert (e' ≠ e ∧ ecs (base s) !! e' = None) as [Hne He'].
  { destruct (new_loc_fresh m1) as (_ & Hf & _). fold e' in Hf. unfold m1 in Hf. simpl in Hf.
    by apply lookup_insert_None in Hf as [? ?]. }
  set (s' := KMem (set_ecs <[e' := f]> (base s)) ({[+ e' +]} ⊎ refs s) (<[pk := Some e']> (pkeys s))).
  assert (∀ g x, set_base (set_ecs <[e' := f]> (set_ecs <[e := x]> (base s))) (set_refs g (set_pkeys <[pk := Some e']> s)) =
    KMem (base (with_ec e x s')) (g (refs s)) (<[pk := Some e']> (pkeys s))) as Hs.
  { intros g x. unfold with_ec, set_base, set_refs, set_pkeys, set_ecs. simpl. f_equal. f_equal.
    by rewrite insert_insert_ne. }
  rewrite (bind_ok _ _ _ (Some pk) (set_base (set_ecs <[e' := f]> m1) (set_pkeys <[pk := Some e']> s))) by done.
  cbn [is_null].
  rewrite (bind_ok _ _ _ (Some e') (with_ec e k s')).
  2:{ unfold EVP_PKEY_get1_EC_KEY. erewrite bind_ok; [|apply pkey_ec_ok, lookup_insert_eq]. cbv iota beta.
      erewrite bind_ok; [|apply (up_ref_ok e' f), lookup_insert_eq].
      exact (f_equal (λ x, Ok (Some e', x)) (Hs (λ r, {[+ e' +]} ⊎ r) k)). }
  assert (with_ec e k s' = set_base (set_ecs <[e := k]> (base s')) s') as Hw by done.
  exec (on_base_ok _ _ s' _ _ (deref_ok ecs e' f (base (with_ec e k s')) ltac:(simpl; by rewrite lookup_insert_ne, lookup_insert_eq))).
  exec (on_base_ok _ _ s' _ _ (deref_ok ecs e k (base (with_ec e k s')) (lookup_insert_eq _ _ _))).
  assert (leaves (Some (Some f)) s s') as Hl by by exists e', pk; split_and!; [|apply new_pk_fresh|].
  assert (ecs (base s') !! e = None) as Hes by (simpl; by rewrite lookup_insert_ne).
  simpl. destruct (EC_KEY_get0_private_key f ≫= EC_KEY_set_private_key k) as [k'|] eqn:E;
    destruct (EC_KEY_get0_private_key f) as [n|]; simpl in *; try done; try rewrite E.
  - exec (upd_ec_ok e k' (base (with_ec e k s')) s'). exists k', API_SUCCESS, s'. split_and!; try done.
    unfold with_ec, set_base, set_ecs. simpl. by rewrite insert_insert_eq.
  - by exists k, API_FAILURE, s'.
  - by exists k, API_FAILURE, s'.
Qed.

Lemma check_ec e k s :
  (valid ← on_base (EC_KEY_check_key (Some e)); mret (valid, Some e)) (with_ec e k s) =
  Ok ((EC_KEY_check k, Some e), with_ec e k s).
Proof.
  unfold with_ec. rewrite (bind_ok _ _ _ (EC_KEY_check k) (set_base (set_ecs <[e := k]> (base s)) s)); [done|].
  apply on_base_ok. unfold EC_KEY_check_key. erewrite bind_ok; [|apply deref_ok, lookup_insert_eq]. done.
Qed.

(** [load_ec] with a usable certificate and, for a private key, a key file
    without a key of another type. *)
Lemma load_ec_ok fp key k1 fPrivate s :
  holds_cert fp k1 → used_pkey fPrivate fp ≠ Some None →
  ∃ ok e k s', load_ec fp true (is_regular (file_name fp SCA_KEYFILE_EXT)) fPrivate key s =
      Ok ((ok, Some e), with_ec e k s') ∧
    leaves (used_pkey fPrivate fp) s s' ∧ ecs (base s') !! e = None ∧
    key_of fPrivate fp k1 = (if ok then Some k else None) ∧ (ok = true → EC_KEY_check k = true).
Proof.
  intros Hc Hu. unfold load_ec. set (e := new_loc (base s)).
  pose proof (set_public_ok fp NULL k1 (base s) s Hc) as E. rewrite set_base_id in E. fold e in E.
  rewrite (bind_ok _ _ _ (true, Some e) (with_ec e k1 s)) by by exec E. clear E.
  cbn [fst snd negb]. unfold key_of, private_key_of. unfold used_pkey in *.
  assert (EC_KEY_check k1 = true) as Hk1 by by destruct Hc as (?&?&?&?&?&?&?&?).
  assert (ecs (base s) !! e = None) as He by apply new_loc_fresh.
  destruct (is_regular (file_name fp SCA_KEYFILE_EXT)), fPrivate; cbn [andb] in *.
  2-4: erewrite bind_ok by done; cbn [negb]; rewrite check_ec; exists true, e, k1, s; simpl; by rewrite Hk1.
  destruct (set_private_ok fp e k1 s He Hu) as (k' & c & s' & E & Hl & Hes & Ek). rewrite Ek.
  rewrite (bind_ok _ _ _ (c =? API_SUCCESS) (with_ec e k' s')) by by exec E.
  destruct (c =? API_SUCCESS); cbn [negb]; [|by exists false, e, k', s'].
  rewrite check_ec. by exists (EC_KEY_check k'), e, k', s'.
Qed.
Lemma load_ec_non_ec fp key k1 s :
  holds_cert fp k1 → used_pkey true fp = Some None →
  load_ec fp true (is_regular (file_name fp SCA_KEYFILE_EXT)) true key s = Err BadAccess.
Proof.
  intros Hc Hu. unfold load_ec. pose proof (set_public_ok fp NULL k1 (base s) s Hc) as E. rewrite set_base_id in E.
  rewrite (bind_ok _ _ _ (true, Some (new_loc (base s))) (with_ec (new_loc (base s)) k1 s)) by by exec E.
  cbn [fst snd negb]. unfold used_pkey in Hu. destruct (is_regular _); [|done]. cbn [andb] in *.
  apply bind_err, bind_err, set_private_non_ec, Hu.
Qed.

(** ** Encoding *)
Lemma ssl_malloc_ok n m s :
  malloc_ok (mallocs m) = true →
  OPENSSL_malloc n (set_base m s) =
  Ok (Some (new_loc m), set_base (set_bufs <[new_loc m := replicate n 0]> (tick_malloc m)) s).
Proof. intros Hm. apply on_base_ok. unfold malloc. by rewrite Hm. Qed.
Lemma ssl_malloc_null n m s :
  malloc_ok (mallocs m) = false → OPENSSL_malloc n (set_base m s) = Ok (NULL, set_base (tick_malloc m) s).
Proof. intros Hm. apply on_base_ok. unfold malloc. by rewrite Hm. Qed.

(** A fresh buffer that is filled completely. *)
Lemma fill_new_buf der m s :
  on_base (write_buf (Some (new_loc m)) der)
    (set_base (set_bufs <[new_loc m := replicate (length der) 0]> (tick_malloc m)) s) =
  Ok (tt, set_base (set_bufs <[new_loc m := der]> (tick_malloc m)) s).
Proof.
  apply on_base_ok. erewrite write_buf_ok; [|apply lookup_insert_eq|by rewrite length_replicate].
  rewrite drop_ge, app_nil_r by by rewrite length_replicate.
  unfold set_bufs. simpl. by rewrite insert_insert_eq.
Qed.
Lemma read_new_buf l der m s :
  on_base (read_buf (Some l) (length der)) (set_base (set_bufs <[l := der]> m) s) =
  Ok (der, set_base (set_bufs <[l := der]> m) s).
Proof.
  apply on_base_ok. rewrite (read_buf_ok l der) by (simpl; rewrite ?lookup_insert_eq; done).
  by rewrite take_ge.
Qed.

Lemma print_ok l k m s :
  ecs m !! l = Some k → has_public_key k = true →
  PrintPrivPubKeyHex (Some l) (set_base m s) = Ok (tt, set_base m s).
Proof.
  intros El Hp. unfold PrintPrivPubKeyHex.
  rewrite (bind_ok _ _ _ _ _ (on_base_ok _ m s _ _ (deref_ok ecs l k m El))). by rewrite Hp.
Qed.
Lemma complete_ok fp b l k m s :
  ecs m !! l = Some k → has_public_key k = true →
  complete_recon fp b (Some l) (set_base m s) = Ok ((true, Some l), set_base m s).
Proof.
  intros El Hp. unfold complete_recon.
  rewrite (bind_ok _ _ _ _ _ (on_base_ok _ m s _ _ (deref_ok ecs l k m El))). by rewrite Hp.
Qed.
(** A key that is made, looked at and freed again. *)
Lemma ec_free_new k m s :
  new_loc m ∉ refs s →
  ec_free (Some (new_loc m)) (set_base (set_ecs <[new_loc m := k]> m) s) = Ok (tt, set_base m s).
Proof.
  intros Hr. rewrite (ec_free_ok _ k) by (simpl; rewrite ?lookup_insert_eq; done).
  by rewrite set_ecs_new_free.
Qed.

Context `{!KeyLaws}.

Lemma encode_private_ok fp b e k m s :
  let m1 := set_ecs <[e := k]> m in let der := i2d_ECPrivateKey k in
  EC_KEY_check k = true → refs_ok m s → ecs m !! e = None →
  encode_private fp b (Some e) (set_base m1 s) =
    if decide (der = []) then Ok (None, set_base m1 s)
    else if malloc_ok (mallocs m)
    then Ok (Some (length der, Some (new_loc m1)), set_base (set_bufs <[new_loc m1 := der]> (tick_malloc m)) s)
    else Ok (None, set_base (tick_malloc m1) s).
Proof.
  intros m1 der Hck Hr Hf. pose proof (check_public k Hck) as Hp.
  assert (ecs m1 !! e = Some k) as He by apply lookup_insert_eq.
  unfold encode_private. exec (print_ok e k m1 s He Hp).
  exec (on_base_ok _ m1 s _ _ (deref_ok ecs e k m1 He)). fold der. destruct (decide (der = [])) as [Ed|Ed].
  { by rewrite Ed. }
  rewrite decide_False by (by destruct der).
  destruct (malloc_ok (mallocs m)) eqn:Em; [|by exec (ssl_malloc_null (length der) m1 s Em)].
  exec (ssl_malloc_ok (length der) m1 s Em). cbn [is_null].
  exec (fill_new_buf der m1 s). set (ep := new_loc m1).
  set (m4 := set_bufs <[ep := der]> (tick_malloc m)).
  rewrite (bind_ok _ _ _ tt (set_base m4 s)).
  2:{ rewrite (ec_free_ok e k); [|apply He|by apply (no_ref e m)].
      f_equal. f_equal. f_equal. unfold m4, m1, set_bufs, set_ecs, tick_malloc. simpl. f_equal.
      by apply delete_insert_id. }
  exec (read_new_buf ep der (tick_malloc m) s). unfold der at 1. rewrite decode_private by done.
  rewrite (bind_ok _ _ _ (Some (new_loc m4)) (set_base (set_ecs <[new_loc m4 := k]> m4) s)) by by apply on_base_ok.
  erewrite bind_ok; [|apply (print_ok _ k); [apply lookup_insert_eq|done]].
  erewrite bind_ok; [|apply (complete_ok _ _ _ k); [apply lookup_insert_eq|done]].
  cbn [fst snd negb]. exec (ec_free_new k m4 s (fresh_no_ref m4 s Hr)). done.
Qed.

(** A new [EVP_PKEY] that takes a reference to [e]. *)
Lemma set1_ok e k m s :
  ecs m !! e = Some k →
  EVP_PKEY_set1_EC_KEY (Some (new_pk s)) (Some e) (set_base m (set_pkeys <[new_pk s := NULL]> s)) =
  Ok (tt, set_base m (set_refs (λ r, {[+ e +]} ⊎ r) (set_pkeys <[new_pk s := Some e]> s))).
Proof.
  intros He. unfold EVP_PKEY_set1_EC_KEY. erewrite bind_ok; [|apply pkey_ec_ok, lookup_insert_eq].
  exec (up_ref_ok e k m (set_pkeys <[new_pk s := NULL]> s) He). erewrite bind_ok by done.
  unfold modify, set_pkeys, set_refs, set_base. simpl. by rewrite insert_insert_eq.
Qed.
Lemma pkey_free_ok e k m s :
  ecs m !! e = Some k → e ∉ refs s →
  EVP_PKEY_free (Some (new_pk s)) (set_base m (set_pkeys <[new_pk s := Some e]> s)) =
  Ok (tt, set_base (set_ecs (delete e) m) s).
Proof.
  intros He Hr. unfold EVP_PKEY_free. erewrite bind_ok; [|apply pkey_ec_ok, lookup_insert_eq].
  rewrite (bind_ok _ _ _ tt (set_base m s)); [by apply (ec_free_ok e k)|].
  unfold modify, set_pkeys, set_base. simpl. by rewrite delete_insert_id by apply new_pk_fresh.
Qed.

(** The leak of the decoding test: its [EVP_PKEY] and the key in it stay. *)
Lemma encode_public_ok fp b e k k' m s :
  let m1 := set_ecs <[e := k]> m in let der := i2d_PUBKEY k in
  let ep := new_loc (tick_malloc m1) in
  let m4 := set_bufs <[ep := der]> (tick_malloc (tick_malloc m)) in
  refs_ok m s → ecs m !! e = None → der ≠ [] → malloc_ok (mallocs m) = true → malloc_ok (S (mallocs m)) = true →
  d2i_PUBKEY der = Some (Some k') → has_public_key k' = true →
  encode_public fp b (Some e) (set_base m1 s) =
    Ok (Some (length der, Some ep),
        set_base (set_ecs <[new_loc m4 := k']> m4) (set_pkeys <[new_pk s := Some (new_loc m4)]> s)).
Proof.
  intros m1 der ep m4 Hr Hf Hd M0 M1 Hdec Hp. set (t1 := tick_malloc m1).
  assert (∀ m', ecs m' = ecs m1 → ecs m' !! e = Some k) as He by (intros m' ->; apply lookup_insert_eq).
  unfold encode_public.
  rewrite (bind_ok _ _ _ (Some (new_pk s)) (set_base t1 (set_pkeys <[new_pk s := NULL]> s)))
    by (unfold EVP_PKEY_new; simpl; by rewrite M0).
  cbn [is_null]. exec (set1_ok e k t1 s (He t1 eq_refl)).
  erewrite bind_ok; [|apply pkey_ec_ok, lookup_insert_eq].
  set (s2 := set_refs _ _). exec (on_base_ok _ t1 s2 _ _ (deref_ok ecs e k t1 (He t1 eq_refl))). fold der.
  rewrite decide_False by (by destruct der). exec (ssl_malloc_ok (length der) t1 s2 M1). cbn [is_null].
  exec (fill_new_buf der t1 s2). fold ep.
  set (m3 := set_bufs <[ep := der]> (tick_malloc t1)).
  exec (ec_free_ref e k m3 (set_pkeys <[new_pk s := Some e]> s) (He m3 eq_refl)).
  rewrite (bind_ok _ _ _ tt (set_base m4 s)).
  2:{ rewrite (pkey_free_ok e k); [|by apply He|by apply (no_ref e m)].
      f_equal. f_equal. f_equal. unfold m4, m3, t1, m1, set_bufs, set_ecs, tick_malloc. simpl. f_equal.
      by apply delete_insert_id. }
  exec (read_new_buf ep der (tick_malloc (tick_malloc m)) s). rewrite Hdec.
  set (e2 := new_loc m4). set (m5 := set_ecs <[e2 := k']> m4). set (s5 := set_pkeys <[new_pk s := Some e2]> s).
  assert (ecs m5 !! e2 = Some k') as He2 by apply lookup_insert_eq.
  rewrite (bind_ok _ _ _ (Some (new_pk s)) (set_base m5 s5)).
  2:{ unfold new_pkey. rewrite (bind_ok _ _ _ (Some e2) (set_base m5 s)) by by apply on_base_ok. done. }
  rewrite (bind_ok _ _ _ (Some e2) (set_base m5 (set_refs (λ r, {[+ e2 +]} ⊎ r) s5))).
  2:{ unfold EVP_PKEY_get1_EC_KEY. erewrite bind_ok; [|apply pkey_ec_ok, lookup_insert_eq].
      cbv iota beta. by exec (up_ref_ok e2 k' m5 s5 He2). }
  cbn [is_null]. set (s6 := set_refs _ s5). exec (print_ok e2 k' m5 s6 He2 Hp).
  exec (complete_ok fp b e2 k' m5 s6 He2 Hp). cbn [fst snd negb].
  by exec (ec_free_ref e2 k' m5 s5 He2).
Qed.

(** ** [sca_loadKey] *)

(** The key structure with other key data. *)
Definition with_data (b : bskey) (n : nat) (p : ptr) : bskey := BsKey (k_algoID b) n p (k_asn b) (k_ski b).

Lemma set_keyData_ok l b f m s :
  bkeys m !! l = Some b →
  set_keyData (Some l) f (set_base m s) = Ok (tt, set_base (set_bkeys <[l := f b]> m) s).
Proof. intros Hl. apply on_base_ok. by exec (deref_ok bkeys l b m Hl). Qed.

Lemma int_err_ok l b e k s :
  bkeys (base s) !! l = Some b → refs_wf s → ecs (base s) !! e = None →
  int_err (Some e) (Some l) (with_ec e k s) =
  Ok (API_LOADKEY_FAILURE, set_base (set_bkeys <[l := with_data b (k_keyLength b) NULL]> (base s)) s).
Proof.
  intros Hl Hr He. unfold int_err, with_ec. rewrite (bind_ok _ _ _ tt (set_base (base s) s)).
  - by exec (set_keyData_ok l b (λ b, BsKey (k_algoID b) (k_keyLength b) NULL (k_asn b) (k_ski b)) (base s) s Hl).
  - rewrite (ec_free_ok e k); [|apply lookup_insert_eq|by apply (no_ref e (base s))]. f_equal. f_equal. f_equal.
    destruct (base s). unfold set_ecs. simpl in *. f_equal. by apply delete_insert_id.
Qed.

Section load.
Context (s : kmem) (l : loc) (b : bskey).
Hypothesis key_live : bkeys (base s) !! l = Some b.
Hypothesis ski : ski_ok (k_ski b).
Hypothesis refs_live : refs_wf s.
Let fp := key_prefix (keyPath (base s)) (k_ski b).

(** The code after the file names are known. *)
Lemma load_start fPrivate :
  sca_loadKey (Some l) fPrivate s =
  (r ← load_ec fp (is_regular (file_name fp SCA_CERTFILE_EXT)) (is_regular (file_name fp SCA_KEYFILE_EXT)) fPrivate (Some l);
   if negb r.1 then int_err r.2 (Some l)
   else
     e ← (if fPrivate then encode_private else encode_public) fp (is_regular (file_name fp SCA_CERTFILE_EXT)) r.2;
     match e with
     | None => int_err r.2 (Some l)
     | Some (eplen, ep) => set_keyData (Some l) (λ k, with_data k eplen ep);; mret API_LOADKEY_SUCCESS
     end) s.
Proof using All.
  unfold sca_loadKey. rewrite <-(set_base_id s) at 1. exec (on_base_ok _ (base s) s _ _ (deref_ok bkeys l b _ key_live)).
  exec (on_base_ok _ (base s) s _ _ (find_dir_ok (k_ski b) (base s) ski)). by rewrite set_base_id.
Qed.

(** Loading fails, and of [s'] only the key data are changed. *)
Definition load_failed (s' : kmem) : Prop :=
  sca_loadKey (Some l) true s =
  Ok (API_LOADKEY_FAILURE, set_base (set_bkeys <[l := with_data b (k_keyLength b) NULL]> (base s')) s').

(** [s'] after a private key was loaded into the buffer [ep]. *)
Definition loaded_private (s' : kmem) (ep : loc) (k : EcKey) : kmem :=
  set_base (set_bkeys <[l := with_data b (length (i2d_ECPrivateKey k)) (Some ep)]>
    (set_bufs <[ep := i2d_ECPrivateKey k]> (tick_malloc (base s')))) s'.

Lemma load_ec_step fPrivate k1 :
  is_regular (file_name fp SCA_CERTFILE_EXT) = true → holds_cert fp k1 → used_pkey fPrivate fp ≠ Some None →
  ∃ ok e k s', leaves (used_pkey fPrivate fp) s s' ∧ ecs (base s') !! e = None ∧
    sca_loadKey (Some l) fPrivate s =
      (if negb ok then int_err (Some e) (Some l)
       else
         d ← (if fPrivate then encode_private else encode_public) fp true (Some e);
         match d with
         | None => int_err (Some e) (Some l)
         | Some (eplen, ep) => set_keyData (Some l) (λ k, with_data k eplen ep);; mret API_LOADKEY_SUCCESS
         end) (with_ec e k s') ∧
    key_of fPrivate fp k1 = (if ok then Some k else None) ∧ (ok = true → EC_KEY_check k = true).
Proof using All.
  intros Hreg Hc Hu. pose proof (load_start fPrivate) as E. rewrite Hreg in E.
  destruct (load_ec_ok fp (Some l) k1 fPrivate s Hc Hu) as (ok & e & k & s' & El & Hl & He & Ek & Hck).
  rewrite (bind_ok _ _ _ _ _ El) in E. by exists ok, e, k, s'.
Qed.

(** What becomes of the key that the files give. *)
Definition load_result (k1 : EcKey) (s' : kmem) : Prop :=
  match private_key_of fp k1 with
  | None => load_failed s'
  | Some k =>
      if decide (i2d_ECPrivateKey k = []) then load_failed s'
      else if malloc_ok (mallocs (base s'))
      then ∃ ep, bufs (base s') !! ep = None ∧
             sca_loadKey (Some l) true s = Ok (API_LOADKEY_SUCCESS, loaded_private s' ep k)
      else load_failed (set_base (tick_malloc (base s')) s')
  end.

Lemma load_private_files k1 :
  is_regular (file_name fp SCA_CERTFILE_EXT) = true → holds_cert fp k1 → used_pkey true fp ≠ Some None →
  ∃ s', leaves (used_pkey true fp) s s' ∧ load_result k1 s'.
Proof using All.
  intros Hreg Hc Hu. destruct (load_ec_step true k1 Hreg Hc Hu) as (ok & e & k & s' & Hl & He & E & Ek & Hck).
  exists s'. split; [done|]. pose proof (leaves_refs _ _ _ Hl refs_live) as Hr.
  assert (bkeys (base s') !! l = Some b) as Hb by by rewrite (leaves_base bkeys _ _ _ (λ _ _, eq_refl) Hl).
  unfold load_result, load_failed. simpl in Ek. rewrite Ek, E. destruct ok; cbn [negb]; [|by apply int_err_ok].
  pose proof (encode_private_ok fp true e k (base s') s' (Hck eq_refl) Hr He) as Ee.
  case_decide; [exec Ee; by apply int_err_ok|]. destruct (malloc_ok _); exec Ee.
  - eexists. split; [apply (new_loc_fresh (set_ecs <[e := k]> (base s')))|].
    by erewrite bind_ok by by apply (set_keyData_ok l b).
  - by apply (int_err_ok l b e k (set_base (tick_malloc (base s')) s')).
Qed.

(** A private key file that gives a valid key holds an EC key. *)
Lemma private_key_ec k1 k : private_key_of fp k1 = Some k → used_pkey true fp ≠ Some None.
Proof using.
  unfold private_key_of, used_pkey, with_number. destruct (is_regular _); [|done]. rewrite andb_true_r.
  by destruct (file_pkey fp) as [[f|]|].
Qed.
Lemma private_key_checked k1 k : private_key_of fp k1 = Some k → EC_KEY_check k = true.
Proof using.
  unfold private_key_of. destruct (if is_regular _ then _ else _) as [x|]; simpl; [|done].
  destruct (EC_KEY_check x) eqn:Ex; [|done]. by intros [= <-].
Qed.


(** Loading a public key returns it in DER form, and leaves behind the
    [EVP_PKEY] of the decoding test with its key: they are never freed, and the
    caller has no pointer to them. *)
Theorem load_public_leaks k1 :
  is_regular (file_name fp SCA_CERTFILE_EXT) = true → holds_cert fp k1 → i2d_PUBKEY k1 ≠ [] →
  malloc_ok (mallocs (base s)) = true → malloc_ok (S (mallocs (base s))) = true →
  ∃ s' ep e pk k, sca_loadKey (Some l) false s = Ok (API_LOADKEY_SUCCESS, s') ∧
    bkeys (base s') !! l = Some (with_data b (length (i2d_PUBKEY k1)) (Some ep)) ∧
    bufs (base s') = <[ep := i2d_PUBKEY k1]> (bufs (base s)) ∧
    ecs (base s) !! e = None ∧ ecs (base s') = <[e := k]> (ecs (base s)) ∧
    pkeys s !! pk = None ∧ pkeys s' = <[pk := Some e]> (pkeys s) ∧ refs s' = refs s.
Proof using All.
  intros Hreg Hc Hd M0 M1. destruct (load_ec_step false k1 Hreg Hc) as (ok & e0 & k & s0 & Hl & He & E & Ek & _);
    unfold used_pkey in *; rewrite andb_false_r in *; [done|]. simpl in Hl. subst s0.
  simpl in Ek. destruct ok; [|done]. injection Ek as <-. cbn [negb] in E.
  destruct (decode_public k1 Hd) as (k' & Hdec & Hp).
  pose proof (encode_public_ok fp true e0 k1 k' (base s) s refs_live He Hd M0 M1 Hdec Hp) as Ee.
  rewrite (bind_ok _ _ _ _ _ Ee) in E. erewrite bind_ok in E by by apply (set_keyData_ok l b).
  eexists _, _, _, _, _. split; [exact E|]. simpl.
  split_and!; [by rewrite lookup_insert_eq|done| |done|apply new_pk_fresh|done|done].
  match goal with |- ecs (base s) !! new_loc ?m = None => exact (proj1 (proj2 (new_loc_fresh m))) end.
Qed.

(** Without a certificate file [sca_loadKey] dereferences a null pointer,
    because it sets a dummy public key on an [EC_KEY] it never created; with a
    certificate whose octets make no valid key it frees the [EC_KEY] twice,
    because [sca_BgpsecSetEcPublicKey] frees it and leaves the pointer. *)
Theorem load_bad_cert_faults fPrivate :
  is_regular (file_name fp SCA_CERTFILE_EXT) = false ∨ bad_cert fp →
  sca_loadKey (Some l) fPrivate s = Err BadAccess.
Proof using All.
  intros Hf. rewrite load_start. destruct (is_regular (file_name fp SCA_CERTFILE_EXT)).
  - destruct Hf as [?|Hb]; [done|].
    pose proof (set_public_bad fp NULL (base s) s Hb (fresh_no_ref _ _ refs_live)) as E. rewrite set_base_id in E.
    rewrite (bind_ok _ _ _ (false, Some (new_loc (base s))) s).
    2:{ unfold load_ec. rewrite (bind_ok _ _ _ (false, Some (new_loc (base s))) s); [done|]. by exec E. }
    cbn [fst snd negb]. unfold int_err. apply bind_err. rewrite <-(set_base_id s) at 2.
    apply ec_free_bad, new_loc_fresh.
  - apply bind_err. unfold load_ec. apply bind_err. rewrite <-(set_base_id s).
    exec (on_base_ok _ (base s) s _ _ (deref_ok bkeys l b _ key_live)). by apply bind_err, on_base_err.
Qed.

(** The key store does not see what loading leaves and makes. *)
Lemma loaded_store_wf o s' ep k :
  leaves o s s' → bufs (base s') !! ep = None → store_wf (base s) → store_wf (base (loaded_private s' ep k)).
Proof using All.
  intros Hlv Hep Hwf a r Hi. simpl in Hi. rewrite (leaves_base g_records _ _ _ (λ _ _, eq_refl) Hlv) in Hi.
  destruct (Hwf a r Hi) as (sk & p & q & bk & Hr & Hb & Hl & Hk). exists sk, p, q.
  unfold rec_live, loaded_private. simpl.
  rewrite (leaves_base bkeys _ _ _ (λ _ _, eq_refl) Hlv), (leaves_base recs _ _ _ (λ _ _, eq_refl) Hlv).
  rewrite <-(leaves_base bufs _ _ _ (λ _ _, eq_refl) Hlv) in *.
  destruct (decide (p = l)) as [->|Hn].
  - eexists. rewrite lookup_insert_eq. split_and!; [done|by apply insert_fresh|done|done].
  - exists bk. rewrite (lookup_insert_ne (bkeys (base s))) by done. split_and!; [done|by apply insert_fresh|done|done].
Qed.

(** C12. The API and the plug-in together: a private key that [sca_loadKey] reads
    from its files and that is then registered signs; [sign_with_id] with the
    id returned by [registerPrivateKey] writes the signature of the digest by
    the key in the files.  The files hold a usable certificate and a private
    number that make a valid key, the buffers are allocated, no key is yet
    registered for the AS number (not 0), the id is within its slot table (a
    power of two of at most 256 slots, the AS number's hash not in the last of
    256), and the library signs, with a signature that it verifies and that
    fits in the buffer.  What reading the key file leaves behind ([leaves]) does
    not disturb this. *)
Theorem load_register_sign `{!UTHashLaws} k1 k j o n sb old sg sigLen :
  is_regular (file_name fp SCA_CERTFILE_EXT) = true → holds_cert fp k1 →
  private_key_of fp k1 = Some k → i2d_ECPrivateKey k ≠ [] →
  (∀ i, (i < 4)%nat → malloc_ok (mallocs (base s) + i) = true) →
  store_wf (base s) → (0 < SKI_LENGTH)%nat → length (k_ski b) = SKI_LENGTH →
  ID_NUM_MAX = 2 ^ j → 0 ≤ j ≤ 8 → RET_ID_OFFSET = 1 → hashv (k_asn b) mod 2 ^ j < 255 →
  Z.of_nat (length (stEnbuf_Eckey (base s))) = ID_NUM_MAX →
  k_asn b ≠ 0 → HASH_FIND (k_asn b) (g_records (base s)) = None →
  (n ≤ length o)%nat → bufs (base s) !! sb = Some old →
  ECDSA_sign (signs (base s)) (SHA256 (take n o)) k = Some sg → (length sg ≤ length old)%nat →
  ECDSA_verify (SHA256 (take n o)) sg k = 1 →
  ∃ s1 r m2 m3, sca_loadKey (Some l) true s = Ok (API_LOADKEY_SUCCESS, s1) ∧
    registerPrivateKey (Some l) (base s1) = Ok (r, m2) ∧
    sign_with_id n (Some o) r sigLen (Some sb) m2 = Ok (Z.of_nat (length sg), m3) ∧
    bufs m3 !! sb = Some (sg ++ drop (length sg) old).
Proof using All.
  intros Hreg Hc Hk Hd Hm Hwf Hs0 Hsl Hid Hj Hoff Hlt Hslots Hasn Hnew Hn Hb Hsig Hlen Hv.
  destruct (load_private_files k1 Hreg Hc (private_key_ec k1 k Hk)) as (s' & Hlv & E).
  assert (∀ {A} (f : mem → A), (∀ g m, f (set_ecs g m) = f m) → f (base s') = f (base s)) as Hsame
    by (intros A f Hf; exact (leaves_base f _ _ _ Hf Hlv)).
  rewrite <-(Hsame _ mallocs (λ _ _, eq_refl)) in Hm. rewrite <-(Hsame _ stEnbuf_Eckey (λ _ _, eq_refl)) in Hslots.
  rewrite <-(Hsame _ g_records (λ _ _, eq_refl)) in Hnew. rewrite <-(Hsame _ bufs (λ _ _, eq_refl)) in Hb.
  rewrite <-(Hsame _ signs (λ _ _, eq_refl)) in Hsig. unfold load_result in E. rewrite Hk, decide_False in E by done.
  pose proof (Hm 0%nat ltac:(lia)) as M0. rewrite Nat.add_0_r in M0. rewrite M0 in E. destruct E as (ep & Hep & E).
  set (m1 := base (loaded_private s' ep k)).
  destruct (register_spec m1 l (with_data b (length (i2d_ECPrivateKey k)) (Some ep)) ep (i2d_ECPrivateKey k) k j)
    as (m' & p & nw & Er & Ha); try done.
  { by eapply loaded_store_wf. }
  { simpl. apply lookup_insert_eq. }
  { simpl. apply lookup_insert_eq. }
  { simpl. rewrite take_ge by done. by apply decode_private. }
  { intros i Hi. simpl. replace (S (mallocs (base s') + i)) with (mallocs (base s') + S i)%nat by lia. apply Hm. lia. }
  pose proof (mod_pow2_bounds (hashv (k_asn b)) j Hj).
  pose proof (private_key_checked k1 k Hk) as Hck.
  eexists _, _, _, _. split; [exact E|]. split; [exact Er|]. split.
  - apply sign_with_id_ok with (q := Some ep) (e := new_loc m1) (i := hashv (k_asn b) mod 2 ^ j) (k := k) (old := old); try done.
    + simpl; lia.
    + simpl. rewrite list_lookup_insert_eq; [done|]. rewrite (add_slots _ _ _ _ _ _ _ Ha). simpl. lia.
    + simpl. rewrite (add_ecs _ _ _ _ _ _ _ Ha). apply lookup_insert_eq.
    + apply (add_bufs _ _ _ _ _ _ _ Ha). simpl. by apply insert_fresh.
    + simpl. by rewrite (add_signs _ _ _ _ _ _ _ Ha).
  - simpl. apply lookup_insert_eq.
Qed.
End load.

(** ** Keys in DER form *)

(** [new_pub_ecpoint2Der] makes a well-formed DER SEQUENCE that the plug-in
    takes for a public key, in a new buffer of exactly its size. *)
Theorem ecpoint_der_public pt s :
  (65 ≤ length pt)%nat → malloc_ok (mallocs (base s)) = true →
  ∃ p s' body, new_pub_ecpoint2Der pt s = Ok (Some p, s') ∧ bufs (base s) !! p = None ∧
    bufs (base s') = <[p := der_seq body]> (bufs (base s)) ∧
    der_seq body = arrPubDerHead ++ take 65 pt ∧
    IS_DER_PRIVATE (Some (der_seq body)) (u16 (Z.of_nat (length (der_seq body)))) = Ok 0.
Proof.
  intros Hl Hm. set (der := arrPubDerHead ++ take 65 pt).
  assert (length (take 65 pt) = 65%nat) as Ht by (rewrite length_take; lia).
  assert (length der = 91%nat) as Hd by (unfold der; rewrite length_app, Ht; done).
  assert (der_seq (drop 2 der) = der) as Hseq.
  { unfold der_seq, der_len. rewrite length_drop, Hd. rewrite decide_True by lia. done. }
  exists (new_loc (base s)), (set_base (set_bufs <[new_loc (base s) := der]> (tick_malloc (base s))) s), (drop 2 der).
  rewrite Hseq. split_and!; [|apply new_loc_fresh|done|done|].
  - unfold new_pub_ecpoint2Der. rewrite <-(set_base_id s) at 1. unfold SIZE_DER_PUBKEY. rewrite <-Hd.
    exec (ssl_malloc_ok (length der) (base s) s Hm). cbn [is_null].
    erewrite bind_ok; [|unfold lift; by rewrite octets_ok]. by exec (fill_new_buf der (base s) s).
  - rewrite Hd. reflexivity.
Qed.

Lemma pkey_free_shared pk e k m s :
  ecs m !! e = Some k → pkeys s !! pk = None →
  EVP_PKEY_free (Some pk) (set_base m (set_refs (λ r, {[+ e +]} ⊎ r) (set_pkeys <[pk := Some e]> s))) =
  Ok (tt, set_base m s).
Proof.
  intros He Hp. unfold EVP_PKEY_free. erewrite bind_ok; [|apply pkey_ec_ok, lookup_insert_eq].
  rewrite (bind_ok _ _ _ tt (set_base m (set_refs (λ r, {[+ e +]} ⊎ r) s))); [by apply (ec_free_ref e k)|].
  unfold modify, set_pkeys, set_refs, set_base. simpl. by rewrite delete_insert_id.
Qed.

(** Reading a private key in DER form: the caller gets the octets of the file
    and the decoded key, with one reference, and the [EVP_PKEY] is freed. *)
Theorem private_stream_ok fn c k s :
  read_file (file_name fn SCA_KEYFILE_EXT) = Some c → c ≠ [] → (length c ≤ 2048)%nat →
  d2i_PrivateKey c = Some (Some k) → malloc_ok (mallocs (base s)) = true →
  ∃ p e, sca_new_PrivateKeyStream fn s =
    Ok (Some (Some p, Some e, length c),
        set_base (set_ecs <[e := k]> (set_bufs <[p := c]> (tick_malloc (base s)))) s) ∧
    bufs (base s) !! p = None ∧ ecs (base s) !! e = None.
Proof.
  intros Hf Hc Hl Hd Hm. set (p := new_loc (base s)). set (m2 := set_bufs <[p := c]> (tick_malloc (base s))).
  exists p, (new_loc m2). split; [|split; [apply new_loc_fresh|apply (new_loc_fresh m2)]].
  unfold sca_new_PrivateKeyStream. unfold file_name in Hf. rewrite Hf, take_ge by done.
  rewrite decide_False by (by destruct c). rewrite <-(set_base_id s) at 1.
  exec (ssl_malloc_ok (length c) (base s) s Hm). cbn [is_null]. exec (fill_new_buf c (base s) s). rewrite Hd.
  fold p m2. set (m3 := set_ecs <[new_loc m2 := k]> m2).
  assert (ecs m3 !! new_loc m2 = Some k) as He by apply lookup_insert_eq.
  rewrite (bind_ok _ _ _ (Some (new_pk s)) (set_base m3 (set_pkeys <[new_pk s := Some (new_loc m2)]> s))).
  2:{ unfold new_pkey. rewrite (bind_ok _ _ _ (Some (new_loc m2)) (set_base m3 s)) by by apply on_base_ok. done. }
  rewrite (bind_ok _ _ _ (Some (new_loc m2))
    (set_base m3 (set_refs (λ r, {[+ new_loc m2 +]} ⊎ r) (set_pkeys <[new_pk s := Some (new_loc m2)]> s)))).
  2:{ unfold EVP_PKEY_get1_EC_KEY. erewrite bind_ok; [|apply pkey_ec_ok, lookup_insert_eq].
      cbv iota beta. by exec (up_ref_ok (new_loc m2) k m3 (set_pkeys <[new_pk s := Some (new_loc m2)]> s) He). }
  by exec (pkey_free_shared (new_pk s) (new_loc m2) k m3 s He (new_pk_fresh s)).
Qed.

(** [eckey_type2param] makes one new key, or fails and leaves nothing behind. *)
Theorem type2param_no_leak p s :
  refs_wf s →
  eckey_type2param p s = Ok (NULL, s) ∨
  ∃ k, eckey_type2param p s =
    Ok (Some (new_loc (base s)), set_base (set_ecs <[new_loc (base s) := k]> (base s)) s).
Proof.
  intros Hr%fresh_no_ref. cut (eckey_type2param p (set_base (base s) s) = Ok (NULL, set_base (base s) s) ∨
    ∃ k, eckey_type2param p (set_base (base s) s) =
      Ok (Some (new_loc (base s)), set_base (set_ecs <[new_loc (base s) := k]> (base s)) s)).
  { by rewrite !set_base_id. }
  unfold eckey_type2param. destruct p as [o|pm].
  - destruct EC_KEY_new as [k|]; [|by left].
    rewrite (bind_ok _ _ _ (Some (new_loc (base s))) (set_base (set_ecs <[new_loc (base s) := k]> (base s)) s)) by by apply on_base_ok.
    destruct (EC_GROUP_new_by_curve_name _) as [g|]; [|left; by exec (ec_free_new k (base s) s Hr)].
    destruct (EC_KEY_set_group _ _) as [k'|]; [|left; by exec (ec_free_new k (base s) s Hr)].
    right. exists k'. by exec (upd_new_ec k k' (base s) s).
  - destruct (d2i_ECParameters pm) as [k|]; [|by left]. right. exists k. by apply on_base_ok.
Qed.
End proofs.

(** ** A concrete instance

    A key is its public octets and its private number (0 for none); all files
    exist, and the certificate's octets are a valid point iff [good]. *)
Module Files.
#[local] Existing Instances Toy.toy_consts Toy.toy_hash Toy.toy_hash_laws.

Definition file_ssl (good ec : bool) : OpenSSL := {|
  EcKey := list Z * Z; EcGroup := Z; EcPoint := list Z; BigNum := Z;
  NID_X9_62_prime256v1 := 415; sizeof_EC_KEY := 8;
  d2i_ECPrivateKey b := match b with [] => None | p :: pub => Some (pub, p) end;
  d2i_PUBKEY b := Some (Some (b, 0));
  has_public_key k := negb (bool_decide (k.1 = [])); EC_KEY_check k := negb (bool_decide (k.1 = []));
  SHA256 d := d;
  ECDSA_verify d s k := if decide (s = Toy.checksum d (k.2 :: k.1)) then 1 else 0;
  ECDSA_sign _ d k := Some (Toy.checksum d (k.2 :: k.1));
  EC_KEY_new_by_curve_name _ := Some ([], 0); EC_GROUP_new_by_curve_name := Some;
  EC_POINT_oct2point _ p := if good then Some p else None;
  EC_KEY_set_public_key k p := Some (p, k.2);
  EC_KEY_set_private_key k n := Some (k.1, n); can_read _ := true;
  PEM_read_PrivateKey _ := Some (if ec then Some ([4; 5; 6], 77) else None);
  EC_KEY_get0_private_key k := Some k.2; d2i_X509 _ := Some [4; 5; 6]; malloc_ok _ := true
|}.

Definition file_lib (good ec : bool) : @KeyLib (file_ssl good ec) := {|
  stat _ := Some 33188; read_file _ := Some [77; 4; 5; 6];
  i2d_ECPrivateKey (k : @EcKey (file_ssl good ec)) := if decide (k.2 = 0) then [] else k.2 :: k.1;
  i2d_PUBKEY (k : @EcKey (file_ssl good ec)) := k.1;
  d2i_PrivateKey b := Some (match b with [] => None | p :: pub => Some ((pub, p) : @EcKey (file_ssl good ec)) end);
  dummy_point _ := ([] : @EcPoint (file_ssl good ec));
  Oid := Z; OBJ_nid2obj n := n; OBJ_obj2nid n := n;
  EC_KEY_get0_group _ := Some (415 : @EcGroup (file_ssl good ec)); EC_GROUP_get_asn1_flag _ := 1;
  EC_GROUP_get_curve_name g := g; EC_GROUP_set_named g := g;
  i2d_ECParameters _ := None; d2i_ECParameters _ := None; EC_KEY_new := Some (([], 0) : @EcKey (file_ssl good ec));
  EC_KEY_set_group k _ := Some k
|}.

#[local] Instance ssl1 : OpenSSL := file_ssl true true.
#[local] Instance lib1 : KeyLib := file_lib true true.
Lemma file_laws good ec : @KeyLaws (file_ssl good ec) (file_lib good ec).
Proof.
  split; simpl.
  - done.
  - intros [pub p]. simpl. case_decide; done.
  - intros [pub p] Hp. exists (pub, 0). simpl in *. split; [done|]. by rewrite bool_decide_false.
Qed.
#[local] Instance laws1 : KeyLaws := file_laws true true.

Definition key0 : bskey := BsKey 1 0 NULL 65001 [10; 20].
Definition fmem (ssl : OpenSSL) : @kmem Toy.toy_hash ssl := KMem
  (Mem {[ 7%positive := [0; 0; 0] ]} ∅ {[ 5%positive := key0 ]} ∅ h_empty
     (replicate 16 (Slot NULL NULL 0)) [47] 0 0) ∅ ∅.
Abbreviation s0 := (fmem ssl1).

Lemma fmem_refs ssl : refs_wf (fmem ssl).
Proof. intros l Hl. exfalso. revert Hl. unfold fmem. simpl. multiset_solver. Qed.
Lemma ski0 : ski_ok (k_ski key0).
Proof. split; simpl; lia. Qed.
Lemma cert_any ec fp : @holds_cert (file_ssl true ec) fp ([4; 5; 6], 0).
Proof.
  exists [4; 5; 6], (@pair (list Z) Z [] 0), 415, [4; 5; 6].
  split_and!; [split; [reflexivity|simpl; lia|reflexivity|reflexivity]|reflexivity..].
Qed.
Lemma cert0 fp : holds_cert fp ([4; 5; 6], 0).
Proof. apply cert_any. Qed.
Lemma bad0 fp : @bad_cert (file_ssl false true) fp.
Proof.
  exists [4; 5; 6], (@pair (list Z) Z [] 0), 415.
  split; [split; [reflexivity|simpl; lia|reflexivity|reflexivity]|exact I].
Qed.

Definition key77 : @EcKey ssl1 := ([4; 5; 6], 77).

Lemma load_public_leaks_witness :
  ∃ s' ep e pk k, sca_loadKey (Some 5%positive) false s0 = Ok (API_LOADKEY_SUCCESS, s') ∧
    bkeys (base s') !! 5%positive = Some (with_data key0 (length (i2d_PUBKEY ([4; 5; 6], 0))) (Some ep)) ∧
    bufs (base s') = <[ep := i2d_PUBKEY ([4; 5; 6], 0)]> (bufs (base s0)) ∧
    ecs (base s0) !! e = None ∧ ecs (base s') = <[e := k]> (ecs (base s0)) ∧
    pkeys s0 !! pk = None ∧ pkeys s' = <[pk := Some e]> (pkeys s0) ∧ refs s' = refs s0.
Proof.
  apply (load_public_leaks s0 5 key0) with (k1 := ([4; 5; 6], 0)); [reflexivity|apply ski0|apply fmem_refs|
    vm_compute; reflexivity|apply cert0|discriminate|reflexivity|reflexivity].
Defined.

Lemma load_bad_cert_faults_witness :
  @sca_loadKey _ _ (file_ssl false true) (file_lib false true) (Some 5%positive) true (fmem (file_ssl false true)) = Err BadAccess.
Proof.
  apply (@load_bad_cert_faults _ _ _ (file_lib false true) (file_laws false true) (fmem (file_ssl false true)) 5 key0); [reflexivity|apply ski0|apply fmem_refs|].
  right. apply bad0.
Defined.

Lemma load_register_sign_witness :
  ∃ s1 r m2 m3, sca_loadKey (Some 5%positive) true s0 = Ok (API_LOADKEY_SUCCESS, s1) ∧
    registerPrivateKey (Some 5%positive) (base s1) = Ok (r, m2) ∧
    sign_with_id 2 (Some [1; 2; 3]) r 3 (Some 7%positive) m2 = Ok (1, m3) ∧
    bufs m3 !! 7%positive = Some (Toy.checksum [1; 2] [77; 4; 5; 6] ++ [0; 0]).
Proof.
  apply (load_register_sign s0 5 key0) with (k1 := ([4; 5; 6], 0)) (k := ([4; 5; 6], 77)) (j := 4) (old := [0; 0; 0])
    (sg := Toy.checksum [1; 2] [77; 4; 5; 6]);
    first [reflexivity|apply ski0|apply fmem_refs|apply cert0|discriminate|vm_compute; reflexivity|idtac].
  all: try (simpl; lia).
  - apply Toy.toy_hash_laws.
  - intros asn l Hi. by apply elem_of_nil in Hi.
Defined.

Lemma ecpoint_der_public_witness :
  ∃ p s' body, new_pub_ecpoint2Der (replicate 65 4) s0 = Ok (Some p, s') ∧ bufs (base s0) !! p = None ∧
    bufs (base s') = <[p := der_seq body]> (bufs (base s0)) ∧
    der_seq body = arrPubDerHead ++ replicate 65 4 ∧
    IS_DER_PRIVATE (Some (der_seq body)) (u16 (Z.of_nat (length (der_seq body)))) = Ok 0.
Proof. apply (ecpoint_der_public (replicate 65 4) s0); [simpl; lia|reflexivity]. Defined.

Lemma private_stream_ok_witness :
  ∃ p e, sca_new_PrivateKeyStream [47] s0 =
    Ok (Some (Some p, Some e, 4%nat),
        set_base (set_ecs <[e := key77]> (set_bufs <[p := [77; 4; 5; 6]]> (tick_malloc (base s0)))) s0) ∧
    bufs (base s0) !! p = None ∧ ecs (base s0) !! e = None.
Proof.
  apply (private_stream_ok [47] [77; 4; 5; 6] key77 s0); [reflexivity|discriminate|simpl; lia|reflexivity|reflexivity].
Defined.
End Files.
