(* ===== verification/KeyCopy.v ===== *)
(** * Copying a key and setting its octets ([bgpsec_openssl-VariousKeyManipulation.c], from line 1216)

    [dupEVP_PKEY] makes an [EVP_PKEY] with a copy of the [EC_KEY] of another;
    [EVP_PKEY_set_keys] sets the public point and the private number of the
    [EC_KEY] that an [EVP_PKEY] refers to, in place.  The memory is the one of
    [KeyLoad]: an [EVP_PKEY] that refers to no [EC_KEY] has another type than
    [EVP_PKEY_EC].  Points, numbers and the scratch [BN_CTX] are values; that they
    can be allocated is asked of [malloc_ok]. *)

From stdpp Require Import base gmap gmultiset list strings.
From Stdlib Require Import ZArith Lia.
From S2P Require Import Prelude BgpsecLib Bgpsec KeyLoad.

Local Open Scope Z_scope.

Class KeyNum `{OpenSSL} := BN_bin2bn : list Z → BigNum.

Section code.
Context `{UTHash} `{KL : KeyLib} `{!KeyNum}.
Abbreviation K := (M kmem).

(** A library object that is not modelled is allocated. *)
Definition ssl_alloc : K bool := λ s,
  Ok (malloc_ok (mallocs (base s)), set_base (tick_malloc (base s)) s).

Definition EC_KEY_dup (ec : ptr) : K ptr :=
  k ← on_base (deref ecs ec);
  ok ← ssl_alloc;
  if ok : bool then on_base (new_ec k) else mret NULL.

Definition dupEVP_PKEY (key : ptr) : K ptr :=
  out ← EVP_PKEY_new;
  let err (ec_in : ptr) : K ptr := ec_free ec_in;; mret NULL in
  if is_null out then err NULL
  else
    type ← pkey_ec key;
    match type with
    | None => err NULL
    | Some _ =>
        ec_in ← EVP_PKEY_get1_EC_KEY key;
        if is_null ec_in then err NULL
        else
          ec_out ← EC_KEY_dup ec_in;
          if is_null ec_out then err ec_in
          else
            EVP_PKEY_set1_EC_KEY out ec_out;;
            ec_free ec_out;;
            ec_free ec_in;;
            mret out
    end.

(** The block [if (pubkey)]; [false] where it goes to [err]. *)
Definition set_pubkey (ec_key : ptr) (group : option EcGroup) (pubkey : option (list Z)) (pubkey_len : nat) : K bool :=
  match pubkey, group with
  | None, _ => mret true
  | Some _, None => mret false
  | Some pubkey, Some group =>
      ok ← ssl_alloc;
      if negb ok then mret false
      else
        oct ← lift (octets pubkey pubkey_len);
        match EC_POINT_oct2point group oct with
        | None => mret false
        | Some ec_point =>
            k ← on_base (deref ecs ec_key);
            match EC_KEY_set_public_key k ec_point with
            | None => mret false
            | Some k' => upd_ec ec_key k';; mret true
            end
        end
  end.

(** The block [if (privkey)]. *)
Definition set_privkey (ec_key : ptr) (privkey : option (list Z)) (privkey_len : nat) : K bool :=
  match privkey with
  | None => mret true
  | Some privkey =>
      oct ← lift (octets privkey privkey_len);
      ok ← ssl_alloc;
      if negb ok then mret false
      else
        k ← on_base (deref ecs ec_key);
        match EC_KEY_set_private_key k (BN_bin2bn oct) with
        | None => mret false
        | Some k' => upd_ec ec_key k';; mret true
        end
  end.

Definition EVP_PKEY_set_keys (evp_pkey : ptr) (privkey : option (list Z)) (privkey_len : nat)
    (pubkey : option (list Z)) (pubkey_len : nat) : K Z :=
  type ← pkey_ec evp_pkey;
  let err (ec_key : ptr) (ok : Z) : K Z := ec_free ec_key;; mret ok in
  match type with
  | None => err NULL 0
  | Some _ =>
      ec_key ← EVP_PKEY_get1_EC_KEY evp_pkey;
      if is_null ec_key then err NULL 0
      else
        k ← on_base (deref ecs ec_key);
        ok ← set_pubkey ec_key (EC_KEY_get0_group k) pubkey pubkey_len;
        if negb ok then err ec_key 0
        else
          ok ← set_privkey ec_key privkey privkey_len;
          if negb ok then err ec_key 0
          else
            EVP_PKEY_set1_EC_KEY evp_pkey ec_key;;
            err ec_key 1
  end.
End code.
