(* ===== verification/KeyCopyProofs.v ===== *)
(** * Copying a key and setting its octets: correctness

    [EVP_PKEY_set_keys] on every branch ([set_keys_spec]), [dupEVP_PKEY] and what
    it leaks ([dup_spec]), and the two together: the octets set in a copy never
    reach the key it was made of ([copy_is_private]). *)

From stdpp Require Import base gmap gmultiset list strings.
From Stdlib Require Import ZArith Lia.
From S2P Require Import Prelude CryptoApi BgpsecLib Bgpsec BgpsecProofs KeyLoad KeyLoadProofs KeyCopy.

Local Open Scope Z_scope.

Section proofs.
Context `{UTHash} `{KL : KeyLib} `{!KeyNum}.

(** The memory with a key at [e], after some allocations. *)
Definition key_at (e : loc) (k : EcKey) (n : nat) (s : kmem) : kmem :=
  set_base (set_ecs <[e := k]> (Nat.iter n tick_malloc (base s))) s.
Abbreviation more_ref e s := (set_refs (λ r, {[+ e +]} ⊎ r) s).

Lemma key_at_ref e k n s : key_at e k n (more_ref e s) = more_ref e (key_at e k n s).
Proof. done. Qed.
Lemma iter_tick n m :
  bufs (Nat.iter n tick_malloc m) = bufs m ∧ ecs (Nat.iter n tick_malloc m) = ecs m ∧
  mallocs (Nat.iter n tick_malloc m) = (n + mallocs m)%nat.
Proof. induction n as [|n (? & ? & ?)]; [done|]. simpl. split_and!; [done..|]. by f_equal. Qed.
Lemma key_at_0 e k s : ecs (base s) !! e = Some k → key_at e k 0 s = s.
Proof.
  intros He. unfold key_at, set_ecs. simpl. rewrite insert_id by done. by destruct s as [[] ? ?].
Qed.

Lemma deref_key e k n s : on_base (deref ecs (Some e)) (key_at e k n s) = Ok (k, key_at e k n s).
Proof. apply on_base_ok, deref_ok, lookup_insert_eq. Qed.
Lemma upd_key e k k' n s : upd_ec (Some e) k' (key_at e k n s) = Ok (tt, key_at e k' n s).
Proof. unfold upd_ec. apply on_base_ok. unfold modify, set_ecs. simpl. by rewrite insert_insert_eq. Qed.
Lemma alloc_key e k n s :
  ssl_alloc (key_at e k n s) = Ok (malloc_ok (n + mallocs (base s)), key_at e k (S n) s).
Proof. unfold ssl_alloc, key_at. simpl. by rewrite (proj2 (proj2 (iter_tick n (base s)))). Qed.
Lemma free_key e k n s : ec_free (Some e) (more_ref e (key_at e k n s)) = Ok (tt, key_at e k n s).
Proof. apply (ec_free_ref e k (set_ecs <[e := k]> (Nat.iter n tick_malloc (base s))) s), lookup_insert_eq. Qed.
Lemma get1_key pk e k n s : pkeys s !! pk = Some (Some e) →
  EVP_PKEY_get1_EC_KEY (Some pk) (key_at e k n s) = Ok (Some e, more_ref e (key_at e k n s)).
Proof.
  intros Hp. unfold EVP_PKEY_get1_EC_KEY. erewrite bind_ok by by apply pkey_ec_ok. cbv iota beta.
  by exec (up_ref_ok e k (set_ecs <[e := k]> (Nat.iter n tick_malloc (base s))) s (lookup_insert_eq _ _ _)).
Qed.
(** Storing the key that is there already. *)
Lemma set1_same pk e k n s : pkeys s !! pk = Some (Some e) →
  EVP_PKEY_set1_EC_KEY (Some pk) (Some e) (more_ref e (key_at e k n s)) = Ok (tt, more_ref e (key_at e k n s)).
Proof.
  intros Hp. unfold EVP_PKEY_set1_EC_KEY. erewrite bind_ok by by apply pkey_ec_ok. cbv iota beta.
  set (m := set_ecs <[e := k]> (Nat.iter n tick_malloc (base s))).
  exec (up_ref_ok e k m (more_ref e s) (lookup_insert_eq _ _ _)).
  exec (ec_free_ref e k m (more_ref e s) (lookup_insert_eq _ _ _)).
  unfold modify, set_pkeys. simpl. rewrite insert_id by done. done.
Qed.

(** ** [EVP_PKEY_set_keys] *)

(** What the octets make of a key. *)
Definition with_pub (pub : option (list Z)) (n : nat) (k : EcKey) : option EcKey :=
  match pub with
  | None => Some k
  | Some p => g ← EC_KEY_get0_group k; pt ← EC_POINT_oct2point g (take n p); EC_KEY_set_public_key k pt
  end.
Definition with_priv (priv : option (list Z)) (n : nat) (k : EcKey) : option EcKey :=
  match priv with None => Some k | Some p => EC_KEY_set_private_key k (BN_bin2bn (take n p)) end.
(** The octets are there. *)
Definition given (o : option (list Z)) (n : nat) : Prop := match o with Some p => (n ≤ length p)%nat | None => True end.
Definition asks (o : option (list Z)) : nat := match o with Some _ => 1 | None => 0 end.

Lemma set_pubkey_ok e k n s pub plen : given pub plen →
  ∃ ok k' n', set_pubkey (Some e) (EC_KEY_get0_group k) pub plen (key_at e k n s) = Ok (ok, key_at e k' (n' + n) s) ∧
    (ok = true ∧ with_pub pub plen k = Some k' ∧ n' = asks pub ∨
     ok = false ∧ k' = k ∧ (with_pub pub plen k = None ∨ malloc_ok (n + mallocs (base s)) = false)).
Proof.
  intros Hg. unfold set_pubkey, with_pub. destruct pub as [p|]; [|by exists true, k, 0%nat; split; [|left]].
  destruct (EC_KEY_get0_group k) as [g|]; cbn [mbind option_bind];
    [|by exists false, k, 0%nat; split; [|right; split_and!; [..|left]]].
  exec (alloc_key e k n s). destruct (malloc_ok (n + mallocs (base s))); cbn [negb];
    [|by exists false, k, 1%nat; split; [|right; split_and!; [..|right]]].
  rewrite (bind_ok _ _ _ (take plen p) (key_at e k (S n) s)) by (unfold lift; by rewrite octets_ok).
  destruct (EC_POINT_oct2point g (take plen p)) as [pt|]; cbn [mbind option_bind];
    [|by exists false, k, 1%nat; split; [|right; split_and!; [..|left]]].
  exec (deref_key e k (S n) s). destruct (EC_KEY_set_public_key k pt) as [k'|];
    [|by exists false, k, 1%nat; split; [|right; split_and!; [..|left]]].
  exec (upd_key e k k' (S n) s). by exists true, k', 1%nat; split; [|left].
Qed.

Lemma set_privkey_ok e k n s priv plen : given priv plen →
  ∃ ok k' n', set_privkey (Some e) priv plen (key_at e k n s) = Ok (ok, key_at e k' (n' + n) s) ∧
    (ok = true ∧ with_priv priv plen k = Some k' ∨
     ok = false ∧ k' = k ∧ (with_priv priv plen k = None ∨ malloc_ok (n + mallocs (base s)) = false)).
Proof.
  intros Hg. unfold set_privkey, with_priv. destruct priv as [p|]; [|by exists true, k, 0%nat; split; [|left]].
  rewrite (bind_ok _ _ _ (take plen p) (key_at e k n s)) by (unfold lift; by rewrite octets_ok).
  exec (alloc_key e k n s). destruct (malloc_ok (n + mallocs (base s))); cbn [negb];
    [|by exists false, k, 1%nat; split; [|right; split_and!; [..|right]]].
  exec (deref_key e k (S n) s). destruct (EC_KEY_set_private_key k _) as [k'|];
    [|by exists false, k, 1%nat; split; [|right; split_and!; [..|left]]].
  exec (upd_key e k k' (S n) s). by exists true, k', 1%nat; split; [|left].
Qed.

(** Every branch of [EVP_PKEY_set_keys] on an EC key, from any number of earlier
    allocations on. *)
Lemma set_keys_run pk e k n s priv privlen pub publen :
  pkeys s !! pk = Some (Some e) → given priv privlen → given pub publen →
  ∃ r k' n', EVP_PKEY_set_keys (Some pk) priv privlen pub publen (key_at e k n s) = Ok (r, key_at e k' n' s) ∧
    (r = 1 ∧ with_pub pub publen k ≫= with_priv priv privlen = Some k' ∨
     r = 0 ∧ (k' = k ∨ with_pub pub publen k = Some k') ∧
       (with_pub pub publen k ≫= with_priv priv privlen = None ∨ ∃ i, (i < 2)%nat ∧ malloc_ok (i + n + mallocs (base s)) = false)).
Proof.
  intros Hp Hpriv Hpub. unfold EVP_PKEY_set_keys. erewrite bind_ok by by apply pkey_ec_ok. cbv iota beta zeta.
  exec (get1_key pk e k n s Hp). cbn [is_null]. rewrite <-key_at_ref. exec (deref_key e k n (more_ref e s)).
  destruct (set_pubkey_ok e k n (more_ref e s) pub publen Hpub) as (ok & k1 & n1 & E1 & Hr1). exec E1.
  destruct Hr1 as [(-> & Hw & ->)|(-> & -> & Hw)]; cbn [negb].
  2:{ rewrite key_at_ref. exec (free_key e k (n1 + n) s). eexists _, k, _. split; [done|]. right. split; [done|].
      split; [by left|]. destruct Hw as [-> | Hm]; [by left|right]. exists 0%nat. split; [lia|done]. }
  destruct (set_privkey_ok e k1 (asks pub + n) (more_ref e s) priv privlen Hpriv) as (ok & k2 & n2 & E2 & Hr2). exec E2.
  rewrite Hw. cbn [mbind option_bind]. rewrite key_at_ref.
  destruct Hr2 as [(-> & Hw2)|(-> & -> & Hw2)]; cbn [negb].
  - exec (set1_same pk e k2 (n2 + (asks pub + n)) s Hp). exec (free_key e k2 (n2 + (asks pub + n)) s).
    eexists _, k2, _. split; [done|]. by left.
  - exec (free_key e k1 (n2 + (asks pub + n)) s). eexists _, k1, _. split; [done|]. right. split; [done|].
    split; [by right|]. destruct Hw2 as [-> | Hm]; [by left|right]. exists (asks pub).
    split; [destruct pub; simpl; lia|done].
Qed.

(** [EVP_PKEY_set_keys] on an EC key.  It returns 1 when the octets make a
    public point and a private number of the key, and then exactly the [EC_KEY]
    that the [EVP_PKEY] refers to has both; it returns 0 only when they do not, or
    an allocation fails, and then the [EC_KEY] is unchanged or has the new public
    point only.  Whatever happens, all references are given back, the [EVP_PKEY]
    refers to the same [EC_KEY], and nothing else changes. *)
Theorem set_keys_spec pk e k s priv privlen pub publen :
  pkeys s !! pk = Some (Some e) → ecs (base s) !! e = Some k → given priv privlen → given pub publen →
  ∃ r k' n, EVP_PKEY_set_keys (Some pk) priv privlen pub publen s =
      Ok (r, set_base (set_ecs <[e := k']> (Nat.iter n tick_malloc (base s))) s) ∧
    (r = 1 ∧ with_pub pub publen k ≫= with_priv priv privlen = Some k' ∨
     r = 0 ∧ (k' = k ∨ with_pub pub publen k = Some k') ∧
       (with_pub pub publen k ≫= with_priv priv privlen = None ∨ ∃ i, (i < 2)%nat ∧ malloc_ok (i + mallocs (base s)) = false)).
Proof.
  intros Hp He Hpriv Hpub.
  destruct (set_keys_run pk e k 0 s priv privlen pub publen Hp Hpriv Hpub) as (r & k' & n & E & Hr).
  rewrite (key_at_0 e k s He) in E. exists r, k', n. split; [exact E|].
  destruct Hr as [?|(? & ? & [?|(i & ? & Hm)])]; [by left|right; by split_and!; [..|left]|].
  right. split_and!; [done..|]. right. exists i. split; [done|]. by rewrite Nat.add_0_r in Hm.
Qed.
(** ** [dupEVP_PKEY] *)
Lemma new_ec_fresh m : ecs m !! new_loc m = None.
Proof. apply new_loc_fresh. Qed.

(** The memory with a copy of [k], referred to by a new [EVP_PKEY]. *)
Definition with_copy (k : EcKey) (s : kmem) : kmem :=
  key_at (new_loc (base s)) k 2 (set_pkeys <[new_pk s := Some (new_loc (base s))]> s).

Lemma dup_ok pk e k s :
  pkeys s !! pk = Some (Some e) → ecs (base s) !! e = Some k →
  malloc_ok (mallocs (base s)) = true →
  dupEVP_PKEY (Some pk) s =
    if malloc_ok (S (mallocs (base s))) then Ok (Some (new_pk s), with_copy k s)
    else Ok (NULL, set_base (Nat.iter 2 tick_malloc (base s)) (set_pkeys <[new_pk s := NULL]> s)).
Proof.
  intros Hp He Hm. set (s1 := set_base (tick_malloc (base s)) (set_pkeys <[new_pk s := NULL]> s)).
  unfold dupEVP_PKEY. rewrite (bind_ok _ _ _ (Some (new_pk s)) s1) by (unfold EVP_PKEY_new; by rewrite Hm).
  cbn [is_null]. cbv zeta.
  assert (pkeys s1 !! pk = Some (Some e)) as Hp1.
  { simpl. rewrite lookup_insert_ne; [done|]. intros E. pose proof (new_pk_fresh s). congruence. }
  erewrite bind_ok by by apply pkey_ec_ok. cbv iota beta.
  rewrite (bind_ok _ _ _ (Some e) (more_ref e s1)).
  2:{ unfold EVP_PKEY_get1_EC_KEY. erewrite bind_ok by by apply pkey_ec_ok. cbv iota beta.
      by exec (up_ref_ok e k (base s1) (set_pkeys <[new_pk s := NULL]> s) He). }
  cbn [is_null]. set (m2 := Nat.iter 2 tick_malloc (base s)).
  assert (EC_KEY_dup (Some e) (more_ref e s1) =
    if malloc_ok (S (mallocs (base s)))
    then Ok (Some (new_loc (base s)), set_base (set_ecs <[new_loc (base s) := k]> m2) (more_ref e s1))
    else Ok (NULL, set_base m2 (more_ref e s1))) as Hd.
  { unfold EC_KEY_dup. exec (on_base_ok _ (base s1) (more_ref e s1) _ _ (deref_ok ecs e k (base s1) He)).
    erewrite bind_ok by done. simpl. by destruct (malloc_ok (S (mallocs (base s)))). }
  destruct (malloc_ok (S (mallocs (base s)))); exec Hd; cbn [is_null].
  2:{ by exec (ec_free_ref e k m2 (set_pkeys <[new_pk s := NULL]> s) He). }
  set (m3 := set_ecs <[new_loc (base s) := k]> m2).
  assert (ecs m3 !! new_loc (base s) = Some k) as Hn by apply lookup_insert_eq.
  exec (set1_ok (new_loc (base s)) k m3 (more_ref e s) Hn).
  exec (ec_free_ref (new_loc (base s)) k m3 (set_pkeys <[new_pk s := Some (new_loc (base s))]> (more_ref e s)) Hn).
  assert (ecs m3 !! e = Some k) as He3 by (apply insert_fresh; [exact (new_ec_fresh (base s))|done]).
  by exec (ec_free_ref e k m3 (set_pkeys <[new_pk s := Some (new_loc (base s))]> s) He3).
Qed.

(** [dupEVP_PKEY] of an EC key returns a new [EVP_PKEY] that is the only one to
    refer to a new [EC_KEY], a copy of the key's, and gives back the reference it
    took.  Where the copy cannot be allocated it returns [NULL] and leaks the new
    [EVP_PKEY]. *)
Theorem dup_spec pk e k s :
  pkeys s !! pk = Some (Some e) → ecs (base s) !! e = Some k →
  malloc_ok (mallocs (base s)) = true →
  ∃ o, pkeys s !! o = None ∧
    if malloc_ok (S (mallocs (base s)))
    then ∃ e' s', dupEVP_PKEY (Some pk) s = Ok (Some o, s') ∧ ecs (base s) !! e' = None ∧
      pkeys s' = <[o := Some e']> (pkeys s) ∧ ecs (base s') = <[e' := k]> (ecs (base s)) ∧ refs s' = refs s
    else ∃ s', dupEVP_PKEY (Some pk) s = Ok (NULL, s') ∧
      pkeys s' = <[o := NULL]> (pkeys s) ∧ ecs (base s') = ecs (base s) ∧ refs s' = refs s.
Proof.
  intros Hp He Hm. exists (new_pk s). split; [apply new_pk_fresh|]. rewrite (dup_ok pk e k s Hp He Hm).
  destruct (malloc_ok (S (mallocs (base s)))); [|by eexists].
  exists (new_loc (base s)). eexists. split; [done|]. split; [apply new_ec_fresh|]. done.
Qed.

(** A copy of a key is private: [EVP_PKEY_set_keys] on what [dupEVP_PKEY]
    returns gives the copy the public point and the private number that the octets
    make of the key, and returns 1, or returns 0 where the octets make none or an
    allocation fails; with either outcome the key the copy was made of is as it
    was, and freeing the copy afterwards leaves the memory as before the copy was
    made, but for the number of allocations. *)
Theorem copy_is_private pk e k s priv privlen pub publen :
  refs_wf s → pkeys s !! pk = Some (Some e) → ecs (base s) !! e = Some k →
  malloc_ok (mallocs (base s)) = true → malloc_ok (S (mallocs (base s))) = true →
  given priv privlen → given pub publen →
  ∃ o s1 r s2 n, dupEVP_PKEY (Some pk) s = Ok (Some o, s1) ∧
    EVP_PKEY_set_keys (Some o) priv privlen pub publen s1 = Ok (r, s2) ∧
    (r = 1 ∧ (∃ e' k', pkeys s2 !! o = Some (Some e') ∧ ecs (base s2) !! e' = Some k' ∧
       with_pub pub publen k ≫= with_priv priv privlen = Some k') ∨
     r = 0 ∧ (with_pub pub publen k ≫= with_priv priv privlen = None ∨
       ∃ i, (2 ≤ i < 4)%nat ∧ malloc_ok (i + mallocs (base s)) = false)) ∧
    pkeys s2 !! pk = Some (Some e) ∧ ecs (base s2) !! e = Some k ∧
    EVP_PKEY_free (Some o) s2 = Ok (tt, set_base (Nat.iter n tick_malloc (base s)) s).
Proof.
  intros Hw Hp He Hm Hm' Hpriv Hpub. set (e' := new_loc (base s)). set (s' := set_pkeys <[new_pk s := Some e']> s).
  destruct (set_keys_run (new_pk s) e' k 2 s' priv privlen pub publen) as (r & k' & n & E & Hr); try done.
  { apply lookup_insert_eq. }
  exists (new_pk s), (with_copy k s), r, (key_at e' k' n s'), n.
  split; [by rewrite (dup_ok pk e k s Hp He Hm), Hm'|]. split; [exact E|].
  destruct (iter_tick n (base s)) as (_ & Hecs & _).
  split_and!.
  - destruct Hr as [[-> Hr]|(-> & _ & Hr)]; [left|right]; (split; [done|]).
    + exists e', k'. split; [apply lookup_insert_eq|]. split; [apply lookup_insert_eq|done].
    + destruct Hr as [?|(i & ? & Hi)]; [by left|right]. exists (i + 2)%nat. split; [lia|done].
  - simpl. rewrite lookup_insert_ne; [done|]. intros Eq. pose proof (new_pk_fresh s). congruence.
  - simpl. rewrite Hecs. apply insert_fresh; [exact (new_ec_fresh (base s))|done].
  - unfold key_at, s'. rewrite (pkey_free_ok e' k') by (apply lookup_insert_eq || by apply fresh_no_ref).
    f_equal. f_equal. f_equal. unfold set_ecs. simpl. rewrite Hecs, delete_insert_id by apply new_ec_fresh.
    rewrite <-Hecs. by destruct (Nat.iter n tick_malloc (base s)).
Qed.
End proofs.

(** ** A concrete key *)
Module Copies.
#[local] Existing Instances Toy.toy_hash Files.ssl1 Files.lib1.
#[local] Instance num1 : @KeyNum Files.ssl1 := λ b, foldl (λ n o, 256 * n + o) 0 b.

Definition key (pub : list Z) (priv : Z) : @EcKey Files.ssl1 := (pub, priv).

(** Two [EVP_PKEY] objects share a key. *)
Definition s1 : kmem := KMem
  (Mem ∅ {[ 3%positive := key [4; 5; 6] 77 ]} ∅ ∅ h_empty [] [47] 0 0)
  {[+ 3%positive +]} {[ 1%positive := Some 3%positive; 2%positive := Some 3%positive ]}.

Lemma copy_is_private_witness :
  ∃ o s2 r s3 n, dupEVP_PKEY (Some 1%positive) s1 = Ok (Some o, s2) ∧
    EVP_PKEY_set_keys (Some o) (Some [1; 2]) 2 (Some [4; 9; 9]) 3 s2 = Ok (r, s3) ∧
    r = 1 ∧ (∃ e', pkeys s3 !! o = Some (Some e') ∧ ecs (base s3) !! e' = Some (key [4; 9; 9] 258)) ∧
    ecs (base s3) !! 3%positive = Some (key [4; 5; 6] 77) ∧
    EVP_PKEY_free (Some o) s3 = Ok (tt, set_base (Nat.iter n tick_malloc (base s1)) s1).
Proof.
  destruct (copy_is_private 1 3 (key [4; 5; 6] 77) s1 (Some [1; 2]) 2 (Some [4; 9; 9]) 3)
    as (o & s2 & r & s3 & n & E1 & E2 & Hr & _ & He & Ef); try reflexivity.
  { intros l Hl. simpl in Hl. assert (l = 3%positive) as -> by multiset_solver. by eexists. }
  { simpl. lia. }
  { simpl. lia. }
  exists o, s2, r, s3, n. split; [exact E1|]. split; [exact E2|].
  destruct Hr as [(-> & e' & k' & Hp & Hk & Hw)|(_ & [Hw|(i & _ & Hi)])]; [|by vm_compute in Hw|done].
  split; [done|]. split; [|by split].
  exists e'. split; [done|]. rewrite Hk. vm_compute in Hw. by injection Hw as <-.
Defined.

(** The other [EVP_PKEY] of a shared key sees the octets that are set. *)
Lemma set_keys_shared_ex :
  ∃ r s2, EVP_PKEY_set_keys (Some 1%positive) None 0 (Some [4; 9; 9]) 3 s1 = Ok (r, s2) ∧
    pkeys s2 !! 2%positive = Some (Some 3%positive) ∧ ecs (base s2) !! 3%positive = Some (key [4; 9; 9] 77).
Proof.
  destruct (set_keys_spec 1 3 (key [4; 5; 6] 77) s1 None 0 (Some [4; 9; 9]) 3) as (r & k' & n & E & Hr);
    [reflexivity|reflexivity|exact I|simpl; lia|].
  eexists r, _. split; [exact E|]. split; [reflexivity|]. simpl. rewrite lookup_insert_eq.
  destruct Hr as [[_ Hw]|(_ & _ & [Hw|(i & _ & Hi)])]; [|by vm_compute in Hw|done].
  vm_compute in Hw. by injection Hw as <-.
Qed.
End Copies.
