(* ===== verification/Tinyweb.v ===== *)
(** * The tiny web server ([tinyweb.c], [hacking-network.h])

    The server answers one request per connection: it reads a line into an array
    on the stack, finds the resource's name in it and sends the file.  The
    arrays [request] and [resource] are modelled with their bounds; a client is
    the sequence of bytes it sends before it closes its side.  What is printed
    is recorded line by line. *)

From stdpp Require Import base gmap list strings.
From Stdlib Require Import ZArith Lia.
From S2P Require Import Prelude Arrays.

Local Open Scope Z_scope.

Inductive wline : Set :=
| WRequest (t : list Z) | WNotHttp | WUnknown | WOpening (path : list Z) | W404 | W200.

(** What the system calls do: the files that can be opened, the number of bytes
    the [i]-th [send] accepts of those given ([None] for [-1]), and the number
    of descriptors the process may have. *)
Record wsys := WSys {
  w_files : gmap (list Z) (list Z);
  w_send : nat → nat → option nat;
  w_fstat : list Z → bool;
  w_malloc : Z → bool;
  w_setup : nat → bool;
  fd_limit : nat
}.

(** The connection's unread input and the bytes sent on it, the number of
    [send]s, the output, the open descriptors, and what was sent on earlier
    connections. *)
Record wst := WSt {
  w_in : list Z; w_sent : list Z; w_nsend : nat; w_log : list wline; w_fds : nat;
  w_done : list (list Z)
}.

Definition crlf : list Z := [13; 10].
Definition WEBROOT : list Z := cs "./webroot".
Definition index_html : list Z := cs "index.html".

Definition reply_404 : list (list Z) :=
  [cs "HTTP/1.0 404 NOT FOUND" ++ crlf; cs "Server: Tiny webserver" ++ crlf ++ crlf;
   cs "<html><head><title>404 Not Found</title></head>";
   cs "<body><h1>URL not found</h1></body></html>" ++ crlf].
Definition reply_200 : list (list Z) :=
  [cs "HTTP/1.0 200 OK" ++ crlf; cs "Server: Tiny webserver" ++ crlf ++ crlf].

Section tinyweb.
Context (sys : wsys).

Definition say (l : wline) : M wst unit :=
  modify (λ s, WSt (w_in s) (w_sent s) (w_nsend s) (w_log s ++ [l]) (w_fds s) (w_done s)).
Definition add_fds (f : nat → nat) : M wst unit :=
  modify (λ s, WSt (w_in s) (w_sent s) (w_nsend s) (w_log s) (f (w_fds s)) (w_done s)).
Definition fatal {A} : M wst A := fail (Exited (-1)).

(** ** [hacking-network.h] *)
Definition send (d : list Z) : M wst Z :=
  i ← gets w_nsend;
  modify (λ s, WSt (w_in s) (w_sent s) (S i) (w_log s) (w_fds s) (w_done s));;
  match w_send sys i (length d) with
  | None => mret (-1)
  | Some k =>
      modify (λ s, WSt (w_in s) (w_sent s ++ take k d) (w_nsend s) (w_log s) (w_fds s) (w_done s));;
      mret (Z.of_nat (length (take k d)))
  end.

Fixpoint send_loop (fuel : nat) (buffer : list Z) : M wst Z :=
  match fuel with
  | O => fail OutOfFuel
  | S fuel =>
      if Nat.eqb (length buffer) 0 then mret 1
      else
        sent_bytes ← send buffer;
        if sent_bytes =? -1 then mret 0
        else send_loop fuel (drop (Z.to_nat sent_bytes) buffer)
  end.
Definition send_string (buffer : list Z) : M wst Z := send_loop (S (length buffer)) buffer.

(** [EOL]; the buffer is filled from index [i] on. *)
Definition EOL : list Z := crlf.
Definition EOL_SIZE : nat := 2.
Fixpoint recv_loop (input : list Z) (dest_buffer : arr) (i : Z) (eol_matched : nat) : res (Z * arr * list Z) :=
  match input with
  | [] => Ok (0, dest_buffer, [])
  | c :: input =>
      dest_buffer ← wr dest_buffer i c;
      if decide (EOL !! eol_matched = Some c) then
        if Nat.eqb (S eol_matched) EOL_SIZE then
          dest_buffer ← wr dest_buffer (i + 1 - Z.of_nat EOL_SIZE) 0;
          t ← c_string dest_buffer;
          Ok (Z.of_nat (length t), dest_buffer, input)
        else recv_loop input dest_buffer (i + 1) (S eol_matched)
      else recv_loop input dest_buffer (i + 1) 0
  end.
Definition recv_line (dest_buffer : arr) : M wst (Z * arr) :=
  input ← gets w_in;
  r ← lift (recv_loop input dest_buffer 0 0);
  modify (λ s, WSt r.2 (w_sent s) (w_nsend s) (w_log s) (w_fds s) (w_done s));;
  mret r.1.

(** ** [tinyweb.c] *)

(** [strstr]: the index of the first occurrence. *)
Fixpoint strstr (t pat : list Z) : option nat :=
  if decide (take (length pat) t = pat) then Some 0%nat
  else match t with [] => None | _ :: t => S <$> strstr t pat end.
Definition starts (t pat : list Z) : bool := bool_decide (take (length pat) t = pat).

Definition send_all (l : list (list Z)) : M wst unit :=
  foldr (λ d k, send_string d;; k) (mret tt) l.

(** The size of a file, an [int]; [malloc] and [read] take it as a [size_t], so
    that a negative one is more than there is memory. *)
Definition get_file_size (path content : list Z) : Z :=
  if w_fstat sys path then i32 (Z.of_nat (length content)) else -1.

Definition send_file (path content : list Z) : M wst unit :=
  let length := get_file_size path content in
  if length =? -1 then fatal
  else if negb ((0 <=? length) && w_malloc sys length) then fatal
  else send (take (Z.to_nat length) content);; mret tt.

(** The resource's name from the URL at [ptr], put together in the arrays. *)
Definition resource_path (request : arr) (ptr : nat) : M wst (list Z) :=
  url ← lift (c_string (drop ptr request));
  c ← lift (rd request (Z.of_nat (ptr + length url) - 1));
  request ← (if c =? 47 then lift (strcat request ptr index_html) else mret request);
  url ← lift (c_string (drop ptr request));
  resource ← lift (wr_str (unset 500) 0 WEBROOT);
  resource ← lift (strcat resource 0 url);
  lift (c_string resource).

(** [open]: the content of the file. *)
Definition open_file (path : list Z) : M wst (option (list Z)) :=
  fds ← gets w_fds;
  match (if (fds <? fd_limit sys)%nat then w_files sys !! path else None) with
  | None => mret None
  | Some content => add_fds S;; mret (Some content)
  end.

Definition serve (request : arr) (ptr : nat) : M wst unit :=
  path ← resource_path request ptr;
  fd ← open_file path;
  say (WOpening path);;
  match fd with
  | None => say W404;; send_all reply_404
  | Some content =>
      say W200;;
      send_all reply_200;;
      (if Nat.eqb ptr 4 then send_file path content else mret tt);;
      add_fds pred
  end.

Definition handle_connection : M wst unit :=
  r ← recv_line (unset 500);
  let request := r.2 in
  t ← lift (c_string request);
  say (WRequest t);;
  match strstr t (cs " HTTP/") with
  | None => say WNotHttp
  | Some p =>
      request ← lift (wr request (Z.of_nat p) 0);
      t ← lift (c_string request);
      let ptr := if starts t (cs "GET ") then Some 4%nat else None in
      let ptr := if starts t (cs "HEAD ") then Some 5%nat else ptr in
      match ptr with
      | None => say WUnknown
      | Some ptr => serve request ptr
      end
  end.

(** The accept loop, for the clients that connect; [accept] fails when there
    are no descriptors left. *)
Fixpoint accept_loop (clients : list (list Z)) : M wst unit :=
  match clients with
  | [] => mret tt
  | client :: clients =>
      fds ← gets w_fds;
      if negb (fds <? fd_limit sys)%nat then fatal
      else
        modify (λ s, WSt client [] (w_nsend s) (w_log s) (S (w_fds s)) (w_done s));;
        handle_connection;;
        modify (λ s, WSt [] [] (w_nsend s) (w_log s) (w_fds s) (w_done s ++ [w_sent s]));;
        accept_loop clients
  end.

(** [socket], [setsockopt], [bind] and [listen]. *)
Definition tinyweb_main (clients : list (list Z)) : M wst unit :=
  if negb (w_setup sys 0) then fatal
  else
    add_fds S;;
    if negb (w_setup sys 1) then fatal
    else if negb (w_setup sys 2) then fatal
    else if negb (w_setup sys 3) then fatal
    else accept_loop clients.
End tinyweb.
