(* ===== verification/TinywebProofs.v ===== *)
(** * The tiny web server: correctness

    [target] is the file a request line asks for and [reply] the answer it is
    to get; the theorems relate the server's loops over bounded arrays to them,
    and show what happens with input it does not bound. *)

From stdpp Require Import base gmap list strings.
From Stdlib Require Import ZArith Lia.
From S2P Require Import Prelude Arrays Tinyweb.

Local Open Scope Z_scope.

(** ** Reading a line *)
Lemma wr_next pre n c :
  wr (ints pre ++ replicate (S n) None) (Z.of_nat (length pre)) c = Ok (ints (pre ++ [c]) ++ replicate n None).
Proof.
  unfold wr. rewrite (proj2 (Z.leb_le 0 _)), (proj2 (Z.ltb_lt _ _))
    by (rewrite ?length_app, ?length_ints, ?length_replicate; lia).
  rewrite Nat2Z.id. replace (length pre) with (length (ints pre) + 0)%nat by (rewrite length_ints; lia).
  cbn [andb]. rewrite insert_app_r. simpl. by rewrite ints_app, <-(assoc_L (++)).
Qed.
Lemma wr_full pre c : wr (ints pre ++ replicate 0 None) (Z.of_nat (length pre)) c = Err BadAccess.
Proof.
  unfold wr. rewrite (proj2 (Z.ltb_ge _ _)) by (rewrite app_nil_r, length_ints; lia). by rewrite andb_false_r.
Qed.

Lemma recv_loop_step c input pre n e :
  c ≠ 13 → e = 0%nat →
  recv_loop (c :: input) (ints pre ++ replicate (S n) None) (Z.of_nat (length pre)) e =
  recv_loop input (ints (pre ++ [c]) ++ replicate n None) (Z.of_nat (length (pre ++ [c]))) 0.
Proof.
  intros Hc ->. cbn [recv_loop]. rewrite wr_next. unfold mbind at 1, res_bind at 1.
  rewrite decide_False by (simpl; congruence). by rewrite length_app, Nat2Z.inj_add.
Qed.

(** A line that ends in [EOL] is stored as a string. *)
Lemma recv_line_ok rest line : ∀ pre n,
  13 ∉ line → 0 ∉ pre ++ line → (length line + 2 ≤ n)%nat →
  ∃ a, recv_loop (line ++ crlf ++ rest) (ints pre ++ replicate n None) (Z.of_nat (length pre)) 0 =
      Ok (Z.of_nat (length (pre ++ line)), a, rest) ∧
    holds a (pre ++ line) ∧ length a = (length pre + n)%nat.
Proof.
  induction line as [|c line IH]; intros pre n H13 H0 Hn.
  - destruct n as [|[|n]]; [simpl in Hn; lia..|]. rewrite app_nil_r in *.
    cbn [app crlf recv_loop]. rewrite wr_next. unfold mbind at 1, res_bind at 1. cbn [EOL crlf].
    rewrite decide_True by done. cbn [Nat.eqb EOL_SIZE].
    replace (Z.of_nat (length pre) + 1) with (Z.of_nat (length (pre ++ [13]))) by (rewrite length_app; simpl; lia).
    rewrite wr_next. unfold mbind at 1, res_bind at 1. rewrite decide_True by done.
    rewrite length_app. cbn [length Z.of_nat].
    replace (Z.of_nat (length pre + 1) + 1 - Z.of_nat EOL_SIZE) with (Z.of_nat (length pre)) by (unfold EOL_SIZE; lia).
    assert (∃ a, wr (ints ((pre ++ [13]) ++ [10]) ++ replicate n None) (Z.of_nat (length pre)) 0 = Ok a ∧
      holds a pre ∧ length a = (length pre + S (S n))%nat) as (a & Ea & Ha & Hl).
    { eexists. unfold wr. rewrite (proj2 (Z.leb_le 0 _)), (proj2 (Z.ltb_lt _ _))
        by (rewrite ?length_app, ?length_ints, ?length_app, ?length_replicate; simpl; lia).
      split; [done|]. rewrite Nat2Z.id, length_insert, !ints_app, <-!(assoc_L (++)). split.
      - split; [done|]. eexists. replace (length pre) with (length (ints pre) + 0)%nat by (rewrite length_ints; lia).
        rewrite insert_app_r. done.
      - rewrite !length_app, length_ints, length_replicate. simpl. lia. }
    exists a. rewrite Ea. unfold mbind, res_bind. rewrite (holds_c_string _ _ Ha). done.
  - rewrite not_elem_of_cons in H13. destruct n as [|n]; [simpl in Hn; lia|].
    cbn [app]. rewrite recv_loop_step by naive_solver.
    destruct (IH (pre ++ [c]) n) as (a & E & Ha & Hl).
    + naive_solver.
    + by rewrite <-(assoc_L (++)).
    + simpl in Hn. lia.
    + exists a. rewrite E, <-(assoc_L (++)). split_and!; [done|by rewrite <-(assoc_L (++)) in Ha|].
      rewrite Hl, length_app. simpl. lia.
Qed.

(** Without a CR nothing ends the line: the loop runs past the end of the
    array, or leaves it without a NUL. *)
Lemma recv_line_open input : ∀ pre n,
  13 ∉ input → 0 ∉ pre ++ input →
  recv_loop input (ints pre ++ replicate n None) (Z.of_nat (length pre)) 0 =
  if decide (length input ≤ n)%nat
  then Ok (0, ints (pre ++ input) ++ replicate (n - length input) None, []) else Err BadAccess.
Proof.
  induction input as [|c input IH]; intros pre n H13 H0.
  - cbn [recv_loop length]. rewrite decide_True by lia. by rewrite app_nil_r, Nat.sub_0_r.
  - rewrite not_elem_of_cons in H13. destruct n as [|n].
    + cbn [recv_loop]. by rewrite wr_full.
    + rewrite recv_loop_step, IH by (naive_solver || by rewrite <-(assoc_L (++))).
      rewrite <-(assoc_L (++)). cbn [length Nat.sub app]. repeat case_decide; done || lia.
Qed.

(** ** Searching *)
Lemma strstr_some t pat p : strstr t pat = Some p → ∃ b, t = take p t ++ pat ++ b.
Proof.
  revert p. induction t as [|c t IH]; intros p; cbn [strstr]; case_decide as E.
  - intros [= <-]. exists []. by destruct pat.
  - done.
  - intros [= <-]. exists (drop (length pat) (c :: t)). simpl. rewrite <-E at 1. by rewrite take_drop.
  - destruct (strstr t pat) as [q|]; [|done]. intros [= <-]. destruct (IH q eq_refl) as [b Hb].
    exists b. simpl. by rewrite <-Hb.
Qed.
(** It is the first one. *)
Lemma strstr_first t pat p a b : strstr t pat = Some p → t = a ++ pat ++ b → (p ≤ length a)%nat.
Proof.
  revert p a. induction t as [|c t IH]; intros p a; cbn [strstr]; case_decide as E; try (intros [= <-] _; lia).
  destruct (strstr t pat) as [q|] eqn:Eq; [|done]. intros [= <-] Ht. destruct a as [|x a].
  - exfalso. apply E. rewrite Ht. simpl. by rewrite take_app_length.
  - injection Ht as -> Ht. simpl. specialize (IH q a eq_refl Ht). lia.
Qed.

(** ** Sending *)

(** What [send] promises: it accepts at least one byte, and no more than given. *)
Definition send_ok (sys : wsys) : Prop :=
  ∀ i n, (0 < n)%nat → ∃ k, w_send sys i n = Some k ∧ (1 ≤ k ≤ n)%nat.

(** The state after the bytes [d] were sent. *)
Definition sent (s s' : wst) (d : list Z) : Prop :=
  w_in s' = w_in s ∧ w_sent s' = w_sent s ++ d ∧ w_fds s' = w_fds s ∧ w_done s' = w_done s.
Lemma sent_trans s1 s2 s3 a b : sent s1 s2 a → sent s2 s3 b → sent s1 s3 (a ++ b).
Proof. intros (?&E&?&?) (?&E'&?&?). unfold sent. rewrite E', E, <-(assoc_L (++)). split_and!; congruence. Qed.

Lemma send_runs sys d s :
  send_ok sys → d ≠ [] →
  runs (send sys d) s (λ r s', ∃ k, r = Z.of_nat k ∧ (1 ≤ k ≤ length d)%nat ∧ sent s s' (take k d)).
Proof.
  intros Hs Hd. destruct (Hs (w_nsend s) (length d)) as (k & Hk & Hb); [by destruct d; simpl; [|lia]|].
  unfold send. apply runs_bind, runs_gets, runs_bind, runs_modify. rewrite Hk.
  apply runs_bind, runs_modify, runs_ret. exists k. rewrite length_take, Nat.min_l by lia.
  by split_and!; [|lia|lia|split_and!].
Qed.

Lemma send_loop_runs sys : send_ok sys → ∀ fuel d s, (length d < fuel)%nat →
  runs (send_loop sys fuel d) s (λ r s', r = 1 ∧ sent s s' d).
Proof.
  intros Hs fuel. induction fuel as [|fuel IH]; intros d s Hf; [lia|]. cbn [send_loop].
  destruct (Nat.eqb_spec (length d) 0) as [E|E].
  - apply runs_ret. apply nil_length_inv in E as ->. split; [done|]. unfold sent; split_and!; try done. by rewrite app_nil_r.
  - apply runs_bind. eapply runs_mono; [apply send_runs; [done|by intros ->]|]. intros r s' (k & -> & Hk & Hsent).
    cbn beta. rewrite (proj2 (Z.eqb_neq _ (-1))), Nat2Z.id by lia.
    eapply runs_mono; [apply IH; rewrite length_drop; lia|]. intros r2 s2 [-> H2]. split; [done|].
    rewrite <-(take_drop k d). by eapply sent_trans.
Qed.

Lemma send_all_runs sys l : send_ok sys → ∀ s, runs (send_all sys l) s (λ _ s', sent s s' (mjoin l)).
Proof.
  intros Hs. induction l as [|d l IH]; intros s; cbn [send_all foldr].
  - apply runs_ret. unfold sent; split_and!; try done. by rewrite app_nil_r.
  - apply runs_bind. eapply runs_mono; [apply send_loop_runs; [done|lia]|]. intros r s1 [_ H1].
    eapply runs_mono; [apply IH|]. intros [] s2 H2. by eapply sent_trans.
Qed.

(** ** What a request asks for *)
Definition url_of (u : list Z) : option (bool * nat) :=
  if starts u (cs "GET ") then Some (true, 4%nat)
  else if starts u (cs "HEAD ") then Some (false, 5%nat) else None.
Definition ext_of (u : list Z) : list Z := if decide (last u = Some 47) then index_html else [].
Definition target (line : list Z) : option (bool * list Z) :=
  p ← strstr line (cs " HTTP/");
  let u := take p line in
  m ← url_of u; Some (m.1, WEBROOT ++ drop m.2 u ++ ext_of u).

(** The part of the answer that is always sent, and the file that follows. *)
Definition reply (files : gmap (list Z) (list Z)) (line : list Z) : list Z * list Z :=
  match target line with
  | None => ([], [])
  | Some (get, path) =>
      match files !! path with
      | None => (mjoin reply_404, [])
      | Some content => (mjoin reply_200, if get : bool then content else [])
      end
  end.

(** The system has memory for its files, and they are smaller than 2 GB. *)
Definition files_ok (sys : wsys) : Prop :=
  ∀ path c, w_files sys !! path = Some c →
    w_fstat sys path = true ∧ Z.of_nat (length c) ≤ INT_MAX ∧ w_malloc sys (Z.of_nat (length c)) = true.

Lemma send_file_runs sys path c s :
  send_ok sys → files_ok sys → w_files sys !! path = Some c →
  runs (send_file sys path c) s (λ _ s', ∃ k, sent s s' (take k c) ∧
    ((∀ i n, w_send sys i n = Some n) → take k c = c)).
Proof.
  intros Hs Hf Hc. destruct (Hf _ _ Hc) as (Hst & Hl & Hm). unfold send_file, get_file_size. rewrite Hst.
  rewrite i32_small by (unfold is_int, INT_MIN, INT_MAX in *; lia).
  rewrite (proj2 (Z.eqb_neq _ (-1))), Hm, (proj2 (Z.leb_le 0 _)), Nat2Z.id, take_ge by lia. cbn [negb andb].
  apply runs_bind. unfold send. apply runs_bind, runs_gets, runs_bind, runs_modify.
  destruct (w_send sys (w_nsend s) (length c)) as [k|] eqn:Ek.
  - apply runs_bind, runs_modify, runs_ret, runs_ret. exists k. split; [done|].
    intros Hall. rewrite Hall in Ek. injection Ek as <-. by apply take_ge.
  - apply runs_ret, runs_ret. exists 0%nat. split; [|intros Hall; by rewrite Hall in Ek].
    unfold sent; split_and!; try done. by rewrite app_nil_r.
Qed.

(** ** Serving *)
Lemma url_of_some u get ptr :
  url_of u = Some (get, ptr) → (0 < ptr ≤ length u)%nat ∧ Nat.eqb ptr 4 = get.
Proof.
  unfold url_of, starts. assert (∀ pat, take (length pat) u = pat → (length pat ≤ length u)%nat) as Hl.
  { intros pat <-. rewrite length_take. lia. }
  case_bool_decide as E1; [|case_bool_decide as E2; [|done]]; intros [= <- <-]; split; try done.
  - apply Hl in E1. revert E1. change (length (cs "GET ")) with 4%nat. lia.
  - apply Hl in E2. revert E2. change (length (cs "HEAD ")) with 5%nat. lia.
Qed.

(** The two tests of the method, in the order of the code. *)
Lemma method_of u :
  (if starts u (cs "HEAD ") then Some 5%nat else if starts u (cs "GET ") then Some 4%nat else None) = snd <$> url_of u.
Proof.
  unfold url_of, starts. case_bool_decide as E1; case_bool_decide as E2; try done.
  exfalso. destruct u as [|x u]; [done|]. injection E1 as -> _. injection E2. done.
Qed.

Lemma last_total (u : list Z) : u ≠ [] → last u = Some (u !!! (length u - 1)%nat).
Proof.
  intros Hu. assert (length u ≠ 0%nat) by by destruct u. rewrite last_lookup.
  replace (pred (length u)) with (length u - 1)%nat by lia. apply list_lookup_lookup_total_lt. lia.
Qed.

Lemma ext_of_cases u : u ≠ [] →
  u !!! (length u - 1)%nat = 47 ∧ ext_of u = index_html ∨ u !!! (length u - 1)%nat ≠ 47 ∧ ext_of u = [].
Proof.
  intros Hu. unfold ext_of. rewrite (last_total u Hu).
  destruct (decide (u !!! (length u - 1)%nat = 47)) as [->|]; [left|right; rewrite decide_False by congruence; done].
  by rewrite decide_True.
Qed.
(** Literals have no NUL. *)
Lemma not_nul l : forallb (λ c, negb (c =? 0)) l = true → 0 ∉ l.
Proof. intros Hl Hin%list_elem_of_In. eapply forallb_forall in Hl; [|exact Hin]. done. Qed.

(** The name of the file, put together in the two arrays. *)
Lemma resource_path_runs request u get ptr s :
  holds request u → length request = 500%nat → (length u ≤ 480)%nat → url_of u = Some (get, ptr) →
  runs (resource_path request ptr) s (λ r s', s' = s ∧ r = WEBROOT ++ drop ptr u ++ ext_of u).
Proof.
  intros Hr Hlr Hlu Hu. destruct (url_of_some _ _ _ Hu) as [Hp _].
  assert (u ≠ []) as Hne by (intros ->; simpl in *; lia).
  unfold resource_path. apply runs_bind. eapply runs_lift; [apply holds_c_string, holds_drop; [done|lia]|].
  apply runs_bind. rewrite length_drop.
  replace (Z.of_nat (ptr + (length u - ptr)) - 1) with (Z.of_nat (length u - 1)) by lia.
  eapply runs_lift; [apply holds_rd; [done|lia]|].
  assert (0 ∉ index_html) as Hi0 by by apply not_nul.
  assert (0 ∉ ext_of u ∧ (length (ext_of u) ≤ 10)%nat) as [Hx Hxl].
  { destruct (ext_of_cases u Hne) as [[_ ->]|[_ ->]]; [done|]. split; [set_solver|simpl; lia]. }
  assert (runs (S := wst) (if u !!! (length u - 1)%nat =? 47 then lift (strcat request ptr index_html) else mret request) s
    (λ a s', s' = s ∧ holds a (u ++ ext_of u) ∧ length a = 500%nat)) as Hcat.
  { destruct (ext_of_cases u Hne) as [[-> ->]|[En ->]].
    - destruct (holds_strcat request u ptr index_html Hr ltac:(lia) Hi0 ltac:(rewrite Hlr; change (length index_html) with 10%nat; lia))
        as (a & E & Ha & Hl).
      eapply runs_lift; [exact E|]. split_and!; [done|done|lia].
    - rewrite (proj2 (Z.eqb_neq _ _) En). apply runs_ret. by rewrite app_nil_r. }
  apply runs_bind. eapply runs_mono; [exact Hcat|]. intros a s' (-> & Ha & Hla).
  assert (drop ptr (u ++ ext_of u) = drop ptr u ++ ext_of u) as Hdrop by (apply drop_app_le; lia).
  pose proof (holds_drop a (u ++ ext_of u) ptr Ha ltac:(rewrite length_app; lia)) as Hd. rewrite Hdrop in Hd.
  apply runs_bind. eapply runs_lift; [by apply holds_c_string|]. destruct Hd as [H0 _].
  destruct (holds_strcpy (unset 500) WEBROOT) as (res0 & E0 & Hr0 & Hl0).
  { by apply not_nul. }
  { vm_compute. lia. }
  apply runs_bind. eapply runs_lift; [exact E0|].
  destruct (holds_strcat res0 WEBROOT 0 (drop ptr u ++ ext_of u) Hr0 ltac:(lia) H0) as (res1 & E1 & Hr1 & _).
  { rewrite Hl0, length_app, length_drop. change (length WEBROOT) with 9%nat. unfold unset. rewrite length_replicate. lia. }
  apply runs_bind. eapply runs_lift; [exact E1|]. eapply runs_lift; [by apply holds_c_string|]. done.
Qed.

(** What the reply to a request line is, of which the file may be cut short. *)
Definition replied (sys : wsys) (files : gmap (list Z) (list Z)) (line : list Z) (s s' : wst) : Prop :=
  ∃ body, w_sent s' = w_sent s ++ (reply files line).1 ++ body ∧ body `prefix_of` (reply files line).2 ∧
    ((∀ i n, w_send sys i n = Some n) → body = (reply files line).2) ∧
    w_fds s' = w_fds s ∧ w_done s' = w_done s.

(** The files that can be opened with the descriptors in use. *)
Definition avail (sys : wsys) (s : wst) : gmap (list Z) (list Z) :=
  if (w_fds s <? fd_limit sys)%nat then w_files sys else ∅.

Lemma avail_lookup sys s path :
  avail sys s !! path = (if (w_fds s <? fd_limit sys)%nat then w_files sys !! path else None).
Proof. unfold avail. case_match; [done|apply lookup_empty]. Qed.
Lemma avail_sub sys s path c : avail sys s !! path = Some c → w_files sys !! path = Some c.
Proof. rewrite avail_lookup. by case_match. Qed.

Lemma open_file_runs sys path s :
  runs (open_file sys path) s (λ r s', r = avail sys s !! path ∧ w_in s' = w_in s ∧ w_sent s' = w_sent s ∧
    w_fds s' = (if r is Some _ then S (w_fds s) else w_fds s) ∧ w_done s' = w_done s).
Proof.
  unfold open_file. apply runs_bind, runs_gets. rewrite avail_lookup.
  destruct (if (w_fds s <? fd_limit sys)%nat then w_files sys !! path else None) as [c|].
  - apply runs_bind, runs_modify, runs_ret. done.
  - apply runs_ret. done.
Qed.

Lemma serve_runs sys request line u p get ptr s :
  send_ok sys → files_ok sys → strstr line (cs " HTTP/") = Some p → u = take p line →
  holds request u → length request = 500%nat → (length u ≤ 480)%nat → url_of u = Some (get, ptr) →
  runs (serve sys request ptr) s (λ _ s', w_in s' = w_in s ∧ replied sys (avail sys s) line s s').
Proof.
  intros Hs Hf Hp -> Hr Hlr Hlu Hu. unfold serve. apply runs_bind.
  eapply runs_mono; [by eapply resource_path_runs|]. intros path s0 [-> Epath].
  assert (target line = Some (get, path)) as Ht by (unfold target; rewrite Hp, Epath; simpl; by rewrite Hu).
  apply runs_bind. eapply runs_mono; [apply open_file_runs|]. intros fd s1 (-> & I1 & S1 & F1 & D1).
  unfold replied, reply. rewrite Ht. apply runs_bind. unfold say. apply runs_modify.
  destruct (avail sys s !! path) as [c|] eqn:Ec; simpl in F1.
  - assert (w_files sys !! path = Some c) as Hc by by eapply avail_sub.
    apply runs_bind, runs_modify, runs_bind.
    eapply runs_mono; [by apply send_all_runs|]. intros [] s2 (I2 & S2 & F2 & D2).
    destruct (url_of_some _ _ _ Hu) as [_ Hget]. rewrite Hget. apply runs_bind. destruct get.
    + eapply runs_mono; [by apply send_file_runs|]. intros [] s3 (k & (I3 & S3 & F3 & D3) & Hall).
      apply runs_modify. simpl in *. split; [congruence|]. exists (take k c).
      rewrite S3, S2, S1, F3, F2, F1, D3, D2, D1, <-(assoc_L (++)). split_and!; [done|apply prefix_take|done|done|done].
    + apply runs_ret, runs_modify. simpl in *. split; [congruence|]. exists [].
      rewrite S2, S1, F2, F1, D2, D1. split_and!; [by rewrite ?app_nil_r|done|done|done|done].
  - apply runs_bind, runs_modify. eapply runs_mono; [by apply send_all_runs|].
    intros [] s2 (I2 & S2 & F2 & D2). simpl in *. split; [congruence|]. exists [].
    rewrite S2, S1, F2, F1, D2, D1. split_and!; [by rewrite ?app_nil_r|done|done|done|done].
Qed.

(** ** Connections *)

(** A request line that fits the arrays: no CR, no NUL, at most 480 characters. *)
Definition line_ok (line : list Z) : Prop := 13 ∉ line ∧ 0 ∉ line ∧ (length line ≤ 480)%nat.

Lemma connection_runs sys s line rest :
  send_ok sys → files_ok sys → line_ok line → w_in s = line ++ crlf ++ rest →
  runs (handle_connection sys) s (λ _ s', w_in s' = rest ∧ replied sys (avail sys s) line s s').
Proof.
  intros Hs Hf (H13 & H0 & Hl) Hin. unfold handle_connection. apply runs_bind. unfold recv_line.
  apply runs_bind, runs_gets, runs_bind. rewrite Hin.
  destruct (recv_line_ok rest line [] 500 H13 H0 ltac:(lia)) as (a & E & Ha & Hla).
  eapply runs_lift; [exact E|]. apply runs_bind, runs_modify, runs_ret. cbn [fst snd]. change ([] ++ line) with line in *.
  apply runs_bind. eapply runs_lift; [by apply holds_c_string|]. apply runs_bind. unfold say. apply runs_modify. cbn [w_in w_sent w_nsend w_log w_fds w_done].
  assert (∀ r, target line = None → replied sys (avail sys s) line s (WSt rest (w_sent s) (w_nsend s) r (w_fds s) (w_done s))) as Hno.
  { intros r Ht. exists []. unfold reply. rewrite Ht. simpl. by rewrite app_nil_r. }
  destruct (strstr line (cs " HTTP/")) as [p|] eqn:Ep.
  2:{ apply runs_modify. split; [done|]. apply Hno. unfold target. by rewrite Ep. }
  assert (p < length line)%nat as Hp.
  { destruct (strstr_some _ _ _ Ep) as [b Hb]. apply (f_equal length) in Hb.
    rewrite !length_app, length_take in Hb. change (length (cs " HTTP/")) with 6%nat in Hb. lia. }
  destruct (holds_trunc a line p Ha Hp) as (a' & E' & Ha' & Hla').
  apply runs_bind. eapply runs_lift; [exact E'|]. apply runs_bind. eapply runs_lift; [by apply holds_c_string|].
  set (u := take p line) in *.
  rewrite method_of.
  destruct (url_of u) as [[get ptr]|] eqn:Eu; simpl.
  - eapply runs_mono; [apply (serve_runs sys a' line u p get ptr); try done|].
    + by rewrite Hla', Hla.
    + unfold u. rewrite length_take. lia.
    + intros [] s' [-> (body & Hb)]. split; [done|]. by exists body.
  - apply runs_modify. split; [done|]. apply Hno. unfold target. rewrite Ep. simpl. fold u. by rewrite Eu.
Qed.

(** C20. The server answers a request as it should: for a line that fits, and with
    a free file descriptor, it finds the resource, looks it up below its root and
    sends the header and (for GET) a prefix of the file, or the error page; it
    returns without a fault and closes the file.  The file is sent completely if
    every [send] takes all that it is given.  Files can be stat'ed and fit in the
    memory, and [send] takes at least a byte. *)
Theorem tinyweb_serves sys s line rest :
  send_ok sys → files_ok sys → line_ok line → w_in s = line ++ crlf ++ rest → (w_fds s < fd_limit sys)%nat →
  ∃ s' body, handle_connection sys s = Ok (tt, s') ∧ w_in s' = rest ∧
    w_sent s' = w_sent s ++ (reply (w_files sys) line).1 ++ body ∧
    body `prefix_of` (reply (w_files sys) line).2 ∧
    ((∀ i n, w_send sys i n = Some n) → body = (reply (w_files sys) line).2) ∧
    w_fds s' = w_fds s.
Proof.
  intros Hs Hf Hl Hin Hfd.
  destruct (connection_runs sys s line rest Hs Hf Hl Hin) as ([] & s' & E & Hi & body & Hsent & Hp & Hall & Hfds & _).
  unfold avail in *. rewrite (proj2 (Nat.ltb_lt _ _) Hfd) in *. by exists s', body.
Qed.

(** Input without a line end is undefined behaviour: with more than 500
    bytes the loop writes past the array on the stack; with fewer the array has
    no NUL when it is searched. *)
Theorem unterminated_request_faults sys s :
  13 ∉ w_in s → 0 ∉ w_in s → handle_connection sys s = Err BadAccess.
Proof.
  intros H13 H0. unfold handle_connection, recv_line.
  pose proof (recv_line_open (w_in s) [] 500 H13 H0) as E. cbn [app length Z.of_nat] in E.
  change (ints [] ++ replicate 500 None) with (unset 500) in E. change (Z.of_nat 0) with 0 in E. case_decide as Hl.
  - rewrite (bind_ok _ _ s (0, ints (w_in s) ++ replicate (500 - length (w_in s)) None)
      (WSt [] (w_sent s) (w_nsend s) (w_log s) (w_fds s) (w_done s))).
    2:{ erewrite bind_ok; [|done]. erewrite bind_ok; [|unfold lift; by rewrite E]. done. }
    apply bind_err. unfold lift. cbn [snd]. by rewrite c_string_open.
  - apply bind_err. erewrite bind_ok; [|done]. apply bind_err. unfold lift. by rewrite E.
Qed.

(** Clients that send a line that fits. *)
Definition client_ok (c : list Z) : Prop := ∃ line rest, line_ok line ∧ c = line ++ crlf ++ rest.

Lemma accept_loop_runs sys : send_ok sys → files_ok sys → ∀ clients s, Forall client_ok clients →
  (w_fds s + length clients ≤ fd_limit sys)%nat →
  runs (accept_loop sys clients) s (λ _ s', w_fds s' = (w_fds s + length clients)%nat ∧
    length (w_done s') = (length (w_done s) + length clients)%nat).
Proof.
  intros Hs Hf clients. induction clients as [|c clients IH]; intros s Hc Hn; cbn [accept_loop].
  { apply runs_ret. simpl. lia. }
  apply Forall_cons in Hc as [(line & rest & Hl & ->) Hc]. simpl in Hn.
  apply runs_bind, runs_gets. rewrite (proj2 (Nat.ltb_lt _ _)) by lia. cbn [negb].
  apply runs_bind, runs_modify, runs_bind.
  eapply runs_mono; [by apply connection_runs|]. intros [] s1 (_ & body & _ & _ & _ & Hfd & Hd). simpl in Hfd, Hd.
  apply runs_bind, runs_modify. eapply runs_mono; [apply IH; [done|]|].
  - simpl. lia.
  - intros [] s2 [H1 H2]. simpl in *. rewrite H1, H2, length_app, Hd. simpl. lia.
Qed.

Lemma accept_loop_app sys a b s s' :
  accept_loop sys a s = Ok (tt, s') → accept_loop sys (a ++ b) s = accept_loop sys b s'.
Proof.
  revert s. induction a as [|c a IH]; intros s; cbn [accept_loop app]; [by intros [= <-]|].
  unfold mbind, M_bind, gets. destruct (negb _); [done|]. unfold modify.
  destruct (handle_connection sys _) as [[[] s1]|]; [|done]. apply IH.
Qed.

(** The server never closes a connection's descriptor ([shutdown] does not),
    so it serves exactly as many clients as it has descriptors and then exits
    with "accepting connection", although every client was well-behaved. *)
Theorem tinyweb_runs_out sys s clients :
  send_ok sys → files_ok sys → (∀ i, w_setup sys i = true) → Forall client_ok clients →
  let n := (fd_limit sys - S (w_fds s))%nat in
  ((length clients ≤ n)%nat → (S (w_fds s) ≤ fd_limit sys)%nat →
     ∃ s', tinyweb_main sys clients s = Ok (tt, s') ∧
       length (w_done s') = (length (w_done s) + length clients)%nat) ∧
  ((n < length clients)%nat → tinyweb_main sys clients s = Err (Exited (-1))).
Proof.
  intros Hs Hf Hset Hc n. unfold tinyweb_main. rewrite !Hset. cbn [negb]. erewrite bind_ok; [|done].
  set (s1 := WSt _ _ _ _ _ _). split.
  - intros Hn Hfd. destruct (accept_loop_runs sys Hs Hf clients s1 Hc) as ([] & s' & E & _ & Hd); [unfold s1; simpl; lia|].
    by exists s'.
  - intros Hn. destruct (decide (S (w_fds s) ≤ fd_limit sys)%nat) as [Hfd|Hfd].
    + rewrite <-(take_drop n clients).
      destruct (accept_loop_runs sys Hs Hf (take n clients) s1) as ([] & s' & E & Hw & _).
      { by apply Forall_take. }
      { unfold s1. rewrite length_take. simpl. lia. }
      rewrite (accept_loop_app _ _ _ _ _ E). rewrite length_take in Hw. simpl in Hw.
      destruct (drop n clients) as [|c cl] eqn:Ed.
      { apply (f_equal length) in Ed. rewrite length_drop in Ed. simpl in Ed. lia. }
      cbn [accept_loop]. erewrite bind_ok; [|done]. rewrite (proj2 (Nat.ltb_ge _ _)) by lia. done.
    + destruct clients as [|c cl]; [simpl in *; lia|]. cbn [accept_loop]. erewrite bind_ok; [|done].
      rewrite (proj2 (Nat.ltb_ge _ _)) by (unfold s1; simpl; lia). done.
Qed.

(** ** Concrete instances *)
Definition sys1 : wsys := WSys {[ cs "./webroot/index.html" := cs "hello" ]} (λ _ n, Some n)
  (λ _, true) (λ _, true) (λ _, true) 6.
Definition st1 (input : list Z) : wst := WSt input [] 0 [] 3 [].
Definition get1 : list Z := cs "GET / HTTP/1.0".

Lemma send_ok1 : send_ok sys1.
Proof. intros i n Hn. exists n. split; [done|lia]. Qed.
Lemma files_ok1 : files_ok sys1.
Proof.
  intros path c Hc. simpl in Hc. apply lookup_singleton_Some in Hc as [_ <-].
  split_and!; [done|vm_compute; discriminate|done].
Qed.
Lemma line_ok1 : line_ok get1.
Proof.
  split_and!; [|by apply not_nul|vm_compute; lia].
  intros Hin%list_elem_of_In. vm_compute in Hin. naive_solver lia.
Qed.
Lemma client_ok1 : client_ok (get1 ++ crlf).
Proof. exists get1, []. split; [apply line_ok1|done]. Qed.

Lemma tinyweb_serves_witness :
  ∃ s' body, handle_connection sys1 (st1 (get1 ++ crlf)) = Ok (tt, s') ∧ w_in s' = [] ∧
    w_sent s' = (reply (w_files sys1) get1).1 ++ body ∧
    body `prefix_of` (reply (w_files sys1) get1).2 ∧
    ((∀ i n, w_send sys1 i n = Some n) → body = (reply (w_files sys1) get1).2) ∧ w_fds s' = 3%nat.
Proof.
  apply (tinyweb_serves sys1 (st1 (get1 ++ crlf)) get1 []);
    [apply send_ok1|apply files_ok1|apply line_ok1|reflexivity|simpl; lia].
Defined.
Example reply1 : reply (w_files sys1) get1 = (mjoin reply_200, cs "hello").
Proof. vm_compute. reflexivity. Qed.

Lemma unterminated_request_faults_witness : handle_connection sys1 (st1 (cs "GET /")) = Err BadAccess.
Proof.
  apply unterminated_request_faults; [|by apply not_nul].
  intros Hin%list_elem_of_In. vm_compute in Hin. naive_solver lia.
Defined.

Lemma tinyweb_runs_out_witness :
  tinyweb_main sys1 (replicate 3 (get1 ++ crlf)) (st1 []) = Err (Exited (-1)).
Proof.
  apply (tinyweb_runs_out sys1 (st1 []) (replicate 3 (get1 ++ crlf))); [apply send_ok1|apply files_ok1|done| |simpl; lia].
  repeat constructor; apply client_ok1.
Defined.
