(* ===== verification/Notes.v ===== *)
(** * The note programs ([notetaker.c], [notesearch.c])

    [notetaker] appends a note to a file, after the user's id; [notesearch]
    reads the file and prints the notes of its user that contain a keyword.
    The two programs share the file, so the properties are about both: what one
    saves the other finds.  Text is a list of character codes without the
    terminating NUL; what is printed is recorded line by line. *)

From stdpp Require Import base gmap list.
From Stdlib Require Import ZArith Lia.
From S2P Require Import Prelude.

Local Open Scope Z_scope.

(** ** State *)
Inductive nline : Set :=
| NBuffer (t : list Z)          (** [buffer   @ ...] *)
| NFile                         (** the file name and the descriptor *)
| NSaved
| NFound (length uid : Z)       (** [found a %d byte note for user id %d] *)
| NText (t : list Z)            (** the note *)
| NEnd.

(** The file [/var/notes] if it exists, the read position, the output, and the
    number of [write]s so far. *)
Record nst := NSt { notes : option (list Z); pos : nat; nout : list nline; nwrites : nat }.

(** What the system calls do. *)
Record nsys := NSys {
  n_malloc : nat → bool;
  n_open : bool;
  n_close : bool;
  (** The [i]-th [write]: the number of bytes written of those given, or [-1]. *)
  n_write : nat → nat → option nat
}.

Definition nprint (o : nline) : M nst unit :=
  modify (λ s, NSt (notes s) (pos s) (nout s ++ [o]) (nwrites s)).
Definition nfatal {A} : M nst A := fail (Exited (-1)).

(** An [int] as it is in memory (little endian), and read back. *)
Definition le4 (z : Z) : list Z :=
  [u32 z mod 256; u32 z / 256 mod 256; u32 z / 65536 mod 256; u32 z / 16777216].
Definition of_le4 (b : list Z) : Z := i32 (foldr (λ x acc, x + 256 * acc) 0 b).

(** ** [notetaker.c] *)
Section notetaker.
Context (sys : nsys).

Definition ec_malloc (i : nat) : M nst unit := if n_malloc sys i then mret tt else nfatal.
(** [open] with [O_CREAT|O_APPEND]. *)
Definition open_append : M nst bool :=
  if n_open sys then
    modify (λ s, NSt (Some (default [] (notes s))) (pos s) (nout s) (nwrites s));; mret true
  else mret false.
Definition write_fd (d : list Z) : M nst Z :=
  i ← gets nwrites;
  modify (λ s, NSt (notes s) (pos s) (nout s) (S i));;
  match n_write sys i (length d) with
  | None => mret (-1)
  | Some k =>
      modify (λ s, NSt ((λ f, f ++ take k d) <$> notes s) (pos s) (nout s) (nwrites s));;
      mret (Z.of_nat (length (take k d)))
  end.

Definition notetaker_main (uid : Z) (argv1 : option (list Z)) : M nst unit :=
  ec_malloc 0;;
  ec_malloc 1;;
  match argv1 with
  | None => fail (Exited 0)
  | Some arg =>
      if (100 <=? length arg)%nat then fail BadAccess
      else
        let buffer := arg in
        nprint (NBuffer buffer);;
        fd ← open_append;
        if negb fd then nfatal
        else
          nprint NFile;;
          r ← write_fd (le4 uid);
          if r =? -1 then nfatal
          else
            write_fd [10];;
            r ← write_fd buffer;
            if r =? -1 then nfatal
            else
              write_fd [10];;
              if negb (n_close sys) then nfatal
              else nprint NSaved
  end.
End notetaker.

(** ** [notesearch.c] *)
Definition read_fd (n : nat) : M nst (list Z) := λ s,
  match notes s with
  | None => Err BadAccess
  | Some f =>
      let d := take n (drop (pos s) f) in
      Ok (d, NSt (notes s) (pos s + length d) (nout s) (nwrites s))
  end.

(** The number of bytes up to the end of the line, [None] at the end of the
    file. *)
Fixpoint line_loop (fuel : nat) (byte length : Z) : M nst (option Z) :=
  match fuel with
  | O => fail OutOfFuel
  | S fuel =>
      if byte =? 10 then mret (Some length)
      else
        b ← read_fd 1;
        match b with
        | [x] => l ← chk_int (length + 1); line_loop fuel x l
        | _ => mret None
        end
  end.

(** The loop over the notes; [length] is unset before the first one. *)
Fixpoint find_loop (fuel : nat) (user_uid note_uid : Z) (length : option Z) : M nst (option (option Z)) :=
  match fuel with
  | O => fail OutOfFuel
  | S fuel =>
      if note_uid =? user_uid then mret (Some length)
      else
        u ← read_fd 4;
        if negb (Nat.eqb (List.length u) 4) then mret None
        else
          c ← read_fd 1;
          if negb (Nat.eqb (List.length c) 1) then mret None
          else
            f ← gets notes;
            l ← line_loop (S (List.length (default [] f))) 0 0;
            match l with
            | None => mret None
            | Some l => find_loop fuel user_uid (of_le4 u) (Some l)
            end
  end.

Definition find_user_note (user_uid : Z) : M nst Z :=
  f ← gets notes;
  r ← find_loop (S (length (default [] f))) user_uid (-1) None;
  match r with
  | None => mret (-1)
  | Some l =>
      length ← from_option_or BadAccess l;
      modify (λ s, NSt (notes s) (pos s - Z.to_nat length) (nout s) (nwrites s));;
      nprint (NFound length user_uid);;
      mret length
  end.

(** [keyword[match] == note[i]], where [match] is less than the keyword's
    length. *)
Fixpoint search_loop (note keyword : list Z) (match_ : nat) : bool :=
  match note with
  | [] => false
  | c :: note =>
      let match_ :=
        if decide (keyword !! match_ = Some c) then S match_
        else if decide (keyword !! 0%nat = Some c) then 1%nat else 0%nat in
      if Nat.eqb match_ (length keyword) then true else search_loop note keyword match_
  end.
Definition search_note (note keyword : list Z) : Z :=
  if Nat.eqb (length keyword) 0 then 1 else if search_loop note keyword 0 then 1 else 0.

(** [printf (text)]: a directive reads an argument that was not passed. *)
Fixpoint printf_text (t : list Z) : res (list Z) :=
  match t with
  | [] => Ok []
  | 37 :: 37 :: r => r ← printf_text r; Ok (37 :: r)
  | 37 :: _ => Err BadAccess
  | c :: r => r ← printf_text r; Ok (c :: r)
  end.

(** The text before the first NUL. *)
Fixpoint c_str (b : list Z) : list Z :=
  match b with [] => [] | c :: b => if c =? 0 then [] else c :: c_str b end.

Definition print_notes (uid : Z) (searchstring : list Z) : M nst Z :=
  note_length ← find_user_note uid;
  if note_length =? -1 then mret 0
  else
    note_buffer ← read_fd (Z.to_nat note_length);
    if 100 <=? note_length then fail BadAccess
    else
      let note := c_str note_buffer in
      (if negb (search_note note searchstring =? 0) then
         t ← lift (printf_text note); nprint (NText t)
       else mret tt);;
      mret 1.

Fixpoint printing_loop (fuel : nat) (uid : Z) (searchstring : list Z) : M nst unit :=
  match fuel with
  | O => fail OutOfFuel
  | S fuel =>
      printing ← print_notes uid searchstring;
      if printing =? 0 then mret tt else printing_loop fuel uid searchstring
  end.

(** [open] fails where there is no file, or no permission. *)
Definition notesearch_main (sys : nsys) (uid : Z) (argv1 : option (list Z)) : M nst unit :=
  let searchstring := default [] argv1 in
  if (100 <=? length searchstring)%nat then fail BadAccess
  else
    f ← gets notes;
    match f with
    | None => nfatal
    | Some data =>
        if negb (n_open sys) then nfatal
        else
          modify (λ s, NSt (notes s) 0 (nout s) (nwrites s));;
          printing_loop (S (length data)) uid searchstring;;
          nprint NEnd
    end.
