(* ===== verification/NotesProofs.v ===== *)
(** * The note programs: correctness

    [enc] is the form of a note in the file and [found] what [notesearch] is to
    print for the notes in it; [occurs] is what the keyword search is to decide. *)

From stdpp Require Import base gmap list.
From Stdlib Require Import ZArith Lia.
From S2P Require Import Prelude Notes.

Local Open Scope Z_scope.

(** ** The keyword search *)
Definition occurs (keyword note : list Z) : Prop := ∃ a b, note = a ++ keyword ++ b.

Lemma snoc_take (kw : list Z) m c : kw !! m = Some c → take (S m) kw = take m kw ++ [c].
Proof. intros. by apply take_S_r. Qed.

(** The invariant: the last [match_] characters read are the start of the keyword. *)
Lemma search_loop_sound note kw m a :
  (m < length kw)%nat → search_loop note kw m = true → occurs kw ((a ++ take m kw) ++ note).
Proof.
  revert m a. induction note as [|c note IH]; intros m a Hm; simpl; [done|]. repeat case_decide.
  - replace ((a ++ take m kw) ++ c :: note) with ((a ++ take (S m) kw) ++ note)
      by by rewrite (snoc_take _ _ c), <-!(assoc_L (++)).
    destruct (Nat.eqb_spec (S m) (length kw)) as [E|E].
    + intros _. exists a, note. by rewrite take_ge, (assoc_L (++)) by lia.
    + apply IH. lia.
  - replace ((a ++ take m kw) ++ c :: note) with (((a ++ take m kw) ++ take 1 kw) ++ note)
      by by rewrite (snoc_take _ 0 c), <-!(assoc_L (++)).
    destruct (Nat.eqb_spec 1 (length kw)) as [E|E].
    + intros _. exists (a ++ take m kw), note. by rewrite (take_ge kw 1), <-!(assoc_L (++)) by lia.
    + apply IH. lia.
  - replace ((a ++ take m kw) ++ c :: note) with (((a ++ take m kw ++ [c]) ++ take 0 kw) ++ note)
      by by rewrite take_0, app_nil_r, <-!(assoc_L (++)).
    destruct (Nat.eqb_spec 0 (length kw)) as [E|E]; [lia|]. apply IH. lia.
Qed.

(** Once the first character was matched the rest follows. *)
Lemma search_loop_rest kw b m : (0 < m < length kw)%nat → search_loop (drop m kw ++ b) kw m = true.
Proof.
  remember (length kw - m)%nat as k eqn:Hk. revert m Hk. induction k as [|k IH]; intros m Hk Hm; [lia|].
  destruct (lookup_lt_is_Some_2 kw m ltac:(lia)) as [c Hc]. rewrite (drop_S _ c) by done. simpl.
  rewrite decide_True by done. destruct (Nat.eqb_spec (S m) (length kw)); [done|]. apply IH; lia.
Qed.

Lemma search_loop_complete c kw a b m :
  c ∉ kw → (m < length (c :: kw))%nat → search_loop (a ++ (c :: kw) ++ b) (c :: kw) m = true.
Proof.
  intros Hc. revert m. induction a as [|x a IH]; intros m Hm.
  - cbn [app search_loop]. assert ((if decide ((c :: kw) !! m = Some c) then S m
      else if decide ((c :: kw) !! 0%nat = Some c) then 1 else 0)%nat = 1%nat) as ->.
    { case_decide as E; [|by rewrite decide_True]. destruct m; [done|]. simpl in E.
      exfalso. apply Hc. by eapply list_elem_of_lookup_2. }
    destruct (Nat.eqb_spec 1 (length (c :: kw))) as [E|E]; [done|].
    apply (search_loop_rest (c :: kw) b 1). simpl in *. lia.
  - rewrite <-app_comm_cons. cbn [search_loop]. set (m' := if decide _ then _ else _).
    destruct (Nat.eqb_spec m' (length (c :: kw))) as [E|E]; [done|]. apply IH.
    unfold m' in *. repeat case_decide; simpl in *; lia.
Qed.

(** The keyword search is right about what it reports, and for keywords
    whose first character does not occur again in them it decides whether the
    keyword occurs in the note. *)
Theorem search_note_correct note keyword :
  (search_note note keyword = 1 → occurs keyword note) ∧
  (search_note note keyword = 0 ∨ search_note note keyword = 1) ∧
  (∀ c kw, keyword = c :: kw → c ∉ kw → occurs keyword note → search_note note keyword = 1).
Proof.
  unfold search_note. split_and!.
  - destruct keyword as [|c kw]; [by exists [], note|]. simpl.
    destruct (search_loop note (c :: kw) 0) eqn:E; [|done]. intros _.
    apply (search_loop_sound note (c :: kw) 0 []); [simpl; lia|done].
  - repeat case_match; auto.
  - intros c kw -> Hc (a & b & ->). cbn [length Nat.eqb]. rewrite search_loop_complete; [done|done|simpl; lia].
Qed.

(** For other keywords it can miss an occurrence, because it never goes
    back: [xxy] is not found in [xxxy]. *)
Theorem search_note_misses x y :
  x ≠ y → occurs [x; x; y] [x; x; x; y] ∧ search_note [x; x; x; y] [x; x; y] = 0.
Proof.
  intros Hxy. split; [by exists [x], []|]. unfold search_note. simpl.
  repeat (first [rewrite (decide_True (P := Some x = Some x)) by done
                |rewrite (decide_False (P := Some y = Some x)) by congruence
                |rewrite (decide_False (P := Some x = Some y)) by congruence]; simpl).
  done.
Qed.

(** ** The file *)
Definition note : Type := Z * list Z.
Definition enc (n : note) : list Z := le4 n.1 ++ [10] ++ n.2 ++ [10].
Definition file_of (ns : list note) : list Z := ns ≫= enc.

(** A note that can be given on the command line. *)
Definition note_ok (n : note) : Prop :=
  is_int n.1 ∧ 10 ∉ n.2 ∧ 0 ∉ n.2 ∧ (length n.2 ≤ 99)%nat.
(** A note that can be printed: no [printf] directives, and one character
    shorter than [notetaker] accepts. *)
Definition printable (n : note) : Prop := 37 ∉ n.2 ∧ (length n.2 ≤ 98)%nat.

Lemma le4_roundtrip z : is_int z → of_le4 (le4 z) = z.
Proof.
  intros Hz. unfold of_le4, le4, is_int, INT_MIN, INT_MAX in *. cbn [foldr]. set (x := u32 z).
  assert (0 ≤ x < 4294967296) as Hx by (apply Z.mod_pos_bound; lia).
  replace (x mod 256 + 256 * (x / 256 mod 256 + 256 * (x / 65536 mod 256 + 256 * (x / 16777216 + 256 * 0)))) with x.
  - unfold x, i32, u32. rewrite Zplus_mod_idemp_l, Z.mod_small by lia. lia.
  - change 16777216 with (256 * 65536). change 65536 with (256 * 256).
    rewrite <-!Z.div_div by lia.
    pose proof (Z.div_mod x 256 ltac:(lia)). pose proof (Z.div_mod (x / 256) 256 ltac:(lia)).
    pose proof (Z.div_mod (x / 256 / 256) 256 ltac:(lia)). lia.
Qed.

Lemma length_enc n : length (enc n) = (6 + length n.2)%nat.
Proof. unfold enc, le4. rewrite !length_app. simpl. lia. Qed.
Lemma file_of_app a b : file_of (a ++ b) = file_of a ++ file_of b.
Proof. apply bind_app. Qed.
Lemma file_of_cons n ns : file_of (n :: ns) = enc n ++ file_of ns.
Proof. done. Qed.
Lemma file_of_length ns : (length ns ≤ length (file_of ns))%nat.
Proof.
  induction ns as [|n ns IH]; [done|]. rewrite file_of_cons, length_app, length_enc. simpl. lia.
Qed.

(** ** Reading *)
Lemma read_mid f a b c o w :
  f = a ++ b ++ c →
  read_fd (length b) (NSt (Some f) (length a) o w) = Ok (b, NSt (Some f) (length (a ++ b)) o w).
Proof.
  intros ->. unfold read_fd. simpl. rewrite drop_app_length, take_app_length, length_app. done.
Qed.
Lemma read_eof n f o w :
  read_fd n (NSt (Some f) (length f) o w) = Ok ([], NSt (Some f) (length f) o w).
Proof. unfold read_fd. simpl. rewrite drop_ge, take_nil by lia. simpl. by rewrite Nat.add_0_r. Qed.

Lemma line_loop_ok t : ∀ fuel byte len f a c o w,
  10 ∉ t → byte ≠ 10 → f = a ++ (t ++ [10]) ++ c → (length t + 2 ≤ fuel)%nat →
  0 ≤ len → len + Z.of_nat (length t) < INT_MAX →
  line_loop fuel byte len (NSt (Some f) (length a) o w) =
  Ok (Some (len + Z.of_nat (length t) + 1), NSt (Some f) (length (a ++ t ++ [10])) o w).
Proof.
  induction t as [|x t IH]; intros fuel byte len f a c o w Ht Hb Hf Hfu Hl Hm;
    (destruct fuel as [|fuel]; [simpl in *; lia|]); cbn [line_loop];
    rewrite (proj2 (Z.eqb_neq byte 10)) by done.
  - rewrite (bind_ok _ _ _ _ _ (read_mid f a [10] c o w Hf)).
    rewrite (bind_ok _ _ _ _ _ (chk_int_ok (len + 1) _ ltac:(unfold is_int, INT_MIN, INT_MAX in *; simpl in *; lia))).
    replace (len + Z.of_nat (length []) + 1) with (len + 1) by (simpl; lia).
    destruct fuel; [simpl in *; lia|]. done.
  - rewrite not_elem_of_cons in Ht. destruct Ht as [Hx Ht].
    rewrite (bind_ok _ _ _ _ _ (read_mid f a [x] ((t ++ [10]) ++ c) o w Hf)). cbn [length] in *.
    rewrite (bind_ok _ _ _ _ _ (chk_int_ok (len + 1) _ ltac:(unfold is_int, INT_MIN, INT_MAX in *; lia))).
    rewrite (IH fuel x (len + 1) f (a ++ [x]) c o w); [|done|by intros ->|by rewrite Hf, <-!(assoc_L (++))|lia..].
    rewrite <-(assoc_L (++) a [x]).
    by replace (len + 1 + Z.of_nat (length t) + 1) with (len + Z.of_nat (S (length t)) + 1) by lia.
Qed.

(** One iteration of the loop over the notes. *)
Lemma find_loop_step fuel u nu len n f a c o w :
  note_ok n → nu ≠ u → f = a ++ enc n ++ c →
  find_loop (S fuel) u nu len (NSt (Some f) (length a) o w) =
  find_loop fuel u n.1 (Some (Z.of_nat (length n.2) + 1)) (NSt (Some f) (length (a ++ enc n)) o w).
Proof.
  intros (Hi & H10 & _ & Hl) Hu Hf. cbn [find_loop]. rewrite (proj2 (Z.eqb_neq nu u)) by done.
  rewrite (bind_ok _ _ _ _ _ (read_mid f a (le4 n.1) ([10] ++ (n.2 ++ [10]) ++ c) o w
    ltac:(rewrite Hf; unfold enc; by rewrite <-!(assoc_L (++))))).
  change (Nat.eqb (length (le4 n.1)) 4) with true. cbn [negb].
  rewrite (bind_ok _ _ _ _ _ (read_mid f (a ++ le4 n.1) [10] ((n.2 ++ [10]) ++ c) o w
    ltac:(rewrite Hf; unfold enc; by rewrite <-!(assoc_L (++))))).
  cbn [length Nat.eqb negb]. erewrite bind_ok; [|done].
  rewrite (bind_ok _ _ _ _ _ (line_loop_ok n.2 (S (length f)) 0 0 f ((a ++ le4 n.1) ++ [10]) c o w
    H10 ltac:(done) ltac:(rewrite Hf; unfold enc; by rewrite <-!(assoc_L (++)))
    ltac:(rewrite Hf, !length_app, length_enc; lia) ltac:(lia) ltac:(unfold INT_MAX; lia))).
  rewrite le4_roundtrip by done. unfold enc. by rewrite <-!(assoc_L (++)).
Qed.

(** Notes of other users are skipped. *)
Lemma find_loop_skip u ns : ∀ fuel nu len f a c o w,
  Forall note_ok ns → Forall (λ n, n.1 ≠ u) ns → nu ≠ u → f = a ++ file_of ns ++ c →
  ∃ nu' len', nu' ≠ u ∧
    find_loop (length ns + fuel) u nu len (NSt (Some f) (length a) o w) =
    find_loop fuel u nu' len' (NSt (Some f) (length (a ++ file_of ns)) o w).
Proof.
  induction ns as [|n ns IH]; intros fuel nu len f a c o w Hok Hne Hu Hf.
  { exists nu, len. by rewrite app_nil_r. }
  rewrite file_of_cons in *. rewrite Forall_cons in Hok, Hne.
  cbn [length Nat.add]. rewrite (find_loop_step _ _ _ _ n f a (file_of ns ++ c)); [|apply Hok|done|by rewrite Hf, <-!(assoc_L (++))].
  destruct (IH fuel n.1 (Some (Z.of_nat (length n.2) + 1)) f (a ++ enc n) c o w) as (nu' & len' & Hn & E);
    [apply Hok|apply Hne|apply Hne|by rewrite Hf, <-!(assoc_L (++))|].
  exists nu', len'. split; [done|]. by rewrite E, <-(assoc_L (++)).
Qed.

(** [find_user_note] stops in front of the next note of its user. *)
Lemma find_user_note_none u ns f a o w :
  Forall note_ok ns → Forall (λ n, n.1 ≠ u) ns → u ≠ -1 → f = a ++ file_of ns →
  find_user_note u (NSt (Some f) (length a) o w) = Ok (-1, NSt (Some f) (length f) o w).
Proof.
  intros Hok Hne Hu Hf. unfold find_user_note. erewrite bind_ok; [|done]. cbn [notes]. change (default [] (Some f)) with f.
  pose proof (file_of_length ns) as Hlen.
  assert (S (length f) = length ns + S (length f - length ns))%nat as -> by (rewrite Hf, length_app; lia).
  destruct (find_loop_skip u ns (S (length f - length ns)) (-1) None f a [] o w) as (nu & len & Hn & E);
    [done|done|done|by rewrite app_nil_r|].
  rewrite (bind_ok _ _ _ None (NSt (Some f) (length f) o w)); [done|]. rewrite E, <-Hf.
  cbn [find_loop]. rewrite (proj2 (Z.eqb_neq nu u)) by done. by rewrite (bind_ok _ _ _ _ _ (read_eof 4 f o w)).
Qed.

Lemma find_user_note_some u ns n f a c o w :
  Forall note_ok ns → Forall (λ n, n.1 ≠ u) ns → note_ok n → n.1 = u → u ≠ -1 →
  f = a ++ file_of ns ++ enc n ++ c →
  find_user_note u (NSt (Some f) (length a) o w) =
  Ok (Z.of_nat (length n.2) + 1,
      NSt (Some f) (length (a ++ file_of ns ++ le4 n.1 ++ [10])) (o ++ [NFound (Z.of_nat (length n.2) + 1) u]) w).
Proof.
  intros Hok Hne Hn Hnu Hu Hf. unfold find_user_note. erewrite bind_ok; [|done]. cbn [notes]. change (default [] (Some f)) with f.
  pose proof (file_of_length ns) as Hlen.
  assert (length f = length ns + S (length f - length ns - 1))%nat as Efu
    by (rewrite Hf, !length_app, length_enc in *; lia).
  rewrite Efu at 1. rewrite <-Nat.add_succ_r.
  destruct (find_loop_skip u ns (S (S (length f - length ns - 1))) (-1) None f a (enc n ++ c) o w) as (nu & len & Hx & E);
    [done..|].
  rewrite (bind_ok _ _ _ (Some (Some (Z.of_nat (length n.2) + 1))) (NSt (Some f) (length ((a ++ file_of ns) ++ enc n)) o w)).
  2:{ rewrite E, (find_loop_step _ _ _ _ n f (a ++ file_of ns) c) by (done || by rewrite Hf, <-!(assoc_L (++))).
      cbn [find_loop]. by rewrite (proj2 (Z.eqb_eq n.1 u)). }
  erewrite bind_ok; [|done]. erewrite bind_ok; [|done]. erewrite bind_ok; [|done].
  cbn [notes pos nout nwrites]. unfold mret, M_ret. f_equal. f_equal. f_equal.
  unfold enc. rewrite !length_app. simpl. lia.
Qed.

(** ** Printing *)
Lemma c_str_plain t : 0 ∉ t → c_str t = t.
Proof.
  induction t as [|x t IH]; [done|]. rewrite not_elem_of_cons. intros [Hx Ht]. simpl.
  rewrite (proj2 (Z.eqb_neq x 0)) by done. by rewrite IH.
Qed.
Lemma printf_cons c t : c ≠ 37 → printf_text (c :: t) = (r ← printf_text t; Ok (c :: r)).
Proof.
  intros Hc. cbn [printf_text]. repeat (case_match; try done).
Qed.
Lemma printf_plain t : 37 ∉ t → printf_text t = Ok t.
Proof.
  induction t as [|x t IH]; [done|]. rewrite not_elem_of_cons. intros [Hx Ht].
  rewrite printf_cons by done. by rewrite IH.
Qed.

(** What is printed for a note, and for the notes of the file. *)
Definition shown (u : Z) (kw t : list Z) : list nline :=
  NFound (Z.of_nat (length t) + 1) u :: (if search_note (t ++ [10]) kw =? 1 then [NText (t ++ [10])] else []).
Fixpoint found (u : Z) (kw : list Z) (ns : list note) : list nline :=
  match ns with
  | [] => []
  | n :: ns => (if decide (n.1 = u) then shown u kw n.2 else []) ++ found u kw ns
  end.

Lemma found_skip u kw ns : Forall (λ n, n.1 ≠ u) ns → found u kw ns = [].
Proof. induction 1; simpl; [done|]. by rewrite decide_False. Qed.
Lemma found_app u kw a b : found u kw (a ++ b) = found u kw a ++ found u kw b.
Proof. induction a; simpl; [done|]. by rewrite IHa, (assoc_L (++)). Qed.

(** The notes up to the first one of a user. *)
Lemma first_of u ns :
  Forall (λ n : note, n.1 ≠ u) ns ∨
  ∃ a n b, ns = a ++ n :: b ∧ Forall (λ n, n.1 ≠ u) a ∧ n.1 = u.
Proof.
  induction ns as [|n ns [IH|(a & n' & b & -> & Ha & Hn)]]; [by left| |].
  - destruct (decide (n.1 = u)); [|left; by constructor]. right. by exists [], n, ns.
  - destruct (decide (n.1 = u)).
    + right. by exists [], n, (a ++ n' :: b).
    + right. exists (n :: a), n', b. split_and!; [done|by constructor|done].
Qed.

Lemma search_note_01 t kw : (search_note t kw =? 0) = negb (search_note t kw =? 1).
Proof. unfold search_note. repeat case_match; done. Qed.

Lemma print_notes_some u kw ns n f a c o w :
  Forall note_ok ns → Forall (λ n, n.1 ≠ u) ns → note_ok n → printable n → n.1 = u → u ≠ -1 →
  f = a ++ file_of ns ++ enc n ++ c →
  print_notes u kw (NSt (Some f) (length a) o w) =
  Ok (1, NSt (Some f) (length (a ++ file_of (ns ++ [n]))) (o ++ shown u kw n.2) w).
Proof.
  intros Hok Hne Hn [Hp Hl] Hnu Hu Hf. unfold print_notes.
  rewrite (bind_ok _ _ _ _ _ (find_user_note_some u ns n f a c o w Hok Hne Hn Hnu Hu Hf)).
  rewrite (proj2 (Z.eqb_neq _ (-1))) by lia.
  replace (Z.to_nat (Z.of_nat (length n.2) + 1)) with (length (n.2 ++ [10])) by (rewrite length_app; simpl; lia).
  rewrite (bind_ok _ _ _ _ _ (read_mid f (a ++ file_of ns ++ le4 n.1 ++ [10]) (n.2 ++ [10]) c _ w
    ltac:(rewrite Hf; unfold enc; by rewrite <-!(assoc_L (++))))).
  rewrite (proj2 (Z.leb_gt 100 _)) by lia. destruct Hn as (_ & _ & H0 & _).
  rewrite c_str_plain by set_solver. rewrite search_note_01, negb_involutive.
  replace (a ++ file_of (ns ++ [n])) with ((a ++ file_of ns ++ le4 n.1 ++ [10]) ++ n.2 ++ [10])
    by (rewrite file_of_app; unfold file_of at 3; cbn [mbind list_bind]; unfold enc; by rewrite app_nil_r, <-!(assoc_L (++))).
  unfold shown. destruct (search_note (n.2 ++ [10]) kw =? 1).
  - unfold lift. rewrite printf_plain by set_solver.
    erewrite (bind_ok _ _ _ tt); [|done]. cbn [notes pos nout nwrites]. by rewrite <-(assoc_L (++) o).
  - done.
Qed.

Lemma printing_ok u kw : u ≠ -1 → ∀ k ns fuel f a o w,
  (length ns ≤ k)%nat → Forall note_ok ns → Forall (λ n, n.1 = u → printable n) ns →
  f = a ++ file_of ns → (length ns < fuel)%nat →
  printing_loop fuel u kw (NSt (Some f) (length a) o w) =
  Ok (tt, NSt (Some f) (length f) (o ++ found u kw ns) w).
Proof.
  intros Hu. induction k as [|k IH]; intros ns fuel f a o w Hk Hok Hpr Hf Hfu;
    (destruct fuel as [|fuel]; [lia|]); cbn [printing_loop];
    destruct (first_of u ns) as [Hne|(n1 & n & n2 & -> & Hn1 & Hnu)].
  1,3: rewrite (bind_ok _ _ _ 0 (NSt (Some f) (length f) o w));
    [cbn [Z.eqb]; by rewrite found_skip, app_nil_r|
     unfold print_notes; by rewrite (bind_ok _ _ _ _ _ (find_user_note_none u ns f a o w Hok Hne Hu Hf))].
  - rewrite length_app in Hk. simpl in Hk. lia.
  - rewrite Forall_app, Forall_cons in Hok, Hpr. destruct Hok as (Ho1 & Ho & Ho2), Hpr as (_ & Hpn & Hp2).
    rewrite length_app in *. simpl in Hk, Hfu.
    rewrite file_of_app, file_of_cons in Hf.
    rewrite (bind_ok _ _ _ _ _ (print_notes_some u kw n1 n f a (file_of n2) o w Ho1 Hn1 Ho (Hpn Hnu) Hnu Hu Hf)).
    cbn [Z.eqb]. rewrite (IH n2 fuel f (a ++ file_of (n1 ++ [n]))); [|lia|done|done| |lia].
    + rewrite found_app, (found_skip u kw n1) by done. simpl. rewrite decide_True by done.
      by rewrite <-(assoc_L (++)).
    + rewrite Hf, file_of_app, file_of_cons, app_nil_r, <-!(assoc_L (++)). done.
Qed.

Lemma notesearch_ok sys u kw ns p o w :
  n_open sys = true → (length (default [] kw) < 100)%nat → u ≠ -1 → Forall note_ok ns →
  Forall (λ n, n.1 = u → printable n) ns →
  notesearch_main sys u kw (NSt (Some (file_of ns)) p o w) =
  Ok (tt, NSt (Some (file_of ns)) (length (file_of ns)) (o ++ found u (default [] kw) ns ++ [NEnd]) w).
Proof.
  intros Hopen Hk Hu Hok Hpr. unfold notesearch_main. rewrite (proj2 (Nat.leb_gt 100 _)) by done.
  erewrite bind_ok; [|done]. cbn [notes]. rewrite Hopen. cbn [negb]. erewrite bind_ok; [|done]. cbn [notes nout nwrites].
  pose proof (file_of_length ns).
  rewrite (bind_ok _ _ _ _ _ (printing_ok u (default [] kw) Hu (length ns) ns (S (length (file_of ns))) (file_of ns) [] o w
    ltac:(done) Hok Hpr ltac:(done) ltac:(lia))).
  unfold nprint, modify. simpl. by rewrite <-(assoc_L (++)).
Qed.

(** ** Saving *)
Definition sys_ok (sys : nsys) : Prop :=
  (∀ i, n_malloc sys i = true) ∧ n_open sys = true ∧ n_close sys = true ∧ ∀ i k, n_write sys i k = Some k.

Lemma write_ok sys d f p o w :
  sys_ok sys → write_fd sys d (NSt (Some f) p o w) = Ok (Z.of_nat (length d), NSt (Some (f ++ d)) p o (S w)).
Proof.
  intros (_ & _ & _ & Hw). unfold write_fd. erewrite bind_ok; [|done]. erewrite bind_ok; [|done]. cbn [nwrites].
  rewrite Hw. erewrite bind_ok; [|done]. rewrite take_ge by done. done.
Qed.

Lemma notetaker_ok sys n nf p o w :
  sys_ok sys → note_ok n →
  notetaker_main sys n.1 (Some n.2) (NSt nf p o w) =
  Ok (tt, NSt (Some (default [] nf ++ enc n)) p (o ++ [NBuffer n.2; NFile; NSaved]) (4 + w)).
Proof.
  intros Hs (_ & _ & _ & Hl). pose proof Hs as (Hm & Ho & Hc & _). unfold notetaker_main, ec_malloc, open_append.
  rewrite !Hm. do 2 (erewrite bind_ok; [|done]). rewrite (proj2 (Nat.leb_gt 100 _)) by lia.
  erewrite bind_ok; [|done]. rewrite Ho. erewrite bind_ok; [|done]. cbn [negb notes pos nout nwrites].
  erewrite bind_ok; [|done]. cbn [notes pos nout nwrites].
  rewrite (bind_ok _ _ _ _ _ (write_ok sys (le4 n.1) _ p _ w Hs)). cbn [length le4].
  change (Z.of_nat 4 =? -1) with false. cbv iota.
  rewrite (bind_ok _ _ _ _ _ (write_ok sys [10] _ p _ _ Hs)).
  rewrite (bind_ok _ _ _ _ _ (write_ok sys n.2 _ p _ _ Hs)).
  rewrite (proj2 (Z.eqb_neq _ (-1))) by lia.
  rewrite (bind_ok _ _ _ _ _ (write_ok sys [10] _ p _ _ Hs)). rewrite Hc. cbn [negb].
  unfold nprint, modify. cbn [notes pos nout nwrites]. unfold enc. by rewrite <-!(assoc_L (++)).
Qed.

(** Several users save notes, one after the other. *)
Fixpoint save_all (sys : nsys) (ns : list note) : M nst unit :=
  match ns with
  | [] => mret tt
  | n :: ns => notetaker_main sys n.1 (Some n.2);; save_all sys ns
  end.

Lemma save_all_ok sys ns : ∀ nf p o w,
  sys_ok sys → Forall note_ok ns → ns ≠ [] →
  ∃ o' w', save_all sys ns (NSt nf p o w) = Ok (tt, NSt (Some (default [] nf ++ file_of ns)) p o' w').
Proof.
  induction ns as [|n ns IH]; intros nf p o w Hs Hok Hne; [done|]. apply Forall_cons in Hok as [Hn Hok].
  cbn [save_all]. rewrite (bind_ok _ _ _ _ _ (notetaker_ok sys n nf p o w Hs Hn)).
  destruct (decide (ns = [])) as [->|Hns].
  - eexists _, _. rewrite file_of_cons, app_nil_r. done.
  - destruct (IH (Some (default [] nf ++ enc n)) p (o ++ [NBuffer n.2; NFile; NSaved]) (4 + w)%nat Hs Hok Hns)
      as (o' & w' & E). exists o', w'. rewrite E, file_of_cons. simpl. by rewrite <-(assoc_L (++)).
Qed.

(** C13. The two programs together: after any users have saved notes of at most
    99 characters without line breaks, with system calls that work,
    [notesearch] run by a user prints, in the order of saving, exactly the notes
    of that user that its search finds the keyword in, and terminates; if that
    user's own notes have at most 98 characters and no percent signs (longer
    ones overflow the buffer, [note_99_overflows], and [printf] interprets
    percent signs), the user id is not -1 and the keyword is shorter than 100. *)
Theorem notes_roundtrip sys ns u kw :
  sys_ok sys → ns ≠ [] → Forall note_ok ns → Forall (λ n, n.1 = u → printable n) ns →
  u ≠ -1 → (length (default [] kw) < 100)%nat →
  ∃ s1 s2, save_all sys ns (NSt None 0 [] 0) = Ok (tt, s1) ∧ notes s1 = Some (file_of ns) ∧
    notesearch_main sys u kw s1 = Ok (tt, s2) ∧ notes s2 = Some (file_of ns) ∧
    nout s2 = nout s1 ++ found u (default [] kw) ns ++ [NEnd].
Proof.
  intros Hs Hne Hok Hpr Hu Hk. destruct (save_all_ok sys ns None 0 [] 0 Hs Hok Hne) as (o & w & E).
  eexists _, _. split; [exact E|]. split; [done|].
  split; [by apply notesearch_ok; [apply Hs|..]|done].
Qed.

Lemma print_notes_long u kw n f a c o w :
  note_ok n → length n.2 = 99%nat → n.1 = u → u ≠ -1 → f = a ++ enc n ++ c →
  print_notes u kw (NSt (Some f) (length a) o w) = Err BadAccess.
Proof.
  intros Hn Hl Hnu Hu Hf. unfold print_notes.
  rewrite (bind_ok _ _ _ _ _ (find_user_note_some u [] n f a c o w ltac:(done) ltac:(done) Hn Hnu Hu Hf)).
  replace (Z.of_nat (length n.2) + 1) with (Z.of_nat (length (n.2 ++ [10]))) by (rewrite length_app; simpl; lia).
  rewrite (proj2 (Z.eqb_neq _ (-1))), Nat2Z.id by lia.
  rewrite (bind_ok _ _ _ _ _ (read_mid f (a ++ file_of [] ++ le4 n.1 ++ [10]) (n.2 ++ [10]) c _ w
    ltac:(rewrite Hf; unfold enc; by rewrite <-!(assoc_L (++))))).
  rewrite length_app, Hl. done.
Qed.

(** [notetaker] accepts a note of 99 characters, which [notesearch] cannot
    read: it writes the terminating NUL past its buffer of 100 bytes. *)
Theorem note_99_overflows sys n kw :
  sys_ok sys → note_ok n → length n.2 = 99%nat → n.1 ≠ -1 → (length (default [] kw) < 100)%nat →
  ∃ s1, notetaker_main sys n.1 (Some n.2) (NSt None 0 [] 0) = Ok (tt, s1) ∧
    notesearch_main sys n.1 kw s1 = Err BadAccess.
Proof.
  intros Hs Hn Hl Hu Hk. rewrite (notetaker_ok sys n None 0 [] 0 Hs Hn). eexists. split; [done|].
  unfold notesearch_main. rewrite (proj2 (Nat.leb_gt 100 _)) by done.
  erewrite bind_ok; [|done]. cbn [notes]. destruct Hs as (_ & -> & _). cbn [negb].
  erewrite bind_ok; [|done]. apply bind_err. cbn [printing_loop notes nout nwrites]. apply bind_err.
  by apply (print_notes_long n.1 _ n _ [] []); [..|rewrite app_nil_r].
Qed.

(** ** Concrete instances *)
Definition sys1 : nsys := NSys (λ _, true) true true (λ _ k, Some k).
Lemma sys1_ok : sys_ok sys1.
Proof. done. Qed.
Definition notes1 : list note := [(1000, [97; 98; 99]); (0, [98]); (1000, [98])].

Lemma notes_ok1 : Forall note_ok notes1.
Proof.
  repeat constructor; try (vm_compute; discriminate); simpl; try lia; set_solver.
Qed.

Lemma notes_roundtrip_witness :
  ∃ s1 s2, save_all sys1 notes1 (NSt None 0 [] 0) = Ok (tt, s1) ∧ notes s1 = Some (file_of notes1) ∧
    notesearch_main sys1 1000 (Some [97]) s1 = Ok (tt, s2) ∧ notes s2 = Some (file_of notes1) ∧
    nout s2 = nout s1 ++ [NFound 4 1000; NText [97; 98; 99; 10]; NFound 2 1000; NEnd].
Proof.
  apply (notes_roundtrip sys1 notes1 1000 (Some [97]) sys1_ok); [discriminate|apply notes_ok1| |discriminate|simpl; lia].
  repeat constructor; simpl; try lia; set_solver.
Defined.

Lemma note_99_overflows_witness :
  ∃ s1, notetaker_main sys1 1000 (Some (replicate 99 97)) (NSt None 0 [] 0) = Ok (tt, s1) ∧
    notesearch_main sys1 1000 None s1 = Err BadAccess.
Proof.
  apply (note_99_overflows sys1 (1000, replicate 99 97) None sys1_ok); [|reflexivity|discriminate|simpl; lia].
  split_and!; [vm_compute; split; discriminate|intros [? _]%elem_of_replicate; discriminate
    |intros [? _]%elem_of_replicate; discriminate|simpl; lia].
Defined.

Lemma search_note_misses_witness : occurs [1; 1; 2] [1; 1; 1; 2] ∧ search_note [1; 1; 1; 2] [1; 1; 2] = 0.
Proof. apply search_note_misses. discriminate. Defined.
