(* ===== verification/TinyDaemon.v ===== *)
(** * The tiny web daemon ([tinywebd.c])

    The web server as a daemon: the same requests and replies as in [Tinyweb],
    and a log file instead of output.  The log line of a connection is put
    together in an array on the stack. *)

From stdpp Require Import base gmap list strings.
From Stdlib Require Import ZArith Lia.
From S2P Require Import Prelude PatMem PrefixCode Arrays Tinyweb.

Local Open Scope Z_scope.

(** The fields of [struct tm] that are used. *)
Record tm := Tm { tm_sec : Z; tm_min : Z; tm_hour : Z; tm_mday : Z; tm_mon : Z; tm_year : Z }.

(** What the system does beside serving files: the local time when it is asked
    for the [i]-th time, and the number of bytes the [i]-th [write] accepts. *)
Record dsys := DSys { d_web : wsys; d_time : nat → tm; d_write : nat → nat → option nat }.

(** The server's state with the content of the log, and the number of
    [write]s and of readings of the clock. *)
Record dst := DSt { web : wst; d_log : list Z; d_nwrite : nat; d_ntime : nat }.

(** A client: its address and port, and what it sends. *)
Record client := Client { c_ip : Z * Z * Z * Z; c_port : Z; c_input : list Z }.

Definition inet_ntoa (ip : Z * Z * Z * Z) : list Z :=
  let '(a, b, c, d) := ip in fmt_d a ++ [46] ++ fmt_d b ++ [46] ++ fmt_d c ++ [46] ++ fmt_d d.

(** [strftime] with ["%m/%d/%Y %H:%M:%S> "]. *)
Definition pad2 (z : Z) : list Z := [48 + z / 10; 48 + z mod 10].
Definition stamp_text (t : tm) : list Z :=
  pad2 (tm_mon t + 1) ++ [47] ++ pad2 (tm_mday t) ++ [47] ++ fmt_d (tm_year t + 1900) ++ [32] ++
  pad2 (tm_hour t) ++ [58] ++ pad2 (tm_min t) ++ [58] ++ pad2 (tm_sec t) ++ [62; 32].
(** It writes nothing when the text and its NUL do not fit in [max] bytes. *)
Definition strftime (max : nat) (t : tm) : list Z :=
  if (length (stamp_text t) <? max)%nat then stamp_text t else [].

Section daemon.
Context (sys : dsys).

Definition on_web {A} (c : M wst A) : M dst A := λ s,
  match c (web s) with
  | Ok (a, w) => Ok (a, DSt w (d_log s) (d_nwrite s) (d_ntime s))
  | Err e => Err e
  end.

(** [write] to the log, whose result the code does not look at. *)
Definition write_log (d : list Z) : M dst unit :=
  i ← gets d_nwrite;
  modify (λ s, DSt (web s) (d_log s ++ from_option (λ k, take k d) [] (d_write sys i (length d))) (S i) (d_ntime s)).

Definition timestamp : M dst unit :=
  i ← gets d_ntime;
  modify (λ s, DSt (web s) (d_log s) (d_nwrite s) (S i));;
  write_log (strftime 40 (d_time sys i)).

(** The handler ends the process with [exit (0)]; it is the last code that runs. *)
Definition handle_shutdown : M dst unit :=
  timestamp;;
  write_log (cs "Shutting down.." ++ [10]);;
  on_web (add_fds pred);;
  on_web (add_fds pred).

(** The header of a log line; [sprintf] to [log_buffer]. *)
Definition log_head (ip : Z * Z * Z * Z) (port : Z) (request : list Z) : list Z :=
  cs "From " ++ inet_ntoa ip ++ [58] ++ fmt_d port ++ [32; 34] ++ request ++ [34; 9].

Definition serve (request : arr) (ptr : nat) (log_buffer : arr) : M dst arr :=
  path ← on_web (resource_path request ptr);
  fd ← on_web (open_file (d_web sys) path);
  match fd with
  | None =>
      log_buffer ← lift (strcat log_buffer 0 (cs " 404 Not Found" ++ [10]));
      on_web (send_all (d_web sys) reply_404);;
      mret log_buffer
  | Some content =>
      log_buffer ← lift (strcat log_buffer 0 (cs " 200 OK" ++ [10]));
      on_web (send_all (d_web sys) reply_200);;
      (if Nat.eqb ptr 4 then on_web (send_file (d_web sys) path content) else mret tt);;
      on_web (add_fds pred);;
      mret log_buffer
  end.

Definition handle_connection (ip : Z * Z * Z * Z) (port : Z) : M dst unit :=
  r ← on_web (recv_line (unset 500));
  let request := r.2 in
  t ← lift (c_string request);
  log_buffer ← lift (wr_str (unset 500) 0 (log_head ip port t));
  log_buffer ←
    match strstr t (cs " HTTP/") with
    | None => lift (strcat log_buffer 0 (cs " NOT HTTP!" ++ [10]))
    | Some p =>
        request ← lift (wr request (Z.of_nat p) 0);
        t ← lift (c_string request);
        let ptr := if starts t (cs "GET ") then Some 4%nat else None in
        let ptr := if starts t (cs "HEAD ") then Some 5%nat else ptr in
        match ptr with
        | None => lift (strcat log_buffer 0 (cs " UNKNOWN REQUEST!" ++ [10]))
        | Some ptr => serve request ptr log_buffer
        end
    end;
  timestamp;;
  t ← lift (c_string log_buffer);
  write_log t.

Fixpoint accept_loop (clients : list client) : M dst unit :=
  match clients with
  | [] => mret tt
  | c :: clients =>
      fds ← on_web (gets w_fds);
      if negb (fds <? fd_limit (d_web sys))%nat then on_web fatal
      else
        on_web (modify (λ s, WSt (c_input c) [] (w_nsend s) (w_log s) (S (w_fds s)) (w_done s)));;
        handle_connection (c_ip c) (c_port c);;
        on_web (modify (λ s, WSt [] [] (w_nsend s) (w_log s) (w_fds s) (w_done s ++ [w_sent s])));;
        accept_loop clients
  end.

(** [main], for the clients that connect before the process is killed, which
    happens while it waits in [accept].  The calls that set it up are [open],
    [socket], [setsockopt], [daemon], [bind] and [listen]; the 15 bytes of the
    first message include the literal's NUL. *)
Definition tinywebd_main (clients : list client) : M dst unit :=
  let setup := w_setup (d_web sys) in
  if negb (setup 0%nat) then on_web fatal
  else
    on_web (add_fds S);;
    if negb (setup 1%nat) then on_web fatal
    else
      on_web (add_fds S);;
      if negb (setup 2%nat) then on_web fatal
      else if negb (setup 3%nat) then on_web fatal
      else
        timestamp;;
        write_log (cs "Starting up.." ++ [10; 0]);;
        if negb (setup 4%nat) then on_web fatal
        else if negb (setup 5%nat) then on_web fatal
        else
          accept_loop clients;;
          handle_shutdown.
End daemon.
