(* ===== verification/TinyDaemonProofs.v ===== *)
(** * The tiny web daemon: correctness

    The daemon gives the replies of the web server, whose lemmas are used
    through [on_web], and logs one line per connection that says what the
    request was and how it ended. *)

From stdpp Require Import base gmap list strings.
From Stdlib Require Import ZArith Lia.
From S2P Require Import Prelude PatMem PrefixCode DigitTrie Arrays Tinyweb TinywebProofs TinyDaemon.

Local Open Scope Z_scope.

(** ** The log *)

(** How a request ends. *)
Definition outcome (files : gmap (list Z) (list Z)) (line : list Z) : list Z :=
  match target line with
  | Some (_, path) =>
      match files !! path with Some _ => cs " 200 OK" ++ [10] | None => cs " 404 Not Found" ++ [10] end
  | None =>
      match strstr line (cs " HTTP/") with
      | None => cs " NOT HTTP!" ++ [10]
      | Some _ => cs " UNKNOWN REQUEST!" ++ [10]
      end
  end.

Lemma outcome_facts files line : 0 ∉ outcome files line ∧ (length (outcome files line) ≤ 18)%nat.
Proof.
  assert (∀ l, forallb (λ c, negb (c =? 0)) l && (length l <=? 18)%nat = true → 0 ∉ l ∧ (length l ≤ 18)%nat) as Hl.
  { intros l [Hz Hl]%andb_prop. split; [by apply not_nul|by apply Nat.leb_le]. }
  unfold outcome. destruct (target line) as [[get path]|]; [destruct (files !! path)|destruct (strstr _ _)];
    apply Hl; vm_compute; reflexivity.
Qed.

Definition addr_ok (ip : Z * Z * Z * Z) (port : Z) : Prop :=
  let '(a, b, c, d) := ip in 0 ≤ a < 256 ∧ 0 ≤ b < 256 ∧ 0 ≤ c < 256 ∧ 0 ≤ d < 256 ∧ 0 ≤ port < 65536.
#[global] Instance addr_ok_dec ip port : Decision (addr_ok ip port).
Proof. destruct ip as [[[a b] c] d]. unfold addr_ok. apply _. Defined.

Lemma log_head_nul ip port line : addr_ok ip port → 0 ∉ line → 0 ∉ log_head ip port line.
Proof.
  destruct ip as [[[a b] c] d]. intros (Ha & Hb & Hc & Hd & Hp) Hl. unfold log_head, inet_ntoa.
  rewrite !not_elem_of_app. split_and!; solve [done | by apply not_nul | apply fmt_d_no_nul; lia].
Qed.

(** ** Steps of the server *)
Section daemon.
Context (sys : dsys).

Lemma runs_on_web {A} (c : M wst A) s Q (Q' : A → wst → Prop) :
  runs c (web s) Q' → (∀ a w, Q' a w → Q a (DSt w (d_log s) (d_nwrite s) (d_ntime s))) → runs (on_web c) s Q.
Proof. intros (a & w & E & Hq) HQ. exists a, (DSt w (d_log s) (d_nwrite s) (d_ntime s)). unfold on_web. rewrite E. auto. Qed.

Lemma runs_on_modify f s (Q : unit → dst → Prop) :
  Q tt (DSt (f (web s)) (d_log s) (d_nwrite s) (d_ntime s)) → runs (on_web (modify f)) s Q.
Proof. intros HQ. by eexists _, _. Qed.

(** Every [write] to the log succeeds. *)
Context (Hwrite : ∀ i n, d_write sys i n = Some n).
Definition stamp (i : nat) : list Z := strftime 40 (d_time sys i).

(** The web server is as it was and the log grew by [d], for [k] time stamps. *)
Definition logged (s s' : dst) (k : nat) (d : list Z) : Prop :=
  web s' = web s ∧ d_log s' = d_log s ++ d ∧ d_ntime s' = (d_ntime s + k)%nat.

Lemma write_log_runs d s : runs (write_log sys d) s (λ _ s', logged s s' 0 d).
Proof.
  unfold write_log. apply runs_bind, runs_gets, runs_modify. split_and!; [done| |simpl; lia].
  simpl. rewrite Hwrite. simpl. by rewrite take_ge.
Qed.
Lemma timestamp_runs s : runs (timestamp sys) s (λ _ s', logged s s' 1 (stamp (d_ntime s))).
Proof.
  unfold timestamp. apply runs_bind, runs_gets, runs_bind, runs_modify.
  eapply runs_mono; [apply write_log_runs|]. intros [] s' (W & L & T). simpl in *. split_and!; [done|done|lia].
Qed.
Lemma stamped_runs d s :
  runs (timestamp sys;; write_log sys d) s (λ _ s', logged s s' 1 (stamp (d_ntime s) ++ d)).
Proof.
  apply runs_bind. eapply runs_mono; [apply timestamp_runs|]. intros [] s1 (W1 & L1 & T1).
  eapply runs_mono; [apply write_log_runs|]. intros [] s2 (W2 & L2 & T2).
  split_and!; [congruence|by rewrite L2, L1, <-(assoc_L (++))|lia].
Qed.

(** ** Connections *)
Context (Hsend : send_ok (d_web sys)) (Hfiles : files_ok (d_web sys)).

(** What happens to the log while a request is answered: nothing. *)
Definition served (files : gmap (list Z) (list Z)) (line : list Z) (s s' : dst) : Prop :=
  w_in (web s') = w_in (web s) ∧ replied (d_web sys) files line (web s) (web s') ∧
  d_log s' = d_log s ∧ d_ntime s' = d_ntime s.

Lemma daemon_serve_runs request line u p get ptr log_buffer t s :
  strstr line (cs " HTTP/") = Some p → u = take p line →
  holds request u → length request = 500%nat → (length u ≤ 480)%nat → url_of u = Some (get, ptr) →
  holds log_buffer t → (length t + 18 < length log_buffer)%nat →
  let files := avail (d_web sys) (web s) in
  runs (serve sys request ptr log_buffer) s (λ a s', holds a (t ++ outcome files line) ∧ served files line s s').
Proof.
  intros Hp -> Hr Hlr Hlu Hu Hb Hlb files. unfold serve. apply runs_bind.
  eapply runs_on_web; [by eapply resource_path_runs|]. intros path w0 [-> Epath].
  assert (target line = Some (get, path)) as Ht by (unfold target; rewrite Hp, Epath; simpl; by rewrite Hu).
  pose proof (outcome_facts files line) as [Ho Hol].
  destruct (holds_strcat log_buffer t 0 (outcome files line) Hb) as (a & Ea & Ha & _); [lia|done|lia|].
  apply runs_bind. eapply runs_on_web; [apply open_file_runs|]. intros fd w1 (-> & I1 & S1 & F1 & D1).
  unfold served, replied, reply. cbn [web] in *. rewrite Ht. revert Ea. unfold outcome at 1. rewrite Ht. fold files. intros Ea.
  fold files in F1.
  destruct (files !! path) as [c|] eqn:Ec.
  - assert (w_files (d_web sys) !! path = Some c) as Hc by by eapply avail_sub.
    apply runs_bind. eapply runs_lift; [exact Ea|]. apply runs_bind.
    eapply runs_on_web; [by apply send_all_runs|]. intros [] w2 (I2 & S2 & F2 & D2).
    destruct (url_of_some _ _ _ Hu) as [_ Hget]. rewrite Hget. apply runs_bind. destruct get.
    + eapply runs_on_web; [by apply send_file_runs|]. intros [] w3 (k & (I3 & S3 & F3 & D3) & Hall).
      apply runs_bind, runs_on_modify, runs_ret. simpl in *.
      split_and!; [done|congruence| |done|done]. exists (take k c).
      rewrite S3, S2, S1, F3, F2, F1, D3, D2, D1, <-(assoc_L (++)). split_and!; [done|apply prefix_take|done|done|done].
    + apply runs_ret, runs_bind, runs_on_modify, runs_ret. simpl in *.
      split_and!; [done|congruence| |done|done]. exists [].
      rewrite S2, S1, F2, F1, D2, D1. split_and!; [by rewrite ?app_nil_r|done|done|done|done].
  - apply runs_bind. eapply runs_lift; [exact Ea|]. apply runs_bind.
    eapply runs_on_web; [by apply send_all_runs|]. intros [] w2 (I2 & S2 & F2 & D2). apply runs_ret. simpl in *.
    split_and!; [done|congruence| |done|done]. exists [].
    rewrite S2, S1, F2, F1, D2, D1. split_and!; [by rewrite ?app_nil_r|done|done|done|done].
Qed.

(** The log line of a connection. *)
Definition entry (files : gmap (list Z) (list Z)) (ip : Z * Z * Z * Z) (port : Z) (line : list Z) : list Z :=
  log_head ip port line ++ outcome files line.
(** A request line whose log line fits the buffer. *)
Definition fits (ip : Z * Z * Z * Z) (port : Z) (line : list Z) : Prop :=
  line_ok line ∧ addr_ok ip port ∧ (length (log_head ip port line) + 18 < 500)%nat.

(** Reading the line into the array. *)
Lemma received s line rest :
  13 ∉ line → 0 ∉ line → (length line + 2 ≤ 500)%nat → w_in (web s) = line ++ crlf ++ rest →
  ∃ a, holds a line ∧ length a = 500%nat ∧
    on_web (recv_line (unset 500)) s = Ok ((Z.of_nat (length line), a),
      DSt (WSt rest (w_sent (web s)) (w_nsend (web s)) (w_log (web s)) (w_fds (web s)) (w_done (web s)))
        (d_log s) (d_nwrite s) (d_ntime s)).
Proof.
  intros H13 H0 Hl Hin. destruct (recv_line_ok rest line [] 500 H13 H0 ltac:(lia)) as (a & E & Ha & Hla).
  exists a. split_and!; [done|done|]. unfold on_web, recv_line. erewrite bind_ok by done. rewrite Hin.
  erewrite bind_ok; [|unfold lift; change (unset 500) with (ints [] ++ replicate 500 None);
    change 0 with (Z.of_nat (length (@nil Z))) at 1; by rewrite E].
  by erewrite bind_ok by done.
Qed.

(** The request was answered and the log line [b] is complete; [s] is the state
    before the connection. *)
Definition answered ip port line rest (s : dst) (b : arr) (s' : dst) : Prop :=
  let files := avail (d_web sys) (web s) in
  holds b (entry files ip port line) ∧ w_in (web s') = rest ∧ replied (d_web sys) files line (web s) (web s') ∧
  d_log s' = d_log s ∧ d_ntime s' = d_ntime s.
(** And the line was written. *)
Definition finished ip port line rest (s s' : dst) : Prop :=
  let files := avail (d_web sys) (web s) in
  w_in (web s') = rest ∧ replied (d_web sys) files line (web s) (web s') ∧
  d_log s' = d_log s ++ stamp (d_ntime s) ++ entry files ip port line ∧ d_ntime s' = S (d_ntime s).

Lemma finish_runs ip port line rest s b s' :
  answered ip port line rest s b s' →
  runs (timestamp sys;; t ← lift (c_string b); write_log sys t) s' (λ _, finished ip port line rest s).
Proof.
  intros (Hb & I & R & L & T). destruct (stamped_runs (entry (avail (d_web sys) (web s)) ip port line) s')
    as ([] & s3 & E3 & W3 & L3 & T3).
  exists tt, s3. split.
  - rewrite <-E3. unfold mbind, M_bind. destruct (timestamp sys s') as [[[] s4]|]; [|done].
    unfold lift. by rewrite (holds_c_string _ _ Hb).
  - unfold finished. rewrite W3, L3, L, T3, T. by split_and!; [| | |lia].
Qed.

(** A request that is not a request. *)
Lemma rejected_runs ip port line rest s s1 b :
  holds b (log_head ip port line) → length b = 500%nat → fits ip port line → target line = None →
  s1 = DSt (WSt rest (w_sent (web s)) (w_nsend (web s)) (w_log (web s)) (w_fds (web s)) (w_done (web s)))
    (d_log s) (d_nwrite s) (d_ntime s) →
  runs (lift (strcat b 0 (outcome (avail (d_web sys) (web s)) line))) s1 (answered ip port line rest s).
Proof.
  intros Hb Hlb (_ & _ & Hfit) Ht ->. pose proof (outcome_facts (avail (d_web sys) (web s)) line) as [Ho Hol].
  destruct (holds_strcat b _ 0 _ Hb (Nat.le_0_l _) Ho) as (b' & Eb' & Hb' & _); [lia|].
  eapply runs_lift; [exact Eb'|]. split_and!; [done|done| |done|done].
  exists []. unfold reply. rewrite Ht. simpl. by rewrite app_nil_r.
Qed.

Lemma daemon_connection_runs s ip port line rest :
  fits ip port line → w_in (web s) = line ++ crlf ++ rest →
  runs (handle_connection sys ip port) s (λ _, finished ip port line rest s).
Proof.
  intros Hfits Hin. pose proof Hfits as ((H13 & H0 & Hl) & Haddr & Hfit). unfold handle_connection.
  destruct (received s line rest) as (a & Ha & Hla & Ea); [done|done|lia|done|]. apply runs_bind. eexists _, _.
  split; [exact Ea|]. cbn [snd]. set (s1 := DSt _ _ _ _). apply runs_bind. eapply runs_lift; [by apply holds_c_string|].
  destruct (holds_strcpy (unset 500) (log_head ip port line)) as (b & Eb & Hb & Hlb).
  { by apply log_head_nul. }
  { unfold unset. rewrite length_replicate. lia. }
  assert (length b = 500%nat) as Hlb' by (rewrite Hlb; apply length_replicate). clear Hlb.
  apply runs_bind. eapply runs_lift; [exact Eb|]. apply runs_bind.
  eapply runs_mono; [|by intros b' s2; apply finish_runs].
  pose proof (rejected_runs ip port line rest s s1 b Hb Hlb' Hfits) as Hno. unfold outcome in Hno.
  destruct (strstr line (cs " HTTP/")) as [p|] eqn:Ep.
  2:{ assert (target line = None) as Ht by (unfold target; by rewrite Ep). rewrite Ht in Hno. by apply Hno. }
  assert (p < length line)%nat as Hp.
  { destruct (strstr_some _ _ _ Ep) as [x Hx]. apply (f_equal length) in Hx.
    rewrite !length_app, length_take in Hx. change (length (cs " HTTP/")) with 6%nat in Hx. lia. }
  destruct (holds_trunc a line p Ha Hp) as (a' & E' & Ha' & Hla').
  apply runs_bind. eapply runs_lift; [exact E'|]. apply runs_bind. eapply runs_lift; [by apply holds_c_string|].
  set (u := take p line) in *. rewrite method_of.
  destruct (url_of u) as [[get ptr]|] eqn:Eu; simpl.
  - eapply runs_mono; [apply (daemon_serve_runs a' line u p get ptr b (log_head ip port line)); try done|].
    + by rewrite Hla', Hla.
    + unfold u. rewrite length_take. lia.
    + lia.
    + intros b' s2 [Hb' (I2 & R2 & L2 & T2)]. split_and!; [done|by rewrite I2|exact R2|by rewrite L2|by rewrite T2].
  - assert (target line = None) as Ht by (unfold target; rewrite Ep; simpl; fold u; by rewrite Eu).
    rewrite Ht in Hno. by apply Hno.
Qed.

(** ** Sessions *)

(** A client that sends a line that fits. *)
Definition client_ok (c : client) (line : list Z) : Prop :=
  fits (c_ip c) (c_port c) line ∧ ∃ rest, c_input c = line ++ crlf ++ rest.

(** What the clients are sent, and the lines of the log from the [i]-th time stamp on. *)
Definition answers (lines : list (list Z)) : list (list Z) :=
  (λ line, (reply (w_files (d_web sys)) line).1 ++ (reply (w_files (d_web sys)) line).2) <$> lines.
Fixpoint entries (i : nat) (clients : list client) (lines : list (list Z)) : list Z :=
  match clients, lines with
  | c :: clients, line :: lines =>
      stamp i ++ entry (w_files (d_web sys)) (c_ip c) (c_port c) line ++ entries (S i) clients lines
  | _, _ => []
  end.

Lemma daemon_accept_runs clients lines s :
  (∀ i n, w_send (d_web sys) i n = Some n) → Forall2 client_ok clients lines →
  (w_fds (web s) + length clients < fd_limit (d_web sys))%nat →
  runs (accept_loop sys clients) s (λ _ s',
    w_done (web s') = w_done (web s) ++ answers lines ∧
    d_log s' = d_log s ++ entries (d_ntime s) clients lines ∧ d_ntime s' = (d_ntime s + length clients)%nat).
Proof.
  intros Hall Hc. revert s. induction Hc as [|c line clients lines [Hfit [rest Hin]] Hc IH]; intros s Hn; cbn [accept_loop].
  { apply runs_ret. simpl. rewrite !app_nil_r. split_and!; [done|done|lia]. }
  simpl in Hn. apply runs_bind. eapply runs_on_web; [by apply (runs_gets w_fds (web s) (λ x w, x = w_fds w ∧ w = web s))|].
  intros fds w [-> ->]. rewrite (proj2 (Nat.ltb_lt _ _)) by lia. cbn [negb]. apply runs_bind, runs_on_modify, runs_bind.
  eapply runs_mono; [apply (daemon_connection_runs _ (c_ip c) (c_port c) line rest); [done|by simpl]|].
  intros [] s1 (I1 & (body & S1 & _ & B1 & F1 & D1) & L1 & T1). simpl in *.
  assert (avail (d_web sys) (WSt (c_input c) [] (w_nsend (web s)) (w_log (web s)) (S (w_fds (web s))) (w_done (web s)))
    = w_files (d_web sys)) as Eav by (unfold avail; simpl; by rewrite (proj2 (Nat.ltb_lt _ _)) by lia).
  rewrite Eav in *. rewrite (B1 Hall) in *.
  apply runs_bind, runs_on_modify. eapply runs_mono; [apply IH; simpl; lia|]. simpl. intros [] s2 (D2 & L2 & T2).
  split_and!; [|by rewrite L2, L1, T1, <-(assoc_L (++) (d_log s)), <-(assoc_L (++) (stamp _))|lia].
  rewrite D2, D1, S1. simpl. by rewrite <-(assoc_L (++)).
Qed.

(** C34. A session of the daemon: if the system calls work, files can be stat'ed
    and fit in the memory, every [send] and
    [write] takes all it is given, and there are enough file descriptors (two, and
    one for each client, which the server does not close), it answers
    every client whose request line fits its arrays with the file or error page
    the line asks for, and when it is killed its log has gained exactly: the
    start-up message, one line for each client in the order they were served with
    its address, its request and how it ended, and the shut-down message, each
    with its time stamp. *)
Theorem daemon_session clients lines s :
  (∀ i, w_setup (d_web sys) i = true) → (∀ i n, w_send (d_web sys) i n = Some n) →
  Forall2 client_ok clients lines → (w_fds (web s) + 2 + length clients < fd_limit (d_web sys))%nat →
  ∃ s', tinywebd_main sys clients s = Ok (tt, s') ∧
    w_done (web s') = w_done (web s) ++ answers lines ∧
    d_log s' = d_log s ++ stamp (d_ntime s) ++ cs "Starting up.." ++ [10; 0] ++
      entries (S (d_ntime s)) clients lines ++
      stamp (S (d_ntime s + length clients)) ++ cs "Shutting down.." ++ [10].
Proof.
  intros Hset Hall Hc Hn. enough (runs (tinywebd_main sys clients) s (λ _ s',
    w_done (web s') = w_done (web s) ++ answers lines ∧
    d_log s' = d_log s ++ stamp (d_ntime s) ++ cs "Starting up.." ++ [10; 0] ++
      entries (S (d_ntime s)) clients lines ++
      stamp (S (d_ntime s + length clients)) ++ cs "Shutting down.." ++ [10])) as ([] & s' & E & H) by by exists s'.
  unfold tinywebd_main. rewrite !Hset. cbn [negb]. apply runs_bind, runs_on_modify, runs_bind, runs_on_modify.
  set (s0 := DSt _ _ _ _).
  apply (runs_seq (timestamp sys) (λ _, write_log sys (cs "Starting up.." ++ [10; 0])) (λ _, _)).
  eapply runs_mono; [apply stamped_runs|]. intros [] s1 (W1 & L1 & T1). simpl in W1, L1, T1.
  apply runs_bind. eapply runs_mono; [apply (daemon_accept_runs clients lines); [done..|rewrite W1; simpl; lia]|].
  intros [] s2 (D2 & L2 & T2). unfold handle_shutdown.
  apply (runs_seq (timestamp sys) (λ _, write_log sys (cs "Shutting down.." ++ [10])) (λ _, _)).
  eapply runs_mono; [apply stamped_runs|]. intros [] s3 (W3 & L3 & T3).
  apply runs_bind, runs_on_modify, runs_on_modify. simpl. rewrite W3, D2, W1. split; [done|].
  rewrite L3, L2, L1, T2, T1, <-!(assoc_L (++)). by rewrite Nat.add_1_r.
Qed.
End daemon.

(** A request line of 482 to 498 characters fits the array it is read into,
    and its log line never fits the array of the same size: [sprintf] writes
    past the end of [log_buffer], whoever the client is. *)
Theorem request_overflows_log sys s ip port line rest :
  addr_ok ip port → 13 ∉ line → 0 ∉ line → (482 ≤ length line ≤ 498)%nat → w_in (web s) = line ++ crlf ++ rest →
  handle_connection sys ip port s = Err BadAccess.
Proof.
  intros Haddr H13 H0 Hl Hin. destruct (received s line rest) as (a & Ha & _ & Ea); [done|done|lia|done|].
  unfold handle_connection. rewrite (bind_ok _ _ _ _ _ Ea). cbn [snd].
  erewrite bind_ok by (unfold lift; by rewrite (holds_c_string _ _ Ha)). apply bind_err.
  unfold lift, wr_str. rewrite decide_False; [done|]. unfold unset. rewrite length_replicate.
  destruct ip as [[[x y] z] w]. unfold addr_ok in Haddr. unfold log_head, inet_ntoa. rewrite !length_app.
  pose proof (fmt_d_pos x). pose proof (fmt_d_pos y). pose proof (fmt_d_pos z). pose proof (fmt_d_pos w).
  pose proof (fmt_d_pos port). simpl. lia.
Qed.

(** ** A concrete session *)
Definition dsys1 : dsys := DSys sys1 (λ _, Tm 5 4 3 2 0 125) (λ _ n, Some n).
Definition dst1 (input : list Z) : dst := DSt (st1 input) [] 0 0.
Definition local1 : client := Client (127, 0, 0, 1) 4242 (get1 ++ crlf).

Lemma daemon_session_witness :
  ∃ s', tinywebd_main (DSys (WSys (w_files sys1) (w_send sys1) (w_fstat sys1) (w_malloc sys1) (w_setup sys1) 7)
          (d_time dsys1) (d_write dsys1)) [local1] (dst1 []) = Ok (tt, s') ∧
    w_done (web s') = [mjoin reply_200 ++ cs "hello"] ∧
    d_log s' = cs "01/02/2025 03:04:05> Starting up.." ++ [10; 0] ++
      cs "01/02/2025 03:04:05> From 127.0.0.1:4242 " ++ [34] ++ get1 ++ [34; 9] ++ cs " 200 OK" ++ [10] ++
      cs "01/02/2025 03:04:05> Shutting down.." ++ [10].
Proof.
  set (sys := DSys _ _ _).
  destruct (daemon_session sys) with (clients := [local1]) (lines := [get1]) (s := dst1 []) as (s' & E & D & L).
  - done.
  - apply send_ok1.
  - apply files_ok1.
  - done.
  - done.
  - constructor; [|constructor]. split; [|by exists []].
    split_and!; [apply line_ok1..|by apply (bool_decide_unpack _); vm_compute|vm_compute; lia].
  - simpl. lia.
  - exists s'. split; [exact E|]. rewrite D, L. split; vm_compute; reflexivity.
Defined.

Lemma request_overflows_log_witness :
  handle_connection dsys1 (127, 0, 0, 1) 4242 (dst1 (replicate 490 97 ++ crlf)) = Err BadAccess.
Proof.
  apply (request_overflows_log dsys1 _ _ _ (replicate 490 97) []).
  - by apply (bool_decide_unpack _); vm_compute.
  - by intros [? _]%elem_of_replicate.
  - by intros [? _]%elem_of_replicate.
  - rewrite length_replicate. lia.
  - done.
Defined.
