(* ===== verification/UserHash.v ===== *)
(** * The hash table test ([Database_perf_test/uthash_test.c])

    A table of users by id, on the uthash macros, which are a parameter
    ([UTHash], and [UTHashSort] for [HASH_SORT]).  A user's name is an array of
    ten characters, as are the buffers of [main]. *)

From stdpp Require Import base gmap list strings.
From Stdlib Require Import ZArith Lia Sorted.
From S2P Require Import Prelude PatMem PrefixCode ArraySearch Arrays BgpsecLib.

Local Open Scope Z_scope.

Record my_struct := MyStruct { id : Z; name : arr }.

(** [HASH_SORT], with what the comparison makes of two items. *)
Class UTHashSort `{UTHash} := HASH_SORT : (loc → loc → res Z) → Tbl → res Tbl.

(** uthash documents that the items are then iterated in the order of the
    comparison, which has to behave as one: it returns on the items of the table,
    changes its sign when they are exchanged, and is transitive. *)
Class UTHashSortLaws `{UTHashSort} := sort_law (cmp : loc → loc → res Z) (c : loc → loc → Z) (t : Tbl) :
  let ls := (h_items t).*2 in
  (∀ x y, x ∈ ls → y ∈ ls → cmp x y = Ok (c x y)) →
  (∀ x y, x ∈ ls → y ∈ ls → Z.sgn (c y x) = - Z.sgn (c x y)) →
  (∀ x y z, x ∈ ls → y ∈ ls → z ∈ ls → c x y ≤ 0 → c y z ≤ 0 → c x z ≤ 0) →
  ∃ t', HASH_SORT cmp t = Ok t' ∧ h_items t' ≡ₚ h_items t ∧ StronglySorted (λ x y, c x.2 y.2 ≤ 0) (h_items t').

(** Of the result of [strcmp] only the sign is specified. *)
Fixpoint strcmp (a b : list Z) : Z :=
  match a, b with
  | [], [] => 0
  | [], _ => -1
  | _, [] => 1
  | x :: a, y :: b => if u8 x <? u8 y then -1 else if u8 y <? u8 x then 1 else strcmp a b
  end.

Section code.
Context `{UTHash}.

Record umem := UMem { users : Tbl; u_mem : gmap loc my_struct; u_out : list (list Z) }.
Definition set_users f s := UMem (f (users s)) (u_mem s) (u_out s).
Definition set_structs f s := UMem (users s) (f (u_mem s)) (u_out s).
Definition u_printf (t : list Z) : M umem unit := modify (λ s, UMem (users s) (u_mem s) (u_out s ++ [t])).

Definition deref_user (p : ptr) : M umem my_struct := λ s,
  match p ≫= λ l, u_mem s !! l with Some u => Ok (u, s) | None => Err BadAccess end.
Definition new_user (user_id : Z) : M umem ptr :=
  l ← gets (λ s, fresh (dom (u_mem s) : gset loc));
  modify (set_structs <[l := MyStruct user_id (unset 10)]>);;
  mret (Some l).

(** [strcpy (s->name, name)]. *)
Definition strcpy_name (s : ptr) (t : list Z) : M umem unit :=
  u ← deref_user s;
  n ← lift (wr_str (name u) 0 t);
  modify (set_structs (λ h, from_option (λ l, <[l := MyStruct (id u) n]> h) h s)).

Definition add_user (user_id : Z) (name : list Z) : M umem unit :=
  s ← gets (λ m, HASH_FIND user_id (users m));
  s ← match s with
      | Some _ => mret s
      | None =>
          s ← new_user user_id;
          modify (set_users (λ t, from_option (λ l, HASH_ADD user_id l t) t s));;
          mret s
      end;
  strcpy_name s name.

Definition find_user (user_id : Z) : M umem ptr := gets (λ m, HASH_FIND user_id (users m)).

Definition free_user (p : ptr) : M umem unit :=
  deref_user p;; modify (set_structs (λ h, from_option (λ l, delete l h) h p)).
Definition delete_user (user : ptr) : M umem unit :=
  deref_user user;;
  modify (set_users (λ t, from_option (λ l, HASH_DEL l t) t user));;
  free_user user.

(** [HASH_ITER] takes the next element before the body deletes the current one. *)
Fixpoint delete_loop (l : list (Z * loc)) : M umem unit :=
  match l with [] => mret tt | x :: l => delete_user (Some x.2);; delete_loop l end.
Definition delete_all : M umem unit := l ← gets (λ m, h_items (users m)); delete_loop l.

Fixpoint print_loop (l : list (Z * loc)) : M umem unit :=
  match l with
  | [] => mret tt
  | x :: l =>
      s ← deref_user (Some x.2);
      t ← lift (c_string (name s));
      u_printf (cs "user id " ++ fmt_d (id s) ++ cs ": name " ++ t ++ [10]);;
      print_loop l
  end.
Definition print_users : M umem unit := l ← gets (λ m, h_items (users m)); print_loop l.

Definition name_sort (a b : ptr) : M umem Z :=
  a ← deref_user a; b ← deref_user b;
  s ← lift (c_string (name a)); t ← lift (c_string (name b));
  mret (strcmp s t).
Definition id_sort (a b : ptr) : M umem Z :=
  a ← deref_user a; b ← deref_user b;
  chk_int (id a - id b).

(** [HASH_SORT] calls the comparison, which only reads. *)
Definition sort_users `{!UTHashSort} (cmp : ptr → ptr → M umem Z) : M umem unit := λ s,
  match HASH_SORT (λ x y, '(c, _) ← cmp (Some x) (Some y) s; Ok c) (users s) with
  | Ok t => Ok (tt, set_users (λ _, t) s)
  | Err e => Err e
  end.
Definition sort_by_name `{!UTHashSort} : M umem unit := sort_users name_sort.
Definition sort_by_id `{!UTHashSort} : M umem unit := sort_users id_sort.

(** ** [main] *)
Fixpoint add_users (ids : list Z) : M umem unit :=
  match ids with
  | [] => mret tt
  | i :: ids =>
      buf ← lift (wr_str (unset 10) 0 (fmt_d i));
      t ← lift (c_string buf);
      add_user i t;;
      add_users ids
  end.

(** The queries, one for each line of input; [in] has ten characters.  At the
    end of the input [gets] leaves [in] as it is, and the loop goes on forever. *)
Fixpoint ask_loop (lines : list (list Z)) : M umem unit :=
  u_printf (cs "id? for testing perf" ++ [10]);;
  match lines with
  | [] => fail OutOfFuel
  | line :: lines =>
      if decide (length line < 10)%nat then
        let id := atoi line in
        s ← find_user id;
        t ← (match s with
             | None => mret (cs "unknown")
             | Some _ => u ← deref_user s; lift (c_string (name u))
             end);
        u_printf (cs "user: " ++ t ++ [10]);;
        if id =? 0 then mret tt else ask_loop lines
      else fail BadAccess
  end.

Definition uthash_main (lines : list (list Z)) : M umem unit :=
  let max_int := 100000 in
  add_users (seqZ 0 max_int);;
  num_users ← gets (λ m, Z.of_nat (length (h_items (users m))));
  u_printf (cs "there are " ++ fmt_d num_users ++ cs " users" ++ [10]);;
  ask_loop lines;;
  u_printf (cs "Work Done " ++ [10]).
End code.
