(* ===== verification/UserHashProofs.v ===== *)
(** * The hash table test: correctness

    [rep] relates the table and its structures to a finite map from ids to
    names, against the laws of uthash, and [keys] is the order of the users.
    Every operation implements the one on the map and the order ([uspec]), and
    nothing is leaked. *)

From stdpp Require Import base gmap list strings.
From Stdlib Require Import ZArith Lia Sorted.
From S2P Require Import Prelude PatMem PrefixCode ArraySearch Arrays BgpsecLib BgpsecProofs DigitTrie UserHash.

Local Open Scope Z_scope.

Lemma filter_all {A} (P : A → Prop) `{∀ x, Decision (P x)} l : Forall P l → filter P l = l.
Proof. induction 1; [done|]. rewrite filter_cons_True by done. by f_equal. Qed.

(** ** Comparisons *)
Lemma strcmp_sgn a b : Z.sgn (strcmp b a) = - Z.sgn (strcmp a b).
Proof.
  revert b. induction a as [|x a IH]; intros [|y b]; [done..|]. simpl.
  destruct (Z.ltb_spec (u8 x) (u8 y)), (Z.ltb_spec (u8 y) (u8 x)); [lia|done|done|apply IH].
Qed.
Lemma strcmp_trans a b c : strcmp a b ≤ 0 → strcmp b c ≤ 0 → strcmp a c ≤ 0.
Proof.
  revert b c. induction a as [|x a IH]; intros [|y b] [|z c]; simpl; [lia..|].
  destruct (Z.ltb_spec (u8 x) (u8 y)), (Z.ltb_spec (u8 y) (u8 x)), (Z.ltb_spec (u8 y) (u8 z)),
    (Z.ltb_spec (u8 z) (u8 y)), (Z.ltb_spec (u8 x) (u8 z)), (Z.ltb_spec (u8 z) (u8 x)); try lia.
  apply IH.
Qed.

Lemma sorted_fmap {A B} (f : A → B) (R : A → A → Prop) (Q : B → B → Prop) l :
  (∀ x y, x ∈ l → y ∈ l → R x y → Q (f x) (f y)) → StronglySorted R l → StronglySorted Q (f <$> l).
Proof.
  intros HR Hl. induction Hl as [|x l _ IH Hx]; [constructor|]. simpl. constructor.
  - apply IH. intros. apply HR; set_solver.
  - apply Forall_fmap. rewrite Forall_forall in Hx |- *. intros y Hy. apply HR; [set_solver..|by apply Hx].
Qed.

Section proofs.
Context `{UTHashLaws}.

Abbreviation items s := (h_items (users s)).
(** The ids of the users, in the order of the table. *)
Abbreviation keys s := (h_items (users s)).*1.

(** The structure at [l] is the user [k] with the name [t]. *)
Definition user_at (s : umem) (k : Z) (l : loc) (t : list Z) : Prop :=
  ∃ n, u_mem s !! l = Some (MyStruct k n) ∧ holds n t ∧ length n = 10%nat.

Record rep (s : umem) (m : gmap Z (list Z)) : Prop := {
  rep_keys : NoDup (items s).*1;
  rep_locs : NoDup (items s).*2;
  rep_user k l : (k, l) ∈ items s → ∃ t, user_at s k l t ∧ m !! k = Some t;
  rep_dom k : is_Some (m !! k) → k ∈ (items s).*1;
  rep_live l : is_Some (u_mem s !! l) → l ∈ (items s).*2
}.

Lemma items_locs_inj s k k' l : NoDup (items s).*2 → (k, l) ∈ items s → (k', l) ∈ items s → k = k'.
Proof.
  intros Hn [i Hi]%list_elem_of_lookup [j Hj]%list_elem_of_lookup.
  assert (i = j) as ->.
  { eapply (NoDup_lookup (items s).*2); [done|by rewrite list_lookup_fmap, Hi|by rewrite list_lookup_fmap, Hj]. }
  congruence.
Qed.
Lemma items_keys_inj s k l l' : NoDup (items s).*1 → (k, l) ∈ items s → (k, l') ∈ items s → l = l'.
Proof.
  intros Hn [i Hi]%list_elem_of_lookup [j Hj]%list_elem_of_lookup.
  assert (i = j) as ->.
  { eapply (NoDup_lookup (items s).*1); [done|by rewrite list_lookup_fmap, Hi|by rewrite list_lookup_fmap, Hj]. }
  congruence.
Qed.

Lemma rep_keys_dom s m : rep s m → ∀ k, k ∈ keys s → is_Some (m !! k).
Proof. intros HR k ([k' l] & -> & Hi)%list_elem_of_fmap. destruct (rep_user _ _ HR _ _ Hi) as (t & _ & Hm). simpl. rewrite Hm. by eexists. Qed.

(** Looking up in the table is looking up in the map. *)
Lemma find_rep s m k : rep s m →
  match HASH_FIND k (users s) with
  | None => m !! k = None
  | Some l => (k, l) ∈ items s ∧ ∃ t, user_at s k l t ∧ m !! k = Some t
  end.
Proof.
  intros HR. destruct (HASH_FIND k (users s)) as [l|] eqn:E.
  - apply find_some in E. split; [done|]. by apply (rep_user _ _ HR).
  - destruct (m !! k) eqn:Em; [|done].
    assert (k ∈ (items s).*1) as ([k' l'] & -> & Hi)%list_elem_of_fmap by (apply (rep_dom _ _ HR); by eexists).
    by destruct (find_none k' (users s) l').
Qed.

Lemma deref_user_ok s k l t : user_at s k l t →
  ∃ u, deref_user (Some l) s = Ok (u, s) ∧ id u = k ∧ holds (name u) t ∧ length (name u) = 10%nat.
Proof. intros (n & E & Hh & Hl). eexists. unfold deref_user. simpl. by rewrite E. Qed.

(** Storing a name, in an item that is in the table. *)
Lemma strcpy_name_ok s k l n t :
  u_mem s !! l = Some (MyStruct k n) → length n = 10%nat → 0 ∉ t → (length t < 10)%nat →
  ∃ n', strcpy_name (Some l) t s = Ok (tt, set_structs <[l := MyStruct k n']> s) ∧ holds n' t ∧ length n' = 10%nat.
Proof.
  intros Hl Hn Hz Ht. destruct (holds_strcpy n t Hz) as (n' & E & Hh & Hl'); [lia|]. exists n'.
  split; [|split; [done|lia]].
  unfold strcpy_name. rewrite (bind_ok _ _ s (MyStruct k n) s) by (unfold deref_user; simpl; by rewrite Hl).
  by rewrite (bind_ok _ _ s n' s) by (unfold lift; simpl; by rewrite E).
Qed.

Lemma user_at_insert_ne s k l l' u t : l ≠ l' → user_at s k l t → user_at (set_structs <[l' := u]> s) k l t.
Proof. intros Hn (n & E & Hh). exists n. split; [|done]. simpl. by rewrite lookup_insert_ne. Qed.
Lemma user_at_insert s k l n t : holds n t → length n = 10%nat → user_at (set_structs <[l := MyStruct k n]> s) k l t.
Proof. intros Hh Hl. exists n. simpl. by rewrite lookup_insert_eq. Qed.

(** Renaming a user. *)
Lemma rep_rename s m k l n t :
  rep s m → (k, l) ∈ items s → holds n t → length n = 10%nat →
  rep (set_structs <[l := MyStruct k n]> s) (<[k := t]> m).
Proof.
  intros HR Hi Hh Hl. destruct HR as [Hk Hloc Hu Hd Hlive]. split; simpl; [done|done| | |].
  - intros k' l' Hi'. destruct (decide (l' = l)) as [->|Hne].
    + assert (k' = k) as -> by by eapply items_locs_inj. exists t. split; [by apply user_at_insert|by rewrite lookup_insert_eq].
    + destruct (Hu k' l' Hi') as (t' & Ht & Hm). exists t'. split; [by apply user_at_insert_ne|].
      rewrite lookup_insert_ne; [done|]. intros ->. apply Hne. by eapply items_keys_inj.
  - intros k' Hk'. destruct (decide (k' = k)) as [->|]; [apply list_elem_of_fmap; by exists (k, l)|].
    apply Hd. by rewrite lookup_insert_ne in Hk'.
  - intros l' Hl'. destruct (decide (l' = l)) as [->|]; [apply list_elem_of_fmap; by exists (k, l)|].
    apply Hlive. by rewrite lookup_insert_ne in Hl'.
Qed.

(** A new user. *)
Lemma rep_add s m k l n t :
  rep s m → m !! k = None → u_mem s !! l = None → holds n t → length n = 10%nat →
  rep (set_structs <[l := MyStruct k n]> (set_users (HASH_ADD k l) s)) (<[k := t]> m).
Proof.
  intros HR Hm Hl Hh Hln. destruct HR as [Hk Hloc Hu Hd Hlive].
  assert (∀ k' l', (k', l') ∈ items s → k' ≠ k ∧ l' ≠ l) as Hnew.
  { intros k' l' Hi. destruct (Hu k' l' Hi) as (t' & (n' & E & _) & Hm'). split; congruence. }
  split; simpl; rewrite items_add, ?fmap_app.
  - apply NoDup_app. split_and!; [done| |by apply NoDup_singleton].
    intros x ([k' l'] & -> & Hi)%list_elem_of_fmap. simpl. intros ->%list_elem_of_singleton. by apply Hnew in Hi as [].
  - apply NoDup_app. split_and!; [done| |by apply NoDup_singleton].
    intros x ([k' l'] & -> & Hi)%list_elem_of_fmap. simpl. intros ->%list_elem_of_singleton. by apply Hnew in Hi as [].
  - intros k' l' [Hi|[= -> ->]%list_elem_of_singleton]%elem_of_app.
    + destruct (Hnew _ _ Hi). destruct (Hu k' l' Hi) as (t' & (n' & E & Hn') & Hm'). exists t'. split.
      * exists n'. simpl. by rewrite lookup_insert_ne.
      * by rewrite lookup_insert_ne.
    + exists t. split; [exists n; simpl; by rewrite lookup_insert_eq|by rewrite lookup_insert_eq].
  - intros k' Hk'. rewrite elem_of_app. destruct (decide (k' = k)) as [->|]; [right; set_solver|left].
    apply Hd. by rewrite lookup_insert_ne in Hk'.
  - intros l' Hl'. rewrite elem_of_app. destruct (decide (l' = l)) as [->|]; [right; set_solver|left].
    apply Hlive. by rewrite lookup_insert_ne in Hl'.
Qed.

(** Deleting a user. *)
Lemma rep_del s m k l :
  rep s m → (k, l) ∈ items s → rep (set_structs (delete l) (set_users (HASH_DEL l) s)) (delete k m).
Proof.
  intros HR Hi. destruct HR as [Hk Hloc Hu Hd Hlive].
  assert (∀ k' l', (k', l') ∈ items s → l' ≠ l → k' ≠ k) as Hne.
  { intros k' l' Hi' Hn ->. apply Hn. by eapply items_keys_inj. }
  assert (∀ (f : Z * loc → Z), NoDup (f <$> items s) → NoDup (f <$> filter (λ i, i.2 ≠ l) (items s))) as HnZ.
  { intros f Hf. eapply sublist_NoDup; [exact Hf|]. apply fmap_sublist, sublist_filter. }
  split; simpl; rewrite items_del.
  - by apply HnZ.
  - eapply sublist_NoDup; [exact Hloc|]. apply fmap_sublist, sublist_filter.
  - intros k' l' [Hn Hi']%list_elem_of_filter. simpl in Hn.
    destruct (Hu k' l' Hi') as (t' & (n' & E & Hn') & Hm'). exists t'. split.
    + exists n'. simpl. by rewrite lookup_delete_ne.
    + rewrite lookup_delete_ne; [done|]. intros <-. by eapply Hne.
  - intros k' Hk'. destruct (decide (k' = k)) as [->|Hkk]; [by rewrite lookup_delete_eq in Hk'; destruct Hk'|].
    rewrite lookup_delete_ne in Hk' by done. apply Hd in Hk' as ([k2 l2] & -> & Hi2)%list_elem_of_fmap.
    apply list_elem_of_fmap. exists (k2, l2). split; [done|]. apply list_elem_of_filter. split; [|done].
    simpl. intros ->. apply Hkk. by eapply items_locs_inj.
  - intros l' Hl'. destruct (decide (l' = l)) as [->|Hll]; [by rewrite lookup_delete_eq in Hl'; destruct Hl'|].
    rewrite lookup_delete_ne in Hl' by done. apply Hlive in Hl' as ([k2 l2] & -> & Hi2)%list_elem_of_fmap.
    apply list_elem_of_fmap. exists (k2, l2). split; [done|]. by apply list_elem_of_filter.
Qed.

(** ** The operations *)
Definition name_ok (t : list Z) : Prop := 0 ∉ t ∧ (length t < 10)%nat.

Lemma add_user_ok s m k t : rep s m → name_ok t →
  ∃ s', add_user k t s = Ok (tt, s') ∧ rep s' (<[k := t]> m) ∧ u_out s' = u_out s ∧
    keys s' = if decide (k ∈ keys s) then keys s else keys s ++ [k].
Proof.
  intros HR [Hz Hlen]. pose proof (find_rep s m k HR) as Hf. unfold add_user.
  rewrite (bind_ok _ _ s (HASH_FIND k (users s)) s) by done.
  destruct (HASH_FIND k (users s)) as [l|].
  - destruct Hf as [Hi (t0 & (n & E & _ & Hn) & _)].
    destruct (strcpy_name_ok s k l n t) as (n' & Es & Hh & Hl'); [done..|].
    rewrite (bind_ok _ _ s (Some l) s) by done. eexists. split; [exact Es|].
    split; [by apply rep_rename|]. split; [done|].
    rewrite decide_True; [done|]. apply list_elem_of_fmap. by exists (k, l).
  - set (l := fresh (dom (u_mem s) : gset loc)).
    assert (u_mem s !! l = None) as Hl by (apply not_elem_of_dom, is_fresh).
    set (s1 := set_structs <[l := MyStruct k (unset 10)]> s).
    rewrite (bind_ok _ _ s (Some l) (set_users (HASH_ADD k l) s1)) by done.
    destruct (strcpy_name_ok (set_users (HASH_ADD k l) s1) k l (unset 10) t) as (n' & Es & Hh & Hl'); [|done..|].
    { simpl. apply lookup_insert_eq. }
    eexists. split; [exact Es|]. split; [|split; [done|]].
    + pose proof (rep_add s m k l n' t HR Hf Hl Hh Hl') as HR'.
      unfold s1. revert HR'. unfold set_structs, set_users. simpl. by rewrite insert_insert_eq.
    + simpl. rewrite items_add, fmap_app, decide_False; [done|].
      intros Hk. apply (rep_keys_dom _ _ HR) in Hk as [? ?]. congruence.
Qed.

Lemma delete_user_ok s m k l : rep s m → (k, l) ∈ items s →
  delete_user (Some l) s = Ok (tt, set_structs (delete l) (set_users (HASH_DEL l) s)).
Proof.
  intros HR Hi. destruct (rep_user _ _ HR _ _ Hi) as (t & (n & E & _) & _).
  unfold delete_user. rewrite (bind_ok _ _ s (MyStruct k n) s) by (unfold deref_user; simpl; by rewrite E).
  rewrite (bind_ok _ _ s tt (set_users (HASH_DEL l) s)) by done. unfold free_user.
  by rewrite (bind_ok _ _ _ (MyStruct k n) (set_users (HASH_DEL l) s)) by (unfold deref_user; simpl; by rewrite E).
Qed.

(** The loop of [delete_all], with the items that are left. *)
Lemma delete_loop_ok s m : rep s m →
  ∃ s', delete_loop (items s) s = Ok (tt, s') ∧ rep s' ∅ ∧ items s' = [] ∧ u_mem s' = ∅ ∧ u_out s' = u_out s.
Proof.
  remember (items s) as its eqn:Eits. revert s m Eits.
  induction its as [|[k l] its IH]; intros s m Eits HR.
  - assert (m = ∅) as ->.
    { apply map_eq. intros k. rewrite lookup_empty. destruct (m !! k) eqn:Em; [|done].
      assert (k ∈ (items s).*1) as Hk by (apply (rep_dom _ _ HR); by eexists). rewrite <-Eits in Hk. set_solver. }
    exists s. split; [done|]. split_and!; [done|done| |done].
    apply map_eq. intros l. rewrite lookup_empty. destruct (u_mem s !! l) eqn:El; [|done].
    assert (l ∈ (items s).*2) as Hk by (apply (rep_live _ _ HR); by eexists). rewrite <-Eits in Hk. set_solver.
  - assert ((k, l) ∈ items s) as Hi by (rewrite <-Eits; set_solver).
    cbn [delete_loop snd]. rewrite (bind_ok _ _ _ _ _ (delete_user_ok s m k l HR Hi)).
    destruct (IH (set_structs (delete l) (set_users (HASH_DEL l) s)) (delete k m)) as (s' & E & Hs').
    + simpl. rewrite items_del, <-Eits. pose proof (rep_locs _ _ HR) as Hn. rewrite <-Eits in Hn.
      apply NoDup_cons in Hn as [Hnl _]. simpl in Hnl. rewrite filter_cons_False by (simpl; tauto).
      symmetry. apply filter_all, Forall_forall. intros [k' l'] Hx. simpl. intros ->. apply Hnl.
      apply list_elem_of_fmap. by exists (k', l).
    + by apply rep_del.
    + exists s'. by split.
Qed.

(** What [print_users] prints of a user. *)
Definition user_line (x : Z * list Z) : list Z := cs "user id " ++ fmt_d x.1 ++ cs ": name " ++ x.2 ++ [10].

Lemma print_loop_ok (m : gmap Z (list Z)) its s :
  (∀ k l, (k, l) ∈ its → ∃ t, user_at s k l t ∧ m !! k = Some t) →
  print_loop its s = Ok (tt, UMem (users s) (u_mem s) (u_out s ++ ((λ x, user_line (x.1, m !!! x.1)) <$> its))).
Proof.
  revert s. induction its as [|[k l] its IH]; intros s Hits; simpl.
  { rewrite app_nil_r. by destruct s. }
  destruct (Hits k l) as (t & (n & E & Hh & _) & Hm); [set_solver|].
  rewrite (bind_ok _ _ s (MyStruct k n) s) by (unfold deref_user; simpl; by rewrite E).
  rewrite (bind_ok _ _ s t s) by (unfold lift; simpl; by rewrite (holds_c_string _ _ Hh)).
  erewrite bind_ok by done. rewrite IH; simpl.
  - rewrite (lookup_total_correct _ _ _ Hm). unfold user_line. simpl. by rewrite <-(assoc_L (++)).
  - intros k' l' Hi. apply Hits. set_solver.
Qed.

Lemma items_map s m : rep s m → (λ x, (x.1, m !!! x.1)) <$> items s ≡ₚ map_to_list m.
Proof.
  intros HR. apply NoDup_Permutation.
  - apply (NoDup_fmap_1 fst). rewrite <-list_fmap_compose. apply (rep_keys _ _ HR).
  - apply NoDup_map_to_list.
  - intros [k t]. rewrite elem_of_map_to_list, list_elem_of_fmap. split.
    + intros ([k' l] & [= -> ->] & Hi). destruct (rep_user _ _ HR _ _ Hi) as (t & _ & Hm).
      by rewrite (lookup_total_correct _ _ _ Hm).
    + intros Hm. assert (k ∈ (items s).*1) as ([k' l] & -> & Hi)%list_elem_of_fmap by (apply (rep_dom _ _ HR); by eexists).
      exists (k', l). split; [|done]. simpl in *. by rewrite (lookup_total_correct _ _ _ Hm).
Qed.

Lemma print_users_ok s m : rep s m →
  print_users s = Ok (tt, UMem (users s) (u_mem s) (u_out s ++ ((λ k, user_line (k, m !!! k)) <$> keys s))).
Proof.
  intros HR. unfold print_users. erewrite bind_ok by done.
  rewrite (print_loop_ok m) by apply (rep_user _ _ HR). by rewrite <-list_fmap_compose.
Qed.

(** ** Sorting *)
Lemma rep_perm s m t : rep s m → h_items t ≡ₚ items s → rep (set_users (λ _, t) s) m.
Proof.
  intros [Hk Hloc Hu Hd Hlive] Hp. split; simpl.
  - by rewrite Hp.
  - by rewrite Hp.
  - intros k l. rewrite Hp. apply Hu.
  - intros k. rewrite Hp. apply Hd.
  - intros l. rewrite Hp. apply Hlive.
Qed.

Lemma rep_deref s m k l : rep s m → (k, l) ∈ items s →
  ∃ u, deref_user (Some l) s = Ok (u, s) ∧ id u = k ∧ c_string (name u) = Ok (m !!! k).
Proof.
  intros HR Hi. destruct (rep_user _ _ HR _ _ Hi) as (t & Ht & Hm).
  destruct (deref_user_ok s k l t Ht) as (u & E & Hid & Hh & _). exists u.
  split; [done|]. split; [done|]. by rewrite (lookup_total_correct _ _ _ Hm), (holds_c_string _ _ Hh).
Qed.

Section sort.
Context `{!UTHashSort, !UTHashSortLaws}.

(** A comparison that is one on the ids, [g], sorts the ids. *)
Lemma sort_users_ok s m cmp (g : Z → Z → Z) : rep s m →
  (∀ k x k' y, (k, x) ∈ items s → (k', y) ∈ items s → cmp (Some x) (Some y) s = Ok (g k k', s)) →
  (∀ a b, Z.sgn (g b a) = - Z.sgn (g a b)) → (∀ a b c, g a b ≤ 0 → g b c ≤ 0 → g a c ≤ 0) →
  ∃ s', sort_users cmp s = Ok (tt, s') ∧ rep s' m ∧ u_out s' = u_out s ∧
    keys s' ≡ₚ keys s ∧ StronglySorted (λ a b, g a b ≤ 0) (keys s').
Proof.
  intros HR Hcmp Hsgn Htr.
  set (key l := from_option id 0 (u_mem s !! l)).
  assert (∀ k l, (k, l) ∈ items s → key l = k) as Hkey.
  { intros k l Hi. destruct (rep_user _ _ HR _ _ Hi) as (t & (n & E & _) & _). unfold key. by rewrite E. }
  destruct (sort_law (λ x y, '(c, _) ← cmp (Some x) (Some y) s; Ok c) (λ x y, g (key x) (key y)) (users s))
    as (t' & E & Hp & Hs); [|by intros; apply Hsgn|by intros ???; intros; eapply Htr|].
  { intros x y ([k x'] & -> & Hx)%list_elem_of_fmap ([k' y'] & -> & Hy)%list_elem_of_fmap.
    simpl. by rewrite (Hcmp _ _ _ _ Hx Hy), (Hkey _ _ Hx), (Hkey _ _ Hy). }
  exists (set_users (λ _, t') s). unfold sort_users. rewrite E. split; [done|].
  split; [by apply rep_perm|]. split; [done|]. simpl. split; [by rewrite Hp|].
  eapply sorted_fmap; [|exact Hs]. intros [k x] [k' y]. rewrite !Hp. simpl. intros Hx Hy.
  by rewrite (Hkey _ _ Hx), (Hkey _ _ Hy).
Qed.

(** Ids that are at most [INT_MAX] apart can be compared by subtraction. *)
Definition in_span (lo k : Z) : Prop := lo ≤ k ≤ lo + INT_MAX.

Lemma sort_by_id_ok s m lo : rep s m → Forall (in_span lo) (keys s) →
  ∃ s', sort_by_id s = Ok (tt, s') ∧ rep s' m ∧ u_out s' = u_out s ∧
    keys s' ≡ₚ keys s ∧ StronglySorted Z.le (keys s').
Proof.
  intros HR Hsp. destruct (sort_users_ok s m id_sort Z.sub HR) as (s' & E & HR' & Eo & Hp & Hs); [|lia..|].
  - intros k x k' y Hx Hy.
    destruct (rep_deref s m k x HR Hx) as (u & Eu & <- & _), (rep_deref s m k' y HR Hy) as (u' & Eu' & <- & _).
    unfold id_sort. rewrite (bind_ok _ _ _ _ _ Eu), (bind_ok _ _ _ _ _ Eu'). apply chk_int_ok.
    rewrite Forall_forall in Hsp.
    pose proof (Hsp (id u) (proj2 (list_elem_of_fmap _ _ _) (ex_intro _ (_, _) (conj eq_refl Hx)))) as Hk1.
    pose proof (Hsp (id u') (proj2 (list_elem_of_fmap _ _ _) (ex_intro _ (_, _) (conj eq_refl Hy)))) as Hk2.
    unfold in_span, is_int, INT_MAX, INT_MIN in *. lia.
  - exists s'. split_and!; [done..|]. rewrite <-(list_fmap_id (keys s')).
    eapply sorted_fmap; [|exact Hs]. simpl. lia.
Qed.

Lemma sort_by_name_ok s m : rep s m →
  ∃ s', sort_by_name s = Ok (tt, s') ∧ rep s' m ∧ u_out s' = u_out s ∧
    keys s' ≡ₚ keys s ∧ StronglySorted (λ a b, strcmp (m !!! a) (m !!! b) ≤ 0) (keys s').
Proof.
  intros HR. apply (sort_users_ok s m name_sort (λ a b, strcmp (m !!! a) (m !!! b)) HR).
  - intros k x k' y Hx Hy.
    destruct (rep_deref s m k x HR Hx) as (u & Eu & _ & Ec), (rep_deref s m k' y HR Hy) as (u' & Eu' & _ & Ec').
    unfold name_sort. rewrite (bind_ok _ _ _ _ _ Eu), (bind_ok _ _ _ _ _ Eu').
    rewrite (bind_ok _ _ s (m !!! k) s) by (unfold lift; by rewrite Ec).
    by rewrite (bind_ok _ _ s (m !!! k') s) by (unfold lift; by rewrite Ec').
  - intros. apply strcmp_sgn.
  - intros a b c. apply strcmp_trans.
Qed.

(** ** Sequences of operations *)
Inductive uop :=
| UAdd (k : Z) (t : list Z)
| UDelete (k : Z)
| UPrint
| UClear
| USortId
| USortName.

#[local] Instance uop_eq_dec : EqDecision uop.
Proof. solve_decision. Defined.

Definition run_uop (o : uop) : M umem unit :=
  match o with
  | UAdd k t => add_user k t
  | UDelete k => p ← find_user k; match p with None => mret tt | Some _ => delete_user p end
  | UPrint => print_users
  | UClear => delete_all
  | USortId => sort_by_id
  | USortName => sort_by_name
  end.
Fixpoint run_uops (os : list uop) : M umem unit :=
  match os with [] => mret tt | o :: os => run_uop o;; run_uops os end.

(** The names that are added fit; the ids that are added, if there is a sort by
    id, can be compared by subtraction. *)
Definition uop_ok (o : uop) : Prop := match o with UAdd _ t => name_ok t | _ => True end.
#[global] Instance uop_ok_dec o : Decision (uop_ok o).
Proof. destruct o; simpl; unfold name_ok; apply _. Defined.
Definition adds_in (lo : Z) (o : uop) : Prop := match o with UAdd k _ => in_span lo k | _ => True end.
#[global] Instance adds_in_dec lo o : Decision (adds_in lo o).
Proof. destruct o; simpl; unfold in_span; apply _. Defined.

(** What an operation prints, and makes of the names of the ids and their order.
    Users with equal names may be left in any order. *)
Inductive uspec (m : gmap Z (list Z)) (ks : list Z) : uop → list (list Z) → gmap Z (list Z) → list Z → Prop :=
| spec_add k t : uspec m ks (UAdd k t) [] (<[k := t]> m) (if decide (k ∈ ks) then ks else ks ++ [k])
| spec_delete k : uspec m ks (UDelete k) [] (delete k m) (filter (λ k', k' ≠ k) ks)
| spec_print : uspec m ks UPrint ((λ k, user_line (k, m !!! k)) <$> ks) m ks
| spec_clear : uspec m ks UClear [] ∅ []
| spec_by_id ks' : ks' ≡ₚ ks → StronglySorted Z.le ks' → uspec m ks USortId [] m ks'
| spec_by_name ks' : ks' ≡ₚ ks → StronglySorted (λ a b, strcmp (m !!! a) (m !!! b) ≤ 0) ks' →
    uspec m ks USortName [] m ks'.
Inductive uspecs (m : gmap Z (list Z)) (ks : list Z) : list uop → list (list Z) → gmap Z (list Z) → list Z → Prop :=
| specs_nil : uspecs m ks [] [] m ks
| specs_cons o os l ls m1 ks1 m2 ks2 :
    uspec m ks o l m1 ks1 → uspecs m1 ks1 os ls m2 ks2 → uspecs m ks (o :: os) (l ++ ls) m2 ks2.

(** The name under which [find_user] finds an id. *)
Definition answer (k : Z) : M umem (option (list Z)) :=
  p ← find_user k;
  match p with
  | None => mret None
  | Some _ => u ← deref_user p; t ← lift (c_string (name u)); mret (Some t)
  end.

Lemma answer_ok s m k : rep s m → answer k s = Ok (m !! k, s).
Proof.
  intros HR. pose proof (find_rep s m k HR) as Hf. unfold answer.
  rewrite (bind_ok _ _ s (HASH_FIND k (users s)) s) by done.
  destruct (HASH_FIND k (users s)) as [l|]; [|by rewrite Hf].
  destruct Hf as [_ (t & (n & E & Hh & _) & ->)].
  rewrite (bind_ok _ _ s (MyStruct k n) s) by (unfold deref_user; simpl; by rewrite E).
  by rewrite (bind_ok _ _ s t s) by (unfold lift; simpl; by rewrite (holds_c_string _ _ Hh)).
Qed.

(** Deleting an item deletes its id from the order. *)
Lemma keys_del s m k l : rep s m → (k, l) ∈ items s →
  (filter (λ i : Z * loc, i.2 ≠ l) (items s)).*1 = filter (λ k', k' ≠ k) (keys s).
Proof.
  intros HR Hi.
  assert (∀ k' l', (k', l') ∈ items s → l' ≠ l ↔ k' ≠ k) as Hiff.
  { intros k' l' Hi'. split; intros Hn ->; apply Hn.
    - by eapply items_keys_inj; [apply (rep_keys _ _ HR)|..].
    - by eapply items_locs_inj; [apply (rep_locs _ _ HR)|..]. }
  clear Hi. induction (items s) as [|[k' l'] its IH]; [done|].
  assert (l' ≠ l ↔ k' ≠ k) as Hx by (apply Hiff; set_solver).
  specialize (IH ltac:(intros; apply Hiff; set_solver)). cbn [fmap list_fmap fst].
  destruct (decide (k' = k)).
  - rewrite !filter_cons_False by (simpl; tauto). exact IH.
  - rewrite !filter_cons_True by (simpl; tauto). cbn [fmap list_fmap fst]. by f_equal.
Qed.

Lemma run_uop_ok o s m lo : uop_ok o → rep s m → (o = USortId → Forall (in_span lo) (keys s)) →
  ∃ s' l m', run_uop o s = Ok (tt, s') ∧ rep s' m' ∧ u_out s' = u_out s ++ l ∧ uspec m (keys s) o l m' (keys s').
Proof.
  intros Ho HR Hsp. destruct o as [k t|k| | | |]; simpl.
  - destruct (add_user_ok s m k t HR Ho) as (s' & E & HR' & Eo & Ek). exists s', [], (<[k := t]> m).
    rewrite app_nil_r, Ek. split_and!; done || constructor.
  - pose proof (find_rep s m k HR) as Hf.
    rewrite (bind_ok _ _ s (HASH_FIND k (users s)) s) by done.
    destruct (HASH_FIND k (users s)) as [l|].
    + destruct Hf as [Hi _]. rewrite (delete_user_ok s m k l HR Hi). eexists _, [], (delete k m).
      split; [done|]. rewrite app_nil_r. split; [by apply rep_del|]. split; [done|].
      simpl. rewrite items_del, (keys_del s m k l HR Hi). constructor.
    + exists s, [], (delete k m). rewrite app_nil_r. split; [done|]. split; [by rewrite delete_id|]. split; [done|].
      rewrite <-(filter_all (λ k', k' ≠ k) (keys s)) at 2; [constructor|].
      apply Forall_forall. intros k' Hk ->. apply (rep_keys_dom _ _ HR) in Hk as [? ?]. congruence.
  - rewrite (print_users_ok s m HR). eexists _, _, m. split; [done|]. split; [by destruct HR|]. split; [done|constructor].
  - destruct (delete_loop_ok s m HR) as (s' & E & HR' & Ei & _ & Eo). exists s', [], ∅.
    unfold delete_all. erewrite bind_ok by done. rewrite app_nil_r, Ei. split_and!; done || constructor.
  - destruct (sort_by_id_ok s m lo HR (Hsp eq_refl)) as (s' & E & HR' & Eo & Hp & Hs). exists s', [], m.
    rewrite app_nil_r. split_and!; done || by constructor.
  - destruct (sort_by_name_ok s m HR) as (s' & E & HR' & Eo & Hp & Hs). exists s', [], m.
    rewrite app_nil_r. split_and!; done || by constructor.
Qed.

Lemma uspec_span m ks o l m' ks' lo :
  uspec m ks o l m' ks' → adds_in lo o → Forall (in_span lo) ks → Forall (in_span lo) ks'.
Proof.
  intros Ho Hlo Hks. destruct Ho as [| | | |? Hp _|? Hp _]; simpl in Hlo; [| |done|constructor|..].
  - case_decide; [done|]. by apply Forall_app_2; [|constructor].
  - rewrite Forall_forall in Hks |- *. intros k' [_ ?]%list_elem_of_filter. by apply Hks.
  - by rewrite Hp.
  - by rewrite Hp.
Qed.

Lemma run_uops_ok os s m lo : Forall uop_ok os → rep s m →
  (USortId ∈ os → Forall (adds_in lo) os ∧ Forall (in_span lo) (keys s)) →
  ∃ s' ls m', run_uops os s = Ok (tt, s') ∧ rep s' m' ∧ u_out s' = u_out s ++ ls ∧ uspecs m (keys s) os ls m' (keys s').
Proof.
  intros Hos. revert s m. induction Hos as [|o os Ho Hos IH]; intros s m HR Hsp; simpl.
  { exists s, [], m. rewrite app_nil_r. split_and!; done || constructor. }
  destruct (run_uop_ok o s m lo Ho HR) as (s1 & l1 & m1 & E1 & HR1 & Eo1 & Hu1).
  { intros ->. apply Hsp. set_solver. }
  destruct (IH s1 m1 HR1) as (s2 & l2 & m2 & E2 & HR2 & Eo2 & Hu2).
  { intros Hin. destruct Hsp as [Ha Hk]; [set_solver|]. inversion_clear Ha.
    split; [done|]. by eapply uspec_span. }
  exists s2, (l1 ++ l2), m2. rewrite (bind_ok _ _ _ _ _ E1). split; [done|]. split; [done|].
  split; [by rewrite Eo2, Eo1, <-(assoc_L (++))|by econstructor].
Qed.

Definition no_users : umem := UMem h_empty ∅ [].
Lemma rep_no_users : rep no_users ∅.
Proof.
  split; simpl; rewrite ?items_empty; simpl; try by constructor.
  - intros k l Hi. by apply not_elem_of_nil in Hi.
  - intros k [? Hk]. done.
  - intros l [? Hl]. done.
Qed.

(** C32. Every sequence of additions, deletions, listings, sorts and clearings of
    the users table runs without a fault, when the names have at most 9 bytes
    and, if it sorts by id, no two ids are further than [INT_MAX] apart (else
    [id_sort_overflows]).  It implements a finite map
    from ids to names with an order of the ids ([uspecs]): a new user goes to the
    end, a user that is renamed stays, a sort puts the same users into the order
    of their ids or names, and what was printed is exactly the users of each
    listing, in the order.  Afterwards [find_user] finds the id with the name the
    map gives it, or nothing, and [delete_all] empties the table and frees every
    structure, so that nothing is leaked. *)
Theorem user_ops_refine os lo :
  Forall uop_ok os → (USortId ∈ os → Forall (adds_in lo) os) →
  ∃ s m, run_uops os no_users = Ok (tt, s) ∧ uspecs ∅ [] os (u_out s) m (h_items (users s)).*1 ∧
    (∀ k, answer k s = Ok (m !! k, s)) ∧
    (∃ s', delete_all s = Ok (tt, s') ∧ h_items (users s') = [] ∧ u_mem s' = ∅).
Proof.
  intros Hos Hlo. destruct (run_uops_ok os no_users ∅ lo Hos rep_no_users) as (s & ls & m & E & HR & Eo & Hu).
  { intros Hin. split; [by apply Hlo|]. simpl. rewrite items_empty. constructor. }
  exists s, m. split; [done|]. simpl in Eo, Hu. rewrite items_empty in Hu. subst ls.
  split; [done|]. split; [by intros k; apply answer_ok|].
  destruct (delete_loop_ok s m HR) as (s' & Ed & _ & Hi & Hm & _). exists s'. by split.
Qed.

(** Sorting by id subtracts the ids, which overflows where they are far apart. *)
Theorem id_sort_overflows s m k l k' l' :
  rep s m → (k, l) ∈ items s → (k', l') ∈ items s → ¬ is_int (k - k') →
  id_sort (Some l) (Some l') s = Err IntOverflow.
Proof.
  intros HR Hi Hi' Hn.
  destruct (rep_deref s m k l HR Hi) as (u & Eu & <- & _), (rep_deref s m k' l' HR Hi') as (u' & Eu' & <- & _).
  unfold id_sort. rewrite (bind_ok _ _ _ _ _ Eu), (bind_ok _ _ _ _ _ Eu'). unfold chk_int, int_ok.
  unfold is_int in Hn. destruct (Z.leb_spec INT_MIN (id u - id u')), (Z.leb_spec (id u - id u') INT_MAX); done || lia.
Qed.
End sort.

(** ** [main] *)
Lemma ask_loop_cons line lines s m : (length line < 10)%nat → rep s m →
  ask_loop (line :: lines) s =
    (if atoi line =? 0 then mret tt else ask_loop lines)
      (UMem (users s) (u_mem s) (u_out s ++ [cs "id? for testing perf" ++ [10];
         cs "user: " ++ from_option (λ t, t) (cs "unknown") (m !! atoi line) ++ [10]])).
Proof.
  intros Hl HR. cbn [ask_loop]. erewrite bind_ok by done. rewrite decide_True by done. cbv zeta.
  pose proof (find_rep s m (atoi line) HR) as Hf. erewrite bind_ok by done. cbn [users].
  destruct (HASH_FIND (atoi line) (users s)) as [l|].
  - destruct Hf as [_ (t & (n & E & Hh & _) & ->)].
    erewrite (bind_ok _ _ _ t); [|erewrite bind_ok by (unfold deref_user; simpl; by rewrite E);
      unfold lift; simpl; by rewrite (holds_c_string _ _ Hh)].
    erewrite bind_ok by done. simpl. by rewrite <-(assoc_L (++)).
  - rewrite Hf. erewrite bind_ok by done. erewrite bind_ok by done. simpl. by rewrite <-(assoc_L (++)).
Qed.

(** The users [0 .. a - 1], each named by its id. *)
Definition numbered (a : Z) (m : gmap Z (list Z)) : Prop :=
  Z.of_nat (size m) = a ∧ ∀ k, m !! k = if decide (0 ≤ k < a) then Some (fmt_d k) else None.

Lemma fmt_d_name k : 0 ≤ k < 100000 → name_ok (fmt_d k).
Proof.
  intros Hk. split; [apply fmt_d_no_nul; lia|].
  eapply Nat.le_lt_trans; [by apply (fmt_d_length k 4)|lia].
Qed.

Lemma add_users_ok n a s m : 0 ≤ a → a + Z.of_nat n ≤ 100000 → rep s m → numbered a m →
  ∃ s' m', add_users (seqZ a (Z.of_nat n)) s = Ok (tt, s') ∧ rep s' m' ∧ numbered (a + Z.of_nat n) m' ∧ u_out s' = u_out s.
Proof.
  revert a s m. induction n as [|n IH]; intros a s m Ha Hn HR Hm.
  { exists s, m. rewrite Z.add_0_r. done. }
  rewrite seqZ_cons by lia. cbn [add_users].
  pose proof (fmt_d_name a ltac:(lia)) as Hok.
  destruct (holds_strcpy (unset 10) (fmt_d a)) as (buf & E & Hh & _); [apply Hok|simpl; apply Hok|].
  erewrite (bind_ok _ _ s buf) by (unfold lift; by rewrite E).
  erewrite (bind_ok _ _ s (fmt_d a)) by (unfold lift; by rewrite (holds_c_string _ _ Hh)).
  destruct (add_user_ok s m a (fmt_d a) HR Hok) as (s1 & E1 & HR1 & Eo1 & _).
  rewrite (bind_ok _ _ _ _ _ E1). destruct Hm as [Hsz Hm].
  destruct (IH (Z.succ a) s1 (<[a := fmt_d a]> m)) as (s2 & m2 & E2 & HR2 & Hm2 & Eo2); [lia..|done| |].
  - split.
    + rewrite map_size_insert_None by (rewrite Hm, decide_False by lia; done). lia.
    + intros k. destruct (decide (k = a)) as [->|Hk].
      * by rewrite lookup_insert_eq, decide_True by lia.
      * rewrite lookup_insert_ne, Hm by done. destruct (decide (0 ≤ k < a)), (decide (0 ≤ k < Z.succ a)); done || lia.
  - exists s2, m2. replace (Z.pred (Z.of_nat (S n))) with (Z.of_nat n) by lia.
    replace (a + Z.of_nat (S n)) with (Z.succ a + Z.of_nat n) by lia. split_and!; [done..|]. by rewrite Eo2.
Qed.

Lemma rep_count s m : rep s m → length (items s) = size m.
Proof. intros HR. pose proof (Permutation_length (items_map s m HR)) as E. by rewrite length_fmap, length_map_to_list in E. Qed.

(** What [main] prints for a line. *)
Definition reply (line : list Z) : list (list Z) :=
  [cs "id? for testing perf" ++ [10];
   cs "user: " ++ (if decide (0 ≤ atoi line < 100000) then fmt_d (atoi line) else cs "unknown") ++ [10]].

Lemma ask_all qs last s m :
  Forall (λ q, (length q < 10)%nat ∧ atoi q ≠ 0) qs → (length last < 10)%nat → atoi last = 0 →
  rep s m → numbered 100000 m →
  ask_loop (qs ++ [last]) s = Ok (tt, UMem (users s) (u_mem s) (u_out s ++ concat (reply <$> qs ++ [last]))).
Proof.
  intros Hqs Hl Hlast HR Hm.
  assert (∀ q, from_option (λ t, t) (cs "unknown") (m !! q) =
    if decide (0 ≤ q < 100000) then fmt_d q else cs "unknown") as Hr.
  { intros q. rewrite (proj2 Hm). by case_decide. }
  revert s HR. induction Hqs as [|q qs [Hq Hnz] _ IH]; intros s HR; cbn [app fmap list_fmap concat].
  - rewrite (ask_loop_cons _ _ _ _ Hl HR), Hr, Hlast, Z.eqb_refl, app_nil_r. unfold reply. by rewrite Hlast.
  - rewrite (ask_loop_cons _ _ _ _ Hq HR), Hr, (proj2 (Z.eqb_neq _ _) Hnz).
    rewrite IH by (destruct HR; by split). simpl. by rewrite <-(assoc_L (++)).
Qed.

(** The test adds 100000 users, none of whose names overflows its ten
    characters, and then answers every line: with the number itself, as the name
    of that user, if it is one of 0 to 99999, and with "unknown" otherwise.  It
    stops at the first line that reads as 0, which is answered as well. *)
Theorem uthash_main_answers qs last :
  Forall (λ q, (length q < 10)%nat ∧ atoi q ≠ 0) qs → (length last < 10)%nat → atoi last = 0 →
  ∃ s, uthash_main (qs ++ [last]) no_users = Ok (tt, s) ∧
    u_out s = [cs "there are 100000 users" ++ [10]] ++ concat (reply <$> qs ++ [last]) ++ [cs "Work Done " ++ [10]].
Proof.
  intros Hqs Hl Hlast. unfold uthash_main. cbv zeta.
  destruct (add_users_ok (Z.to_nat 100000) 0 no_users ∅) as (s & m & E & HR & Hm & Eo); [lia|lia|apply rep_no_users| |].
  { split; [by rewrite map_size_empty|]. intros k. rewrite lookup_empty, decide_False by lia. done. }
  rewrite Z2Nat.id in E, Hm by lia. rewrite (bind_ok _ _ _ _ _ E). erewrite bind_ok by done.
  rewrite (rep_count s m HR), (proj1 Hm). erewrite bind_ok by done.
  erewrite bind_ok by (apply (ask_all qs last _ m); [done..| |done]; destruct HR; by split).
  eexists. split; [done|]. simpl. by rewrite Eo.
Qed.
End proofs.

(** ** A concrete table *)
#[local] Existing Instances Toy.toy_hash Toy.toy_hash_laws.

(** Insertion sort. *)
Fixpoint toy_ins (cmp : loc → loc → res Z) (x : Z * loc) (l : list (Z * loc)) : res (list (Z * loc)) :=
  match l with
  | [] => Ok [x]
  | y :: l => c ← cmp x.2 y.2; if c <=? 0 then Ok (x :: y :: l) else r ← toy_ins cmp x l; Ok (y :: r)
  end.
#[local] Instance toy_sort : UTHashSort := λ cmp,
  foldr (λ x r, l ← r; toy_ins cmp x l) (Ok []).

Lemma toy_ins_ok cmp c x l (P : loc → Prop) :
  (∀ x y, P x → P y → cmp x y = Ok (c x y)) → (∀ x y, P x → P y → Z.sgn (c y x) = - Z.sgn (c x y)) →
  (∀ x y z, P x → P y → P z → c x y ≤ 0 → c y z ≤ 0 → c x z ≤ 0) →
  P x.2 → Forall (λ y, P y.2) l → StronglySorted (λ x y : Z * loc, c x.2 y.2 ≤ 0) l →
  ∃ l', toy_ins cmp x l = Ok l' ∧ l' ≡ₚ x :: l ∧ StronglySorted (λ x y, c x.2 y.2 ≤ 0) l'.
Proof.
  intros Hc Hs Ht Hx Hl Hsl. induction Hsl as [|y l Hsl IH Hy]; simpl.
  { exists [x]. split; [done|]. split; [done|]. by repeat constructor. }
  apply Forall_cons in Hl as [Hpy Hl]. rewrite Hc by done. cbn [mbind res_bind].
  destruct (Z.leb_spec (c x.2 y.2) 0) as [Hle|Hgt].
  - eexists. split; [done|]. split; [done|]. constructor; [by constructor|]. constructor; [done|].
    rewrite !Forall_forall in *. intros z Hz. eapply (Ht _ y.2); try done; [by apply Hl|by apply Hy].
  - destruct (IH Hl) as (l' & -> & Hp & Hs'). eexists. split; [done|].
    split; [by rewrite Hp; constructor|]. constructor; [done|]. rewrite Hp. constructor; [|done].
    specialize (Hs x.2 y.2 Hx Hpy). lia.
Qed.
#[local] Instance toy_sort_laws : UTHashSortLaws.
Proof.
  intros cmp c t ls Hc Hs Ht. subst ls. unfold HASH_SORT, toy_sort.
  assert (∀ l : list (Z * loc), l ⊆ t → ∃ t', foldr (λ x r, l ← r; toy_ins cmp x l) (Ok []) l = Ok t' ∧
    t' ≡ₚ l ∧ StronglySorted (λ x y, c x.2 y.2 ≤ 0) t') as Hall; [|by apply Hall].
  intros l. induction l as [|x l IH]; intros Hsub; simpl.
  { exists []. repeat split; constructor. }
  destruct IH as (l1 & -> & Hp1 & Hs1); [set_solver|]. cbn [mbind res_bind].
  destruct (toy_ins_ok cmp c x l1 (λ y, y ∈ (h_items t).*2)) as (l2 & E & Hp & Hs2); [done..| | |done|].
  - apply list_elem_of_fmap. exists x. split; [done|]. apply Hsub. set_solver.
  - rewrite Hp1. apply Forall_forall. intros y Hy. apply list_elem_of_fmap. exists y. split; [done|]. apply Hsub. set_solver.
  - exists l2. split; [done|]. split; [by rewrite Hp, Hp1|done].
Qed.

Lemma user_ops_refine_witness :
  let os := [UAdd 9 (cs "nine"); UAdd 7 (cs "seven"); UPrint; UAdd 8 (cs "eight"); UAdd 7 (cs "Seven"); USortName;
    UPrint; USortId; UDelete 9; UDelete 5; UPrint] in
  ∃ s, run_uops os no_users = Ok (tt, s) ∧ answer 7 s = Ok (Some (cs "Seven"), s) ∧ answer 9 s = Ok (None, s) ∧
    u_out s = user_line <$> [(9, cs "nine"); (7, cs "seven"); (7, cs "Seven"); (8, cs "eight"); (9, cs "nine");
      (7, cs "Seven"); (8, cs "eight")].
Proof.
  intros os. destruct (user_ops_refine os 0) as (s & m & E & _ & Ha & _).
  { by apply (bool_decide_unpack _); vm_compute. }
  { intros _. by apply (bool_decide_unpack _); vm_compute. }
  vm_compute in E. injection E as <-. eexists. split; [by vm_compute|].
  split; [by vm_compute|]. split; by vm_compute.
Defined.

Lemma id_sort_overflows_ex :
  ∃ s, run_uops [UAdd 2147483647 []; UAdd (-1) []] no_users = Ok (tt, s) ∧ sort_by_id s = Err IntOverflow.
Proof. eexists. split; [vm_compute; reflexivity|]. vm_compute. reflexivity. Qed.

Lemma uthash_main_answers_witness :
  ∃ s, uthash_main [cs "100"; cs "-5"; cs "0"] no_users = Ok (tt, s) ∧
    nth_error (u_out s) 2 = Some (cs "user: 100" ++ [10]) ∧
    nth_error (u_out s) 4 = Some (cs "user: unknown" ++ [10]).
Proof.
  destruct (uthash_main_answers [cs "100"; cs "-5"] (cs "0")) as (s & E & Eo).
  { repeat constructor; vm_compute; done || lia. }
  { vm_compute. lia. }
  { done. }
  exists s. split; [exact E|]. rewrite Eo. split; vm_compute; done.
Defined.
