(* ===== verification/Dissembler.v ===== *)
(** * The dissembler ([hacking_the_art_of_exploitation_booksrc/dissembler.c])

    The program turns machine code into a printable string that, when it is
    executed, builds the machine code on the stack: it clears EAX with two AND
    instructions, sets ESP through it, and then, for each word of the code from
    the last to the first, subtracts printable words from EAX until it has the
    word, and pushes it.  [gen] looks for the words to subtract.

    [strfry] shuffles a string with random numbers; [fry i] is what its [i]-th
    call does, a parameter.  [junk] is the character that [malloc] left behind
    the NUL of the character set, which [gen] reads.  Messages are not
    modelled.  The values of the options are those after [strtoul] and [atoi]. *)

From stdpp Require Import base gmap list strings.
From Stdlib Require Import ZArith Lia.
From S2P Require Import Prelude Arrays.

Local Open Scope Z_scope.

Definition CHR : list Z := cs "%_01234567890abcdefghijklmnopqrstuvwxyzABCDEFGHIJKLMNOPQRSTUVWXYZ-".
Definition MAX_CHR : Z := 128.

(** ** Options *)
Inductive opt := OptT (v : Z) | OptN | OptS (v : Z) | OptB (v : Z) | OptC (s : list Z) | OptW | OptE.
Record opts := Opts {
  targ : Z; ninja : Z; size : Z; bridge : Z; charset : option (list Z); to_file : bool; esc : bool
}.
Definition no_opts : opts := Opts 0 0 0 (-1) None false false.
Definition set_opt (o : opts) (x : opt) : opts :=
  match x with
  | OptT v => Opts (u32 v) (ninja o) (size o) (bridge o) (charset o) (to_file o) (esc o)
  | OptN => Opts (targ o) 4 (size o) (bridge o) (charset o) (to_file o) (esc o)
  | OptS v => Opts (targ o) (ninja o) v (bridge o) (charset o) (to_file o) (esc o)
  | OptB v => Opts (targ o) (ninja o) (size o) v (charset o) (to_file o) (esc o)
  | OptC s => Opts (targ o) (ninja o) (size o) (bridge o) (Some s) (to_file o) (esc o)
  | OptW => Opts (targ o) (ninja o) (size o) (bridge o) (charset o) true (esc o)
  | OptE => Opts (targ o) (ninja o) (size o) (bridge o) (charset o) (to_file o) true
  end.
(** [getopt] and the size adjustment, which needs the optimization. *)
Definition get_opts (l : list opt) : opts :=
  let o := foldl set_opt no_opts l in
  if negb (size o =? 0) && (ninja o =? 0)
  then Opts (targ o) 4 (size o) (bridge o) (charset o) (to_file o) (esc o) else o.

(** ** Words *)
Definition bytes4 (w : Z) : list Z :=
  [Z.land w 0x000000ff; Z.shiftr (Z.land w 0x0000ff00) 8;
   Z.shiftr (Z.land w 0x00ff0000) 16; Z.shiftr (Z.land w 0xff000000) 24].
Definition word (b : list Z) : Z := foldr (λ x acc, x + 256 * acc) 0 b.

(** ** The memory of [gen] *)

(** The character set [mem], which is shuffled in place, the 21 characters
    before it, and the number of calls of [strfry]. *)
Record gst := GSt { mem : list Z; pr : arr; nfry : nat }.
Definition set_pr (a : arr) (s : gst) : gst := GSt (mem s) a (nfry s).

Section dissembler.
Context (fry : nat → list Z → list Z) (junk : Z).

Definition strfry (t : list Z) : M gst (list Z) :=
  i ← gets nfry; modify (λ s, GSt (mem s) (pr s) (S i));; mret (fry i t).
Definition strfry_mem : M gst unit :=
  t ← gets mem; t ← strfry t; modify (λ s, GSt t (pr s) (nfry s)).

(** One of [p], [q], [r], [s]: the elements before the NUL are shuffled. *)
Definition index_array (len : Z) : M gst (list Z) :=
  t ← strfry (schar <$> seqZ 1 len); mret (t ++ [0; schar (len + 2)]).

(** [X[p[i]-1]]. *)
Definition pick (X p : list Z) (i : Z) : res Z :=
  v ← rd (ints p) i; rd (ints (X ++ [0; junk])) (v - 1).

Definition wr_pr (i c : Z) : M gst unit :=
  a ← gets pr; a ← lift (wr a i c); modify (set_pr a).

(** ** [gen] *)

(** The values of [j], [k] or [m]: one that is not used is set to [len+1] in
    the first pass of its loop, which ends after it. *)
Definition indices (used : bool) (len : Z) : list Z :=
  if used then seqZ 0 len else if 0 <? len then [len + 1] else [].

Definition try_byte (X p q r s : list Z) (t l carry i j k m : Z) : res (option (Z * (Z * Z * Z * Z))) :=
  x0 ← pick X p i; x1 ← pick X q j; x2 ← pick X r k; x3 ← pick X s m;
  let try := u32 (t + carry + x0 + x1 + x2 + x3) in
  let single := Z.land try 0x000000ff in
  if single =? l then Ok (Some (Z.shiftr (Z.land try 0x0000ff00) 8, (x0, x1, x2, x3))) else Ok None.

Definition search (a : Z) (X p q r s : list Z) (t l carry : Z) : res (option (Z * (Z * Z * Z * Z))) :=
  let len := Z.of_nat (length X) in
  find_first (seqZ 0 len) (λ i,
  find_first (indices (2 <=? a) len) (λ j,
  find_first (indices (3 <=? a) len) (λ k,
  find_first (indices (4 <=? a) len) (λ m, try_byte X p q r s t l carry i j k m)))).

(** The loop over the bytes [z] of the words, with [carry] and [flag]. *)
Fixpoint pass (a : Z) (p q r s : list Z) (z : Z) (bytes : list (Z * Z)) (carry flag : Z) : M gst Z :=
  match bytes with
  | [] => mret flag
  | (t, l) :: bytes =>
      X ← gets mem;
      f ← lift (search a X p q r s t l carry);
      match f with
      | None => pass a p q r s (z + 1) bytes carry flag
      | Some (carry, (x0, x1, x2, x3)) =>
          wr_pr (1 + z) x0;;
          (if 2 <=? a then wr_pr (6 + z) x1 else mret tt);;
          (if 3 <=? a then wr_pr (11 + z) x2 else mret tt);;
          (if 4 <=? a then wr_pr (16 + z) x3 else mret tt);;
          pass a p q r s (z + 1) bytes carry (flag + 1)
      end
  end.

(** The loop over the number [a] of words. *)
Fixpoint gen_loop (as_ : list Z) (p q r s : list Z) (bytes : list (Z * Z)) (flag : Z) : M gst Z :=
  match as_ with
  | [] => mret flag
  | a :: as_ =>
      flag ← pass a p q r s 0 bytes 0 0;
      if flag =? 4 then wr_pr (5 * a) 0;; mret flag else gen_loop as_ p q r s bytes flag
  end.

Definition gen (targ last : Z) : M gst (list Z) :=
  X ← gets mem;
  let len := Z.of_nat (length X) in
  if MAX_CHR <? len + 2 then fail BadAccess
  else
    p ← index_array len; q ← index_array len; r ← index_array len; s ← index_array len;
    wr_pr 0 45;; wr_pr 5 45;; wr_pr 10 45;; wr_pr 15 45;;
    flag ← gen_loop [1; 2; 3; 4] p q r s (zip (bytes4 targ) (bytes4 last)) 0;
    if negb (flag =? 4) then fail (Exited (-1))
    else a ← gets pr; lift (c_string a).

(** ** [main] *)

(** The characters that AND to zero: the first [mem[j]] that has one, and the
    last [mem[k]]. *)
Definition and_pair (X : list Z) : option (Z * Z) :=
  head (omap (λ x, y ← head (filter (λ y, Z.land (Z.land x y) 0xff = 0) (reverse X)); Some (x, y)) X).
Fixpoint header_loop (n : nat) : M gst (list (Z * Z)) :=
  match n with
  | O => mret []
  | S n =>
      strfry_mem;;
      X ← gets mem;
      l ← header_loop n;
      mret (from_option (λ x, [x]) [] (and_pair X) ++ l)
  end.
(** The array [head], with its counter in [head[10]]. *)
Definition header : M gst arr :=
  l ← header_loop 4;
  if negb (37 + Z.of_nat (length l) =? 41) then fail (Exited (-1))
  else mret (ints (37 :: l.*1 ++ 37 :: l.*2 ++ [41]) ++ unset 27).

Fixpoint before_nul (t : list Z) : list Z :=
  match t with [] => [] | c :: t => if c =? 0 then [] else c :: before_nul t end.
(** [sscanf] with ["%4c"] stops at a NUL; the bytes before it are stored. *)
Definition scan4 (code : list Z) (k next : Z) : Z :=
  let t := before_nul (take 4 (drop (Z.to_nat k) code)) in
  word (t ++ drop (length t) (bytes4 next)).

(** The loop over the words of the code. *)
Fixpoint words (fuel : nat) (ninja k : Z) (code : list Z) (last next : Z) (body : arr) : M gst (arr * Z * Z) :=
  if k <? ninja then mret (body, last, next)
  else
    match fuel with
    | O => fail OutOfFuel
    | S fuel =>
        let next := scan4 code k next in
        strfry_mem;;
        g ← gen next last;
        body ← lift (strcat body 0 g);
        body ← lift (strcat body 0 [80]);
        words fuel ninja (k - 4) code next next body
    end.

(** From [magic] on; [n] is [norm+pad]. *)
Fixpoint magic (fuel : nat) (o : opts) (norm n : Z) (code : list Z) (last next len j : Z) (head body : arr)
    : M gst (list Z * list Z * Z) :=
  match fuel with
  | O => fail OutOfFuel
  | S fuel =>
      strfry_mem;;
      g ← gen last next;
      head ← lift (wr_str head 10 (g ++ [80; 92]));
      let body := replicate (Z.to_nat (n * 5)) (Some 0) ++ drop (Z.to_nat (n * 5)) body in
      r ← words (Z.to_nat n) (ninja o) (n - 4) code last next body;
      let '(body, last, next) := r in
      h ← lift (c_string head);
      b ← lift (c_string body);
      let opt := Z.of_nat (length h) + Z.of_nat (length b) in
      if negb (opt =? len) && (j <? 34) && negb (ninja o =? 0) then
        let last := u32 (targ o + norm + opt) in
        let last := if size o =? 0 then last else u32 (last + size o - opt) in
        let j := j + 1 in
        if (12 <? j) && (opt <? len) then mret (h, b, opt)
        else magic fuel o norm n code last 0 opt (if 12 <? j then 56 else j) head body
      else mret (h, b, opt)
  end.

(** [source] is the content of the file with the code; [writable] whether the
    output file can be opened.  Each pass from [magic] on increments [j], and the
    last has it above 34, so 14 passes are enough. *)
Definition dissembler_main (l : list opt) (source : option (list Z)) (writable : bool) : M gst (list Z) :=
  let o := get_opts l in
  match source with
  | None => fail (Exited (-1))
  | Some bytecode =>
      let norm := Z.of_nat (length bytecode) in
      let pad := Z.rem norm 4 + 4 in
      let n := norm + pad in
      modify (λ s, GSt (from_option (λ c, c) CHR (charset o)) (unset 21) (nfry s));;
      let code := replicate (Z.to_nat pad) 0x90 ++ bytecode in
      if to_file o && negb writable then fail (Exited (-1))
      else
        let last := if targ o =? 0 then 0xbfffffe0 else u32 (targ o + 20 + n * 5) in
        let bridge_ := if negb (targ o =? 0) && (bridge o <? 0) && (ninja o =? 0) then Z.quot norm 4 else bridge o in
        let o := if targ o =? 0
          then Opts last (ninja o) (size o) (bridge o) (charset o) (to_file o) (esc o) else o in
        head ← header;
        r ← magic 14 o norm n code last 0 0 0 head (unset (Z.to_nat (n * 6)));
        let '(h, b, opt) := r in
        let nops := if ninja o =? 0 then (if bridge_ <? 0 then n else bridge_) else 0 in
        mret (h ++ (if esc o then [92] else []) ++ b ++ replicate (Z.to_nat nops) 80 ++ [10])
  end.
End dissembler.
