(* ===== verification/DissemblerProofs.v ===== *)
(** * The dissembler: correctness

    The reference is a small machine with the four instructions that the
    program uses ([exec], after the processor's manual).  [gen_ok] shows that the
    words [gen] finds make the machine compute the target, [words_ok] that the
    body pushes the code; together they give the theorems about the program. *)

From stdpp Require Import functions base gmap list strings.
From Stdlib Require Import ZArith Lia.
From S2P Require Import Prelude Arrays Dissembler.

Local Open Scope Z_scope.

(** ** The machine *)

(** Registers, and the bytes of the memory. *)
Record cpu := Cpu { eax : Z; esp : Z; ram : Z → Z }.

Definition store4 (a w : Z) (m : Z → Z) : Z → Z :=
  <[u32 a := w mod 256]> (<[u32 (a + 1) := w / 2 ^ 8 mod 256]>
  (<[u32 (a + 2) := w / 2 ^ 16 mod 256]> (<[u32 (a + 3) := w / 2 ^ 24 mod 256]> m))).
Definition load4 (a : Z) (m : Z → Z) : Z :=
  word [m (u32 a); m (u32 (a + 1)); m (u32 (a + 2)); m (u32 (a + 3))].

Definition push_eax (c : cpu) : cpu :=
  let a := u32 (esp c - 4) in Cpu (eax c) a (store4 a (eax c) (ram c)).
Definition pop_esp (c : cpu) : cpu := Cpu (eax c) (load4 (esp c) (ram c)) (ram c).

(** PUSH EAX, POP ESP, AND EAX,imm32 and SUB EAX,imm32; the machine code is not
    in the memory it writes to. *)
Fixpoint exec (t : list Z) (c : cpu) : option cpu :=
  match t with
  | [] => Some c
  | op :: t =>
      if op =? 0x50 then exec t (push_eax c)
      else if op =? 0x5c then exec t (pop_esp c)
      else
        match t with
        | b0 :: b1 :: b2 :: b3 :: t =>
            let imm := word [b0; b1; b2; b3] in
            if op =? 0x25 then exec t (Cpu (Z.land (eax c) imm) (esp c) (ram c))
            else if op =? 0x2d then exec t (Cpu (u32 (eax c - imm)) (esp c) (ram c))
            else None
        | _ => None
        end
  end.

(** Subtractions. *)
Definition subs (ws : list (list Z)) : list Z := concat (cons 45 <$> ws).
Definition total (ws : list (list Z)) : Z := foldr (λ w acc, word w + acc) 0 ws.

Lemma u32_sub a b : u32 (u32 a - b) = u32 (a - b).
Proof. unfold u32. by rewrite Zminus_mod_idemp_l. Qed.

Lemma exec_subs ws u c :
  Forall (λ w, length w = 4%nat) ws → u32 (eax c) = eax c →
  exec (subs ws ++ u) c = exec u (Cpu (u32 (eax c - total ws)) (esp c) (ram c)).
Proof.
  intros Hws. revert c. induction Hws as [|w ws Hw Hws IH]; intros c Hc; simpl.
  - rewrite Z.sub_0_r, Hc. by destruct c.
  - destruct w as [|b0 [|b1 [|b2 [|b3 [|]]]]]; try done. cbn [app]. cbn [exec Z.eqb Pos.eqb].
    fold (subs ws). rewrite IH by (simpl; unfold u32; apply Z.mod_mod; lia). cbn [eax esp ram].
    rewrite u32_sub. do 2 f_equal. unfold u32. f_equal. simpl. lia.
Qed.

(** ** Memory *)
Lemma u32_eq a b : u32 a = u32 b → - 2 ^ 32 < a - b < 2 ^ 32 → a = b.
Proof.
  unfold u32. intros E H. pose proof (Z.div_mod a (2 ^ 32) ltac:(lia)). pose proof (Z.div_mod b (2 ^ 32) ltac:(lia)). nia.
Qed.
Lemma u32_add a b : u32 (u32 a + b) = u32 (a + b).
Proof. unfold u32. by rewrite Zplus_mod_idemp_l. Qed.
Lemma u32_range a : 0 ≤ u32 a < 2 ^ 32.
Proof. apply Z.mod_pos_bound. lia. Qed.
Lemma u32_id a : 0 ≤ a < 2 ^ 32 → u32 a = a.
Proof. apply Z.mod_small. Qed.

(** The bytes of a stored word, and the other bytes. *)
Lemma store4_byte a w m i : 0 ≤ i < 4 → store4 a w m (u32 (a + i)) = w / 2 ^ (8 * i) mod 256.
Proof.
  intros Hi. unfold store4. assert (i = 0 ∨ i = 1 ∨ i = 2 ∨ i = 3) as Hi' by lia.
  assert (∀ x y, u32 (a + x) = u32 (a + y) → 0 ≤ x < 4 → 0 ≤ y < 4 → x = y) as Hd.
  { intros x y E Hx Hy. apply u32_eq in E; lia. }
  replace (u32 a) with (u32 (a + 0)) by (f_equal; lia).
  destruct Hi' as [-> | [-> | [-> | ->] ] ]; repeat (rewrite fn_lookup_insert_ne by (intros E; apply Hd in E; lia));
    rewrite fn_lookup_insert; [|done..]. change (8 * 0) with 0. by rewrite Z.pow_0_r, Z.div_1_r.
Qed.
Lemma store4_frame a w m d : 4 ≤ d < 2 ^ 32 → store4 a w m (u32 (a + d)) = m (u32 (a + d)).
Proof.
  intros Hd. unfold store4. rewrite !fn_lookup_insert_ne; [done|..]; intros E;
    [apply (u32_eq (a + 3)) in E|apply (u32_eq (a + 2)) in E|apply (u32_eq (a + 1)) in E|apply u32_eq in E]; lia.
Qed.

Lemma word_div w : 0 ≤ w < 2 ^ 32 →
  word [w mod 256; w / 2 ^ 8 mod 256; w / 2 ^ 16 mod 256; w / 2 ^ 24 mod 256] = w.
Proof.
  intros Hw. unfold word. cbn [foldr]. rewrite (Z.mod_small (w / 2 ^ 24)) by
    (split; [apply Z.div_pos; lia|apply Z.div_lt_upper_bound; lia]).
  change (2 ^ 8) with 256. change (2 ^ 16) with (256 * 256). change (2 ^ 24) with (256 * 256 * 256).
  rewrite <-!Z.div_div by lia. pose proof (Z.div_mod w 256 ltac:(lia)).
  pose proof (Z.div_mod (w / 256) 256 ltac:(lia)). pose proof (Z.div_mod (w / 256 / 256) 256 ltac:(lia)). lia.
Qed.

Lemma load_store a w m : 0 ≤ w < 2 ^ 32 → load4 a (store4 a w m) = w.
Proof.
  intros Hw. unfold load4. pose proof (store4_byte a w m 0 ltac:(lia)) as E0. rewrite Z.add_0_r in E0.
  rewrite E0, !store4_byte by lia. change (8 * 0) with 0. rewrite Z.pow_0_r, Z.div_1_r. by apply word_div.
Qed.

(** Pushing words. *)
Definition push (c : cpu) (w : Z) : cpu := push_eax (Cpu w (esp c) (ram c)).

Lemma push_all ws : ∀ c,
  4 * Z.of_nat (length ws) ≤ 2 ^ 32 →
  let c' := foldl push c ws in
  (0 < length ws → esp c' = u32 (esp c - 4 * Z.of_nat (length ws)) ∧ last ws = Some (eax c'))%nat ∧
  (∀ i w b, ws !! i = Some w → 0 ≤ b < 4 →
     ram c' (u32 (esp c - 4 * (Z.of_nat i + 1) + b)) = w / 2 ^ (8 * b) mod 256) ∧
  (∀ d, 0 ≤ d < 2 ^ 32 - 4 * Z.of_nat (length ws) → ram c' (u32 (esp c + d)) = ram c (u32 (esp c + d))).
Proof.
  induction ws as [|w ws IH]; intros c Hl c'; [split_and!; [simpl; lia|done|done]|].
  simpl length in *. rewrite Nat2Z.inj_succ in *. destruct (IH (push c w)) as (H1 & H2 & H3); [lia|].
  unfold c'. cbn [foldl]. assert (∀ x, u32 (esp (push c w) + x) = u32 (esp c + (x - 4))) as He.
  { intros x. simpl. rewrite u32_add. f_equal. lia. }
  split_and!.
  - intros _. destruct ws as [|w' ws]; [simpl; split; [f_equal; lia|done]|]. destruct H1 as [H1 H1']; [simpl; lia|].
    rewrite H1. split; [|by rewrite last_cons, H1'].
    rewrite <-(Z.add_opp_r (esp (push c w))), He. f_equal; simpl; lia.
  - intros i v b Hi Hb. destruct i as [|i]; simpl in Hi.
    + injection Hi as ->. specialize (H3 b ltac:(lia)). rewrite He in H3.
      replace (esp c - 4 * (Z.of_nat 0 + 1) + b) with (esp c + (b - 4)) by lia. rewrite H3. simpl.
      replace (u32 (esp c + (b - 4))) with (u32 (u32 (esp c - 4) + b)) by (rewrite u32_add; f_equal; lia).
      by apply store4_byte.
    + specialize (H2 i v b Hi Hb). rewrite <-H2. f_equal.
      replace (esp (push c w) - 4 * (Z.of_nat i + 1) + b) with (esp (push c w) + (b - 4 * (Z.of_nat i + 1))) by lia.
      rewrite He. f_equal. lia.
  - intros d Hd. specialize (H3 (d + 4) ltac:(lia)). rewrite He in H3. replace (d + 4 - 4) with d in H3 by lia.
    rewrite H3. simpl. replace (u32 (esp c + d)) with (u32 (u32 (esp c - 4) + (d + 4))) by (rewrite u32_add; f_equal; lia).
    apply store4_frame. lia.
Qed.

(** ** Assertions

    [okx strict c s Q]: the computation returns with [Q], or, unless [strict],
    ends with the exit of a failed search. *)
Definition okx {A} (strict : bool) (c : M gst A) (s : gst) (Q : A → gst → Prop) : Prop :=
  match c s with Ok (a, s') => Q a s' | Err e => strict = false ∧ e = Exited (-1) end.

Lemma okx_ret {A} b (a : A) s (Q : A → gst → Prop) : Q a s → okx b (mret a) s Q.
Proof. done. Qed.
Lemma okx_bind {A B} b (c : M gst A) (k : A → M gst B) s Q :
  okx b c s (λ a s', okx b (k a) s' Q) → okx b (c ≫= k) s Q.
Proof. unfold okx, mbind, M_bind. by destruct (c s) as [[a s']|]. Qed.
Lemma okx_mono {A} b (c : M gst A) s (Q Q' : A → gst → Prop) :
  okx b c s Q → (∀ a s', Q a s' → Q' a s') → okx b c s Q'.
Proof. unfold okx. destruct (c s) as [[a s']|]; auto. Qed.
Lemma okx_runs {A} b (c : M gst A) s (Q : A → gst → Prop) : runs c s Q → okx b c s Q.
Proof. intros (a & s' & E & H). unfold okx. by rewrite E. Qed.
Lemma okx_exit {A} b s (Q : A → gst → Prop) : b = false → okx b (fail (Exited (-1))) s Q.
Proof. intros ->. by split. Qed.
Lemma okx_gets {A} b (f : gst → A) s (Q : A → gst → Prop) : Q (f s) s → okx b (gets f) s Q.
Proof. done. Qed.
Lemma okx_lift {A} b (r : res A) a s (Q : A → gst → Prop) : r = Ok a → Q a s → okx b (lift r) s Q.
Proof. intros -> HQ. done. Qed.

(** ** Options *)
Lemma get_opts_facts l : (ninja (get_opts l) = 0 ∨ ninja (get_opts l) = 4) ∧ 0 ≤ targ (get_opts l) < 2 ^ 32.
Proof.
  assert (∀ l o, (ninja o = 0 ∨ ninja o = 4) ∧ 0 ≤ targ o < 2 ^ 32 →
    (ninja (foldl set_opt o l) = 0 ∨ ninja (foldl set_opt o l) = 4) ∧ 0 ≤ targ (foldl set_opt o l) < 2 ^ 32) as H.
  { clear. intros l. induction l as [|x l IH]; intros o Ho; [done|]. apply IH. destruct Ho.
    destruct x; simpl; auto using u32_range. }
  specialize (H l no_opts ltac:(simpl; lia)). unfold get_opts.
  set (o := foldl set_opt no_opts l) in *. destruct (_ && _); simpl; [|done]. split; [by right|apply H].
Qed.

(** ** The search *)
Section search.
Context (junk : Z) (Hjunk : 0 ≤ junk < 128).

(** Characters of the set. *)
Definition chars (X : list Z) : Prop := Forall (λ x, 0 < x < 128) X.

(** One of the shuffled arrays: its elements give the characters of the set. *)
Record index_ok (X p : list Z) : Prop := {
  ix_in i : 0 ≤ i < Z.of_nat (length X) → ∃ x, x ∈ X ∧ pick junk X p i = Ok x;
  ix_all x : x ∈ X → ∃ i, 0 ≤ i < Z.of_nat (length X) ∧ pick junk X p i = Ok x;
  ix_junk : pick junk X p (Z.of_nat (length X) + 1) = Ok junk
}.

Lemma index_perm X t :
  t ≡ₚ schar <$> seqZ 1 (Z.of_nat (length X)) → (length X ≤ 125)%nat →
  index_ok X (t ++ [0; schar (Z.of_nat (length X) + 2)]).
Proof.
  intros Ht HX. set (len := Z.of_nat (length X)) in *.
  assert (t ≡ₚ seqZ 1 len) as Hp.
  { rewrite Ht. replace (schar <$> seqZ 1 len) with (seqZ 1 len); [done|].
    rewrite <-(list_fmap_id (seqZ 1 len)) at 1. apply list_fmap_ext. intros i x Hx%list_elem_of_lookup_2%elem_of_seqZ.
    simpl. rewrite schar_small by lia. done. }
  assert (length t = length X) as Hlt by (rewrite Hp, length_seqZ; lia).
  rewrite schar_small by lia.
  assert (∀ i v, 0 ≤ i < len → t !! Z.to_nat i = Some v → v ∈ seqZ 1 len → ∃ x, X !! Z.to_nat (v - 1) = Some x ∧
    pick junk X (t ++ [0; len + 2]) i = Ok x) as Hpick.
  { intros i v Hi Hv Hvs. apply elem_of_seqZ in Hvs.
    destruct (lookup_lt_is_Some_2 X (Z.to_nat (v - 1))) as [x Hx]; [lia|]. exists x. split; [done|].
    unfold pick. rewrite (rd_ints _ i v) by (try lia; by apply lookup_app_l_Some). unfold mbind, res_bind.
    apply rd_ints; [lia|]. by apply lookup_app_l_Some. }
  split.
  - intros i Hi. destruct (lookup_lt_is_Some_2 t (Z.to_nat i)) as [v Hv]; [lia|].
    assert (v ∈ seqZ 1 len) as Hvs by (rewrite <-Hp; by eapply list_elem_of_lookup_2).
    destruct (Hpick i v Hi Hv Hvs) as (x & Hx & E). exists x. split; [by eapply list_elem_of_lookup_2|done].
  - intros x [y Hy]%list_elem_of_lookup. pose proof (lookup_lt_Some _ _ _ Hy).
    assert (Z.of_nat y + 1 ∈ t) as [i Hi]%list_elem_of_lookup by (rewrite Hp; apply elem_of_seqZ; lia).
    pose proof (lookup_lt_Some _ _ _ Hi). exists (Z.of_nat i). split; [lia|].
    destruct (Hpick (Z.of_nat i) (Z.of_nat y + 1)) as (x' & Hx' & E); [lia|by rewrite Nat2Z.id|apply elem_of_seqZ; lia|].
    rewrite E. f_equal. replace (Z.to_nat (Z.of_nat y + 1 - 1)) with y in Hx' by lia. congruence.
  - fold len. unfold pick. rewrite (rd_ints _ _ (len + 2)); [| lia|].
    2:{ replace (Z.to_nat (len + 1)) with (length t + 1)%nat by lia. rewrite lookup_app_r by lia.
        by replace (length t + 1 - length t)%nat with 1%nat by lia. }
    unfold mbind, res_bind. apply rd_ints; [lia|].
    replace (Z.to_nat (len + 2 - 1)) with (length X + 1)%nat by lia. rewrite lookup_app_r by lia.
    by replace (length X + 1 - length X)%nat with 1%nat by lia.
Qed.

(** The character an index stands for, when the index is used or not. *)
Definition from (X : list Z) (used : bool) (x : Z) : Prop := if used then x ∈ X else x = junk.

Lemma indices_pick X p used i :
  index_ok X p → i ∈ indices used (Z.of_nat (length X)) → ∃ x, from X used x ∧ pick junk X p i = Ok x.
Proof.
  intros [Hin _ Hj] Hi. unfold indices in Hi. destruct used.
  - apply elem_of_seqZ in Hi. apply Hin. lia.
  - destruct (0 <? _); [|by apply not_elem_of_nil in Hi]. apply list_elem_of_singleton in Hi as ->. by exists junk.
Qed.

Lemma from_bounds X used x : chars X → from X used x → 0 ≤ x < 128.
Proof.
  intros HX. destruct used; simpl; [|by intros ->]. intros Hx. unfold chars in HX. rewrite Forall_forall in HX.
  specialize (HX x Hx). lia.
Qed.

Lemma carry_arith z : 0 ≤ z < 1024 →
  Z.land (u32 z) 0x000000ff = z mod 256 ∧ Z.shiftr (Z.land (u32 z) 0x0000ff00) 8 = z / 256.
Proof.
  intros Hz. unfold u32. rewrite Z.mod_small by lia. split.
  - change 0x000000ff with (Z.ones 8). by rewrite Z.land_ones.
  - change 0x0000ff00 with (Z.shiftl (Z.ones 8) 8). rewrite Z.shiftr_land, Z.shiftr_shiftl_l by lia.
    change (Z.shiftl (Z.ones 8) (8 - 8)) with (Z.ones 8). rewrite Z.land_ones, Z.shiftr_div_pow2 by lia.
    apply Z.mod_small. change (2 ^ 8) with 256. split; [apply Z.div_pos; lia|]. apply Z.div_lt_upper_bound; lia.
Qed.

(** What a search finds for the byte [t] of the target and [l] of the start. *)
Definition found (X : list Z) (a t l carry : Z) (r : option (Z * (Z * Z * Z * Z))) : Prop :=
  match r with
  | Some (carry', (x0, x1, x2, x3)) =>
      x0 ∈ X ∧ from X (2 <=? a) x1 ∧ from X (3 <=? a) x2 ∧ from X (4 <=? a) x3 ∧
      t + carry + (x0 + x1 + x2 + x3) = l + 256 * carry' ∧ 0 ≤ carry' < 4
  | None =>
      ∀ x0 x1 x2 x3, x0 ∈ X → x1 ∈ X → x2 ∈ X → x3 ∈ X → 4 <= a →
        (t + carry + (x0 + x1 + x2 + x3)) mod 256 ≠ l
  end.

Lemma byte_search_ok X p q r s a t l carry :
  chars X → index_ok X p → index_ok X q → index_ok X r → index_ok X s →
  0 ≤ t < 256 → 0 ≤ l < 256 → 0 ≤ carry < 4 →
  ∃ f, search junk a X p q r s t l carry = Ok f ∧ found X a t l carry f.
Proof.
  intros HX Hp Hq Hr Hs Ht Hl Hc. unfold search.
  set (missed i j k m := match pick junk X p i, pick junk X q j, pick junk X r k, pick junk X s m with
    | Ok x0, Ok x1, Ok x2, Ok x3 => (t + carry + (x0 + x1 + x2 + x3)) mod 256 ≠ l | _, _, _, _ => False end).
  assert (∀ i j k m x0 x1 x2 x3, pick junk X p i = Ok x0 → pick junk X q j = Ok x1 → pick junk X r k = Ok x2 →
    pick junk X s m = Ok x3 → x0 ∈ X → from X (2 <=? a) x1 → from X (3 <=? a) x2 → from X (4 <=? a) x3 →
    let sum := t + carry + (x0 + x1 + x2 + x3) in
    try_byte junk X p q r s t l carry i j k m =
      Ok (if sum mod 256 =? l then Some (sum / 256, (x0, x1, x2, x3)) else None) ∧
    (sum mod 256 = l → found X a t l carry (Some (sum / 256, (x0, x1, x2, x3))))) as Htry.
  { intros i j k m x0 x1 x2 x3 E0 E1 E2 E3 H0 H1 H2 H3 sum. unfold try_byte. rewrite E0, E1, E2, E3.
    unfold mbind, res_bind. pose proof (from_bounds X true x0 HX H0). pose proof (from_bounds _ _ _ HX H1).
    pose proof (from_bounds _ _ _ HX H2). pose proof (from_bounds _ _ _ HX H3).
    replace (t + carry + x0 + x1 + x2 + x3) with sum by (unfold sum; lia).
    destruct (carry_arith sum) as [-> ->]; [unfold sum; lia|]. split; [by destruct (_ =? _)|].
    intros Hm. simpl. split_and!; try done; fold sum.
    - rewrite (Z.div_mod sum 256) at 1 by lia. rewrite Hm. lia.
    - apply Z.div_pos; unfold sum; lia.
    - apply Z.div_lt_upper_bound; unfold sum; lia. }
  assert (∀ i j k m x0 x1 x2 x3, pick junk X p i = Ok x0 → pick junk X q j = Ok x1 → pick junk X r k = Ok x2 →
    pick junk X s m = Ok x3 → x0 ∈ X → from X (2 <=? a) x1 → from X (3 <=? a) x2 → from X (4 <=? a) x3 →
    ∃ f, try_byte junk X p q r s t l carry i j k m = Ok f ∧
      match f with Some y => found X a t l carry (Some y) | None => missed i j k m end) as Hbody.
  { intros i j k m x0 x1 x2 x3 E0 E1 E2 E3 H0 H1 H2 H3.
    destruct (Htry i j k m x0 x1 x2 x3 E0 E1 E2 E3 H0 H1 H2 H3) as [E Hf]. eexists. split; [exact E|].
    destruct (Z.eqb_spec ((t + carry + (x0 + x1 + x2 + x3)) mod 256) l); [auto|].
    unfold missed. by rewrite E0, E1, E2, E3. }
  destruct (find_first_ok (seqZ 0 (Z.of_nat (length X)))
    (λ i, find_first (indices (2 <=? a) (Z.of_nat (length X))) (λ j,
          find_first (indices (3 <=? a) (Z.of_nat (length X))) (λ k,
          find_first (indices (4 <=? a) (Z.of_nat (length X))) (λ m, try_byte junk X p q r s t l carry i j k m))))
    (λ y, found X a t l carry (Some y))
    (λ i, ∀ j, j ∈ indices (2 <=? a) (Z.of_nat (length X)) → ∀ k, k ∈ indices (3 <=? a) (Z.of_nat (length X)) →
      ∀ m, m ∈ indices (4 <=? a) (Z.of_nat (length X)) → missed i j k m)) as (f & E & Hf).
  { intros i Hi. destruct (ix_in _ _ Hp i) as (x0 & H0 & E0); [apply elem_of_seqZ in Hi; lia|].
    apply find_first_ok. intros j Hj. destruct (indices_pick X q _ j Hq Hj) as (x1 & H1 & E1).
    apply find_first_ok. intros k Hk. destruct (indices_pick X r _ k Hr Hk) as (x2 & H2 & E2).
    apply find_first_ok. intros m Hm. destruct (indices_pick X s _ m Hs Hm) as (x3 & H3 & E3).
    by eapply Hbody. }
  exists f. split; [exact E|]. destruct f as [y|]; [done|]. simpl. intros x0 x1 x2 x3 H0 H1 H2 H3 Ha.
  destruct (ix_all _ _ Hp x0 H0) as (i & Hi & E0), (ix_all _ _ Hq x1 H1) as (j & Hj & E1).
  destruct (ix_all _ _ Hr x2 H2) as (k & Hk & E2), (ix_all _ _ Hs x3 H3) as (m & Hm & E3).
  unfold indices in Hf. rewrite !(proj2 (Z.leb_le _ a)) in Hf by lia.
  specialize (Hf i ltac:(apply elem_of_seqZ; lia) j ltac:(apply elem_of_seqZ; lia) k ltac:(apply elem_of_seqZ; lia)
    m ltac:(apply elem_of_seqZ; lia)). unfold missed in Hf. by rewrite E0, E1, E2, E3 in Hf.
Qed.

(** ** The words of [gen] *)
Definition sel (b : nat) (col : Z * Z * Z * Z) : Z :=
  let '(x0, x1, x2, x3) := col in match b with 0%nat => x0 | 1%nat => x1 | 2%nat => x2 | _ => x3 end.
Definition csum (col : Z * Z * Z * Z) : Z := let '(x0, x1, x2, x3) := col in x0 + x1 + x2 + x3.
(** Where the byte [y] of the word [b] is. *)
Definition pos (b y : nat) : nat := (1 + 5 * b + y)%nat.

Lemma runs_wr_pr i c s Q :
  (0 ≤ i < Z.of_nat (length (pr s))) → Q tt (set_pr (<[Z.to_nat i := Some c]> (pr s)) s) → runs (wr_pr i c) s Q.
Proof.
  intros Hi HQ. unfold wr_pr. apply runs_bind, runs_gets, runs_bind. eapply runs_lift; [|by apply runs_modify].
  unfold wr. by rewrite (proj2 (Z.leb_le 0 i)), (proj2 (Z.ltb_lt i _)) by lia.
Qed.

Lemma write_col {A} a z col (k : M gst A) s Q :
  1 ≤ a ≤ 4 → (z < 4)%nat → length (pr s) = 21%nat →
  (∀ P, length P = 21%nat → (∀ b, (b < Z.to_nat a)%nat → P !! pos b z = Some (Some (sel b col))) →
     (∀ i, (∀ b, (b < Z.to_nat a)%nat → i ≠ pos b z) → P !! i = pr s !! i) → runs k (set_pr P s) Q) →
  runs (wr_pr (1 + Z.of_nat z) (sel 0 col);;
        (if 2 <=? a then wr_pr (6 + Z.of_nat z) (sel 1 col) else mret tt);;
        (if 3 <=? a then wr_pr (11 + Z.of_nat z) (sel 2 col) else mret tt);;
        (if 4 <=? a then wr_pr (16 + Z.of_nat z) (sel 3 col) else mret tt);; k) s Q.
Proof.
  intros Ha Hz Hl Hk.
  assert (a = 1 ∨ a = 2 ∨ a = 3 ∨ a = 4) as Ha' by lia.
  assert (∀ (P : arr) i x s', length P = 21%nat → 0 ≤ i < 21 →
    ∀ (k' : M gst A), runs k' (set_pr (<[Z.to_nat i := Some x]> P) s') Q → runs (wr_pr i x;; k') (set_pr P s') Q) as Hw.
  { intros P i x s' HP Hi k' Hk'. apply runs_bind, runs_wr_pr; [simpl; lia|exact Hk']. }
  replace s with (set_pr (pr s) s) by by destruct s.
  apply Hw; [done|lia|].
  destruct Ha' as [-> | [-> | [-> | ->] ] ]; cbn [Z.leb Z.compare Pos.compare Pos.compare_cont];
    repeat first [apply Hw; [by rewrite ?length_insert|lia|] | apply runs_bind, runs_ret];
    (apply Hk; [by rewrite ?length_insert| |]).
  all: unfold pos; first [intros i Hi; pose proof (Hi 0%nat); pose proof (Hi 1%nat); pose proof (Hi 2%nat);
    pose proof (Hi 3%nat) | intros b Hb].
  all: rewrite !list_lookup_insert, ?length_insert, Hl; repeat case_decide; try done; try lia.
  all: destruct b as [|[|[|[|b]]]]; simpl; try done; lia.
Qed.

(** Any sum of four characters modulo 256. *)
Definition covers (X : list Z) : Prop :=
  ∀ v, 0 ≤ v < 256 → ∃ x0 x1 x2 x3, x0 ∈ X ∧ x1 ∈ X ∧ x2 ∈ X ∧ x3 ∈ X ∧ (x0 + x1 + x2 + x3) mod 256 = v.

Definition col_ok (X : list Z) (a : Z) (col : Z * Z * Z * Z) : Prop :=
  let '(x0, x1, x2, x3) := col in x0 ∈ X ∧ from X (2 <=? a) x1 ∧ from X (3 <=? a) x2 ∧ from X (4 <=? a) x3.

Definition byte_pair (x : Z * Z) : Prop := 0 ≤ x.1 < 256 ∧ 0 ≤ x.2 < 256.

(** The columns that a pass finds, from byte [z] on, if it finds all. *)
Definition found_cols (X : list Z) (a : Z) (z : nat) (bytes : list (Z * Z)) (carry : Z) (P : arr)
    (cols : list (Z * Z * Z * Z)) : Prop :=
  length cols = length bytes ∧ Forall (col_ok X a) cols ∧
  (∃ c, carry + word bytes.*1 + word (csum <$> cols) = word bytes.*2 + 256 ^ Z.of_nat (length bytes) * c) ∧
  (∀ y col b, cols !! y = Some col → (b < Z.to_nat a)%nat → P !! pos b (z + y) = Some (Some (sel b col))).

Definition pass_post (X : list Z) (a : Z) (z : nat) (bytes : list (Z * Z)) (carry flag : Z) (s : gst) (flag' : Z) (s' : gst) : Prop :=
  mem s' = mem s ∧ nfry s' = nfry s ∧ length (pr s') = 21%nat ∧
  flag ≤ flag' ≤ flag + Z.of_nat (length bytes) ∧
  (∀ i, (∀ b y, (b < Z.to_nat a)%nat → (z ≤ y < z + length bytes)%nat → i ≠ pos b y) → pr s' !! i = pr s !! i) ∧
  (flag' = flag + Z.of_nat (length bytes) → ∃ cols, found_cols X a z bytes carry (pr s') cols) ∧
  (covers X → 4 ≤ a → flag' = flag + Z.of_nat (length bytes)).

Lemma pass_ok X p q r s_ a bytes : ∀ z carry flag s,
  chars X → index_ok X p → index_ok X q → index_ok X r → index_ok X s_ →
  1 ≤ a ≤ 4 → Forall byte_pair bytes → 0 ≤ carry < 4 → (z + length bytes ≤ 4)%nat →
  mem s = X → length (pr s) = 21%nat →
  runs (pass junk a p q r s_ (Z.of_nat z) bytes carry flag) s (pass_post X a z bytes carry flag s).
Proof.
  induction bytes as [|[t l] bytes IH]; intros z carry flag s HX Hp Hq Hr Hs Ha Hby Hc Hz Hm Hl; cbn [pass].
  - apply runs_ret. split_and!; [done..|simpl; lia|simpl; lia|done| |simpl; lia].
    intros _. exists []. split_and!; [done|constructor|exists carry; simpl; lia|done].
  - apply Forall_cons in Hby as [[Ht Hlb] Hby]. simpl in Hz, Ht, Hlb.
    apply runs_bind, runs_gets, runs_bind. rewrite Hm.
    destruct (byte_search_ok X p q r s_ a t l carry) as (f & E & Hf); [done..|].
    eapply runs_lift; [exact E|]. replace (Z.of_nat z + 1) with (Z.of_nat (S z)) by lia.
    destruct f as [[carry' [[[x0 x1] x2] x3]]|].
    + destruct Hf as (H0 & H1 & H2 & H3 & Hsum & Hc'). set (col := (x0, x1, x2, x3)).
      apply (write_col a z col); [done|lia|done|]. intros P HlP Hrow Hframe.
      eapply runs_mono; [apply (IH (S z) carry' (flag + 1) (set_pr P s)); done || lia|].
      intros flag' s' (M' & N' & L' & F' & Fr' & Found' & Cov'). simpl in M', N', Fr'. unfold pass_post. simpl length.
      split_and!; [done|done|done|lia|lia| | |lia || (intros Hcov Ha4; specialize (Cov' Hcov Ha4); lia)].
      * intros i Hi. rewrite Fr', Hframe; [done| |]; intros b.
        -- intros Hb. apply Hi; [done|lia].
        -- intros y Hb Hy. apply Hi; [done|lia].
      * intros Hall. destruct Found' as (cols & Hlc & Hok & (c & Hw) & Hrows); [lia|].
        exists (col :: cols). split_and!; [simpl; lia|by constructor| |].
        -- exists c. simpl length. rewrite Nat2Z.inj_succ, Z.pow_succ_r by lia.
           cbn [fmap list_fmap fst snd word foldr csum col]. unfold word in *. simpl in *. nia.
        -- intros [|y] col' b Hy Hb; simpl in Hy.
           ++ injection Hy as <-. rewrite Nat.add_0_r, Fr'; [by apply Hrow|].
              intros b' y' Hb' Hy'. unfold pos. lia.
           ++ replace (z + S y)%nat with (S z + y)%nat by lia. by apply Hrows.
    + eapply runs_mono; [apply (IH (S z) carry flag s); done || lia|].
      intros flag' s' (M' & N' & L' & F' & Fr' & _ & _). unfold pass_post. simpl length.
      split_and!; [done|done|done|lia|lia| |lia|].
      * intros i Hi. apply Fr'. intros b y Hb Hy. apply Hi; [done|lia].
      * intros Hcov Ha4. exfalso. destruct (Hcov ((l - t - carry) mod 256)) as (x0 & x1 & x2 & x3 & H0 & H1 & H2 & H3 & Hs4).
        { apply Z.mod_pos_bound. lia. }
        apply (Hf x0 x1 x2 x3 H0 H1 H2 H3 Ha4). rewrite Zplus_mod, Hs4, <-Zplus_mod.
        replace (t + carry + (l - t - carry)) with l by lia. by apply Z.mod_small.
Qed.

(** The words in the columns, and their text. *)
Definition rows (a : Z) (cols : list (Z * Z * Z * Z)) : list (list Z) :=
  (λ b, sel b <$> cols) <$> seq 0 (Z.to_nat a).

Lemma c_string_lookup t P :
  0 ∉ t → (∀ i x, t !! i = Some x → P !! i = Some (Some x)) → P !! length t = Some (Some 0) → c_string P = Ok t.
Proof.
  intros H0 Ht Hn. rewrite <-(take_drop (length t) P). rewrite (drop_S P (Some 0)) by done.
  replace (take (length t) P) with (ints t); [by apply c_string_ints|].
  apply list_eq_same_length with (length t); [|by rewrite length_ints|].
  - rewrite length_take. pose proof (lookup_lt_Some _ _ _ Hn). lia.
  - intros i x y Hi Hx Hy. unfold ints in Hx. rewrite list_lookup_fmap in Hx. rewrite lookup_take_lt in Hy by done.
    destruct (t !! i) as [z|] eqn:E; [|done]. injection Hx as <-. rewrite (Ht i z E) in Hy. congruence.
Qed.

Lemma chars_no_nul X l : chars X → Forall (λ x, x ∈ X) l → 0 ∉ l.
Proof.
  intros HX Hl Hin. unfold chars in HX. rewrite Forall_forall in HX, Hl. specialize (HX 0 (Hl 0 Hin)). lia.
Qed.

Lemma rows_in X a cols : 1 ≤ a ≤ 4 → length cols = 4%nat → Forall (col_ok X a) cols →
  Forall (λ w, length w = 4%nat ∧ Forall (λ x, x ∈ X) w) (rows a cols).
Proof.
  intros Ha Hlen Hok. unfold rows. apply Forall_fmap, Forall_forall. intros b Hb%elem_of_seq. simpl.
  rewrite length_fmap. split; [done|]. apply Forall_fmap. eapply Forall_impl; [exact Hok|].
  intros [[[x0 x1] x2] x3] (H0 & H1 & H2 & H3). simpl.
  destruct b as [|[|[|b]]]; [done|rewrite (proj2 (Z.leb_le 2 a)) in H1 by lia; done|
    rewrite (proj2 (Z.leb_le 3 a)) in H2 by lia; done|rewrite (proj2 (Z.leb_le 4 a)) in H3 by lia; done].
Qed.

Lemma subs_no_nul X ws :
  chars X → Forall (λ w, length w = 4%nat ∧ Forall (λ x, x ∈ X) w) ws → 0 ∉ subs ws.
Proof.
  intros HX. induction 1 as [|w ws [_ Hw] _ IH]; [apply not_elem_of_nil|].
  change (subs (w :: ws)) with (45 :: w ++ subs ws). rewrite not_elem_of_cons, not_elem_of_app.
  split_and!; [done|by eapply chars_no_nul|done].
Qed.

Lemma rows_text X a cols P :
  chars X → 1 ≤ a ≤ 4 → length cols = 4%nat → Forall (col_ok X a) cols → length P = 21%nat →
  (∀ b, (b < 4)%nat → P !! (5 * b)%nat = Some (Some 45)) →
  (∀ y col b, cols !! y = Some col → (b < Z.to_nat a)%nat → P !! pos b y = Some (Some (sel b col))) →
  c_string (<[Z.to_nat (5 * a) := Some 0]> P) = Ok (subs (rows a cols)).
Proof.
  intros HX Ha Hlen Hok HlP Hm Hr. pose proof (rows_in X a cols Ha Hlen Hok) as Hin.
  apply c_string_lookup; [by eapply subs_no_nul| |]; clear Hin Hok.
  - destruct cols as [|c0 [|c1 [|c2 [|c3 [|]]]]]; try done.
    pose proof (λ b, Hr 0%nat c0 b eq_refl) as R0. pose proof (λ b, Hr 1%nat c1 b eq_refl) as R1.
    pose proof (λ b, Hr 2%nat c2 b eq_refl) as R2. pose proof (λ b, Hr 3%nat c3 b eq_refl) as R3.
    assert (a = 1 ∨ a = 2 ∨ a = 3 ∨ a = 4) as Ha' by lia. unfold pos in *.
    intros i x Hi. destruct Ha' as [-> | [-> | [-> | ->] ] ];
    do 20 (destruct i as [|i];
      [simpl in Hi; try discriminate Hi; injection Hi as <-; rewrite list_lookup_insert_ne by lia;
       first [apply (Hm 0%nat); lia|apply (Hm 1%nat); lia|apply (Hm 2%nat); lia|apply (Hm 3%nat); lia|
         apply (R0 0%nat); lia|apply (R1 0%nat); lia|apply (R2 0%nat); lia|apply (R3 0%nat); lia|
         apply (R0 1%nat); lia|apply (R1 1%nat); lia|apply (R2 1%nat); lia|apply (R3 1%nat); lia|
         apply (R0 2%nat); lia|apply (R1 2%nat); lia|apply (R2 2%nat); lia|apply (R3 2%nat); lia|
         apply (R0 3%nat); lia|apply (R1 3%nat); lia|apply (R2 3%nat); lia|apply (R3 3%nat); lia]|]); discriminate Hi.
  - assert (length (subs (rows a cols)) = Z.to_nat (5 * a)) as ->.
    { destruct cols as [|c0 [|c1 [|c2 [|c3 [|]]]]]; try done.
      assert (a = 1 ∨ a = 2 ∨ a = 3 ∨ a = 4) as Ha' by lia. by destruct Ha' as [-> | [-> | [-> | ->] ] ]. }
    apply list_lookup_insert_eq. lia.
Qed.

Lemma word_sum (f g : Z * Z * Z * Z → Z) cols :
  word ((λ c, f c + g c) <$> cols) = word (f <$> cols) + word (g <$> cols).
Proof.
  assert (∀ x l, word (x :: l) = x + 256 * word l) as Hw by done.
  induction cols as [|c cols IH]; [done|]. rewrite !fmap_cons, !Hw, IH. lia.
Qed.

(** The unused words are made of [junk]. *)
Lemma rows_total X a cols :
  1 ≤ a ≤ 4 → length cols = 4%nat → Forall (col_ok X a) cols →
  word (csum <$> cols) = total (rows a cols) + (4 - a) * (junk * 0x01010101).
Proof.
  intros Ha Hlen Hok.
  assert (∀ b, (Z.to_nat a ≤ b < 4)%nat → word (sel b <$> cols) = junk * 0x01010101) as Hj.
  { intros b Hb. assert (sel b <$> cols = replicate 4 junk) as ->; [|unfold word; simpl; lia].
    rewrite <-Hlen. clear Hlen. induction Hok as [|[[[x0 x1] x2] x3] cols (H0 & H1 & H2 & H3) _ IH]; [done|].
    cbn [fmap list_fmap length replicate]. f_equal; [|exact IH].
    destruct b as [|[|[|[|b]]]]; [lia|rewrite (proj2 (Z.leb_gt 2 a)) in H1 by lia; done|
      rewrite (proj2 (Z.leb_gt 3 a)) in H2 by lia; done|rewrite (proj2 (Z.leb_gt 4 a)) in H3 by lia; done|lia]. }
  assert (word (csum <$> cols) = word (sel 0 <$> cols) + word (sel 1 <$> cols) + word (sel 2 <$> cols) + word (sel 3 <$> cols)) as ->.
  { rewrite <-!word_sum. f_equal. apply list_fmap_ext. by intros i [[[x0 x1] x2] x3] _. }
  unfold total, rows. assert (a = 1 ∨ a = 2 ∨ a = 3 ∨ a = 4) as Ha' by lia.
  destruct Ha' as [-> | [-> | [-> | ->] ] ]; [change (seq 0 (Z.to_nat 1)) with [0%nat]|change (seq 0 (Z.to_nat 2)) with [0; 1]%nat
    |change (seq 0 (Z.to_nat 3)) with [0; 1; 2]%nat|change (seq 0 (Z.to_nat 4)) with [0; 1; 2; 3]%nat];
    rewrite !fmap_cons, fmap_nil; cbn [foldr]; rewrite ?(Hj 1%nat), ?(Hj 2%nat), ?(Hj 3%nat) by lia; lia.
Qed.

(** ** [gen_loop] *)
Definition marked (P : arr) : Prop := length P = 21%nat ∧ ∀ b, (b < 4)%nat → P !! (5 * b)%nat = Some (Some 45).

(** What [gen] leaves: the text of words that, with the junk, make up the
    difference. *)
Definition gen_post (X : list Z) (t l : Z) (txt : list Z) : Prop :=
  ∃ ws, txt = subs ws ∧ (1 ≤ length ws ≤ 4)%nat ∧ Forall (λ w, length w = 4%nat ∧ Forall (λ x, x ∈ X) w) ws ∧
    ∃ c, t + total ws + (4 - Z.of_nat (length ws)) * (junk * 0x01010101) = l + 2 ^ 32 * c.

Lemma gen_loop_ok X p q r s_ as_ bytes : ∀ flag s,
  chars X → index_ok X p → index_ok X q → index_ok X r → index_ok X s_ →
  Forall (λ a, 1 ≤ a ≤ 4) as_ → length bytes = 4%nat → Forall byte_pair bytes →
  mem s = X → marked (pr s) → flag ≠ 4 →
  runs (gen_loop junk as_ p q r s_ bytes flag) s (λ flag' s',
    mem s' = X ∧ nfry s' = nfry s ∧ length (pr s') = 21%nat ∧
    (flag' = 4 → ∃ txt, c_string (pr s') = Ok txt ∧ gen_post X (word bytes.*1) (word bytes.*2) txt) ∧
    (covers X → 4 ∈ as_ → flag' = 4)).
Proof.
  induction as_ as [|a as_ IH]; intros flag s HX Hp Hq Hr Hs Has Hlb Hby Hm [Hl Hmk] Hf; cbn [gen_loop].
  { apply runs_ret. split_and!; [done..|by intros _ ?%not_elem_of_nil]. }
  apply Forall_cons in Has as [Ha Has]. apply runs_bind.
  eapply runs_mono; [apply (pass_ok X p q r s_ a bytes 0 0 0 s); done || lia|].
  intros flag1 s1 (M1 & N1 & L1 & F1 & Fr1 & Found1 & Cov1). rewrite Hlb in *. simpl in Found1, Cov1.
  assert (marked (pr s1)) as [_ Hmk1].
  { split; [done|]. intros b Hb. rewrite Fr1; [by apply Hmk|]. intros b' y _ Hy. unfold pos. lia. }
  destruct (Z.eqb_spec flag1 4) as [->|Hne].
  - destruct (Found1 eq_refl) as (cols & Hlc & Hok & (c & Hw) & Hrows). rewrite Hlb in *.
    apply runs_bind, runs_wr_pr; [lia|]. apply runs_ret. simpl.
    split_and!; [congruence|done|by rewrite length_insert| |done]. intros _.
    exists (subs (rows a cols)). split; [by apply (rows_text X)|]. exists (rows a cols). split; [done|].
    assert (length (rows a cols) = Z.to_nat a) as Hlr by (unfold rows; by rewrite length_fmap, length_seq).
    split; [lia|]. split; [by apply rows_in|]. exists c. rewrite Hlr, Z2Nat.id by lia.
    pose proof (rows_total X a cols Ha Hlc Hok) as Ht. change (256 ^ Z.of_nat 4) with (2 ^ 32) in Hw. lia.
  - eapply runs_mono; [apply (IH flag1 s1); done || congruence|]. intros flag' s' (M' & N' & L' & F' & C').
    split_and!; [done|congruence|done|done|]. intros Hcov [<-|Hin]%elem_of_cons; [|auto].
    exfalso. apply Hne, Cov1; [done|lia].
Qed.

(** ** [gen] *)
Lemma bytes4_facts w : 0 ≤ w < 2 ^ 32 → word (bytes4 w) = w ∧ Forall is_byte (bytes4 w).
Proof.
  intros Hw. assert (bytes4 w = [w mod 256; w / 2 ^ 8 mod 256; w / 2 ^ 16 mod 256; w / 2 ^ 24 mod 256]) as ->.
  { unfold bytes4. change 0x000000ff with (Z.ones 8). change 0x0000ff00 with (Z.shiftl (Z.ones 8) 8).
    change 0x00ff0000 with (Z.shiftl (Z.ones 8) 16). change 0xff000000 with (Z.shiftl (Z.ones 8) 24).
    rewrite !Z.shiftr_land, !Z.shiftr_shiftl_l by lia. rewrite !Z.sub_diag, !Z.shiftl_0_r.
    rewrite !Z.land_ones, !Z.shiftr_div_pow2 by lia. done. }
  split; [by apply word_div|]. repeat constructor; apply Z.mod_pos_bound; lia.
Qed.

Context (fry : nat → list Z → list Z) (Hfry : ∀ i t, fry i t ≡ₚ t).
Context (X0 : list Z) (HX0 : chars X0) (HX125 : (length X0 ≤ 125)%nat).

(** The character set in some order. *)
Definition ready (s : gst) : Prop := mem s ≡ₚ X0 ∧ length (pr s) = 21%nat.

Lemma ready_chars s : ready s → chars (mem s) ∧ length (mem s) = length X0.
Proof. intros [Hp _]. split; [unfold chars; by rewrite Hp|by rewrite Hp]. Qed.

Lemma covers_perm X : X ≡ₚ X0 → covers X0 → covers X.
Proof.
  intros Hp Hc v Hv. destruct (Hc v Hv) as (x0 & x1 & x2 & x3 & ?). exists x0, x1, x2, x3. by rewrite !Hp.
Qed.

Lemma strfry_mem_runs s (Q : unit → gst → Prop) :
  ready s → (∀ s', ready s' → Q tt s') → runs (strfry_mem fry) s Q.
Proof.
  intros [Hm Hl] HQ. unfold strfry_mem, strfry. apply runs_bind, runs_gets, runs_bind.
  apply runs_bind, runs_gets, runs_bind, runs_modify, runs_ret, runs_modify. apply HQ.
  split; [|done]. simpl. by rewrite Hfry.
Qed.

Lemma index_array_runs s (Q : list Z → gst → Prop) :
  ready s → (∀ p n, index_ok (mem s) p → Q p (GSt (mem s) (pr s) n)) →
  runs (index_array fry (Z.of_nat (length (mem s)))) s Q.
Proof.
  intros Hs HQ. unfold index_array, strfry. apply runs_bind, runs_bind, runs_gets, runs_bind, runs_modify, runs_ret, runs_ret.
  apply HQ, index_perm; [apply Hfry|]. by destruct (ready_chars s Hs) as [_ ->].
Qed.

Definition answer (t l : Z) (txt : list Z) (s : gst) : Prop := ready s ∧ gen_post X0 t l txt.

Lemma gen_ok strict t l s :
  ready s → 0 ≤ t < 2 ^ 32 → 0 ≤ l < 2 ^ 32 → (strict = true → covers X0) →
  okx strict (gen fry junk t l) s (answer t l).
Proof.
  intros Hs Ht Hl Hcov. destruct (ready_chars s Hs) as [HX Hlen]. pose proof Hs as [Hp Hpr].
  unfold gen. apply okx_bind, okx_gets. unfold MAX_CHR. rewrite (proj2 (Z.ltb_ge 128 (Z.of_nat (length (mem s)) + 2))) by lia.
  assert (∀ n, ready (GSt (mem s) (pr s) n)) as Hready by done.
  apply okx_bind, okx_runs, index_array_runs; [done|]. intros p n1 Ip.
  apply okx_bind, okx_runs, (index_array_runs (GSt (mem s) (pr s) n1)); [done|]. intros q n2 Iq.
  apply okx_bind, okx_runs, (index_array_runs (GSt (mem s) (pr s) n2)); [done|]. intros r n3 Ir.
  apply okx_bind, okx_runs, (index_array_runs (GSt (mem s) (pr s) n3)); [done|]. intros s_ n4 Is. cbn [mem pr].
  do 4 (apply okx_bind, okx_runs, runs_wr_pr; [simpl; rewrite ?length_insert; lia|]).
  set (s1 := set_pr _ _). assert (marked (pr s1)) as Hmk.
  { unfold s1. simpl. split; [by rewrite !length_insert|]. intros b Hb.
    rewrite !list_lookup_insert, !length_insert, Hpr. repeat case_decide; try done. lia. }
  destruct (bytes4_facts t Ht) as [Et Bt], (bytes4_facts l Hl) as [El Bl].
  destruct (gen_loop_ok (mem s) p q r s_ [1; 2; 3; 4] (zip (bytes4 t) (bytes4 l)) 0 s1) as (flag & s2 & E & M2 & N2 & L2 & F2 & C2);
    [done..|repeat constructor; lia|done| |done|done|done|].
  { repeat (apply Forall_cons in Bt as [? Bt]; apply Forall_cons in Bl as [? Bl]). repeat constructor; simpl; unfold is_byte in *; lia. }
  apply okx_bind. unfold okx at 1. rewrite E. rewrite fst_zip, snd_zip, Et, El in F2 by done.
  destruct (Z.eqb_spec flag 4) as [->|Hne]; cbn [negb].
  - apply okx_bind, okx_gets. destruct (F2 eq_refl) as (txt & Etxt & ws & -> & Hws & Hin & Hc).
    eapply okx_lift; [exact Etxt|]. split; [split; [by rewrite M2|done]|]. exists ws. split_and!; [done|lia|lia| |done].
    eapply Forall_impl; [exact Hin|]. intros w [Hw Hx]. split; [done|]. eapply Forall_impl; [exact Hx|].
    intros x Hx0. by rewrite <-Hp.
  - apply okx_exit. destruct strict; [|done]. exfalso. apply Hne, C2; [|by apply (bool_decide_unpack _)].
    apply (covers_perm _ Hp). by apply Hcov.
Qed.

(** ** The header *)

(** Two characters of the set that AND to zero. *)
Definition can_clear (X : list Z) : Prop := ∃ x y, x ∈ X ∧ y ∈ X ∧ Z.land x y = 0.

Lemma land_char x y : 0 ≤ x < 128 → Z.land (Z.land x y) 0xff = Z.land x y.
Proof.
  intros Hx. rewrite <-Z.land_assoc, (Z.land_comm y), Z.land_assoc. change 0xff with (Z.ones 8).
  rewrite Z.land_ones by lia. by rewrite Z.mod_small by lia.
Qed.

Lemma and_pair_ok X : chars X →
  match and_pair X with
  | Some (x, y) => x ∈ X ∧ y ∈ X ∧ Z.land x y = 0
  | None => ¬ can_clear X
  end.
Proof.
  intros HX. unfold chars in HX. rewrite Forall_forall in HX. unfold and_pair.
  set (f x := y ← head (filter (λ y, Z.land (Z.land x y) 0xff = 0) (reverse X)); Some (x, y)).
  assert (∀ x p, f x = Some p → p.1 = x ∧ p.2 ∈ X ∧ Z.land (Z.land x p.2) 0xff = 0) as Hf.
  { intros x p. unfold f. destruct (filter _ (reverse X)) as [|y l] eqn:E; [done|]. intros [= <-]. simpl.
    assert (y ∈ filter (λ y, Z.land (Z.land x y) 0xff = 0) (reverse X)) as [Hy Hin]%list_elem_of_filter by (rewrite E; set_solver).
    by rewrite elem_of_reverse in Hin. }
  destruct (omap f X) as [|[x y] l] eqn:E; simpl.
  - intros (x & y & Hx & Hy & Hz).
    assert (is_Some (f x)) as [p Hp].
    { unfold f. assert (y ∈ filter (λ y, Z.land (Z.land x y) 0xff = 0) (reverse X)) as Hin.
      { apply list_elem_of_filter. rewrite elem_of_reverse. split; [|done].
        rewrite land_char; [done|specialize (HX x Hx); lia]. }
      destruct (filter _ (reverse X)); [by apply not_elem_of_nil in Hin|]. by eexists. }
    assert (p ∈ omap f X) as Hin by (apply list_elem_of_omap; by exists x). rewrite E in Hin. by apply not_elem_of_nil in Hin.
  - assert ((x, y) ∈ omap f X) as (x' & Hx' & Hxy)%list_elem_of_omap by (rewrite E; set_solver).
    apply Hf in Hxy as (<- & Hy & Hz). simpl in *. rewrite land_char in Hz; [done|specialize (HX _ Hx'); lia].
Qed.

Definition pair_ok (p : Z * Z) : Prop := p.1 ∈ X0 ∧ p.2 ∈ X0 ∧ Z.land p.1 p.2 = 0.

Lemma header_loop_ok n : ∀ s, ready s →
  runs (header_loop fry n) s (λ l s', ready s' ∧ Forall pair_ok l ∧ (can_clear X0 → length l = n)).
Proof.
  induction n as [|n IH]; intros s Hs; cbn [header_loop]; [by apply runs_ret|].
  apply runs_bind, strfry_mem_runs; [done|]. intros s1 Hs1. apply runs_bind, runs_gets, runs_bind.
  destruct (ready_chars s1 Hs1) as [HX _]. pose proof (and_pair_ok (mem s1) HX) as Hp. pose proof Hs1 as [Hm _].
  eapply runs_mono; [by apply IH|]. intros l s2 (Hs2 & Hl & Hc). apply runs_ret. split; [done|].
  destruct (and_pair (mem s1)) as [[x y]|]; simpl.
  - destruct Hp as (Hx & Hy & Hz). rewrite Hm in Hx, Hy. split; [by constructor|]. intros H. f_equal. auto.
  - split; [done|]. intros (x & y & Hx & Hy & Hz). exfalso. apply Hp. exists x, y. by rewrite !Hm.
Qed.

Lemma land_step a b A B : 0 ≤ a < 256 → 0 ≤ b < 256 → Z.land a b = 0 → Z.land A B = 0 →
  Z.land (a + 256 * A) (b + 256 * B) = 0.
Proof.
  intros Ha Hb Hab HAB. apply Z.bits_inj'. intros n Hn. rewrite Z.land_spec, Z.bits_0.
  assert (∀ x Y, 0 ≤ x < 256 → Z.testbit (x + 256 * Y) n = if n <? 8 then Z.testbit x n else Z.testbit Y (n - 8)) as Ht.
  { intros x Y Hx. destruct (Z.ltb_spec n 8).
    - rewrite <-(Z.mod_pow2_bits_low (x + 256 * Y) 8 n) by lia. change (2 ^ 8) with 256.
      by rewrite Z.mul_comm, Z.mod_add, Z.mod_small by lia.
    - replace n with (n - 8 + 8) at 1 by lia. rewrite <-Z.div_pow2_bits by lia. change (2 ^ 8) with 256.
      by rewrite Z.mul_comm, Z.div_add, Z.div_small by lia. }
  rewrite !Ht by done. destruct (n <? 8).
  - by rewrite <-Z.land_spec, Hab, Z.bits_0.
  - by rewrite <-Z.land_spec, HAB, Z.bits_0.
Qed.

(** The head of the program: the two ANDs, and what [gen] makes of zero. *)
Definition head_text (l : list (Z * Z)) (txt : list Z) : list Z := 37 :: l.*1 ++ 37 :: l.*2 ++ txt ++ [80; 92].

Lemma exec_head l txt base v c :
  length l = 4%nat → Forall pair_ok l → junk = 0 → gen_post X0 base 0 txt → 0 ≤ base < 2 ^ 32 →
  exec (head_text l txt ++ v) c = exec v (Cpu base base (store4 (u32 (esp c - 4)) base (ram c))).
Proof.
  intros Hl Hp Hj (ws & -> & _ & Hws & (k & Hk)) Hb.
  destruct l as [|[a0 b0] [|[a1 b1] [|[a2 b2] [|[a3 b3] [|]]]]]; try done.
  repeat (apply Forall_cons in Hp as [(? & ? & ?) Hp]). clear Hp. simpl in *.
  unfold chars in HX0. rewrite Forall_forall in HX0.
  assert (Z.land (Z.land (eax c) (word [a0; a1; a2; a3])) (word [b0; b1; b2; b3]) = 0) as Hz.
  { rewrite <-Z.land_assoc. replace (Z.land (word [a0; a1; a2; a3]) (word [b0; b1; b2; b3])) with 0; [by rewrite Z.land_0_r|].
    symmetry. unfold word. cbn [foldr].
    repeat match goal with H : ?x ∈ X0 |- _ => pose proof (HX0 _ H); clear H end.
    repeat (apply land_step; [lia..|done|]). done. }
  unfold head_text. cbn [fmap list_fmap app fst snd]. cbn [exec Z.eqb Pos.eqb]. cbn [eax esp ram].
  unfold word in Hz. cbn [foldr] in Hz. rewrite Hz, <-(assoc_L (++)). rewrite exec_subs; [|by eapply Forall_impl; [exact Hws|intros ? []]|done].
  cbn [eax esp ram app]. cbn [exec Z.eqb Pos.eqb]. unfold push_eax, pop_esp. cbn [eax esp ram].
  assert (u32 (0 - total ws) = base) as ->.
  { rewrite Hj in Hk. rewrite <-(u32_id base Hb). unfold u32.
    replace (0 - total ws) with (base + (- k) * 2 ^ 32) by lia. by rewrite Z.mod_add by lia. }
  by rewrite load_store.
Qed.

(** ** The body *)

(** Code without zero bytes. *)
Definition code_ok (code : list Z) : Prop := Forall (λ x, 0 < x < 256) code.
(** The characters of the set and % - P \. *)
Definition printable (t : list Z) : Prop := Forall (λ x, x ∈ X0 ∨ x ∈ [37; 45; 80; 92]) t.

Fixpoint word_values (m : nat) (k : Z) (code : list Z) : list Z :=
  match m with O => [] | S m => word (take 4 (drop (Z.to_nat k) code)) :: word_values m (k - 4) code end.

Lemma before_nul_id t : 0 ∉ t → before_nul t = t.
Proof.
  induction t as [|c t IH]; [done|]. rewrite not_elem_of_cons. intros [Hc Ht]. simpl.
  rewrite (proj2 (Z.eqb_neq c 0)) by done. by rewrite IH.
Qed.

Lemma four_bytes code k : code_ok code → 0 ≤ k → k + 4 ≤ Z.of_nat (length code) →
  ∃ b0 b1 b2 b3, take 4 (drop (Z.to_nat k) code) = [b0; b1; b2; b3] ∧ Forall (λ x, 0 < x < 256) [b0; b1; b2; b3].
Proof.
  intros Hc Hk Hl. assert (length (take 4 (drop (Z.to_nat k) code)) = 4%nat) as Hlen by (rewrite length_take, length_drop; lia).
  assert (Forall (λ x, 0 < x < 256) (take 4 (drop (Z.to_nat k) code))) as Hf by by apply Forall_take, Forall_drop.
  destruct (take 4 _) as [|b0 [|b1 [|b2 [|b3 [|]]]]]; try done. by exists b0, b1, b2, b3.
Qed.

Lemma scan4_ok code k next : code_ok code → 0 ≤ k → k + 4 ≤ Z.of_nat (length code) →
  scan4 code k next = word (take 4 (drop (Z.to_nat k) code)) ∧ 0 ≤ scan4 code k next < 2 ^ 32.
Proof.
  intros Hc Hk Hl. destruct (four_bytes code k Hc Hk Hl) as (b0 & b1 & b2 & b3 & E & Hf). unfold scan4. rewrite E.
  rewrite before_nul_id.
  - simpl length. change (drop 4 (bytes4 next)) with (@nil Z). rewrite app_nil_r. split; [done|].
    repeat (apply Forall_cons in Hf as [? Hf]). unfold word. cbn [foldr]. lia.
  - repeat (apply Forall_cons in Hf as [? Hf]). rewrite !not_elem_of_cons. split_and!; [lia..|apply not_elem_of_nil].
Qed.

Lemma subs_length ws : Forall (λ w, length w = 4%nat ∧ Forall (λ x, x ∈ X0) w) ws → length (subs ws) = (5 * length ws)%nat.
Proof.
  induction 1 as [|w ws [Hw _] _ IH]; [done|]. change (subs (w :: ws)) with (45 :: w ++ subs ws).
  simpl. rewrite length_app. lia.
Qed.
Lemma subs_printable ws : Forall (λ w, length w = 4%nat ∧ Forall (λ x, x ∈ X0) w) ws → printable (subs ws).
Proof.
  induction 1 as [|w ws [_ Hw] _ IH]; [constructor|]. change (subs (w :: ws)) with (45 :: w ++ subs ws).
  apply Forall_cons. split; [right; set_solver|]. apply Forall_app. split; [|done].
  eapply Forall_impl; [exact Hw|auto].
Qed.

Context (Hjunk0 : junk = 0).

(** Executing what [gen] made. *)
Lemma exec_gen t l txt v c : gen_post X0 t l txt → 0 ≤ t < 2 ^ 32 → eax c = l → 0 ≤ l < 2 ^ 32 →
  exec (txt ++ v) c = exec v (Cpu t (esp c) (ram c)).
Proof.
  intros (ws & -> & _ & Hws & (k & Hk)) Ht He Hl. rewrite exec_subs; [|by eapply Forall_impl; [exact Hws|intros ? []]|].
  - do 2 f_equal. rewrite <-(u32_id t Ht), He. unfold u32. rewrite Hjunk0 in Hk.
    replace (l - total ws) with (t + (- k) * 2 ^ 32) by lia. by rewrite Z.mod_add by lia.
  - rewrite He. by apply u32_id.
Qed.

Lemma gen_post_facts t l txt : gen_post X0 t l txt → 0 ∉ txt ∧ (length txt ≤ 20)%nat ∧ printable txt.
Proof.
  intros (ws & -> & Hn & Hws & _). split; [by eapply subs_no_nul|]. rewrite subs_length by done.
  split; [lia|by apply subs_printable].
Qed.

Lemma words_ok strict ninja code m : ∀ fuel k last next body bt s,
  (strict = true → covers X0) → ready s → code_ok code → 0 ≤ ninja →
  k - 4 * Z.of_nat m < ninja → ((0 < m)%nat → ninja ≤ k - 4 * (Z.of_nat m - 1)) → k + 4 ≤ Z.of_nat (length code) →
  (m ≤ fuel)%nat → holds body bt → (length bt + 21 * m < length body)%nat → 0 ≤ last < 2 ^ 32 →
  okx strict (words fry junk fuel ninja k code last next body) s (λ '(body', last', _) s',
    ready s' ∧ 0 ≤ last' < 2 ^ 32 ∧ length body' = length body ∧ ∃ txt, holds body' (bt ++ txt) ∧ (length txt ≤ 21 * m)%nat ∧
    printable txt ∧ ∀ c v, eax c = last → exec (txt ++ v) c = exec v (foldl push c (word_values m k code))).
Proof.
  induction m as [|m IH]; intros fuel k last next body bt s Hcov Hs Hc Hn Hk1 Hk2 Hk3 Hf Hb Hlen Hl.
  - destruct fuel; cbn [words]; rewrite (proj2 (Z.ltb_lt k ninja)) by lia; apply okx_ret;
      (split_and!; [done|lia|lia|done|]); exists []; rewrite app_nil_r; (split_and!; [done|simpl; lia|constructor|done]).
  - destruct fuel as [|fuel]; [lia|]. specialize (Hk2 ltac:(lia)). cbn [words]. rewrite (proj2 (Z.ltb_ge k ninja)) by lia.
    destruct (scan4_ok code k next Hc ltac:(lia) Hk3) as [Es Hr].
    apply okx_bind, okx_runs, strfry_mem_runs; [done|]. intros s1 Hs1.
    apply okx_bind. eapply okx_mono; [by apply gen_ok|]. intros g s2 [Hs2 Hg].
    destruct (gen_post_facts _ _ _ Hg) as (Hg0 & Hgl & Hgp).
    destruct (holds_strcat body bt 0 g Hb) as (b1 & E1 & Hb1 & Hl1); [lia|done|lia|].
    apply okx_bind. eapply okx_lift; [exact E1|].
    destruct (holds_strcat b1 (bt ++ g) 0 [80] Hb1) as (b2 & E2 & Hb2 & Hl2); [lia| |rewrite length_app; simpl; lia|].
    { rewrite not_elem_of_cons. split; [done|apply not_elem_of_nil]. }
    apply okx_bind. eapply okx_lift; [exact E2|].
    eapply okx_mono; [eapply (IH fuel (k - 4) _ _ b2 ((bt ++ g) ++ [80])); try done; try lia|].
    { rewrite !length_app. simpl. lia. }
    intros [[body' last'] next'] s3 (Hs3 & Hl3 & Hlb3 & txt & Ht & Htl & Htp & Hx). split_and!; [done|lia|lia|lia|].
    exists (g ++ [80] ++ txt). rewrite <-!(assoc_L (++)) in Ht. split_and!; [done|rewrite !length_app; simpl; lia| |].
    + apply Forall_app. split; [done|]. apply Forall_cons. split; [right; set_solver|done].
    + intros c v He. rewrite <-!(assoc_L (++)). rewrite (exec_gen _ _ _ _ _ Hg Hr He Hl).
      cbn [app exec Z.eqb Pos.eqb]. rewrite Hx by (simpl; done). cbn [word_values foldl].
      unfold push at 2. by rewrite Es.
Qed.

(** ** From [magic] on *)
Lemma holds_zeroed n (body : arr) : (0 < n)%nat → holds (replicate n (Some 0) ++ drop n body) [].
Proof. intros Hn. destruct n; [lia|]. split; [apply not_elem_of_nil|]. by eexists. Qed.

Lemma pairs_printable l : Forall pair_ok l → printable l.*1 ∧ printable l.*2.
Proof. induction 1 as [|[x y] l (Hx & Hy & _) _ [IH1 IH2] ]; split; simpl; constructor; auto. Qed.

Lemma printable_no_nul t : printable t → 0 ∉ t.
Proof.
  intros Ht Hin. unfold printable in Ht. rewrite Forall_forall in Ht. unfold chars in HX0. rewrite Forall_forall in HX0.
  destruct (Ht 0 Hin) as [H0|H0]; [specialize (HX0 0 H0); lia|]. revert H0. by apply (bool_decide_unpack _).
Qed.

Lemma head_text_facts l txt : length l = 4%nat → Forall pair_ok l → printable txt →
  printable (head_text l txt) ∧ length (head_text l txt) = (12 + length txt)%nat.
Proof.
  intros Hl Hp Ht. destruct (pairs_printable l Hp) as [H1 H2]. unfold head_text, printable in *. split.
  - apply Forall_cons. split; [right; set_solver|]. apply Forall_app. split; [done|].
    apply Forall_cons. split; [right; set_solver|]. apply Forall_app. split; [done|]. apply Forall_app. split; [done|].
    repeat (apply Forall_cons; split; [right; set_solver|]). constructor.
  - simpl. rewrite length_app, length_fmap. simpl. rewrite length_app, length_fmap, length_app. simpl. lia.
Qed.

(** The first ten characters of the head. *)
Definition head_ok (l : list (Z * Z)) (head : arr) : Prop :=
  length head = 38%nat ∧ take 10 head = ints (37 :: l.*1 ++ 37 :: l.*2).

Lemma head_written l head txt :
  length l = 4%nat → Forall pair_ok l → head_ok l head → printable txt → (length txt ≤ 20)%nat →
  ∃ head', wr_str head 10 (txt ++ [80; 92]) = Ok head' ∧ head_ok l head' ∧ holds head' (head_text l txt).
Proof.
  intros Hl Hp [Hlen Htk] Ht Hn. destruct (head_text_facts l txt Hl Hp Ht) as [Hpr _].
  pose proof (wr_str_ok head 10 (txt ++ [80; 92]) ltac:(rewrite length_app; simpl; lia)) as E.
  eexists. split; [exact E|]. split; [split|split].
  - rewrite (wr_str_length _ _ _ _ E). done.
  - rewrite take_app_le by (rewrite length_take; lia). by rewrite take_take.
  - by apply printable_no_nul.
  - eexists. rewrite Htk, (assoc_L (++)), <-ints_app. do 2 f_equal. unfold head_text. simpl. by rewrite <-(assoc_L (++)).
Qed.

(** What [magic] returns: a program that pushes the words onto [base]. *)
Definition program (m : nat) (n : Z) (code : list Z) (base : Z) (h b : list Z) : Prop :=
  printable (h ++ b) ∧ 0 ≤ base < 2 ^ 32 ∧
  ∀ c v, exec (h ++ b ++ v) c =
    exec v (foldl push (Cpu base base (store4 (u32 (esp c - 4)) base (ram c))) (word_values m (n - 4) code)).

Lemma magic_ok strict o norm n code m l : ∀ fuel last len j head body s,
  (strict = true → covers X0) → ready s → code_ok code → Z.of_nat (length code) = n → 0 < n →
  length l = 4%nat → Forall pair_ok l → head_ok l head →
  0 ≤ ninja o → n - 4 - 4 * Z.of_nat m < ninja o → ((0 < m)%nat → ninja o ≤ n - 4 * Z.of_nat m) →
  Z.of_nat m ≤ n → 21 * Z.of_nat m < 6 * n → Z.of_nat (length body) = 6 * n → 0 ≤ last < 2 ^ 32 →
  0 ≤ j ≤ 12 ∧ 14 - j ≤ Z.of_nat fuel ∨ j = 56 ∧ 1 ≤ Z.of_nat fuel →
  okx strict (magic fry junk fuel o norm n code last 0 len j head body) s (λ '(h, b, opt) _,
    ∃ base, program m n code base h b ∧ (ninja o = 0 → base = last)).
Proof.
  induction fuel as [|fuel IH]; intros last len j head body s Hcov Hs Hc Hn Hn0 Hl Hp Hh Hnj Hk1 Hk2 Hm1 Hm2 Hb Hlast Hf; [lia|].
  cbn [magic]. apply okx_bind, okx_runs, strfry_mem_runs; [done|]. intros s1 Hs1.
  apply okx_bind. eapply okx_mono; [apply gen_ok; [done|done|lia|done]|]. intros g s2 [Hs2 Hg].
  destruct (gen_post_facts _ _ _ Hg) as (Hg0 & Hgl & Hgp).
  destruct (head_written l head g Hl Hp Hh Hgp Hgl) as (head' & E & Hh' & Hht).
  apply okx_bind. eapply okx_lift; [exact E|].
  set (body0 := replicate (Z.to_nat (n * 5)) (Some 0) ++ drop (Z.to_nat (n * 5)) body).
  assert (length body0 = length body) as Hlb by (unfold body0; rewrite length_app, length_replicate, length_drop; lia).
  apply okx_bind. eapply okx_mono.
  { apply (words_ok strict (ninja o) code m (Z.to_nat n) (n - 4) last 0 body0 []); try done; try lia.
    - apply holds_zeroed. lia.
    - rewrite Hlb. simpl. lia. }
  intros [[body' last'] next'] s3 (Hs3 & Hl3 & Hlb3 & txt & Ht & Htl & Htp & Hx).
  apply okx_bind. eapply okx_lift; [by apply holds_c_string|]. apply okx_bind. eapply okx_lift; [by apply holds_c_string|].
  simpl app. set (opt := Z.of_nat (length (head_text l g)) + Z.of_nat (length txt)).
  assert (program m n code last (head_text l g) txt) as Hprog.
  { split; [apply Forall_app; split; [by apply head_text_facts|done]|]. split; [done|]. intros c v.
    rewrite (exec_head l g last (txt ++ v) c Hl Hp Hjunk0 Hg Hlast). by apply Hx. }
  destruct (_ && _ && _) eqn:Eg; [|apply okx_ret; by exists last].
  destruct (_ && (opt <? len)); [apply okx_ret; by exists last|].
  apply andb_true_iff in Eg as [ [_ Hj%Z.ltb_lt]%andb_true_iff Hnz%negb_true_iff%Z.eqb_neq].
  eapply okx_mono; [apply (IH _ opt); try done; try lia|].
  - destruct (size o =? 0); apply u32_range.
  - destruct (Z.ltb_spec 12 (j + 1)); lia.
  - intros [[h b] opt'] s4 (base & Hpr & _). exists base. split; [done|lia].
Qed.

(** ** [main] *)
Lemma header_ok strict s : ready s → (strict = true → can_clear X0) →
  okx strict (header fry) s (λ head s', ready s' ∧ ∃ l, length l = 4%nat ∧ Forall pair_ok l ∧ head_ok l head).
Proof.
  intros Hs Hc. unfold header. apply okx_bind, okx_runs. eapply runs_mono; [by apply header_loop_ok|].
  intros l s' (Hs' & Hp & Hl). destruct (Z.eqb_spec (37 + Z.of_nat (length l)) 41) as [E|E]; simpl negb.
  - apply okx_ret. split; [done|]. exists l. split_and!; [lia|done|].
    split; destruct l as [|? [|? [|? [|? [|]]]]]; simpl in E; try lia; done.
  - apply okx_exit. destruct strict; [|done]. rewrite Hl in E by auto. lia.
Qed.

(** The code in memory, behind the NOPs, and the first byte that is pushed. *)
Definition loaded (bytecode : list Z) : list Z :=
  replicate (Z.to_nat (Z.of_nat (length bytecode) mod 4 + 4)) 0x90 ++ bytecode.
Definition first_pushed (o : opts) (n : Z) : Z := ninja o + n mod 4.

(** The printable programs [h] and [b], in this order, push the code from the
    first byte on under [base], and leave the rest of the memory alone, but for
    the word below the stack pointer that they start with. *)
Definition builds (o : opts) (bytecode h b : list Z) : Prop :=
  let code := loaded bytecode in
  let n := Z.of_nat (length code) in
  printable (h ++ b) ∧
  ∃ base, 0 ≤ base < 2 ^ 32 ∧
    (ninja o = 0 → base = if targ o =? 0 then 0xbfffffe0 else u32 (targ o + 20 + n * 5)) ∧
    ∀ c, ∃ c', exec (h ++ b) c = Some c' ∧ esp c' = u32 (base - (n - first_pushed o n)) ∧
      (∀ i x, first_pushed o n ≤ Z.of_nat i → code !! i = Some x → ram c' (u32 (base - n + Z.of_nat i)) = x) ∧
      (∀ a, 0 ≤ a < 2 ^ 32 → (∀ i, 1 ≤ i ≤ n - first_pushed o n → a ≠ u32 (base - i)) →
         (∀ i, 1 ≤ i ≤ 4 → a ≠ u32 (esp c - i)) → ram c' a = ram c a).

Lemma word_values_lookup m : ∀ k code i, (i < m)%nat →
  word_values m k code !! i = Some (word (take 4 (drop (Z.to_nat (k - 4 * Z.of_nat i)) code))).
Proof.
  induction m as [|m IH]; intros k code i Hi; [lia|]. destruct i as [|i]; cbn [word_values].
  - cbn [lookup list_lookup]. repeat f_equal. lia.
  - cbn [lookup list_lookup]. rewrite IH by lia. do 5 f_equal. lia.
Qed.
Lemma word_values_length m : ∀ k code, length (word_values m k code) = m.
Proof. induction m; intros; simpl; auto. Qed.

Lemma word_byte code k b x : code_ok code → 0 ≤ k → k + 4 ≤ Z.of_nat (length code) → 0 ≤ b < 4 →
  code !! Z.to_nat (k + b) = Some x → word (take 4 (drop (Z.to_nat k) code)) / 2 ^ (8 * b) mod 256 = x.
Proof.
  intros Hc Hk Hl Hb Hx. destruct (four_bytes code k Hc Hk Hl) as (b0 & b1 & b2 & b3 & E & Hf).
  assert ([b0; b1; b2; b3] !! Z.to_nat b = Some x) as Hx'.
  { rewrite <-E, lookup_take_lt by lia. rewrite lookup_drop, <-Hx. f_equal. lia. }
  rewrite E. repeat (apply Forall_cons in Hf as [? Hf]). unfold word. cbn [foldr].
  assert (b = 0 ∨ b = 1 ∨ b = 2 ∨ b = 3) as Hb' by lia.
  assert (∀ y z, 0 ≤ y < 256 → (y + 256 * z) / 256 = z) as Hd.
  { intros y z Hy. rewrite (Z.mul_comm 256), Z.div_add, Z.div_small by lia. lia. }
  assert (∀ y z, 0 ≤ y < 256 → (y + 256 * z) mod 256 = y) as Hm.
  { intros y z Hy. by rewrite (Z.mul_comm 256), Z.mod_add, Z.mod_small by lia. }
  destruct Hb' as [-> | [-> | [-> | ->] ] ]; injection Hx' as <-;
    [change (2 ^ (8 * 0)) with 1; rewrite Z.div_1_r|change (2 ^ (8 * 1)) with 256
    |change (2 ^ (8 * 2)) with (256 * 256); rewrite <-Z.div_div by lia
    |change (2 ^ (8 * 3)) with (256 * 256 * 256); rewrite <-!Z.div_div by lia];
    rewrite ?Hd by lia; apply Hm; lia.
Qed.

(** Any address is some distance above [base]. *)
Lemma above base a : 0 ≤ base < 2 ^ 32 → 0 ≤ a < 2 ^ 32 → ∃ d, 0 ≤ d < 2 ^ 32 ∧ a = u32 (base + d).
Proof.
  intros Hb Ha. exists (u32 (a - base)). split; [apply u32_range|]. rewrite Z.add_comm, u32_add.
  replace (a - base + base) with a by lia. by rewrite u32_id.
Qed.

Lemma program_builds m n code base h b c :
  program m n code base h b → n = Z.of_nat (length code) → code_ok code → 4 * Z.of_nat m ≤ n < 2 ^ 32 →
  ∃ c', exec (h ++ b) c = Some c' ∧ esp c' = u32 (base - 4 * Z.of_nat m) ∧
    (∀ i x, n - 4 * Z.of_nat m ≤ Z.of_nat i → code !! i = Some x → ram c' (u32 (base - n + Z.of_nat i)) = x) ∧
    (∀ a, 0 ≤ a < 2 ^ 32 → (∀ i, 1 ≤ i ≤ 4 * Z.of_nat m → a ≠ u32 (base - i)) →
       (∀ i, 1 ≤ i ≤ 4 → a ≠ u32 (esp c - i)) → ram c' a = ram c a).
Proof.
  intros (_ & Hbase & Hx) Hn Hc Hm. specialize (Hx c []). rewrite app_nil_r in Hx.
  set (c0 := Cpu base base (store4 (u32 (esp c - 4)) base (ram c))) in *.
  set (ws := word_values m (n - 4) code) in *. assert (length ws = m) as Hws by apply word_values_length.
  destruct (push_all ws c0) as (H1 & H2 & H3); [lia|]. rewrite Hws in *. cbn [esp c0] in H1, H2, H3.
  exists (foldl push c0 ws). split; [exact Hx|]. split_and!.
  - destruct m as [|m].
    + destruct ws; [|done]. simpl. rewrite Z.sub_0_r. by rewrite u32_id.
    + apply H1. lia.
  - intros i x Hi Hix. pose proof (lookup_lt_Some _ _ _ Hix). set (q := n - 1 - Z.of_nat i).
    pose proof (Z.div_mod q 4 ltac:(lia)). pose proof (Z.mod_pos_bound q 4 ltac:(lia)).
    assert (0 ≤ q / 4 < Z.of_nat m) as Hq by (split; [apply Z.div_pos; lia|apply Z.div_lt_upper_bound; lia]).
    specialize (H2 (Z.to_nat (q / 4)) _ (3 - q mod 4) (word_values_lookup m (n - 4) code (Z.to_nat (q / 4)) ltac:(lia)) ltac:(lia)).
    rewrite Z2Nat.id in H2 by lia.
    replace (base - 4 * (q / 4 + 1) + (3 - q mod 4)) with (base - n + Z.of_nat i) in H2 by lia. rewrite H2.
    apply word_byte; [done|lia|lia|lia|]. rewrite <-Hix. f_equal. lia.
  - intros a Ha Hout Hstack. destruct (above base a Hbase Ha) as (d & Hd & E). rewrite E at 1. rewrite H3.
    + rewrite <-E. unfold c0. cbn [ram]. destruct (above (u32 (esp c - 4)) a (u32_range _) Ha) as (d' & Hd' & E').
      rewrite E'. apply store4_frame. destruct (Z_lt_ge_dec d' 4); [|lia]. exfalso. apply (Hstack (4 - d')); [lia|].
      rewrite E', u32_add. f_equal. lia.
    + split; [lia|]. destruct (Z_lt_ge_dec d (2 ^ 32 - 4 * Z.of_nat m)); [done|]. exfalso.
      apply (Hout (2 ^ 32 - d)); [lia|]. rewrite E. unfold u32. replace (base - (2 ^ 32 - d)) with (base + d + (-1) * 2 ^ 32) by lia.
      by rewrite Z.mod_add.
Qed.

Lemma main_ok strict l bytecode writable s :
  from_option (λ c, c) CHR (charset (get_opts l)) = X0 → code_ok bytecode → Z.of_nat (length bytecode) < 2 ^ 28 →
  (strict = true → covers X0 ∧ can_clear X0 ∧ (to_file (get_opts l) = true → writable = true)) →
  okx strict (dissembler_main fry junk l (Some bytecode) writable) s (λ out _,
    ∃ h b nops, out = h ++ (if esc (get_opts l) then [92] else []) ++ b ++ replicate nops 80 ++ [10] ∧
      builds (get_opts l) bytecode h b).
Proof.
  intros HX Hc Hsmall Hcov. unfold dissembler_main. rewrite HX. destruct (get_opts_facts l) as [Hn Ht].
  set (o := get_opts l) in *. set (norm := Z.of_nat (length bytecode)) in *.
  assert (0 ≤ norm) as Hnorm by (unfold norm; lia). rewrite (Z.rem_mod_nonneg norm 4) by lia. pose proof (Z.mod_pos_bound norm 4 ltac:(lia)).
  fold (loaded bytecode). set (n := norm + (norm mod 4 + 4)).
  assert (Z.of_nat (length (loaded bytecode)) = n) as Hlen.
  { unfold loaded. fold norm. rewrite length_app, length_replicate. unfold n, norm in *. lia. }
  assert (code_ok (loaded bytecode)) as Hlc.
  { apply Forall_app. split; [|done]. apply Forall_replicate. lia. }
  apply okx_bind, okx_runs, runs_modify. destruct (_ && negb writable) eqn:Ew.
  { apply okx_exit. destruct strict; [|done]. destruct Hcov as (_ & _ & Hw); [done|].
    apply andb_true_iff in Ew as [Ef Ew]. rewrite Hw in Ew by done. done. }
  apply okx_bind. eapply okx_mono; [apply header_ok|].
  { by split. }
  { intros E. apply Hcov, E. }
  intros head s1 (Hs1 & prs & Hl4 & Hp & Hh). simpl in Hs1.
  set (last := if targ o =? 0 then 0xbfffffe0 else u32 (targ o + 20 + n * 5)).
  assert (0 ≤ last < 2 ^ 32) as Hlast by (unfold last; destruct (_ =? _); [lia|apply u32_range]).
  set (o' := if targ o =? 0 then _ else o).
  assert (ninja o' = ninja o) as Ho' by (unfold o'; by destruct (_ =? _)).
  pose proof (Z.div_mod n 4 ltac:(lia)). pose proof (Z.mod_pos_bound n 4 ltac:(lia)).
  assert (4 ≤ n) by lia. pose proof (Z.div_le_lower_bound n 4 1 ltac:(lia) ltac:(lia)).
  set (m := Z.to_nat (n / 4 - ninja o / 4)).
  assert (4 * Z.of_nat m = n - first_pushed o n) as Hm.
  { unfold m, first_pushed. rewrite Z2Nat.id by (destruct Hn as [-> | ->]; [change (0 / 4) with 0|change (4 / 4) with 1]; lia).
    destruct Hn as [-> | ->]; [change (0 / 4) with 0|change (4 / 4) with 1]; lia. }
  unfold first_pushed in Hm.
  apply okx_bind. eapply okx_mono.
  { apply (magic_ok strict o' norm n (loaded bytecode) m prs); try done; try lia.
    - intros E. apply Hcov, E.
    - unfold unset. rewrite length_replicate. lia. }
  intros [[h b] opt] s2 (base & Hprog & Hb). apply okx_ret.
  assert (esc o' = esc o) as <- by (unfold o'; by destruct (_ =? _)). eexists h, b, _. split; [reflexivity|].
  unfold builds. fold (loaded bytecode). rewrite Hlen. split; [apply Hprog|]. exists base. split; [apply Hprog|].
  split; [intros Hz; apply Hb; lia|]. intros c.
  assert (n - first_pushed o n = 4 * Z.of_nat m) as -> by (unfold first_pushed; lia).
  destruct (program_builds m n (loaded bytecode) base h b c Hprog) as (c' & E & Hsp & Hcode & Hframe); [done..|lia|].
  exists c'. split; [done|]. split; [done|]. split; [|done]. intros i x Hi. apply Hcode. unfold first_pushed in Hi. lia.
Qed.
End search.

(** ** The default character set *)
Lemma between (l0 h0 l1 h1 l2 h2 l3 h3 s : Z) :
  l0 ≤ h0 → l1 ≤ h1 → l2 ≤ h2 → l3 ≤ h3 → l0 + l1 + l2 + l3 ≤ s ≤ h0 + h1 + h2 + h3 →
  ∃ x0 x1 x2 x3, l0 ≤ x0 ≤ h0 ∧ l1 ≤ x1 ≤ h1 ∧ l2 ≤ x2 ≤ h2 ∧ l3 ≤ x3 ≤ h3 ∧ x0 + x1 + x2 + x3 = s.
Proof.
  intros. set (x0 := Z.min h0 (s - l1 - l2 - l3)). set (x1 := Z.min h1 (s - x0 - l2 - l3)).
  set (x2 := Z.min h2 (s - x0 - x1 - l3)). exists x0, x1, x2, (s - x0 - x1 - x2). lia.
Qed.

Lemma CHR_alnum x : 48 ≤ x ≤ 57 ∨ 65 ≤ x ≤ 90 ∨ 97 ≤ x ≤ 122 → x ∈ CHR.
Proof.
  assert (Forall (λ x, x ∈ CHR) (seqZ 48 10 ++ seqZ 65 26 ++ seqZ 97 26)) as H.
  { apply (bool_decide_unpack _). vm_compute. exact I. }
  rewrite Forall_forall in H. intros Hx. apply H. rewrite !elem_of_app, !elem_of_seqZ. lia.
Qed.

Lemma CHR_chars : chars CHR ∧ (length CHR ≤ 125)%nat.
Proof. split; [apply (bool_decide_unpack _); vm_compute; exact I|apply Nat.leb_le; by vm_compute]. Qed.
Lemma CHR_clears : can_clear CHR.
Proof. exists 37, 90. split_and!; [apply (bool_decide_unpack _); vm_compute; exact I..|done]. Qed.

Lemma CHR_covers : covers CHR.
Proof.
  assert (∀ s, 192 ≤ s ≤ 447 → ∃ x0 x1 x2 x3, x0 ∈ CHR ∧ x1 ∈ CHR ∧ x2 ∈ CHR ∧ x3 ∈ CHR ∧ x0 + x1 + x2 + x3 = s) as Hsum.
  { intros s Hs. assert (∃ x0 x1 x2 x3, (48 ≤ x0 ≤ 57 ∨ 65 ≤ x0 ≤ 90 ∨ 97 ≤ x0 ≤ 122) ∧ (48 ≤ x1 ≤ 57 ∨ 65 ≤ x1 ≤ 90 ∨ 97 ≤ x1 ≤ 122) ∧
      (48 ≤ x2 ≤ 57 ∨ 65 ≤ x2 ≤ 90 ∨ 97 ≤ x2 ≤ 122) ∧ (48 ≤ x3 ≤ 57 ∨ 65 ≤ x3 ≤ 90 ∨ 97 ≤ x3 ≤ 122) ∧ x0 + x1 + x2 + x3 = s)
      as (x0 & x1 & x2 & x3 & H0 & H1 & H2 & H3 & E); [|exists x0, x1, x2, x3; eauto 10 using CHR_alnum].
    assert (s ≤ 228 ∨ 209 ≤ s ≤ 261 ∨ 226 ≤ s ≤ 294 ∨ 260 ≤ s ≤ 360 ∨ 324 ≤ s ≤ 424 ∨ 356 ≤ s) as [H|[H|[H|[H|[H|H] ] ] ] ] by lia;
      [destruct (between 48 57 48 57 48 57 48 57 s) as (x0 & x1 & x2 & x3 & ?); [lia..|]
      |destruct (between 48 57 48 57 48 57 65 90 s) as (x0 & x1 & x2 & x3 & ?); [lia..|]
      |destruct (between 48 57 48 57 65 90 65 90 s) as (x0 & x1 & x2 & x3 & ?); [lia..|]
      |destruct (between 65 90 65 90 65 90 65 90 s) as (x0 & x1 & x2 & x3 & ?); [lia..|]
      |destruct (between 65 90 65 90 97 122 97 122 s) as (x0 & x1 & x2 & x3 & ?); [lia..|]
      |destruct (between 65 90 97 122 97 122 97 122 s) as (x0 & x1 & x2 & x3 & ?); [lia..|] ];
      exists x0, x1, x2, x3; lia. }
  intros v Hv. destruct (Hsum (if v <? 192 then v + 256 else v)) as (x0 & x1 & x2 & x3 & H0 & H1 & H2 & H3 & E).
  { destruct (Z.ltb_spec v 192); lia. }
  exists x0, x1, x2, x3. split_and!; [done..|]. rewrite E. destruct (v <? 192); [|by apply Z.mod_small].
  replace (v + 256) with (v + 1 * 256) by lia. rewrite Z.mod_add by lia. by apply Z.mod_small.
Qed.

(** ** Theorems *)

(** A result, unless the program gives up. *)
Definition answers {A} (r : res (A * gst)) (P : A → gst → Prop) : Prop :=
  match r with Ok (a, s') => P a s' | Err e => e = Exited (-1) end.

(** The stack holds [code]. *)
Definition stacked (code : list Z) (c : cpu) : Prop :=
  ∀ i x, code !! i = Some x → ram c (u32 (esp c + Z.of_nat i)) = x.
(** The output: the head, the body and the bridge, which is made of PUSH EAX. *)
Definition output (o : opts) (h b out : list Z) : Prop :=
  ∃ nops, out = h ++ (if esc o then [92] else []) ++ b ++ replicate nops 80 ++ [10].

(** The end of the memory that is written is in [loaded] from [first_pushed] on. *)
Lemma builds_stacked X0 o bytecode h b c :
  builds X0 o bytecode h b →
  let n := Z.of_nat (length (loaded bytecode)) in
  0 ≤ first_pushed o n ≤ n →
  ∃ c', exec (h ++ b) c = Some c' ∧ stacked (drop (Z.to_nat (first_pushed o n)) (loaded bytecode)) c'.
Proof.
  intros (_ & base & Hb & _ & Hx) n Hf. destruct (Hx c) as (c' & E & Hsp & Hcode & _). exists c'. split; [done|].
  intros i x Hi. rewrite lookup_drop in Hi. fold n in Hsp, Hcode. rewrite Hsp, u32_add.
  rewrite <-(Hcode (Z.to_nat (first_pushed o n) + i)%nat x ltac:(lia) Hi). do 2 f_equal. lia.
Qed.

Section theorems.
Context (fry : nat → list Z → list Z) (Hfry : ∀ i t, fry i t ≡ₚ t).

(** Where the pushed code begins. *)
Lemma first_pushed_pad o bytecode :
  ninja o = 0 ∨ ninja o = 4 →
  let a := Z.of_nat (length bytecode) mod 4 in
  let n := Z.of_nat (length (loaded bytecode)) in
  n = Z.of_nat (length bytecode) + (a + 4) ∧ first_pushed o n = ninja o + (2 * a) mod 4.
Proof.
  intros Hn a n. assert (n = Z.of_nat (length bytecode) + (a + 4)) as En.
  { unfold n, loaded, a. rewrite length_app, length_replicate. pose proof (Z.mod_pos_bound (Z.of_nat (length bytecode)) 4). lia. }
  split; [done|]. unfold first_pushed. rewrite En. f_equal.
  replace (Z.of_nat (length bytecode) + (a + 4)) with (Z.of_nat (length bytecode) + a + 1 * 4) by lia.
  rewrite Z.mod_add by lia. unfold a. rewrite <-Zplus_mod_idemp_l. f_equal. lia.
Qed.

Lemma drop_loaded o bytecode :
  ninja o = 0 ∨ ninja o = 4 →
  let n := Z.of_nat (length (loaded bytecode)) in
  0 ≤ first_pushed o n ≤ n ∧
  if decide (ninja o = 4 ∧ Z.of_nat (length bytecode) mod 4 = 1)
  then first_pushed o n = 6 ∧ drop (Z.to_nat (first_pushed o n)) (loaded bytecode) = drop 1 bytecode
  else ∃ k, drop (Z.to_nat (first_pushed o n)) (loaded bytecode) = replicate k 0x90 ++ bytecode.
Proof.
  intros Hn n. destruct (first_pushed_pad o bytecode Hn) as [En Ef]. fold n in En, Ef. rewrite Ef. unfold loaded.
  set (a := Z.of_nat (length bytecode) mod 4) in *. pose proof (Z.mod_pos_bound (Z.of_nat (length bytecode)) 4 ltac:(lia)).
  fold a in H. assert (1 ≤ a → 1 ≤ Z.of_nat (length bytecode)) as Hle by (unfold a; destruct bytecode; [done|simpl; lia]).
  assert (a = 0 ∨ a = 1 ∨ a = 2 ∨ a = 3) as [E|[E|[E|E] ] ] by lia; rewrite E in *; clearbody a n;
    [change ((2 * 0) mod 4) with 0|change ((2 * 1) mod 4) with 2|change ((2 * 2) mod 4) with 0|change ((2 * 3) mod 4) with 2];
    destruct Hn as [Hz|Hz]; rewrite Hz; (split; [lia|]); case_decide as Hd; try lia.
  all: try (split; [lia|by rewrite drop_app_ge by (rewrite length_replicate; lia)]).
  all: rewrite drop_app_le by (rewrite length_replicate; lia); rewrite drop_replicate; by eexists.
Qed.
End theorems.

(** The word of the target and of the start, in machine integers: what
    [gen] answers is one to four SUB instructions of characters of the set, and
    executing them turns a register that holds [l] into [t] plus the junk behind
    the character set as often as there are unused words: with a NUL there, into
    the target.  If four characters of the set can sum to every byte, there is
    an answer. *)
Theorem gen_computes fry junk t l s :
  (∀ i u, fry i u ≡ₚ u) → 0 ≤ junk < 128 → chars (mem s) → (length (mem s) ≤ 125)%nat → length (pr s) = 21%nat →
  0 ≤ t < 2 ^ 32 → 0 ≤ l < 2 ^ 32 →
  answers (gen fry junk t l s) (λ txt s',
      mem s' ≡ₚ mem s ∧ printable (mem s) txt ∧
      ∃ a, 1 ≤ a ≤ 4 ∧ Z.of_nat (length txt) = 5 * a ∧
        ∀ c v, eax c = l → exec (txt ++ v) c = exec v (Cpu (u32 (t + (4 - a) * (junk * 0x01010101))) (esp c) (ram c)))
  ∧ (covers (mem s) → ∃ r, gen fry junk t l s = Ok r).
Proof.
  intros Hfry Hj HX HX125 Hpr Ht Hl.
  pose proof (λ b, gen_ok junk Hj fry Hfry (mem s) HX HX125 b t l s (conj (reflexivity _) Hpr) Ht Hl) as H. unfold okx in H.
  split; [|intros Hcov; specialize (H true ltac:(done)); destruct (gen fry junk t l s); [by eexists|by destruct H] ].
  specialize (H false ltac:(done)). destruct (gen fry junk t l s) as [[txt s']|]; [|apply H].
  destruct H as [[Hp _] (ws & -> & Hn & Hws & (k & Hk))]. split; [done|].
  split; [by eapply subs_printable|]. exists (Z.of_nat (length ws)).
  rewrite (subs_length (mem s) HX125) by done. split; [lia|]. split; [lia|]. intros c v He.
  rewrite exec_subs; [|by eapply Forall_impl; [exact Hws|intros ? []]|rewrite He; by apply u32_id].
  do 2 f_equal. rewrite He. unfold u32.
  replace (l - total ws) with (t + (4 - Z.of_nat (length ws)) * (junk * 0x01010101) + (- k) * 2 ^ 32) by lia.
  by rewrite Z.mod_add by lia.
Qed.

Lemma gen_computes_witness :
  answers (gen (λ _ u, u) 0 0xdeadbeef 0xbfffffe0 (GSt CHR (unset 21) 0)) (λ txt s',
      mem s' ≡ₚ CHR ∧ printable CHR txt ∧
      ∃ a, 1 ≤ a ≤ 4 ∧ Z.of_nat (length txt) = 5 * a ∧
        ∀ c v, eax c = 0xbfffffe0 → exec (txt ++ v) c = exec v (Cpu (u32 (0xdeadbeef + (4 - a) * (0 * 0x01010101))) (esp c) (ram c)))
  ∧ (covers CHR → ∃ r, gen (λ _ u, u) 0 0xdeadbeef 0xbfffffe0 (GSt CHR (unset 21) 0) = Ok r).
Proof.
  apply (gen_computes (λ _ u, u) 0 0xdeadbeef 0xbfffffe0 (GSt CHR (unset 21) 0)); try done; try lia; apply CHR_chars.
Defined.

(** C30. The printable program does what the machine code needs, if [malloc] left a
    zero behind the character set (argument [0]; [gen_computes] says what another
    character does): when the dissembler answers, executing the head and the
    body, from any registers and memory, leaves the stack pointer at NOPs that
    are followed by the given machine code.  The code has no NUL bytes and less
    than 2^28 bytes, the set at most 125 characters, and it is not the case that
    the ninja optimization is on and the code has one byte more than a multiple
    of four ([ninja_drops_byte]).  The output has the characters of the set and
    four more.  The only failure is an exit, and with the default character set
    and an output that can be opened there is none. *)
Theorem dissembler_builds fry l bytecode writable s :
  let o := get_opts l in
  let X := from_option (λ c, c) CHR (charset o) in
  (∀ i u, fry i u ≡ₚ u) → chars X → (length X ≤ 125)%nat → code_ok bytecode → Z.of_nat (length bytecode) < 2 ^ 28 →
  ¬ (ninja o = 4 ∧ Z.of_nat (length bytecode) mod 4 = 1) →
  answers (dissembler_main fry 0 l (Some bytecode) writable s) (λ out _,
      ∃ h b, output o h b out ∧ printable X (h ++ b) ∧
        ∀ c, ∃ c' k, exec (h ++ b) c = Some c' ∧ stacked (replicate k 0x90 ++ bytecode) c')
  ∧ (charset o = None → (to_file o = true → writable = true) →
    ∃ r, dissembler_main fry 0 l (Some bytecode) writable s = Ok r).
Proof.
  intros o X Hfry HX HX125 Hc Hsmall Hninja. destruct (get_opts_facts l) as [Hn _]. fold o in Hn.
  pose proof (λ b : bool, main_ok 0 ltac:(lia) fry Hfry X HX HX125 eq_refl b l bytecode writable s eq_refl Hc Hsmall) as H.
  unfold okx in H. split.
  - specialize (H false ltac:(done)). destruct (dissembler_main _ _ _ _ _ _) as [[out s']|]; [|apply H].
    destruct H as (h & b & nops & Eo & Hb). exists h, b. split; [by exists nops|]. split; [apply Hb|]. intros c.
    destruct (drop_loaded o bytecode Hn) as [Hf Hd]. rewrite decide_False in Hd by done. destruct Hd as [k Hd].
    destruct (builds_stacked X o bytecode h b c Hb Hf) as (c' & E & Hs). exists c', k. by rewrite <-Hd.
  - intros Hdef Hw. assert (X = CHR) as EX by (unfold X; by rewrite Hdef).
    specialize (H true ltac:(intros _; rewrite EX; auto using CHR_covers, CHR_clears)).
    destruct (dissembler_main _ _ _ _ _ _); [by eexists|by destruct H].
Qed.

Lemma dissembler_builds_witness :
  answers (dissembler_main (λ _ u, reverse u) 0 [OptT 0xbffffc00; OptN; OptE] (Some [0x31; 0xc0; 0xcd; 0x80]) true (GSt [] [] 0)) (λ out _,
      ∃ h b, output (get_opts [OptT 0xbffffc00; OptN; OptE]) h b out ∧ printable CHR (h ++ b) ∧
        ∀ c, ∃ c' k, exec (h ++ b) c = Some c' ∧ stacked (replicate k 0x90 ++ [0x31; 0xc0; 0xcd; 0x80]) c') ∧
  ∃ r, dissembler_main (λ _ u, reverse u) 0 [OptT 0xbffffc00; OptN; OptE] (Some [0x31; 0xc0; 0xcd; 0x80]) true (GSt [] [] 0) = Ok r.
Proof.
  assert (∀ (i : nat) (u : list Z), reverse u ≡ₚ u) as Hr by (intros _ u; apply reverse_Permutation).
  assert (code_ok [0x31; 0xc0; 0xcd; 0x80]) as Hc by (repeat constructor).
  assert (¬ (4 = 4 ∧ 4 mod 4 = 1)) as Hn by (by intros [_ ?]).
  pose proof (dissembler_builds (λ _ u, reverse u) [OptT 0xbffffc00; OptN; OptE] [0x31; 0xc0; 0xcd; 0x80] true (GSt [] [] 0)
    Hr (proj1 CHR_chars) (proj2 CHR_chars) Hc eq_refl Hn) as H.
  split; [exact (proj1 H)|exact (proj2 H eq_refl (λ _, eq_refl))].
Defined.

(** With the ninja optimization the words of the code that overlap the
    first eight bytes are left out: if the code has one byte more than a
    multiple of four, its first byte is not pushed.  The stack pointer ends at the
    second byte, and the byte below it is what it was. *)
Theorem ninja_drops_byte fry l bytecode writable s :
  let o := get_opts l in
  let X := from_option (λ c, c) CHR (charset o) in
  (∀ i u, fry i u ≡ₚ u) → chars X → (length X ≤ 125)%nat → code_ok bytecode → Z.of_nat (length bytecode) < 2 ^ 28 →
  ninja o = 4 → Z.of_nat (length bytecode) mod 4 = 1 →
  answers (dissembler_main fry 0 l (Some bytecode) writable s) (λ out _,
      ∃ h b, output o h b out ∧
        ∀ c, ∃ c', exec (h ++ b) c = Some c' ∧ stacked (drop 1 bytecode) c' ∧
          ((∀ i, 1 ≤ i ≤ 4 → u32 (esp c' - 1) ≠ u32 (esp c - i)) → ram c' (u32 (esp c' - 1)) = ram c (u32 (esp c' - 1)))).
Proof.
  intros o X Hfry HX HX125 Hc Hsmall H4 H1. destruct (get_opts_facts l) as [Hn _]. fold o in Hn.
  pose proof (main_ok 0 ltac:(lia) fry Hfry X HX HX125 eq_refl false l bytecode writable s eq_refl Hc Hsmall ltac:(done)) as H.
  unfold okx in H. destruct (dissembler_main _ _ _ _ _ _) as [[out s']|]; [|apply H].
  destruct H as (h & b & nops & Eo & Hb). exists h, b. split; [by exists nops|]. intros c.
  destruct (drop_loaded o bytecode Hn) as [Hf Hd]. rewrite decide_True in Hd by done. destruct Hd as [E6 Hd].
  destruct (builds_stacked X o bytecode h b c Hb Hf) as (c' & E & Hs). exists c'. split; [done|].
  split; [by rewrite <-Hd|]. intros Hout. destruct Hb as (_ & base & Hbase & _ & Hx).
  destruct (Hx c) as (c1 & E1 & Hsp & _ & Hframe). assert (c1 = c') as -> by congruence.
  apply Hframe; [apply u32_range| |done]. intros i Hi Hne. rewrite Hsp in Hne.
  rewrite <-(Z.add_opp_r (u32 _)), u32_add in Hne. apply u32_eq in Hne; [fold o in Hne, Hi; cbv zeta in E6; lia|].
  destruct (first_pushed_pad o bytecode Hn) as [En _]. rewrite H1 in En.
  cbv zeta in En, E6. fold o in Hi |- *. lia.
Qed.

Lemma ninja_drops_byte_witness :
  answers (dissembler_main (λ _ u, u) 0 [OptN] (Some [0x90; 0x31; 0xc0; 0xcd; 0x80]) true (GSt [] [] 0)) (λ out _,
      ∃ h b, output (get_opts [OptN]) h b out ∧
        ∀ c, ∃ c', exec (h ++ b) c = Some c' ∧ stacked [0x31; 0xc0; 0xcd; 0x80] c' ∧
          ((∀ i, 1 ≤ i ≤ 4 → u32 (esp c' - 1) ≠ u32 (esp c - i)) → ram c' (u32 (esp c' - 1)) = ram c (u32 (esp c' - 1)))).
Proof.
  assert (code_ok [0x90; 0x31; 0xc0; 0xcd; 0x80]) as Hc by (repeat constructor).
  exact (ninja_drops_byte (λ _ u, u) [OptN] [0x90; 0x31; 0xc0; 0xcd; 0x80] true (GSt [] [] 0)
    (λ _ _, reflexivity _) (proj1 CHR_chars) (proj2 CHR_chars) Hc eq_refl eq_refl eq_refl).
Defined.
