(* ===== verification/CondQueue.v ===== *)
(** * A queue between threads ([alsp/src/8.pthread/pthread_cond.c],
    [alsp/src/10.realtime/pthread_cond_rts.c])

    One thread (A) reads characters from a FIFO into a queue of 20 items, the
    others (B) take them out and process them; a mutex protects the queue and a
    condition variable wakes threads that found it empty.  One thread (B) is woken
    by [pthread_cond_signal] in the first program; compiled with [MULTI_THREAD] it
    has three, all woken by [pthread_cond_broadcast], as has the second, which
    also queues itself a signal after each job, which [CondRts] adds.

    A thread is a control point ([pc_a], [pc_b]) between two synchronization
    operations or system calls.  The shared data is only accessed with the mutex
    held, so the code between two points is one step.  [step] lets one thread go
    on; a waiting thread may also wake up spuriously.  Operations on a valid mutex
    and condition variable succeed.  Printing is not modelled.  [inserted] and
    [pulled] are auxiliary: they record the items, and no thread reads them. *)

From stdpp Require Import base gmap list.
From Stdlib Require Import ZArith Lia.
From S2P Require Import Prelude Arrays.

Local Open Scope Z_scope.

Definition MAX_Q_SIZE : Z := 20.

(** ** The shared data *)
Record share_data := Shared { queue : arr; idx : Z; cnt : Z }.

(** [calloc]. *)
Definition new_share_data : share_data := Shared (ints (replicate (Z.to_nat MAX_Q_SIZE) 0)) 0 0.

(** The loop that inserts [a_buf], the characters read from index [i] on. *)
Fixpoint insert_loop (a_buf : list Z) (i j : Z) (s : share_data) : res share_data :=
  match a_buf with
  | [] => Ok s
  | c :: a_buf =>
      if i <? MAX_Q_SIZE then
        let j := if j =? MAX_Q_SIZE then 0 else j in
        if cnt s =? MAX_Q_SIZE then Ok s
        else if c =? 10 then Ok s
        else
          q ← wr (queue s) j c;
          insert_loop a_buf (i + 1) (j + 1) (Shared q (idx s) (cnt s + 1))
      else Ok s
  end.
(** With [flag_empty]. *)
Definition insert_items (a_buf : list Z) (s : share_data) : res (share_data * bool) :=
  s' ← insert_loop a_buf 0 (idx s) s; Ok (s', cnt s =? 0).

Definition pull_item (s : share_data) : res (Z * share_data) :=
  let i := if idx s =? MAX_Q_SIZE then 0 else idx s in
  buf_item ← rd (queue s) i;
  Ok (buf_item, Shared (queue s) (i + 1) (cnt s - 1)).

(** The argument of [sleep] in [process_job], an [unsigned]. *)
Definition process_job (item : Z) : Z := u32 (Z.rem item 5).

(** ** The threads *)
Inductive pc_a : Set :=
| AMkfifo | AOpen | ARead
| ALock (a_buf : list Z)                (* before [pthread_mutex_lock] *)
| AInsert (a_buf : list Z)              (* with the mutex *)
| AUnlock (flag_empty : bool)
| ASignal (flag_empty : bool).          (* after [pthread_mutex_unlock] *)

Inductive pc_b : Set :=
| BLock
| BTest                                 (* [WAIT_CV], with the mutex *)
| BWait                                 (* in [pthread_cond_wait] *)
| BWake                                 (* woken up, before it has the mutex *)
| BPull                                 (* [if (cnt > 0)], with the mutex *)
| BUnlock (item : Z)
| BJob (item : Z).

#[export] Instance pc_a_eq_dec : EqDecision pc_a.
Proof. solve_decision. Defined.
#[export] Instance pc_b_eq_dec : EqDecision pc_b.
Proof. solve_decision. Defined.

Inductive tid : Set := ThreadA | ThreadB (k : nat).
#[export] Instance tid_eq_dec : EqDecision tid.
Proof. solve_decision. Defined.

Record state := State {
  shr : share_data; owner : option tid; pa : pc_a; pb : list pc_b;
  inserted : list Z; pulled : list Z
}.

Definition goto_a (p : pc_a) (s : state) := State (shr s) (owner s) p (pb s) (inserted s) (pulled s).
Definition goto_b (k : nat) (p : pc_b) (s : state) :=
  State (shr s) (owner s) (pa s) (<[k := p]> (pb s)) (inserted s) (pulled s).
Definition set_owner (o : option tid) (s : state) := State (shr s) o (pa s) (pb s) (inserted s) (pulled s).
Definition wake (b : list pc_b) (s : state) := State (shr s) (owner s) (pa s) b (inserted s) (pulled s).

(** What a system call of thread (A) answers: an error, with [errno] EEXIST or
    another one, or success with the characters read. *)
Inductive answer : Set := AErr (eexist : bool) | AOk (a_buf : list Z).

(** A step of (A), in which a signal wakes the thread [w]; a step of a thread
    (B); a spurious wake-up. *)
Inductive label : Set := RunA (a : answer) (w : nat) | RunB (k : nat) | Spurious (k : nat).

Section threads.
Context (broadcast : bool).

Definition is_char (c : Z) : bool := (-128 <=? c) && (c <? 128).
Definition waits (p : pc_b) : bool := bool_decide (p = BWait).

Definition lock (t : tid) (k : state → state) (s : state) : option (res state) :=
  match owner s with None => Some (Ok (k (set_owner (Some t) s))) | Some _ => None end.

(** [pthread_cond_signal] wakes one of the waiting threads, if there is one. *)
Definition signal (w : nat) (s : state) : option state :=
  if existsb waits (pb s)
  then if decide (pb s !! w = Some BWait) then Some (goto_b w BWake s) else None
  else Some s.
Definition broadcast_ (s : state) : state := wake ((λ p, if waits p then BWake else p) <$> pb s) s.

Definition tfunc_a (a : answer) (w : nat) (s : state) : option (res state) :=
  match pa s with
  | AMkfifo => match a with
               | AErr false => Some (Err (Exited 1))
               | _ => Some (Ok (goto_a AOpen s)) end
  | AOpen => match a with AErr _ => Some (Err (Exited 1)) | AOk _ => Some (Ok (goto_a ARead s)) end
  | ARead => match a with
             | AErr _ => Some (Err (Exited 1))
             | AOk [] => Some (Err (Exited 1))
             | AOk a_buf =>
                 if (length a_buf <=? 255)%nat && forallb is_char a_buf
                 then Some (Ok (goto_a (ALock a_buf) s)) else None end
  | ALock a_buf => lock ThreadA (goto_a (AInsert a_buf)) s
  | AInsert a_buf =>
      Some (r ← insert_items a_buf (shr s);
            Ok (State r.1 (owner s) (AUnlock r.2) (pb s)
                  (inserted s ++ take (Z.to_nat (cnt r.1 - cnt (shr s))) a_buf) (pulled s)))
  | AUnlock flag_empty => Some (Ok (goto_a (ASignal flag_empty) (set_owner None s)))
  | ASignal false => Some (Ok (goto_a ARead s))
  | ASignal true =>
      if broadcast then Some (Ok (goto_a ARead (broadcast_ s)))
      else s ← signal w s; Some (Ok (goto_a ARead s))
  end.

Definition tfunc_b (k : nat) (s : state) : option (res state) :=
  p ← pb s !! k;
  match p with
  | BLock => lock (ThreadB k) (goto_b k BTest) s
  | BTest => if cnt (shr s) =? 0 then Some (Ok (goto_b k BWait (set_owner None s)))
             else Some (Ok (goto_b k BPull s))
  | BWait => None
  | BWake => lock (ThreadB k) (goto_b k BPull) s
  | BPull =>
      if 0 <? cnt (shr s) then
        Some (r ← pull_item (shr s);
              Ok (State r.2 (owner s) (pa s) (<[k := BUnlock r.1]> (pb s)) (inserted s) (pulled s ++ [r.1])))
      else Some (Ok (goto_b k BTest s))
  | BUnlock item => Some (Ok (goto_b k (BJob item) (set_owner None s)))
  | BJob item => Some (Ok (goto_b k BLock s))
  end.

Definition step (l : label) (s : state) : option (res state) :=
  match l with
  | RunA a w => tfunc_a a w s
  | RunB k => tfunc_b k s
  | Spurious k => if decide (pb s !! k = Some BWait) then Some (Ok (goto_b k BWake s)) else None
  end.

(** [main], with [n] threads (B). *)
Definition main_state (n : nat) : state := State new_share_data None AMkfifo (replicate n BLock) [] [].

Fixpoint run (ls : list label) (s : state) : option (res state) :=
  match ls with
  | [] => Some (Ok s)
  | l :: ls => match step l s with Some (Ok s') => run ls s' | r => r end
  end.
End threads.

(** The states the program can be in. *)
Inductive reachable (broadcast : bool) (n : nat) : state → Prop :=
| reach_main : reachable broadcast n (main_state n)
| reach_step l s s' : reachable broadcast n s → step broadcast l s = Some (Ok s') → reachable broadcast n s'.
