(* ===== verification/CondQueueProofs.v ===== *)
(** * A queue between threads: correctness

    [ring] is the queue from its first item on, [contents] the items in it.
    [inv] is the invariant of the program, kept by every step of every thread;
    under it the queue is never used outside of its bounds, and no thread waits
    while there are items and nobody is going to wake it. *)

From stdpp Require Import base gmap list.
From Stdlib Require Import ZArith Lia.
From S2P Require Import Prelude Arrays CondQueue.

Local Open Scope Z_scope.

(** ** The ring *)
Definition norm (j : Z) : Z := if j =? MAX_Q_SIZE then 0 else j.
Definition rot (j : Z) (q : arr) : arr := drop (Z.to_nat (norm j)) q ++ take (Z.to_nat (norm j)) q.
Definition ring (s : share_data) : arr := rot (idx s) (queue s).
Definition contents (s : share_data) : arr := take (Z.to_nat (cnt s)) (ring s).

Lemma norm_bounds j : 0 ≤ j ≤ 20 → 0 ≤ norm j < 20.
Proof. unfold norm, MAX_Q_SIZE. intros. destruct (Z.eqb_spec j 20); lia. Qed.

Lemma rot_perm j q : rot j q ≡ₚ q.
Proof. unfold rot. rewrite Permutation_app_comm. by rewrite take_drop. Qed.
Lemma rot_length j q : length (rot j q) = length q.
Proof. by rewrite rot_perm. Qed.

Lemma rot_split j q x r : 0 ≤ j ≤ 20 → length q = 20%nat → rot j q = x :: r →
  ∃ a b, q = a ++ x :: b ∧ length a = Z.to_nat (norm j) ∧ r = b ++ a.
Proof.
  intros Hj Hq E. pose proof (norm_bounds j Hj). exists (take (Z.to_nat (norm j)) q).
  unfold rot in E. destruct (drop (Z.to_nat (norm j)) q) as [|y b] eqn:Ed.
  { apply (f_equal length) in Ed. rewrite length_drop in Ed. simpl in Ed. lia. }
  injection E as -> <-. exists b. rewrite <-Ed, take_drop, length_take. split_and!; [done|lia|done].
Qed.

(** The ring that starts at the next element. *)
Lemma rot_next j q x r : 0 ≤ j ≤ 20 → length q = 20%nat → rot j q = x :: r → rot (norm j + 1) q = r ++ [x].
Proof.
  intros Hj Hq E. destruct (rot_split j q x r Hj Hq E) as (a & b & Eq & Ha & ->).
  pose proof (norm_bounds j Hj). unfold rot. destruct (decide (norm j = 19)) as [Hn|Hn].
  - rewrite Hn. change (norm (19 + 1)) with 0. cbn [Z.to_nat]. rewrite drop_0, take_0, app_nil_r.
    destruct b as [|y b]; [done|]. subst q. rewrite length_app in Hq. simpl in Hq. lia.
  - assert (norm (norm j + 1) = norm j + 1) as ->.
    { unfold norm at 1. rewrite (proj2 (Z.eqb_neq _ _)); [done|unfold MAX_Q_SIZE; lia]. }
    replace (Z.to_nat (norm j + 1)) with (S (length a)) by lia. rewrite Eq, cons_middle, (assoc_L (++)).
    replace (S (length a)) with (length (a ++ [x])) by (rewrite length_app; simpl; lia).
    by rewrite drop_app_length, take_app_length, <-(assoc_L (++)).
Qed.

(** Overwriting its first element. *)
Lemma rot_wr j q x r c : 0 ≤ j ≤ 20 → length q = 20%nat → rot j q = x :: r →
  ∃ q', wr q (norm j) c = Ok q' ∧ length q' = 20%nat ∧ rot j q' = Some c :: r.
Proof.
  intros Hj Hq E. destruct (rot_split j q x r Hj Hq E) as (a & b & Eq & Ha & ->).
  pose proof (norm_bounds j Hj). unfold wr.
  rewrite (proj2 (Z.leb_le 0 _)), (proj2 (Z.ltb_lt _ _)) by lia. eexists. split; [done|].
  rewrite length_insert. split; [done|]. unfold rot. rewrite <-Ha, Eq.
  replace (length a) with (length a + 0)%nat at 2 4 by lia. rewrite insert_app_r. cbn [insert list_insert].
  by rewrite drop_app_length, take_app_length.
Qed.

Lemma rot_rd j q x r : 0 ≤ j ≤ 20 → length q = 20%nat → rot j q = Some x :: r → rd q (norm j) = Ok x.
Proof.
  intros Hj Hq E. destruct (rot_split j q _ r Hj Hq E) as (a & b & Eq & Ha & _).
  pose proof (norm_bounds j Hj). unfold rd. rewrite (proj2 (Z.leb_le 0 _)) by lia.
  by rewrite Eq, list_lookup_middle by done.
Qed.

Lemma rot_cons j q : length q = 20%nat → ∃ x r, rot j q = x :: r ∧ length r = 19%nat.
Proof.
  intros Hq. pose proof (rot_length j q) as Hl. destruct (rot j q) as [|x r]; simpl in Hl; [lia|].
  exists x, r. split; [done|lia].
Qed.

(** ** Inserting and pulling *)

(** The characters before the first line end. *)
Fixpoint line (a_buf : list Z) : list Z :=
  match a_buf with [] => [] | c :: a_buf => if c =? 10 then [] else c :: line a_buf end.

Lemma insert_loop_ok a_buf : ∀ i j s,
  length (queue s) = 20%nat → 0 ≤ j ≤ 20 → 0 ≤ i → 0 ≤ cnt s ≤ 20 →
  let items := take (Z.to_nat (Z.min (20 - i) (20 - cnt s))) (line a_buf) in
  ∃ q', insert_loop a_buf i j s = Ok (Shared q' (idx s) (cnt s + Z.of_nat (length items))) ∧ length q' = 20%nat ∧
    rot j q' = ints items ++ drop (length items) (rot j (queue s)).
Proof.
  induction a_buf as [|c a_buf IH]; intros i j s Hq Hj Hi Hc.
  { cbn [line]. cbv zeta. exists (queue s). rewrite take_nil. split_and!; [|done|done]. simpl. rewrite Z.add_0_r. by destruct s. }
  assert (∀ items, items = [] → ∃ q', Ok s = Ok (Shared q' (idx s) (cnt s + Z.of_nat (length items))) ∧
    length q' = 20%nat ∧ rot j q' = ints items ++ drop (length items) (rot j (queue s))) as Hstop.
  { intros items ->. exists (queue s). split_and!; [|done|done]. simpl. rewrite Z.add_0_r. by destruct s. }
  cbn [insert_loop line]. cbv zeta. fold (norm j). unfold MAX_Q_SIZE.
  destruct (Z.ltb_spec i 20); [|apply Hstop; by replace (Z.to_nat _) with 0%nat by lia].
  destruct (Z.eqb_spec (cnt s) 20); [apply Hstop; by replace (Z.to_nat _) with 0%nat by lia|].
  destruct (Z.eqb_spec c 10); [apply Hstop; by rewrite take_nil|].
  destruct (rot_cons j (queue s) Hq) as (x & r & E & Hr).
  destruct (rot_wr j (queue s) x r c Hj Hq E) as (q1 & Ew & Hq1 & E1). rewrite Ew. unfold mbind, res_bind.
  pose proof (norm_bounds j Hj).
  destruct (IH (i + 1) (norm j + 1) (Shared q1 (idx s) (cnt s + 1))) as (q' & El & Hq' & Er); simpl; [done|lia..|].
  cbn [queue idx cnt] in *. rewrite (rot_next j q1 _ r Hj Hq1 E1) in Er.
  replace (Z.to_nat (Z.min (20 - i) (20 - cnt s))) with (S (Z.to_nat (Z.min (20 - (i + 1)) (20 - (cnt s + 1))))) by lia.
  cbn [take]. set (items := take _ _) in *.
  assert (length items ≤ 19)%nat as Hli by (unfold items; rewrite length_take; lia).
  exists q'. rewrite El. split; [f_equal; f_equal; simpl; lia|]. split; [done|].
  destruct (rot_cons j q' Hq') as (y & r' & E' & Hr'). rewrite (rot_next j q' y r' Hj Hq' E') in Er.
  rewrite drop_app_le, (assoc_L (++)) in Er by lia. apply app_inj_tail in Er as [-> ->]. by rewrite E', E.
Qed.

Record shr_ok (s : share_data) : Prop := {
  ok_len : length (queue s) = 20%nat;
  ok_set : Forall is_Some (queue s);
  ok_idx : 0 ≤ idx s ≤ 20;
  ok_cnt : 0 ≤ cnt s ≤ 20
}.

(** What is inserted of [a_buf]: its first line, as far as there is room. *)
Definition batch (a_buf : list Z) (s : share_data) : list Z := take (Z.to_nat (20 - cnt s)) (line a_buf).

Lemma insert_ok a_buf s : shr_ok s →
  ∃ s', insert_items a_buf s = Ok (s', cnt s =? 0) ∧ shr_ok s' ∧ idx s' = idx s ∧
    cnt s' = cnt s + Z.of_nat (length (batch a_buf s)) ∧
    ring s' = ints (batch a_buf s) ++ drop (length (batch a_buf s)) (ring s).
Proof.
  intros [Hl Hs Hi Hc]. destruct (insert_loop_ok a_buf 0 (idx s) s) as (q' & E & Hq' & Er); [done|lia..|].
  rewrite Z.min_r in E, Er by lia. fold (batch a_buf s) in E, Er.
  assert (length (batch a_buf s) ≤ Z.to_nat (20 - cnt s))%nat by (unfold batch; rewrite length_take; lia).
  eexists. unfold insert_items. rewrite E. split; [done|]. split; [|done]. split; simpl; [done| |done|lia].
  rewrite <-(rot_perm (idx s) q'), Er. apply Forall_app. split.
  - unfold ints. apply Forall_fmap, Forall_true. by eexists.
  - apply Forall_drop. by rewrite rot_perm.
Qed.

Lemma batch_line a_buf s s' :
  cnt s' = cnt s + Z.of_nat (length (batch a_buf s)) → take (Z.to_nat (cnt s' - cnt s)) a_buf = batch a_buf s.
Proof.
  intros ->. replace (Z.to_nat _) with (length (batch a_buf s)) by lia.
  assert (∀ l, ∃ t, l = line l ++ t) as Hpre.
  { induction l as [|c l [t Ht]]; [by exists []|]. simpl. destruct (c =? 10); [by exists (c :: l)|].
    exists t. simpl. by f_equal. }
  destruct (Hpre a_buf) as [t Ht]. unfold batch. set (n := Z.to_nat (20 - cnt s)).
  rewrite length_take. rewrite Ht at 2.
  rewrite take_app_le by lia. destruct (Nat.le_ge_cases n (length (line a_buf))).
  - by rewrite Nat.min_l.
  - by rewrite Nat.min_r, !take_ge by lia.
Qed.

(** The contents after an insertion: what was inserted takes the place of the
    first items that were there. *)
Lemma insert_contents a_buf s s' :
  shr_ok s → cnt s' = cnt s + Z.of_nat (length (batch a_buf s)) →
  ring s' = ints (batch a_buf s) ++ drop (length (batch a_buf s)) (ring s) →
  contents s' = ints (batch a_buf s) ++ take (Z.to_nat (cnt s)) (drop (length (batch a_buf s)) (ring s)).
Proof.
  intros [_ _ _ Hc] Ec Er. unfold contents. rewrite Ec, Er. rewrite take_app, length_ints. f_equal.
  - apply take_ge. rewrite length_ints. lia.
  - f_equal. lia.
Qed.

Lemma pull_ok s : shr_ok s → 0 < cnt s →
  ∃ x s', pull_item s = Ok (x, s') ∧ shr_ok s' ∧ cnt s' = cnt s - 1 ∧ contents s = Some x :: contents s'.
Proof.
  intros [Hl Hs Hi Hc] Hpos. destruct (rot_cons (idx s) (queue s) Hl) as (x & r & E & Hr).
  assert (is_Some x) as [z ->].
  { rewrite <-(rot_perm (idx s)), E in Hs. by apply Forall_cons in Hs as [? _]. }
  exists z, (Shared (queue s) (norm (idx s) + 1) (cnt s - 1)). unfold pull_item. fold (norm (idx s)).
  rewrite (rot_rd _ _ _ _ Hi Hl E). pose proof (norm_bounds _ Hi).
  split; [done|]. split; [split; simpl; [done|done|lia|lia]|]. split; [done|].
  unfold contents, ring. simpl. rewrite E, (rot_next _ _ _ _ Hi Hl E).
  replace (Z.to_nat (cnt s)) with (S (Z.to_nat (cnt s - 1))) by lia. simpl. f_equal.
  rewrite take_app_le by lia. done.
Qed.

(** ** The invariant *)

(** The control points with the mutex. *)
Definition a_holds (p : pc_a) : bool := match p with AInsert _ | AUnlock _ => true | _ => false end.
Definition b_holds (p : pc_b) : bool := match p with BTest | BPull | BUnlock _ => true | _ => false end.
(** Thread (A) is about to wake somebody. *)
Definition waking (p : pc_a) : bool := match p with AUnlock f | ASignal f => f | _ => false end.

Record inv (n : nat) (s : state) : Prop := {
  inv_shr : shr_ok (shr s);
  inv_n : length (pb s) = n;
  inv_a : owner s = Some ThreadA ↔ a_holds (pa s) = true;
  inv_b k : owner s = Some (ThreadB k) ↔ ∃ p, pb s !! k = Some p ∧ b_holds p = true;
  inv_count : Z.of_nat (length (inserted s)) = Z.of_nat (length (pulled s)) + cnt (shr s);
  inv_awake : 0 < cnt (shr s) → waking (pa s) = true ∨ ∃ k p, pb s !! k = Some p ∧ p ≠ BWait
}.

Lemma main_inv n : inv n (main_state n).
Proof.
  split; simpl; try done.
  - split; [done| |simpl; lia..]. cbn [shr main_state queue new_share_data]. unfold ints.
    apply Forall_fmap, Forall_true. by eexists.
  - apply length_replicate.
  - intros k. split; [done|]. by intros (p & [-> _]%lookup_replicate & Hp).
Qed.

(** A step of (A) that leaves the queue and the other threads alone. *)
Lemma inv_goto_a n s o p :
  inv n s → (o = owner s ∨ (owner s = None ∧ o = Some ThreadA) ∨ (owner s = Some ThreadA ∧ o = None)) →
  (o = Some ThreadA ↔ a_holds p = true) → (waking (pa s) = true → waking p = true) →
  inv n (goto_a p (set_owner o s)).
Proof.
  intros [Hs Hn Ha Hb Hc Hw] Ho Hp Hwk. split; simpl; try done.
  - intros k. rewrite <-Hb. destruct Ho as [->|[[-> ->]|[-> ->]]]; done.
  - intros Hpos. destruct (Hw Hpos); [left; auto|by right].
Qed.

(** A step of a thread (B) to [p], which may take or release the mutex. *)
Lemma inv_goto_b n s k p0 p o :
  inv n s → pb s !! k = Some p0 →
  (o = owner s ∧ b_holds p = b_holds p0 ∨ owner s = None ∧ o = Some (ThreadB k) ∧ b_holds p = true ∨
   owner s = Some (ThreadB k) ∧ o = None ∧ b_holds p = false) →
  (p = BWait → cnt (shr s) = 0) →
  inv n (goto_b k p (set_owner o s)).
Proof.
  intros [Hs Hn Ha Hb Hc Hw] Hk Ho Hp. pose proof (lookup_lt_Some _ _ _ Hk) as Hlt. split; simpl; try done.
  - by rewrite length_insert.
  - rewrite <-Ha. destruct Ho as [[-> _]|[(-> & -> & _)|(-> & -> & _)]]; done.
  - intros j. destruct (decide (j = k)) as [->|Hj].
    + rewrite list_lookup_insert_eq by done. destruct Ho as [[-> Eh]|[(_ & -> & Eh)|(_ & -> & Eh)]].
      * rewrite Hb, Hk. split; intros (q & [= <-] & Hq); eexists; (split; [done|congruence]).
      * split; [by eexists|done].
      * split; [done|]. intros (q & [= <-] & Hq). congruence.
    + rewrite list_lookup_insert_ne, <-Hb by done. destruct Ho as [[-> _]|[(-> & -> & _)|(-> & -> & _)]]; naive_solver.
  - intros Hpos. right. exists k, p. rewrite list_lookup_insert_eq by done. split; [done|].
    intros ->. specialize (Hp eq_refl). lia.
Qed.

Lemma set_owner_same s : set_owner (owner s) s = s.
Proof. by destruct s. Qed.

Lemma inv_wake_all n s : inv n s → inv n (broadcast_ s).
Proof.
  intros [Hs Hn Ha Hb Hc Hw]. split; simpl; try done.
  - by rewrite length_fmap.
  - intros k. rewrite Hb, list_lookup_fmap. split.
    + intros (p & -> & Hp). exists p. simpl. destruct p; done.
    + intros (p & E & Hp). destruct (pb s !! k) as [q|]; [|done]. exists q. split; [done|].
      injection E as <-. destruct q; done.
  - intros Hpos. destruct (Hw Hpos) as [|(k & p & Hk & Hp)]; [by left|]. right. exists k, p.
    rewrite list_lookup_fmap, Hk. split; [|done]. simpl. by destruct p.
Qed.

Lemma inv_wake_one n s k : inv n s → pb s !! k = Some BWait → inv n (goto_b k BWake s).
Proof.
  intros HI Hk. rewrite <-(set_owner_same s). eapply inv_goto_b; [done|exact Hk|by left|done].
Qed.

Section step.
Context (broadcast : bool) (n : nat) (Hpos : (0 < n)%nat).

Definition fine (r : res state) : Prop := match r with Ok s' => inv n s' | Err e => e = Exited 1 end.

Lemma fine_a s o p :
  inv n s → (o = owner s ∨ (owner s = None ∧ o = Some ThreadA) ∨ (owner s = Some ThreadA ∧ o = None)) →
  (o = Some ThreadA ↔ a_holds p = true) → (waking (pa s) = true → waking p = true) →
  fine (Ok (goto_a p (set_owner o s))).
Proof. apply inv_goto_a. Qed.

Lemma insert_inv s a_buf r flag :
  inv n s → pa s = AInsert a_buf → insert_items a_buf (shr s) = Ok (r, flag) →
  inv n (State r (owner s) (AUnlock flag) (pb s)
    (inserted s ++ take (Z.to_nat (cnt r - cnt (shr s))) a_buf) (pulled s)).
Proof.
  intros [Hs Hn Ha Hb Hc Hw] Ep E. destruct (insert_ok a_buf (shr s) Hs) as (s' & E' & Hok & _ & Ecnt & _).
  rewrite E in E'. injection E' as -> ->. split; simpl; try done.
  - by rewrite Ha, Ep.
  - rewrite length_app, (batch_line _ _ _ Ecnt). lia.
  - intros Hp. destruct (Z.eqb_spec (cnt (shr s)) 0) as [|Hne]; [by left|right].
    pose proof (ok_cnt _ Hs). destruct (Hw ltac:(lia)) as [Hwk|]; [by rewrite Ep in Hwk|done].
Qed.

Lemma signal_inv s w s' : inv n s → signal w s = Some s' →
  inv n s' ∧ pa s' = pa s ∧ owner s' = owner s ∧ shr s' = shr s ∧ ∃ k p, pb s' !! k = Some p ∧ p ≠ BWait.
Proof.
  intros HI. unfold signal. destruct (existsb waits (pb s)) eqn:Ew.
  - case_decide as Hk; [|done]. intros [= <-]. split_and!; try done.
    + by apply inv_wake_one.
    + exists w, BWake. simpl. split; [|done]. apply list_lookup_insert_eq. by eapply lookup_lt_Some.
  - intros [= <-]. split_and!; try done. destruct (lookup_lt_is_Some_2 (pb s) 0) as [p Hp].
    { rewrite (inv_n _ _ HI). lia. }
    exists 0%nat, p. split; [done|]. intros ->. apply not_true_iff_false in Ew. apply Ew, existsb_exists.
    exists BWait. split; [|done]. apply list_elem_of_In. by eapply list_elem_of_lookup_2.
Qed.

(** (A) is done with waking: somebody is awake. *)
Lemma inv_woken s : inv n s → owner s ≠ Some ThreadA → (∃ k p, pb s !! k = Some p ∧ p ≠ BWait) →
  inv n (goto_a ARead s).
Proof. intros [Hs Hn Ha Hb Hc Hw] Ho Hk. split; simpl; try done. by right. Qed.

Lemma tfunc_a_fine a w s r : inv n s → tfunc_a broadcast a w s = Some r → fine r.
Proof.
  intros HI. pose proof (inv_a _ _ HI) as Ha. unfold tfunc_a.
  assert (∀ p, a_holds (pa s) = false → a_holds p = false → waking (pa s) = false → fine (Ok (goto_a p s))) as Hgo.
  { intros p H1 H2 H3. pose proof (fine_a s (owner s) p HI) as Hf. rewrite set_owner_same in Hf. apply Hf; [by left| |congruence].
    rewrite Ha. by rewrite H1, H2. }
  destruct (pa s) as [| | |a_buf|a_buf|f|f] eqn:Ep; simpl in Ha.
  - destruct a as [[]|]; intros [= <-]; [by apply Hgo|done|by apply Hgo].
  - destruct a as [|]; intros [= <-]; [done|by apply Hgo].
  - destruct a as [|[|c l]]; [by intros [= <-]..|]. case_match; [|done]. intros [= <-]. by apply Hgo.
  - unfold lock. destruct (owner s) eqn:Eo; [done|]. intros [= <-]. apply fine_a; try done; [by right; left|by rewrite Ep].
  - intros [= <-]. destruct (insert_ok a_buf (shr s) (inv_shr _ _ HI)) as (s' & E' & _). rewrite E'. by apply insert_inv.
  - intros [= <-]. apply fine_a; [done|right; right; split; [by apply Ha|done]|done|by rewrite Ep].
  - assert (owner s ≠ Some ThreadA) as Ho by (rewrite Ha; done). destruct f; [|intros [= <-]; by apply Hgo].
    destruct broadcast.
    + intros [= <-]. apply inv_woken; [by apply inv_wake_all|done|].
      destruct (lookup_lt_is_Some_2 (pb s) 0) as [p Hp]; [rewrite (inv_n _ _ HI); lia|].
      exists 0%nat, (if waits p then BWake else p). simpl. rewrite list_lookup_fmap, Hp. split; [done|by destruct p].
    + destruct (signal w s) as [s'|] eqn:Es; [|done]. intros [= <-].
      destruct (signal_inv s w s' HI Es) as (HI' & _ & Eo & _ & Hk). apply inv_woken; [done|by rewrite Eo|done].
Qed.

Lemma pull_inv s k x r :
  inv n s → pb s !! k = Some BPull → 0 < cnt (shr s) → pull_item (shr s) = Ok (x, r) →
  inv n (State r (owner s) (pa s) (<[k := BUnlock x]> (pb s)) (inserted s) (pulled s ++ [x])).
Proof.
  intros HI Hk Hp E. destruct (pull_ok (shr s) (inv_shr _ _ HI) Hp) as (x' & s' & E' & Hok & Ecnt & _).
  rewrite E in E'. injection E' as -> ->. pose proof (inv_goto_b n s k _ (BUnlock x') (owner s) HI Hk) as HI'.
  rewrite set_owner_same in HI'. destruct HI' as [_ Hn Ha Hb Hc Hw]; [by left|done|]. split; simpl in *; try done.
  - rewrite length_app. simpl. lia.
  - intros _. right. exists k, (BUnlock x'). split; [|done]. apply list_lookup_insert_eq. by eapply lookup_lt_Some.
Qed.

Lemma tfunc_b_fine k s r : inv n s → tfunc_b k s = Some r → fine r.
Proof.
  intros HI. unfold tfunc_b. destruct (pb s !! k) as [p|] eqn:Ek; [|done]. simpl.
  pose proof (inv_b _ _ HI k) as Hb. rewrite Ek in Hb.
  assert (b_holds p = true → owner s = Some (ThreadB k)) as Hown by (intros; apply Hb; eauto).
  assert (∀ q o, (o = owner s ∧ b_holds q = b_holds p ∨ owner s = None ∧ o = Some (ThreadB k) ∧ b_holds q = true ∨
    owner s = Some (ThreadB k) ∧ o = None ∧ b_holds q = false) → (q = BWait → cnt (shr s) = 0) →
    fine (Ok (goto_b k q (set_owner o s)))) as Hgo.
  { intros q o Ho Hq. by eapply inv_goto_b. }
  assert (∀ q, b_holds q = b_holds p → q ≠ BWait → fine (Ok (goto_b k q s))) as Hgo'.
  { intros q Hq Hw. rewrite <-(set_owner_same s). apply Hgo; [by left|done]. }
  destruct p; simpl in *; try done.
  - unfold lock. destruct (owner s) eqn:Eo; [done|]. intros [= <-]. apply Hgo; [by right; left|done].
  - destruct (Z.eqb_spec (cnt (shr s)) 0); intros [= <-]; [apply Hgo; [right; right; auto|done]|by apply Hgo'].
  - unfold lock. destruct (owner s) eqn:Eo; [done|]. intros [= <-]. apply Hgo; [by right; left|done].
  - destruct (Z.ltb_spec 0 (cnt (shr s))); intros [= <-]; [|by apply Hgo'].
    destruct (pull_ok (shr s) (inv_shr _ _ HI)) as (x & s' & E' & _); [done|]. rewrite E'. by apply pull_inv.
  - intros [= <-]. apply Hgo; [right; right; auto|done].
  - intros [= <-]. by apply Hgo'.
Qed.

Lemma step_fine l s r : inv n s → step broadcast l s = Some r → fine r.
Proof.
  intros HI. destruct l as [a w|k|k]; simpl.
  - by apply tfunc_a_fine.
  - by apply tfunc_b_fine.
  - case_decide; [|done]. intros [= <-]. by apply inv_wake_one.
Qed.

Lemma queue_reachable_inv s : reachable broadcast n s → inv n s.
Proof. induction 1 as [|l s s' _ IH Hst]; [apply main_inv|]. exact (step_fine _ _ _ IH Hst). Qed.
End step.

(** ** Properties *)

(** C17. Safety of the queue, with any number of threads (B) and either way of
    waking them: in every state the program can be in, the number of items is
    that of the insertions minus that of the removals and fits the queue; no two
    threads are between locking and unlocking the mutex; when there are items,
    some thread (B) is awake or (A) is about to wake one (others may go on
    waiting); and no thread ever accesses the queue out of bounds or reads an
    unset element - the only way the program ends is the exit of (A) on a failed
    system call or the end of its input. *)
Theorem cond_queue_safe broadcast n s :
  (0 < n)%nat → reachable broadcast n s →
  Z.of_nat (length (inserted s)) = Z.of_nat (length (pulled s)) + cnt (shr s) ∧ 0 ≤ cnt (shr s) ≤ 20 ∧
  (∀ j k p q, pb s !! j = Some p → b_holds p = true → pb s !! k = Some q → b_holds q = true → j = k ∧ a_holds (pa s) = false) ∧
  (0 < cnt (shr s) → waking (pa s) = true ∨ ∃ k p, pb s !! k = Some p ∧ p ≠ BWait) ∧
  (∀ l e, step broadcast l s = Some (Err e) → e = Exited 1).
Proof.
  intros Hn Hr. pose proof (queue_reachable_inv _ n Hn s Hr) as HI. destruct (HI) as [Hs _ Ha Hb Hc Hw].
  split; [done|]. split; [apply (ok_cnt _ Hs)|]. split; [|split; [done|]].
  - intros j k p q Hj Hp Hk Hq. assert (owner s = Some (ThreadB j)) as Ej by (apply Hb; eauto).
    assert (owner s = Some (ThreadB k)) as Ek by (apply Hb; eauto). split; [congruence|].
    apply not_true_iff_false. intros H. apply Ha in H. congruence.
  - intros l e Hst. exact (step_fine _ _ Hn _ _ _ HI Hst).
Qed.

(** The states that are reached when (A) inserts only into an empty queue. *)
Inductive in_turn (broadcast : bool) (n : nat) : state → Prop :=
| turn_main : in_turn broadcast n (main_state n)
| turn_step l s s' :
    in_turn broadcast n s → step broadcast l s = Some (Ok s') →
    (∀ a_buf, pa s = AInsert a_buf → ∀ a w, l = RunA a w → cnt (shr s) = 0) → in_turn broadcast n s'.

Lemma in_turn_reachable broadcast n s : in_turn broadcast n s → reachable broadcast n s.
Proof. induction 1; econstructor; done. Qed.

(** The abstract queue. *)
Definition fifo (s : state) : Prop := ints (inserted s) = ints (pulled s) ++ contents (shr s).

Lemma fifo_step broadcast n l s s' :
  inv n s → fifo s → step broadcast l s = Some (Ok s') →
  (∀ a_buf, pa s = AInsert a_buf → ∀ a w, l = RunA a w → cnt (shr s) = 0) → fifo s'.
Proof.
  intros HI Hf Hst Hturn. pose proof (inv_shr _ _ HI) as Hs.
  assert (∀ s2, shr s2 = shr s → inserted s2 = inserted s → pulled s2 = pulled s → fifo s2) as Hsame.
  { intros s2 E1 E2 E3. unfold fifo. by rewrite E1, E2, E3. }
  destruct l as [a w|k|k]; simpl in Hst.
  - unfold tfunc_a in Hst. destruct (pa s) as [| | |a_buf|a_buf|f|f] eqn:Ep.
    + destruct a as [[]|]; try done; injection Hst as <-; by apply Hsame.
    + destruct a; [done|]. injection Hst as <-. by apply Hsame.
    + destruct a as [|[|c b]]; try done. case_match; [|done]. injection Hst as <-. by apply Hsame.
    + unfold lock in Hst. destruct (owner s); [done|]. injection Hst as <-. by apply Hsame.
    + destruct (insert_ok a_buf (shr s) Hs) as (r & E & _ & _ & Ec & Er). rewrite E in Hst. injection Hst as <-.
      unfold fifo. simpl. rewrite (batch_line _ _ _ Ec), (insert_contents _ _ _ Hs Ec Er), ints_app, Hf.
      unfold contents. rewrite (Hturn _ eq_refl a w eq_refl). simpl. by rewrite !app_nil_r.
    + injection Hst as <-. by apply Hsame.
    + destruct f; [|injection Hst as <-; by apply Hsame]. destruct broadcast; [injection Hst as <-; by apply Hsame|].
      unfold signal in Hst. destruct (existsb _ _); [case_decide; [|done]|]; injection Hst as <-; by apply Hsame.
  - unfold tfunc_b in Hst. destruct (pb s !! k) as [p|]; [|done]. simpl in Hst. destruct p.
    + unfold lock in Hst. destruct (owner s); [done|]. injection Hst as <-. by apply Hsame.
    + destruct (cnt (shr s) =? 0); injection Hst as <-; by apply Hsame.
    + done.
    + unfold lock in Hst. destruct (owner s); [done|]. injection Hst as <-. by apply Hsame.
    + destruct (Z.ltb_spec 0 (cnt (shr s))); [|injection Hst as <-; by apply Hsame].
      destruct (pull_ok (shr s) Hs) as (x & r & E & _ & _ & Ec); [done|]. rewrite E in Hst. injection Hst as <-.
      unfold fifo in *. simpl. by rewrite Hf, Ec, ints_app, <-(assoc_L (++)).
    + injection Hst as <-. by apply Hsame.
    + injection Hst as <-. by apply Hsame.
  - case_decide; [|done]. injection Hst as <-. by apply Hsame.
Qed.

(** Refinement of a first-in first-out queue, where the program has one: as
    long as (A) inserts only when the queue is empty, the items that the threads
    (B) have taken out, followed by the contents of the queue, are the items that
    were inserted, in order, under every interleaving. *)
Theorem cond_queue_fifo broadcast n s :
  (0 < n)%nat → in_turn broadcast n s →
  ∃ c, contents (shr s) = ints c ∧ inserted s = pulled s ++ c.
Proof.
  intros Hn Hr.
  assert (fifo s) as Hf.
  { induction Hr as [|l s s' Hr IH Hst Ht]; [done|]. eapply fifo_step; [|exact IH|exact Hst|exact Ht].
    by eapply queue_reachable_inv, in_turn_reachable. }
  unfold fifo, ints in Hf.
  assert (contents (shr s) = Some <$> drop (length (pulled s)) (inserted s)) as Ec.
  { rewrite fmap_drop, Hf. replace (length (pulled s)) with (length (Some <$> pulled s)) by apply length_fmap.
    by rewrite drop_app_length. }
  exists (drop (length (pulled s)) (inserted s)). split; [done|].
  apply (list_fmap_eq_inj Some); [by intros ?? [= ->]|]. by rewrite fmap_app, Hf, Ec.
Qed.

(** The insertion starts at the index of the oldest item instead of behind
    the newest: whatever (A) inserts while items are waiting overwrites the
    oldest of them, which are never taken out, and in their place the threads (B)
    get elements of the array that were taken out before or never set. *)
Theorem insert_overwrites broadcast n s a_buf a w s' :
  (0 < n)%nat → reachable broadcast n s → pa s = AInsert a_buf → step broadcast (RunA a w) s = Some (Ok s') →
  let b := batch a_buf (shr s) in
  ∃ stale, contents (shr s') = ints b ++ drop (length b) (contents (shr s)) ++ stale ∧
    length stale = (length b `min` length (contents (shr s)))%nat.
Proof.
  intros Hn Hr Ep Hst b. pose proof (inv_shr _ _ (queue_reachable_inv _ n Hn s Hr)) as Hs.
  simpl in Hst. unfold tfunc_a in Hst. rewrite Ep in Hst.
  destruct (insert_ok a_buf (shr s) Hs) as (r & E & Hr' & _ & Ec & Er). rewrite E in Hst. injection Hst as <-. simpl.
  fold b in Ec, Er. rewrite (insert_contents _ _ _ Hs Ec Er). fold b.
  set (k := length b) in *. unfold contents. set (m := Z.to_nat (cnt (shr s))). set (g := ring (shr s)).
  assert (length g = 20%nat) as Hg by (unfold g, ring; rewrite rot_length; apply Hs).
  assert (k + m ≤ 20)%nat as Hkm by (pose proof (ok_cnt _ Hr'); pose proof (ok_cnt _ Hs); unfold m; lia).
  exists (take (k `min` m) (drop (k `max` m) g)). rewrite !length_take, length_drop, Hg. split; [|lia].
  f_equal. destruct (Nat.le_ge_cases k m).
  - rewrite Nat.min_l, Nat.max_r by lia. rewrite take_drop_commute.
    replace (k + m)%nat with (m + k)%nat by lia. rewrite <-(take_drop m g) at 1.
    rewrite take_app, length_take, Hg, Nat.min_l, (take_ge (take m g)) by (rewrite ?length_take; lia).
    rewrite drop_app_le by (rewrite length_take; lia). f_equal. f_equal. lia.
  - rewrite Nat.min_r, Nat.max_l by lia. rewrite (drop_ge (take m g)) by (rewrite length_take; lia). done.
Qed.

(** ** Progress *)

(** A step that waits for no input and for no spurious wake-up. *)
Definition quiet (l : label) (s : state) : bool :=
  match l with
  | RunA _ _ => match pa s with AMkfifo | AOpen | ARead => false | _ => true end
  | RunB _ => true
  | Spurious _ => false
  end.
Definition qstep (broadcast : bool) (s s' : state) : Prop :=
  ∃ l, quiet l s = true ∧ step broadcast l s = Some (Ok s').

Section progress.
Context (broadcast : bool) (n : nat) (Hpos : (0 < n)%nat).

Definition pulls (s : state) : Prop :=
  ∃ s', rtc (qstep broadcast) s s' ∧ length (pulled s') = S (length (pulled s)).

Lemma pulls_step s s' : qstep broadcast s s' → pulled s' = pulled s → pulls s' → pulls s.
Proof. intros Hq E (s2 & Hr & Hl). exists s2. split; [by eapply rtc_l|by rewrite Hl, E]. Qed.

Lemma q_inv s s' : inv n s → qstep broadcast s s' → inv n s'.
Proof. intros HI (l & _ & Hst). exact (step_fine _ _ Hpos _ _ _ HI Hst). Qed.

Lemma b_step s k p s' : pb s !! k = Some p → tfunc_b k s = Some (Ok s') → qstep broadcast s s'.
Proof. intros _ H. by exists (RunB k). Qed.

Lemma pull_pulls s k : inv n s → pb s !! k = Some BPull → 0 < cnt (shr s) → pulls s.
Proof.
  intros HI Hk Hc. destruct (pull_ok (shr s) (inv_shr _ _ HI) Hc) as (x & r & E & _).
  eexists. split; [apply rtc_once; exists (RunB k); split; [done|]|].
  - simpl. unfold tfunc_b. rewrite Hk. simpl. rewrite (proj2 (Z.ltb_lt _ _)), E by done. done.
  - simpl. rewrite length_app. simpl. lia.
Qed.

Lemma test_pulls s k : inv n s → pb s !! k = Some BTest → 0 < cnt (shr s) → pulls s.
Proof.
  intros HI Hk Hc. assert (qstep broadcast s (goto_b k BPull s)) as Hq.
  { exists (RunB k). split; [done|]. simpl. unfold tfunc_b. rewrite Hk. simpl. by rewrite (proj2 (Z.eqb_neq _ _)) by lia. }
  eapply pulls_step; [exact Hq|done|]. eapply (pull_pulls _ k); [by eapply q_inv| |done].
  simpl. apply list_lookup_insert_eq. by eapply lookup_lt_Some.
Qed.

(** A thread (B) that is awake, while nobody has the mutex. *)
Lemma awake_pulls s k p :
  inv n s → owner s = None → pb s !! k = Some p → p ≠ BWait → 0 < cnt (shr s) → pulls s.
Proof.
  intros HI Ho Hk Hp Hc. pose proof (lookup_lt_Some _ _ _ Hk) as Hlt.
  assert (∀ s2, inv n s2 → owner s2 = None → pb s2 !! k = Some BLock → 0 < cnt (shr s2) → pulls s2) as Hlock.
  { intros s2 HI2 Ho2 Hk2 Hc2. assert (qstep broadcast s2 (goto_b k BTest (set_owner (Some (ThreadB k)) s2))) as Hq.
    { exists (RunB k). split; [done|]. simpl. unfold tfunc_b, lock. rewrite Hk2. simpl. by rewrite Ho2. }
    eapply pulls_step; [exact Hq|done|]. eapply (test_pulls _ k); [by eapply q_inv| |done].
    simpl. apply list_lookup_insert_eq. by eapply lookup_lt_Some. }
  destruct p; try done.
  - by apply Hlock.
  - by eapply test_pulls.
  - assert (qstep broadcast s (goto_b k BPull (set_owner (Some (ThreadB k)) s))) as Hq.
    { exists (RunB k). split; [done|]. simpl. unfold tfunc_b, lock. rewrite Hk. simpl. by rewrite Ho. }
    eapply pulls_step; [exact Hq|done|]. eapply (pull_pulls _ k); [by eapply q_inv| |done].
    simpl. by apply list_lookup_insert_eq.
  - by eapply pull_pulls.
  - exfalso. assert (owner s = Some (ThreadB k)) by (apply (inv_b _ _ HI); eauto). congruence.
  - assert (qstep broadcast s (goto_b k BLock s)) as Hq.
    { exists (RunB k). split; [done|]. simpl. unfold tfunc_b. by rewrite Hk. }
    eapply pulls_step; [exact Hq|done|]. apply Hlock; [by eapply q_inv|done| |done].
    simpl. by apply list_lookup_insert_eq.
Qed.

Lemma signal_possible s : ∃ w s', signal w s = Some s'.
Proof.
  unfold signal. destruct (existsb waits (pb s)) eqn:E; [|by exists 0%nat, s].
  apply existsb_exists in E as (p & [k Hk]%list_elem_of_In%list_elem_of_lookup & Hp).
  unfold waits in Hp. apply bool_decide_eq_true in Hp as ->. exists k. rewrite decide_True by done. by eexists.
Qed.

(** (A) about to wake somebody, or somebody awake. *)
Lemma free_pulls s : inv n s → owner s = None → 0 < cnt (shr s) → pulls s.
Proof.
  intros HI Ho Hc. destruct (inv_awake _ _ HI Hc) as [Hw|(k & p & Hk & Hp)]; [|by eapply awake_pulls].
  destruct (pa s) as [| | |l|l|f|f] eqn:Ep; simpl in Hw; try done.
  { exfalso. assert (owner s = Some ThreadA) by (apply (inv_a _ _ HI); by rewrite Ep). congruence. }
  subst f. assert (∃ s', qstep broadcast s s' ∧ shr s' = shr s ∧ owner s' = None ∧ pulled s' = pulled s ∧
    ∃ k p, pb s' !! k = Some p ∧ p ≠ BWait) as (s' & Hq & Es & Eo & El & k & p & Hk & Hp).
  { destruct broadcast eqn:Eb.
    - exists (goto_a ARead (broadcast_ s)). split_and!; try done.
      + exists (RunA (AOk []) 0). split; [simpl; by rewrite Ep|]. simpl. unfold tfunc_a. by rewrite Ep.
      + destruct (lookup_lt_is_Some_2 (pb s) 0) as [p Hp]; [rewrite (inv_n _ _ HI); lia|].
        exists 0%nat, (if waits p then BWake else p). simpl. rewrite list_lookup_fmap, Hp. split; [done|by destruct p].
    - destruct (signal_possible s) as (w & s1 & E1). destruct (signal_inv _ Hpos s w s1 HI E1) as (_ & _ & Eo1 & Es1 & Hk).
      exists (goto_a ARead s1). split_and!; simpl; [|done|by rewrite Eo1| |done].
      + exists (RunA (AOk []) w). split; [simpl; by rewrite Ep|]. simpl. unfold tfunc_a. by rewrite Ep, E1.
      + revert E1. unfold signal. destruct (existsb _ _); [case_decide|]; intros [= <-]; done. }
  eapply pulls_step; [exact Hq|done|]. eapply awake_pulls; [by eapply q_inv|done|done|done|by rewrite Es].
Qed.

Lemma unlock_pulls s f : inv n s → pa s = AUnlock f → 0 < cnt (shr s) → pulls s.
Proof.
  intros HI Ep Hc. assert (qstep broadcast s (goto_a (ASignal f) (set_owner None s))) as Hq.
  { exists (RunA (AOk []) 0). split; [simpl; by rewrite Ep|]. simpl. unfold tfunc_a. by rewrite Ep. }
  eapply pulls_step; [exact Hq|done|]. apply free_pulls; [by eapply q_inv|done|done].
Qed.

Lemma inv_pulls s : inv n s → 0 < cnt (shr s) → pulls s.
Proof.
  intros HI Hc. destruct (owner s) as [[|k]|] eqn:Eo; [| |by apply free_pulls].
  - apply (inv_a _ _ HI) in Eo. destruct (pa s) as [| | |l|l|f|f] eqn:Ep; try done; [|by eapply unlock_pulls].
    destruct (insert_ok l (shr s) (inv_shr _ _ HI)) as (r & E & _ & _ & Ec & _).
    assert (qstep broadcast s (State r (owner s) (AUnlock (cnt (shr s) =? 0)) (pb s)
      (inserted s ++ take (Z.to_nat (cnt r - cnt (shr s))) l) (pulled s))) as Hq.
    { exists (RunA (AOk []) 0). split; [simpl; by rewrite Ep|]. simpl. unfold tfunc_a. by rewrite Ep, E. }
    eapply pulls_step; [exact Hq|done|]. eapply unlock_pulls; [by eapply q_inv|done|simpl; lia].
  - apply (inv_b _ _ HI) in Eo as Hb. destruct Hb as (p & Hk & Hp). destruct p; try done.
    + by eapply test_pulls.
    + by eapply pull_pulls.
    + assert (qstep broadcast s (goto_b k (BJob item) (set_owner None s))) as Hq.
      { exists (RunB k). split; [done|]. simpl. unfold tfunc_b. by rewrite Hk. }
      eapply pulls_step; [exact Hq|done|]. apply free_pulls; [by eapply q_inv|done|done].
Qed.
End progress.

(** No wake-up is lost: whenever there are items in the queue, the threads
    can take one out without any further input and without a spurious wake-up,
    whatever the threads are doing, also where (A) wakes only one of several
    threads and does so after it has released the mutex. *)
Theorem pending_is_pulled broadcast n s :
  (0 < n)%nat → reachable broadcast n s → 0 < cnt (shr s) →
  ∃ s', rtc (qstep broadcast) s s' ∧ length (pulled s') = S (length (pulled s)).
Proof. intros Hn Hr. apply (inv_pulls broadcast n Hn). by eapply queue_reachable_inv. Qed.

(** ** Concrete runs *)
Definition a_starts : list label := [RunA (AOk []) 0; RunA (AOk []) 0].
(** (A) reads a text and is about to insert it. *)
Definition a_reads (t : list Z) : list label := [RunA (AOk t) 0; RunA (AOk []) 0].
Definition a_inserts : list label := [RunA (AOk []) 0; RunA (AOk []) 0; RunA (AOk []) 0].
(** A thread (B) takes an item and processes it. *)
Definition b_takes (k : nat) : list label := [RunB k; RunB k; RunB k; RunB k; RunB k].

Definition after (broadcast : bool) (n : nat) (ls : list label) : state :=
  match run broadcast ls (main_state n) with Some (Ok s) => s | _ => main_state n end.

Lemma run_reachable broadcast n ls s s' :
  reachable broadcast n s → run broadcast ls s = Some (Ok s') → reachable broadcast n s'.
Proof.
  revert s. induction ls as [|l ls IH]; intros s Hr; simpl; [by intros [= <-]|].
  destruct (step broadcast l s) as [[s1|]|] eqn:E; [|done|done]. apply IH. by econstructor.
Qed.
Lemma after_reachable broadcast n ls :
  (∃ s, run broadcast ls (main_state n) = Some (Ok s)) → reachable broadcast n (after broadcast n ls).
Proof. intros [s E]. unfold after. rewrite E. eapply run_reachable; [constructor|exact E]. Qed.

(** Two threads (B) wait when (A) inserts two items and wakes one of them. *)
Definition two_wait : list label := [RunB 0; RunB 0; RunB 1; RunB 1] ++ a_starts ++ a_reads [65; 66] ++ a_inserts.

Lemma cond_queue_safe_witness :
  (∃ r, run false two_wait (main_state 2) = Some (Ok r)) ∧ cnt (shr (after false 2 two_wait)) = 2 ∧
  Z.of_nat (length (inserted (after false 2 two_wait))) = Z.of_nat (length (pulled (after false 2 two_wait))) + 2.
Proof.
  assert (∃ r, run false two_wait (main_state 2) = Some (Ok r)) as Hr by (eexists; vm_compute; reflexivity).
  split; [done|]. split; [by vm_compute|].
  destruct (cond_queue_safe false 2 (after false 2 two_wait)) as (E & _); [lia|by apply after_reachable|exact E].
Defined.

Lemma pending_is_pulled_witness :
  ∃ s', rtc (qstep false) (after false 2 two_wait) s' ∧ length (pulled s') = 1%nat.
Proof.
  apply (pending_is_pulled false 2 (after false 2 two_wait)); [lia| |by vm_compute].
  apply after_reachable. eexists. vm_compute. reflexivity.
Defined.

(** Whether (A) inserts only into an empty queue. *)
Fixpoint turns (broadcast : bool) (ls : list label) (s : state) : bool :=
  match ls with
  | [] => true
  | l :: ls =>
      match pa s, l with AInsert _, RunA _ _ => cnt (shr s) =? 0 | _, _ => true end &&
      match step broadcast l s with Some (Ok s') => turns broadcast ls s' | _ => false end
  end.
Lemma turns_in_turn broadcast n ls s s' :
  in_turn broadcast n s → turns broadcast ls s = true → run broadcast ls s = Some (Ok s') → in_turn broadcast n s'.
Proof.
  revert s. induction ls as [|l ls IH]; intros s Hi; cbn [turns run]; [by intros _ [= <-]|].
  intros [Hc Ht]%andb_prop. destruct (step broadcast l s) as [[s1|]|] eqn:E; [|done|done]. apply IH; [|done].
  econstructor; [done|exact E|]. intros a_buf Ha a w ->. rewrite Ha in Hc. by apply Z.eqb_eq.
Qed.

(** The second text arrives when the first has been taken out. *)
Definition one_by_one : list label :=
  a_starts ++ a_reads [65; 66; 10] ++ a_inserts ++ b_takes 0 ++ b_takes 0 ++ a_reads [67; 68] ++ a_inserts ++ b_takes 0.

Lemma cond_queue_fifo_witness :
  pulled (after false 1 one_by_one) = [65; 66; 67] ∧
  ∃ c, contents (shr (after false 1 one_by_one)) = ints c ∧
    inserted (after false 1 one_by_one) = pulled (after false 1 one_by_one) ++ c.
Proof.
  split; [by vm_compute|]. apply (cond_queue_fifo false 1); [lia|].
  apply (turns_in_turn false 1 one_by_one (main_state 1)); [constructor|by vm_compute|by vm_compute].
Defined.

(** It arrives before. *)
Definition too_early : list label := a_starts ++ a_reads [65; 66] ++ a_inserts ++ a_reads [67].

Lemma insert_overwrites_witness :
  ∃ s' stale, step false (RunA (AOk []) 0) (after false 1 too_early) = Some (Ok s') ∧
    contents (shr (after false 1 too_early)) = ints [65; 66] ∧
    contents (shr s') = ints [67] ++ ints [66] ++ stale ∧ length stale = 1%nat.
Proof.
  eexists.
  destruct (insert_overwrites false 1 (after false 1 too_early) [67] (AOk []) 0%nat
    (after false 1 (too_early ++ [RunA (AOk []) 0]))) as (stale & E & Hl).
  - lia.
  - apply after_reachable. eexists. vm_compute. reflexivity.
  - by vm_compute.
  - by vm_compute.
  - exists stale. split; [by vm_compute|]. split; [by vm_compute|]. split; [exact E|exact Hl].
Defined.
