(* ===== verification/CondRts.v ===== *)
(** * The queue between threads with a signal after each job
    ([10.realtime/pthread_cond_rts.c])

    The program of [CondQueue], woken by [pthread_cond_broadcast], in which a
    thread (B), after each job, queues the process a real-time signal that carries
    the thread; the handler prints that the thread's work is complete.  The states
    and steps are those of [CondQueue], whose text of thread (A), of the locking
    and of [process_job] the program repeats, with the signals beside them. *)

From stdpp Require Import base gmap list.
From Stdlib Require Import ZArith Lia.
From S2P Require Import Prelude Arrays CondQueue.

Local Open Scope Z_scope.

(** [pending]: the signals queued and not yet delivered, by the thread they
    carry; [reports]: the lines printed by the handler; [finished] is auxiliary
    and records the threads that finished a job. *)
Record state := State {
  base : CondQueue.state; pending : list nat; reports : list nat; finished : list nat
}.
Definition with_base (q : CondQueue.state) (s : state) : state :=
  State q (pending s) (reports s) (finished s).
Definition on_base (r : option (res CondQueue.state)) (s : state) : option (res state) :=
  r ← r; Some (q ← r; Ok (with_base q s)).

Definition tfunc_a (a : answer) (w : nat) (s : state) : option (res state) :=
  on_base (CondQueue.tfunc_a true a w (base s)) s.

(** [sigqueue] fails when too many signals are queued. *)
Definition tfunc_b (queued : bool) (k : nat) (s : state) : option (res state) :=
  p ← pb (base s) !! k;
  match p with
  | BJob _ =>
      if queued then
        r ← CondQueue.tfunc_b k (base s);
        Some (q ← r; Ok (State q (pending s ++ [k]) (reports s) (finished s ++ [k])))
      else Some (Err (Exited 1))
  | _ => on_base (CondQueue.tfunc_b k (base s)) s
  end.

(** Signals of one number are delivered in the order they were queued; the
    handler may interrupt any thread anywhere, and touches nothing of theirs. *)
Definition h_sigev_rt1 (s : state) : option (res state) :=
  match pending s with
  | [] => None
  | k :: ks => Some (Ok (State (base s) ks (reports s ++ [k]) (finished s)))
  end.

Inductive label : Set := RunA (a : answer) (w : nat) | RunB (queued : bool) (k : nat) | Signal | Spurious (k : nat).
Definition step (l : label) (s : state) : option (res state) :=
  match l with
  | RunA a w => tfunc_a a w s
  | RunB queued k => tfunc_b queued k s
  | Signal => h_sigev_rt1 s
  | Spurious k => on_base (CondQueue.step true (CondQueue.Spurious k) (base s)) s
  end.

(** [main] sets the handler before it starts the threads, of which three are (B). *)
Definition MAX_THREAD_B : nat := 3.
Definition main_state : state := State (CondQueue.main_state MAX_THREAD_B) [] [] [].

Inductive reachable : state → Prop :=
| reach_main : reachable main_state
| reach_step l s s' : reachable s → step l s = Some (Ok s') → reachable s'.
