(* ===== verification/SpecKey.v ===== *)
(** * The queue between threads with thread-specific data
    ([8.pthread/pthread_speckey.c])

    The program of [CondQueue] in which each thread (B) keeps the sum and the last
    of its items in thread-specific data, and does not look again when it is woken
    and finds nothing.  The states and steps are those of [CondQueue], whose text
    of thread (A) and of the locking the program repeats, with the data beside
    them. *)

From stdpp Require Import base gmap list.
From Stdlib Require Import ZArith Lia.
From S2P Require Import Prelude Arrays CondQueue.

Local Open Scope Z_scope.

(** A thread's [struct private_data] and its variable [buf_item], unset at
    first.  [jobs] is auxiliary: the items it has processed. *)
Record private_data := Private { sum : Z; last : Z; buf_item : option Z; jobs : list Z }.
Record state := State { base : CondQueue.state; private : list private_data }.

Definition on_base (r : option (res CondQueue.state)) (s : state) : option (res state) :=
  r ← r; Some (q ← r; Ok (State q (private s))).

Definition tfunc_a (a : answer) (w : nat) (s : state) : option (res state) :=
  on_base (CondQueue.tfunc_a true a w (base s)) s.

(** The part of [process_job] after [sleep]. *)
Definition add_item (pd : private_data) : res private_data :=
  item ← res_of BadAccess (buf_item pd);
  if int_ok (sum pd + item) then Ok (Private (sum pd + item) item (Some item) (jobs pd ++ [item]))
  else Err IntOverflow.

(** [if (cnt > 0)] has no [else]: a thread that is woken and finds nothing goes
    on to unlock the mutex and to process [buf_item] as it is.  A thread whose
    [calloc] fails returns before its first step, as if it were never run. *)
Definition tfunc_b (k : nat) (s : state) : option (res state) :=
  p ← pb (base s) !! k;
  pd ← private s !! k;
  match p with
  | BPull =>
      if 0 <? cnt (shr (base s)) then
        Some ('(item, q) ← pull_item (shr (base s));
              Ok (State (CondQueue.State q (owner (base s)) (pa (base s)) (<[k := BUnlock item]> (pb (base s)))
                           (inserted (base s)) (pulled (base s) ++ [item]))
                    (<[k := Private (sum pd) (last pd) (Some item) (jobs pd)]> (private s))))
      else Some (Ok (State (goto_b k (BUnlock (default 0 (buf_item pd))) (base s)) (private s)))
  | BJob _ =>
      Some (pd ← add_item pd; Ok (State (goto_b k BLock (base s)) (<[k := pd]> (private s))))
  | _ => on_base (CondQueue.tfunc_b k (base s)) s
  end.

Definition step (l : label) (s : state) : option (res state) :=
  match l with
  | RunA a w => tfunc_a a w s
  | RunB k => tfunc_b k s
  | Spurious k => on_base (CondQueue.step true (Spurious k) (base s)) s
  end.

Definition main_state : state :=
  State (CondQueue.main_state 3) (replicate 3 (Private 0 0 None [])).

Fixpoint run (ls : list label) (s : state) : option (res state) :=
  match ls with
  | [] => Some (Ok s)
  | l :: ls => match step l s with Some (Ok s') => run ls s' | r => r end
  end.

Inductive reachable : state → Prop :=
| reach_main : reachable main_state
| reach_step l s s' : reachable s → step l s = Some (Ok s') → reachable s'.
