(* ===== verification/CondVariantsProofs.v ===== *)
(** * Variants of the queue between threads: correctness

    The program with signals is the queue of [CondQueue] for all that concerns
    the queue, and reports each job once, in order.  The one with thread-specific
    data keeps its sums right, but processes items that it did not get. *)

From S2P Require Import CondRts SpecKey.
From stdpp Require Import base gmap list.
From Stdlib Require Import ZArith Lia.
From S2P Require Import Prelude Arrays CondQueue CondQueueProofs.

Local Open Scope Z_scope.

(** ** With a signal after each job *)

(** A thread that has an item that it has not finished. *)
Definition busy (p : pc_b) : nat := match p with BUnlock _ | BJob _ => 1 | _ => 0 end.
Abbreviation busies := (sum_list_with busy).

Lemma busies_wake ps : busies ((λ p, if waits p then BWake else p) <$> ps) = busies ps.
Proof.
  induction ps as [|x ps IH]; [done|].
  change (busy (if waits x then BWake else x) + busies ((λ p, if waits p then BWake else p) <$> ps) = busy x + busies ps)%nat.
  rewrite IH. by destruct x.
Qed.

(** Steps of (A) finish no job and start none. *)
Lemma tfunc_a_jobs a w q q' : tfunc_a true a w q = Some (Ok q') → pulled q' = pulled q ∧ busies (pb q') = busies (pb q).
Proof.
  unfold tfunc_a, lock. destruct (pa q) as [| | |a_buf|a_buf|f|f].
  - destruct a as [[]|]; intros [= <-]; done.
  - destruct a; intros [= <-]; done.
  - destruct a as [|[|c l]]; try done. case_match; [|done]. by intros [= <-].
  - destruct (owner q); [done|]. by intros [= <-].
  - destruct (insert_items _ _) as [r|]; [|done]. by intros [= <-].
  - by intros [= <-].
  - destruct f; intros [= <-]; [|done]. simpl. split; [done|]. apply busies_wake.
Qed.
Lemma tfunc_b_jobs k p q q' : pb q !! k = Some p → tfunc_b k q = Some (Ok q') →
  (length (pulled q') + busies (pb q) + match p with BJob _ => 1 | _ => 0 end =
   length (pulled q) + busies (pb q') + match p with BJob _ => 2 | _ => 0 end)%nat.
Proof.
  intros Hk. unfold tfunc_b, lock. rewrite Hk. simpl.
  assert (∀ q2 c, pb q2 = <[k := c]> (pb q) → (busies (pb q2) + busy p = busies (pb q) + busy c)%nat) as Hb.
  { intros q2 c ->. by apply (sum_insert busy). }
  destruct p; try done.
  - destruct (owner q); [done|]. intros [= <-]. specialize (Hb (goto_b k BTest (set_owner (Some (ThreadB k)) q)) BTest eq_refl). simpl in *. lia.
  - destruct (_ =? 0); intros [= <-]; [specialize (Hb (goto_b k BWait (set_owner None q)) BWait eq_refl)|specialize (Hb (goto_b k BPull q) BPull eq_refl)]; simpl in *; lia.
  - destruct (owner q); [done|]. intros [= <-]. specialize (Hb (goto_b k BPull (set_owner (Some (ThreadB k)) q)) BPull eq_refl). simpl in *. lia.
  - destruct (0 <? _).
    + destruct (pull_item (shr q)) as [[x r]|]; [|done]. intros [= <-].
      pose proof (sum_insert busy (pb q) k _ (BUnlock x) Hk). simpl in *. rewrite length_app. simpl. lia.
    + intros [= <-]. specialize (Hb (goto_b k BTest q) BTest eq_refl). simpl in *. lia.
  - intros [= <-]. specialize (Hb (goto_b k (BJob item) (set_owner None q)) (BJob item) eq_refl). simpl in *. lia.
  - intros [= <-]. specialize (Hb (goto_b k BLock q) BLock eq_refl). simpl in *. lia.
Qed.

Record rts_inv (s : CondRts.state) : Prop := {
  ri_base : reachable true CondRts.MAX_THREAD_B (CondRts.base s);
  ri_order : CondRts.finished s = CondRts.reports s ++ CondRts.pending s;
  ri_count : length (pulled (CondRts.base s)) = (length (CondRts.finished s) + busies (pb (CondRts.base s)))%nat
}.

Lemma rts_base s r q : rts_inv s → (∃ l, step true l (CondRts.base s) = Some r) → r = Ok q →
  (length (pulled q) + busies (pb (CondRts.base s)) = length (pulled (CondRts.base s)) + busies (pb q))%nat →
  rts_inv (CondRts.with_base q s).
Proof.
  intros [Hb Ho Hc] [l Hl] -> Hn. split; [|done|simpl; lia]. by econstructor.
Qed.

(** The program is the queue program with its three threads (B), whatever
    the signals do; the handler reports the finished jobs, each of them once and
    in the order they were finished, while their signals are pending or
    delivered; and each item that was taken out is finished or in the hands of
    one thread. *)
Theorem rts_reports s : CondRts.reachable s →
  reachable true CondRts.MAX_THREAD_B (CondRts.base s) ∧ CondRts.finished s = CondRts.reports s ++ CondRts.pending s ∧
  length (pulled (CondRts.base s)) = (length (CondRts.finished s) + busies (pb (CondRts.base s)))%nat.
Proof.
  intros Hr. assert (rts_inv s) as [? ? ?]; [|done].
  induction Hr as [|l s s' Hr IH Hst]; [split; [constructor|done|done]|].
  destruct l as [a w|queued k| |k]; simpl in Hst.
  - unfold CondRts.tfunc_a, CondRts.on_base in Hst. destruct (tfunc_a true a w (CondRts.base s)) as [[q|]|] eqn:E; [|done|done].
    injection Hst as <-. destruct (tfunc_a_jobs _ _ _ _ E) as [E1 E2].
    eapply rts_base; [done|by exists (CondQueue.RunA a w)|done|]. by rewrite E1, E2.
  - unfold CondRts.tfunc_b in Hst. destruct (pb (CondRts.base s) !! k) as [p|] eqn:Ep; [|done]. simpl in Hst.
    assert (∀ r, CondRts.on_base (tfunc_b k (CondRts.base s)) s = Some (Ok r) → match p with BJob _ => False | _ => True end → rts_inv r) as Hother.
    { intros r Hb Hp. unfold CondRts.on_base in Hb. destruct (tfunc_b k (CondRts.base s)) as [[q|]|] eqn:E; [|done|done].
      injection Hb as <-. pose proof (tfunc_b_jobs _ _ _ _ Ep E) as Hj.
      eapply rts_base; [done|by exists (CondQueue.RunB k)|done|]. destruct p; simpl in Hj, Hp; first [done|lia]. }
    destruct p; try by eapply Hother.
    destruct queued; [|done]. destruct (tfunc_b k (CondRts.base s)) as [[q|]|] eqn:E; [|done|done]. simpl in Hst.
    injection Hst as <-. pose proof (tfunc_b_jobs _ _ _ _ Ep E) as Hj. destruct IH as [Hb Ho Hc]. split; simpl.
    + apply (reach_step true _ (CondQueue.RunB k) (CondRts.base s)); [done|exact E].
    + by rewrite Ho, (assoc_L app).
    + rewrite length_app. simpl in *. lia.
  - unfold CondRts.h_sigev_rt1 in Hst. destruct (CondRts.pending s) as [|k ks] eqn:E; [done|]. injection Hst as <-.
    destruct IH as [Hb Ho Hc]. split; [done| |done]. simpl. by rewrite Ho, E, <-(assoc_L app).
  - unfold CondRts.on_base in Hst. simpl in Hst. case_decide as Hk; [|done]. injection Hst as <-.
    eapply rts_base; [done|exists (CondQueue.Spurious k); simpl; by rewrite decide_True|done|].
    pose proof (sum_insert busy _ k _ BWake Hk). simpl in *. lia.
Qed.

(** A run: (A) inserts two items, a thread (B) finishes both, and the first of
    its signals is delivered. *)
Definition rts_a (ls : list CondQueue.label) : list CondRts.label :=
  (λ l, match l with CondQueue.RunA a w => CondRts.RunA a w | CondQueue.RunB k => CondRts.RunB true k
        | CondQueue.Spurious k => CondRts.Spurious k end) <$> ls.
Fixpoint rts_run (ls : list CondRts.label) (s : CondRts.state) : option (res CondRts.state) :=
  match ls with
  | [] => Some (Ok s)
  | l :: ls => match CondRts.step l s with Some (Ok s') => rts_run ls s' | r => r end
  end.
Lemma rts_run_reachable ls : ∀ s s', CondRts.reachable s → rts_run ls s = Some (Ok s') → CondRts.reachable s'.
Proof.
  induction ls as [|l ls IH]; intros s s' Hr; simpl; [by intros [= <-]|].
  destruct (CondRts.step l s) as [[s1|]|] eqn:E; [|done|done]. apply IH. by econstructor.
Qed.
Definition rts_labels : list CondRts.label :=
  rts_a (a_starts ++ a_reads [65; 66] ++ a_inserts ++ b_takes 0 ++ b_takes 0) ++ [CondRts.Signal].

Lemma rts_reports_witness : ∃ s, rts_run rts_labels CondRts.main_state = Some (Ok s) ∧
  CondRts.reports s = [0%nat] ∧ CondRts.pending s = [0%nat] ∧ CondRts.finished s = CondRts.reports s ++ CondRts.pending s.
Proof.
  assert (∃ s, rts_run rts_labels CondRts.main_state = Some (Ok s)) as [s E] by (eexists; vm_compute; reflexivity).
  exists s. split; [done|].
  assert (CondRts.reports s = [0%nat] ∧ CondRts.pending s = [0%nat]) as [Er Ep].
  { revert E. vm_compute. by intros [= <-]. }
  split; [done|]. split; [done|]. apply (rts_reports s). eapply rts_run_reachable; [constructor|exact E].
Defined.

(** ** With thread-specific data *)

(** The data of a thread agree with the items that it has processed, all of
    which were taken out of the queue. *)
Record data_ok (taken : list Z) (pd : SpecKey.private_data) : Prop := {
  do_sum : SpecKey.sum pd = foldr Z.add 0 (SpecKey.jobs pd);
  do_last : SpecKey.last pd = default 0 (last (SpecKey.jobs pd));
  do_item x : SpecKey.buf_item pd = Some x → x ∈ taken;
  do_jobs : Forall (.∈ taken) (SpecKey.jobs pd)
}.
Record sk_inv (s : SpecKey.state) : Prop := {
  si_base : inv 3 (SpecKey.base s);
  si_data : Forall (data_ok (pulled (SpecKey.base s))) (SpecKey.private s)
}.

Lemma data_ok_more taken x pd : data_ok taken pd → data_ok (taken ++ [x]) pd.
Proof.
  intros [Hs Hl Hi Hj]. split; [done|done| |].
  - intros y Hy. apply elem_of_app. left. by apply Hi.
  - eapply Forall_impl; [exact Hj|]. intros y Hy. apply elem_of_app. by left.
Qed.
Lemma foldr_snoc l x : foldr Z.add 0 (l ++ [x]) = foldr Z.add 0 l + x.
Proof. induction l as [|y l IH]; simpl; [lia|]. rewrite IH. lia. Qed.
Lemma data_ok_add taken pd pd' : data_ok taken pd → SpecKey.add_item pd = Ok pd' → data_ok taken pd'.
Proof.
  intros [Hs Hl Hi Hj]. unfold SpecKey.add_item. destruct (SpecKey.buf_item pd) as [x|] eqn:E; [|done]. simpl.
  case_match; [|done]. intros [= <-]. split; simpl.
  - by rewrite foldr_snoc, Hs.
  - by rewrite last_snoc.
  - intros y [= <-]. by apply Hi.
  - apply Forall_app. split; [done|]. constructor; [by apply Hi|done].
Qed.

(** What can end the program. *)
Definition sk_fault (s : SpecKey.state) (e : fault) : Prop :=
  e = Exited 1 ∨
  ∃ k pd x, SpecKey.private s !! k = Some pd ∧ pb (SpecKey.base s) !! k = Some (BJob x) ∧
    ((e = BadAccess ∧ SpecKey.buf_item pd = None) ∨
     (e = IntOverflow ∧ ∃ y, SpecKey.buf_item pd = Some y ∧ ¬ is_int (SpecKey.sum pd + y))).

Definition sk_fine (s : SpecKey.state) (r : res SpecKey.state) : Prop :=
  match r with Ok s' => sk_inv s' | Err e => sk_fault s e end.

Lemma sk_other s (r : option (res CondQueue.state)) q :
  sk_inv s → (∀ c, r = Some c → fine 3 c ∧ ∀ b, c = Ok b → pulled b = pulled (SpecKey.base s)) →
  SpecKey.on_base r s = Some q → sk_fine s q.
Proof.
  intros [Hb Hd] Hr. unfold SpecKey.on_base. destruct r as [[b|e]|]; [| |done]; intros [= <-].
  - destruct (Hr _ eq_refl) as [Hf Hp]. split; [done|]. simpl. by rewrite (Hp b eq_refl).
  - destruct (Hr _ eq_refl) as [Hf _]. by left.
Qed.

Lemma sk_step_fine l s r : sk_inv s → SpecKey.step l s = Some r → sk_fine s r.
Proof.
  intros HI. pose proof HI as [Hb Hd]. destruct l as [a w|k|k]; simpl.
  - apply sk_other; [done|]. intros c Hc. split; [eapply tfunc_a_fine, Hc; [lia|done]|]. intros b ->. by eapply tfunc_a_jobs.
  - unfold SpecKey.tfunc_b. destruct (pb (SpecKey.base s) !! k) as [p|] eqn:Ep; [|done].
    destruct (SpecKey.private s !! k) as [pd|] eqn:Ed; [|done]. simpl.
    pose proof (Forall_lookup_1 _ _ _ _ Hd Ed) as Hpd.
    assert (∀ q, b_holds q = b_holds p → q ≠ BWait → inv 3 (goto_b k q (SpecKey.base s))) as Hgo.
    { intros q Hq Hw. rewrite <-(set_owner_same (SpecKey.base s)). eapply inv_goto_b; [done|done|by left|done]. }
    destruct p; try (apply sk_other; [done|]; intros c Hc; split; [eapply tfunc_b_fine, Hc; [lia|done]|];
      intros b ->; revert Hc; unfold tfunc_b, lock; rewrite Ep; simpl; repeat case_match; intros; simplify_eq; done).
    + destruct (Z.ltb_spec 0 (cnt (shr (SpecKey.base s)))) as [Hc|Hc]; intros [= <-].
      * destruct (pull_ok _ (inv_shr _ _ Hb) Hc) as (x & q & E & _). rewrite E. simpl. split; simpl.
        -- apply pull_inv; [lia|done..].
        -- apply Forall_insert; [eapply Forall_impl; [exact Hd|]; intros; by apply data_ok_more|].
           apply (data_ok_more _ x) in Hpd as [? ? ? ?]. split; [done|done| |done]. simpl. intros y [= <-].
           apply elem_of_app. right. by apply list_elem_of_singleton.
      * split; [by apply Hgo|done].
    + intros [= <-]. destruct (SpecKey.add_item pd) as [pd'|e] eqn:Ea; simpl.
      * split; [by apply Hgo|]. apply Forall_insert; [done|]. by eapply data_ok_add.
      * right. exists k, pd, item. split; [done|]. split; [done|]. revert Ea. unfold SpecKey.add_item.
        destruct (SpecKey.buf_item pd) as [y|]; simpl; [|intros [= <-]; by left].
        destruct (int_ok _) eqn:Ei; [done|]. intros [= <-]. right. split; [done|]. exists y. split; [done|].
        intros Hi. by rewrite int_ok_true in Ei.
  - apply sk_other; [done|]. intros c. case_decide as Hk; [|done]. intros [= <-]. split; [by apply inv_wake_one|].
    by intros b [= <-].
Qed.

(** In every state of the program with thread-specific data, the queue is
    safe; each thread's data are the sum and the last of the items it has
    processed, which were all taken out of the queue; and the program ends only
    with the exit of (A), a sum that does not fit an [int], or a thread that
    processes an item before it ever got one. *)
Theorem speckey_sums s : SpecKey.reachable s →
  0 ≤ cnt (shr (SpecKey.base s)) ≤ 20 ∧
  (∀ k pd, SpecKey.private s !! k = Some pd →
     SpecKey.sum pd = foldr Z.add 0 (SpecKey.jobs pd) ∧ SpecKey.last pd = default 0 (last (SpecKey.jobs pd)) ∧
     Forall (.∈ pulled (SpecKey.base s)) (SpecKey.jobs pd)) ∧
  ∀ l e, SpecKey.step l s = Some (Err e) → sk_fault s e.
Proof.
  intros Hr. assert (sk_inv s) as HI.
  { induction Hr as [|l s s' Hr IH Hst]; [|exact (sk_step_fine _ _ _ IH Hst)].
    split; [apply main_inv|]. repeat constructor; done. }
  pose proof HI as [Hb Hd]. split; [apply (ok_cnt _ (inv_shr _ _ Hb))|]. split.
  - intros k pd Hk. destruct (Forall_lookup_1 _ _ _ _ Hd Hk). done.
  - intros l e Hst. exact (sk_step_fine _ _ _ HI Hst).
Qed.

Lemma sk_run_reachable ls : ∀ s s', SpecKey.reachable s → SpecKey.run ls s = Some (Ok s') → SpecKey.reachable s'.
Proof.
  induction ls as [|l ls IH]; intros s s' Hr; simpl; [by intros [= <-]|].
  destruct (SpecKey.step l s) as [[s1|]|] eqn:E; [|done|done]. apply IH. by econstructor.
Qed.

(** Two threads wait when one item arrives: both are woken, and the second, which
    finds nothing, processes its variable, which it never set. *)
Definition one_for_two : list label :=
  [RunB 0; RunB 0; RunB 1; RunB 1] ++ a_starts ++ a_reads [65] ++ a_inserts ++ [RunB 0; RunB 0; RunB 0].
Theorem unset_item_processed :
  SpecKey.run (one_for_two ++ [RunB 1; RunB 1; RunB 1; RunB 1]) SpecKey.main_state = Some (Err BadAccess).
Proof. vm_compute. reflexivity. Qed.

(** A thread that got an item before processes it again. *)
Definition again : list label :=
  a_starts ++ a_reads [65] ++ a_inserts ++ b_takes 0 ++ [RunB 0; RunB 0; RunB 1; RunB 1] ++ a_reads [66] ++ a_inserts ++
  [RunB 1; RunB 1; RunB 1] ++ [RunB 0; RunB 0; RunB 0; RunB 0].
Theorem stale_item_processed : ∃ s pd,
  SpecKey.run again SpecKey.main_state = Some (Ok s) ∧ SpecKey.private s !! 0%nat = Some pd ∧
  pulled (SpecKey.base s) = [65; 66] ∧ SpecKey.jobs pd = [65; 65] ∧ SpecKey.sum pd = 130.
Proof. eexists _, _. split; [vm_compute; reflexivity|]. by vm_compute. Qed.

Lemma speckey_sums_witness : ∃ s, SpecKey.run again SpecKey.main_state = Some (Ok s) ∧
  (0 ≤ cnt (shr (SpecKey.base s)) ≤ 20 ∧
  (∀ k pd, SpecKey.private s !! k = Some pd →
     SpecKey.sum pd = foldr Z.add 0 (SpecKey.jobs pd) ∧ SpecKey.last pd = default 0 (last (SpecKey.jobs pd)) ∧
     Forall (.∈ pulled (SpecKey.base s)) (SpecKey.jobs pd)) ∧
  ∀ l e, SpecKey.step l s = Some (Err e) → sk_fault s e).
Proof.
  assert (∃ s, SpecKey.run again SpecKey.main_state = Some (Ok s)) as [s E] by (eexists; vm_compute; reflexivity).
  exists s. split; [done|]. apply speckey_sums. eapply sk_run_reachable; [constructor|exact E].
Defined.
