(* ===== verification/Ppm.v ===== *)
(** * The password probability matrix
    ([hacking_the_art_of_exploitation_booksrc/ppm_gen.c], [ppm_crack.c])

    The first program hashes every password of four printable characters and
    writes, for each of four parts of the hash, which pairs of first and of last
    characters lead to it, as bits of a matrix of 141 MB; the second one uses the
    file to find the password of a hash.

    [crypt] of the C library is a parameter.  The matrix is a function from the
    index of a byte, since neither program looks at more of it at a time; what
    [malloc] leaves in it is a parameter, since it is not cleared.  A [char] that
    holds bits is taken as the byte 0..255.  Progress messages are not modelled. *)

From stdpp Require Import functions base gmap list strings.
From Stdlib Require Import ZArith Lia.
From S2P Require Import Prelude Arrays.

Local Open Scope Z_scope.

Definition HEIGHT : Z := 16384.
Definition WIDTH : Z := 1129.
Definition DEPTH : Z := 8.
Definition SIZE : Z := HEIGHT * WIDTH * DEPTH.
Definition DCM : Z := HEIGHT * WIDTH.

(** [j] is not set for a character that is not in a hash. *)
Definition enum_hashbyte (a : Z) : res Z :=
  if (46 <=? a) && (a <=? 57) then Ok (a - 46)
  else if (65 <=? a) && (a <=? 90) then Ok (a - 53)
  else if (97 <=? a) && (a <=? 122) then Ok (a - 59)
  else Err BadAccess.

Definition enum_hashtriplet (a b c : Z) : res Z :=
  c ← enum_hashbyte c; a ← enum_hashbyte a; b ← enum_hashbyte b;
  Ok (Z.rem c 4 * 4096 + a * 64 + b).

(** The three characters of a string from index [i] on. *)
Definition triplet_at (code : list Z) (i : Z) : res Z :=
  let code := ints (code ++ [0]) in
  a ← rd code i; b ← rd code (i + 1); c ← rd code (i + 2); enum_hashtriplet a b c.

(** ** [ppm_gen.c] *)
Abbreviation matrix := (Z → Z) (only parsing).

(** [data[(val*WIDTH)+(charval/8)] |= (1<<(charval%8))]. *)
Definition set_bit (val charval : Z) (data : matrix) : res matrix :=
  let i := u32 (u32 (val * WIDTH) + charval / 8) in
  if i <? SIZE then Ok (<[i := Z.lor (data i) (Z.shiftl 1 (charval mod 8))]> data) else Err BadAccess.

Section crypt.
Context (crypt : list Z → list Z → list Z).

(** The pairs of characters of a password, for the part of the hash that starts at [n]. *)
Definition store_part (code : list Z) (m n i j k l : Z) (data : matrix) : res matrix :=
  t ← triplet_at code n;
  let val := m * HEIGHT + t in
  data ← set_bit val ((i - 32) * 95 + (j - 32)) data;
  set_bit (val + HEIGHT * 4) ((k - 32) * 95 + (l - 32)) data.

Definition add_password (i j k l : Z) (data : matrix) : res matrix :=
  let plain := [i; j; k; l] in
  let code := crypt plain (cs "je") in
  data ← store_part code 0 2 i j k l data;
  data ← store_part code 1 4 i j k l data;
  data ← store_part code 2 6 i j k l data;
  store_part code 3 8 i j k l data.

(** A file: its length and its bytes. *)
Record file := File { fsize : Z; fbyte : matrix }.

(** [writable]: whether the file can be opened; [data]: the memory that [malloc]
    returns. *)
Definition gen_main (writable : bool) (data : option matrix) : res file :=
  if negb writable then Err (Exited 1)
  else
    match data with
    | None => Err (Exited 1)
    | Some data =>
        data ← for_ 95 32 (λ i, for_ 95 32 (λ j, for_ 95 32 (λ k, for_ 95 32 (λ l, add_password i j k l)))) data;
        Ok (File SIZE data)
    end.

(** ** [ppm_crack.c] *)
Definition merge (vector1 vector2 : arr) : res arr :=
  for_ (Z.to_nat WIDTH) 0 (λ i v, x ← rd v i; y ← rd vector2 i; wr v i (Z.land x y)) vector1.

Definition get_vector_bit (vector : arr) (index : Z) : res Z :=
  x ← rd vector (index / 8); Ok (Z.shiftr (Z.land (schar x) (Z.shiftl 1 (index mod 8))) (index mod 8)).

Definition count_vector_bits (vector : arr) : res Z :=
  for_ (Z.to_nat 9025) 0 (λ i count, b ← get_vector_bit vector i; Ok (count + b)) 0.

(** The pairs that are printed. *)
Definition print_vector (vector : arr) : res (list (Z * Z)) :=
  for_ (Z.to_nat 9025) 0 (λ i out,
    bit ← get_vector_bit vector i;
    if bit =? 1 then let a := i / 95 in let b := i - a * 95 in Ok (out ++ [(a + 32, b + 32)]) else Ok out) [].

(** [fseek] and [fread] of a vector: what the file lacks stays as it is. *)
Definition read_vector (f : file) (off : Z) (vector : arr) : arr :=
  imap (λ i x, if off + Z.of_nat i <? fsize f then Some (fbyte f (off + Z.of_nat i)) else x) vector.

Definition plane (f : file) (pass : list Z) (m n : Z) (vector : arr) : res arr :=
  t ← triplet_at pass n; Ok (read_vector f (DCM * m + t * WIDTH) vector).

(** What is printed: the numbers of pairs, the pairs of each half, the number of
    passwords that are tried, and the result. *)
Inductive line : Set :=
| Count (len : Z) | Pairs (l : list (Z * Z)) | Remaining (n : Z) | Password (t : list Z) | NoPassword.

(** The filtering for one half of the password, whose planes start at [m]. *)
Definition half (f : file) (pass : list Z) (m : Z) (temp_vector : arr) : res (list line * arr * arr) :=
  bin_vector ← plane f pass m 2 (unset (Z.to_nat WIDTH));
  n1 ← count_vector_bits bin_vector;
  temp_vector ← plane f pass (m + 1) 4 temp_vector;
  bin_vector ← merge bin_vector temp_vector;
  n2 ← count_vector_bits bin_vector;
  temp_vector ← plane f pass (m + 2) 6 temp_vector;
  bin_vector ← merge bin_vector temp_vector;
  n3 ← count_vector_bits bin_vector;
  temp_vector ← plane f pass (m + 3) 8 temp_vector;
  bin_vector ← merge bin_vector temp_vector;
  n4 ← count_vector_bits bin_vector;
  l ← print_vector bin_vector;
  Ok ([Count n1; Count n2; Count n3; Count n4; Pairs l], bin_vector, temp_vector).

(** The arrays of a probability vector and its length. *)
Definition prob_vector (test : Z → bool) (bin_vector : arr) : res (arr * arr * Z) :=
  for_ (Z.to_nat 9025) 0 (λ i '(v0, v1, len),
    b ← get_vector_bit bin_vector i;
    if test b then
      v0 ← wr v0 len (i / 95);
      x ← rd v0 len;
      v1 ← wr v1 len (i - x * 95);
      Ok (v0, v1, len + 1)
    else Ok (v0, v1, len)) (unset (Z.to_nat 9025), unset (Z.to_nat 9025), 0).

Definition crack_loop (pass : list Z) (v1 v2 : arr * arr * Z) : res (option (list Z)) :=
  find_first (seqZ 0 v1.2) (λ i,
  find_first (seqZ 0 v2.2) (λ j,
    a ← rd v1.1.1 i; b ← rd v1.1.2 i; c ← rd v2.1.1 j; d ← rd v2.1.2 j;
    let plain := [a + 32; b + 32; c + 32; d + 32] in
    Ok (if bool_decide (crypt plain (cs "je") = pass) then Some plain else None))).

(** [f]: the file, if it can be opened; [arg]: the first argument, if there is
    one, a string. *)
Definition crack_main (arg : option (list Z)) (f : option file) : res (list line) :=
  match f with
  | None => Err (Exited 1)
  | Some f =>
      pass ← match arg with Some pass => Ok pass | None => Err BadAccess end;
      r1 ← half f pass 0 (unset (Z.to_nat WIDTH));
      r2 ← half f pass 4 r1.2;
      v1 ← prob_vector (λ b, b =? 1) r1.1.2;
      v2 ← prob_vector (λ b, negb (b =? 0)) r2.1.2;
      r ← crack_loop pass v1 v2;
      Ok (r1.1.1 ++ r2.1.1 ++ [Remaining (v1.2 * v2.2)] ++ [match r with Some plain => Password plain | None => NoPassword end])
  end.
End crypt.
