(* ===== verification/PpmProofs.v ===== *)
(** * The password probability matrix: correctness

    The bits that the first program sets ([gen_main_does]), what the second one
    makes of the bits of a vector ([vec_is]), and both together ([crack_correct]). *)

From stdpp Require Import functions base gmap list strings.
From Stdlib Require Import ZArith Lia.
From S2P Require Import Prelude Arrays Ppm.

Local Open Scope Z_scope.

(** ** Hashes and passwords *)
Definition hash_char (c : Z) : Prop := 46 ≤ c ≤ 57 ∨ 65 ≤ c ≤ 90 ∨ 97 ≤ c ≤ 122.
Definition hash_string (s : list Z) : Prop := (11 ≤ length s)%nat ∧ Forall hash_char s.
Definition printable_char (c : Z) : Prop := 32 ≤ c < 127.
(** The passwords that the first program hashes. *)
Definition passwd (t : list Z) : Prop := length t = 4%nat ∧ Forall printable_char t.

Lemma enum_ok c : hash_char c → ∃ x, enum_hashbyte c = Ok x ∧ 0 ≤ x < 64.
Proof.
  unfold hash_char, enum_hashbyte. intros Hc.
  destruct (Z.leb_spec 46 c), (Z.leb_spec c 57); simpl; [eexists; split; [done|lia]|..];
  (destruct (Z.leb_spec 65 c), (Z.leb_spec c 90); simpl; [eexists; split; [done|lia]|..]);
  (destruct (Z.leb_spec 97 c), (Z.leb_spec c 122); simpl; [eexists; split; [done|lia]|..]); lia.
Qed.

Lemma triplet_ok s n : hash_string s → 0 ≤ n ≤ 8 → ∃ t, triplet_at s n = Ok t ∧ 0 ≤ t < HEIGHT.
Proof.
  intros [Hl Hs] Hn. rewrite Forall_lookup in Hs.
  assert (∀ i, 0 ≤ i ≤ 10 → ∃ c, rd (ints (s ++ [0])) i = Ok c ∧ hash_char c) as Hrd.
  { intros i Hi. destruct (lookup_lt_is_Some_2 s (Z.to_nat i)) as [c Hc]; [lia|]. exists c. split; [|by eapply Hs].
    apply rd_ints; [lia|]. by apply lookup_app_l_Some. }
  destruct (Hrd n) as (a & Ea & Ha); [lia|]. destruct (Hrd (n + 1)) as (b & Eb & Hb); [lia|].
  destruct (Hrd (n + 2)) as (c & Ec & Hc); [lia|].
  destruct (enum_ok a Ha) as (x & Ex & Hx), (enum_ok b Hb) as (y & Ey & Hy), (enum_ok c Hc) as (z & Ez & Hz).
  unfold triplet_at, enum_hashtriplet. rewrite Ea, Eb, Ec. unfold mbind, res_bind. rewrite Ex, Ey, Ez.
  eexists. split; [done|]. rewrite Z.rem_mod_nonneg by lia. pose proof (Z.mod_pos_bound z 4 ltac:(lia)). unfold HEIGHT. lia.
Qed.

(** ** Bits of the matrix *)
Definition bit (data : matrix) (v c : Z) : bool := Z.testbit (data (v * WIDTH + c / 8)) (c mod 8).
Definition bytes_ok (data : matrix) : Prop := ∀ i, 0 ≤ data i < 256.
(** The bits for which [P] holds are added. *)
Definition adds (P : Z → Z → Prop) (d d' : matrix) : Prop :=
  bytes_ok d' ∧ ∀ v c, 0 ≤ v < 8 * HEIGHT → 0 ≤ c < 9025 → bit d' v c = true ↔ bit d v c = true ∨ P v c.
Definition does (P : Z → Z → Prop) (f : matrix → res matrix) : Prop :=
  ∀ d, bytes_ok d → ∃ d', f d = Ok d' ∧ adds P d d'.

Lemma does_bind P Q f g : does P f → does Q g → does (λ v c, P v c ∨ Q v c) (λ d, d ← f d; g d).
Proof.
  intros Hf Hg d Hd. destruct (Hf d Hd) as (d1 & E1 & Hd1 & H1), (Hg d1 Hd1) as (d2 & E2 & Hd2 & H2).
  exists d2. rewrite E1. unfold mbind, res_bind. split; [done|]. split; [done|]. intros v c Hv Hc.
  rewrite H2, H1 by done. tauto.
Qed.
Lemma does_iff P Q f : (∀ v c, P v c ↔ Q v c) → does P f → does Q f.
Proof.
  intros HPQ Hf d Hd. destruct (Hf d Hd) as (d' & E & Hd' & H). exists d'. split; [done|]. split; [done|].
  intros v c Hv Hc. by rewrite H, HPQ by done.
Qed.
Lemma does_for (P : Z → Z → Z → Prop) body n : ∀ from,
  (∀ k, from ≤ k < from + Z.of_nat n → does (P k) (body k)) →
  does (λ v c, ∃ k, from ≤ k < from + Z.of_nat n ∧ P k v c) (for_ n from body).
Proof.
  induction n as [|n IH]; intros from Hb.
  - intros d Hd. exists d. split; [done|]. split; [done|]. intros v c _ _. split; [by left|].
    intros [?|(k & Hk & _)]; [done|lia].
  - eapply does_iff; [|eapply (does_bind _ _ (body from) (for_ n (from + 1) body)); [apply Hb; lia|apply IH; intros k Hk; apply Hb; lia] ].
    intros v c. simpl. split.
    + intros [H|(k & Hk & H)]; [exists from; split; [lia|done]|exists k; split; [lia|done] ].
    + intros (k & Hk & H). destruct (Z.eq_dec k from) as [->|]; [by left|right; exists k; split; [lia|done] ].
Qed.

Lemma set_bit_does v c : 0 ≤ v < 8 * HEIGHT → 0 ≤ c < 9025 → does (λ v' c', v' = v ∧ c' = c) (set_bit v c).
Proof.
  intros Hv Hc d Hd. unfold HEIGHT in *. assert (∀ c, 0 ≤ c < 9025 → 0 ≤ c / 8 < 1129 ∧ c = 8 * (c / 8) + c mod 8 ∧ 0 ≤ c mod 8 < 8) as Hdiv.
  { intros x Hx. pose proof (Z.div_mod x 8 ltac:(lia)). pose proof (Z.mod_pos_bound x 8 ltac:(lia)).
    split; [|lia]. split; [apply Z.div_pos; lia|]. apply Z.div_lt_upper_bound; lia. }
  pose proof (Hdiv c Hc) as (Hq & Hcm & Hm). unfold set_bit. assert (∀ z, 0 ≤ z < 2 ^ 32 → u32 z = z) as Hu by (intros; by apply Z.mod_small).
  rewrite (Hu (v * WIDTH)), Hu by (unfold WIDTH; lia).
  rewrite (proj2 (Z.ltb_lt _ SIZE)) by (unfold SIZE, HEIGHT, WIDTH, DEPTH; lia).
  set (i := v * WIDTH + c / 8). eexists. split; [reflexivity|].
  assert (∀ n, 0 ≤ n → Z.testbit (Z.lor (d i) (Z.shiftl 1 (c mod 8))) n = Z.testbit (d i) n || (n =? c mod 8)) as Hbit.
  { intros n Hn. rewrite Z.lor_spec, Z.shiftl_1_l, Z.pow2_bits_eqb by lia. by rewrite (Z.eqb_sym (c mod 8)). }
  split.
  - intros k. destruct (decide (i = k)) as [<-|Hne]; [rewrite fn_lookup_insert|by rewrite fn_lookup_insert_ne].
    specialize (Hd i). split; [apply Z.lor_nonneg; split; [lia|apply Z.shiftl_nonneg; lia]|].
    destruct (Z_lt_ge_dec (Z.lor (d i) (Z.shiftl 1 (c mod 8))) 256) as [|Hge]; [done|]. exfalso.
    assert (0 < Z.lor (d i) (Z.shiftl 1 (c mod 8))) as Hpos by lia.
    pose proof (Z.log2_le_pow2 _ 8 Hpos) as [Hlog _]. specialize (Hlog ltac:(lia)).
    rewrite Z.log2_lor, Z.shiftl_1_l, Z.log2_pow2 in Hlog by (try apply Z.shiftl_nonneg; lia).
    assert (Z.log2 (d i) < 8); [|lia]. destruct (Z.eq_dec (d i) 0) as [->|]; [done|]. apply Z.log2_lt_pow2; lia.
  - intros v' c' Hv' Hc'. unfold bit. pose proof (Hdiv c' Hc') as (Hq' & Hcm' & Hm').
    destruct (decide (i = v' * WIDTH + c' / 8)) as [E|Hne].
    + assert (v' = v ∧ c' / 8 = c / 8) as [-> Eq] by (unfold i, WIDTH in E; lia). rewrite <-E, fn_lookup_insert, Hbit by lia.
      rewrite orb_true_iff, Z.eqb_eq. split; (intros [?|?]; [by left|right]); lia.
    + rewrite fn_lookup_insert_ne by done. split; [by left|]. intros [?|[-> ->]]; done.
Qed.

(** ** The matrix *)
Section matrix.
Context (crypt : list Z → list Z → list Z).
(** What [crypt] returns for the salt "je". *)
Context (crypt_doc : ∀ t, passwd t → hash_string (crypt t (cs "je"))).

(** The numbers of the first and of the last pair of a password. *)
Definition first_pair (t : list Z) : Z := (t !!! 0%nat - 32) * 95 + (t !!! 1%nat - 32).
Definition last_pair (t : list Z) : Z := (t !!! 2%nat - 32) * 95 + (t !!! 3%nat - 32).

(** The bits that part [m] of the hash of a password stands for. *)
Definition part_bits (t : list Z) (m : Z) (v c : Z) : Prop :=
  ∃ x, triplet_at (crypt t (cs "je")) (2 + 2 * m) = Ok x ∧
    (v = m * HEIGHT + x ∧ c = first_pair t ∨ v = m * HEIGHT + x + HEIGHT * 4 ∧ c = last_pair t).
Definition bits_of (t : list Z) (v c : Z) : Prop := ∃ m, 0 ≤ m < 4 ∧ part_bits t m v c.

Lemma store_part_does i j k l m :
  passwd [i; j; k; l] → 0 ≤ m < 4 →
  does (part_bits [i; j; k; l] m) (store_part (crypt [i; j; k; l] (cs "je")) m (2 + 2 * m) i j k l).
Proof.
  intros Hp Hm. destruct (triplet_ok _ (2 + 2 * m) (crypt_doc _ Hp) ltac:(lia)) as (x & Ex & Hx).
  destruct Hp as [_ Hp]. repeat (apply Forall_cons in Hp as [? Hp]). unfold printable_char, HEIGHT in *.
  eapply does_iff; cycle 1.
  - intros d Hd. unfold store_part. rewrite Ex. cbn [mbind res_bind]. revert d Hd.
    apply does_bind; apply set_bit_does; unfold HEIGHT; lia.
  - intros v c. simpl. unfold part_bits. split.
    + intros Hvc. by exists x.
    + intros (y & Ey & Hvc). assert (y = x) as -> by congruence. done.
Qed.

Lemma add_password_does i j k l :
  passwd [i; j; k; l] → does (bits_of [i; j; k; l]) (add_password crypt i j k l).
Proof.
  intros Hp. eapply does_iff; cycle 1.
  - unfold add_password. apply (does_bind (part_bits [i; j; k; l] 0)); [by apply (store_part_does i j k l 0)|].
    apply (does_bind (part_bits [i; j; k; l] 1)); [by apply (store_part_does i j k l 1)|].
    apply (does_bind (part_bits [i; j; k; l] 2)); [by apply (store_part_does i j k l 2)|].
    by apply (store_part_does i j k l 3).
  - intros v c. simpl. unfold bits_of. split.
    + intros [H|[H|[H|H]]]; [exists 0|exists 1|exists 2|exists 3]; (split; [lia|done]).
    + intros (m & Hm & H). assert (m = 0 ∨ m = 1 ∨ m = 2 ∨ m = 3) as [-> |[-> |[-> | ->] ] ] by lia; tauto.
Qed.

(** A bit of the file is set if it was in the memory that [malloc] returned, or a
    password asks for it. *)
Lemma gen_main_does g : bytes_ok g →
  ∃ data, gen_main crypt true (Some g) = Ok (File SIZE data) ∧ adds (λ v c, ∃ t, passwd t ∧ bits_of t v c) g data.
Proof.
  intros Hg. unfold gen_main. cbn [negb].
  assert (does (λ v c, ∃ t, passwd t ∧ bits_of t v c)
    (for_ 95 32 (λ i, for_ 95 32 (λ j, for_ 95 32 (λ k, for_ 95 32 (λ l, add_password crypt i j k l)))))) as Hdo.
  { eapply does_iff; cycle 1.
    - apply does_for. intros i Hi. apply does_for. intros j Hj. apply does_for. intros k Hk. apply does_for.
      intros l Hl. apply add_password_does. split; [done|]. unfold printable_char. repeat constructor; lia.
    - intros v c. simpl. split.
      + intros (i & Hi & j & Hj & k & Hk & l & Hl & H). exists [i; j; k; l]. split; [|done].
        split; [done|]. unfold printable_char. repeat constructor; lia.
      + intros (t & [Hl Ht] & H). destruct t as [|i [|j [|k [|l [|]]]]]; try done.
        repeat (apply Forall_cons in Ht as [? Ht]). unfold printable_char in *.
        exists i. split; [lia|]. exists j. split; [lia|]. exists k. split; [lia|]. exists l. split; [lia|done]. }
  destruct (Hdo g Hg) as (data & E & Hd). exists data. by rewrite E.
Qed.
End matrix.

(** ** Vectors *)

(** The vector with the bits [B]. *)
Definition vec_is (v : arr) (B : Z → bool) : Prop :=
  length v = Z.to_nat WIDTH ∧
  ∀ i, 0 ≤ i < WIDTH → ∃ x, v !! Z.to_nat i = Some (Some x) ∧ 0 ≤ x < 256 ∧ ∀ b, 0 ≤ b < 8 → Z.testbit x b = B (8 * i + b).

Lemma vec_rd v B i : vec_is v B → 0 ≤ i < WIDTH → ∃ x, rd v i = Ok x ∧ 0 ≤ x < 256 ∧ ∀ b, 0 ≤ b < 8 → Z.testbit x b = B (8 * i + b).
Proof.
  intros [_ Hv] Hi. destruct (Hv i Hi) as (x & E & H). exists x. split; [|done]. unfold rd.
  by rewrite (proj2 (Z.leb_le 0 i)), E by lia.
Qed.

Lemma index_split c : 0 ≤ c < 9025 → 0 ≤ c / 8 < WIDTH ∧ 0 ≤ c mod 8 < 8 ∧ 8 * (c / 8) + c mod 8 = c.
Proof.
  intros Hc. pose proof (Z.div_mod c 8 ltac:(lia)). pose proof (Z.mod_pos_bound c 8 ltac:(lia)). unfold WIDTH. lia.
Qed.

Lemma get_vector_bit_ok v B c : vec_is v B → 0 ≤ c < 9025 → get_vector_bit v c = Ok (Z.b2z (B c)).
Proof.
  intros Hv Hc. destruct (index_split c Hc) as (Hq & Hm & E). destruct (vec_rd v B (c / 8) Hv Hq) as (x & Ex & Hx & Hb).
  unfold get_vector_bit. rewrite Ex. unfold mbind, res_bind. f_equal. rewrite <-E at 3. rewrite <-Hb by done.
  assert (Z.testbit (schar x) (c mod 8) = Z.testbit x (c mod 8)) as <-.
  { rewrite <-(Z.mod_pow2_bits_low (schar x) 8), <-(Z.mod_pow2_bits_low x 8) by lia. f_equal.
    unfold schar. change (2 ^ 8) with 256. rewrite Zminus_mod_idemp_l. f_equal. lia. }
  apply Z.bits_inj'. intros n Hn. rewrite Z.shiftr_spec, Z.land_spec, Z.shiftl_1_l by done.
  rewrite Z.pow2_bits_eqb by lia. destruct (Z.eqb_spec (c mod 8) (n + c mod 8)).
  - replace n with 0 by lia. rewrite andb_true_r, Z.add_0_l. symmetry. apply Z.b2z_bit0.
  - rewrite andb_false_r. symmetry. apply Z.bits_above_log2; [by destruct (Z.testbit _ _)|].
    destruct (Z.testbit _ _); simpl; lia.
Qed.

Lemma merge_ok v1 v2 B1 B2 :
  vec_is v1 B1 → vec_is v2 B2 → ∃ v, merge v1 v2 = Ok v ∧ vec_is v (λ i, B1 i && B2 i).
Proof.
  intros H1 H2. unfold merge.
  destruct (for_inv (Z.to_nat WIDTH) 0 (λ i v, x ← rd v i; y ← rd v2 i; wr v i (Z.land x y))
    (λ k v, vec_is v (λ i, B1 i && (if i <? 8 * k then B2 i else true))) v1) as (v & E & Hv).
  - split; [apply H1|]. intros i Hi. destruct H1 as [_ H1]. destruct (H1 i Hi) as (x & Ex & Hx & Hb). exists x.
    split; [done|]. split; [done|]. intros b Hb'. rewrite Hb, (proj2 (Z.ltb_ge _ _)) by lia. by rewrite andb_true_r.
  - intros k v Hk Hv. assert (0 ≤ k < WIDTH) as Hk' by (unfold WIDTH in *; lia).
    destruct (vec_rd v _ k Hv Hk') as (x & Ex & Hx & Hxb), (vec_rd v2 _ k H2 Hk') as (y & Ey & Hy & Hyb).
    rewrite Ex, Ey. unfold mbind, res_bind. destruct Hv as [Hl Hv].
    unfold wr. rewrite (proj2 (Z.leb_le 0 k)), (proj2 (Z.ltb_lt k _)) by lia. eexists. split; [done|].
    split; [by rewrite length_insert|]. intros i Hi. destruct (Z.eq_dec i k) as [->|Hne].
    + rewrite list_lookup_insert_eq by lia. eexists. split; [done|]. split.
      { split; [apply Z.land_nonneg; lia|]. destruct (Z.eq_dec (Z.land x y) 0) as [->|]; [lia|].
        assert (0 ≤ Z.land x y) by (apply Z.land_nonneg; lia). apply (Z.log2_lt_cancel _ 256).
        pose proof (Z.log2_land x y ltac:(lia) ltac:(lia)). pose proof (Z.log2_le_mono x 255 ltac:(lia)).
        change (Z.log2 255) with 7 in *. change (Z.log2 256) with 8. lia. }
      intros b Hb. rewrite Z.land_spec, Hxb, Hyb by done. rewrite (proj2 (Z.ltb_ge _ _)), (proj2 (Z.ltb_lt _ _)) by lia.
      by rewrite andb_true_r.
    + rewrite list_lookup_insert_ne by lia. destruct (Hv i Hi) as (z & Ez & Hz & Hzb). exists z. split; [done|]. split; [done|].
      intros b Hb. rewrite Hzb by done. f_equal.
      destruct (Z.ltb_spec (8 * i + b) (8 * k)), (Z.ltb_spec (8 * i + b) (8 * (k + 1))); try done; lia.
  - exists v. split; [done|]. destruct Hv as [Hl Hv]. split; [done|]. intros i Hi. destruct (Hv i Hi) as (x & Ex & Hx & Hb).
    exists x. split; [done|]. split; [done|]. intros b Hb'. rewrite Hb, (proj2 (Z.ltb_lt _ _)) by (unfold WIDTH in *; lia). done.
Qed.

(** The indices of the bits that are set. *)
Definition ones (B : Z → bool) (n : Z) : list Z := filter (λ i, B i = true) (seqZ 0 n).

Lemma ones_succ B n : 0 ≤ n → ones B (n + 1) = ones B n ++ (if B n then [n] else []).
Proof.
  intros Hn. unfold ones. rewrite (seqZ_app 0 n 1), filter_app by lia. f_equal.
  assert (seqZ (0 + n) 1 = [n]) as -> by (unfold seqZ; simpl; f_equal; lia). rewrite filter_cons. by destruct (B n).
Qed.

Lemma ones_length B n : 0 ≤ n → Z.of_nat (length (ones B n)) ≤ n.
Proof. intros Hn. unfold ones. pose proof (length_filter (λ i, B i = true) (seqZ 0 n)). rewrite length_seqZ in *. lia. Qed.

Lemma elem_of_ones B n c : c ∈ ones B n ↔ 0 ≤ c < n ∧ B c = true.
Proof. unfold ones. rewrite list_elem_of_filter, elem_of_seqZ. split; intros [? ?]; (split; [|done] || idtac); try done; lia. Qed.

(** A loop over the bits of a vector that goes through the indices of the ones. *)
Lemma bits_loop {A} v B (body : Z → A → res A) (I : list Z → A → Prop) (a : A) :
  vec_is v B → I [] a →
  (∀ k a, 0 ≤ k < 9025 → I (ones B k) a → ∃ a', body k a = Ok a' ∧ I (ones B k ++ if B k then [k] else []) a') →
  ∃ a', for_ (Z.to_nat 9025) 0 body a = Ok a' ∧ I (ones B 9025) a'.
Proof.
  intros Hv Ha Hb. destruct (for_inv (Z.to_nat 9025) 0 body (λ k, I (ones B k)) a) as (a' & E & Ha'); [done| |by exists a'].
  intros k a1 Hk H1. cbv beta in *. rewrite ones_succ by lia. apply Hb; [lia|done].
Qed.

Lemma count_ok v B : vec_is v B → count_vector_bits v = Ok (Z.of_nat (length (ones B 9025))).
Proof.
  intros Hv. destruct (bits_loop v B (λ i count, b ← get_vector_bit v i; Ok (count + b))
    (λ l count, count = Z.of_nat (length l)) 0 Hv eq_refl) as (n & E & ->); [|done].
  intros k n Hk ->. rewrite (get_vector_bit_ok v B k Hv Hk). eexists. split; [done|].
  rewrite length_app. destruct (B k); simpl; lia.
Qed.

(** The characters of a pair. *)
Definition pair_chars (c : Z) : Z * Z := (c / 95 + 32, c mod 95 + 32).

Lemma pair_low c : c - c / 95 * 95 = c mod 95.
Proof. pose proof (Z.div_mod c 95 ltac:(lia)). lia. Qed.

Lemma print_vector_ok v B : vec_is v B → print_vector v = Ok (pair_chars <$> ones B 9025).
Proof.
  intros Hv. assert (∃ out, print_vector v = Ok out ∧ out = pair_chars <$> ones B 9025) as (out & E & ->); [|done].
  unfold print_vector. apply (bits_loop v B _ (λ (l : list Z) (out : list (Z * Z)), out = pair_chars <$> l)); [done..|].
  intros k n Hk ->. rewrite (get_vector_bit_ok v B k Hv Hk). unfold mbind, res_bind. rewrite fmap_app.
  cbv zeta. rewrite pair_low. destruct (B k); eexists; (split; [done|]); [done|by rewrite app_nil_r].
Qed.

(** The arrays of a probability vector. *)
Definition prob_is (l : list Z) (p : arr * arr * Z) : Prop :=
  p.2 = Z.of_nat (length l) ∧ length p.1.1 = Z.to_nat 9025 ∧ length p.1.2 = Z.to_nat 9025 ∧
  ∀ j c, l !! j = Some c → p.1.1 !! j = Some (Some (c / 95)) ∧ p.1.2 !! j = Some (Some (c mod 95)).

Lemma prob_snoc l p k :
  prob_is l p → Z.of_nat (length l) < 9025 → 
  prob_is (l ++ [k]) (<[length l := Some (k / 95)]> p.1.1, <[length l := Some (k mod 95)]> p.1.2, p.2 + 1).
Proof.
  intros (H2 & H0 & H1 & Hl) Hn. split_and!; simpl; [rewrite length_app; simpl; lia|by rewrite length_insert..|].
  intros j c [Hj|[Hj Hc]]%lookup_app_Some.
  - pose proof (lookup_lt_Some _ _ _ Hj). rewrite !list_lookup_insert_ne by lia. by apply Hl.
  - apply list_lookup_singleton_Some in Hc as [? <-]. assert (j = length l) as -> by lia.
    rewrite !list_lookup_insert_eq by lia. done.
Qed.

Lemma prob_ok v B test : vec_is v B → test 0 = false → test 1 = true →
  ∃ p, prob_vector test v = Ok p ∧ prob_is (ones B 9025) p.
Proof.
  intros Hv H0 H1. unfold prob_vector. apply (bits_loop v B); [done| |].
  - split_and!; cbn [fst snd]; [done|apply length_replicate..|done].
  - intros k [[v0 v1] len] Hk Hp. rewrite (get_vector_bit_ok v B k Hv Hk). unfold mbind, res_bind.
    destruct (B k); simpl Z.b2z.
    + rewrite H1. pose proof (ones_length B k ltac:(lia)) as Hlen.
      pose proof (prob_snoc _ _ k Hp ltac:(lia)) as Hp'. destruct Hp as (Hl & L0 & L1 & _). simpl in *. subst len.
      unfold wr. rewrite (proj2 (Z.leb_le 0 _)), L0, (proj2 (Z.ltb_lt _ _)), Nat2Z.id by lia. cbn [andb].
      unfold rd. rewrite (proj2 (Z.leb_le 0 _)), Nat2Z.id, list_lookup_insert_eq by lia. simpl.
      rewrite L1, (proj2 (Z.ltb_lt _ _)) by lia. eexists. split; [done|]. by rewrite pair_low.
    + rewrite H0. eexists. split; [done|]. by rewrite app_nil_r.
Qed.

Lemma plane_ok data pass m n x v :
  bytes_ok data → 0 ≤ m < 8 → triplet_at pass n = Ok x → 0 ≤ x < HEIGHT → length v = Z.to_nat WIDTH →
  ∃ v', plane (File SIZE data) pass m n v = Ok v' ∧ vec_is v' (bit data (m * HEIGHT + x)).
Proof.
  intros Hd Hm Ex Hx Hl. unfold plane. rewrite Ex. eexists. split; [done|]. unfold read_vector. cbn [fsize fbyte].
  split; [by rewrite length_imap|]. intros i Hi. rewrite list_lookup_imap.
  destruct (lookup_lt_is_Some_2 v (Z.to_nat i)) as [y ->]; [lia|]. simpl fmap. rewrite Z2Nat.id by lia.
  rewrite (proj2 (Z.ltb_lt _ _)) by (unfold DCM, SIZE, WIDTH, HEIGHT, DEPTH in *; lia). eexists. split; [done|].
  split; [apply Hd|]. intros b Hb. unfold bit. 
  rewrite (Z.add_comm (8 * i)), (Z.mul_comm 8), Z.div_add, Z.mod_add, Z.div_small, Z.mod_small by lia.
  do 2 f_equal. unfold DCM. lia.
Qed.

(** ** Cracking *)

(** The pair [c] is possible for the half whose planes start at [m]. *)
Definition possible (data : matrix) (pass : list Z) (m c : Z) : Prop :=
  ∀ n, 0 ≤ n < 4 → ∃ x, triplet_at pass (2 + 2 * n) = Ok x ∧ bit data ((m + n) * HEIGHT + x) c = true.

Lemma half_ok data pass m temp :
  bytes_ok data → hash_string pass → m = 0 ∨ m = 4 → length temp = Z.to_nat WIDTH →
  ∃ n1 n2 n3 v temp' B, half (File SIZE data) pass m temp =
      Ok ([Count n1; Count n2; Count n3; Count (Z.of_nat (length (ones B 9025))); Pairs (pair_chars <$> ones B 9025)], v, temp') ∧
    length temp' = Z.to_nat WIDTH ∧ vec_is v B ∧ ∀ c, B c = true ↔ possible data pass m c.
Proof.
  intros Hd Hp Hm Ht. unfold half.
  destruct (triplet_ok pass 2 Hp ltac:(lia)) as (x0 & E0 & H0), (triplet_ok pass 4 Hp ltac:(lia)) as (x1 & E1 & H1).
  destruct (triplet_ok pass 6 Hp ltac:(lia)) as (x2 & E2 & H2), (triplet_ok pass 8 Hp ltac:(lia)) as (x3 & E3 & H3).
  destruct (plane_ok data pass m 2 x0 (unset (Z.to_nat WIDTH)) Hd ltac:(lia) E0 H0) as (v0 & -> & V0); [apply length_replicate|].
  unfold mbind, res_bind. rewrite (count_ok _ _ V0).
  destruct (plane_ok data pass (m + 1) 4 x1 temp Hd ltac:(lia) E1 H1 Ht) as (v1 & -> & V1).
  destruct (merge_ok v0 v1 _ _ V0 V1) as (w1 & -> & W1). rewrite (count_ok _ _ W1).
  destruct (plane_ok data pass (m + 2) 6 x2 v1 Hd ltac:(lia) E2 H2 (proj1 V1)) as (v2 & -> & V2).
  destruct (merge_ok w1 v2 _ _ W1 V2) as (w2 & -> & W2). rewrite (count_ok _ _ W2).
  destruct (plane_ok data pass (m + 3) 8 x3 v2 Hd ltac:(lia) E3 H3 (proj1 V2)) as (v3 & -> & V3).
  destruct (merge_ok w2 v3 _ _ W2 V3) as (w3 & -> & W3). rewrite (count_ok _ _ W3), (print_vector_ok _ _ W3).
  eexists _, _, _, w3, v3, _. split; [reflexivity|]. split; [apply V3|]. split; [exact W3|]. intros c.
  rewrite !andb_true_iff. unfold possible. split.
  - intros [ [ [B0 B1] B2] B3] n Hn. assert (n = 0 ∨ n = 1 ∨ n = 2 ∨ n = 3) as [-> |[-> |[-> | ->] ] ] by lia;
      [exists x0|exists x1|exists x2|exists x3]; (split; [done|]); by rewrite ?Z.add_0_r.
  - intros H. destruct (H 0 ltac:(lia)) as (y0 & F0 & B0), (H 1 ltac:(lia)) as (y1 & F1 & B1).
    destruct (H 2 ltac:(lia)) as (y2 & F2 & B2), (H 3 ltac:(lia)) as (y3 & F3 & B3). change (2 + 2 * 0) with 2 in F0.
    change (2 + 2 * 1) with 4 in F1. change (2 + 2 * 2) with 6 in F2. change (2 + 2 * 3) with 8 in F3. rewrite E0 in F0. rewrite E1 in F1. rewrite E2 in F2. rewrite E3 in F3. simplify_eq. rewrite Z.add_0_r in B0. done.
Qed.

Section crack.
Context (crypt : list Z → list Z → list Z) (crypt_doc : ∀ t, passwd t → hash_string (crypt t (cs "je"))).

(** The password of two pairs. *)
Definition of_pairs (c d : Z) : list Z := [c / 95 + 32; c mod 95 + 32; d / 95 + 32; d mod 95 + 32].

Lemma of_pairs_passwd c d : 0 ≤ c < 9025 → 0 ≤ d < 9025 → passwd (of_pairs c d).
Proof.
  assert (∀ c, 0 ≤ c < 9025 → 0 ≤ c / 95 < 95 ∧ 0 ≤ c mod 95 < 95) as H.
  { intros x Hx. pose proof (Z.mod_pos_bound x 95 ltac:(lia)). split; [|done]. split; [apply Z.div_pos; lia|].
    apply Z.div_lt_upper_bound; lia. }
  intros Hc%H Hd%H. split; [done|]. unfold printable_char. repeat constructor; lia.
Qed.

Lemma pairs_of t : passwd t →
  of_pairs (first_pair t) (last_pair t) = t ∧ 0 ≤ first_pair t < 9025 ∧ 0 ≤ last_pair t < 9025.
Proof.
  intros [Hl Ht]. destruct t as [|i [|j [|k [|l [|]]]]]; try done.
  repeat (apply Forall_cons in Ht as [? Ht]). unfold printable_char in *. unfold first_pair, last_pair, of_pairs. simpl.
  assert (∀ x y, 32 ≤ x < 127 → 32 ≤ y < 127 →
    ((x - 32) * 95 + (y - 32)) / 95 = x - 32 ∧ ((x - 32) * 95 + (y - 32)) mod 95 = y - 32) as Hd.
  { intros x y Hx Hy. rewrite (Z.add_comm ((x - 32) * 95)), Z.div_add, Z.mod_add, Z.div_small, Z.mod_small by lia. lia. }
  destruct (Hd i j ltac:(done) ltac:(done)) as [-> ->], (Hd k l ltac:(done) ltac:(done)) as [-> ->]. split; [|lia]. repeat f_equal; lia.
Qed.

Lemma prob_rd l p j : prob_is l p → 0 ≤ j < p.2 → ∃ c, c ∈ l ∧ rd p.1.1 j = Ok (c / 95) ∧ rd p.1.2 j = Ok (c mod 95).
Proof.
  intros (Hn & _ & _ & Hl) Hj. destruct (lookup_lt_is_Some_2 l (Z.to_nat j)) as [c Hc]; [lia|]. exists c.
  split; [by eapply list_elem_of_lookup_2|]. destruct (Hl _ _ Hc) as [E0 E1].
  unfold rd. by rewrite (proj2 (Z.leb_le 0 j)), E0, E1 by lia.
Qed.
Lemma prob_has l p c : prob_is l p → c ∈ l → ∃ j, j ∈ seqZ 0 p.2 ∧ rd p.1.1 j = Ok (c / 95) ∧ rd p.1.2 j = Ok (c mod 95).
Proof.
  intros (Hn & _ & _ & Hl) [j Hj]%list_elem_of_lookup. exists (Z.of_nat j). pose proof (lookup_lt_Some _ _ _ Hj).
  destruct (Hl _ _ Hj) as [E0 E1]. split; [apply elem_of_seqZ; lia|].
  unfold rd. by rewrite (proj2 (Z.leb_le 0 _)), Nat2Z.id, E0, E1 by lia.
Qed.

Lemma crack_loop_ok pass l1 l2 p1 p2 :
  prob_is l1 p1 → prob_is l2 p2 →
  ∃ r, crack_loop crypt pass p1 p2 = Ok r ∧
    match r with
    | Some t => ∃ c d, c ∈ l1 ∧ d ∈ l2 ∧ t = of_pairs c d ∧ crypt t (cs "je") = pass
    | None => ∀ c d, c ∈ l1 → d ∈ l2 → crypt (of_pairs c d) (cs "je") ≠ pass
    end.
Proof.
  intros H1 H2. unfold crack_loop.
  set (missed i j := ∀ c d, rd p1.1.1 i = Ok (c / 95) → rd p1.1.2 i = Ok (c mod 95) →
    rd p2.1.1 j = Ok (d / 95) → rd p2.1.2 j = Ok (d mod 95) → crypt (of_pairs c d) (cs "je") ≠ pass).
  match goal with |- ∃ r, find_first ?l ?body = _ ∧ _ =>
    destruct (find_first_ok l body (λ t, ∃ c d, c ∈ l1 ∧ d ∈ l2 ∧ t = of_pairs c d ∧ crypt t (cs "je") = pass)
      (λ i, ∀ j, j ∈ seqZ 0 p2.2 → missed i j)) as (r & E & Hr) end.
  - intros i Hi%elem_of_seqZ. destruct (prob_rd l1 p1 i H1 ltac:(lia)) as (c & Hc & E0 & E1).
    apply find_first_ok. intros j Hj%elem_of_seqZ. destruct (prob_rd l2 p2 j H2 ltac:(lia)) as (d & Hd & E2 & E3).
    rewrite E0, E1, E2, E3. unfold mbind, res_bind. fold (of_pairs c d). eexists. split; [reflexivity|].
    case_bool_decide as Hcr; [by exists c, d|]. intros c' d' F0 F1 F2 F3.
    assert (of_pairs c' d' = of_pairs c d) as ->; [unfold of_pairs; congruence|done].
  - exists r. split; [done|]. destruct r as [t|]; [done|]. intros c d Hc Hd.
    destruct (prob_has l1 p1 c H1 Hc) as (i & Hi & E0 & E1), (prob_has l2 p2 d H2 Hd) as (j & Hj & E2 & E3).
    by apply (Hr i Hi j Hj).
Qed.

(** A password's pairs are possible for its hash. *)
Lemma passwd_possible g data t :
  adds (λ v c, ∃ t, passwd t ∧ bits_of crypt t v c) g data → passwd t →
  possible data (crypt t (cs "je")) 0 (first_pair t) ∧ possible data (crypt t (cs "je")) 4 (last_pair t).
Proof.
  intros [_ Hdata] Ht. destruct (pairs_of t Ht) as (_ & Hf & Hl).
  split; intros n Hn; (destruct (triplet_ok _ (2 + 2 * n) (crypt_doc t Ht) ltac:(lia)) as (x & Ex & Hx);
    exists x; split; [done|]; apply Hdata; [unfold HEIGHT in *; lia|done|]; right; exists t; split; [done|];
    exists n; split; [done|]; exists x; split; [done|]).
  - left. by rewrite Z.add_0_l.
  - right. split; [lia|done].
Qed.
End crack.

(** ** Theorems *)
Lemma app_last {A} (l k : list A) x y : l ++ k ++ [x] ++ [y] = (l ++ k ++ [x]) ++ [y].
Proof. by rewrite <-!(assoc_L (++)). Qed.

(** C31. The two programs together find passwords: whatever [malloc] left in the
    matrix, the first program writes a file with which the second one, for a
    string of at least eleven hash characters, tells a password of four
    printable characters with this hash if there is one, and that there is none
    otherwise; neither faults.  [crypt] is only known to return such strings. *)
Theorem crack_correct crypt g :
  (∀ t, passwd t → hash_string (crypt t (cs "je"))) → bytes_ok g →
  ∃ f, gen_main crypt true (Some g) = Ok f ∧
  ∀ pass, hash_string pass → ∃ ls out, crack_main crypt (Some pass) (Some f) = Ok (ls ++ [out]) ∧
    match out with
    | Password t => passwd t ∧ crypt t (cs "je") = pass
    | NoPassword => ∀ t, passwd t → crypt t (cs "je") ≠ pass
    | _ => False
    end.
Proof.
  intros Hdoc Hg. destruct (gen_main_does crypt Hdoc g Hg) as (data & E & Hdata). exists (File SIZE data). split; [done|].
  intros pass Hp. unfold crack_main. cbn [mbind res_bind]. pose proof Hdata as [Hd _].
  destruct (half_ok data pass 0 (unset (Z.to_nat WIDTH)) Hd Hp) as (? & ? & ? & w1 & t1 & B1 & E1 & T1 & V1 & P1);
    [by left|apply length_replicate|].
  rewrite E1. cbn [mbind res_bind fst snd].
  destruct (half_ok data pass 4 t1 Hd Hp) as (? & ? & ? & w2 & t2 & B2 & E2 & T2 & V2 & P2); [by right|done|].
  rewrite E2. cbn [mbind res_bind fst snd].
  destruct (prob_ok w1 B1 (λ b, b =? 1) V1) as (p1 & -> & Hp1); [done..|]. cbn [mbind res_bind].
  destruct (prob_ok w2 B2 (λ b, negb (b =? 0)) V2) as (p2 & -> & Hp2); [done..|]. cbn [mbind res_bind].
  destruct (crack_loop_ok crypt pass _ _ p1 p2 Hp1 Hp2) as (r & -> & Hr). cbn [mbind res_bind].
  eexists _, _. split; [apply f_equal, app_last|]. destruct r as [t|].
  - destruct Hr as (c & d & [Hc _]%elem_of_ones & [Hd' _]%elem_of_ones & -> & Hcr). split; [by apply of_pairs_passwd|done].
  - intros t Ht Hcr. destruct (pairs_of t Ht) as (Et & Hf & Hl).
    destruct (passwd_possible crypt Hdoc g data t Hdata Ht) as [Q1 Q2]. rewrite Hcr in Q1, Q2.
    apply (Hr (first_pair t) (last_pair t)); [by apply elem_of_ones; split; [|apply P1]|by apply elem_of_ones; split; [|apply P2]|by rewrite Et].
Qed.

Lemma crack_correct_witness :
  ∃ f, gen_main (λ _ s, s ++ cs "abcdefghijk") true (Some (λ _, 0)) = Ok f ∧
  ∀ pass, hash_string pass → ∃ ls out, crack_main (λ _ s, s ++ cs "abcdefghijk") (Some pass) (Some f) = Ok (ls ++ [out]) ∧
    match out with
    | Password t => passwd t ∧ cs "jeabcdefghijk" = pass
    | NoPassword => ∀ t, passwd t → cs "jeabcdefghijk" ≠ pass
    | _ => False
    end.
Proof.
  apply (crack_correct (λ _ s, s ++ cs "abcdefghijk") (λ _, 0)).
  - intros t _. split; [by apply Nat.leb_le|]. unfold hash_char. apply (bool_decide_unpack _). vm_compute. exact I.
  - intros i. lia.
Defined.
