(* ===== verification/SocketTable.v ===== *)
(** * The socket table of the multiplexing servers
    ([alsp/src/7.io_multiplexing/io_poll.c], [io_poll_LT.c], [io_select.c],
    [io_select2.c])

    The servers keep the descriptors of their connections at the start of an array
    of fixed size, the listener first.  They differ in the type of the elements:
    [struct pollfd] in two of them, [int] in the others; the class [Slot] is what
    the functions need of it.  The state has, besides the globals of the program,
    the sockets that the process has open and what its calls of [recv] returned. *)

From stdpp Require Import base gmap list.
From Stdlib Require Import ZArith Lia.
From S2P Require Import Prelude Arrays.

Local Open Scope Z_scope.

Definition MAX_FD_SOCKET : Z := 0xff.

(** An element of the array: its descriptor, and the assignments to it. *)
Class Slot (A : Type) := {
  fd_of : A → Z;
  register : Z → A → A;                 (* in [add_socket] *)
  clear : A → A;                        (* in [del_socket] *)
  empty_slot : A;                       (* at the start of the program *)
  fd_register f a : fd_of (register f a) = f;
  fd_clear a : fd_of (clear a) = -1
}.

Record srv (A : Type) := Srv {
  sockets : list A; cnt_fd_socket : Z; open_ : gset Z; recvd : list (Z * Z)
}.
Arguments Srv {_} _ _ _ _.
Arguments sockets {_} _.
Arguments cnt_fd_socket {_} _.
Arguments open_ {_} _.
Arguments recvd {_} _.

Section table.
Context {A : Type} `{!Slot A}.

Definition with_sockets (a : list A) (n : Z) (s : srv A) : srv A := Srv a n (open_ s) (recvd s).
Definition opened (f : Z) (s : srv A) : srv A := Srv (sockets s) (cnt_fd_socket s) ({[f]} ∪ open_ s) (recvd s).
(** [close]. *)
Definition closed (f : Z) (s : srv A) : srv A := Srv (sockets s) (cnt_fd_socket s) (open_ s ∖ {[f]}) (recvd s).
(** What [recv] returns, on the record. *)
Definition received (f n : Z) (s : srv A) : srv A := Srv (sockets s) (cnt_fd_socket s) (open_ s) (recvd s ++ [(f, n)]).

Definition add_socket (fd : Z) : M (srv A) Z :=
  n ← gets cnt_fd_socket;
  if n <? MAX_FD_SOCKET then
    a ← gets sockets;
    x ← lift (rd_at a n);
    a ← lift (wr_at a n (register fd x));
    modify (with_sockets a (n + 1));; mret (n + 1)
  else mret (-1).

(** The body of the loop of [del_socket]; [n] is the count. *)
Definition del_step (fd n i : Z) (st : list A * Z) : res (list A * Z) :=
  let '(a, flag) := st in
  x ← rd_at a i;
  if fd_of x =? fd then
    l ← rd_at a (n - 1);
    a ← (if negb (i =? n - 1) then wr_at a i l else Ok a);
    l ← rd_at a (n - 1);
    a ← wr_at a (n - 1) (clear l);
    Ok (a, 1)
  else Ok (a, flag).

(** It returns the count as it was, the last value of [i]. *)
Definition del_socket (fd : Z) : M (srv A) Z :=
  modify (closed fd);;
  n ← gets cnt_fd_socket;
  a ← gets sockets;
  r ← lift (for_ (Z.to_nat n) 0 (del_step fd n) (a, 0));
  modify (with_sockets r.1 n);;
  if r.2 =? 0 then mret (-1) else modify (with_sockets r.1 (n - 1));; mret n.

(** [accept] until it fails; [fds]: what it returns before that. *)
Fixpoint accept_loop (fds : list Z) : M (srv A) unit :=
  match fds with
  | [] => mret tt
  | fd :: fds => modify (opened fd);; add_socket fd;; accept_loop fds
  end.

(** The state at the start of the program. *)
Definition start : srv A := Srv (replicate (Z.to_nat MAX_FD_SOCKET) empty_slot) 0 ∅ [].

(** [main] until the loop: the results of [socket], [fcntl] and [bind]. *)
Definition listen_on (fd_listener : Z) (fcntl_ok bind_ok : bool) : M (srv A) unit :=
  if fd_listener =? -1 then fail (Exited 1)
  else
    modify (opened fd_listener);;
    if negb fcntl_ok then fail (Exited 1)
    else if negb bind_ok then fail (Exited 1)
    else add_socket fd_listener;; mret tt.
End table.
