(* ===== verification/PollServer.v ===== *)
(** * A server with [poll] ([alsp/src/7.io_multiplexing/io_poll.c], [io_poll_LT.c])

    The loop of [main] is modelled one round at a time ([round]); what the system
    calls of a round answer is its argument ([answers]).  The two programs differ
    in how many bytes they ask [recv] for, which does not show in what is
    modelled.  The code for out-of-band data is compiled out; messages, and the
    calls whose result is only printed, are not modelled. *)

From stdpp Require Import base gmap list.
From Stdlib Require Import ZArith Lia.
From S2P Require Import Prelude Arrays SocketTable.

Local Open Scope Z_scope.

Definition POLLIN : Z := 0x1.
Definition POLLERR : Z := 0x8.
Definition POLLNVAL : Z := 0x20.

Record pollfd := Pollfd { fd : Z; events : Z; revents : Z }.

#[export] Instance pollfd_slot : Slot pollfd := {|
  fd_of := fd;
  register f p := Pollfd f POLLIN (revents p);
  clear p := Pollfd (-1) (events p) (revents p);
  empty_slot := Pollfd 0 0 0;
  fd_register _ _ := eq_refl;
  fd_clear _ := eq_refl
|}.

(** A flag of [revents]. *)
Definition has (flag : Z) (p : pollfd) : bool := negb (Z.land (revents p) flag =? 0).

(** The answers of a round: the [revents] that [poll] stores for a descriptor,
    unless it fails; what [accept] returns until it fails; what [recv] returns. *)
Record answers := Answers { polled : option (Z → Z); accepted : list Z; recv : Z → Z }.

(** [poll] on the first [cnt_fd_socket] elements: the number of those with
    [revents]. *)
Definition poll (polled : option (Z → Z)) : M (srv pollfd) Z :=
  match polled with
  | None => mret (-1)
  | Some rev =>
      n ← gets cnt_fd_socket;
      a ← gets sockets;
      let b := (λ p, Pollfd (fd p) (events p) (rev (fd p))) <$> take (Z.to_nat n) a in
      modify (with_sockets (b ++ drop (Z.to_nat n) a) n);;
      mret (Z.of_nat (length (filter (λ p, revents p ≠ 0) b)))
  end.

(** The loop over the sockets.  Each step goes to the next index or takes a socket
    out, so [cnt_fd_socket] steps are enough. *)
Fixpoint data_loop (recv : Z → Z) (fuel : nat) (i ret_poll : Z) : M (srv pollfd) unit :=
  n ← gets cnt_fd_socket;
  if (i <? n) && (0 <? ret_poll) then
    match fuel with
    | O => fail OutOfFuel
    | S fuel =>
        a ← gets sockets;
        p ← lift (rd_at a i);
        if has POLLIN p then
          let n_recv := recv (fd p) in
          modify (received (fd p) n_recv);;
          i ← (if n_recv =? 0 then del_socket (fd p);; mret (i - 1) else mret i);
          data_loop recv fuel (i + 1) (ret_poll - 1)
        else if has POLLERR p then data_loop recv fuel (i + 1) (ret_poll - 1)
        else if has POLLNVAL p then data_loop recv fuel (i + 1) (ret_poll - 1)
        else data_loop recv fuel (i + 1) ret_poll
    end
  else mret tt.

Definition round (r : answers) : M (srv pollfd) unit :=
  ret_poll ← poll (polled r);
  a ← gets sockets;
  p0 ← lift (rd_at a 0);
  if has POLLIN p0 then accept_loop (accepted r)
  else
    n ← gets cnt_fd_socket;
    data_loop (recv r) (Z.to_nat n) 1 ret_poll.

Fixpoint rounds (rs : list answers) : M (srv pollfd) unit :=
  match rs with [] => mret tt | r :: rs => round r;; rounds rs end.

(** The program, for as many rounds as there are answers. *)
Definition poll_main (fd_listener : Z) (fcntl_ok bind_ok : bool) (rs : list answers) : M (srv pollfd) unit :=
  listen_on fd_listener fcntl_ok bind_ok;; rounds rs.
(** [io_poll_LT] is the same program, but for the number of bytes it asks for. *)
Definition poll_LT_main : Z → bool → bool → list answers → M (srv pollfd) unit := poll_main.
