(* ===== verification/SocketProofs.v ===== *)
(** * The socket table: lemmas

    [table_ok] says what the servers keep true of the table; the lemmas say what
    the two functions make of it, for any type of elements ([Slot]). *)

From stdpp Require Import base gmap list.
From Stdlib Require Import ZArith Lia.
From S2P Require Import Prelude Arrays SocketTable.

Local Open Scope Z_scope.

(** ** Filters *)
Lemma filter_fmap {A B} (f : A → B) (P : B → Prop) `{!∀ b, Decision (P b)} (Q : A → Prop) `{!∀ a, Decision (Q a)} (t : list A) :
  (∀ a, a ∈ t → Q a ↔ P (f a)) → f <$> filter Q t = filter P (f <$> t).
Proof.
  intros HPQ. induction t as [|a t IH]; [done|]. rewrite fmap_cons, !filter_cons.
  specialize (IH ltac:(intros b Hb; apply HPQ; by right)). pose proof (HPQ a ltac:(by left)).
  destruct (decide (Q a)) as [Hq|Hq]; [rewrite decide_True by tauto|rewrite decide_False by tauto];
    rewrite ?fmap_cons; congruence.
Qed.
Lemma list_filter_ext {A} (P Q : A → Prop) `{!∀ a, Decision (P a)} `{!∀ a, Decision (Q a)} (t : list A) :
  (∀ a, a ∈ t → P a ↔ Q a) → filter P t = filter Q t.
Proof. intros HPQ. pose proof (filter_fmap id Q P t HPQ) as E. by rewrite !list_fmap_id in E. Qed.

(** ** Taking an element out *)

(** The last element takes the place of the one at [i]. *)
Definition swap_out {A} (i : nat) (l : list A) : list A :=
  match last l with Some x => take (length l - 1) (<[i := x]> l) | None => l end.

Lemma swap_out_length {A} i (l : list A) : length (swap_out i l) = (length l - 1)%nat.
Proof.
  unfold swap_out. destruct (last l) eqn:E.
  - rewrite length_take, length_insert. lia.
  - apply last_None in E as ->. done.
Qed.

(** Where the element was the last one, or not. *)
Lemma swap_out_cases {A} (l r : list A) x :
  swap_out (length l) (l ++ x :: r) =
    match last r with Some y => l ++ y :: take (length r - 1) r | None => l end.
Proof.
  unfold swap_out. rewrite last_app_cons, last_cons. rewrite length_app. simpl length.
  destruct (last r) as [y|] eqn:E; simpl.
  - rewrite insert_app_r_alt, Nat.sub_diag by lia. simpl. rewrite take_app_ge by lia. f_equal.
    assert (length r ≠ 0%nat) by (destruct r; [done|simpl; lia]).
    replace (length l + S (length r) - 1 - length l)%nat with (S (length r - 1)) by lia. done.
  - apply last_None in E as ->. rewrite insert_app_r_alt by lia.
    by rewrite take_app_le, take_ge by (simpl; lia).
Qed.

Lemma swap_out_take {A} i (l : list A) : (i < length l)%nat → take i (swap_out i l) = take i l.
Proof.
  intros Hi. destruct (lookup_lt_is_Some_2 l i Hi) as [x Hx]. rewrite <-(take_drop_middle l i x Hx) at 1.
  assert (length (take i l) = i) as Hl by (rewrite length_take; lia). rewrite <-Hl at 2. rewrite swap_out_cases.
  destruct (last (drop (S i) l)); [by rewrite take_app_le, take_ge by lia|by rewrite take_ge by lia].
Qed.

Lemma swap_out_drop {A} i (l : list A) : (i < length l)%nat → drop i (swap_out i l) ≡ₚ drop (S i) l.
Proof.
  intros Hi. destruct (lookup_lt_is_Some_2 l i Hi) as [x Hx]. rewrite <-(take_drop_middle l i x Hx) at 1.
  assert (length (take i l) = i) as Hl by (rewrite length_take; lia). rewrite <-Hl at 2. rewrite swap_out_cases.
  set (r := drop (S i) l). destruct (last r) as [y|] eqn:E.
  - rewrite drop_app_ge, Hl, Nat.sub_diag by lia. simpl. apply last_Some in E as [k ->].
    rewrite length_app. simpl. replace (length k + 1 - 1)%nat with (length k) by lia. rewrite take_app_length.
    by rewrite Permutation_app_comm.
  - apply last_None in E. rewrite E. by rewrite drop_ge by lia.
Qed.

Lemma swap_out_perm {A} i (l : list A) x : l !! i = Some x → x :: swap_out i l ≡ₚ l.
Proof.
  intros Hx. pose proof (lookup_lt_Some _ _ _ Hx) as Hi. rewrite <-(take_drop i (swap_out i l)).
  rewrite swap_out_take, swap_out_drop by done. rewrite <-(take_drop_middle l i x Hx) at 3.
  by rewrite <-Permutation_middle.
Qed.

Section table.
Context {A : Type} `{!Slot A}.
Implicit Type s : srv A.

(** The part of the array that is in use, and its descriptors. *)
Definition live s : list A := take (Z.to_nat (cnt_fd_socket s)) (sockets s).
Definition fds s : list Z := fd_of <$> live s.

Record table_ok (listener : Z) s : Prop := {
  ok_length : length (sockets s) = Z.to_nat MAX_FD_SOCKET;
  ok_cnt : 1 ≤ cnt_fd_socket s ≤ MAX_FD_SOCKET;
  ok_nodup : NoDup (fds s);
  ok_listener : fds s !! 0%nat = Some listener;
  ok_open : ∀ f, f ∈ fds s → f ∈ open_ s ∧ f ≠ -1
}.

Lemma live_length l s : table_ok l s → Z.of_nat (length (live s)) = cnt_fd_socket s.
Proof. intros H. unfold live. rewrite length_take, (ok_length l s H). destruct (ok_cnt l s H). lia. Qed.

Lemma rd_live l s i x : table_ok l s → live s !! i = Some x → rd_at (sockets s) (Z.of_nat i) = Ok x.
Proof.
  intros H Hx. apply rd_at_ok; [lia|]. rewrite Nat2Z.id. unfold live in Hx. apply lookup_take_Some in Hx. apply Hx.
Qed.

(** The loop of [del_socket]. *)
Lemma del_loop_ok (a : list A) (n i : nat) (x : A) :
  (n ≤ length a)%nat → take n a !! i = Some x → NoDup (fd_of <$> take n a) → fd_of x ≠ -1 →
  ∃ a', for_ n 0 (del_step (fd_of x) (Z.of_nat n)) (a, 0) = Ok (a', 1) ∧ length a' = length a ∧
    take (n - 1) a' = swap_out i (take n a).
Proof.
  intros Hn Hx Hnd Hne. pose proof (lookup_lt_Some _ _ _ Hx) as Hi. rewrite length_take in Hi.
  assert (∀ j y, (j < n)%nat → a !! j = Some y → fd_of y = fd_of x → j = i) as Huniq.
  { intros j y Hj Hy E. eapply (NoDup_lookup (fd_of <$> take n a) j i (fd_of x)); [done| |].
    - rewrite list_lookup_fmap, lookup_take_lt, Hy by lia. simpl. by rewrite E.
    - by rewrite list_lookup_fmap, Hx. }
  apply lookup_take_Some in Hx as [Hx _].
  destruct (lookup_lt_is_Some_2 a (n - 1)) as [z Hz]; [lia|].
  set (a1 := if decide (i = n - 1)%nat then a else <[i := z]> a).
  assert (a1 !! (n - 1)%nat = Some z) as Hz1.
  { unfold a1. case_decide; [done|]. by rewrite list_lookup_insert_ne by lia. }
  assert (length a1 = length a) as Hl1 by (unfold a1; case_decide; by rewrite ?length_insert).
  set (a2 := <[(n - 1)%nat := clear z]> a1).
  destruct (for_inv n 0 (del_step (fd_of x) (Z.of_nat n)) (λ k st, st = if k <=? Z.of_nat i then (a, 0) else (a2, 1)) (a, 0))
    as (st & E & ->).
  - by rewrite (proj2 (Z.leb_le 0 _)) by lia.
  - intros k st Hk ->. unfold del_step. destruct (Z.leb_spec k (Z.of_nat i)).
    + destruct (lookup_lt_is_Some_2 a (Z.to_nat k)) as [y Hy]; [lia|].
      rewrite (rd_at_ok a k y) by (done || lia). unfold mbind, res_bind.
      destruct (Z.eqb_spec (fd_of y) (fd_of x)) as [Eq|Hny].
      * apply (Huniq (Z.to_nat k) y) in Eq; [|lia|done]. assert (k = Z.of_nat i) as -> by lia.
        rewrite (rd_at_ok a (Z.of_nat n - 1) z) by (try (replace (Z.to_nat (Z.of_nat n - 1)) with (n - 1)%nat by lia; done); lia).
        assert ((if negb (Z.of_nat i =? Z.of_nat n - 1) then wr_at a (Z.of_nat i) z else Ok a) = Ok a1) as ->.
        { unfold a1. destruct (Z.eqb_spec (Z.of_nat i) (Z.of_nat n - 1)); simpl.
          - by rewrite decide_True by lia.
          - rewrite decide_False by lia. rewrite wr_at_ok by lia. by rewrite Nat2Z.id. }
        rewrite (rd_at_ok a1 (Z.of_nat n - 1) z) by (try (replace (Z.to_nat (Z.of_nat n - 1)) with (n - 1)%nat by lia; done); lia).
        rewrite wr_at_ok by lia. eexists. split; [done|]. rewrite (proj2 (Z.leb_gt _ _)) by lia.
        unfold a2. do 3 f_equal. lia.
      * eexists. split; [done|]. destruct (Z.leb_spec (k + 1) (Z.of_nat i)); [done|].
        exfalso. apply Hny. assert (k = Z.of_nat i) as -> by lia. rewrite Nat2Z.id in Hy. congruence.
    + assert (∃ y, a2 !! Z.to_nat k = Some y ∧ fd_of y ≠ fd_of x) as (y & Hy & Hny).
      { unfold a2. destruct (decide (n - 1 = Z.to_nat k)%nat) as [E|E].
        - rewrite E, list_lookup_insert_eq by lia. eexists. split; [done|]. by rewrite fd_clear.
        - rewrite list_lookup_insert_ne by done. unfold a1. destruct (lookup_lt_is_Some_2 a (Z.to_nat k)) as [y Hy]; [lia|].
          exists y. split; [|intros Eq; apply (Huniq (Z.to_nat k) y) in Eq; [lia|lia|done] ].
          case_decide; [done|]. by rewrite list_lookup_insert_ne by lia. }
      rewrite (rd_at_ok a2 k y) by (done || lia). unfold mbind, res_bind. rewrite (proj2 (Z.eqb_neq _ _)) by done.
      eexists. split; [done|]. by rewrite (proj2 (Z.leb_gt _ _)) by lia.
  - rewrite (proj2 (Z.leb_gt _ _)) in E by lia. exists a2. split; [done|]. unfold a2. rewrite length_insert. split; [done|].
    rewrite take_insert_ge by lia. unfold swap_out.
    assert (last (take n a) = Some z) as ->.
    { rewrite last_lookup, length_take. replace (pred (n `min` length a)) with (n - 1)%nat by lia.
      by rewrite lookup_take_lt by lia. }
    rewrite length_take. replace (n `min` length a - 1)%nat with (n - 1)%nat by lia. rewrite <-take_insert_lt, take_take by lia.
    replace ((n - 1) `min` n)%nat with (n - 1)%nat by lia. unfold a1. case_decide as Ei; [|done].
    by rewrite take_insert_ge by lia.
Qed.

(** ** The functions *)
Lemma del_socket_runs l s i x (Q : Z → srv A → Prop) :
  table_ok l s → live s !! i = Some x → (0 < i)%nat →
  (∀ s', table_ok l s' → live s' = swap_out i (live s) → open_ s' = open_ s ∖ {[fd_of x]} → recvd s' = recvd s →
     Q (cnt_fd_socket s) s') →
  runs (del_socket (fd_of x)) s Q.
Proof.
  intros H Hx Hi HQ. destruct (ok_cnt l s H) as [Hc1 Hc2]. pose proof (live_length l s H) as Hll.
  pose proof (lookup_lt_Some _ _ _ Hx) as Hilt.
  assert (fd_of x ∈ fds s) as Hin by (apply list_elem_of_fmap; exists x; split; [done|by eapply list_elem_of_lookup_2]).
  destruct (ok_open l s H _ Hin) as [Hopen Hne].
  destruct (del_loop_ok (sockets s) (Z.to_nat (cnt_fd_socket s)) i x) as (a' & E & Hla & Htk);
    [rewrite (ok_length l s H); lia|done|apply H|done|].
  rewrite Z2Nat.id in E by lia.
  unfold del_socket. apply runs_bind, runs_modify, runs_bind, runs_gets, runs_bind, runs_gets, runs_bind.
  simpl cnt_fd_socket. simpl sockets. eapply runs_lift; [exact E|]. apply runs_bind, runs_modify. simpl.
  apply runs_bind, runs_modify, runs_ret. simpl.
  set (s' := with_sockets a' (cnt_fd_socket s - 1) _).
  assert (live s' = swap_out i (live s)) as Hlive.
  { unfold live, s'. simpl. by replace (Z.to_nat (cnt_fd_socket s - 1)) with (Z.to_nat (cnt_fd_socket s) - 1)%nat by lia. }
  pose proof (swap_out_perm i (live s) x Hx) as Hperm. rewrite <-Hlive in Hperm.
  assert (fd_of x :: fds s' ≡ₚ fds s) as Hfds by (unfold fds; by rewrite <-Hperm).
  pose proof (ok_nodup l s H) as Hnd. rewrite <-Hfds in Hnd. apply NoDup_cons in Hnd as [Hnx Hnd].
  apply HQ; [|done..]. split; [by rewrite <-(ok_length l s H)|simpl; lia|done| |].
  - rewrite <-(ok_listener l s H). unfold fds. rewrite !list_lookup_fmap, Hlive.
    rewrite <-(lookup_take_lt (swap_out i (live s)) i), swap_out_take, lookup_take_lt by lia. done.
  - intros f Hf. destruct (ok_open l s H f) as [Ho Hn]; [rewrite <-Hfds; by right|]. split; [|done]. simpl. set_solver.
Qed.

Lemma add_socket_runs l s fd (Q : Z → srv A → Prop) :
  table_ok l s → fd ∈ open_ s → fd ∉ fds s → fd ≠ -1 →
  (∀ n s', table_ok l s' → fds s' = fds s ++ (if cnt_fd_socket s <? MAX_FD_SOCKET then [fd] else []) →
     open_ s' = open_ s → recvd s' = recvd s → n = (if cnt_fd_socket s <? MAX_FD_SOCKET then cnt_fd_socket s + 1 else -1) → Q n s') →
  runs (add_socket fd) s Q.
Proof.
  intros H Ho Hnew Hne HQ. unfold add_socket. apply runs_bind, runs_gets. destruct (ok_cnt l s H) as [Hc1 Hc2].
  destruct (Z.ltb_spec (cnt_fd_socket s) MAX_FD_SOCKET) as [Hlt|Hge].
  - apply runs_bind, runs_gets. destruct (lookup_lt_is_Some_2 (sockets s) (Z.to_nat (cnt_fd_socket s))) as [y Hy].
    { rewrite (ok_length l s H). lia. }
    apply runs_bind. eapply runs_lift; [apply rd_at_ok; [lia|exact Hy]|].
    apply runs_bind. eapply runs_lift; [apply wr_at_ok; rewrite (ok_length l s H); lia|].
    apply runs_bind, runs_modify, runs_ret. set (s' := with_sockets _ _ s).
    assert (fds s' = fds s ++ [fd]) as Hf.
    { unfold fds, live, s'. simpl. replace (Z.to_nat (cnt_fd_socket s + 1)) with (S (Z.to_nat (cnt_fd_socket s))) by lia.
      rewrite (take_S_r _ _ (register fd y)) by (apply list_lookup_insert_eq; by eapply lookup_lt_Some).
      by rewrite take_insert_ge, fmap_app by lia; simpl; rewrite fd_register. }
    apply HQ; try done. split; [|simpl; lia|..].
    + simpl. by rewrite length_insert, (ok_length l s H).
    + rewrite Hf. apply NoDup_app. split; [apply H|]. split; [|apply NoDup_singleton].
      intros z Hz ->%list_elem_of_singleton. done.
    + rewrite Hf. by apply lookup_app_l_Some, H.
    + rewrite Hf. intros f [Hin| ->%list_elem_of_singleton]%elem_of_app; [by apply H|done].
  - apply runs_ret, HQ; try done. by rewrite app_nil_r.
Qed.

Lemma opened_ok l s f : table_ok l s → table_ok l (opened f s).
Proof. intros [H1 H2 H3 H4 H5]. split; [done..|]. intros g Hg. destruct (H5 g Hg). split; [simpl; set_solver|done]. Qed.
Lemma received_ok l s f n : table_ok l s → table_ok l (received f n s).
Proof. by intros [H1 H2 H3 H4 H5]. Qed.

(** What [accept] can return: descriptors that are not in use. *)
Definition fresh (fs : list Z) s : Prop := NoDup fs ∧ ∀ f, f ∈ fs → f ∉ open_ s ∧ f ≠ -1.

Lemma accept_sockets_runs l fs : ∀ s, table_ok l s → fresh fs s →
  runs (accept_loop fs) s (λ _ s', table_ok l s' ∧ recvd s' = recvd s ∧ open_ s' = open_ s ∪ list_to_set fs ∧
    fds s' = fds s ++ take (Z.to_nat (MAX_FD_SOCKET - cnt_fd_socket s)) fs).
Proof.
  induction fs as [|f fs IH]; intros s H [Hnd Hfr]; cbn [accept_loop].
  - apply runs_ret. split; [done|]. split; [done|]. split; [set_solver|]. by rewrite take_nil, app_nil_r.
  - apply NoDup_cons in Hnd as [Hf Hnd]. destruct (Hfr f) as [Ho Hne]; [by left|].
    apply runs_bind, runs_modify, runs_bind. pose proof (opened_ok l s f H) as H1.
    apply (add_socket_runs l); [done|simpl; set_solver| |done|].
    { intros Hin. apply Ho. by apply (ok_open l s H). }
    intros n s1 T1 F1 O1 R1 _. change (fds (opened f s)) with (fds s) in F1. simpl in F1, O1, R1.
    eapply runs_mono; [apply (IH s1 T1)|].
    { split; [done|]. intros g Hg. destruct (Hfr g) as [Hgo Hgn]; [by right|]. split; [|done]. rewrite O1. set_solver. }
    intros _ s' (T' & R' & O' & F'). split; [done|]. split; [congruence|]. split; [rewrite O', O1; set_solver|].
    rewrite F', F1. pose proof (ok_cnt l s H). pose proof (live_length l s H). pose proof (live_length l s1 T1) as L1.
    apply (f_equal length) in F1. unfold fds in F1. rewrite length_app, !length_fmap in F1.
    destruct (Z.ltb_spec (cnt_fd_socket s) MAX_FD_SOCKET); simpl in F1.
    + rewrite <-(assoc_L (++)). f_equal.
      replace (Z.to_nat (MAX_FD_SOCKET - cnt_fd_socket s)) with (S (Z.to_nat (MAX_FD_SOCKET - cnt_fd_socket s1))) by lia. done.
    + replace (MAX_FD_SOCKET - cnt_fd_socket s) with 0 by lia. replace (MAX_FD_SOCKET - cnt_fd_socket s1) with 0 by lia.
      by rewrite !app_nil_r.
Qed.

(** The start of the program. *)
Lemma listen_on_runs l (Q : unit → srv A → Prop) :
  l ≠ -1 → (∀ s, table_ok l s → fds s = [l] → open_ s = {[l]} → recvd s = [] → Q tt s) →
  runs (listen_on l true true) start Q.
Proof.
  intros Hl HQ. unfold listen_on. rewrite (proj2 (Z.eqb_neq l (-1))) by done. apply runs_bind, runs_modify. simpl negb. cbv iota.
  apply runs_bind. unfold add_socket. apply runs_bind, runs_gets. simpl cnt_fd_socket. cbv iota.
  apply runs_bind, runs_gets, runs_bind. eapply runs_lift; [apply rd_at_ok; [done|reflexivity]|].
  apply runs_bind. eapply runs_lift; [apply wr_at_ok; split; [done|by vm_compute]|].
  apply runs_bind, runs_modify, runs_ret, runs_ret. set (s := with_sockets _ _ _).
  assert (fds s = [l]) as Hf by (unfold fds, live, s; simpl; by rewrite fd_register).
  assert (open_ s = {[l]}) as Ho by (unfold s; simpl; set_solver).
  apply HQ; [|done..]. split; [unfold s; by rewrite <-(length_replicate (Z.to_nat MAX_FD_SOCKET) (empty_slot (A := A)))|simpl; unfold MAX_FD_SOCKET; lia|..];
    rewrite Hf; [apply NoDup_singleton|done|].
  intros f ->%list_elem_of_singleton. rewrite Ho. set_solver.
Qed.
End table.
