(* ===== verification/PollServerProofs.v ===== *)
(** * The server with [poll]: correctness

    What one pass over the sockets does ([data_loop_ok]), and what a round does,
    from any state the program can be in ([reachable]). *)

From stdpp Require Import base gmap list.
From Stdlib Require Import ZArith Lia.
From S2P Require Import Prelude Arrays SocketTable SocketProofs PollServer.

Local Open Scope Z_scope.

(** ** A pass over the sockets *)
Section pass.
Context (listener : Z) (recv : Z → Z).

Definition ready (p : pollfd) : Prop := has POLLIN p = true.
Definition busy (p : pollfd) : Prop := revents p ≠ 0.
(** Sockets whose connection is closed. *)
Definition closes (p : pollfd) : Prop := ready p ∧ recv (fd p) = 0.
#[global] Instance ready_dec p : Decision (ready p).
Proof. unfold ready. apply _. Defined.
#[global] Instance busy_dec p : Decision (busy p).
Proof. unfold busy. apply _. Defined.
#[global] Instance closes_dec p : Decision (closes p).
Proof. unfold closes. apply _. Defined.

Lemma has_busy flag p : has flag p = true → busy p.
Proof. unfold has, busy. intros H E. by rewrite E in H. Qed.

Lemma not_busy_pass l : length (filter busy l) = 0%nat → filter ready l = [] ∧ filter closes l = [] ∧ filter (λ p, ¬ closes p) l = l.
Proof.
  induction l as [|p l IH]; [done|]. rewrite !filter_cons. case_decide as Hb; [done|]. intros H. destruct (IH H) as (-> & -> & ->).
  assert (¬ ready p) as Hr by (intros Hr%has_busy; done).
  rewrite !decide_False by (intros [? ?] || done; done). by rewrite decide_True by by intros [? ?].
Qed.

Definition entry (p : pollfd) : Z * Z := (fd p, recv (fd p)).

Definition pass_post (s : srv pollfd) (i : nat) (s' : srv pollfd) : Prop :=
  table_ok listener s' ∧
  (∃ log, recvd s' = recvd s ++ log ∧ log ≡ₚ entry <$> filter ready (drop i (live s))) ∧
  live s' ≡ₚ take i (live s) ++ filter (λ p, ¬ closes p) (drop i (live s)) ∧
  open_ s' = open_ s ∖ list_to_set (fd <$> filter closes (drop i (live s))).

(** The end of the pass. *)
Lemma pass_end s i : table_ok listener s → length (filter busy (drop i (live s))) = 0%nat → pass_post s i s.
Proof.
  intros T Hb. destruct (not_busy_pass _ Hb) as (F1 & F2 & F3). unfold pass_post. rewrite F1, F2, F3, take_drop.
  split; [done|]. split; [exists []; by rewrite app_nil_r|]. split; [done|]. simpl. by rewrite difference_empty_L.
Qed.

(** The pass skips a socket. *)
Lemma pass_skip s i p s' : live s !! i = Some p → ¬ ready p → pass_post s (S i) s' → pass_post s i s'.
Proof.
  intros Hp Hr (T & (log & R & L) & V & O). rewrite (take_S_r _ _ p Hp) in V. unfold pass_post.
  rewrite (drop_S (live s) p i Hp). rewrite !filter_cons. rewrite decide_False by done.
  rewrite (decide_False (P := closes p)) by by intros [? ?]. rewrite decide_True by by intros [? ?].
  split; [done|]. split; [by exists log|]. split; [|done]. by rewrite V, <-(assoc_L (++)).
Qed.

(** It receives from one that stays. *)
Lemma pass_stays s i p s' :
  live s !! i = Some p → ready p → recv (fd p) ≠ 0 → pass_post (received (fd p) (recv (fd p)) s) (S i) s' → pass_post s i s'.
Proof.
  intros Hp Hr Hn (T & (log & R & L) & V & O). change (live (received _ _ s)) with (live s) in *.
  rewrite (take_S_r _ _ p Hp) in V. unfold pass_post. rewrite (drop_S (live s) p i Hp). rewrite !filter_cons.
  rewrite decide_True by done. rewrite (decide_False (P := closes p)) by by intros [? ?]. rewrite decide_True by by intros [? ?].
  split; [done|]. split; [|split; [by rewrite V, <-(assoc_L (++))|done] ].
  exists (entry p :: log). split; [by rewrite R; simpl; rewrite <-(assoc_L (++))|]. by rewrite L.
Qed.

(** It receives from one that is closed, and takes it out. *)
Lemma pass_closes s i p s1 s' :
  live s !! i = Some p → ready p → recv (fd p) = 0 →
  live s1 = swap_out i (live s) → recvd s1 = recvd s ++ [entry p] → open_ s1 = open_ s ∖ {[fd p]} →
  pass_post s1 i s' → pass_post s i s'.
Proof.
  intros Hp Hr H0 L1 R1 O1 (T & (log & R & L) & V & O). pose proof (lookup_lt_Some _ _ _ Hp) as Hi. unfold pass_post.
  rewrite L1, swap_out_take in V by done.
  pose proof (swap_out_drop i (live s) Hi) as Hd. rewrite <-L1 in Hd.
  rewrite (drop_S (live s) p i Hp). rewrite !filter_cons. rewrite decide_True by done.
  rewrite (decide_True (P := closes p)) by done. rewrite decide_False by (intros H; by apply H).
  split; [done|]. split; [|split].
  - exists (entry p :: log). split; [by rewrite R, R1, <-(assoc_L (++))|]. by rewrite L, Hd.
  - rewrite V, <-L1. by rewrite Hd.
  - rewrite O, O1. simpl. rewrite Hd. set_solver.
Qed.

Lemma data_loop_ok fuel : ∀ i ret s,
  table_ok listener s → 1 ≤ Z.of_nat i ≤ cnt_fd_socket s → cnt_fd_socket s - Z.of_nat i ≤ Z.of_nat fuel →
  Z.of_nat (length (filter busy (drop i (live s)))) ≤ ret →
  runs (data_loop recv fuel (Z.of_nat i) ret) s (λ _, pass_post s i).
Proof.
  induction fuel as [|fuel IH]; intros i ret s T Hi Hf Hb; cbn [data_loop];
    apply runs_bind, runs_gets; pose proof (live_length listener s T) as Hll.
  { rewrite (proj2 (Z.ltb_ge (Z.of_nat i) (cnt_fd_socket s))) by lia. apply runs_ret, pass_end; [done|].
    by rewrite drop_ge by lia. }
  destruct (_ && _) eqn:Eg; cycle 1.
  { apply runs_ret, pass_end; [done|]. apply andb_false_iff in Eg as [Eg%Z.ltb_ge|Eg%Z.ltb_ge]; [by rewrite drop_ge by lia|lia]. }
  apply andb_true_iff in Eg as [Hlt%Z.ltb_lt Hr%Z.ltb_lt].
  destruct (lookup_lt_is_Some_2 (live s) i) as [p Hp]; [lia|].
  apply runs_bind, runs_gets, runs_bind. eapply runs_lift; [by apply (rd_live listener s i p)|].
  rewrite (drop_S (live s) p i Hp), filter_cons in Hb.
  replace (Z.of_nat i + 1) with (Z.of_nat (S i)) by lia.
  destruct (has POLLIN p) eqn:Hin.
  - rewrite decide_True in Hb by by apply has_busy in Hin. simpl length in Hb.
    apply runs_bind, runs_modify. pose proof (received_ok listener s (fd p) (recv (fd p)) T) as T1.
    destruct (Z.eqb_spec (recv (fd p)) 0) as [H0|Hn].
    + apply runs_bind, runs_bind. change (del_socket (fd p)) with (del_socket (fd_of p)).
      eapply del_socket_runs; [exact T1|exact Hp|lia|].
      intros s1 T2 L1 O1 R1. apply runs_ret. replace (Z.of_nat i - 1 + 1) with (Z.of_nat i) by lia.
      change (live (received _ _ s)) with (live s) in L1. simpl in O1, R1.
      pose proof (live_length listener s1 T2) as Hll1. rewrite L1, swap_out_length in Hll1.
      eapply runs_mono; [apply (IH i (ret - 1) s1); [done|lia|lia|]|].
      * rewrite L1, swap_out_drop by lia. lia.
      * intros ? s'. by apply (pass_closes s i p s1).
    + apply runs_bind, runs_ret. replace (Z.of_nat i + 1) with (Z.of_nat (S i)) by lia.
      eapply runs_mono; [apply (IH (S i) (ret - 1) (received (fd p) (recv (fd p)) s)); [done|simpl; lia|simpl; lia|]|].
      * change (live (received _ _ s)) with (live s). lia.
      * intros ? s'. by apply (pass_stays s i p).
  - assert (¬ ready p) as Hnr by (unfold ready; by rewrite Hin).
    assert (Z.of_nat (length (filter busy (drop (S i) (live s)))) ≤ ret ∧
      ∀ flag, has flag p = true → Z.of_nat (length (filter busy (drop (S i) (live s)))) ≤ ret - 1) as [Hb1 Hb2].
    { split; [case_decide; simpl in Hb; lia|]. intros flag Hfl%has_busy. rewrite decide_True in Hb by done. simpl in Hb. lia. }
    destruct (has POLLERR p) eqn:He; [|destruct (has POLLNVAL p) eqn:Hv];
      (eapply runs_mono; [apply (IH (S i)); [done|lia|lia|eauto]|]); intros ? s'; by apply (pass_skip s i p).
Qed.
End pass.

(** ** Rounds *)
Definition marked (rev : Z → Z) (p : pollfd) : pollfd := Pollfd (fd p) (events p) (rev (fd p)).

Lemma poll_runs l s rev (Q : Z → srv pollfd → Prop) :
  table_ok l s →
  (∀ s', table_ok l s' → live s' = marked rev <$> live s → open_ s' = open_ s → recvd s' = recvd s →
     cnt_fd_socket s' = cnt_fd_socket s → Q (Z.of_nat (length (filter (λ p, revents p ≠ 0) (live s')))) s') →
  runs (poll (Some rev)) s Q.
Proof.
  intros T HQ. unfold poll. apply runs_bind, runs_gets, runs_bind, runs_gets, runs_bind, runs_modify, runs_ret.
  fold (live s). change (λ p, Pollfd (fd p) (events p) (rev (fd p))) with (marked rev).
  set (s' := with_sockets _ _ s). pose proof (live_length l s T) as Hl.
  assert (live s' = marked rev <$> live s) as Hlive.
  { unfold live at 1, s'. simpl. rewrite take_app_le by (rewrite length_fmap; lia). apply take_ge. rewrite length_fmap. lia. }
  rewrite <-Hlive. apply HQ; try done. destruct T as [T1 T2 T3 T4 T5].
  assert (fds s' = fds s) as Hf by (unfold fds; rewrite Hlive, <-list_fmap_compose; done).
  split; [|done|by rewrite Hf..].
  unfold s'. simpl. rewrite length_app, length_fmap, length_drop. rewrite <-T1. unfold live. rewrite length_take. lia.
Qed.

(** The system calls of a round answer as documented. *)
Definition answers_ok (r : answers) (s : srv pollfd) : Prop := fresh (accepted r) s.

(** A round of the program, and the states of a program that listens on [l]; with
    at most as many sockets as the table has elements, unless [crowded]. *)
Definition step (crowded : bool) (s s' : srv pollfd) : Prop :=
  ∃ r, answers_ok r s ∧ round r s = Ok (tt, s') ∧ (crowded = false → Z.of_nat (size (open_ s')) ≤ MAX_FD_SOCKET).
Inductive reachable (crowded : bool) (l : Z) : srv pollfd → Prop :=
| reach_start s : l ≠ -1 → listen_on l true true start = Ok (tt, s) → reachable crowded l s
| reach_round s s' : reachable crowded l s → step crowded s s' → reachable crowded l s'.

(** What the sockets in [ready] come to. *)
Definition served (l : Z) (recv : Z → Z) (ready : list Z) (s s' : srv pollfd) : Prop :=
  let gone := filter (λ f, recv f = 0) ready in
  (∃ log, recvd s' = recvd s ++ log ∧ log ≡ₚ (λ f, (f, recv f)) <$> ready) ∧
  fds s' ≡ₚ filter (λ f, f ∉ gone) (fds s) ∧ open_ s' = open_ s ∖ list_to_set gone.

Lemma pass_served l recv s s1 s' rev :
  table_ok l s → live s1 = marked rev <$> live s → open_ s1 = open_ s → recvd s1 = recvd s →
  pass_post l recv s1 1 s' →
  served l recv (filter (λ f, Z.land (rev f) POLLIN ≠ 0) (drop 1 (fds s))) s s'.
Proof.
  intros T L1 O1 R1 (_ & (log & R & L) & V & O). rewrite L1 in L, V, O.
  assert (∀ p, p ∈ marked rev <$> live s → ready p ↔ Z.land (rev (fd p)) POLLIN ≠ 0) as Hready.
  { intros p (q & -> & _)%list_elem_of_fmap. unfold ready, has, marked. simpl. by rewrite negb_true_iff, Z.eqb_neq. }
  assert (fd <$> (marked rev <$> live s) = fds s) as Hfds by (unfold fds; by rewrite <-list_fmap_compose).
  assert (∀ p, p ∈ drop 1 (marked rev <$> live s) → p ∈ marked rev <$> live s) as Hsub by (intros p; apply subseteq_drop).
  assert (fd <$> filter ready (drop 1 (marked rev <$> live s)) = filter (λ f, Z.land (rev f) POLLIN ≠ 0) (drop 1 (fds s))) as Er.
  { rewrite (filter_fmap fd (λ f, Z.land (rev f) POLLIN ≠ 0)) by auto. by rewrite fmap_drop, Hfds. }
  assert (fd <$> filter (closes recv) (drop 1 (marked rev <$> live s)) =
    filter (λ f, recv f = 0) (filter (λ f, Z.land (rev f) POLLIN ≠ 0) (drop 1 (fds s)))) as Ec.
  { rewrite list_filter_filter, (filter_fmap fd (λ f, recv f = 0 ∧ Z.land (rev f) POLLIN ≠ 0)).
    - by rewrite fmap_drop, Hfds.
    - intros p Hp. unfold closes. rewrite Hready by auto. tauto. }
  split; [|split].
  - exists log. split; [congruence|]. rewrite L, <-Er, <-list_fmap_compose. done.
  - assert (fds s' ≡ₚ fd <$> (take 1 (marked rev <$> live s) ++ filter (λ p, ¬ closes recv p) (drop 1 (marked rev <$> live s)))) as ->.
    { unfold fds. by rewrite V. }
    rewrite fmap_app, fmap_take, Hfds. pose proof (ok_nodup l s T) as Hnd.
    destruct (fds s) as [|f0 t] eqn:Ef; [by rewrite (ok_listener l s T) in Ef || (pose proof (ok_listener l s T) as H; rewrite Ef in H)|].
    simpl in *. apply NoDup_cons in Hnd as [Hf0 Hnd]. rewrite filter_cons, decide_True.
    2:{ rewrite !list_elem_of_filter. rewrite drop_0. by intros (_ & _ & ?). }
    f_equiv. rewrite drop_0. rewrite (filter_fmap fd (λ f, ¬ (recv f = 0 ∧ Z.land (rev f) POLLIN ≠ 0))).
    2:{ intros p Hp. unfold closes. rewrite Hready by auto. tauto. }
    rewrite fmap_drop, Hfds. simpl. rewrite drop_0. apply reflexive_eq, list_filter_ext.
    intros f Hf. rewrite !list_elem_of_filter. tauto.
  - rewrite O, O1, Ec. done.
Qed.

(** What a round comes to: new sockets, or sockets that are served. *)
Definition accepts (l : Z) (fs : list Z) (s s' : srv pollfd) : Prop :=
  recvd s' = recvd s ∧ open_ s' = open_ s ∪ list_to_set fs ∧
  fds s' = fds s ++ take (Z.to_nat (MAX_FD_SOCKET - cnt_fd_socket s)) fs.
Definition has_client (l : Z) (rev : Z → Z) : bool := negb (Z.land (rev l) POLLIN =? 0).
Definition round_post (l : Z) (r : answers) (s s' : srv pollfd) : Prop :=
  match polled r with
  | Some rev =>
      if has_client l rev then accepts l (accepted r) s s'
      else served l (recv r) (filter (λ f, Z.land (rev f) POLLIN ≠ 0) (drop 1 (fds s))) s s'
  | None => accepts l (accepted r) s s' ∨ s' = s
  end.

Lemma head_live l s : table_ok l s → ∃ p, live s !! 0%nat = Some p ∧ fd p = l.
Proof.
  intros T. pose proof (ok_listener l s T) as H. unfold fds in H. rewrite list_lookup_fmap in H.
  destruct (live s !! 0%nat) as [p|]; [|done]. injection H as H. by exists p.
Qed.

Lemma round_runs l r s : table_ok l s → answers_ok r s → runs (round r) s (λ _ s', table_ok l s' ∧ round_post l r s s').
Proof.
  intros T Ha. unfold round, round_post. apply runs_bind. destruct (polled r) as [rev|].
  - apply (poll_runs l); [done|]. intros s1 T1 L1 O1 R1 C1. destruct (head_live l s T) as (p & Hp & Hl).
    apply runs_bind, runs_gets, runs_bind.
    assert (live s1 !! 0%nat = Some (marked rev p)) as Hp1 by (by rewrite L1, list_lookup_fmap, Hp).
    eapply runs_lift; [by apply (rd_live l s1 0)|].
    assert (has POLLIN (marked rev p) = has_client l rev) as -> by (unfold has, has_client, marked; simpl; by rewrite Hl).
    assert (fds s1 = fds s) as Hf by (unfold fds; rewrite L1, <-list_fmap_compose; done).
    destruct (has_client l rev).
    + eapply runs_mono; [apply (accept_sockets_runs l _ s1 T1); unfold answers_ok, fresh in *; by rewrite O1|].
      intros _ s' (T' & R' & O' & F'). split; [done|]. split; [congruence|]. split; [by rewrite O', O1|]. by rewrite F', Hf, C1.
    + apply runs_bind, runs_gets. pose proof (ok_cnt l s1 T1). pose proof (live_length l s1 T1).
      eapply runs_mono; [apply (data_loop_ok l (recv r) _ 1 _ s1 T1); [lia|lia|]|].
      * change (λ p, revents p ≠ 0) with busy. destruct (live s1) as [|q t] eqn:Eq; [done|]. simpl drop. rewrite drop_0.
        unfold busy. rewrite filter_cons. case_decide; simpl; lia.
      * intros ? s' Hpost. split; [apply Hpost|]. by eapply pass_served.
  - apply runs_ret. destruct (head_live l s T) as (p & Hp & Hl). apply runs_bind, runs_gets, runs_bind.
    eapply runs_lift; [by apply (rd_live l s 0)|]. destruct (has POLLIN p).
    + eapply runs_mono; [by apply (accept_sockets_runs l _ s T)|].
      intros _ s' (T' & R' & O' & F'). split; [done|]. by left.
    + apply runs_bind, runs_gets. destruct (Z.to_nat (cnt_fd_socket s)); cbn [data_loop]; apply runs_bind, runs_gets;
        rewrite andb_false_r; apply runs_ret; (split; [done|by right]).
Qed.

Lemma step_post crowded l s s' : table_ok l s → step crowded s s' → table_ok l s' ∧ ∃ r, round_post l r s s'.
Proof.
  intros T (r & Ha & E & _). destruct (runs_inv _ _ _ _ _ (round_runs l r s T Ha) E) as [T' H]. split; [done|]. by exists r.
Qed.

Lemma reachable_table crowded l s : reachable crowded l s → table_ok l s.
Proof.
  induction 1 as [s Hl E|s s' _ IH Hs]; [|by apply (step_post crowded l s s')].
  eapply (runs_inv _ _ (λ _ s, table_ok l s)); [|exact E]. by apply listen_on_runs.
Qed.

(** ** The table and the open sockets *)
Lemma complete l s r s' :
  table_ok l s → answers_ok r s → round_post l r s s' → table_ok l s' →
  (∀ f, f ∈ open_ s ↔ f ∈ fds s) → Z.of_nat (size (open_ s')) ≤ MAX_FD_SOCKET → ∀ f, f ∈ open_ s' ↔ f ∈ fds s'.
Proof.
  intros T Ha Hr T' Hc Hsize. assert (accepts l (accepted r) s s' → ∀ f, f ∈ open_ s' ↔ f ∈ fds s') as Hacc.
  { intros (_ & O & F) f. destruct Ha as [Hnd Hfr]. assert (length (accepted r) ≤ Z.to_nat (MAX_FD_SOCKET - cnt_fd_socket s))%nat as Hlen.
    { rewrite O, size_union, size_list_to_set in Hsize by (done || (intros g Hg ?%elem_of_list_to_set%Hfr; naive_solver)).
      assert (open_ s = list_to_set (fds s)) as Eo by (apply set_eq; intros g; by rewrite Hc, elem_of_list_to_set).
      rewrite Eo, size_list_to_set in Hsize by apply T. unfold fds in Hsize. rewrite length_fmap in Hsize.
      pose proof (live_length l s T). lia. }
    rewrite F, (take_ge (accepted r)) by done. rewrite O, elem_of_union, elem_of_app, elem_of_list_to_set, Hc. done. }
  unfold round_post in Hr. destruct (polled r) as [rev|]; [destruct (has_client l rev)|]; [by apply Hacc| |].
  - destruct Hr as (_ & F & O). intros f. rewrite F, O, list_elem_of_filter, elem_of_difference, elem_of_list_to_set, Hc. tauto.
  - destruct Hr as [?| ->]; [by apply Hacc|done].
Qed.

(** A socket that is open and not in the table. *)
Definition leaked (f : Z) (s : srv pollfd) : Prop := f ∈ open_ s ∧ f ∉ fds s.

Lemma leaked_round l r s s' f :
  table_ok l s → answers_ok r s → round_post l r s s' → leaked f s →
  leaked f s' ∧ ∀ n, (f, n) ∈ recvd s' → (f, n) ∈ recvd s.
Proof.
  intros T Ha Hr [Ho Hf]. assert (accepts l (accepted r) s s' → leaked f s' ∧ ∀ n, (f, n) ∈ recvd s' → (f, n) ∈ recvd s) as Hacc.
  { intros (R & O & F). split; [|by rewrite R]. split; [rewrite O; set_solver|]. rewrite F, not_elem_of_app. split; [done|].
    intros Hin%subseteq_take. by apply Ha in Hin as [? _]. }
  unfold round_post in Hr. destruct (polled r) as [rev|]; [destruct (has_client l rev)|]; [by apply Hacc| |].
  - destruct Hr as ((log & R & L) & F & O). split; [split|].
    + rewrite O, elem_of_difference, elem_of_list_to_set, !list_elem_of_filter. split; [done|]. intros (_ & _ & H). by apply subseteq_drop in H.
    + rewrite F, list_elem_of_filter. by intros [_ ?].
    + intros n. rewrite R, elem_of_app, L, list_elem_of_fmap. intros [?|(g & [= <- _] & Hg)]; [done|].
      apply list_elem_of_filter in Hg as [_ Hg%subseteq_drop]. done.
  - destruct Hr as [?| ->]; [by apply Hacc|done].
Qed.

(** ** Theorems *)

(** A round of the server with [poll]: from any state the program can be in,
    whatever the system calls answer, the round ends without a fault.  When the
    listener has a client, the new connections are registered as far as there is
    room; otherwise [recv] is called exactly once for each socket that [poll]
    reported, although [del_socket] moves others while the loop goes on, and
    exactly the sockets whose connection has ended are closed and removed. *)
Theorem poll_round_serves crowded l s r rev :
  reachable crowded l s → answers_ok r s → polled r = Some rev →
  ∃ s', round r s = Ok (tt, s') ∧
    if has_client l rev then accepts l (accepted r) s s'
    else
      let ready := filter (λ f, Z.land (rev f) POLLIN ≠ 0) (drop 1 (fds s)) in
      let gone := filter (λ f, recv r f = 0) ready in
      (∃ log, recvd s' = recvd s ++ log ∧ log ≡ₚ (λ f, (f, recv r f)) <$> ready) ∧
      fds s' ≡ₚ filter (λ f, f ∉ gone) (fds s) ∧ open_ s' = open_ s ∖ list_to_set gone.
Proof.
  intros H Ha E. destruct (round_runs l r s (reachable_table _ _ _ H) Ha) as ([] & s' & Er & _ & Hp).
  exists s'. split; [done|]. unfold round_post in Hp. by rewrite E in Hp.
Qed.

(** The table is the set of open sockets, each once, with the listener first,
    as long as there are never more of them than the table has elements. *)
Theorem poll_table_complete l s :
  reachable false l s → NoDup (fds s) ∧ fds s !! 0%nat = Some l ∧ ∀ f, f ∈ open_ s ↔ f ∈ fds s.
Proof.
  intros H. split; [apply (reachable_table _ _ _ H)|]. split; [by apply (reachable_table _ _ _ H)|].
  induction H as [s Hl E|s s' Hr IH (r & Ha & E & Hsize)].
  - eapply (runs_inv _ _ (λ _ s, ∀ f, f ∈ open_ s ↔ f ∈ fds s)); [|exact E]. apply listen_on_runs; [done|].
    intros s0 _ F O _ f. rewrite F, O. set_solver.
  - pose proof (reachable_table _ _ _ Hr) as T.
    destruct (runs_inv _ _ _ _ _ (round_runs l r s T Ha) E) as [T' Hp]. by apply (complete l s r s'); auto.
Qed.

(** When the table is full a new connection is accepted and forgotten: its
    socket stays open for as long as the server runs, is never received from, and
    no later room in the table helps. *)
Theorem full_table_leaks l s r rev s1 f s' :
  reachable true l s → cnt_fd_socket s = MAX_FD_SOCKET →
  answers_ok r s → polled r = Some rev → has_client l rev = true → f ∈ accepted r → round r s = Ok (tt, s1) →
  rtc (step true) s1 s' →
  f ∈ open_ s' ∧ f ∉ fds s' ∧ ∀ n, (f, n) ∈ recvd s' → (f, n) ∈ recvd s.
Proof.
  intros H Hfull Ha Erev Hcl Hf E Hsteps. pose proof (reachable_table _ _ _ H) as T.
  destruct (runs_inv _ _ _ _ _ (round_runs l r s T Ha) E) as [T1 Hp]. unfold round_post in Hp. rewrite Erev, Hcl in Hp.
  destruct Hp as (R & O & F). rewrite Hfull, Z.sub_diag in F. simpl in F. rewrite app_nil_r in F.
  assert (leaked f s1) as Hlk.
  { split; [rewrite O; set_solver|]. rewrite F. intros [Hin _]%(ok_open l s T). destruct Ha as [_ Hfr]. by destruct (Hfr f Hf). }
  rewrite <-R. clear -T1 Hlk Hsteps. unfold leaked in *. rewrite (assoc and).
  induction Hsteps as [s|s s2 s3 (r & Ha & E & _) _ IH]; [done|].
  destruct (runs_inv _ _ _ _ _ (round_runs l r s T1 Ha) E) as [T2 Hp].
  destruct (leaked_round l r s s2 f T1 Ha Hp Hlk) as [Hlk2 Hsub]. destruct (IH T2 Hlk2) as [? H3]. split; [done|]. auto.
Qed.

(** ** Examples *)
Definition after (r : answers) (s : srv pollfd) : srv pollfd := match round r s with Ok (_, s') => s' | Err _ => s end.
(** A round in which the clients [fs] come, and one in which the sockets [fs] are
    ready and those in [gone] end. *)
Definition come (fs : list Z) : answers := Answers (Some (λ f, if f =? 3 then 1 else 0)) fs (λ _, 1).
Definition talk (fs gone : list Z) : answers :=
  Answers (Some (λ f, if bool_decide (f ∈ fs) then 1 else 0)) [] (λ f, if bool_decide (f ∈ gone) then 0 else 10).
Definition state0 : srv pollfd := match listen_on 3 true true start with Ok (_, s) => s | Err _ => start end.
Definition state1 : srv pollfd := after (come [4; 5; 6; 7]) state0.
Definition full : srv pollfd := after (come (seqZ 4 254)) state0.

Lemma state0_reachable crowded : reachable crowded 3 state0.
Proof. apply reach_start; [done|]. vm_compute. reflexivity. Qed.

Lemma fresh_check fs (s : srv pollfd) : bool_decide (NoDup fs) = true → forallb (λ f, bool_decide (f ∉ open_ s) && negb (f =? -1)) fs = true → fresh fs s.
Proof.
  intros Hnd%bool_decide_eq_true Hf. split; [done|]. rewrite forallb_forall in Hf. intros f Hin.
  specialize (Hf f (proj1 (list_elem_of_In _ _) Hin)). apply andb_true_iff in Hf as [H1%bool_decide_eq_true H2%negb_true_iff%Z.eqb_neq]. done.
Qed.

Lemma state1_reachable crowded : reachable crowded 3 state1.
Proof.
  eapply reach_round; [apply state0_reachable|]. exists (come [4; 5; 6; 7]).
  split; [apply fresh_check; by vm_compute|]. split; [by vm_compute|]. intros _. by vm_compute.
Qed.
Lemma full_reachable : reachable true 3 full.
Proof.
  eapply reach_round; [apply state0_reachable|]. exists (come (seqZ 4 254)).
  split; [apply fresh_check; by vm_compute|]. split; [by vm_compute|done].
Qed.

Lemma poll_round_serves_witness :
  ∃ s', round (talk [4; 6; 7] [4; 6]) state1 = Ok (tt, s') ∧
    served 3 (recv (talk [4; 6; 7] [4; 6])) [4; 6; 7] state1 s'.
Proof.
  destruct (poll_round_serves true 3 state1 (talk [4; 6; 7] [4; 6]) (λ f, if bool_decide (f ∈ [4; 6; 7]) then 1 else 0)) as (s' & E & H).
  - apply state1_reachable.
  - apply fresh_check; by vm_compute.
  - done.
  - exists s'. split; [exact E|exact H].
Defined.

Lemma poll_table_complete_witness :
  NoDup (fds state1) ∧ fds state1 !! 0%nat = Some 3 ∧ ∀ f, f ∈ open_ state1 ↔ f ∈ fds state1.
Proof. apply (poll_table_complete 3), state1_reachable. Defined.

Lemma full_table_leaks_witness :
  300 ∈ open_ (after (come [300]) full) ∧ 300 ∉ fds (after (come [300]) full) ∧
  ∀ n, (300, n) ∈ recvd (after (come [300]) full) → (300, n) ∈ recvd full.
Proof.
  apply (full_table_leaks 3 full (come [300]) (λ f, if f =? 3 then 1 else 0) (after (come [300]) full) 300).
  - apply full_reachable.
  - vm_compute. reflexivity.
  - apply fresh_check; by vm_compute.
  - reflexivity.
  - reflexivity.
  - by left.
  - vm_compute. reflexivity.
  - reflexivity.
Defined.
