(* ===== verification/SelectServer.v ===== *)
(** * Servers with [select] ([alsp/src/7.io_multiplexing/io_select.c],
    [io_select2.c])

    The two programs have the same functions and differ in how many connections
    they accept in a round: one, or all of them from a listener that does not
    block.  As in [PollServer], the loop of [main] is modelled one round at a time,
    messages and calls whose result is only printed are not modelled.  An
    [fd_set] is a set of descriptors; FD_SET of a descriptor that it has no bit
    for is a fault. *)

From stdpp Require Import base gmap list.
From Stdlib Require Import ZArith Lia.
From S2P Require Import Prelude Arrays SocketTable.

Local Open Scope Z_scope.

(** [fd_socket] is an array of [int], whose elements [main] sets to -1. *)
#[export] Instance int_slot : Slot Z := {|
  fd_of f := f;
  register f _ := f;
  clear _ := -1;
  empty_slot := -1;
  fd_register _ _ := eq_refl;
  fd_clear _ := eq_refl
|}.

Definition FD_SETSIZE : Z := 1024.
Definition FD_SET (fd : Z) (fds : gset Z) : res (gset Z) :=
  if (0 <=? fd) && (fd <? FD_SETSIZE) then Ok ({[fd]} ∪ fds) else Err BadAccess.
Definition MAX (a b : Z) : Z := if b <=? a then a else b.

Definition mk_fds : M (srv Z) (gset Z * Z) :=
  n ← gets cnt_fd_socket;
  a_fd_socket ← gets sockets;
  lift (for_ (Z.to_nat n) 0 (λ i '(fds, fd_max),
    fd ← rd_at a_fd_socket i;
    fds ← FD_SET fd fds;
    Ok (fds, MAX fd_max fd)) (∅, -1)).

(** The answers of a round: the descriptors that [select] keeps in the set, which
    it leaves as it is if it fails; what [accept] returns (up to its failing with
    EAGAIN in [io_select2]; -1 is another failure); what [recv] returns. *)
Record answers := Answers { selected : option (Z → bool); accepted : list Z; recv : Z → Z }.

Definition select (selected : option (Z → bool)) (fds : gset Z) : gset Z :=
  match selected with Some b => filter (λ f, b f = true) fds | None => fds end.

Fixpoint data_loop (recv : Z → Z) (fds_read : gset Z) (fuel : nat) (i : Z) : M (srv Z) unit :=
  n ← gets cnt_fd_socket;
  if i <? n then
    match fuel with
    | O => fail OutOfFuel
    | S fuel =>
        a ← gets sockets;
        fd ← lift (rd_at a i);
        (if bool_decide (fd ∈ fds_read) then
           let n_recv := recv fd in
           modify (received fd n_recv);;
           if n_recv =? 0 then del_socket fd;; mret tt else mret tt
         else mret tt);;
        data_loop recv fds_read fuel (i + 1)
    end
  else mret tt.

(** One [accept] of [io_select]. *)
Definition accept_one (fds : list Z) : M (srv Z) unit :=
  match fds with
  | fd :: _ => if fd =? -1 then mret tt else modify (opened fd);; add_socket fd;; mret tt
  | [] => mret tt
  end.
(** The loop of [io_select2]: a failure is only reported. *)
Fixpoint accept_all (fds : list Z) : M (srv Z) unit :=
  match fds with
  | [] => mret tt
  | fd :: fds => (if fd =? -1 then mret tt else modify (opened fd));; add_socket fd;; accept_all fds
  end.

Section round.
Context (accept_ : list Z → M (srv Z) unit) (fd_listener : Z).

Definition round (r : answers) : M (srv Z) unit :=
  m ← mk_fds;
  let fds_read := select (selected r) m.1 in
  if bool_decide (fd_listener ∈ fds_read) then accept_ (accepted r)
  else
    n ← gets cnt_fd_socket;
    data_loop (recv r) fds_read (Z.to_nat n) 1.

Fixpoint rounds (rs : list answers) : M (srv Z) unit :=
  match rs with [] => mret tt | r :: rs => round r;; rounds rs end.
End round.

Definition select_main (fd_listener : Z) (bind_ok : bool) (rs : list answers) : M (srv Z) unit :=
  listen_on fd_listener true bind_ok;; rounds accept_one fd_listener rs.
Definition select2_main (fd_listener : Z) (fcntl_ok bind_ok : bool) (rs : list answers) : M (srv Z) unit :=
  listen_on fd_listener fcntl_ok bind_ok;; rounds accept_all fd_listener rs.
