(* ===== verification/SelectServerProofs.v ===== *)
(** * The servers with [select]: correctness

    A pass over the sockets ([select_loop_ok]) looks at every socket but those that
    [del_socket] moves; a round faults exactly when the table has a descriptor
    that an [fd_set] has no bit for. *)

From stdpp Require Import base gmap list.
From Stdlib Require Import ZArith Lia.
From S2P Require Import Prelude Arrays SocketTable SocketProofs SelectServer.

Local Open Scope Z_scope.

(** Descriptors that an [fd_set] has bits for. *)
Definition selectable (f : Z) : Prop := 0 ≤ f < FD_SETSIZE.
#[global] Instance selectable_dec f : Decision (selectable f).
Proof. unfold selectable. apply _. Defined.

Lemma FD_SET_ok f fds : selectable f → FD_SET f fds = Ok ({[f]} ∪ fds).
Proof. intros [H1 H2]. unfold FD_SET. by rewrite (proj2 (Z.leb_le 0 f)), (proj2 (Z.ltb_lt f _)) by done. Qed.
Lemma FD_SET_fault f fds : ¬ selectable f → FD_SET f fds = Err BadAccess.
Proof.
  unfold selectable, FD_SET. intros H. destruct (Z.leb_spec 0 f), (Z.ltb_spec f FD_SETSIZE); try done. by exfalso; apply H.
Qed.

(** ** [mk_fds] *)
Definition fds_step (a : list Z) (i : Z) (st : gset Z * Z) : res (gset Z * Z) :=
  let '(fds, fd_max) := st in fd ← rd_at a i; fds ← FD_SET fd fds; Ok (fds, MAX fd_max fd).

Lemma fds_step_ok a i f fds m :
  a !! i = Some f →
  fds_step a (Z.of_nat i) (fds, m) = if decide (selectable f) then Ok ({[f]} ∪ fds, MAX m f) else Err BadAccess.
Proof.
  intros Hf. unfold fds_step. rewrite (rd_at_ok a (Z.of_nat i) f) by (try rewrite Nat2Z.id; done || lia).
  unfold mbind, res_bind. case_decide; [by rewrite FD_SET_ok|by rewrite FD_SET_fault].
Qed.

Lemma fds_loop a n : ∀ from st,
  (from + n ≤ length a)%nat →
  (∀ f, f ∈ take n (drop from a) → selectable f) →
  ∃ m, for_ n (Z.of_nat from) (fds_step a) st = Ok (list_to_set (take n (drop from a)) ∪ st.1, m).
Proof.
  induction n as [|n IH]; intros from [fds m] Hn Hs; cbn [for_].
  - exists m. simpl. by rewrite union_empty_l_L.
  - destruct (lookup_lt_is_Some_2 a from) as [f Hf]; [lia|]. rewrite (drop_S a f from Hf) in *. simpl take in *.
    rewrite (fds_step_ok a from f) by done. rewrite decide_True by (apply Hs; by left). cbn [mbind res_bind].
    replace (Z.of_nat from + 1) with (Z.of_nat (S from)) by lia.
    destruct (IH (S from) ({[f]} ∪ fds, MAX m f)) as [m' E]; [lia|intros g Hg; apply Hs; by right|].
    exists m'. rewrite E. f_equal. f_equal. simpl. set_solver.
Qed.

Lemma fds_loop_fault a n : ∀ from st,
  (from + n ≤ length a)%nat → (∃ f, f ∈ take n (drop from a) ∧ ¬ selectable f) →
  for_ n (Z.of_nat from) (fds_step a) st = Err BadAccess.
Proof.
  induction n as [|n IH]; intros from [fds m] Hn (g & Hg & Hs); cbn [for_]; [by apply not_elem_of_nil in Hg|].
  destruct (lookup_lt_is_Some_2 a from) as [f Hf]; [lia|]. rewrite (drop_S a f from Hf) in Hg. simpl take in Hg.
  rewrite (fds_step_ok a from f) by done. case_decide; [|done]. cbn [mbind res_bind]. replace (Z.of_nat from + 1) with (Z.of_nat (S from)) by lia.
  apply IH; [lia|]. exists g. split; [|done]. by apply elem_of_cons in Hg as [-> |?].
Qed.

Lemma fds_live (s : srv Z) : fds s = live s.
Proof. apply list_fmap_id. Qed.

Lemma mk_fds_runs l s (Q : gset Z * Z → srv Z → Prop) :
  table_ok l s → (∀ f, f ∈ fds s → selectable f) → (∀ m, Q (list_to_set (fds s), m) s) → runs mk_fds s Q.
Proof.
  intros T Hs HQ. unfold mk_fds. apply runs_bind, runs_gets, runs_bind, runs_gets.
  pose proof (live_length l s T) as Hl. pose proof (ok_cnt l s T) as Hc. unfold live in Hl. rewrite length_take in Hl.
  destruct (fds_loop (sockets s) (Z.to_nat (cnt_fd_socket s)) 0 (∅, -1)) as [m E]; [lia|by rewrite fds_live in Hs|].
  simpl in E. rewrite union_empty_r_L in E. eapply runs_lift; [exact E|]. specialize (HQ m). by rewrite fds_live in HQ.
Qed.

Lemma mk_fds_fault s :
  length (sockets s) = Z.to_nat MAX_FD_SOCKET → 0 ≤ cnt_fd_socket s ≤ MAX_FD_SOCKET →
  (∃ f, f ∈ fds s ∧ ¬ selectable f) → mk_fds s = Err BadAccess.
Proof.
  intros Hl Hc Hf. pose proof (fds_loop_fault (sockets s) (Z.to_nat (cnt_fd_socket s)) 0 (∅, -1)) as E. rewrite drop_0 in E.
  rewrite fds_live in Hf. specialize (E ltac:(lia) Hf). change (Z.of_nat 0) with 0 in E.
  change (mk_fds s) with (lift (for_ (Z.to_nat (cnt_fd_socket s)) 0 (fds_step (sockets s)) (∅, -1)) s).
  unfold lift. by rewrite E.
Qed.

(** ** A pass over the sockets *)
Section pass.
Context (listener : Z) (recv : Z → Z) (R : gset Z).

(** From index [i] on, [recv] is called for the sockets [log], and sockets [skipped]
    are missed, at most one for each that is taken out. *)
Definition pass_post (s : srv Z) (i : nat) (s' : srv Z) : Prop :=
  table_ok listener s' ∧ ∃ log skipped,
    let gone := filter (λ f, recv f = 0) log in
    recvd s' = recvd s ++ ((λ f, (f, recv f)) <$> log) ∧
    log ++ skipped ≡ₚ filter (λ f, f ∈ R) (drop i (fds s)) ∧
    (length skipped ≤ length gone)%nat ∧
    gone ++ fds s' ≡ₚ fds s ∧ open_ s' = open_ s ∖ list_to_set gone.

Lemma select_pass_end s i : table_ok listener s → drop i (fds s) = [] → pass_post s i s.
Proof.
  intros T Hd. split; [done|]. exists [], []. rewrite Hd. split; [by rewrite app_nil_r|].
  split; [done|]. split; [done|]. split; [done|]. simpl. by rewrite difference_empty_L.
Qed.

Lemma select_pass_skip s i f s' : fds s !! i = Some f → f ∉ R → pass_post s (S i) s' → pass_post s i s'.
Proof.
  intros Hf HR (T & log & sk & H1 & H2 & H3). split; [done|]. exists log, sk. split; [done|]. split; [|done].
  by rewrite (drop_S (fds s) f i Hf), filter_cons, decide_False.
Qed.

Lemma select_pass_stays s i f s' :
  fds s !! i = Some f → f ∈ R → recv f ≠ 0 → pass_post (received f (recv f) s) (S i) s' → pass_post s i s'.
Proof.
  intros Hf HR Hn (T & log & sk & H1 & H2 & H3 & H4 & H5). split; [done|]. exists (f :: log), sk. cbv zeta.
  rewrite filter_cons, decide_False by done. split; [by rewrite H1; simpl; rewrite <-(assoc_L (++))|]. split; [|done].
  rewrite (drop_S (fds s) f i Hf), filter_cons, decide_True by done. simpl. by rewrite H2.
Qed.

Lemma select_pass_closes s i f s1 s' :
  fds s !! i = Some f → f ∈ R → recv f = 0 →
  fds s1 = swap_out i (fds s) → recvd s1 = recvd s ++ [(f, recv f)] → open_ s1 = open_ s ∖ {[f]} →
  pass_post s1 (S i) s' → pass_post s i s'.
Proof.
  intros Hf HR H0 F1 R1 O1 (T & log & sk & H1 & H2 & H3 & H4 & H5). pose proof (lookup_lt_Some _ _ _ Hf) as Hi.
  pose proof (swap_out_drop i (fds s) Hi) as Hd. rewrite <-F1 in Hd.
  pose proof (swap_out_perm i (fds s) f Hf) as Hp. rewrite <-F1 in Hp. split; [done|].
  set (moved := filter (λ f, f ∈ R) (take 1 (drop i (fds s1)))).
  assert (length moved ≤ 1)%nat as Hm.
  { unfold moved. etransitivity; [apply length_filter|]. rewrite length_take. lia. }
  exists (f :: log), (moved ++ sk). cbv zeta. rewrite filter_cons, decide_True by done.
  split; [by rewrite H1, R1, <-(assoc_L (++))|]. split; [|split; [|split] ].
  - rewrite (drop_S (fds s) f i Hf), filter_cons, decide_True by done. simpl. f_equiv. rewrite <-Hd.
    rewrite <-(take_drop 1 (drop i (fds s1))), filter_app. fold moved. rewrite drop_drop, Nat.add_1_r, <-H2.
    by rewrite !(assoc_L (++)), (Permutation_app_comm log moved).
  - simpl. rewrite length_app. lia.
  - simpl. by rewrite H4.
  - rewrite H5, O1. simpl. set_solver.
Qed.

Lemma select_loop_ok fuel : ∀ i s,
  table_ok listener s → 1 ≤ Z.of_nat i → cnt_fd_socket s - Z.of_nat i ≤ Z.of_nat fuel →
  runs (data_loop recv R fuel (Z.of_nat i)) s (λ _, pass_post s i).
Proof.
  induction fuel as [|fuel IH]; intros i s T Hi Hf; cbn [data_loop]; apply runs_bind, runs_gets;
    pose proof (live_length listener s T) as Hl; rewrite <-fds_live in Hl.
  { rewrite (proj2 (Z.ltb_ge _ _)) by lia. apply runs_ret, select_pass_end; [done|]. apply drop_ge. lia. }
  destruct (Z.ltb_spec (Z.of_nat i) (cnt_fd_socket s)); [|apply runs_ret, select_pass_end; [done|apply drop_ge; lia] ].
  destruct (lookup_lt_is_Some_2 (fds s) i) as [f Hfd]; [lia|]. pose proof Hfd as Hlv. rewrite fds_live in Hlv.
  apply runs_bind, runs_gets, runs_bind. eapply runs_lift; [by apply (rd_live listener s i f)|].
  replace (Z.of_nat i + 1) with (Z.of_nat (S i)) by lia. apply runs_bind. case_bool_decide as HR.
  - apply runs_bind, runs_modify. pose proof (received_ok listener s f (recv f) T) as T1.
    destruct (Z.eqb_spec (recv f) 0) as [H0|Hn].
    + apply runs_bind. change (del_socket f) with (del_socket (fd_of f)).
      eapply del_socket_runs; [exact T1|exact Hlv|lia|]. intros s1 T2 L1 O1 R1. apply runs_ret.
      change (live (received _ _ s)) with (live s) in L1. simpl in O1, R1. rewrite <-!fds_live in L1.
      pose proof (live_length listener s1 T2) as Hl1. rewrite <-fds_live, L1, swap_out_length in Hl1.
      eapply runs_mono; [apply (IH (S i) s1); [done|lia|lia]|]. intros ? s'. by apply (select_pass_closes s i f s1).
    + apply runs_ret. eapply runs_mono; [apply (IH (S i) (received f (recv f) s)); [done|lia|simpl; lia]|].
      intros ? s'. by apply (select_pass_stays s i f).
  - apply runs_ret. eapply runs_mono; [apply (IH (S i) s); [done|lia|lia]|]. intros ? s'. by apply (select_pass_skip s i f).
Qed.
End pass.

(** ** Rounds *)

(** What both ways of accepting keep. *)
Definition accepting (accept_ : list Z → M (srv Z) unit) : Prop :=
  ∀ l s fs, table_ok l s → fresh fs s → runs (accept_ fs) s (λ _ s', table_ok l s' ∧ recvd s' = recvd s).

Lemma accept_all_loop fs : -1 ∉ fs → accept_all fs = accept_loop fs.
Proof.
  induction fs as [|f fs IH]; [done|]. rewrite not_elem_of_cons. intros [Hf Hfs]. cbn [accept_all accept_loop].
  rewrite (proj2 (Z.eqb_neq f (-1))) by done. by rewrite IH.
Qed.

Lemma accept_all_accepting : accepting accept_all.
Proof.
  intros l s fs T Hf. rewrite accept_all_loop by (intros H; by apply (proj2 Hf) in H as [_ ?]).
  eapply runs_mono; [by apply accept_sockets_runs|]. intros _ s' (T' & R & _). done.
Qed.
Lemma accept_one_accepting : accepting accept_one.
Proof.
  intros l s [|f fs] T [_ Hf]; [by apply runs_ret|]. destruct (Hf f) as [Ho Hne]; [by left|]. simpl.
  rewrite (proj2 (Z.eqb_neq f (-1))) by done. apply runs_bind, runs_modify, runs_bind.
  apply (add_socket_runs l); [by apply opened_ok|simpl; set_solver| |done|].
  - intros Hin. apply Ho. by apply (ok_open l s T).
  - intros n s1 T1 _ _ R1 _. by apply runs_ret.
Qed.

Definition answers_ok (r : answers) (s : srv Z) : Prop := fresh (accepted r) s.
(** The states of a program that listens on [l]; a failure of [accept] is one that
    ends the list. *)
Inductive reachable (accept_ : list Z → M (srv Z) unit) (l : Z) : srv Z → Prop :=
| reach_start s : l ≠ -1 → listen_on l true true start = Ok (tt, s) → reachable accept_ l s
| reach_round s r s' : reachable accept_ l s → answers_ok r s → round accept_ l r s = Ok (tt, s') → reachable accept_ l s'.

Definition reading (r : answers) (s : srv Z) : gset Z := select (selected r) (list_to_set (fds s)).

Lemma select_round_runs accept_ l r s :
  accepting accept_ → table_ok l s → answers_ok r s → (∀ f, f ∈ fds s → selectable f) →
  runs (round accept_ l r) s (λ _ s', table_ok l s' ∧
    (l ∈ reading r s ∧ recvd s' = recvd s ∨ l ∉ reading r s ∧ pass_post l (recv r) (reading r s) s 1 s')).
Proof.
  intros Hacc T Ha Hs. unfold round. apply runs_bind, (mk_fds_runs l); [done|done|]. intros m. fold (reading r s).
  simpl fst. fold (reading r s). case_bool_decide as Hl.
  - eapply runs_mono; [by apply (Hacc l)|]. intros ? s' [T' R']. split; [done|by left].
  - apply runs_bind, runs_gets. pose proof (ok_cnt l s T).
    eapply runs_mono; [apply (select_loop_ok l (recv r) (reading r s) _ 1 s T); lia|].
    intros ? s' Hp. split; [apply Hp|by right].
Qed.

Lemma round_fault accept_ l r s :
  length (sockets s) = Z.to_nat MAX_FD_SOCKET → 0 ≤ cnt_fd_socket s ≤ MAX_FD_SOCKET → (∃ f, f ∈ fds s ∧ ¬ selectable f) →
  round accept_ l r s = Err BadAccess.
Proof. intros Hl Hc Hf. unfold round, mbind, M_bind. by rewrite mk_fds_fault. Qed.

Lemma select_reachable_table accept_ l s : accepting accept_ → reachable accept_ l s → table_ok l s.
Proof.
  intros Hacc. induction 1 as [s Hl E|s r s' _ IH Ha E].
  - eapply (runs_inv _ _ (λ _ s, table_ok l s)); [|exact E]. by apply listen_on_runs.
  - destruct (decide (Forall selectable (fds s))) as [Hs|Hs].
    + rewrite Forall_forall in Hs.
      by destruct (runs_inv _ _ _ _ _ (select_round_runs accept_ l r s Hacc IH Ha Hs) E) as [? _].
    + rewrite (round_fault accept_ l r s) in E; [done|apply IH|destruct (ok_cnt l s IH); lia|].
      apply not_Forall_Exists in Hs; [|apply _]. by apply Exists_exists in Hs.
Qed.

(** ** Theorems *)

(** A round of the servers with [select]: from any state the program can be in,
    when every descriptor in the table fits an [fd_set], the round ends without a
    fault.  Without a new client [recv] is called for ready sockets, once each,
    and those whose connection has ended are closed and removed.  Unlike the server
    with [poll], the loop can miss ready sockets: those that [del_socket] moves, at
    most one for each that it removes; they stay in the table. *)
Theorem select_round_serves accept_ l s r :
  accept_ = accept_one ∨ accept_ = accept_all →
  reachable accept_ l s → answers_ok r s → (∀ f, f ∈ fds s → selectable f) → l ∉ reading r s →
  ∃ s' log skipped, round accept_ l r s = Ok (tt, s') ∧
    let ready := filter (λ f, f ∈ reading r s) (drop 1 (fds s)) in
    let gone := filter (λ f, recv r f = 0) log in
    recvd s' = recvd s ++ ((λ f, (f, recv r f)) <$> log) ∧
    log ++ skipped ≡ₚ ready ∧ (length skipped ≤ length gone)%nat ∧
    (∀ f, f ∈ skipped → f ∈ fds s') ∧
    gone ++ fds s' ≡ₚ fds s ∧ open_ s' = open_ s ∖ list_to_set gone.
Proof.
  intros Hacc H Ha Hs Hl. assert (accepting accept_) as Hok.
  { destruct Hacc as [-> | ->]; [apply accept_one_accepting|apply accept_all_accepting]. }
  pose proof (select_reachable_table _ _ _ Hok H) as T.
  destruct (select_round_runs accept_ l r s Hok T Ha Hs) as ([] & s' & E & T' & [ [? _]|[_ (_ & log & sk & H1 & H2 & H3 & H4 & H5)] ]); [done|].
  exists s', log, sk. do 4 (split; [done|]). split; [|done]. intros f Hf.
  assert (f ∈ log ++ sk) as Hin by (apply elem_of_app; by right).
  assert (f ∈ fds s) as Hfs by (rewrite H2 in Hin; apply list_elem_of_filter in Hin as [_ Hin]; by eapply subseteq_drop).
  rewrite <-H4 in Hfs. apply elem_of_app in Hfs as [Hg|?]; [|done]. exfalso. apply list_elem_of_filter in Hg as [_ Hg].
  assert (NoDup (log ++ sk)) as Hnd 
    by (rewrite H2; pose proof (ok_nodup l s T) as Hn; rewrite <-(take_drop 1 (fds s)) in Hn; apply NoDup_app in Hn as (_ & _ & Hn); by apply NoDup_filter).
  apply NoDup_app in Hnd as (_ & Hd & _). by apply (Hd f).
Qed.

(** In [io_select2] the failure of [accept] is only reported: its result, -1, is
    put into the table like a descriptor, and the next round writes outside of the
    [fd_set], whatever it is. *)
Theorem select2_accept_error l s r r' :
  reachable accept_all l s → (∀ f, f ∈ fds s → selectable f) → cnt_fd_socket s < MAX_FD_SOCKET →
  l ∈ reading r s → accepted r = [-1] →
  ∃ s', round accept_all l r s = Ok (tt, s') ∧ fds s' = fds s ++ [-1] ∧ round accept_all l r' s' = Err BadAccess.
Proof.
  intros H Hs Hc Hl Ea. pose proof (select_reachable_table _ _ _ accept_all_accepting H) as T. pose proof (ok_cnt l s T) as Hcnt.
  assert (runs (round accept_all l r) s (λ _ s', fds s' = fds s ++ [-1] ∧ length (sockets s') = Z.to_nat MAX_FD_SOCKET ∧
    cnt_fd_socket s' = cnt_fd_socket s + 1)) as ([] & s' & E & F & L & C).
  { unfold round. apply runs_bind, (mk_fds_runs l); [done|done|]. intros m. simpl fst. fold (reading r s).
    rewrite bool_decide_true, Ea by done. cbn [accept_all]. apply runs_bind, runs_ret, runs_bind. unfold add_socket.
    apply runs_bind, runs_gets. rewrite (proj2 (Z.ltb_lt _ _)) by done. apply runs_bind, runs_gets.
    destruct (lookup_lt_is_Some_2 (sockets s) (Z.to_nat (cnt_fd_socket s))) as [y Hy]; [rewrite (ok_length l s T); lia|].
    apply runs_bind. eapply runs_lift; [apply rd_at_ok; [lia|exact Hy]|].
    apply runs_bind. eapply runs_lift; [apply wr_at_ok; rewrite (ok_length l s T); lia|].
    apply runs_bind, runs_modify, runs_ret, runs_ret. split; [|split; [|done] ].
    - rewrite !fds_live. unfold live. simpl. replace (Z.to_nat (cnt_fd_socket s + 1)) with (S (Z.to_nat (cnt_fd_socket s))) by lia.
      rewrite (take_S_r _ _ (-1)) by (apply list_lookup_insert_eq; by eapply lookup_lt_Some). by rewrite take_insert_ge.
    - simpl. by rewrite length_insert, (ok_length l s T). }
  exists s'. split; [done|]. split; [done|]. apply round_fault; [done|lia|]. exists (-1). rewrite F. split; [|by intros [? ?]].
  apply elem_of_app. right. by left.
Qed.

(** ** Examples *)

(** A server with the listener 3 and the clients 4 to 7. *)
Definition state1 : srv Z :=
  match (listen_on 3 true true;; accept_all [4; 5; 6; 7]) start with Ok (_, s) => s | Err _ => start end.

Lemma select_state1_reachable : reachable accept_all 3 state1.
Proof.
  eapply (reach_round _ _ _ (Answers (Some (λ f, f =? 3)) [4; 5; 6; 7] (λ _, 1))).
  - apply reach_start; [done|]. vm_compute. reflexivity.
  - split; [by apply (bool_decide_unpack _)|]. intros f Hf.
    repeat (apply elem_of_cons in Hf as [-> |Hf]; [split; [by apply (bool_decide_unpack _)|done]|]). by apply not_elem_of_nil in Hf.
  - vm_compute. reflexivity.
Qed.

Lemma select_round_serves_witness :
  let r := Answers (Some (λ f, 4 <=? f)) [] (λ f, if f =? 4 then 0 else 10) in
  ∃ s' log skipped, round accept_all 3 r state1 = Ok (tt, s') ∧
    let ready := filter (λ f, f ∈ reading r state1) (drop 1 (fds state1)) in
    let gone := filter (λ f, recv r f = 0) log in
    recvd s' = recvd state1 ++ ((λ f, (f, recv r f)) <$> log) ∧
    log ++ skipped ≡ₚ ready ∧ (length skipped ≤ length gone)%nat ∧
    (∀ f, f ∈ skipped → f ∈ fds s') ∧
    gone ++ fds s' ≡ₚ fds state1 ∧ open_ s' = open_ state1 ∖ list_to_set gone.
Proof.
  intros r. apply (select_round_serves accept_all 3 state1 r).
  - by right.
  - apply select_state1_reachable.
  - split; [by apply (bool_decide_unpack _)|]. intros f Hf. by apply not_elem_of_nil in Hf.
  - apply Forall_forall. apply (bool_decide_unpack _). vm_compute. exact I.
  - apply (bool_decide_unpack _). vm_compute. exact I.
Defined.

(** In this round the socket 7 is ready and missed. *)
Lemma select_misses :
  let r := Answers (Some (λ f, 4 <=? f)) [] (λ f, if f =? 4 then 0 else 10) in
  ∃ s', round accept_all 3 r state1 = Ok (tt, s') ∧ recvd s' = [(4, 0); (5, 10); (6, 10)].
Proof. eexists. split; vm_compute; reflexivity. Qed.

Lemma select2_accept_error_witness :
  let r := Answers (Some (λ f, f =? 3)) [-1] (λ _, 1) in
  ∃ s', round accept_all 3 r state1 = Ok (tt, s') ∧ fds s' = fds state1 ++ [-1] ∧ round accept_all 3 r s' = Err BadAccess.
Proof.
  intros r. apply (select2_accept_error 3 state1 r r).
  - apply select_state1_reachable.
  - apply Forall_forall. apply (bool_decide_unpack _). vm_compute. exact I.
  - by vm_compute.
  - apply (bool_decide_unpack _). vm_compute. exact I.
  - reflexivity.
Defined.
