(* ===== verification/Sniff.v ===== *)
(** * The packet sniffers ([decode_sniff.c], [raw_tcpsniff.c], [pcap_sniff.c],
      [hacking.h], [hacking-network.h])

    A captured packet is an array of octets; the headers are read through
    pointers to structures laid over it, here offsets, on a little-endian host.
    Reading outside of the array is a fault.  A function returns the text it
    prints.  What the capture library and the sockets return are parameters. *)

From stdpp Require Import base list strings.
From Stdlib Require Import ZArith Lia.
From S2P Require Import Prelude PatMem PrefixCode Arrays.

Local Open Scope Z_scope.

(** ** Output *)
Definition hex1 (n : Z) : Z := if n <? 10 then 48 + n else 87 + n.
(** [%02x] of an octet, [%u] and [%hu]. *)
Definition fmt_02x (b : Z) : list Z := [hex1 (Z.shiftr b 4); hex1 (Z.land b 15)].
Definition fmt_u (z : Z) : list Z := fmt_d (u32 z).
Definition fmt_hu (z : Z) : list Z := fmt_d (u16 z).
Definition nl : list Z := [10].
Definition tab : list Z := [9].

(** ** [dump] *)
Definition dump_char (byte : Z) : Z := if (31 <? byte) && (byte <? 127) then byte else 46.

(** The inner loops, at the end of a line. *)
Definition dump_pad (i : Z) : list Z := concat (replicate (Z.to_nat (15 - i mod 16)) (cs "   ")).
Definition dump_chars (buffer : arr) (data_buffer i : Z) (out : list Z) : res (list Z) :=
  for_ (Z.to_nat (i mod 16 + 1)) (i - i mod 16) (λ j out,
    byte ← rd buffer (data_buffer + j);
    Ok (out ++ [dump_char byte])) out.
Definition dump_step (buffer : arr) (data_buffer length i : Z) (out : list Z) : res (list Z) :=
  byte ← rd buffer (data_buffer + i);
  let out := out ++ fmt_02x byte ++ cs " " in
  if (i mod 16 =? 15) || (i =? u32 (length - 1)) then
    out ← dump_chars buffer data_buffer i (out ++ dump_pad i ++ cs "| ");
    Ok (out ++ nl)
  else Ok out.
(** [data_buffer] is an offset into [buffer]. *)
Definition dump (buffer : arr) (data_buffer : Z) (length : Z) : res (list Z) :=
  let length := u32 length in
  for_ (Z.to_nat length) 0 (dump_step buffer data_buffer length) [].

(** ** Headers *)
Definition ETHER_ADDR_LEN : nat := 6.
Definition ETHER_HDR_LEN : Z := 14.
Definition sizeof_ip_hdr : Z := 20.

(** Loads of a little-endian host. *)
Definition ld16 (p : arr) (a : Z) : res Z :=
  b0 ← rd p a; b1 ← rd p (a + 1); Ok (Z.lor b0 (Z.shiftl b1 8)).
Definition ld32 (p : arr) (a : Z) : res Z :=
  h0 ← ld16 p a; h1 ← ld16 p (a + 2); Ok (Z.lor h0 (Z.shiftl h1 16)).
Definition ntohs (z : Z) : Z := Z.lor (Z.shiftl (Z.land z 255) 8) (Z.shiftr z 8).
Definition ntohl (z : Z) : Z := Z.lor (Z.shiftl (ntohs (Z.land z 65535)) 16) (ntohs (Z.shiftr z 16)).
(** The octets of an address as they are in memory. *)
Definition inet_ntoa (a : Z) : list Z :=
  fmt_d (Z.land a 255) ++ cs "." ++ fmt_d (Z.land (Z.shiftr a 8) 255) ++ cs "." ++
  fmt_d (Z.land (Z.shiftr a 16) 255) ++ cs "." ++ fmt_d (Z.land (Z.shiftr a 24) 255).

(** [struct ether_hdr]: the offsets of its fields. *)
Definition ether_dest_addr : Z := 0.
Definition ether_src_addr : Z := 6.
Definition ether_type : Z := 12.
(** [struct ip_hdr]. *)
Definition ip_len : Z := 2.
Definition ip_id : Z := 4.
Definition ip_type : Z := 9.
Definition ip_src_addr : Z := 12.
Definition ip_dest_addr : Z := 16.
(** [struct tcp_hdr]. *)
Definition tcp_src_port : Z := 0.
Definition tcp_dest_port : Z := 2.
Definition tcp_seq : Z := 4.
Definition tcp_ack : Z := 8.
Definition tcp_offset : Z := 12.
Definition tcp_flags : Z := 13.

(** An address of six octets. *)
Definition mac_loop (packet : arr) (addr : Z) (out : list Z) : res (list Z) :=
  b ← rd packet addr;
  for_ (ETHER_ADDR_LEN - 1) 1 (λ i out, b ← rd packet (addr + i); Ok (out ++ cs ":" ++ fmt_02x b)) (out ++ fmt_02x b).

Definition decode_ethernet (packet : arr) (header_start : Z) : res (list Z) :=
  out ← mac_loop packet (header_start + ether_src_addr)
    (cs "[[  Layer 2 :: Ethernet Header  ]]" ++ nl ++ cs "[ Source: ");
  out ← mac_loop packet (header_start + ether_dest_addr) (out ++ tab ++ cs "Dest: ");
  type ← ld16 packet (header_start + ether_type);
  Ok (out ++ tab ++ cs "Type: " ++ fmt_hu type ++ cs " ]" ++ nl).

Definition decode_ip (packet : arr) (header_start : Z) : res (list Z) :=
  src ← ld32 packet (header_start + ip_src_addr);
  dest ← ld32 packet (header_start + ip_dest_addr);
  type ← rd packet (header_start + ip_type);
  id ← ld16 packet (header_start + ip_id);
  len ← ld16 packet (header_start + ip_len);
  Ok (tab ++ cs "((  Layer 3 ::: IP Header  ))" ++ nl ++
      tab ++ cs "( Source: " ++ inet_ntoa src ++ tab ++ cs "Dest: " ++ inet_ntoa dest ++ cs " )" ++ nl ++
      tab ++ cs "( Type: " ++ fmt_u type ++ tab ++ cs "ID: " ++ fmt_hu (ntohs id) ++
      tab ++ cs "Length: " ++ fmt_hu (ntohs len) ++ cs " )" ++ nl).

Definition TCP_FIN : Z := 1.
Definition TCP_SYN : Z := 2.
Definition TCP_RST : Z := 4.
Definition TCP_PUSH : Z := 8.
Definition TCP_ACK : Z := 16.
Definition TCP_URG : Z := 32.
Definition print_flag (flags bit : Z) (name : list Z) : list Z := if Z.land flags bit =? 0 then [] else name.
Definition print_flags (flags : Z) : list Z :=
  print_flag flags TCP_FIN (cs "FIN ") ++ print_flag flags TCP_SYN (cs "SYN ") ++
  print_flag flags TCP_RST (cs "RST ") ++ print_flag flags TCP_PUSH (cs "PUSH ") ++
  print_flag flags TCP_ACK (cs "ACK ") ++ print_flag flags TCP_URG (cs "URG ").

(** The text and the size of the header; [tcp_offset] is a bit field, the high
    half of its octet. *)
Definition decode_tcp (packet : arr) (header_start : Z) : res (list Z * Z) :=
  o ← rd packet (header_start + tcp_offset);
  let header_size := 4 * Z.shiftr o 4 in
  src ← ld16 packet (header_start + tcp_src_port);
  dest ← ld16 packet (header_start + tcp_dest_port);
  seq ← ld32 packet (header_start + tcp_seq);
  ack ← ld32 packet (header_start + tcp_ack);
  flags ← rd packet (header_start + tcp_flags);
  Ok (tab ++ tab ++ cs "{{  Layer 4 :::: TCP Header  }}" ++ nl ++
      tab ++ tab ++ cs "{ Src Port: " ++ fmt_hu (ntohs src) ++ tab ++ cs "Dest Port: " ++ fmt_hu (ntohs dest) ++ cs " }" ++ nl ++
      tab ++ tab ++ cs "{ Seq #: " ++ fmt_u (ntohl seq) ++ tab ++ cs "Ack #: " ++ fmt_u (ntohl ack) ++ cs " }" ++ nl ++
      tab ++ tab ++ cs "{ Header Size: " ++ fmt_u header_size ++ tab ++ cs "Flags: " ++ print_flags flags ++ cs " }" ++ nl,
      header_size).

(** [len] is [cap_header->len], the length of the packet on the wire, of which
    the array [packet] holds what was captured. *)
Definition caught_packet (len : Z) (packet : arr) : res (list Z) :=
  t2 ← decode_ethernet packet 0;
  t3 ← decode_ip packet ETHER_HDR_LEN;
  '(t4, tcp_header_length) ← decode_tcp packet (ETHER_HDR_LEN + sizeof_ip_hdr);
  let total_header_size := ETHER_HDR_LEN + sizeof_ip_hdr + tcp_header_length in
  let pkt_data_len := i32 (u32 (len - total_header_size)) in
  t5 ← (if 0 <? pkt_data_len then
          t ← dump packet total_header_size pkt_data_len;
          Ok (tab ++ tab ++ tab ++ fmt_u pkt_data_len ++ cs " bytes of packet data" ++ nl ++ t)
        else Ok (tab ++ tab ++ tab ++ cs "No Packet Data" ++ nl));
  Ok (cs "==== Got a " ++ fmt_d (i32 len) ++ cs " byte packet ====" ++ nl ++ t2 ++ t3 ++ t4 ++ t5).

(** ** The programs *)

(** The device that [pcap_lookupdev] finds, and whether it can be opened. *)
Definition pcap_start (device : option (list Z)) (opened : bool) : res (list Z) :=
  match device with
  | None => Err (Exited 1)
  | Some device =>
      if opened then Ok (cs "Sniffing on device " ++ device ++ nl) else Err (Exited 1)
  end.

(** [pcap_loop] calls [caught_packet] for at most three packets. *)
Fixpoint pcap_loop (packets : list (Z * arr)) : res (list Z) :=
  match packets with
  | [] => Ok []
  | (len, packet) :: packets =>
      t ← caught_packet len packet;
      t' ← pcap_loop packets;
      Ok (t ++ t')
  end.
Definition decode_sniff_main (device : option (list Z)) (opened : bool) (packets : list (Z * arr)) : res (list Z) :=
  t ← pcap_start device opened;
  t' ← pcap_loop (take 3 packets);
  Ok (t ++ t').

(** [pcap_sniff.c]; without a packet [header] stays unset. *)
Fixpoint next_loop (packets : list (option (Z * arr))) : res (list Z) :=
  match packets with
  | [] => Ok []
  | None :: _ => Err BadAccess
  | Some (len, packet) :: packets =>
      t ← dump packet 0 len;
      t' ← next_loop packets;
      Ok (cs "Got a " ++ fmt_d (i32 len) ++ cs " byte packet" ++ nl ++ t ++ t')
  end.
Definition pcap_sniff_main (device : option (list Z)) (opened : bool) (packets : nat → option (Z * arr)) : res (list Z) :=
  t ← pcap_start device opened;
  t' ← next_loop (packets <$> seq 0 3);
  Ok (t ++ t').

(** [raw_tcpsniff.c]: what [recv] stores, [None] where it fails. *)
Definition raw_step (recv : Z → option (list Z)) (i : Z) (s : arr * list Z) : res (arr * list Z) :=
  let '(buffer, out) := s in
  let data := from_option (take (Z.to_nat 8000)) [] (recv i) in
  let recv_length := match recv i with Some _ => Z.of_nat (length data) | None => -1 end in
  let buffer := ints data ++ drop (length data) buffer in
  t ← dump buffer 0 recv_length;
  Ok (buffer, out ++ cs "Got a " ++ fmt_d recv_length ++ cs " byte packet" ++ nl ++ t).
Definition raw_tcpsniff_main (sock_ok : bool) (recv : Z → option (list Z)) : res (list Z) :=
  if sock_ok then
    s ← for_ 3 0 (raw_step recv) (unset (Z.to_nat 9000), []);
    Ok s.2
  else Err (Exited (-1)).
