(* ===== verification/SniffProofs.v ===== *)
(** * The packet sniffers: correctness

    [dump] prints the octets in rows of sixteen ([dump_text]), from which they
    can be read back; [caught_packet] decodes the frames of Ethernet, IP without
    options and TCP, and reads out of bounds exactly when the captured octets are
    too short. *)

From stdpp Require Import base list strings.
From Stdlib Require Import ZArith Lia.
From S2P Require Import Prelude PatMem PrefixCode Arrays Sniff.

Local Open Scope Z_scope.

(** ** [dump] *)

(** A row of at most sixteen octets. *)
Definition dump_cell (b : Z) : list Z := fmt_02x b ++ cs " ".
Definition dump_line (c : list Z) : list Z :=
  (c ≫= dump_cell) ++ concat (replicate (16 - length c) (cs "   ")) ++ cs "| " ++ (dump_char <$> c) ++ nl.
Fixpoint rows (n : nat) (d : list Z) : list (list Z) :=
  match n, d with S n, _ :: _ => take 16 d :: rows n (drop 16 d) | _, _ => [] end.
Definition dump_text (d : list Z) : list Z := rows (length d) d ≫= dump_line.

(** The octets [d] are at offset [off]. *)
Definition octets_at (buffer : arr) (off : Z) (d : list Z) : Prop :=
  ∀ i x, d !! i = Some x → rd buffer (off + Z.of_nat i) = Ok x.

Lemma octets_drop buffer off d n : octets_at buffer off d → octets_at buffer (off + Z.of_nat n) (drop n d).
Proof.
  intros Hd i x Hx. rewrite lookup_drop in Hx. rewrite <-(Hd _ _ Hx). f_equal. lia.
Qed.
Lemma octets_take buffer off d n : octets_at buffer off d → octets_at buffer off (take n d).
Proof. intros Hd i x [Hx _]%lookup_take_Some. by apply Hd. Qed.

Lemma bind_singleton {A B} (f : A → B) (l : list A) : l ≫= (λ x, [f x]) = f <$> l.
Proof. induction l as [|x l IH]; [done|]. rewrite bind_cons, IH. done. Qed.

Lemma dump_chars_ok buffer off p c out : octets_at buffer (off + p) c →
  0 ≤ p → p mod 16 = 0 → (0 < length c ≤ 16)%nat →
  dump_chars buffer off (p + Z.of_nat (length c) - 1) out = Ok (out ++ (dump_char <$> c)).
Proof.
  intros Hc Hp0 Hp Hl. unfold dump_chars.
  assert ((p + Z.of_nat (length c) - 1) mod 16 = Z.of_nat (length c) - 1) as Em.
  { rewrite (Z.div_mod p 16), Hp by lia. rewrite Z.add_0_r.
    replace (16 * (p / 16) + Z.of_nat (length c) - 1) with (Z.of_nat (length c) - 1 + (p / 16) * 16) by lia.
    rewrite Z.mod_add by lia. apply Z.mod_small. lia. }
  rewrite Em. replace (Z.to_nat _) with (length c) by lia. rewrite <-bind_singleton. apply for_emit.
  intros j x o Hx. replace (off + _) with (off + p + Z.of_nat j) by lia. by rewrite (Hc _ _ Hx).
Qed.

(** One row. *)
Lemma dump_row buffer off len p c out :
  octets_at buffer (off + p) c → 0 ≤ p → p mod 16 = 0 → (0 < length c ≤ 16)%nat →
  p + Z.of_nat (length c) ≤ len < 2 ^ 32 → (length c = 16%nat ∨ p + Z.of_nat (length c) = len) →
  for_ (length c) p (dump_step buffer off len) out = Ok (out ++ dump_line c).
Proof.
  intros Hc Hp0 Hp Hl Hlen Hend. set (n := (length c - 1)%nat).
  assert (∀ j, (j < 16)%nat → (p + Z.of_nat j) mod 16 = Z.of_nat j) as Hm.
  { intros j Hj. rewrite (Z.div_mod p 16), Hp by lia. rewrite Z.add_0_r, Z.add_comm, Z.mul_comm, Z.mod_add by lia.
    apply Z.mod_small. lia. }
  assert (u32 (len - 1) = len - 1) as Hu by (apply u32_small; lia).
  replace (length c) with (n + 1)%nat by lia. rewrite for_add.
  rewrite <-(length_take_le c n) at 1 by lia.
  rewrite (for_emit (take n c) dump_cell).
  2:{ intros j x o Hx. apply lookup_take_Some in Hx as [Hx Hj]. unfold dump_step.
      replace (off + _) with (off + p + Z.of_nat j) by lia. rewrite (Hc _ _ Hx). cbn [mbind res_bind].
      rewrite Hu, Hm by lia.
      destruct (Z.eqb_spec (Z.of_nat j) 15), (Z.eqb_spec (p + Z.of_nat j) (len - 1)); try lia. done. }
  cbn [mbind res_bind for_]. destruct (c !! n) as [x|] eqn:Ex; [|apply lookup_ge_None in Ex; lia].
  assert (take n c ++ [x] = c) as Et by (rewrite <-take_S_r by done; apply take_ge; lia).
  unfold dump_step. replace (off + (p + Z.of_nat n)) with (off + p + Z.of_nat n) by lia.
  rewrite (Hc _ _ Ex). cbn [mbind res_bind]. rewrite Hu, Hm by lia.
  replace ((Z.of_nat n =? 15) || (p + Z.of_nat n =? len - 1)) with true
    by (symmetry; apply orb_true_iff; rewrite !Z.eqb_eq; lia).
  replace (p + Z.of_nat n) with (p + Z.of_nat (length c) - 1) by lia.
  rewrite (dump_chars_ok buffer off p c) by done. cbn [mbind res_bind]. f_equal.
  assert (c ≫= dump_cell = (take n c ≫= dump_cell) ++ fmt_02x x ++ cs " ") as Eb.
  { rewrite <-Et at 1. rewrite bind_app, bind_cons. cbn [mbind list_bind]. by rewrite app_nil_r. }
  unfold dump_line. rewrite Eb.
  unfold dump_pad. replace (p + Z.of_nat (length c) - 1) with (p + Z.of_nat n) by lia. rewrite Hm by lia.
  replace (Z.to_nat (15 - Z.of_nat n)) with (16 - length c)%nat by lia.
  by rewrite <-!(assoc_L (++)).
Qed.

Lemma dump_rows n buffer off len p d out :
  octets_at buffer (off + p) d → 0 ≤ p → p mod 16 = 0 → (length d ≤ n)%nat →
  p + Z.of_nat (length d) = len → len < 2 ^ 32 →
  for_ (length d) p (dump_step buffer off len) out = Ok (out ++ (rows n d ≫= dump_line)).
Proof.
  revert p d out. induction n as [|n IH]; intros p d out Hd Hp0 Hp Hn Hlen Hmax.
  { destruct d; simpl in Hn; [|lia]. simpl. by rewrite app_nil_r. }
  destruct d as [|x d']; [simpl; by rewrite app_nil_r|]. cbn [rows]. set (d := x :: d') in *.
  assert (0 < length d)%nat by (unfold d; simpl; lia).
  assert (length d = length (take 16 d) + length (drop 16 d))%nat as El
    by (rewrite length_take, length_drop; lia).
  rewrite El, for_add, (dump_row buffer off len p (take 16 d)); [|by apply octets_take|done|done|..].
  2-4: rewrite length_take; lia.
  cbn [mbind res_bind]. rewrite bind_cons, (assoc_L (++)).
  destruct (decide (length d ≤ 16)%nat).
  - rewrite drop_ge by lia. simpl. destruct n; simpl; by rewrite app_nil_r.
  - assert (length (take 16 d) = 16)%nat as -> by (rewrite length_take; lia).
    apply IH; [|lia| |rewrite length_drop; lia|rewrite length_drop; lia|done].
    + rewrite Z.add_assoc. by apply octets_drop.
    + rewrite Zplus_mod, Hp. done.
Qed.

Theorem dump_ok buffer off d :
  octets_at buffer off d → Z.of_nat (length d) < 2 ^ 32 →
  dump buffer off (Z.of_nat (length d)) = Ok (dump_text d).
Proof.
  intros Hd Hl. unfold dump. rewrite u32_small by lia. cbv zeta. rewrite Nat2Z.id.
  apply (dump_rows (length d)); [by rewrite Z.add_0_r|done|done|done|lia|done].
Qed.

(** *** Reading the octets back *)
Definition unhex1 (c : Z) : Z := if c <? 58 then c - 48 else c - 87.
Fixpoint uncells (t : list Z) : list Z :=
  match t with
  | a :: b :: _ :: t => if a =? 32 then [] else 16 * unhex1 a + unhex1 b :: uncells t
  | _ => []
  end.
(** A row is 48 characters of octets, a bar, the characters and a line end. *)
Fixpoint undump (n : nat) (t : list Z) : list Z :=
  match n, t with
  | S n, _ :: _ => let c := uncells (take 48 t) in c ++ undump n (drop (51 + length c) t)
  | _, _ => []
  end.

Lemma hex_back b : is_byte b → 16 * unhex1 (hex1 (Z.shiftr b 4)) + unhex1 (hex1 (Z.land b 15)) = b ∧
  hex1 (Z.shiftr b 4) ≠ 32.
Proof.
  intros Hb. rewrite Z.shiftr_div_pow2 by lia. change 15 with (Z.ones 4). rewrite Z.land_ones by lia.
  change (2 ^ 4) with 16. unfold is_byte in Hb.
  assert (∀ x, 0 ≤ x < 16 → unhex1 (hex1 x) = x ∧ hex1 x ≠ 32) as Hx.
  { intros x Hx. unfold unhex1, hex1. destruct (Z.ltb_spec x 10).
    - destruct (Z.ltb_spec (48 + x) 58); lia.
    - destruct (Z.ltb_spec (87 + x) 58); lia. }
  pose proof (Z.div_mod b 16). destruct (Hx (b / 16)) as [-> ?].
  { split; [apply Z.div_pos; lia|apply Z.div_lt_upper_bound; lia]. }
  destruct (Hx (b mod 16)) as [-> _]; [apply Z.mod_pos_bound; lia|]. split; [lia|done].
Qed.
Lemma uncells_ok c n : Forall is_byte c → uncells ((c ≫= dump_cell) ++ concat (replicate n (cs "   "))) = c.
Proof.
  induction 1 as [|b c Hb _ IH]; [by destruct n|]. rewrite bind_cons. unfold dump_cell at 1, fmt_02x.
  destruct (hex_back b Hb) as [Eb Hn]. cbn [app cs]. change (cs " ") with [32]. cbn [app uncells].
  rewrite (proj2 (Z.eqb_neq _ _) Hn), Eb. by rewrite IH.
Qed.
Lemma length_cells c : length (c ≫= dump_cell) = (3 * length c)%nat.
Proof. induction c as [|b c IH]; [done|]. rewrite bind_cons, length_app, IH. simpl. lia. Qed.
Lemma length_pad n : length (concat (replicate n (cs "   "))) = (3 * n)%nat.
Proof. induction n as [|n IH]; [done|]. cbn [replicate concat]. rewrite length_app, IH. simpl. lia. Qed.

Lemma undump_row n c t : Forall is_byte c → (0 < length c ≤ 16)%nat →
  undump (S n) (dump_line c ++ t) = c ++ undump n t.
Proof.
  intros Hc Hl. unfold dump_line.
  set (h := (c ≫= dump_cell) ++ concat (replicate (16 - length c) (cs "   "))).
  assert (length h = 48%nat) as Eh by (unfold h; rewrite length_app, length_cells, length_pad; lia).
  rewrite (assoc_L (++)). fold h. rewrite <-!(assoc_L (++)).
  destruct (h ++ _) as [|x xs] eqn:Ex; [destruct h; [done|discriminate]|]. cbn [undump]. rewrite <-Ex.
  rewrite take_app_length' by done. unfold h at 1 2. rewrite uncells_ok by done. f_equal. f_equal.
  rewrite (assoc_L (++) (dump_char <$> c)). rewrite !(assoc_L (++)).
  apply drop_app_length'. rewrite !length_app, length_fmap, Eh. simpl. lia.
Qed.

(** What [dump] prints determines the octets: they can be read back. *)
Lemma undump_text d n m : Forall is_byte d → (length d ≤ n)%nat → (n ≤ m)%nat →
  undump m (rows n d ≫= dump_line) = d.
Proof.
  revert d m. induction n as [|n IH]; intros d m Hd Hn Hm.
  { destruct d; simpl in Hn; [|lia]. by destruct m. }
  destruct d as [|x d']; [by destruct m|]. cbn [rows]. set (d := x :: d') in *. destruct m as [|m]; [lia|].
  assert (0 < length d)%nat by (unfold d; simpl; lia).
  rewrite bind_cons, undump_row; [|by apply Forall_take|rewrite length_take; lia].
  rewrite IH; [by rewrite take_drop|by apply Forall_drop|rewrite length_drop; lia|lia].
Qed.

(** ** Frames

    A TCP segment in an IP packet without options in an Ethernet frame, as the
    protocols lay it out: integers in network order. *)
Definition be16 (z : Z) : list Z := [Z.shiftr z 8; Z.land z 255].
Definition be32 (z : Z) : list Z := be16 (Z.shiftr z 16) ++ be16 (Z.land z 65535).

Record frame := Frame {
  f_dest : list Z; f_src : list Z; f_type : Z;
  f_vhl : Z; f_tos : Z; f_len : Z; f_id : Z; f_frag : Z; f_ttl : Z; f_proto : Z; f_ipsum : Z;
  f_ip_src : list Z; f_ip_dest : list Z;
  f_sport : Z; f_dport : Z; f_seq : Z; f_ack : Z; f_reserved : Z; f_flags : Z; f_window : Z; f_tcpsum : Z; f_urgent : Z;
  f_options : list Z; f_payload : list Z
}.

(** The length of the TCP header in words. *)
Definition data_offset (f : frame) : Z := 5 + Z.of_nat (length (f_options f)) / 4.
Definition frame_octets (f : frame) : list Z :=
  f_dest f ++ f_src f ++ be16 (f_type f) ++
  [f_vhl f; f_tos f] ++ be16 (f_len f) ++ be16 (f_id f) ++ be16 (f_frag f) ++ [f_ttl f; f_proto f] ++
  be16 (f_ipsum f) ++ f_ip_src f ++ f_ip_dest f ++
  be16 (f_sport f) ++ be16 (f_dport f) ++ be32 (f_seq f) ++ be32 (f_ack f) ++
  [16 * data_offset f + f_reserved f; f_flags f] ++ be16 (f_window f) ++ be16 (f_tcpsum f) ++ be16 (f_urgent f) ++
  f_options f ++ f_payload f.

Definition is_u16 (z : Z) : Prop := 0 ≤ z < 2 ^ 16.
Definition is_u32 (z : Z) : Prop := 0 ≤ z < 2 ^ 32.
Record frame_ok (f : frame) : Prop := {
  fo_dest : length (f_dest f) = 6%nat;
  fo_src : length (f_src f) = 6%nat;
  fo_ip_src : length (f_ip_src f) = 4%nat;
  fo_ip_dest : length (f_ip_dest f) = 4%nat;
  fo_options : ∃ k, length (f_options f) = (4 * k)%nat ∧ (k ≤ 10)%nat;
  fo_bytes : Forall is_byte (f_proto f :: f_ip_src f ++ f_ip_dest f);
  fo_u16 : Forall is_u16 [f_type f; f_len f; f_id f; f_sport f; f_dport f];
  fo_u32 : is_u32 (f_seq f) ∧ is_u32 (f_ack f);
  fo_reserved : 0 ≤ f_reserved f < 16;
  fo_payload : Z.of_nat (length (f_payload f)) ≤ 65535
}.

(** What is printed of it. *)
Definition mac_text (l : list Z) : list Z :=
  match l with [] => [] | b :: l => fmt_02x b ++ (l ≫= λ b, cs ":" ++ fmt_02x b) end.
Definition ip_text (l : list Z) : list Z :=
  match l with [] => [] | b :: l => fmt_d b ++ (l ≫= λ b, cs "." ++ fmt_d b) end.
Definition flag_names : list (Z * list Z) :=
  [(0, cs "FIN "); (1, cs "SYN "); (2, cs "RST "); (3, cs "PUSH "); (4, cs "ACK "); (5, cs "URG ")].
Definition flags_text (flags : Z) : list Z :=
  flag_names ≫= λ x, if Z.testbit flags x.1 then x.2 else [].

Definition frame_text (f : frame) : list Z :=
  cs "==== Got a " ++ fmt_d (Z.of_nat (length (frame_octets f))) ++ cs " byte packet ====" ++ nl ++
  cs "[[  Layer 2 :: Ethernet Header  ]]" ++ nl ++
  cs "[ Source: " ++ mac_text (f_src f) ++ tab ++ cs "Dest: " ++ mac_text (f_dest f) ++
    tab ++ cs "Type: " ++ fmt_d (256 * (f_type f mod 256) + f_type f / 256) ++ cs " ]" ++ nl ++
  tab ++ cs "((  Layer 3 ::: IP Header  ))" ++ nl ++
  tab ++ cs "( Source: " ++ ip_text (f_ip_src f) ++ tab ++ cs "Dest: " ++ ip_text (f_ip_dest f) ++ cs " )" ++ nl ++
  tab ++ cs "( Type: " ++ fmt_d (f_proto f) ++ tab ++ cs "ID: " ++ fmt_d (f_id f) ++
    tab ++ cs "Length: " ++ fmt_d (f_len f) ++ cs " )" ++ nl ++
  tab ++ tab ++ cs "{{  Layer 4 :::: TCP Header  }}" ++ nl ++
  tab ++ tab ++ cs "{ Src Port: " ++ fmt_d (f_sport f) ++ tab ++ cs "Dest Port: " ++ fmt_d (f_dport f) ++ cs " }" ++ nl ++
  tab ++ tab ++ cs "{ Seq #: " ++ fmt_d (f_seq f) ++ tab ++ cs "Ack #: " ++ fmt_d (f_ack f) ++ cs " }" ++ nl ++
  tab ++ tab ++ cs "{ Header Size: " ++ fmt_d (4 * data_offset f) ++ tab ++ cs "Flags: " ++ flags_text (f_flags f) ++ cs " }" ++ nl ++
  match f_payload f with
  | [] => tab ++ tab ++ tab ++ cs "No Packet Data" ++ nl
  | d => tab ++ tab ++ tab ++ fmt_d (Z.of_nat (length d)) ++ cs " bytes of packet data" ++ nl ++ dump_text d
  end.

(** *** Byte order *)
Lemma lor_shl a b n : 0 ≤ n → 0 ≤ a < 2 ^ n → Z.lor a (Z.shiftl b n) = a + b * 2 ^ n.
Proof.
  intros Hn Ha. assert (Z.land a (Z.shiftl b n) = 0) as H0.
  { apply Z.bits_inj'. intros i Hi. rewrite Z.land_spec, Z.bits_0, Z.shiftl_spec by done.
    destruct (decide (i < n)); [by rewrite (Z.testbit_neg_r b), andb_false_r by lia|].
    destruct (decide (a = 0)) as [->|]; [by rewrite Z.bits_0|].
    rewrite (Z.bits_above_log2 a i), andb_false_l; [done|lia|].
    apply Z.lt_le_trans with n; [apply Z.log2_lt_pow2; lia|lia]. }
  by rewrite <-Z.lxor_lor, <-Z.add_nocarry_lxor, Z.shiftl_mul_pow2.
Qed.
Lemma land_255 a : Z.land a 255 = a mod 256.
Proof. change 255 with (Z.ones 8). by rewrite Z.land_ones. Qed.
Lemma land_65535 a : Z.land a 65535 = a mod 65536.
Proof. change 65535 with (Z.ones 16). by rewrite Z.land_ones. Qed.

Definition le16 (h l : Z) : Z := Z.lor h (Z.shiftl l 8).
Lemma le16_eq h l : is_byte h → le16 h l = h + 256 * l.
Proof. unfold is_byte, le16. intros. rewrite lor_shl by lia. lia. Qed.
Lemma ntohs_le16 h l : is_byte h → is_byte l → ntohs (le16 h l) = 256 * h + l.
Proof.
  intros Hh Hl. unfold ntohs. rewrite le16_eq, land_255, Z.shiftr_div_pow2, Z.lor_comm by done. change (2 ^ 8) with 256.
  unfold is_byte in *. replace ((h + 256 * l) / 256) with l by (rewrite Z.mul_comm, Z.div_add, Z.div_small; lia).
  replace ((h + 256 * l) mod 256) with h by (rewrite Z.mul_comm, Z.mod_add, Z.mod_small; lia).
  rewrite lor_shl by lia. lia.
Qed.
Lemma be16_bytes z : is_u16 z → is_byte (Z.shiftr z 8) ∧ is_byte (Z.land z 255) ∧ 256 * Z.shiftr z 8 + Z.land z 255 = z.
Proof.
  unfold is_u16, is_byte. intros Hz. rewrite land_255, Z.shiftr_div_pow2 by lia. change (2 ^ 8) with 256.
  pose proof (Z.div_mod z 256). pose proof (Z.mod_pos_bound z 256).
  split_and!; [apply Z.div_pos; lia|apply Z.div_lt_upper_bound; lia|lia|lia|lia].
Qed.
Lemma ntohs_be16 z : is_u16 z → ntohs (le16 (Z.shiftr z 8) (Z.land z 255)) = z.
Proof. intros Hz. destruct (be16_bytes z Hz) as (? & ? & E). by rewrite ntohs_le16. Qed.
Lemma le16_be16 z : is_u16 z → le16 (Z.shiftr z 8) (Z.land z 255) = 256 * (z mod 256) + z / 256.
Proof.
  intros Hz. destruct (be16_bytes z Hz) as (? & ? & E). rewrite le16_eq by done.
  rewrite land_255, Z.shiftr_div_pow2 by lia. change (2 ^ 8) with 256. lia.
Qed.
Lemma le16_u16 h l : is_byte h → is_byte l → is_u16 (le16 h l).
Proof. intros Hh Hl. rewrite le16_eq by done. unfold is_byte, is_u16 in *. lia. Qed.

Definition le32 (a b c d : Z) : Z := Z.lor (le16 a b) (Z.shiftl (le16 c d) 16).
Lemma le32_halves a b c d : is_byte a → is_byte b → is_byte c → is_byte d →
  Z.land (le32 a b c d) 65535 = le16 a b ∧ Z.shiftr (le32 a b c d) 16 = le16 c d.
Proof.
  intros Ha Hb Hc Hd. pose proof (le16_u16 a b Ha Hb) as Hl. pose proof (le16_u16 c d Hc Hd) as Hh.
  unfold le32, is_u16 in *. rewrite lor_shl, land_65535, Z.shiftr_div_pow2 by lia. change (2 ^ 16) with 65536 in *.
  rewrite Z.mod_add, Z.mod_small, Z.div_add, Z.div_small by lia. done.
Qed.
Lemma ntohl_be32 z : is_u32 z →
  let h := Z.shiftr z 16 in let l := Z.land z 65535 in
  ntohl (le32 (Z.shiftr h 8) (Z.land h 255) (Z.shiftr l 8) (Z.land l 255)) = z.
Proof.
  intros Hz h l. assert (is_u16 h ∧ is_u16 l ∧ 65536 * h + l = z) as (Hh & Hl & E).
  { unfold h, l, is_u16, is_u32 in *. rewrite land_65535, Z.shiftr_div_pow2 by lia. change (2 ^ 16) with 65536.
    pose proof (Z.div_mod z 65536). pose proof (Z.mod_pos_bound z 65536).
    split_and!; [apply Z.div_pos; lia|apply Z.div_lt_upper_bound; lia|lia|lia|lia]. }
  destruct (be16_bytes h Hh) as (? & ? & _), (be16_bytes l Hl) as (? & ? & _).
  unfold ntohl. destruct (le32_halves (Z.shiftr h 8) (Z.land h 255) (Z.shiftr l 8) (Z.land l 255)) as [-> ->]; [done..|].
  rewrite !ntohs_be16 by done. unfold is_u16 in *. rewrite Z.lor_comm, lor_shl by lia. lia.
Qed.
Lemma inet_ntoa_text a b c d : is_byte a → is_byte b → is_byte c → is_byte d →
  inet_ntoa (le32 a b c d) = ip_text [a; b; c; d].
Proof.
  intros Ha Hb Hc Hd. unfold inet_ntoa. destruct (le32_halves a b c d) as [El Eh]; [done..|].
  assert (∀ x y, is_byte x → is_byte y → Z.land (le16 x y) 255 = x ∧ Z.land (Z.shiftr (le16 x y) 8) 255 = y) as H16.
  { intros x y Hx Hy. rewrite le16_eq, !land_255, Z.shiftr_div_pow2 by done. change (2 ^ 8) with 256.
    unfold is_byte in *. rewrite Z.mul_comm, Z.mod_add, Z.div_add, Z.div_small, !Z.mod_small by lia. done. }
  replace (Z.land (le32 a b c d) 255) with (Z.land (Z.land (le32 a b c d) 65535) 255)
    by (by rewrite <-Z.land_assoc).
  replace (Z.land (Z.shiftr (le32 a b c d) 8) 255) with (Z.land (Z.shiftr (Z.land (le32 a b c d) 65535) 8) 255)
    by (by rewrite Z.shiftr_land, <-Z.land_assoc).
  replace (Z.shiftr (le32 a b c d) 24) with (Z.shiftr (Z.shiftr (le32 a b c d) 16) 8) by (by rewrite Z.shiftr_shiftr).
  rewrite El, Eh. destruct (H16 a b Ha Hb) as [-> ->], (H16 c d Hc Hd) as [-> ->].
  unfold ip_text. simpl. rewrite ?app_nil_r. by rewrite <-?(assoc_L (++)).
Qed.

(** ** Decoding the headers *)

(** Integers in the octets of a packet. *)
Definition w16 (d : list Z) (k : nat) : Z := le16 (d !!! k) (d !!! (k + 1)%nat).
Definition w32 (d : list Z) (k : nat) : Z := le32 (d !!! k) (d !!! (k + 1)%nat) (d !!! (k + 2)%nat) (d !!! (k + 3)%nat).

Lemma rd_nat d k : (k < length d)%nat → rd (ints d) (Z.of_nat k) = Ok (d !!! k).
Proof. intros Hk. rewrite rd_total by lia. by rewrite Nat2Z.id. Qed.
Lemma ld16_ok d k : (k + 1 < length d)%nat → ld16 (ints d) (Z.of_nat k) = Ok (w16 d k).
Proof.
  intros Hk. unfold ld16. rewrite rd_nat by lia. cbn [mbind res_bind].
  replace (Z.of_nat k + 1) with (Z.of_nat (k + 1)) by lia. by rewrite rd_nat by lia.
Qed.
Lemma ld32_ok d k : (k + 3 < length d)%nat → ld32 (ints d) (Z.of_nat k) = Ok (w32 d k).
Proof.
  intros Hk. unfold ld32. rewrite ld16_ok by lia. cbn [mbind res_bind].
  replace (Z.of_nat k + 2) with (Z.of_nat (k + 2)) by lia. rewrite ld16_ok by lia. cbn [mbind res_bind].
  unfold w16, w32, le32. by replace (k + 2 + 1)%nat with (k + 3)%nat by lia.
Qed.

Lemma mac_loop_ok d k out : (k + 6 ≤ length d)%nat →
  mac_loop (ints d) (Z.of_nat k) out = Ok (out ++ mac_text (take 6 (drop k d))).
Proof.
  intros Hk. destruct (drop k d) as [|b l] eqn:Ed.
  { apply (f_equal length) in Ed. rewrite length_drop in Ed. simpl in Ed. lia. }
  assert (∀ j x, (b :: l) !! j = Some x → rd (ints d) (Z.of_nat (k + j)) = Ok x) as Hr.
  { intros j x Hx. rewrite <-Ed, lookup_drop in Hx. apply rd_ints; [lia|]. by rewrite Nat2Z.id. }
  assert (5 ≤ length l)%nat as Hl by (apply (f_equal length) in Ed; rewrite length_drop in Ed; simpl in Ed; lia).
  unfold mac_loop. pose proof (Hr 0%nat b eq_refl) as Hb. rewrite Nat.add_0_r in Hb. rewrite Hb. cbn [mbind res_bind].
  replace (ETHER_ADDR_LEN - 1)%nat with (length (take 5 l)) by (rewrite length_take; unfold ETHER_ADDR_LEN; lia).
  rewrite (for_emit (take 5 l) (λ x, cs ":" ++ fmt_02x x)).
  - by rewrite <-(assoc_L (++)).
  - intros j x o Hx. apply lookup_take_Some in Hx as [Hx _].
    replace (Z.of_nat k + (1 + Z.of_nat j)) with (Z.of_nat (k + S j)) by lia. by rewrite (Hr (S j) x Hx).
Qed.

Definition eth_text (d : list Z) : list Z :=
  cs "[[  Layer 2 :: Ethernet Header  ]]" ++ nl ++ cs "[ Source: " ++ mac_text (take 6 (drop 6 d)) ++
  tab ++ cs "Dest: " ++ mac_text (take 6 d) ++ tab ++ cs "Type: " ++ fmt_hu (w16 d 12) ++ cs " ]" ++ nl.
Definition ip_header_text (d : list Z) : list Z :=
  tab ++ cs "((  Layer 3 ::: IP Header  ))" ++ nl ++
  tab ++ cs "( Source: " ++ inet_ntoa (w32 d 26) ++ tab ++ cs "Dest: " ++ inet_ntoa (w32 d 30) ++ cs " )" ++ nl ++
  tab ++ cs "( Type: " ++ fmt_u (d !!! 23%nat) ++ tab ++ cs "ID: " ++ fmt_hu (ntohs (w16 d 18)) ++
  tab ++ cs "Length: " ++ fmt_hu (ntohs (w16 d 16)) ++ cs " )" ++ nl.
Definition tcp_size (d : list Z) : Z := 4 * Z.shiftr (d !!! 46%nat) 4.
Definition tcp_header_text (d : list Z) : list Z :=
  tab ++ tab ++ cs "{{  Layer 4 :::: TCP Header  }}" ++ nl ++
  tab ++ tab ++ cs "{ Src Port: " ++ fmt_hu (ntohs (w16 d 34)) ++ tab ++ cs "Dest Port: " ++ fmt_hu (ntohs (w16 d 36)) ++ cs " }" ++ nl ++
  tab ++ tab ++ cs "{ Seq #: " ++ fmt_u (ntohl (w32 d 38)) ++ tab ++ cs "Ack #: " ++ fmt_u (ntohl (w32 d 42)) ++ cs " }" ++ nl ++
  tab ++ tab ++ cs "{ Header Size: " ++ fmt_u (tcp_size d) ++ tab ++ cs "Flags: " ++ print_flags (d !!! 47%nat) ++ cs " }" ++ nl.

Lemma decode_ethernet_ok d : (14 ≤ length d)%nat → decode_ethernet (ints d) 0 = Ok (eth_text d).
Proof.
  intros Hl. unfold decode_ethernet. change (0 + ether_src_addr) with (Z.of_nat 6).
  change (0 + ether_dest_addr) with (Z.of_nat 0). change (0 + ether_type) with (Z.of_nat 12).
  rewrite mac_loop_ok by lia. cbn [mbind res_bind]. rewrite mac_loop_ok by lia. cbn [mbind res_bind].
  rewrite ld16_ok by lia. cbn [mbind res_bind]. unfold eth_text. rewrite drop_0. by rewrite <-!(assoc_L (++)).
Qed.
Lemma decode_ip_ok d : (34 ≤ length d)%nat → decode_ip (ints d) 14 = Ok (ip_header_text d).
Proof.
  intros Hl. unfold decode_ip. change (14 + ip_src_addr) with (Z.of_nat 26). change (14 + ip_dest_addr) with (Z.of_nat 30).
  change (14 + ip_type) with (Z.of_nat 23). change (14 + ip_id) with (Z.of_nat 18). change (14 + ip_len) with (Z.of_nat 16).
  rewrite !ld32_ok, !rd_nat, !ld16_ok by lia. reflexivity.
Qed.
Lemma decode_tcp_ok d : (48 ≤ length d)%nat → decode_tcp (ints d) 34 = Ok (tcp_header_text d, tcp_size d).
Proof.
  intros Hl. unfold decode_tcp. change (34 + tcp_offset) with (Z.of_nat 46). change (34 + tcp_src_port) with (Z.of_nat 34).
  change (34 + tcp_dest_port) with (Z.of_nat 36). change (34 + tcp_seq) with (Z.of_nat 38).
  change (34 + tcp_ack) with (Z.of_nat 42). change (34 + tcp_flags) with (Z.of_nat 47).
  rewrite !ld32_ok, !rd_nat, !ld16_ok by lia. reflexivity.
Qed.

(** The length that [caught_packet] takes the data to have, and what it prints of
    the headers. *)
Definition data_len (len : Z) (d : list Z) : Z := i32 (u32 (len - (34 + tcp_size d))).
Definition head_text (len : Z) (d : list Z) : list Z :=
  cs "==== Got a " ++ fmt_d (i32 len) ++ cs " byte packet ====" ++ nl ++
  eth_text d ++ ip_header_text d ++ tcp_header_text d.

Lemma caught_head len d : (48 ≤ length d)%nat →
  caught_packet len (ints d) =
    t ← (if 0 <? data_len len d then
           t ← dump (ints d) (34 + tcp_size d) (data_len len d);
           Ok (tab ++ tab ++ tab ++ fmt_u (data_len len d) ++ cs " bytes of packet data" ++ nl ++ t)
         else Ok (tab ++ tab ++ tab ++ cs "No Packet Data" ++ nl));
    Ok (head_text len d ++ t).
Proof.
  intros Hl. unfold caught_packet. rewrite decode_ethernet_ok by lia. cbn [mbind res_bind].
  change (decode_ip (ints d) ETHER_HDR_LEN) with (decode_ip (ints d) 14). rewrite decode_ip_ok by lia. cbn [mbind res_bind].
  change (ETHER_HDR_LEN + sizeof_ip_hdr) with 34. rewrite decode_tcp_ok by done. cbn [mbind res_bind]. cbv zeta.
  fold (data_len len d). destruct (if 0 <? data_len len d then _ else _) as [t|]; [|done].
  cbn [mbind res_bind]. unfold head_text. by rewrite <-!(assoc_L (++)).
Qed.

(** ** Frames are decoded *)
Lemma i32_id z : 0 ≤ z < 2 ^ 31 → i32 z = z.
Proof. intros. unfold i32. rewrite Z.mod_small by lia. lia. Qed.
Lemma fmt_hu_id z : is_u16 z → fmt_hu z = fmt_d z.
Proof. intros. unfold fmt_hu. by rewrite u16_small. Qed.
Lemma fmt_u_id z : is_u32 z → fmt_u z = fmt_d z.
Proof. intros. unfold fmt_u. by rewrite u32_small. Qed.

Lemma print_flag_bit flags n name : 0 ≤ n →
  print_flag flags (2 ^ n) name = if Z.testbit flags n then name else [].
Proof.
  intros Hn. unfold print_flag.
  assert (Z.land flags (2 ^ n) = if Z.testbit flags n then 2 ^ n else 0) as ->.
  { apply Z.bits_inj'. intros i Hi. rewrite Z.land_spec, Z.pow2_bits_eqb by done.
    destruct (Z.eqb_spec n i) as [->|Hne].
    - destruct (Z.testbit flags i); by rewrite ?Z.pow2_bits_true, ?Z.bits_0.
    - rewrite andb_false_r. destruct (Z.testbit flags n); by rewrite ?Z.pow2_bits_false, ?Z.bits_0. }
  destruct (Z.testbit flags n); [|done]. by rewrite (proj2 (Z.eqb_neq _ _)) by lia.
Qed.
Lemma print_flags_text flags : print_flags flags = flags_text flags.
Proof.
  unfold print_flags. change TCP_FIN with (2 ^ 0). change TCP_SYN with (2 ^ 1). change TCP_RST with (2 ^ 2).
  change TCP_PUSH with (2 ^ 3). change TCP_ACK with (2 ^ 4). change TCP_URG with (2 ^ 5).
  rewrite !print_flag_bit by lia. unfold flags_text, flag_names. rewrite !bind_cons. cbn [fst snd].
  cbn [mbind list_bind]. by rewrite app_nil_r.
Qed.

Ltac explode l H := repeat (let x := fresh "b" in destruct l as [|x l]; [discriminate H|]); (destruct l; [|discriminate H]).

(** The fields of a frame in its octets. *)
Record frame_fields (f : frame) (d : list Z) : Prop := {
  ff_dest : take 6 d = f_dest f;
  ff_src : take 6 (drop 6 d) = f_src f;
  ff_type : w16 d 12 = 256 * (f_type f mod 256) + f_type f / 256;
  ff_len : ntohs (w16 d 16) = f_len f;
  ff_id : ntohs (w16 d 18) = f_id f;
  ff_proto : d !!! 23%nat = f_proto f;
  ff_ip_src : inet_ntoa (w32 d 26) = ip_text (f_ip_src f);
  ff_ip_dest : inet_ntoa (w32 d 30) = ip_text (f_ip_dest f);
  ff_sport : ntohs (w16 d 34) = f_sport f;
  ff_dport : ntohs (w16 d 36) = f_dport f;
  ff_seq : ntohl (w32 d 38) = f_seq f;
  ff_ack : ntohl (w32 d 42) = f_ack f;
  ff_size : tcp_size d = 4 * data_offset f;
  ff_flags : d !!! 47%nat = f_flags f
}.
Lemma data_offset_ok f : frame_ok f → 0 ≤ data_offset f < 16 ∧ Z.of_nat (length (f_options f)) = 4 * data_offset f - 20.
Proof.
  intros Hf. destruct (fo_options f Hf) as (k & Hk & Hk'). unfold data_offset. rewrite Hk.
  replace (Z.of_nat (4 * k)) with (Z.of_nat k * 4) by lia. rewrite Z.div_mul by lia. lia.
Qed.
Lemma octets_fields f : frame_ok f → frame_fields f (frame_octets f).
Proof.
  intros Hf. destruct (data_offset_ok f Hf) as [Ho _].
  assert (4 * Z.shiftr (16 * data_offset f + f_reserved f) 4 = 4 * data_offset f) as Esz.
  { pose proof (fo_reserved f Hf). rewrite Z.shiftr_div_pow2 by lia. change (2 ^ 4) with 16.
    rewrite (Z.mul_comm 16), Z.add_comm, Z.div_add, Z.div_small by lia. done. }
  destruct Hf as [Hd Hs His Hid _ Hb H16 [H32 H32'] _ _]. unfold frame_octets. destruct f as [dest src type vhl tos ilen id frag ttl proto ipsum isrc idest sport dport seq ack reserved
    flags window tcpsum urgent options payload]. cbn [f_dest f_src f_type f_vhl f_tos f_len f_id f_frag
    f_ttl f_proto f_ipsum f_ip_src f_ip_dest f_sport f_dport f_seq f_ack f_reserved f_flags f_window f_tcpsum f_urgent
    f_options f_payload] in *.
  explode dest Hd. explode src Hs. explode isrc His. explode idest Hid. cbn [app] in Hb.
  repeat match goal with H : Forall _ (_ :: _) |- _ => apply Forall_cons in H as [? H] end.
  split; cbn [f_dest f_src f_type f_len f_id f_proto f_ip_src f_ip_dest f_sport f_dport f_seq f_ack f_flags];
    [reflexivity|reflexivity|by apply le16_be16|by apply ntohs_be16|by apply ntohs_be16|reflexivity|by apply inet_ntoa_text|by apply inet_ntoa_text|by apply ntohs_be16|by apply ntohs_be16|by apply ntohl_be32|by apply ntohl_be32|exact Esz|reflexivity].
Qed.

Lemma frame_length f : frame_ok f →
  Z.of_nat (length (frame_octets f)) = 34 + 4 * data_offset f + Z.of_nat (length (f_payload f)).
Proof.
  intros Hf. destruct (data_offset_ok f Hf) as [Ho El]. destruct Hf as [Hd Hs His Hid _ _ _ _ _ _].
  unfold frame_octets, be32, be16. rewrite !length_app, Hd, Hs, His, Hid. cbn [length]. lia.
Qed.
Lemma frame_payload f : frame_ok f → octets_at (ints (frame_octets f)) (34 + 4 * data_offset f) (f_payload f).
Proof.
  intros Hf i x Hx. pose proof (frame_length f Hf) as El. destruct (data_offset_ok f Hf) as [Ho _].
  apply rd_ints; [lia|]. unfold frame_octets in *. rewrite !(assoc_L (++)) in *.
  set (p := _ ++ f_options f) in *. rewrite length_app in El.
  rewrite lookup_app_r by lia. rewrite <-Hx. f_equal. lia.
Qed.

(** C11. A TCP segment in an IP packet without options in an Ethernet frame, with
    any fields, TCP options and payload, is decoded: [caught_packet] prints the
    addresses, ports, sequence numbers, flags and sizes of the frame, the type of
    the Ethernet frame with its octets exchanged, and the payload in rows of
    sixteen octets, from which the payload can be read back. *)
Theorem caught_frame f : frame_ok f →
  caught_packet (Z.of_nat (length (frame_octets f))) (ints (frame_octets f)) = Ok (frame_text f) ∧
  (Forall is_byte (f_payload f) → undump (length (f_payload f)) (dump_text (f_payload f)) = f_payload f).
Proof.
  intros Hf. split; [|intros Hb; by apply undump_text].
  pose proof (frame_length f Hf) as El. destruct (data_offset_ok f Hf) as [Ho Eopt].
  pose proof (fo_payload f Hf) as Hp. pose proof (frame_payload f Hf) as Hpay.
  destruct (octets_fields f Hf) as [E1 E2 E3 E4 E5 E6 E7 E8 E9 E10 E11 E12 E13 E14].
  rewrite caught_head by lia.
  assert (data_len (Z.of_nat (length (frame_octets f))) (frame_octets f) = Z.of_nat (length (f_payload f))) as Edl.
  { unfold data_len. rewrite E13, El. replace (_ - _) with (Z.of_nat (length (f_payload f))) by lia.
    rewrite u32_small, i32_id by lia. done. }
  assert (head_text (Z.of_nat (length (frame_octets f))) (frame_octets f) ++
    (match f_payload f with
     | [] => tab ++ tab ++ tab ++ cs "No Packet Data" ++ nl
     | d => tab ++ tab ++ tab ++ fmt_d (Z.of_nat (length d)) ++ cs " bytes of packet data" ++ nl ++ dump_text d
     end) = frame_text f) as Et.
  { unfold head_text, eth_text, ip_header_text, tcp_header_text.
    rewrite E1, E2, E3, E4, E5, E6, E7, E8, E9, E10, E11, E12, E13, E14, print_flags_text, i32_id by lia.
    pose proof (fo_u16 f Hf) as H16. pose proof (fo_u32 f Hf) as [H32 H32']. pose proof (fo_bytes f Hf) as Hb.
    repeat match goal with H : Forall _ (_ :: _) |- _ => apply Forall_cons in H as [? H] end.
    assert (is_u16 (256 * (f_type f mod 256) + f_type f / 256)) as Ht.
    { pose proof (Z.mod_pos_bound (f_type f) 256). pose proof (Z.div_mod (f_type f) 256). unfold is_u16 in *. lia. }
    assert (is_u32 (f_proto f)) by (unfold is_u32, is_byte in *; lia).
    assert (is_u32 (4 * data_offset f)) by (unfold is_u32; lia).
    rewrite (fmt_hu_id _ Ht), (fmt_hu_id (f_id f)), (fmt_hu_id (f_len f)), (fmt_hu_id (f_sport f)),
      (fmt_hu_id (f_dport f)), (fmt_u_id (f_proto f)), (fmt_u_id (f_seq f)), (fmt_u_id (f_ack f)),
      (fmt_u_id (4 * data_offset f)) by assumption.
    unfold frame_text. by rewrite <-!(assoc_L (++)). }
  rewrite Edl, <-Et, E13.
  destruct (f_payload f) as [|x d] eqn:Ed; [done|]. rewrite <-Ed in *.
  rewrite (proj2 (Z.ltb_lt _ _)) by (rewrite Ed; cbn [length]; lia).
  rewrite dump_ok by (done || lia). cbn [mbind res_bind]. rewrite fmt_u_id by (unfold is_u32; lia). done.
Qed.

(** ** Which packets are read out of bounds *)

(** Nothing but a bad access can go wrong. *)
Definition bad_only {A} (r : res A) : Prop := ∀ e, r = Err e → e = BadAccess.
Lemma bad_ok {A} (a : A) : bad_only (Ok a).
Proof. by intros e. Qed.
Lemma bad_bind {A B} (r : res A) (k : A → res B) : bad_only r → (∀ a, bad_only (k a)) → bad_only (r ≫= k).
Proof. intros Hr Hk. destruct r as [a|e]; [apply Hk|]. intros e' [= <-]. by apply Hr. Qed.
Lemma bad_rd a i : bad_only (rd a i).
Proof. intros e. unfold rd. destruct (if 0 <=? i then _ else _); [done|]. by intros [= <-]. Qed.
Lemma bad_for {A} n from (body : Z → A → res A) a : (∀ k b, bad_only (body k b)) → bad_only (for_ n from body a).
Proof. intros Hb. revert from a. induction n as [|n IH]; intros from a; [apply bad_ok|]. apply bad_bind; auto. Qed.
Lemma bad_if {A} (b : bool) (r r' : res A) : bad_only r → bad_only r' → bad_only (if b then r else r').
Proof. by destruct b. Qed.
Create HintDb bad.
#[local] Hint Resolve bad_ok bad_bind bad_rd bad_for bad_if : bad.

Lemma bad_dump buffer off len : bad_only (dump buffer off len).
Proof. unfold dump, dump_step, dump_chars. auto 10 with bad. Qed.
Lemma bad_ld16 p a : bad_only (ld16 p a).
Proof. unfold ld16. auto with bad. Qed.
#[local] Hint Resolve bad_dump bad_ld16 : bad.
Lemma bad_ld32 p a : bad_only (ld32 p a).
Proof. unfold ld32. auto with bad. Qed.
Lemma bad_mac p a out : bad_only (mac_loop p a out).
Proof. unfold mac_loop. auto 10 with bad. Qed.
#[local] Hint Resolve bad_ld32 bad_mac : bad.
Lemma bad_caught len p : bad_only (caught_packet len p).
Proof.
  unfold caught_packet, decode_ethernet, decode_ip, decode_tcp.
  repeat first [apply bad_bind; [auto with bad|intros] | apply bad_ok]; [auto 20 with bad..|]. destruct a1. auto 10 with bad.
Qed.

Lemma res_bind_inv {A B} (r : res A) (k : A → res B) b : r ≫= k = Ok b → ∃ a, r = Ok a ∧ k a = Ok b.
Proof. destruct r as [a|]; [by exists a|done]. Qed.
Lemma rd_inv a i x : 0 ≤ i → rd a i = Ok x → i < Z.of_nat (length a).
Proof.
  intros Hi. unfold rd. rewrite (proj2 (Z.leb_le _ _)) by done.
  destruct (decide (i < Z.of_nat (length a))); [done|]. by rewrite lookup_ge_None_2 by lia.
Qed.

Lemma i32_range z : - 2 ^ 31 ≤ i32 z < 2 ^ 31.
Proof. unfold i32. pose proof (Z.mod_pos_bound (z + 2 ^ 31) (2 ^ 32)). lia. Qed.

Lemma tcp_size_pos d : Forall is_byte d → (48 ≤ length d)%nat → 0 ≤ tcp_size d.
Proof.
  intros Hb Hl. unfold tcp_size. assert (is_byte (d !!! 46%nat)) as [? _].
  { eapply Forall_lookup_1; [exact Hb|]. apply list_lookup_lookup_total_lt. lia. }
  pose proof (proj2 (Z.shiftr_nonneg (d !!! 46%nat) 4)). lia.
Qed.
(** [dump] of octets that are all there. *)
Lemma dump_inside d off n : 0 ≤ off → 0 ≤ n < 2 ^ 32 → off + n ≤ Z.of_nat (length d) →
  dump (ints d) off n = Ok (dump_text (take (Z.to_nat n) (drop (Z.to_nat off) d))).
Proof.
  intros Ho Hn Hl. set (d' := take _ _).
  assert (Z.of_nat (length d') = n) as En by (unfold d'; rewrite length_take, length_drop; lia).
  rewrite <-En. apply dump_ok; [|lia]. apply octets_take.
  replace off with (0 + Z.of_nat (Z.to_nat off)) at 1 by lia. apply octets_drop.
  intros i x Hx. apply rd_ints; [lia|]. by rewrite Z.add_0_l, Nat2Z.id.
Qed.
(** [dump] of octets that are not all there. *)
Lemma dump_short a off n : 0 ≤ off → 0 < n < 2 ^ 32 → Z.of_nat (length a) < off + n →
  dump a off n = Err BadAccess.
Proof.
  intros Ho Hn Hl. destruct (dump a off n) as [t|e] eqn:E; [|by rewrite (bad_dump _ _ _ _ E)]. exfalso.
  unfold dump in E. rewrite u32_small in E by lia. cbv zeta in E.
  destruct (for_steps _ _ _ _ _ E (n - 1)) as (b & c & Hs); [lia|].
  apply res_bind_inv in Hs as (x & Hx & _). apply rd_inv in Hx; lia.
Qed.
(** The last field that is read of the headers is the flags. *)
Lemma caught_short len d : (length d < 48)%nat → caught_packet len (ints d) = Err BadAccess.
Proof.
  intros Hl. destruct (caught_packet len (ints d)) as [t|e] eqn:E; [|by rewrite (bad_caught _ _ _ E)]. exfalso.
  unfold caught_packet in E. apply res_bind_inv in E as (? & _ & E). apply res_bind_inv in E as (? & _ & E).
  apply res_bind_inv in E as (? & E & _). unfold decode_tcp in E.
  do 5 apply res_bind_inv in E as (? & _ & E). apply res_bind_inv in E as (? & E & _).
  unfold ETHER_HDR_LEN, sizeof_ip_hdr, tcp_flags in E. apply rd_inv in E; rewrite ?length_ints in E; lia.
Qed.

(** C40. What [caught_packet] reads, for any octets and any length on the wire: it
    returns exactly when 48 octets were captured and, if it takes the packet to
    have data, all of the data was; otherwise it reads beyond the captured
    octets.  It never compares the length on the wire with what was captured. *)
Theorem caught_packet_reads len d : Forall is_byte d →
  if decide ((48 ≤ length d)%nat ∧ (0 < data_len len d → 34 + tcp_size d + data_len len d ≤ Z.of_nat (length d)))
  then ∃ t, caught_packet len (ints d) = Ok (head_text len d ++ t)
  else caught_packet len (ints d) = Err BadAccess.
Proof.
  intros Hb. case_decide as Hc.
  - destruct Hc as [Hl Hd]. rewrite caught_head by done. destruct (Z.ltb_spec 0 (data_len len d)) as [Hp|]; [|by eexists].
    specialize (Hd Hp). pose proof (i32_range (u32 (len - (34 + tcp_size d)))) as Hr. fold (data_len len d) in Hr.
    pose proof (tcp_size_pos d Hb Hl) as Hs.
    rewrite dump_inside by lia. by eexists.
  - destruct (decide (48 ≤ length d)%nat) as [Hl|]; [|apply caught_short; lia].
    rewrite caught_head by done. destruct (Z.ltb_spec 0 (data_len len d)) as [Hp|]; [|exfalso; apply Hc; split; [done|lia]].
    pose proof (i32_range (u32 (len - (34 + tcp_size d)))) as Hr. fold (data_len len d) in Hr.
    pose proof (tcp_size_pos d Hb Hl) as Hs.
    rewrite dump_short; [done|lia|lia|]. rewrite length_ints.
    destruct (decide (34 + tcp_size d + data_len len d ≤ Z.of_nat (length d))); [|lia]. exfalso. by apply Hc.
Qed.

(** ** The programs *)

(** [decode_sniff] on frames that are captured completely. *)
Theorem sniff_frames device fs : Forall frame_ok fs →
  decode_sniff_main (Some device) true ((λ f, (Z.of_nat (length (frame_octets f)), ints (frame_octets f))) <$> fs) =
  Ok (cs "Sniffing on device " ++ device ++ nl ++ (take 3 fs ≫= frame_text)).
Proof.
  intros Hfs. unfold decode_sniff_main. cbn [pcap_start mbind res_bind]. rewrite <-fmap_take.
  assert (pcap_loop ((λ f, (Z.of_nat (length (frame_octets f)), ints (frame_octets f))) <$> take 3 fs) =
    Ok (take 3 fs ≫= frame_text)) as ->.
  { apply (Forall_take _ 3) in Hfs. induction Hfs as [|f l Hf _ IH]; [done|].
    rewrite fmap_cons, bind_cons. cbn [pcap_loop]. rewrite (proj1 (caught_frame f Hf)). cbn [mbind res_bind].
    by rewrite IH. }
  cbn [mbind res_bind]. by rewrite <-!(assoc_L (++)).
Qed.

Lemma raw_step_ok recv i buffer d : recv i = Some d → length buffer = Z.to_nat 9000 →
  ∃ buffer', length buffer' = Z.to_nat 9000 ∧
    ∀ out, raw_step recv i (buffer, out) = Ok (buffer', out ++ cs "Got a " ++
      fmt_d (Z.of_nat (length (take (Z.to_nat 8000) d))) ++ cs " byte packet" ++ nl ++ dump_text (take (Z.to_nat 8000) d)).
Proof.
  intros Hr Hb. unfold raw_step. rewrite Hr. cbn [from_option]. set (data := take _ d).
  assert (length data ≤ Z.to_nat 8000)%nat as Hd by (unfold data; rewrite length_take; lia).
  eexists. split; [|intros out; rewrite dump_ok; [done| |lia]].
  - rewrite length_app, length_ints, length_drop, Hb. lia.
  - intros j x Hx. unfold rd. rewrite (proj2 (Z.leb_le _ _)) by lia. rewrite Z.add_0_l, Nat2Z.id.
    assert (j < length data)%nat by by apply lookup_lt_Some in Hx.
    rewrite lookup_app_l by (rewrite length_ints; done). unfold ints. by rewrite list_lookup_fmap, Hx.
Qed.

(** [raw_tcpsniff] dumps what it receives; but a failing [recv] makes it dump
    [(unsigned) -1] octets of its buffer of 9000. *)
Theorem raw_sniff_receives recv d0 d1 d2 : recv 0 = Some d0 → recv 1 = Some d1 → recv 2 = Some d2 →
  raw_tcpsniff_main true recv = Ok ([d0; d1; d2] ≫= λ d,
    cs "Got a " ++ fmt_d (Z.of_nat (length (take (Z.to_nat 8000) d))) ++ cs " byte packet" ++ nl ++
    dump_text (take (Z.to_nat 8000) d)).
Proof.
  intros H0 H1 H2. unfold raw_tcpsniff_main. cbn [for_].
  destruct (raw_step_ok recv 0 (unset (Z.to_nat 9000)) d0 H0) as (b0 & Hb0 & E0); [apply length_replicate|].
  destruct (raw_step_ok recv 1 b0 d1 H1 Hb0) as (b1 & Hb1 & E1), (raw_step_ok recv 2 b1 d2 H2 Hb1) as (b2 & _ & E2).
  change (0 + 1) with 1. change (1 + 1) with 2.
  rewrite E0. cbn [mbind res_bind]. rewrite E1. cbn [mbind res_bind]. rewrite E2. cbn [mbind res_bind snd].
  rewrite !bind_cons. cbn [mbind list_bind app]. rewrite app_nil_r. by rewrite <-!(assoc_L (++)).
Qed.
Theorem raw_sniff_overreads recv : recv 0 = None → raw_tcpsniff_main true recv = Err BadAccess.
Proof.
  intros H0. assert (raw_step recv 0 (unset (Z.to_nat 9000), []) = Err BadAccess) as E.
  { unfold raw_step. rewrite H0. cbn [from_option length drop ints fmap list_fmap app].
    assert (dump (unset (Z.to_nat 9000)) 0 (2 ^ 32 - 1) = Err BadAccess) as Hd.
    { apply dump_short; [lia|lia|]. unfold unset. rewrite length_replicate. lia. }
    unfold dump in *. rewrite drop_0. change (u32 (-1)) with (u32 (2 ^ 32 - 1)). by rewrite Hd. }
  unfold raw_tcpsniff_main. cbn [for_]. by rewrite E.
Qed.

(** ** Concrete packets *)
Definition ex_frame : frame := Frame [1; 2; 3; 4; 5; 6] [0; 12; 41; 171; 205; 239] 2048 69 0 44 4660 16384 64 6 0
  [192; 168; 1; 2] [10; 0; 0; 255] 80 40000 305419896 1 0 24 512 0 0 [1; 1; 1; 0] [72; 105; 10].
Lemma ex_frame_ok : frame_ok ex_frame.
Proof.
  split; [done|done|done|done|exists 1%nat; split; [done|lia]|by apply (bool_decide_unpack _); vm_compute| | | |];
    unfold is_u16, is_u32, ex_frame; cbn; [repeat (apply Forall_cons; split; [lia|]); constructor|lia..].
Qed.

Lemma caught_frame_witness :
  ∃ t, caught_packet 61 (ints (frame_octets ex_frame)) = Ok t ∧ t = frame_text ex_frame ∧
    undump 3 (dump_text [72; 105; 10]) = [72; 105; 10].
Proof.
  destruct (caught_frame ex_frame ex_frame_ok) as [E Hu].
  eexists. split; [exact E|]. split; [done|]. apply Hu. by apply (bool_decide_unpack _); vm_compute.
Defined.

(** The type of an IP frame, 0x0800, is printed as 8; and a packet of which 50
    octets were captured but that was longer is read out of bounds. *)
Lemma ex_dump : dump_text [72; 105; 10] =
  cs "48 69 0a " ++ concat (replicate 13 (cs "   ")) ++ cs "| Hi." ++ nl.
Proof. by vm_compute. Qed.
Lemma caught_packet_reads_witness :
  caught_packet 61 (ints (take 50 (frame_octets ex_frame))) = Err BadAccess.
Proof.
  pose proof (caught_packet_reads 61 (take 50 (frame_octets ex_frame))) as E.
  rewrite decide_False in E; [apply E|].
  - apply Forall_take. by apply (bool_decide_unpack _); vm_compute.
  - intros [_ Hx]. vm_compute in Hx. by apply Hx.
Defined.
