(* ===== verification/SysvSem.v ===== *)
(** * Processes in a critical section ([alsp/src/5.ipc/sysv]: [lib_sysv_sem.c],
      [sysv_sem.c], [sysv_sem_waitforzero.c])

    The library wraps the System V semaphore calls; in both programs a number of
    child processes enter a critical section under a semaphore, the one with
    index 2 aborts in it, and the parent waits for all of them.  The second
    program lets two children in and has one more child that waits for the
    semaphore to become zero.

    The semaphores are modelled as the system calls are documented: [semop] on a
    semaphore blocks or adjusts its value and, with [SEM_UNDO], the adjustment of
    the process, which is applied when the process ends, in whatever way.  What
    [ftok], [malloc] and the creation of a set answer is a parameter.  A process
    is a control point between two system calls; printing and sleeping are not
    modelled, no other program uses the semaphores, and the number of children is
    less than [INT_MAX]. *)

From stdpp Require Import base gmap list relations.
From Stdlib Require Import ZArith Lia.
From S2P Require Import Prelude.

Local Open Scope Z_scope.

(** ** Semaphores *)
Definition SEMVMX : Z := 32767.

(** The keys of the sets, their values, and what is undone for each process
    when it ends. *)
Record kern := Kern { k_keys : gmap Z Z; k_sets : gmap Z (list Z); k_adj : gmap nat (gmap (Z * nat) Z) }.
Definition set_val (id : Z) (num : nat) (v : Z) (k : kern) : kern :=
  Kern (k_keys k) (alter (λ vals, <[num := v]> vals) id (k_sets k)) (k_adj k).
Definition adj_of (pid : nat) (k : kern) : gmap (Z * nat) Z := default ∅ (k_adj k !! pid).
Definition add_adj (pid : nat) (id : Z) (num : nat) (a : Z) (k : kern) : kern :=
  Kern (k_keys k) (k_sets k)
    (<[pid := <[(id, num) := default 0 (adj_of pid k !! (id, num)) + a]> (adj_of pid k)]> (k_adj k)).

(** One operation with [SEM_UNDO]: [None] where it blocks. *)
Definition semop (pid : nat) (id sem_num sem_op : Z) (k : kern) : option (Z * kern) :=
  let num := Z.to_nat (u16 sem_num) in
  match k_sets k !! id ≫= λ vals, vals !! num with
  | None => Some (-1, k)
  | Some v =>
      if sem_op =? 0 then if v =? 0 then Some (0, k) else None
      else if v + sem_op <? 0 then None
      else if SEMVMX <? v + sem_op then Some (-1, k)
      else Some (0, add_adj pid id num (- sem_op) (set_val id num (v + sem_op) k))
  end.

(** The end of a process. *)
Definition undo (x : Z * nat) (a : Z) (k : kern) : kern :=
  match k_sets k !! x.1 ≫= λ vals, vals !! x.2 with
  | None => k
  | Some v => set_val x.1 x.2 (Z.max 0 (Z.min SEMVMX (v + a))) k
  end.
Definition exit_undo (pid : nat) (k : kern) : kern :=
  map_fold undo (Kern (k_keys k) (k_sets k) (delete pid (k_adj k))) (adj_of pid k).

(** A set is removed or set anew: its adjustments are forgotten. *)
Definition forget_adj (id : Z) (k : kern) : kern :=
  Kern (k_keys k) (k_sets k) (filter (λ x, x.1.1 ≠ id) <$> k_adj k).
Definition semctl_rmid (id : Z) (k : kern) : Z * kern :=
  match k_sets k !! id with
  | None => (-1, k)
  | Some _ => (0, forget_adj id (Kern (filter (λ x, x.2 ≠ id) (k_keys k)) (delete id (k_sets k)) (k_adj k)))
  end.
Definition semctl_setall (id : Z) (vals : list Z) (k : kern) : Z * kern :=
  match k_sets k !! id with
  | None => (-1, k)
  | Some _ =>
      if forallb (λ v, v <=? SEMVMX) vals
      then (0, forget_adj id (Kern (k_keys k) (<[id := vals]> (k_sets k)) (k_adj k))) else (-1, k)
  end.
Definition semctl_getval (id sem_idx : Z) (k : kern) : Z :=
  default (-1) (k_sets k !! id ≫= λ vals, if 0 <=? sem_idx then vals !! Z.to_nat sem_idx else None).

(** What the system answers: the key of a file, -1 where there is none; the id
    and the values of a new set, [None] where it is not created; whether [malloc]
    succeeds. *)
Record answers := Answers { ftok : list Z → Z; semget_new : option (Z * list Z); malloc_ok : bool }.

(** [semget (key, n_sem, IPC_CREAT | IPC_EXCL | user_mode)], and [EEXIST]. *)
Definition semget_excl (a : answers) (key n_sem : Z) (k : kern) : Z * bool * kern :=
  match k_keys k !! key with
  | Some _ => (-1, true, k)
  | None =>
      match semget_new a with
      | Some (id, vals) =>
          if 0 <? n_sem then (id, false, Kern (<[key := id]> (k_keys k)) (<[id := vals]> (k_sets k)) (k_adj k))
          else (-1, false, k)
      | None => (-1, false, k)
      end
  end.
(** [semget (key, n_sem, 0)] of a set that exists. *)
Definition semget_old (key n_sem : Z) (k : kern) : Z :=
  match k_keys k !! key with
  | None => -1
  | Some id =>
      match k_sets k !! id with
      | Some vals => if n_sem <=? Z.of_nat (length vals) then id else -1
      | None => -1
      end
  end.

(** ** [lib_sysv_sem.c] *)
Definition sysv_semget (a : answers) (tok : option (list Z)) (sem_fixkey n_sem sem_value : Z) (k : kern) : Z * kern :=
  let sem_key := match tok with Some tok => ftok a tok | None => sem_fixkey end in
  if (match tok with Some _ => sem_key =? -1 | None => false end) then (-1, k)
  else
    let '(sem_id, eexist, k) := semget_excl a sem_key n_sem k in
    if (sem_id =? -1) && eexist then (semget_old sem_key n_sem k, k)
    else if sem_id =? -1 then (-1, k)
    else if negb (malloc_ok a) then (-1, k)
    else
      let arr_semval := replicate (Z.to_nat n_sem) (u16 sem_value) in
      let '(r, k) := semctl_setall sem_id arr_semval k in
      if r =? -1 then (-1, k) else (sem_id, k).

Definition sysv_semrm (sem_id : Z) (k : kern) : Z * kern :=
  let '(r, k) := semctl_rmid sem_id k in (if r =? -1 then -1 else 0, k).
Definition wrap_semop (pid : nat) (sem_id sem_idx op : Z) (k : kern) : option (Z * kern) :=
  '(r, k) ← semop pid sem_id sem_idx op k; Some (if r =? -1 then -1 else 0, k).
Definition sysv_semzwait (pid : nat) (sem_id sem_idx : Z) : kern → option (Z * kern) := wrap_semop pid sem_id sem_idx 0.
Definition sysv_semwait (pid : nat) (sem_id sem_idx : Z) : kern → option (Z * kern) := wrap_semop pid sem_id sem_idx (-1).
Definition sysv_sempost (pid : nat) (sem_id sem_idx : Z) : kern → option (Z * kern) := wrap_semop pid sem_id sem_idx 1.
Definition sysv_semval (sem_id sem_idx : Z) (k : kern) : Z := semctl_getval sem_id sem_idx k.

(** ** The programs

    [wfz] tells [sysv_sem_waitforzero.c] from [sysv_sem.c]. *)
Section programs.
Context (wfz : bool).

Definition sem_value : Z := if wfz then 2 else 1.
Definition MY_KEY : Z := 305397761.

(** A child with its index, or the one that waits for zero. *)
Inductive role : Set := Child (idx_child : Z) | Zero.
Inductive pc : Set :=
| PWait      (* before [sysv_semwait] or [sysv_semzwait] *)
| PIn        (* in the critical section *)
| PPost      (* before [sysv_sempost] *)
| PExit      (* before [exit] *)
| PZombie    (* has ended *)
| PReaped.   (* has been waited for *)
#[export] Instance role_eq_dec : EqDecision role.
Proof. solve_decision. Defined.
#[export] Instance pc_eq_dec : EqDecision pc.
Proof. solve_decision. Defined.

Inductive mpc : Set :=
| MGet                 (* before [sysv_semget] *)
| MForkZ               (* before the [fork] of the child that waits for zero *)
| MFork (i : Z)        (* in the loop that forks *)
| MReap (i : Z)        (* in the loop that waits *)
| MRm                  (* before [sysv_semrm] *)
| MDone (status : Z).
#[export] Instance mpc_eq_dec : EqDecision mpc.
Proof. solve_decision. Defined.

(** The children are numbered in the order in which they were forked. *)
Record state := State { krn : kern; sem_id : Z; procs : list (role * pc); mpc_ : mpc }.
Definition goto_m (p : mpc) (s : state) : state := State (krn s) (sem_id s) (procs s) p.
Definition add_proc (r : role) (s : state) : state := State (krn s) (sem_id s) (procs s ++ [(r, PWait)]) (mpc_ s).
Definition goto_p (pid : nat) (p : pc) (s : state) : state :=
  State (krn s) (sem_id s) (alter (λ x, (x.1, p)) pid (procs s)) (mpc_ s).
Definition set_krn (k : kern) (s : state) : state := State k (sem_id s) (procs s) (mpc_ s).

(** A process ends. *)
Definition end_proc (pid : nat) (s : state) : state := goto_p pid PZombie (set_krn (exit_undo pid (krn s)) s).

(** [handle_criticalsect], which ignores the results of the calls. *)
Definition handle_criticalsect (pid : nat) (idx_child : Z) (p : pc) (s : state) : option state :=
  match p with
  | PWait => '(_, k) ← sysv_semwait pid (sem_id s) 0 (krn s); Some (goto_p pid PIn (set_krn k s))
  | PIn => if idx_child =? 2 then Some (end_proc pid s) else Some (goto_p pid PPost s)
  | PPost => '(_, k) ← sysv_sempost pid (sem_id s) 0 (krn s); Some (goto_p pid PExit (set_krn k s))
  | PExit => Some (end_proc pid s)
  | PZombie | PReaped => None
  end.
Definition handle_waitforzero (pid : nat) (p : pc) (s : state) : option state :=
  match p with
  | PWait => '(_, k) ← sysv_semzwait pid (sem_id s) 0 (krn s); Some (goto_p pid PExit (set_krn k s))
  | PExit => Some (end_proc pid s)
  | _ => None
  end.

(** A call of [fork] fails or not; [waitpid] returns one of the children that
    have ended. *)
Inductive label : Set := RunM (fork_ok : bool) (w : nat) | RunP (pid : nat).

Definition unreaped (x : role * pc) : bool := negb (bool_decide (x.2 = PReaped)).

Definition main (a : answers) (n_child : Z) (fork_ok : bool) (w : nat) (s : state) : option state :=
  match mpc_ s with
  | MGet =>
      let '(id, k) := sysv_semget a None MY_KEY 1 sem_value (krn s) in
      Some (State k id (procs s) (if wfz then MForkZ else MFork 0))
  | MForkZ => Some (goto_m (MFork 0) (if fork_ok then add_proc Zero s else s))
  | MFork i =>
      if i <? n_child then
        if fork_ok then Some (goto_m (MFork (i + 1)) (add_proc (Child i) s)) else Some (goto_m (MDone 1) s)
      else Some (goto_m (MReap 0) s)
  | MReap i =>
      if i <? (if wfz then n_child + 1 else n_child) then
        if existsb unreaped (procs s) then
          if decide (snd <$> procs s !! w = Some PZombie) then Some (goto_m (MReap (i + 1)) (goto_p w PReaped s)) else None
        else Some (goto_m (MReap (i + 1)) s)
      else Some (goto_m MRm s)
  | MRm => let '(r, k) := sysv_semrm (sem_id s) (krn s) in
           Some (goto_m (MDone (if r =? -1 then 1 else 0)) (set_krn k s))
  | MDone _ => None
  end.

Definition exec (a : answers) (n_child : Z) (l : label) (s : state) : option state :=
  match l with
  | RunM fork_ok w => main a n_child fork_ok w s
  | RunP pid =>
      match procs s !! pid with
      | Some (Child i, p) => handle_criticalsect pid i p s
      | Some (Zero, p) => handle_waitforzero pid p s
      | None => None
      end
  end.
Definition step (a : answers) (n_child : Z) (s s' : state) : Prop := ∃ l, exec a n_child l s = Some s'.

Definition start (k : kern) : state := State k 0 [] MGet.
End programs.
