(* ===== verification/SysvSemProofs.v ===== *)
(** * Processes in a critical section: correctness

    In every reachable state the semaphore and the processes in the critical
    section add up ([kernel_ok]), so that no more of them are in it than allowed,
    although one aborts there.  [sysv_sem] ends under every schedule and leaves
    the system as it was; [sysv_sem_waitforzero] need not end; and a program that
    did not get its semaphore protects nothing. *)

From stdpp Require Import base gmap list relations.
From Stdlib Require Import ZArith Lia.
From S2P Require Import Prelude SysvSem.

Local Open Scope Z_scope.

(** ** Sums over the processes *)
Fixpoint total (f : role * pc → Z) (ps : list (role * pc)) : Z :=
  match ps with [] => 0 | x :: ps => f x + total f ps end.
Lemma total_app f ps qs : total f (ps ++ qs) = total f ps + total f qs.
Proof. induction ps as [|x ps IH]; simpl; [done|]. rewrite IH. lia. Qed.
Lemma total_alter f g ps k x : ps !! k = Some x → total f (alter g k ps) = total f ps - f x + f (g x).
Proof.
  revert k. induction ps as [|y ps IH]; intros [|k] Hk; [done|done| |].
  - injection Hk as ->. simpl. lia.
  - change (alter g (S k) (y :: ps)) with (y :: alter g k ps). cbn [total]. rewrite (IH k Hk). lia.
Qed.
Lemma total_nonneg f ps : (∀ x, 0 ≤ f x) → 0 ≤ total f ps.
Proof. intros Hf. induction ps as [|x ps IH]; simpl; [lia|]. pose proof (Hf x). lia. Qed.
Lemma total_pos f ps : (∀ x, 0 ≤ f x) → 0 < total f ps → ∃ k x, ps !! k = Some x ∧ 0 < f x.
Proof.
  intros Hf. induction ps as [|x ps IH]; simpl; intros Hp; [lia|].
  destruct (decide (0 < f x)); [by exists 0%nat, x|]. pose proof (Hf x).
  destruct IH as (k & y & ? & ?); [lia|]. by exists (S k), y.
Qed.

(** A process holds the semaphore; has been waited for. *)
Definition hold (x : role * pc) : Z :=
  match x with (Child _, PIn) | (Child _, PPost) => 1 | _ => 0 end.
Definition reap (x : role * pc) : Z := if decide (x.2 = PReaped) then 1 else 0.
Abbreviation holders := (total hold).
Abbreviation reaped := (total reap).

Lemma reaped_all ps : reaped ps = Z.of_nat (length ps) ↔ existsb unreaped ps = false.
Proof.
  assert (∀ qs, reaped qs ≤ Z.of_nat (length qs)) as Hle.
  { intros qs. induction qs as [|x qs IH]; simpl; [lia|]. unfold reap at 1. case_decide; lia. }
  induction ps as [|x ps IH]; simpl; [done|]. pose proof (Hle ps). unfold reap at 1, unreaped at 1.
  destruct (decide (x.2 = PReaped)) as [E|E].
  - rewrite bool_decide_true by done. simpl. rewrite <-IH. lia.
  - rewrite bool_decide_false by done. simpl. split; [lia|done].
Qed.

Section proofs.
Context (wfz : bool) (a : answers) (n_child : Z) (k0 : kern) (id v0 : Z).

(** The semaphore can be made, and nothing uses it before. *)
Record can_make : Prop := {
  cm_key : k_keys k0 !! MY_KEY = None;
  cm_new : semget_new a = Some (id, [v0]);
  cm_id : id ≠ -1;
  cm_set : k_sets k0 !! id = None;
  cm_keys key : k_keys k0 !! key ≠ Some id;
  cm_malloc : malloc_ok a = true;
  cm_adj : k_adj k0 = ∅
}.
Context (HC : can_make).
Abbreviation cap := (sem_value wfz).

(** The adjustment of a process. *)
Definition adj_for (x : role * pc) : option (gmap (Z * nat) Z) :=
  match x with
  | (Child _, PIn) | (Child _, PPost) => Some {[ (id, 0%nat) := 1 ]}
  | (Child _, PExit) => Some {[ (id, 0%nat) := 0 ]}
  | _ => None
  end.
Record kernel_ok (k : kern) (ps : list (role * pc)) : Prop := {
  ko_keys : k_keys k = <[MY_KEY := id]> (k_keys k0);
  ko_sets : k_sets k = <[id := [cap - holders ps]]> (k_sets k0);
  ko_adj pid : k_adj k !! pid = ps !! pid ≫= adj_for;
  ko_cap : holders ps ≤ cap
}.

Lemma hold_nonneg x : 0 ≤ hold x.
Proof. destruct x as [[] []]; simpl; lia. Qed.
Lemma cap_range : 1 ≤ cap ≤ 2.
Proof. unfold sem_value. destruct wfz; lia. Qed.

Lemma lookup_sem k ps : kernel_ok k ps →
  k_sets k !! id ≫= (λ vals, vals !! Z.to_nat (u16 0)) = Some (cap - holders ps).
Proof. intros [_ Hs _ _]. rewrite Hs, lookup_insert_eq. done. Qed.

(** What is left of the kernel when a process moves on and takes its new
    adjustment. *)
Lemma kernel_alter k ps pid x p keys sets adj :
  kernel_ok k ps → ps !! pid = Some x → keys = k_keys k →
  sets = <[id := [cap - (holders ps - hold x + hold (x.1, p))]]> (k_sets k) →
  holders ps - hold x + hold (x.1, p) ≤ cap →
  (∀ pid', adj !! pid' = if decide (pid' = pid) then adj_for (x.1, p) else k_adj k !! pid') →
  kernel_ok (Kern keys sets adj) (alter (λ x, (x.1, p)) pid ps).
Proof.
  intros [Hk Hs Ha Hc] Hx -> -> Hcap Hadj. split; simpl.
  - done.
  - rewrite (total_alter _ _ _ _ _ Hx), Hs, insert_insert_eq. done.
  - intros pid'. rewrite Hadj. case_decide as E.
    + subst. by rewrite list_lookup_alter_eq, Hx.
    + rewrite list_lookup_alter_ne by done. apply Ha.
  - by rewrite (total_alter _ _ _ _ _ Hx).
Qed.

Lemma adj_of_none k ps pid x : kernel_ok k ps → ps !! pid = Some x → adj_of pid k = default ∅ (adj_for x).
Proof. intros HK Hx. unfold adj_of. by rewrite (ko_adj _ _ HK), Hx. Qed.

Lemma semwait_ok k ps pid i : kernel_ok k ps → ps !! pid = Some (Child i, PWait) →
  if decide (holders ps < cap)
  then ∃ k', sysv_semwait pid id 0 k = Some (0, k') ∧ kernel_ok k' (alter (λ x, (x.1, PIn)) pid ps)
  else sysv_semwait pid id 0 k = None.
Proof.
  intros HK Hx. pose proof cap_range. pose proof (total_nonneg hold ps hold_nonneg).
  unfold sysv_semwait, wrap_semop, semop. rewrite (lookup_sem k ps HK). change (-1 =? 0) with false. cbv iota.
  destruct (Z.ltb_spec (cap - holders ps + -1) 0); case_decide; try lia; [done|].
  destruct (Z.ltb_spec SEMVMX (cap - holders ps + -1)); [unfold SEMVMX in *; lia|].
  eexists. split; [done|]. unfold add_adj, set_val. cbn [k_keys k_sets k_adj].
  eapply kernel_alter; [exact HK|exact Hx|done| |simpl; lia|].
  - rewrite (ko_sets _ _ HK). apply map_eq. intros j. destruct (decide (j = id)) as [->|].
    + rewrite lookup_alter_eq, !lookup_insert_eq. simpl. f_equal. f_equal. lia.
    + by rewrite lookup_alter_ne, !lookup_insert_ne by done.
  - intros pid'. unfold adj_of. cbn [k_adj]. fold (adj_of pid k). rewrite (adj_of_none k ps pid _ HK Hx).
    case_decide as E; [subst; by rewrite lookup_insert_eq|by rewrite lookup_insert_ne].
Qed.
Lemma sempost_ok k ps pid i : kernel_ok k ps → ps !! pid = Some (Child i, PPost) →
  ∃ k', sysv_sempost pid id 0 k = Some (0, k') ∧ kernel_ok k' (alter (λ x, (x.1, PExit)) pid ps).
Proof.
  intros HK Hx. pose proof cap_range. pose proof (ko_cap _ _ HK). pose proof (total_nonneg hold ps hold_nonneg).
  unfold sysv_sempost, wrap_semop, semop. rewrite (lookup_sem k ps HK). change (1 =? 0) with false. cbv iota.
  destruct (Z.ltb_spec (cap - holders ps + 1) 0); [lia|].
  destruct (Z.ltb_spec SEMVMX (cap - holders ps + 1)); [unfold SEMVMX in *; lia|].
  eexists. split; [done|]. unfold add_adj, set_val. cbn [k_keys k_sets k_adj].
  eapply kernel_alter; [exact HK|exact Hx|done| |simpl; lia|].
  - rewrite (ko_sets _ _ HK). apply map_eq. intros j. destruct (decide (j = id)) as [->|].
    + rewrite lookup_alter_eq, !lookup_insert_eq. simpl. f_equal. f_equal. lia.
    + by rewrite lookup_alter_ne, !lookup_insert_ne by done.
  - intros pid'. unfold adj_of. cbn [k_adj]. fold (adj_of pid k). rewrite (adj_of_none k ps pid _ HK Hx).
    case_decide as E; [subst; rewrite lookup_insert_eq|by rewrite lookup_insert_ne].
    simpl. rewrite lookup_singleton_eq. simpl. by rewrite insert_singleton_eq.
Qed.
Lemma semzwait_ok k ps pid : kernel_ok k ps → ps !! pid = Some (Zero, PWait) →
  if decide (holders ps = cap)
  then sysv_semzwait pid id 0 k = Some (0, k) ∧ kernel_ok k (alter (λ x, (x.1, PExit)) pid ps)
  else sysv_semzwait pid id 0 k = None.
Proof.
  intros HK Hx. unfold sysv_semzwait, wrap_semop, semop. rewrite (lookup_sem k ps HK). change (0 =? 0) with true. cbv iota.
  destruct (Z.eqb_spec (cap - holders ps) 0); case_decide; try lia; [|done]. split; [done|].
  destruct k as [keys sets adj]. eapply kernel_alter; [exact HK|exact Hx|done| |simpl; lia|].
  - cbn [k_sets hold fst]. replace (holders ps - 0 + 0) with (holders ps) by lia.
    pose proof (ko_sets _ _ HK) as Hs. cbn [k_sets] in Hs. rewrite Hs. by rewrite insert_insert_eq.
  - intros pid'. case_decide as E; [|done]. subst.
    pose proof (ko_adj _ _ HK pid) as Ha. cbn [k_adj] in Ha. by rewrite Ha, Hx.
Qed.

Lemma set_krn_id s : set_krn (krn s) s = s.
Proof. by destruct s. Qed.
(** A process moves on and keeps what it has. *)
Lemma kernel_move k ps pid x p : kernel_ok k ps → ps !! pid = Some x →
  hold (x.1, p) = hold x → adj_for (x.1, p) = adj_for x → kernel_ok k (alter (λ x, (x.1, p)) pid ps).
Proof.
  intros HK Hx Eh Ea. destruct k as [keys sets adj]. eapply kernel_alter; [exact HK|exact Hx|done| |..].
  - rewrite Eh. replace (holders ps - hold x + hold x) with (holders ps) by lia.
    pose proof (ko_sets _ _ HK) as Hs. cbn [k_sets] in *. rewrite Hs. by rewrite insert_insert_eq.
  - rewrite Eh. pose proof (ko_cap _ _ HK). lia.
  - intros pid'. case_decide as E; [|done]. subst.
    pose proof (ko_adj _ _ HK pid) as Ha. cbn [k_adj] in Ha. by rewrite Ha, Hx, Ea.
Qed.

(** The end of a process gives back what it holds. *)
Lemma exit_ok k ps pid x : kernel_ok k ps → ps !! pid = Some x →
  kernel_ok (exit_undo pid k) (alter (λ x, (x.1, PZombie)) pid ps).
Proof.
  intros HK Hx. pose proof cap_range. pose proof (ko_cap _ _ HK). pose proof (total_nonneg hold ps hold_nonneg).
  pose proof (hold_nonneg x). assert (hold x ≤ holders ps) as Hle.
  { pose proof (total_alter hold (λ _, (Zero, PExit)) ps pid x Hx) as E. simpl in E.
    pose proof (total_nonneg hold (alter (λ _, (Zero, PExit)) pid ps) hold_nonneg). lia. }
  assert (hold (x.1, PZombie) = 0) as Ez by by destruct x as [[] []].
  unfold exit_undo. rewrite (adj_of_none k ps pid x HK Hx).
  set (k1 := Kern _ _ _).
  assert (∀ v, undo (id, 0%nat) v k1 = Kern (k_keys k) (<[id := [Z.max 0 (Z.min SEMVMX (cap - holders ps + v))]]> (k_sets k)) (delete pid (k_adj k))) as Hu.
  { intros v. unfold undo, k1, set_val. cbn [k_sets k_keys k_adj fst snd].
    change 0%nat with (Z.to_nat (u16 0)) at 1. rewrite (lookup_sem k ps HK). f_equal.
    rewrite (ko_sets _ _ HK). apply map_eq. intros j. destruct (decide (j = id)) as [->|].
    + rewrite lookup_alter_eq, !lookup_insert_eq. done.
    + by rewrite lookup_alter_ne, !lookup_insert_ne by done. }
  assert (∀ pid', delete pid (k_adj k) !! pid' = if decide (pid' = pid) then adj_for (x.1, PZombie) else k_adj k !! pid') as Hd.
  { intros pid'. case_decide as E; [subst; rewrite lookup_delete_eq; by destruct x as [[] []]|by rewrite lookup_delete_ne]. }
  assert (adj_for x = Some {[ (id, 0%nat) := hold x ]} ∨ adj_for x = None ∧ hold x = 0) as [-> | [-> E0]].
  { destruct x as [[] []]; simpl; auto. }
  - simpl. rewrite map_fold_singleton, Hu. eapply kernel_alter; [exact HK|exact Hx|done| |lia|exact Hd].
    f_equal. f_equal. unfold SEMVMX. lia.
  - simpl. rewrite map_fold_empty. eapply kernel_alter; [exact HK|exact Hx|done| |lia|exact Hd].
    rewrite E0, Ez. replace (holders ps - 0 + 0) with (holders ps) by lia.
    rewrite (ko_sets _ _ HK). by rewrite insert_insert_eq.
Qed.
(** ** The programs *)
Abbreviation loops := (if wfz then n_child + 1 else n_child).

(** The processes are those that were forked, the children [0 .. i - 1]. *)
Definition who (i : Z) (ps : list (role * pc)) : Prop :=
  ∃ z, (z = [] ∨ wfz = true ∧ z = [Zero]) ∧ ps.*1 = z ++ (Child <$> seqZ 0 i).
Definition role_ok (x : role * pc) : Prop := match x with (Zero, PIn) | (Zero, PPost) => False | _ => True end.

Definition main_ok (m : mpc) (ps : list (role * pc)) : Prop :=
  match m with
  | MGet => False
  | MForkZ => wfz = true ∧ ps = []
  | MFork i => 0 ≤ i ≤ n_child ∧ who i ps ∧ reaped ps = 0
  | MReap i => 0 ≤ i ≤ loops ∧ who n_child ps ∧ reaped ps = Z.min i (Z.of_nat (length ps))
  | MRm => who n_child ps ∧ reaped ps = Z.of_nat (length ps)
  | MDone st => st = 1 ∧ Z.of_nat (length ps) ≤ loops
  end.
Record running (s : state) : Prop := {
  rn_id : sem_id s = id;
  rn_kernel : kernel_ok (krn s) (procs s);
  rn_roles : Forall role_ok (procs s);
  rn_zero : wfz = false → Forall (λ x, x.1 ≠ Zero) (procs s);
  rn_main : main_ok (mpc_ s) (procs s)
}.
Record finished (s : state) : Prop := {
  fi_main : mpc_ s = MDone 0;
  fi_kernel : krn s = k0;
  fi_who : who n_child (procs s);
  fi_reaped : reaped (procs s) = Z.of_nat (length (procs s))
}.
Definition good (s : state) : Prop := s = start k0 ∨ running s ∨ finished s.

Lemma alter_fst p k (ps : list (role * pc)) : (alter (λ x, (x.1, p)) k ps).*1 = ps.*1.
Proof.
  apply list_eq. intros i. rewrite !list_lookup_fmap. destruct (decide (i = k)) as [->|].
  - rewrite list_lookup_alter_eq. by destruct (ps !! k).
  - by rewrite list_lookup_alter_ne.
Qed.
Lemma alter_forall (P : role * pc → Prop) g k ps x :
  Forall P ps → ps !! k = Some x → P (g x) → Forall P (alter g k ps).
Proof.
  intros Hps Hx Hg. apply Forall_lookup_2. intros i y Hy. destruct (decide (i = k)) as [->|].
  - rewrite list_lookup_alter_eq, Hx in Hy. by injection Hy as <-.
  - rewrite list_lookup_alter_ne in Hy by done. by eapply Forall_lookup_1.
Qed.
Lemma reap_nonneg x : 0 ≤ reap x.
Proof. unfold reap. case_decide; lia. Qed.

(** How far a process is from its end. *)
Definition pw (p : pc) : Z :=
  match p with PWait => 4 | PIn => 3 | PPost => 2 | PExit => 1 | PZombie | PReaped => 0 end.
Definition mw (m : mpc) : Z :=
  match m with
  | MGet => 5 * n_child + loops + 9
  | MForkZ => 5 * n_child + loops + 8
  | MFork i => 5 * (n_child - i) + loops + 3
  | MReap i => loops - i + 2
  | MRm => 1
  | MDone _ => 0
  end.
Definition measure (s : state) : Z := mw (mpc_ s) + total (λ x, pw x.2) (procs s).

Lemma role_weaken x p : role_ok x → p ≠ PIn → p ≠ PPost → role_ok (x.1, p).
Proof. destruct x as [[] ?], p; done. Qed.

(** A step of a child. *)
Lemma proc_step s pid s' : running s → exec wfz a n_child (RunP pid) s = Some s' →
  running s' ∧ measure s' < measure s.
Proof.
  intros [Hid HK Hr Hz Hm] He. cbn [exec] in He. destruct (procs s !! pid) as [[r p]|] eqn:Ex; [|done].
  pose proof (Forall_lookup_1 _ _ _ _ Hr Ex) as Hrx.
  assert (∀ k' p', kernel_ok k' (alter (λ x, (x.1, p')) pid (procs s)) → role_ok (r, p') →
    pw p' < pw p → p ≠ PReaped → p' ≠ PReaped → running (goto_p pid p' (set_krn k' s)) ∧
    measure (goto_p pid p' (set_krn k' s)) < measure s) as Hgo.
  { intros k' p' HK' Hr' Hw Hp Hp'.
    assert (reaped (alter (λ x, (x.1, p')) pid (procs s)) = reaped (procs s)) as Ereap.
    { rewrite (total_alter _ _ _ _ _ Ex). unfold reap. simpl. rewrite !decide_False by done. lia. }
    split; [|unfold measure; simpl; rewrite (total_alter _ _ _ _ _ Ex); simpl; lia].
    split; simpl; [done|done|by eapply alter_forall|intros Hw'; eapply alter_forall; [by apply Hz|done|]|].
    { exact (Forall_lookup_1 _ _ _ _ (Hz Hw') Ex). }
    unfold main_ok, who in *. destruct (mpc_ s); rewrite ?alter_fst, ?Ereap, ?length_alter; try done.
    destruct Hm as [? Hm]. rewrite Hm in Ex. done. }
  destruct r as [i|], p; try done; simpl in He.
  - pose proof (semwait_ok (krn s) (procs s) pid i HK Ex) as Hw. rewrite Hid in He. case_decide as Hc.
    + destruct Hw as (k' & E & HK'). rewrite E in He. simpl in He. injection He as <-. by apply Hgo.
    + by rewrite Hw in He.
  - destruct (i =? 2); injection He as <-.
    + apply (Hgo _ PZombie); try done. by eapply exit_ok.
    + rewrite <-(set_krn_id s) at 1 2. apply Hgo; try done.
      eapply kernel_move; try done.
  - destruct (sempost_ok (krn s) (procs s) pid i HK Ex) as (k' & E & HK'). rewrite Hid, E in He. simpl in He.
    injection He as <-. by apply Hgo.
  - injection He as <-. apply (Hgo _ PZombie); try done. by eapply exit_ok.
  - pose proof (semzwait_ok (krn s) (procs s) pid HK Ex) as Hw. rewrite Hid in He. case_decide as Hc.
    + destruct Hw as (E & HK'). rewrite E in He. simpl in He. injection He as <-. by apply Hgo.
    + by rewrite Hw in He.
  - injection He as <-. apply (Hgo _ PZombie); try done. by eapply exit_ok.
Qed.
Lemma semget_ok : ∃ k, sysv_semget a None MY_KEY 1 cap k0 = (id, k) ∧ kernel_ok k [].
Proof using HC.
  destruct HC as [Hkey Hnew Hid Hset _ Hmal Hadj]. unfold sysv_semget, semget_excl. rewrite Hkey, Hnew.
  change (0 <? 1) with true. cbv iota beta. rewrite (proj2 (Z.eqb_neq id (-1)) Hid), Hmal. cbn [andb negb].
  unfold semctl_setall. cbn [k_sets]. rewrite lookup_insert_eq.
  assert (forallb (λ v, v <=? SEMVMX) (replicate (Z.to_nat 1) (u16 cap)) = true) as ->.
  { unfold sem_value. by destruct wfz. }
  change (0 =? -1) with false. eexists. split; [done|]. unfold forget_adj. split; simpl; [done| |intros pid|].
  - rewrite insert_insert_eq. f_equal. unfold sem_value. by destruct wfz.
  - rewrite lookup_fmap, Hadj. done.
  - pose proof cap_range. lia.
Qed.

Lemma all_reaped_adj ps pid x : reaped ps = Z.of_nat (length ps) → ps !! pid = Some x → x.2 = PReaped.
Proof.
  intros Hr%reaped_all Hx. destruct (decide (x.2 = PReaped)) as [|Hn]; [done|]. exfalso.
  assert (existsb unreaped ps = true) as E; [|congruence].
  apply existsb_exists. exists x. split; [by apply list_elem_of_In, (list_elem_of_lookup_2 _ pid)|].
  unfold unreaped. by rewrite bool_decide_false.
Qed.
Lemma all_reaped_holders ps : reaped ps = Z.of_nat (length ps) → holders ps = 0.
Proof.
  intros Hr. pose proof (total_nonneg hold ps hold_nonneg). destruct (decide (holders ps = 0)); [done|].
  destruct (total_pos hold ps hold_nonneg) as (k & x & Hx & Hp); [lia|].
  pose proof (all_reaped_adj _ _ _ Hr Hx). by destruct x as [[] []].
Qed.

(** Removing the set when all children have ended leaves the kernel as it was. *)
Lemma semrm_ok k ps : kernel_ok k ps → reaped ps = Z.of_nat (length ps) → sysv_semrm id k = (0, k0).
Proof using HC.
  destruct HC as [Hkey _ _ Hset Hkeys _ Hadj]. intros [Ek Es Ea _] Hr. unfold sysv_semrm, semctl_rmid.
  rewrite Es, lookup_insert_eq. unfold forget_adj. cbn [k_keys k_sets k_adj].
  destruct k0 as [keys0 sets0 adj0]. cbn [k_keys k_sets k_adj] in *. f_equal. f_equal.
  - rewrite Ek. apply map_eq. intros j. rewrite map_lookup_filter. destruct (decide (j = MY_KEY)) as [->|].
    + rewrite lookup_insert_eq. simpl. rewrite option_guard_False by naive_solver. by rewrite Hkey.
    + rewrite lookup_insert_ne by done. destruct (keys0 !! j) as [x|] eqn:E; [|done]. simpl.
      rewrite option_guard_True; [done|]. intros Hx. simpl in Hx. apply (Hkeys j). congruence.
  - by apply delete_insert_id.
  - rewrite Hadj. apply map_eq. intros pid. rewrite lookup_fmap, Ea, lookup_empty.
    destruct (ps !! pid) as [x|] eqn:Ex; [|done]. pose proof (all_reaped_adj _ _ _ Hr Ex).
    by destruct x as [[] []].
Qed.

Context (Hn : 0 ≤ n_child).

Lemma who_app i ps : 0 ≤ i → who i ps → who (i + 1) (ps ++ [(Child i, PWait)]).
Proof.
  intros Hi (z & Hz & E). exists z. split; [done|]. rewrite fmap_app, E.
  rewrite (seqZ_app 0 i 1) by lia. rewrite fmap_app, Z.add_0_l. by rewrite (assoc_L (++)).
Qed.
Lemma who_length i ps : 0 ≤ i → who i ps → i ≤ Z.of_nat (length ps) ≤ i + (loops - n_child).
Proof.
  intros Hi (z & Hz & E). apply (f_equal length) in E.
  rewrite length_fmap, length_app, length_fmap, length_seqZ in E.
  destruct Hz as [->|[-> ->]]; simpl in E; [|lia]. destruct wfz; lia.
Qed.

Lemma add_running s m r : sem_id s = id → kernel_ok (krn s) (procs s) → Forall role_ok (procs s) →
  (wfz = false → Forall (λ x, x.1 ≠ Zero) (procs s)) → (wfz = false → r ≠ Zero) →
  main_ok m (procs s ++ [(r, PWait)]) → running (goto_m m (add_proc r s)).
Proof.
  intros Hid HK Hr Hz Hrz Hm. assert (hold (r, PWait) = 0) as Eh by by destruct r.
  split; simpl; [done| |apply Forall_app_2; [done|constructor; [by destruct r|constructor]]| |done].
  2:{ intros Hw. apply Forall_app_2; [by apply Hz|]. constructor; [by apply Hrz|constructor]. }
  destruct HK as [Hk Hs Ha Hc]. split.
  - done.
  - rewrite total_app. cbn [total]. rewrite Eh. by rewrite !Z.add_0_r.
  - intros pid. rewrite Ha. destruct (decide (pid < length (procs s))%nat).
    + by rewrite lookup_app_l.
    + rewrite lookup_ge_None_2 by lia. destruct (decide (pid = length (procs s))) as [->|].
      * rewrite list_lookup_middle by done. by destruct r.
      * rewrite lookup_ge_None_2; [done|]. rewrite length_app. simpl. lia.
  - rewrite total_app. cbn [total]. lia.
Qed.

Ltac msr := unfold measure, mw; cbn [mpc_ procs goto_m goto_p add_proc set_krn start total pw snd fst].

(** A step of the parent. *)
Lemma main_step s f w s' : good s → main wfz a n_child f w s = Some s' → good s' ∧ measure s' < measure s.
Proof using All.
  intros [-> | [[Hid HK Hr Hzero Hm]|[Em _ _ _]]] He.
  - unfold main in He. cbn [start mpc_ krn procs] in He.
    destruct semget_ok as (k & E & HK). rewrite E in He. injection He as <-. split.
    + right. left. split; simpl; [done|done|constructor|constructor|]. destruct wfz eqn:Ew; simpl; [by split|].
      split; [lia|]. split; [|done]. exists []. split; [by left|done].
    + msr. destruct wfz; simpl total; lia.
  - unfold main in He. destruct (mpc_ s) as [| |i|i| |st] eqn:Em; simpl in Hm; try done.
    + destruct Hm as [Hw Hp]. injection He as <-. destruct f.
      * split; [right; left; apply add_running; try done; [congruence|]|].
        -- rewrite Hp. simpl. split; [lia|]. split; [|done]. exists [Zero]. split; [by right|done].
        -- msr; rewrite Em; msr. rewrite Hp. cbn [app total pw snd]. lia.
      * split; [right; left; split; simpl; try done|msr; rewrite Em; msr; lia].
        rewrite Hp. split; [lia|]. split; [|done]. exists []. split; [by left|done].
    + destruct Hm as (Hi & Hwho & Hre). destruct (Z.ltb_spec i n_child).
      * destruct f; injection He as <-.
        -- split; [right; left; apply add_running; try done|].
           ++ simpl. split; [lia|]. split; [apply who_app; [lia|done]|]. rewrite total_app, Hre. done.
           ++ msr; rewrite Em; msr. rewrite total_app. cbn [total pw snd]. lia.
        -- pose proof (who_length i (procs s) ltac:(lia) Hwho).
           split; [right; left; split; simpl; try done; split; [done|lia]|]. msr; rewrite Em; msr. destruct wfz; lia.
      * injection He as <-. assert (i = n_child) as -> by lia.
        split; [right; left; split; simpl; try done|msr; rewrite Em; msr; lia].
        pose proof (total_nonneg reap (procs s) reap_nonneg). split; [destruct wfz; lia|]. split; [done|lia].
    + destruct Hm as (Hi & Hwho & Hre). pose proof (who_length n_child (procs s) Hn Hwho) as Hlen.
      destruct (Z.ltb_spec i loops).
      * destruct (existsb unreaped (procs s)) eqn:Eu.
        -- case_decide as Hz; [|done]. injection He as <-.
           destruct (procs s !! w) as [[r p]|] eqn:Ex; simpl in Hz; [|done]. injection Hz as ->.
           assert (reaped (procs s) ≠ Z.of_nat (length (procs s))) as Hne by (rewrite reaped_all; congruence).
           split; [right; left; split; simpl; try done|].
           ++ eapply kernel_move; try done; by destruct r.
           ++ eapply alter_forall; [done..|]. by destruct r.
           ++ intros Hw. eapply alter_forall; [by apply Hzero|done|]. exact (Forall_lookup_1 _ _ _ _ (Hzero Hw) Ex).
           ++ split; [lia|]. unfold who. rewrite alter_fst, length_alter. split; [done|].
              rewrite (total_alter _ _ _ _ _ Ex), Hre. unfold reap. simpl. lia.
           ++ msr; rewrite Em; msr. rewrite (total_alter _ _ _ _ _ Ex). cbn [pw snd]. lia.
        -- injection He as <-. apply reaped_all in Eu.
           split; [right; left; split; simpl; try done|msr; rewrite Em; msr; lia].
           split; [lia|]. split; [done|]. lia.
      * injection He as <-. split; [right; left; split; simpl; try done|msr; rewrite Em; msr; lia].
        split; [done|]. lia.
    + destruct Hm as [Hwho Hre]. rewrite Hid, (semrm_ok _ _ HK Hre) in He. injection He as <-.
      split; [right; right; by split|]. msr; rewrite Em; msr. lia.
  - unfold main in He. by rewrite Em in He.
Qed.

Lemma good_step s s' : good s → step wfz a n_child s s' → good s' ∧ measure s' < measure s.
Proof using All.
  intros Hg [[f w|pid] He]; [by eapply main_step|]. destruct Hg as [-> | [Hr|[_ _ _ Hre]]].
  - done.
  - destruct (proc_step _ _ _ Hr He). split; [by right; left|done].
  - cbn [exec] in He. destruct (procs s !! pid) as [[r p]|] eqn:Ex; [|done].
    pose proof (all_reaped_adj _ _ _ Hre Ex) as Hp. simpl in Hp. subst. by destruct r.
Qed.
Lemma good_reach s : rtc (step wfz a n_child) (start k0) s → good s.
Proof using All.
  intros Hr. remember (start k0) as s0 eqn:E. assert (good s0) as Hg by by left. clear E.
  induction Hr as [|s1 s2 s3 Hs _ IH]; [done|]. apply IH. by destruct (good_step _ _ Hg Hs).
Qed.

Lemma measure_nonneg s : good s → 0 ≤ measure s.
Proof using Hn.
  intros Hg. unfold measure. assert (0 ≤ total (λ x, pw x.2) (procs s)).
  { apply total_nonneg. intros [r []]; simpl; lia. }
  assert (0 ≤ mw (mpc_ s)); [|lia]. destruct Hg as [-> | [[_ _ _ Hm]|[-> _ _ _]]]; [simpl; destruct wfz; lia| |done].
  destruct (mpc_ s); simpl in *; try lia; destruct wfz; lia.
Qed.
(** Every run ends. *)
Lemma good_sn s : good s → sn (step wfz a n_child) s.
Proof using All.
  intros Hg. remember (Z.to_nat (measure s)) as m eqn:Em. revert s Hg Em.
  induction (lt_wf m) as [m _ IH]. intros s Hg ->. constructor. intros s' Hs.
  destruct (good_step s s' Hg Hs) as [Hg' Hlt]. pose proof (measure_nonneg s' Hg').
  eapply IH; [|done|done]. lia.
Qed.
(** ** Progress *)
Definition ended (x : role * pc) : bool := bool_decide (x.2 = PZombie) || bool_decide (x.2 = PReaped).

(** Without a child that waits for zero, some child can go on until all have
    ended. *)
Lemma child_progress s : wfz = false → running s →
  existsb (λ x, negb (ended x)) (procs s) = true → ∃ pid s', exec wfz a n_child (RunP pid) s = Some s'.
Proof.
  intros Hw [Hid HK _ Hz _] He. specialize (Hz Hw).
  destruct (decide (holders (procs s) = 0)) as [E0|Hh].
  - apply existsb_exists in He as (x & Hx%list_elem_of_In & Hend). apply list_elem_of_lookup in Hx as [pid Hx].
    destruct x as [[i|] p]; [|by destruct (Forall_lookup_1 _ _ _ _ Hz Hx)]. exists pid. cbn [exec]. rewrite Hx.
    destruct p; simpl; try done.
    + pose proof (semwait_ok (krn s) (procs s) pid i HK Hx) as Hs. pose proof cap_range.
      rewrite decide_True in Hs by lia. destruct Hs as (k' & E & _). rewrite Hid, E. by eexists.
    + by destruct (i =? 2); eexists.
    + destruct (sempost_ok (krn s) (procs s) pid i HK Hx) as (k' & E & _). rewrite Hid, E. by eexists.
    + by eexists.
  - pose proof (total_nonneg hold (procs s) hold_nonneg).
    destruct (total_pos hold (procs s) hold_nonneg) as (pid & x & Hx & Hp); [lia|]. exists pid. cbn [exec]. rewrite Hx.
    destruct x as [[i|] []]; simpl in *; try lia.
    + by destruct (i =? 2); eexists.
    + destruct (sempost_ok (krn s) (procs s) pid i HK Hx) as (k' & E & _). rewrite Hid, E. by eexists.
Qed.

End proofs.

Lemma ended_holders ps : Forall (λ x, ended x = true) ps → holders ps = 0.
Proof. induction 1 as [|x ps Hx _ IH]; [done|]. simpl. rewrite IH. by destruct x as [[] []]. Qed.

(** ** The properties *)

(** C25. Mutual exclusion.  In every state that either program reaches, from a
    kernel in which its semaphore can be made, at most [sem_value] children are in
    the critical section, which is one in [sysv_sem], and the semaphore is what
    they leave of it; even though children with index 2 abort there. *)
Theorem critical_section wfz a n_child k0 id v0 s :
  can_make a k0 id v0 → 0 ≤ n_child → rtc (step wfz a n_child) (start k0) s →
  holders (procs s) ≤ sem_value wfz ∧
  (∀ v, k_sets (krn s) !! id = Some v → v = [sem_value wfz - holders (procs s)]).
Proof.
  intros HC Hn Hr. pose proof (cap_range wfz).
  destruct (good_reach wfz a n_child k0 id v0 HC Hn s Hr) as [-> | [[_ [_ Hs _ Hc] _ _ _]|[_ Hk _ Hre]]].
  - simpl. split; [lia|]. intros v Hv. by rewrite (cm_set _ _ _ _ HC) in Hv.
  - split; [done|]. intros v. rewrite Hs, lookup_insert_eq. congruence.
  - rewrite (all_reaped_holders _ Hre). split; [lia|]. intros v. by rewrite Hk, (cm_set _ _ _ _ HC).
Qed.

(** C28. [sysv_sem] completes.  Every run is finite, and cannot stop before the
    parent has ended: with status 0, when all children [0 .. n - 1] have ended and
    been waited for and the kernel is exactly as it was before; or with status 1
    after a [fork] that failed, when the children have ended and the semaphore
    stays behind, free. *)
Theorem sysv_sem_completes a n_child k0 id v0 :
  can_make a k0 id v0 → 0 ≤ n_child →
  sn (step false a n_child) (start k0) ∧
  ∀ s, rtc (step false a n_child) (start k0) s → nf (step false a n_child) s →
    (mpc_ s = MDone 0 ∧ krn s = k0 ∧ procs s = (λ i, (Child i, PReaped)) <$> seqZ 0 n_child) ∨
    (mpc_ s = MDone 1 ∧ Forall (λ x, ended x = true) (procs s) ∧ k_sets (krn s) !! id = Some [1]).
Proof.
  intros HC Hn. split; [by eapply good_sn; [..|left]|]. intros s Hr Hnf.
  pose proof (good_reach false a n_child k0 id v0 HC Hn s Hr) as Hg.
  assert (∀ l, exec false a n_child l s = None) as Hno.
  { intros l. destruct (exec false a n_child l s) as [s'|] eqn:E; [|done]. destruct Hnf. exists s'. by exists l. }
  destruct Hg as [-> | [Hrun|[Em Hk Hwho Hre]]].
  - exfalso. destruct (semget_ok false a k0 id v0 HC) as (k & E & _).
    specialize (Hno (RunM true 0)). cbn [exec] in Hno. unfold main in Hno. cbn [start mpc_ krn] in Hno. by rewrite E in Hno.
  - destruct (existsb (λ x, negb (ended x)) (procs s)) eqn:Ee.
    { exfalso. destruct (child_progress false a n_child k0 id s eq_refl Hrun Ee) as (pid & s' & E).
      by rewrite Hno in E. }
    assert (Forall (λ x, ended x = true) (procs s)) as Hend.
    { apply Forall_forall. intros x Hx. destruct (ended x) eqn:E; [done|]. exfalso.
      assert (existsb (λ x, negb (ended x)) (procs s) = true); [|congruence].
      apply existsb_exists. exists x. by rewrite <-list_elem_of_In, E. }
    pose proof (rn_main _ _ _ _ _ Hrun) as Hm. pose proof (Hno (RunM true 0)) as Hno0.
    cbn [exec] in Hno0. unfold main in Hno0. destruct (mpc_ s) as [| |i|i| |st] eqn:Em; simpl in Hm; try done.
    + by destruct (i <? n_child).
    + exfalso. destruct (i <? n_child) eqn:Ei; [|done].
      destruct (existsb unreaped (procs s)) eqn:Eu; [|done].
      pose proof Eu as (x & Hx%list_elem_of_In & Hu)%existsb_exists. pose proof (proj1 (Forall_forall _ _) Hend x Hx) as Hex.
      apply list_elem_of_lookup in Hx as [w Hx].
      assert (x.2 = PZombie) as Hz by (unfold ended, unreaped in *; destruct x as [r []]; done).
      specialize (Hno (RunM true w)). cbn [exec] in Hno. unfold main in Hno.
      rewrite Em, Ei, Eu, decide_True in Hno; [done|]. rewrite Hx. simpl. by f_equal.
    + by destruct (sysv_semrm (sem_id s) (krn s)).
    + right. destruct Hm as [-> _]. split; [done|]. split; [done|].
      rewrite (ko_sets _ _ _ _ _ (rn_kernel _ _ _ _ _ Hrun)), lookup_insert_eq, (ended_holders _ Hend). done.
  - left. split; [done|]. split; [done|]. destruct Hwho as (z & [-> | [? _]] & E); [|done].
    apply list_eq. intros i. rewrite list_lookup_fmap. simpl in E.
    pose proof (f_equal (lookup i) E) as Ei. rewrite !list_lookup_fmap in Ei.
    destruct (procs s !! i) as [x|] eqn:Ex, (seqZ 0 n_child !! i) as [j|]; try done. simpl in *.
    pose proof (all_reaped_adj _ _ _ Hre Ex). destruct x as [r p]. simpl in *. congruence.
Qed.

Lemma zero_holders ps p : ps !! 0%nat = Some (Zero, p) → role_ok (Zero, p) → holders ps ≤ Z.of_nat (length ps) - 1.
Proof.
  intros H0 Hr. destruct ps as [|x ps]; [done|]. injection H0 as ->.
  assert (∀ qs, holders qs ≤ Z.of_nat (length qs)) as Hle.
  { intros qs. induction qs as [|[[] []] qs IH]; simpl; lia. }
  simpl total. pose proof (Hle ps). destruct p; simpl in *; lia.
Qed.

(** The child that waits for zero, if there is one, still waits. *)
Definition zero_waits (s : state) : Prop := ∀ p, procs s !! 0%nat = Some (Zero, p) → p = PWait.
Lemma zero_other r p pid s : zero_waits s → procs s !! pid = Some r → r.1 ≠ Zero →
  ∀ k, zero_waits (goto_p pid p (set_krn k s)).
Proof.
  intros Hz Hx Hr k q Hq. cbn in Hq. destruct (decide (pid = 0%nat)) as [->|].
  - rewrite list_lookup_alter_eq, Hx in Hq. simpl in Hq. congruence.
  - rewrite list_lookup_alter_ne in Hq by done. by apply Hz.
Qed.
Lemma zero_step a n_child k0 id v0 s s' : can_make a k0 id v0 → 0 ≤ n_child ≤ 1 →
  good true n_child k0 id s → zero_waits s → step true a n_child s s' → zero_waits s'.
Proof.
  intros HC Hn Hg Hz [[f w|pid] He]; cbn [exec] in He.
  - unfold main in He. destruct (mpc_ s) as [| |i|i| |st] eqn:Em.
    + destruct (sysv_semget _ _ _ _ _ _). by injection He as <-.
    + injection He as <-. destruct f; [|done]. intros q Hq. cbn in Hq.
      destruct Hg as [-> | [Hr|Hf]]; [done| |pose proof (fi_main _ _ _ _ Hf); congruence].
      pose proof (rn_main _ _ _ _ _ Hr) as Hm. rewrite Em in Hm. destruct Hm as [_ Hp]. rewrite Hp in Hq. simpl in Hq. congruence.
    + destruct (i <? n_child); [destruct f|]; injection He as <-; [|done|done]. intros q Hq. cbn in Hq.
      destruct (procs s) as [|x ps] eqn:Ep; simpl in Hq; [congruence|]. apply Hz. by rewrite Ep.
    + destruct (i <? n_child + 1); [|by injection He as <-]. destruct (existsb _ _); [|by injection He as <-].
      case_decide as Hw; [|done]. injection He as <-. intros q Hq. cbn in Hq.
      destruct (decide (w = 0%nat)) as [->|].
      * rewrite list_lookup_alter_eq in Hq. destruct (procs s !! 0%nat) as [[r p]|] eqn:Ex; [|done].
        simpl in *. injection Hq as -> <-. rewrite (Hz p Ex) in Hw. done.
      * rewrite list_lookup_alter_ne in Hq by done. by apply Hz.
    + destruct (sysv_semrm _ _). by injection He as <-.
    + done.
  - destruct (procs s !! pid) as [[[i|] p]|] eqn:Ex; [| |done].
    + destruct p; simpl in He; try done.
      * destruct (sysv_semwait _ _ _ _) as [[r k]|]; [|done]. injection He as <-. by eapply zero_other.
      * destruct (i =? 2); injection He as <-; [by eapply (zero_other _ PZombie)|].
        rewrite <-(set_krn_id s). by eapply zero_other.
      * destruct (sysv_sempost _ _ _ _) as [[r k]|]; [|done]. injection He as <-. by eapply zero_other.
      * injection He as <-. by eapply (zero_other _ PZombie).
    + destruct (decide (pid = 0%nat)) as [->|Hpid].
      * pose proof (Hz p Ex) as ->. exfalso. destruct Hg as [-> | [Hr|Hf]]; [done| |].
        -- destruct Hr as [Hid HK Hro _ Hm]. simpl in He. rewrite Hid in He.
           pose proof (semzwait_ok true k0 id _ _ _ HK Ex) as Hs. rewrite decide_False in Hs.
           { by rewrite Hs in He. }
           pose proof (zero_holders _ _ Ex I) as Hh.
           assert (Z.of_nat (length (procs s)) ≤ n_child + 1); [|simpl; lia].
           destruct (mpc_ s) as [| |i|i| |st]; simpl in Hm; try done.
           ++ destruct Hm as [_ ->]. simpl. lia.
           ++ destruct Hm as (? & Hwho & _). pose proof (who_length true n_child i (procs s) ltac:(lia) Hwho). simpl in *. lia.
           ++ destruct Hm as (? & Hwho & _). pose proof (who_length true n_child n_child (procs s) ltac:(lia) Hwho). simpl in *. lia.
           ++ destruct Hm as (Hwho & _). pose proof (who_length true n_child n_child (procs s) ltac:(lia) Hwho). simpl in *. lia.
           ++ lia.
        -- pose proof (all_reaped_adj _ _ _ (fi_reaped _ _ _ _ Hf) Ex). done.
      * intros q Hq. destruct p; simpl in He; try done.
        -- destruct (sysv_semzwait _ _ _ _) as [[r k]|]; [|done]. injection He as <-. cbn in Hq.
           rewrite list_lookup_alter_ne in Hq by done. by apply Hz.
        -- injection He as <-. cbn in Hq. rewrite list_lookup_alter_ne in Hq by done. by apply Hz.
Qed.

(** The child that waits for zero: with at most one other child the semaphore,
    which starts at 2, is never zero; the child never goes on, and the parent,
    which waits for it, never removes the semaphore and never succeeds, although
    every run is finite. *)
Theorem zero_waits_forever a n_child k0 id v0 s p :
  can_make a k0 id v0 → 0 ≤ n_child ≤ 1 → rtc (step true a n_child) (start k0) s →
  procs s !! 0%nat = Some (Zero, p) →
  p = PWait ∧ mpc_ s ≠ MRm ∧ mpc_ s ≠ MDone 0 ∧ sn (step true a n_child) s.
Proof.
  intros HC Hn Hr Hp. assert (0 ≤ n_child) as Hn0 by lia.
  assert (good true n_child k0 id s ∧ zero_waits s) as [Hg Hz].
  { remember (start k0) as s0 eqn:E. assert (good true n_child k0 id s0 ∧ zero_waits s0) as Hs0.
    { subst. split; [by left|done]. }
    clear E Hp. induction Hr as [|s1 s2 s3 Hs _ IH]; [done|]. destruct Hs0 as [Hg1 Hz1]. apply IH. split.
    - eapply (good_step true a n_child k0 id v0); try done; by destruct Hs.
    - by eapply zero_step. }
  pose proof (Hz _ Hp) as ->. split; [done|].
  assert (reaped (procs s) ≠ Z.of_nat (length (procs s))) as Hre.
  { intros Hre. pose proof (all_reaped_adj _ _ _ Hre Hp). done. }
  split_and!; [| |by eapply good_sn].
  - intros Em. destruct Hg as [-> | [Hrun|Hf]]; [done| |pose proof (fi_main _ _ _ _ Hf); congruence].
    pose proof (rn_main _ _ _ _ _ Hrun) as Hm. rewrite Em in Hm. by destruct Hm.
  - intros Em. destruct Hg as [-> | [Hrun|Hf]]; [done| |by apply Hre, (fi_reaped _ _ _ _ Hf)].
    pose proof (rn_main _ _ _ _ _ Hrun) as Hm. rewrite Em in Hm. by destruct Hm.
Qed.

(** When the semaphore cannot be made, [main] goes on with the id -1: every
    operation on it fails, which no child notices, and all children can be in the
    critical section at once. *)
Theorem no_semaphore_no_exclusion a n_child k0 :
  k_keys k0 !! MY_KEY = None → semget_new a = None → k_sets k0 !! (-1) = None → 0 ≤ n_child →
  ∃ s, rtc (step false a n_child) (start k0) s ∧ procs s = (λ i, (Child i, PIn)) <$> seqZ 0 n_child.
Proof.
  intros Hk Ha Hs Hn.
  assert (∀ m : nat, Z.of_nat m ≤ n_child → rtc (step false a n_child) (start k0)
    (State k0 (-1) ((λ i, (Child i, PWait)) <$> seqZ 0 (Z.of_nat m)) (MFork (Z.of_nat m)))) as Hf.
  { induction m as [|m IH]; intros Hm.
    - apply rtc_once. exists (RunM true 0). cbn [exec]. unfold main, sysv_semget, semget_excl.
      cbn [start mpc_ krn procs]. by rewrite Hk, Ha.
    - eapply rtc_r; [apply IH; lia|]. exists (RunM true 0). cbn [exec]. unfold main. cbn [mpc_].
      rewrite (proj2 (Z.ltb_lt _ _)) by lia. unfold goto_m, add_proc. cbn. do 2 f_equal.
      + rewrite Nat2Z.inj_succ, <-Z.add_1_r, (seqZ_app 0 _ 1) by lia. by rewrite fmap_app.
      + f_equal. lia. }
  assert (∀ rs qs : list Z, rtc (step false a n_child)
    (State k0 (-1) (((λ i, (Child i, PIn)) <$> qs) ++ ((λ i, (Child i, PWait)) <$> rs)) (MFork n_child))
    (State k0 (-1) ((λ i, (Child i, PIn)) <$> qs ++ rs) (MFork n_child))) as He.
  { induction rs as [|r rs IH]; intros qs; [by rewrite !app_nil_r|].
    eapply rtc_l; [|replace (qs ++ r :: rs) with ((qs ++ [r]) ++ rs) by (by rewrite <-(assoc_L (++))); apply IH].
    exists (RunP (length qs)). cbn [exec procs].
    rewrite fmap_cons, list_lookup_middle by by rewrite length_fmap. cbn [handle_criticalsect].
    unfold sysv_semwait, wrap_semop, semop. cbn [sem_id krn]. rewrite Hs. cbn.
    unfold goto_p, set_krn. cbn. do 2 f_equal. rewrite fmap_app, <-(assoc_L (++)).
    rewrite alter_app_r_alt by by rewrite length_fmap. by rewrite length_fmap, Nat.sub_diag. }
  exists (State k0 (-1) ((λ i, (Child i, PIn)) <$> seqZ 0 n_child) (MFork n_child)). split; [|done].
  etrans; [apply (Hf (Z.to_nat n_child)); lia|]. rewrite Z2Nat.id by done. apply (He (seqZ 0 n_child) []).
Qed.

(** ** Concrete runs *)
Fixpoint run (wfz : bool) (a : answers) (n : Z) (ls : list label) (s : state) : option state :=
  match ls with [] => Some s | l :: ls => exec wfz a n l s ≫= run wfz a n ls end.
Lemma run_rtc wfz a n ls s s' : run wfz a n ls s = Some s' → rtc (step wfz a n) s s'.
Proof.
  revert s. induction ls as [|l ls IH]; intros s Hr; simpl in Hr; [by injection Hr as ->|].
  destruct (exec wfz a n l s) as [s1|] eqn:E; [|done]. eapply rtc_l; [by exists l|by apply IH].
Qed.

Definition ex_k : kern := Kern ∅ ∅ ∅.
Definition ex_a : answers := Answers (λ _, -1) (Some (7, [0])) true.
Lemma ex_can : can_make ex_a ex_k 7 0.
Proof. by split. Qed.

Definition forks (n : nat) : list label := replicate n (RunM true 0).
Definition visits (pid : nat) : list label := replicate 4 (RunP pid).
(** The parent forks three children, the last one enters and aborts, and the
    first one is in the critical section. *)
Definition ex_run : list label := forks 4 ++ [RunP 2; RunP 2; RunP 0].

Lemma critical_section_witness :
  ∃ s, rtc (step false ex_a 3) (start ex_k) s ∧ procs s = [(Child 0, PIn); (Child 1, PWait); (Child 2, PZombie)] ∧
    holders (procs s) ≤ 1 ∧ exec false ex_a 3 (RunP 1) s = None.
Proof.
  destruct (run false ex_a 3 ex_run (start ex_k)) as [s|] eqn:E; [|by vm_compute in E].
  pose proof (run_rtc _ _ _ _ _ _ E) as Hr. exists s. split; [done|].
  destruct (critical_section false ex_a 3 ex_k 7 0 s ex_can ltac:(lia) Hr) as [Hc _].
  vm_compute in E. injection E as <-. split; [done|]. split; [exact Hc|by vm_compute].
Defined.

Lemma sysv_sem_completes_witness :
  sn (step false ex_a 3) (start ex_k) ∧
  ∃ s, rtc (step false ex_a 3) (start ex_k) s ∧ mpc_ s = MDone 0 ∧ krn s = ex_k.
Proof.
  destruct (sysv_sem_completes ex_a 3 ex_k 7 0 ex_can ltac:(lia)) as [Hsn _]. split; [exact Hsn|].
  destruct (run false ex_a 3 (forks 5 ++ replicate 2 (RunP 2) ++ visits 0 ++ visits 1 ++
    [RunM true 1; RunM true 0; RunM true 2; RunM true 0; RunM true 0]) (start ex_k)) as [s|] eqn:E; [|by vm_compute in E].
  exists s. split; [by eapply run_rtc|]. vm_compute in E. injection E as <-. done.
Defined.

Lemma zero_waits_forever_witness :
  ∃ s, rtc (step true ex_a 1) (start ex_k) s ∧ mpc_ s = MReap 1 ∧ procs s = [(Zero, PWait); (Child 0, PReaped)] ∧
    mpc_ s ≠ MDone 0.
Proof.
  destruct (run true ex_a 1 (forks 4 ++ visits 1 ++ [RunM true 1]) (start ex_k)) as [s|] eqn:E; [|by vm_compute in E].
  pose proof (run_rtc _ _ _ _ _ _ E) as Hr. exists s. split; [done|].
  assert (mpc_ s = MReap 1 ∧ procs s = [(Zero, PWait); (Child 0, PReaped)]) as [Em Ep].
  { vm_compute in E. by injection E as <-. }
  split; [done|]. split; [done|].
  by destruct (zero_waits_forever ex_a 1 ex_k 7 0 s PWait ex_can ltac:(lia) Hr ltac:(by rewrite Ep)) as (_ & _ & ? & _).
Defined.

Lemma no_semaphore_no_exclusion_witness :
  ∃ s, rtc (step false (Answers (λ _, -1) None true) 2) (start ex_k) s ∧ procs s = [(Child 0, PIn); (Child 1, PIn)].
Proof.
  destruct (no_semaphore_no_exclusion (Answers (λ _, -1) None true) 2 ex_k) as (s & Hr & Ep); [done..|lia|].
  exists s. split; [exact Hr|]. by rewrite Ep.
Defined.
