(* ===== verification/EpollServer.v ===== *)
(** * Servers with [epoll] ([alsp/src/7.io_multiplexing/io_epoll.c], [io_epoll_trigger.c])

    Both programs accept connections and read from those that [epoll_wait]
    reports; they differ in how many bytes they ask [recv] for, and the second
    one, compiled with [ENABLE_EPOLLET], asks for edge-triggered events.  The code
    for out-of-band data is compiled out; messages, and the calls whose result is
    only printed, are not modelled.

    The kernel's side is modelled as it is documented: a connection has the bytes
    that arrived and were not read, and whether its peer has closed it.  A
    level-triggered descriptor is reported as long as there is something to read,
    an edge-triggered one once after something has arrived ([ready]).  Which of
    the calls fail, and the events that [epoll_wait] stores, are arguments.  The
    fields [c_sent] and [c_got] and the list [ended_] are auxiliary: they record
    what arrived and what was read, and the program does not read them. *)

From stdpp Require Import base gmap list relations.
From Stdlib Require Import ZArith Lia.
From S2P Require Import Prelude.

Local Open Scope Z_scope.

Definition EPOLLIN : Z := 0x1.
Definition EPOLLERR : Z := 0x8.
(** The number of elements of [ep_events]. *)
Definition N_EVENTS : nat := Z.to_nat 1024.
Definition DFL_OPEN_MAX_FILES : Z := 8192.
(** [max_open_files], from what [sysconf] returns. *)
Definition max_files (open_max : Z) : Z := Z.min open_max DFL_OPEN_MAX_FILES.

Record conn := Conn { inbuf : list Z; fin : bool; c_sent : list Z; c_got : list Z }.
Definition new_conn : conn := Conn [] false [] [].
#[export] Instance conn_eq_dec : EqDecision conn.
Proof. solve_decision. Defined.

(** The epoll instance (the descriptors in it, and those of which an edge is to
    be reported), the open connections and those that wait to be accepted, with
    the descriptor they will get. *)
Record world := World {
  interest : gset Z; ready : gset Z; conns : gmap Z conn; backlog : list (Z * conn); ended_ : list conn
}.
Definition with_interest i r w := World i r (conns w) (backlog w) (ended_ w).
Definition with_conns c w := World (interest w) (ready w) c (backlog w) (ended_ w).
Definition with_backlog b w := World (interest w) (ready w) (conns w) b (ended_ w).

Section server.
(** [ENABLE_EPOLLET]; the bytes asked for; the listener; the limit of events. *)
Context (edge : bool) (recv_len : nat) (fd_listener : Z) (max_open_files : nat).

(** There is something to read, or to accept. *)
Definition readable (w : world) (fd : Z) : Prop :=
  if decide (fd = fd_listener) then backlog w ≠ []
  else match conns w !! fd with Some c => inbuf c ≠ [] ∨ fin c = true | None => False end.
#[export] Instance readable_dec w fd : Decision (readable w fd).
Proof. unfold readable. destruct (decide _); [apply _|]. destruct (conns w !! fd); apply _. Defined.

(** An edge at [fd]. *)
Definition trigger (fd : Z) (w : world) : world :=
  if edge && bool_decide (fd ∈ interest w) then with_interest (interest w) ({[fd]} ∪ ready w) w else w.

(** The answers of a round: how many connections [accept] returns before it
    fails, of those that wait; whether [epoll_ctl] and [recv] succeed. *)
Record answers := Answers { accept_n : nat; ctl_ok : Z → bool; recv_ok : Z → bool }.

(** [epoll_ctl (efd, EPOLL_CTL_ADD, fd, &ev)]. *)
Definition add_ev (a : answers) (fd : Z) (w : world) : Z * world :=
  if ctl_ok a fd then
    let w := with_interest ({[fd]} ∪ interest w) (ready w) w in
    (0, if decide (readable w fd) then trigger fd w else w)
  else (-1, w).
(** [epoll_ctl (efd, EPOLL_CTL_DEL, fd, NULL)] and [close]. *)
Definition del_ev (a : answers) (fd : Z) (w : world) : Z * world :=
  if ctl_ok a fd then
    (0, World (interest w ∖ {[fd]}) (ready w ∖ {[fd]}) (delete fd (conns w)) (backlog w)
          (ended_ w ++ option_list (conns w !! fd)))
  else (-1, w).
(** The macros [ADD_EV] and [DEL_EV]. *)
Definition or_exit (r : Z * world) : res world := if r.1 =? -1 then Err (Exited 1) else Ok r.2.
Definition ADD_EV (a : answers) (fd : Z) (w : world) : res world := or_exit (add_ev a fd w).
Definition DEL_EV (a : answers) (fd : Z) (w : world) : res world := or_exit (del_ev a fd w).

(** [accept] until it fails. *)
Fixpoint accept_loop (a : answers) (n : nat) (w : world) : res world :=
  match n, backlog w with
  | S n, (fd, c) :: b =>
      w ← ADD_EV a fd (with_conns (<[fd := c]> (conns w)) (with_backlog b w));
      accept_loop a n w
  | _, _ => Ok w
  end.

(** [recv] and what follows.  Of a socket with nothing to read it blocks; of the
    listener, which is in no connection, it fails. *)
Definition recv_step (a : answers) (fd : Z) (w : world) : res world :=
  match conns w !! fd with
  | None => Ok w
  | Some c =>
      if negb (recv_ok a fd) then Ok w
      else
        match inbuf c with
        | [] => if fin c then DEL_EV a fd w else Err OutOfFuel
        | _ =>
            let data := take recv_len (inbuf c) in
            Ok (with_conns (<[fd := Conn (drop recv_len (inbuf c)) (fin c) (c_sent c) (c_got c ++ data)]> (conns w)) w)
        end
  end.

(** The body of the loop over the events.  With [ENABLE_EPOLLET] there is no
    [continue] after the loop that accepts. *)
Definition has (flag events : Z) : bool := negb (Z.land events flag =? 0).
Definition serve (a : answers) (ev : Z * Z) (w : world) : res world :=
  let '(fd, events) := ev in
  if has EPOLLIN events then
    if fd =? fd_listener then
      w ← accept_loop a (accept_n a) w;
      if edge then recv_step a fd w else Ok w
    else recv_step a fd w
  else if has EPOLLERR events then Ok w
  else Ok w.
Fixpoint serve_loop (a : answers) (evs : list (Z * Z)) (w : world) : res world :=
  match evs with [] => Ok w | ev :: evs => w ← serve a ev w; serve_loop a evs w end.

(** The descriptors with something to report. *)
Definition pending (w : world) : gset Z :=
  if edge then filter (readable w) (ready w) else filter (readable w) (interest w).
(** What [epoll_wait] may store: events of different descriptors of the instance,
    no more than it is asked for, with [EPOLLIN] exactly for those in [pending],
    all of which are stored if there is room. *)
Definition ev_ok (w : world) (ev : Z * Z) : Prop :=
  ev.1 ∈ interest w ∧ (has EPOLLIN ev.2 = true ↔ ev.1 ∈ pending w).
Definition events_ok (w : world) (evs : list (Z * Z)) : Prop :=
  NoDup evs.*1 ∧ (0 < length evs ≤ max_open_files)%nat ∧ Forall (ev_ok w) evs ∧
  ((length evs < max_open_files)%nat → pending w ⊆ list_to_set evs.*1).
#[export] Instance ev_ok_dec w ev : Decision (ev_ok w ev).
Proof. unfold ev_ok. apply _. Defined.
#[export] Instance events_ok_dec w evs : Decision (events_ok w evs).
Proof. unfold events_ok. apply _. Defined.

(** A round of the main loop; [None] where [epoll_wait] cannot store this.  The
    array of events has 1024 elements. *)
Definition round (a : answers) (evs : list (Z * Z)) (w : world) : option (res world) :=
  if decide (events_ok w evs) then
    Some (if decide (length evs ≤ N_EVENTS)%nat
          then serve_loop a evs (with_interest (interest w) (ready w ∖ list_to_set evs.*1) w)
          else Err BadAccess)
  else None.

(** What happens outside: a client connects and will get [fd]; bytes arrive; a
    peer closes its connection. *)
Inductive net : Set := Connect (fd : Z) | Data (fd : Z) (bytes : list Z) | Close (fd : Z).
Definition deliver (bytes : list Z) (close : bool) (c : conn) : conn :=
  Conn (inbuf c ++ bytes) (fin c || close) (c_sent c ++ bytes) (c_got c).
Definition arrive (fd : Z) (bytes : list Z) (close : bool) (w : world) : option world :=
  match conns w !! fd with
  | Some c =>
      if fin c then None
      else Some (trigger fd (with_conns (<[fd := deliver bytes close c]> (conns w)) w))
  | None =>
      match list_find (λ x, x.1 = fd ∧ fin x.2 = false) (backlog w) with
      | Some (i, x) => Some (with_backlog (<[i := (fd, deliver bytes close x.2)]> (backlog w)) w)
      | None => None
      end
  end.
Definition happens (n : net) (w : world) : option world :=
  match n with
  | Connect fd =>
      if decide (fd ∉ dom (conns w) ∧ fd ∉ (backlog w).*1 ∧ fd ≠ fd_listener ∧ fd ∉ interest w)
      then Some (trigger fd_listener (with_backlog (backlog w ++ [(fd, new_conn)]) w)) else None
  | Data fd bytes => if decide (bytes = []) then None else arrive fd bytes false w
  | Close fd => arrive fd [] true w
  end.

(** [main] until the loop; the results of [socket], [fcntl] and [bind], of
    [epoll_create] and of [calloc]. *)
Definition epoll_start (a : answers) (socket_ok fcntl_ok bind_ok epoll_ok calloc_ok : bool) : res world :=
  if negb socket_ok then Err (Exited 1)
  else if negb fcntl_ok then Err (Exited 1)
  else if negb bind_ok then Err (Exited 1)
  else if negb epoll_ok then Err (Exited 1)
  else if negb calloc_ok then Err (Exited 1)
  else ADD_EV a fd_listener (World ∅ ∅ ∅ [] []).

(** The program runs and the network goes on. *)
Inductive step (w : world) : res world → Prop :=
| step_round a evs r : round a evs w = Some r → step w r
| step_net n w' : happens n w = Some w' → step w (Ok w').
Inductive reach : res world → Prop :=
| reach_start a : reach (epoll_start a true true true true true)
| reach_step w r : reach (Ok w) → step w r → reach r.
End server.
