(* ===== verification/EpollServerProofs.v ===== *)
(** * Servers with [epoll]: correctness

    A server reads from every connection exactly what was sent, in order, closes
    it only when all has been read, and never blocks in [recv] ([good] is the
    invariant).  The level-triggered server reads everything; the edge-triggered
    one leaves what it did not read at the first report until more arrives. *)

From stdpp Require Import base gmap list relations.
From Stdlib Require Import ZArith Lia.
From S2P Require Import Prelude EpollServer.

Local Open Scope Z_scope.

Definition conn_ok (c : conn) : Prop := c_sent c = c_got c ++ inbuf c.

Section proofs.
Context (edge : bool) (recv_len : nat) (l : Z) (max : nat).

(** The epoll instance holds the listener and the open connections, a
    descriptor to be given is new, and no byte is lost. *)
Record good (w : world) : Prop := {
  g_interest : interest w = {[l]} ∪ dom (conns w);
  g_listener : l ∉ dom (conns w);
  g_backlog : NoDup (backlog w).*1;
  g_fresh : ∀ fd, fd ∈ (backlog w).*1 → fd ∉ interest w;
  g_conns : map_Forall (λ _, conn_ok) (conns w);
  g_waiting : Forall (λ x, c_got x.2 = [] ∧ conn_ok x.2) (backlog w);
  g_ended : Forall (λ c, fin c = true ∧ inbuf c = [] ∧ conn_ok c) (ended_ w);
}.

Lemma trigger_fields fd w :
  interest (trigger edge fd w) = interest w ∧ conns (trigger edge fd w) = conns w ∧
  backlog (trigger edge fd w) = backlog w ∧ ended_ (trigger edge fd w) = ended_ w.
Proof. unfold trigger. by destruct (_ && _). Qed.
Lemma trigger_ready fd fd' w : fd' ∈ ready (trigger edge fd w) → fd' = fd ∨ fd' ∈ ready w.
Proof. unfold trigger. destruct (_ && _); simpl; set_solver. Qed.

(** Which edges are to be reported does not matter for [good]. *)
Lemma good_ready w w' :
  interest w' = interest w → conns w' = conns w → backlog w' = backlog w → ended_ w' = ended_ w →
  good w → good w'.
Proof. destruct w, w'. simpl. intros -> -> -> -> []. by constructor. Qed.
Lemma good_trigger fd w : good w → good (trigger edge fd w).
Proof. destruct (trigger_fields fd w) as (?&?&?&?). by apply good_ready. Qed.

(** ** Accepting *)
Lemma add_ev_ok a fd w : ctl_ok a fd = true → ∃ w', ADD_EV edge l a fd w = Ok w' ∧
  interest w' = {[fd]} ∪ interest w ∧ conns w' = conns w ∧ backlog w' = backlog w ∧ ended_ w' = ended_ w ∧
  ready w' ⊆ {[fd]} ∪ ready w.
Proof.
  intros E. unfold ADD_EV, or_exit, add_ev. rewrite E. cbn [fst snd Z.eqb]. eexists. split; [done|].
  case_decide; [|set_solver].
  destruct (trigger_fields fd (with_interest ({[fd]} ∪ interest w) (ready w) w)) as (-> & -> & -> & ->).
  split_and!; [done..|]. intros fd' [->|?]%trigger_ready; set_solver.
Qed.
Lemma add_ev_err a fd w : ctl_ok a fd = false → ADD_EV edge l a fd w = Err (Exited 1).
Proof. intros E. unfold ADD_EV, or_exit, add_ev. by rewrite E. Qed.

(** What a round keeps of the state [w]: the open connections but [fd]'s, and
    the edges of other descriptors. *)
Lemma accept_step a fd c b w w' :
  good w → backlog w = (fd, c) :: b →
  ADD_EV edge l a fd (with_conns (<[fd := c]> (conns w)) (with_backlog b w)) = Ok w' →
  good w' ∧ backlog w' = b ∧ conns w' = <[fd := c]> (conns w) ∧ conns w !! fd = None ∧ fd ≠ l ∧
  ready w' ⊆ {[fd]} ∪ ready w.
Proof.
  intros [Hi Hl Hb Hf Hc Hw He] Eb. destruct (ctl_ok a fd) eqn:E; [|by rewrite add_ev_err].
  destruct (add_ev_ok a fd (with_conns (<[fd := c]> (conns w)) (with_backlog b w)) E)
    as (x & Ex & Ei & Ec & Ebl & Een & Er). rewrite Ex. intros [= <-]. simpl in *.
  rewrite Eb in Hb, Hw, Hf. cbn in Hb, Hf. apply NoDup_cons in Hb as [Hn Hb].
  apply Forall_cons in Hw as [[Hg Hok] Hw].
  pose proof (Hf fd ltac:(set_solver)) as Hfd. rewrite Hi in Hfd.
  split_and!; try done; [|apply not_elem_of_dom; set_solver|set_solver].
  constructor; rewrite ?Ei, ?Ec, ?Ebl, ?Een; try done.
  - rewrite dom_insert_L, Hi. set_solver.
  - rewrite dom_insert_L. set_solver.
  - intros fd' Hin. pose proof (Hf fd' ltac:(set_solver)). set_solver.
  - by apply map_Forall_insert_2.
Qed.

Lemma accept_loop_ok a n w : good w →
  accept_loop edge l a n w = Err (Exited 1) ∨
  ∃ w', accept_loop edge l a n w = Ok w' ∧ good w' ∧ conns w ⊆ conns w' ∧
        (∀ fd, fd ∈ dom (conns w) → fd ∈ ready w' → fd ∈ ready w).
Proof.
  revert w. induction n as [|n IH]; intros w Hg; simpl; [right; by exists w|].
  destruct (backlog w) as [|[fd c] b] eqn:Eb; [right; by exists w|].
  destruct (ctl_ok a fd) eqn:E; [|left; by rewrite add_ev_err].
  destruct (add_ev_ok a fd (with_conns (<[fd := c]> (conns w)) (with_backlog b w)) E) as (x & Ex & _).
  destruct (accept_step a fd c b w x Hg Eb Ex) as (Hx & _ & Ec & Hn & _ & Hr). rewrite Ex. cbn [mbind res_bind].
  destruct (IH x Hx) as [->|(w' & -> & Hg' & Hs & Hre)]; [by left|right; exists w'; split_and!; try done].
  - etrans; [|done]. rewrite Ec. by apply insert_subseteq.
  - intros fd' Hin Hr'. specialize (Hre fd'). rewrite Ec, dom_insert_L in Hre.
    specialize (Hre ltac:(set_solver) Hr'). apply elem_of_dom in Hin as [? Hin].
    assert (fd' ≠ fd) by congruence. set_solver.
Qed.

(** ** Receiving *)
Lemma recv_step_ok a fd w : good w → (conns w !! fd = None ∨ readable l w fd) →
  recv_step recv_len a fd w = Err (Exited 1) ∨
  ∃ w', recv_step recv_len a fd w = Ok w' ∧ good w' ∧ backlog w' = backlog w ∧
        (∀ fd', fd' ≠ fd → conns w' !! fd' = conns w !! fd') ∧ ready w' ⊆ ready w.
Proof.
  intros Hg Hr. pose proof Hg as [Hi Hl Hb Hf Hc Hw He]. unfold recv_step.
  destruct (conns w !! fd) as [c|] eqn:E; [|right; by exists w].
  assert (fd ≠ l) as Hne by (intros ->; by apply not_elem_of_dom in Hl; rewrite E in Hl).
  destruct Hr as [?|Hr]; [done|]. unfold readable in Hr. rewrite decide_False, E in Hr by done.
  destruct (recv_ok a fd); simpl; [|right; by exists w].
  pose proof (map_Forall_lookup_1 _ _ _ _ Hc E) as Hok. unfold conn_ok in Hok.
  assert (fd ∈ dom (conns w)) as Hd by by apply elem_of_dom.
  destruct (inbuf c) as [|z zs] eqn:Ei.
  - destruct Hr as [?|Hfin]; [done|]. rewrite Hfin. unfold DEL_EV, or_exit, del_ev.
    destruct (ctl_ok a fd); [|by left]. right. cbn. eexists. split; [done|]. rewrite E.
    split_and!; try done; [|intros; simpl; by rewrite lookup_delete_ne|simpl; set_solver].
    constructor; simpl; try done.
    + rewrite dom_delete_L, Hi. set_solver.
    + set_solver.
    + set_solver.
    + by apply map_Forall_delete.
    + apply Forall_app. split; [done|]. apply Forall_cons; split; [|done]. split_and!; try done.
      unfold conn_ok. by rewrite Ei.
  - right. eexists. split; [done|]. split_and!; try done; [|intros; simpl; by rewrite lookup_insert_ne].
    constructor; simpl; try done.
    + rewrite dom_insert_L, Hi. set_solver.
    + rewrite dom_insert_L. set_solver.
    + apply map_Forall_insert_2; [|done]. unfold conn_ok. simpl. by rewrite Hok, <-app_assoc, take_drop.
Qed.

(** ** A round *)
(** Serving one descriptor keeps what there is to read at another, and does
    nothing when nothing was reported. *)
Lemma serve_ok a ev w : good w → (has EPOLLIN ev.2 = true → readable l w ev.1) →
  serve edge recv_len l a ev w = Err (Exited 1) ∨
  ∃ w', serve edge recv_len l a ev w = Ok w' ∧ good w' ∧
        (∀ fd, fd ≠ ev.1 → readable l w fd → readable l w' fd) ∧
        (∀ fd, fd ∈ dom (conns w) → fd ∈ ready w' → fd ∈ ready w) ∧
        (∀ fd, fd ∈ dom (conns w) → fd ≠ ev.1 ∨ has EPOLLIN ev.2 = false → conns w' !! fd = conns w !! fd).
Proof.
  intros Hg Hr. destruct ev as [fd e]. simpl in *. destruct (has EPOLLIN e); [specialize (Hr eq_refl)|clear Hr].
  2: { right. exists w. by destruct (has _ _). }
  destruct (Z.eqb_spec fd l) as [->|Hne].
  - destruct (accept_loop_ok a (accept_n a) w Hg) as [->|(x & -> & Hx & Hs & Hre)]; [by left|].
    right. exists x. split_and!; try done.
    + cbn [mbind res_bind]. destruct edge; [|done]. unfold recv_step.
      by rewrite (proj1 (not_elem_of_dom _ _) (g_listener _ Hx)).
    + intros fd Hn. unfold readable. rewrite !decide_False by done.
      destruct (conns w !! fd) eqn:E; [|done]. by rewrite (lookup_weaken _ _ _ _ E Hs).
    + intros fd [c E]%elem_of_dom _. by rewrite E, (lookup_weaken _ _ _ _ E Hs).
  - destruct (recv_step_ok a fd w Hg (or_intror Hr)) as [->|(x & -> & Hx & Hb & Hc & Hre)]; [by left|].
    right. exists x. split_and!; try done.
    + intros fd' Hn. unfold readable. by rewrite Hb, Hc.
    + intros fd' _. apply Hre.
    + intros fd' _ [Hn|?]; [by apply Hc|done].
Qed.

Definition served_in (w : world) (ev : Z * Z) : Prop := has EPOLLIN ev.2 = true → readable l w ev.1.

Lemma serve_loop_ok a evs w : good w → NoDup evs.*1 → Forall (served_in w) evs →
  serve_loop edge recv_len l a evs w = Err (Exited 1) ∨
  ∃ w', serve_loop edge recv_len l a evs w = Ok w' ∧ good w' ∧
        ∀ fd, fd ∈ dom (conns w) → (∀ ev, ev ∈ evs → ev.1 = fd → has EPOLLIN ev.2 = false) →
          conns w' !! fd = conns w !! fd ∧ (fd ∈ ready w' → fd ∈ ready w).
Proof.
  revert w. induction evs as [|ev evs IH]; intros w Hg Hnd Hev; cbn [serve_loop]; [right; by exists w|].
  cbn in Hnd. apply NoDup_cons in Hnd as [Hn Hnd]. apply Forall_cons in Hev as [H1 Hev].
  destruct (serve_ok a ev w Hg H1) as [->|(x & -> & Hx & Hrd & Hre & Hc)]; [by left|]. cbn [mbind res_bind].
  assert (Forall (served_in x) evs) as Hevx.
  { apply Forall_forall. intros ev' Hin Ht. apply Hrd; [|exact (proj1 (Forall_forall _ _) Hev _ Hin Ht)].
    intros E. apply Hn. rewrite <-E. by apply list_elem_of_fmap_2. }
  destruct (IH x Hx Hnd Hevx) as [->|(w' & -> & Hg' & Hk)]; [by left|]. right. exists w'. split_and!; try done.
  intros fd Hd Hno. assert (conns x !! fd = conns w !! fd) as E.
  { apply Hc; [done|]. destruct (decide (fd = ev.1)) as [->|]; [right|by left]. apply Hno; [left|done]. }
  destruct (Hk fd) as [Hk1 Hk2].
  - apply elem_of_dom. rewrite E. by apply elem_of_dom.
  - intros ev' Hin. apply Hno. by right.
  - rewrite Hk1. split; [done|]. intros Hr. apply Hre; auto.
Qed.

Lemma pending_readable w fd : fd ∈ pending edge l w → readable l w fd.
Proof. unfold pending. destruct edge; set_solver. Qed.

(** [with_interest] does not change what is readable, and keeps [good]. *)
Lemma round_ok a evs w r : good w → round edge recv_len l max a evs w = Some r →
  r = Err (Exited 1) ∨ (r = Err BadAccess ∧ (N_EVENTS < max)%nat) ∨
  ∃ w', r = Ok w' ∧ good w' ∧
        (edge = true → ∀ fd, fd ∈ dom (conns w) → fd ∉ ready w →
           conns w' !! fd = conns w !! fd ∧ fd ∉ ready w').
Proof.
  intros Hg. unfold round. case_decide as He; [|done]. destruct He as (Hnd & Hlen & Hev & _).
  case_decide as Hn; intros [= <-]; [|right; left; split; [done|lia]].
  set (x := with_interest _ _ w).
  assert (good x) as Hx by by apply (good_ready w).
  assert (Forall (served_in x) evs) as Hs.
  { eapply Forall_impl; [exact Hev|]. intros ev [_ H] Ht. change (readable l w ev.1). by apply pending_readable, H. }
  destruct (serve_loop_ok a evs x Hx Hnd Hs) as [->|(w' & -> & Hg' & Hk)]; [by left|].
  right. right. exists w'. split_and!; try done. intros Hedge fd Hd Hr. destruct (Hk fd Hd) as [Hk1 Hk2].
  - intros ev Hin <-. pose proof (proj1 (Forall_forall _ _) Hev _ Hin) as [_ H].
    destruct (has EPOLLIN ev.2); [|done]. exfalso. apply Hr.
    destruct H as [H _]. specialize (H eq_refl). unfold pending in H. rewrite Hedge in H. set_solver.
  - split; [done|]. intros Hw. specialize (Hk2 Hw). simpl in Hk2. set_solver.
Qed.

(** ** The network *)
Definition about (n : net) : Z := match n with Connect fd | Data fd _ | Close fd => fd end.

Lemma deliver_ok bytes close c : conn_ok c → conn_ok (deliver bytes close c).
Proof. unfold conn_ok. simpl. intros ->. by rewrite app_assoc. Qed.

Lemma arrive_ok fd bytes close w w' : good w → arrive edge fd bytes close w = Some w' →
  good w' ∧ (∀ fd', fd' ≠ fd → conns w' !! fd' = conns w !! fd' ∧ (fd' ∈ ready w' → fd' ∈ ready w)).
Proof.
  intros Hg. pose proof Hg as [Hi Hl Hb Hf Hc Hw He]. unfold arrive. destruct (conns w !! fd) as [c|] eqn:E.
  - destruct (fin c); [done|]. intros [= <-]. split.
    + apply good_trigger. constructor; simpl; try done.
      * rewrite dom_insert_lookup_L; [done|]. by eexists.
      * rewrite dom_insert_lookup_L; [done|]. by eexists.
      * apply map_Forall_insert_2; [|done]. apply deliver_ok, (map_Forall_lookup_1 _ _ _ _ Hc E).
    + intros fd' Hn. destruct (trigger_fields fd (with_conns (<[fd:=deliver bytes close c]> (conns w)) w)) as (_ & -> & _).
      simpl. rewrite lookup_insert_ne by done. split; [done|]. intros [->|?]%trigger_ready; done.
  - destruct (list_find _ _) as [[i x]|] eqn:El; [|done]. intros [= <-].
    apply list_find_Some in El as (Ex & [Hx Hfin] & _). destruct x as [fdx c]. simpl in *. subst fdx.
    split; [|done]. pose proof (Forall_lookup_1 _ _ _ _ Hw Ex) as [Hgot Hok].
    assert ((<[i:=(fd, deliver bytes close c)]> (backlog w)).*1 = (backlog w).*1) as Efst.
    { rewrite list_fmap_insert. apply list_insert_id. by rewrite list_lookup_fmap, Ex. }
    constructor; simpl; try done.
    + by rewrite Efst.
    + by rewrite Efst.
    + apply Forall_insert; [done|]. split; [done|by apply deliver_ok].
Qed.

Lemma happens_ok n w w' : good w → happens edge l n w = Some w' →
  good w' ∧ (∀ fd, fd ≠ about n → fd ∈ dom (conns w) →
    conns w' !! fd = conns w !! fd ∧ (fd ∈ ready w' → fd ∈ ready w)).
Proof.
  intros Hg. destruct n as [fd|fd bytes|fd]; cbn [happens about].
  - case_decide as Hd; [|done]. intros [= <-]. destruct Hd as (Hd & Hbl & Hne & Hin).
    pose proof Hg as [Hi Hl Hb Hf Hc Hw He]. split.
    + apply good_trigger. constructor; simpl; try done.
      * rewrite fmap_app. apply NoDup_app. split_and!; [done| |apply NoDup_singleton]. set_solver.
      * intros fd'. rewrite fmap_app. intros [?| ->%list_elem_of_singleton]%elem_of_app; [by apply Hf|done].
      * apply Forall_app. split; [done|]. by apply Forall_singleton.
    + intros fd' Hn Hd'. destruct (trigger_fields l (with_backlog (backlog w ++ [(fd, new_conn)]) w)) as (_ & -> & _).
      split; [done|]. intros [->|?]%trigger_ready; done.
  - case_decide; [done|]. intros Ha. apply (arrive_ok fd bytes false) in Ha as [??]; [|done]. auto.
  - intros Ha. apply (arrive_ok fd [] true) in Ha as [??]; [|done]. auto.
Qed.

(** What holds of every outcome. *)
Definition outcome_ok (r : res world) : Prop :=
  match r with Ok w => good w | Err e => e = Exited 1 ∨ (e = BadAccess ∧ (N_EVENTS < max)%nat) end.

Lemma epoll_start_ok a : outcome_ok (epoll_start edge l a true true true true true).
Proof.
  unfold epoll_start. cbn [negb]. destruct (ctl_ok a l) eqn:E; [|rewrite add_ev_err by done; by left].
  destruct (add_ev_ok a l (World ∅ ∅ ∅ [] []) E) as (w & -> & Ei & Ec & Eb & Ee & _). simpl in *.
  constructor; rewrite ?Ei, ?Ec, ?Eb, ?Ee; try done.
  - apply NoDup_nil_2.
  - set_solver.
Qed.

Lemma reach_ok r : reach edge recv_len l max r → outcome_ok r.
Proof.
  induction 1 as [a|w r Hr IH Hs]; [apply epoll_start_ok|]. destruct Hs as [a evs r Hrd|n w' Hn].
  - destruct (round_ok a evs w r IH Hrd) as [->|[[-> ?]|(w' & -> & Hg & _)]]; simpl; auto.
  - by destruct (happens_ok n w w' IH Hn).
Qed.
End proofs.

(** ** The level-triggered server: what is left to do *)
Definition weight (m : gmap Z conn) : nat := sum_list_with (λ x, S (length (inbuf x.2))) (map_to_list m).
Definition left_over (w : world) : nat :=
  sum_list_with (λ x, S (S (length (inbuf x.2)))) (backlog w) + weight (conns w).

Lemma weight_insert m fd c : m !! fd = None → weight (<[fd := c]> m) = (S (length (inbuf c)) + weight m)%nat.
Proof. intros H. unfold weight. by rewrite map_to_list_insert. Qed.
Lemma weight_delete m fd c : m !! fd = Some c → weight m = (S (length (inbuf c)) + weight (delete fd m))%nat.
Proof. intros H. unfold weight. by rewrite <-(map_to_list_delete m fd c). Qed.
Lemma weight_update m fd c c' : m !! fd = Some c →
  (weight (<[fd := c']> m) + length (inbuf c) = weight m + length (inbuf c'))%nat.
Proof.
  intros H. rewrite <-insert_delete_eq, weight_insert by apply lookup_delete_eq.
  rewrite (weight_delete m fd c H). lia.
Qed.

(** Every call succeeds, and [accept] at least once. *)
Definition all_ok (a : answers) : Prop :=
  (0 < accept_n a)%nat ∧ (∀ fd, ctl_ok a fd = true) ∧ (∀ fd, recv_ok a fd = true).

Section level.
Context (recv_len : nat) (l : Z) (max : nat) (Hlen : (0 < recv_len)%nat).

Lemma accept_loop_left a n w w' : all_ok a → good l w → accept_loop false l a n w = Ok w' →
  (left_over w' ≤ left_over w)%nat ∧ ((0 < n)%nat → backlog w ≠ [] → (left_over w' < left_over w)%nat).
Proof.
  intros (_ & Ha & _). revert w. induction n as [|n IH]; intros w Hg; simpl; [intros [= <-]; lia|].
  destruct (backlog w) as [|[fd c] b] eqn:Eb; [intros [= <-]; done|].
  destruct (ADD_EV _ _ _ _ _) as [x|] eqn:Ex; [|done]. cbn [mbind res_bind]. intros Hw.
  destruct (accept_step false l a fd c b w x Hg Eb Ex) as (Hx & Ebx & Ec & Hn & _).
  destruct (IH x Hx Hw) as [Hle _].
  enough (S (left_over x) = left_over w) by lia.
  unfold left_over. rewrite Eb, Ebx, Ec, weight_insert by done. simpl. lia.
Qed.

Lemma recv_step_left a fd w w' : all_ok a → is_Some (conns w !! fd) →
  recv_step recv_len a fd w = Ok w' → (left_over w' < left_over w)%nat.
Proof using Hlen.
  intros (_ & Ha & Hr) [c E]. unfold recv_step. rewrite E, Hr. cbn [negb].
  destruct (inbuf c) as [|z zs] eqn:Ei.
  - destruct (fin c); [|done]. unfold DEL_EV, or_exit, del_ev. rewrite Ha. intros [= <-].
    unfold left_over. simpl. rewrite (weight_delete _ _ _ E). lia.
  - intros [= <-]. unfold left_over. cbn [backlog conns with_conns].
    pose proof (weight_update (conns w) fd c
      (Conn (drop recv_len (z :: zs)) (fin c) (c_sent c) (c_got c ++ take recv_len (z :: zs))) E) as H.
    cbn [inbuf] in H. rewrite Ei, length_drop in H. cbn [length] in H. lia.
Qed.

Lemma serve_left a ev w w' : all_ok a → good l w → has EPOLLIN ev.2 = true → readable l w ev.1 →
  serve false recv_len l a ev w = Ok w' → (left_over w' < left_over w)%nat.
Proof using Hlen.
  intros Ha Hg. destruct ev as [fd e]. simpl. intros -> Hr. unfold readable in Hr.
  destruct (Z.eqb_spec fd l) as [->|Hn].
  - rewrite decide_True in Hr by done. destruct (accept_loop _ _ _ _ _) as [x|] eqn:Ex; [|done]. intros [= <-].
    apply (accept_loop_left a (accept_n a) w x Ha Hg Ex); [apply Ha|done].
  - rewrite decide_False in Hr by done. apply recv_step_left; [done|].
    by destruct (conns w !! fd).
Qed.

Lemma serve_loop_left a evs w w' : all_ok a → good l w → NoDup evs.*1 →
  Forall (λ ev, has EPOLLIN ev.2 = true ∧ readable l w ev.1) evs →
  serve_loop false recv_len l a evs w = Ok w' → (left_over w' + length evs ≤ left_over w)%nat.
Proof using Hlen.
  intros Ha. revert w. induction evs as [|ev evs IH]; intros w Hg Hnd Hev; cbn [serve_loop length];
    [intros [= <-]; lia|].
  cbn in Hnd. apply NoDup_cons in Hnd as [Hn Hnd]. apply Forall_cons in Hev as [[Hin Hrd] Hev].
  destruct (serve _ _ _ _ _ _) as [x|] eqn:Ex; [|done]. cbn [mbind res_bind]. intros Hw.
  destruct (serve_ok false recv_len l a ev w Hg (λ _, Hrd)) as [E|(x' & E & Hx & Hk & _)]; [congruence|].
  assert (x' = x) as -> by congruence.
  pose proof (serve_left a ev w x Ha Hg Hin Hrd Ex).
  enough (left_over w' + length evs ≤ left_over x)%nat by lia.
  apply IH; [done|done| |done]. apply Forall_forall. intros ev' Hev'.
  destruct (proj1 (Forall_forall _ _) Hev _ Hev') as [? Hr']. split; [done|]. apply Hk; [|done].
  intros E'. apply Hn. rewrite <-E'. by apply list_elem_of_fmap_2.
Qed.

Lemma serve_no_exit a ev w : all_ok a → serve false recv_len l a ev w ≠ Err (Exited 1).
Proof.
  intros (_ & Ha & Hr). destruct ev as [fd e]. simpl. destruct (has EPOLLIN e); [|by destruct (has _ _)].
  destruct (fd =? l).
  - generalize (accept_n a) as n. intros n. revert w. induction n as [|n IH]; intros w; [done|]. simpl.
    destruct (backlog w) as [|[fd' c] b]; [done|].
    destruct (add_ev_ok false l a fd' (with_conns (<[fd' := c]> (conns w)) (with_backlog b w)) (Ha fd')) as (x & -> & _).
    apply IH.
  - unfold recv_step. destruct (conns w !! fd) as [c|]; [|done]. rewrite Hr. simpl.
    destruct (inbuf c); [|done]. destruct (fin c); [|done]. unfold DEL_EV, or_exit, del_ev. by rewrite Ha.
Qed.
Lemma serve_loop_no_exit a evs w : all_ok a → serve_loop false recv_len l a evs w ≠ Err (Exited 1).
Proof using Type.
  intros Ha. revert w. induction evs as [|ev evs IH]; intros w; cbn [serve_loop]; [done|].
  pose proof (serve_no_exit a ev w Ha). destruct (serve _ _ _ _ _ _); [apply IH|done].
Qed.

(** A round in which every call succeeds and every event is one to read. *)
Definition calm_round (w w' : world) : Prop :=
  ∃ a evs, all_ok a ∧ Forall (λ ev, has EPOLLIN ev.2 = true) evs ∧
           round false recv_len l max a evs w = Some (Ok w').

Lemma calm_round_ok w w' : good l w → calm_round w w' → good l w' ∧ (left_over w' < left_over w)%nat.
Proof using Hlen.
  intros Hg (a & evs & Ha & Hin & Hr).
  destruct (round_ok false recv_len l max a evs w _ Hg Hr) as [?|[[??]|(x & [= <-] & Hx & _)]]; [done..|].
  split; [done|]. unfold round in Hr. case_decide as He; [|done]. destruct He as (Hnd & [Hl0 _] & Hev & _).
  case_decide; [|done]. injection Hr as Hr.
  assert (left_over w' + length evs ≤ left_over (with_interest (interest w) (ready w ∖ list_to_set evs.*1) w))%nat
    as H'.
  { apply (serve_loop_left a evs); [done|by apply (good_ready l w)|done| |done].
    apply Forall_forall. intros ev Hi. pose proof (proj1 (Forall_forall _ _) Hin _ Hi) as Ht. split; [done|].
    change (readable l w ev.1). apply (pending_readable false).
    by apply (proj1 (Forall_forall _ _) Hev _ Hi). }
  change (left_over (with_interest _ _ w)) with (left_over w) in H'. lia.
Qed.

Lemma calm_rounds_good w w' : good l w → rtc calm_round w w' → good l w'.
Proof using Hlen. intros Hg. induction 1; [done|]. apply IHrtc. by eapply calm_round_ok. Qed.

Lemma calm_rounds_end w : good l w → sn calm_round w.
Proof using Hlen.
  remember (left_over w) as n eqn:En. revert w En. induction (lt_wf n) as [n _ IH]. intros w -> Hg.
  constructor. intros w' Hs. destruct (calm_round_ok w w' Hg Hs) as [Hg' Hlt]. by eapply IH.
Qed.

(** A round is possible as long as there is something to report. *)
Lemma calm_round_progress w : (0 < max ≤ N_EVENTS)%nat → good l w → pending false l w ≠ ∅ →
  ∃ w', calm_round w w'.
Proof.
  intros Hm Hg Hp. set (fds := take max (elements (pending false l w))).
  set (evs := (λ fd : Z, (fd, EPOLLIN)) <$> fds).
  set (a := Answers 1 (λ _, true) (λ _, true)).
  assert (all_ok a) as Ha by (split_and!; simpl; [lia|done|done]).
  assert (evs.*1 = fds) as Efst by (unfold evs; rewrite <-list_fmap_compose; apply list_fmap_id).
  assert (events_ok false l max w evs) as Hev.
  { unfold events_ok. rewrite Efst. unfold evs at 1 2 4. rewrite length_fmap. subst fds. rewrite length_take.
    assert (0 < length (elements (pending false l w)))%nat.
    { destruct (elements (pending false l w)) eqn:E; [by apply elements_empty_iff, leibniz_equiv in E|simpl; lia]. }
    split_and!; [apply (sublist_NoDup _ (elements (pending false l w))); [apply NoDup_elements|apply sublist_take]|lia|lia| |].
    - apply Forall_fmap, Forall_take, Forall_forall. intros fd Hin%elem_of_elements.
      split; [|done]. simpl. unfold pending in Hin. set_solver.
    - intros Hlt fd Hfd. rewrite take_ge by lia. set_solver. }
  assert (∃ r, round false recv_len l max a evs w = Some r) as [r Hr].
  { unfold round. rewrite decide_True by done. eauto. }
  destruct (round_ok false recv_len l max a evs w r Hg Hr) as [->|[[-> ?]|(w' & -> & _)]]; [|lia|].
  - exfalso. unfold round in Hr. case_decide; [|done]. case_decide; [|done]. injection Hr.
    by apply serve_loop_no_exit.
  - exists w', a, evs. split_and!; [done| |done].
    by apply Forall_fmap, Forall_true.
Qed.
End level.

(** ** The properties *)

(** C18. Nothing that is sent to an [epoll] server, with either kind of events and
    whatever calls fail, is lost, duplicated or reordered: in every state reached,
    what was read from an open connection followed by what still waits is what was
    sent, and of a connection that was closed all was read.  The only ways to stop
    are the exit when [epoll_ctl] fails and, where more events than the array
    has are asked for, an access behind it; it never blocks in [recv]. *)
Theorem served_streams edge recv_len l max r : reach edge recv_len l max r →
  match r with
  | Ok w =>
      (∀ fd c, conns w !! fd = Some c → c_sent c = c_got c ++ inbuf c) ∧
      (∀ fd c, (fd, c) ∈ backlog w → c_got c = [] ∧ c_sent c = inbuf c) ∧
      (∀ c, c ∈ ended_ w → fin c = true ∧ c_sent c = c_got c)
  | Err e => e = Exited 1 ∨ (e = BadAccess ∧ (N_EVENTS < max)%nat)
  end.
Proof.
  intros Hr%reach_ok. destruct r as [w|e]; [|done]. destruct Hr as [_ _ _ _ Hc Hw He]. split_and!.
  - intros fd c E. exact (map_Forall_lookup_1 _ _ _ _ Hc E).
  - intros fd c Hin. destruct (proj1 (Forall_forall _ _) Hw _ Hin) as [Hg Hok]. split; [done|].
    by rewrite Hok, Hg.
  - intros c Hin. destruct (proj1 (Forall_forall _ _) He _ Hin) as (Hf & Hi & Hok). split; [done|].
    by rewrite Hok, Hi, app_nil_r.
Qed.

(** C29. The level-triggered server serves everything: from any state it reaches,
    without new arrivals and with calls that succeed, it can only make finitely
    many rounds, and as long as one is possible not everything is done: at the end
    no client waits to be accepted, all that was sent has been read, and all
    connections that their peers closed are closed. *)
Theorem level_serves_all recv_len l max w :
  (0 < recv_len)%nat → (0 < max ≤ N_EVENTS)%nat → reach false recv_len l max (Ok w) →
  sn (calm_round recv_len l max) w ∧
  ∀ w', rtc (calm_round recv_len l max) w w' → nf (calm_round recv_len l max) w' →
    backlog w' = [] ∧ ∀ fd c, conns w' !! fd = Some c → fin c = false ∧ c_got c = c_sent c.
Proof.
  intros Hlen Hm Hr%reach_ok. simpl in Hr. split; [by apply calm_rounds_end|]. intros w' Hs Hnf.
  pose proof (calm_rounds_good recv_len l max Hlen w w' Hr Hs) as Hg.
  assert (∀ fd, fd ∈ interest w' → ¬ readable l w' fd) as Hno.
  { intros fd Hin Hrd. destruct Hnf. apply calm_round_progress; [done..|]. unfold pending. set_solver. }
  destruct Hg as [Hi Hl _ _ Hc _ _]. split.
  - destruct (backlog w') eqn:E; [done|]. destruct (Hno l); [set_solver|]. unfold readable. by rewrite decide_True, E.
  - intros fd c E. assert (fd ∈ dom (conns w')) as Hd by by apply elem_of_dom.
    specialize (Hno fd ltac:(set_solver)). unfold readable in Hno. rewrite decide_False, E in Hno by congruence.
    pose proof (map_Forall_lookup_1 _ _ _ _ Hc E) as Hok. unfold conn_ok in Hok.
    destruct (inbuf c) eqn:Eb; [|destruct Hno; by left].
    rewrite Hok, app_nil_r. split; [|done]. destruct (fin c); [|done]. destruct Hno. by right.
Qed.

(** The edge-triggered server does not: once it has been told of a connection
    nothing more is read from it, whatever else happens and however many rounds it
    makes, until more arrives on it.  What [recv] left, which asks for two bytes,
    waits, and so does the end of the connection. *)
Theorem edge_strands recv_len l max w fd c w' :
  reach true recv_len l max (Ok w) → conns w !! fd = Some c → fd ∉ ready w →
  rtc (λ w w', (∃ a evs, round true recv_len l max a evs w = Some (Ok w')) ∨
               (∃ n, about n ≠ fd ∧ happens true l n w = Some w')) w w' →
  conns w' !! fd = Some c.
Proof.
  intros Hr%reach_ok. simpl in Hr. intros Hc Hn Hs. revert Hr Hc Hn.
  induction Hs as [w|w x w' Hs _ IH]; [done|]. intros Hg Hc Hn.
  assert (fd ∈ dom (conns w)) as Hd by by apply elem_of_dom. destruct Hs as [(a & evs & Hr)|(n & Ha & Hh)].
  - destruct (round_ok true recv_len l max a evs w _ Hg Hr) as [?|[[??]|(x' & [= <-] & Hx & Hk)]]; [done..|].
    destruct (Hk eq_refl fd Hd Hn) as [Ek Hk']. apply IH; [done|congruence|done].
  - destruct (happens_ok true l n w x Hg Hh) as [Hx Hk]. destruct (Hk fd (not_eq_sym Ha) Hd) as [Ek Hk'].
    apply IH; [done|congruence|auto].
Qed.

(** ** Concrete runs *)
(** What the program and the network do, as a list. *)
Fixpoint run_all (edge : bool) (recv_len : nat) (l : Z) (max : nat) (acts : list (answers * list (Z * Z) + net))
    (r : res world) : option (res world) :=
  match acts, r with
  | [], _ => Some r
  | inl (a, evs) :: acts, Ok w => r ← round edge recv_len l max a evs w; run_all edge recv_len l max acts r
  | inr n :: acts, Ok w => w ← happens edge l n w; run_all edge recv_len l max acts (Ok w)
  | _, Err _ => None
  end.
Lemma run_all_reach edge recv_len l max acts r r' :
  reach edge recv_len l max r → run_all edge recv_len l max acts r = Some r' → reach edge recv_len l max r'.
Proof.
  revert r. induction acts as [|[[a evs]|n] acts IH]; intros r Hr; simpl; [by intros [= <-]|..];
    (destruct r as [w|]; [|done]).
  - destruct (round _ _ _ _ _ _ _) as [x|] eqn:E; [|done]. apply IH. eapply reach_step; [done|by eapply step_round].
  - destruct (happens _ _ _ _) as [x|] eqn:E; [|done]. apply IH. eapply reach_step; [done|by eapply step_net].
Qed.

Definition ex_ok : answers := Answers 20 (λ _, true) (λ _, true).
(** Two clients connect, one sends three bytes, which are read as far as they are
    asked for, and the other one leaves. *)
Definition ex_acts : list (answers * list (Z * Z) + net) :=
  [inr (Connect 4); inr (Connect 5); inl (ex_ok, [(3, EPOLLIN)]); inr (Data 4 [10; 11; 12]); inr (Close 5);
   inl (ex_ok, [(4, EPOLLIN); (5, EPOLLIN)])].
Definition ex_run (edge : bool) : option (res world) :=
  run_all edge 2 3 1024 ex_acts (epoll_start edge 3 ex_ok true true true true true).
Definition ex_world (edge : bool) : world :=
  match ex_run edge with Some (Ok w) => w | _ => World ∅ ∅ ∅ [] [] end.
Lemma ex_reach edge : reach edge 2 3 1024 (Ok (ex_world edge)).
Proof. eapply run_all_reach; [apply (reach_start _ _ _ _ ex_ok)|]. instantiate (1 := ex_acts). destruct edge; vm_compute; reflexivity. Qed.

Lemma served_streams_witness :
  conns (ex_world true) !! 4 = Some (Conn [12] false [10; 11; 12] [10; 11]) ∧
  ended_ (ex_world true) = [Conn [] true [] []] ∧
  (∀ fd c, conns (ex_world true) !! fd = Some c → c_sent c = c_got c ++ inbuf c).
Proof.
  split_and!; [vm_compute; reflexivity..|].
  exact (proj1 (served_streams true 2 3 1024 (Ok (ex_world true)) (ex_reach true))).
Defined.

Lemma level_serves_all_witness :
  inbuf <$> conns (ex_world false) !! 4 = Some [12] ∧
  ∀ w', rtc (calm_round 2 3 1024) (ex_world false) w' → nf (calm_round 2 3 1024) w' → backlog w' = [].
Proof.
  split; [vm_compute; reflexivity|]. intros w' Hs Hnf.
  exact (proj1 (proj2 (level_serves_all 2 3 1024 (ex_world false) ltac:(lia) ltac:(unfold N_EVENTS; lia)
    (ex_reach false)) w' Hs Hnf)).
Defined.

Lemma edge_strands_witness :
  ∀ w', rtc (λ w w', (∃ a evs, round true 2 3 1024 a evs w = Some (Ok w')) ∨
                     (∃ n, about n ≠ 4 ∧ happens true 3 n w = Some w')) (ex_world true) w' →
    conns w' !! 4 = Some (Conn [12] false [10; 11; 12] [10; 11]).
Proof.
  intros w'. apply (edge_strands 2 3 1024 (ex_world true) 4 (Conn [12] false [10; 11; 12] [10; 11]) w' (ex_reach true)).
  - vm_compute. reflexivity.
  - apply (bool_decide_unpack _). vm_compute. exact I.
Defined.
