(* ===== verification/EchoServer.v ===== *)
(** * Echo servers with a pool of processes ([alsp/src/6.io_interface/socket]:
      [in_stream_serv1.c], [in_stream_serv2.c], [in_stream_serv3.c],
      [un_stream_serv.c])

    A server forks [MAX_POOL] children that accept connections and send back what
    they receive.  The loop of a child, [start_child], is the same in the four
    programs (the third sleeps before [recv]); their [main] functions differ in how
    the listener is made.  The third program also starts a new child when one
    ends, and ends its children when it is told to end; that is the module
    [Prefork].

    A child makes one system call in a step; what the call answers is the label of
    the step.  A process that sends to a connection that was reset gets the signal
    [SIGPIPE] and ends ([Pipe]).  The fields [got] and [echoed] and the lists of
    past sessions are auxiliary: they record what was received and sent.  Printing
    and sleeping are not modelled. *)

From stdpp Require Import base gmap list relations.
From Stdlib Require Import ZArith Lia.
From S2P Require Import Prelude.

Local Open Scope Z_scope.

Definition MAX_POOL : nat := 3.
(** The size of [buf]. *)
Definition BUF_SIZE : nat := 40.

(** ** A child *)
Record session := Session { got : list Z; echoed : list Z }.
Definition add_got (d : list Z) (x : session) : session := Session (got x ++ d) (echoed x).
Definition add_echoed (d : list Z) (x : session) : session := Session (got x) (echoed x ++ d).

Inductive cpc : Set :=
| PAccept                              (* before [accept] *)
| PRecv (cfd : Z)                      (* before [recv] *)
| PSend (cfd : Z) (data : list Z)      (* before [send] *)
| PDead.                               (* ended by a signal *)

(** The open descriptors; the sessions that the client closed, and those that
    ended otherwise. *)
Record child := Child { fds : gmap Z session; ended : list session; dropped : list session; at_ : cpc }.
Definition new_child : child := Child ∅ [] [] PAccept.
Definition goto (p : cpc) (s : child) : child := Child (fds s) (ended s) (dropped s) p.
Definition upd (cfd : Z) (f : session → session) (s : child) : child :=
  Child (alter f cfd (fds s)) (ended s) (dropped s) (at_ s).
(** [close (cfd)]. *)
Definition close_ended (cfd : Z) (s : child) : child :=
  Child (delete cfd (fds s)) (ended s ++ option_list (fds s !! cfd)) (dropped s) (at_ s).
Definition close_dropped (cfd : Z) (s : child) : child :=
  Child (delete cfd (fds s)) (ended s) (dropped s ++ option_list (fds s !! cfd)) (at_ s).
(** The end of the process. *)
Definition die (s : child) : child :=
  Child ∅ (ended s) (dropped s ++ (map_to_list (fds s)).*2) PDead.

(** What a call answers. *)
Inductive answer : Set :=
| Accepted (cfd : Z) | Received (data : list Z) | Ended | Sent (n : nat)
| Interrupted                          (* -1, with [EINTR] *)
| Failed                               (* -1 otherwise *)
| Pipe.                                (* [SIGPIPE] *)

(** [start_child]; [None] where the call cannot answer this. *)
Definition start_child (a : answer) (s : child) : option child :=
  match at_ s, a with
  | PAccept, Accepted cfd =>
      if decide (0 ≤ cfd ∧ fds s !! cfd = None)
      then Some (goto (PRecv cfd) (Child (<[cfd := Session [] []]> (fds s)) (ended s) (dropped s) PAccept)) else None
  | PAccept, (Failed | Interrupted) => Some s
  | PRecv cfd, _ =>
      match fds s !! cfd, a with
      | None, Failed => Some (goto PAccept s)
      | Some _, Received data =>
          if decide (0 < length data ≤ BUF_SIZE)%nat then Some (goto (PSend cfd data) (upd cfd (add_got data) s)) else None
      | Some _, Ended => Some (goto PAccept (close_ended cfd s))
      | Some _, Interrupted => Some s
      | Some _, Failed => Some (goto PAccept s)
      | _, _ => None
      end
  | PSend cfd data, Sent n =>
      if decide (0 < n ≤ length data)%nat then Some (goto (PRecv cfd) (upd cfd (add_echoed (take n data)) s)) else None
  | PSend cfd data, (Failed | Interrupted) => Some (goto (PRecv cfd) (close_dropped cfd s))
  | PSend _ _, Pipe => Some (die s)
  | _, _ => None
  end.

(** ** The programs

    The loop of [main] that forks, from the results of [fork]; the parent then
    only waits for signals.  The list holds the children with their index. *)
Fixpoint fork_loop (oks : list bool) (i : nat) : list (nat * child) :=
  match oks with
  | [] => []
  | ok :: oks => (if ok : bool then [(i, new_child)] else []) ++ fork_loop oks (S i)
  end.
(** [main] of [in_stream_serv1.c], of [in_stream_serv2.c] and of
    [un_stream_serv.c]; [remove] answers [Some errno_is_ENOENT] when it fails. *)
Definition serv1_main (socket_ok bind_ok : bool) (oks : list bool) : res (list (nat * child)) :=
  if negb socket_ok then Err (Exited 1)
  else if negb bind_ok then Err (Exited 1)
  else Ok (fork_loop (take MAX_POOL oks) 0).
Definition serv2_main (socket_ok setsockopt_ok bind_ok : bool) (oks : list bool) : res (list (nat * child)) :=
  if negb socket_ok then Err (Exited 1)
  else if negb setsockopt_ok then Err (Exited 1)
  else if negb bind_ok then Err (Exited 1)
  else Ok (fork_loop (take MAX_POOL oks) 0).
Definition un_main (socket_ok : bool) (remove : option bool) (bind_ok : bool) (oks : list bool) : res (list (nat * child)) :=
  if negb socket_ok then Err (Exited 1)
  else if (match remove with Some enoent => negb enoent | None => false end) then Err (Exited 1)
  else if negb bind_ok then Err (Exited 1)
  else Ok (fork_loop (take MAX_POOL oks) 0).

(** The children run independently. *)
Definition pool_step (whole : answer → child → Prop) (s s' : list (nat * child)) : Prop :=
  ∃ k i c a c', s !! k = Some (i, c) ∧ whole a c ∧ start_child a c = Some c' ∧ s' = <[k := (i, c')]> s.

(** ** [in_stream_serv3.c]

    The server process with the signals it handles, at the grain of the calls
    and of the assignments to [proc_tab].  The handler of [SIGTERM] and [SIGINT]
    blocks nothing else.  The structure given for [SIGCHLD] is not initialised
    but for the handler: whether [SIGTERM] and [SIGINT] are blocked in it is an
    argument; its flags are taken to be 0.  A child is as if it had set its
    signals when it is forked. *)
Module Prefork.
Inductive status : Set := Running | Signalled | Zombie.
#[export] Instance status_eq_dec : EqDecision status.
Proof. solve_decision. Defined.
Inductive signal : Set := SIGTERM | SIGINT | SIGCHLD.
#[export] Instance signal_eq_dec : EqDecision signal.
Proof. solve_decision. Defined.

(** A running handler: [kill_child], for [SIGINT] or [SIGTERM], before index [i] of
    its loop; [restart_child]
    before [waitpid], before [fork], before the assignment. *)
Inductive frame : Set :=
| FKill (int : bool) (i : nat) | FWait | FFork (i : nat) | FSet (i : nat) (pid : Z).
#[export] Instance frame_eq_dec : EqDecision frame.
Proof. solve_decision. Defined.
Definition frame_signal (f : frame) : signal := match f with FKill true _ => SIGINT | FKill false _ => SIGTERM | _ => SIGCHLD end.

(** [main]: before [fork]; before the assignment; before the n-th [sigaction] of
    [set_signalset]; in [pause]; after the end. *)
Inductive mpc : Set := MFork (i : nat) | MSet (i : nat) (pid : Z) | MInstall (n : nat) | MPause | MExit.
#[export] Instance mpc_eq_dec : EqDecision mpc.
Proof. solve_decision. Defined.

(** [pend]: a [SIGCHLD] waits.  Auxiliary: [lost] counts the children that ended
    without a signal of their own, [stray] has the processes that were sent a
    signal and are no children. *)
Record server := Server {
  proc_tab : list Z; kids : gmap Z status; pend : bool; stack : list frame; mp : mpc; lost : nat; stray : list Z
}.
Definition with_tab t s := Server t (kids s) (pend s) (stack s) (mp s) (lost s) (stray s).
Definition with_kids k s := Server (proc_tab s) k (pend s) (stack s) (mp s) (lost s) (stray s).
Definition with_pend p s := Server (proc_tab s) (kids s) p (stack s) (mp s) (lost s) (stray s).
Definition with_stack f s := Server (proc_tab s) (kids s) (pend s) f (mp s) (lost s) (stray s).
Definition with_mp p s := Server (proc_tab s) (kids s) (pend s) (stack s) p (lost s) (stray s).
Definition with_lost n s := Server (proc_tab s) (kids s) (pend s) (stack s) (mp s) n (stray s).
Definition with_stray l s := Server (proc_tab s) (kids s) (pend s) (stack s) (mp s) (lost s) l.

(** [kill (pid, SIGTERM)]. *)
Definition kill (pid : Z) (s : server) : server :=
  match kids s !! pid with
  | Some Running => with_kids (<[pid := Signalled]> (kids s)) s
  | Some _ => s
  | None => with_stray (stray s ++ [pid]) s
  end.
(** A step of [kill_child]. *)
Definition kill_child (int : bool) (i : nat) (below : list frame) (s : server) : server :=
  match proc_tab s !! i with
  | Some pid => with_stack (FKill int (S i) :: below) (if 0 <? pid then kill pid s else s)
  | None => with_stack [] (with_mp MExit s)
  end.

(** What a call answers: the process that [fork] makes or [waitpid] reports. *)
Definition fork (o : option Z) (s : server) : option (Z * server) :=
  match o with
  | Some pid =>
      if decide (0 < pid ∧ kids s !! pid = None) then Some (pid, with_kids (<[pid := Running]> (kids s)) s) else None
  | None => Some (-1, s)
  end.
Definition waitpid (o : option Z) (s : server) : option (Z * server) :=
  match o with
  | Some pid => if decide (kids s !! pid = Some Zombie) then Some (pid, with_kids (delete pid (kids s)) s) else None
  | None => if decide (map_Forall (λ _ x, x ≠ Zombie) (kids s)) then Some (0, s) else None
  end.
(** The first index with the process. *)
Fixpoint find_pid (pid : Z) (t : list Z) : option nat :=
  match t with
  | [] => None
  | p :: t => if p =? pid then Some 0%nat else S <$> find_pid pid t
  end.
(** A step of [restart_child]. *)
Definition restart_child (f : frame) (o : option Z) (below : list frame) (s : server) : option server :=
  match f with
  | FWait =>
      '(pid, s) ← waitpid o s;
      if pid <=? 0 then Some (with_stack below s)
      else
        match find_pid pid (proc_tab s) with
        | Some i => Some (with_stack (FFork i :: below) s)
        | None => Some (with_stack below s)
        end
  | FFork i =>
      '(pid, s) ← fork o s;
      if pid =? -1 then Some (with_stack below (with_tab (<[i := -1]> (proc_tab s)) s))
      else Some (with_stack (FSet i pid :: below) s)
  | FSet i pid => Some (with_stack below (with_tab (<[i := pid]> (proc_tab s)) s))
  | FKill _ _ => None
  end.
(** A step of [main]. *)
Definition main (o : option Z) (s : server) : option server :=
  match mp s with
  | MFork i =>
      if decide (i < MAX_POOL)%nat then
        '(pid, s) ← fork o s;
        if pid =? -1 then Some (with_mp (MFork (S i)) (with_tab (<[i := -1]> (proc_tab s)) s))
        else Some (with_mp (MSet i pid) s)
      else Some (with_mp (MInstall 0) s)
  | MSet i pid => Some (with_mp (MFork (S i)) (with_tab (<[i := pid]> (proc_tab s)) s))
  | MInstall n => Some (with_mp (if decide (n = 2%nat) then MPause else MInstall (S n)) s)
  | MPause | MExit => None
  end.

(** Whether [main] has set a handler for the signal. *)
Definition installed (sig : signal) (s : server) : bool :=
  match mp s with
  | MFork _ | MSet _ _ | MExit => false
  | MInstall n => match sig with SIGTERM => bool_decide (1 ≤ n)%nat | SIGINT => bool_decide (2 ≤ n)%nat | SIGCHLD => false end
  | MPause => true
  end.

Section masks.
(** The handler of [SIGCHLD] blocks the other two. *)
Context (chld_blocks_term : bool).
Definition blocked (sig : signal) (s : server) : bool :=
  existsb (λ f, bool_decide (frame_signal f = sig) ||
                (chld_blocks_term && bool_decide (frame_signal f = SIGCHLD))) (stack s).

(** What happens: a step of the server; a signal arrives, or, for [SIGCHLD], is
    delivered; a child ends. *)
Inductive label : Set := Run (o : option Z) | Sig (sig : signal) | Die (pid : Z).
Definition exec (l : label) (s : server) : option server :=
  if decide (mp s = MExit) then None
  else
    match l with
    | Run o =>
        match stack s with
        | FKill int i :: below => Some (kill_child int i below s)
        | f :: below => restart_child f o below s
        | [] => main o s
        end
    | Sig SIGCHLD =>
        if pend s && installed SIGCHLD s && negb (blocked SIGCHLD s)
        then Some (with_stack (FWait :: stack s) (with_pend false s)) else None
    | Sig sig =>
        if installed sig s then
          if blocked sig s then None else Some (with_stack (FKill (bool_decide (sig = SIGINT)) 0 :: stack s) s)
        else Some (with_stack [] (with_mp MExit s))
    | Die pid =>
        match kids s !! pid with
        | Some (Running | Signalled) =>
            let s := with_kids (<[pid := Zombie]> (kids s)) s in
            if installed SIGCHLD s && negb (pend s) then Some (with_pend true s) else Some (with_lost (S (lost s)) s)
        | _ => None
        end
    end.
Definition step (s s' : server) : Prop := ∃ l, exec l s = Some s'.
End masks.

(** [main] until the loop that forks. *)
Definition start : server := Server (replicate MAX_POOL 0) ∅ false [] (MFork 0) 0 [].
Definition serv3_main (socket_ok bind_ok : bool) : res server :=
  if negb socket_ok then Err (Exited 1)
  else if negb bind_ok then Err (Exited 1)
  else Ok start.
End Prefork.
