(* ===== verification/EchoServerProofs.v ===== *)
(** * Echo servers with a pool of processes: correctness

    The children send back what they receive, as long as [send] takes what it is
    given.  In the third program every running child is in the table, and their
    number is what the table and the merged signals say ([pool_counts]). *)

From stdpp Require Import base gmap list relations.
From Stdlib Require Import ZArith Lia.
From S2P Require Import Prelude EchoServer.

Local Open Scope Z_scope.

(** ** A child *)
(** [send] takes all that it is given. *)
Definition whole (a : answer) (s : child) : Prop :=
  match at_ s, a with PSend _ data, Sent n => n = length data | _, _ => True end.

(** What was received on a descriptor and is still to be sent. *)
Definition to_send (p : cpc) (fd : Z) : list Z :=
  match p with PSend fd' data => if decide (fd = fd') then data else [] | _ => [] end.

Record echo_ok (s : child) : Prop := {
  eo_ended : Forall (λ x, echoed x = got x) (ended s);
  eo_dropped : Forall (λ x, echoed x `prefix_of` got x) (dropped s);
  eo_open : ∀ fd x, fds s !! fd = Some x → got x = echoed x ++ to_send (at_ s) fd;
}.

Lemma echo_prefix s fd x : echo_ok s → fds s !! fd = Some x → echoed x `prefix_of` got x.
Proof. intros Hs Hx. exists (to_send (at_ s) fd). by apply (eo_open s Hs). Qed.

(** A descriptor is closed. *)
Lemma drop_ok s cfd p : echo_ok s → (∀ fd, fd ≠ cfd → to_send p fd = to_send (at_ s) fd) →
  echo_ok (goto p (close_dropped cfd s)).
Proof.
  intros Hs Hp. pose proof Hs as [He Hd Ho]. constructor; simpl; [done| |].
  - apply Forall_app. split; [done|]. destruct (fds s !! cfd) as [x|] eqn:E; simpl; [|done].
    apply Forall_singleton. by eapply echo_prefix.
  - intros fd x [Hn Hx]%lookup_delete_Some. rewrite Hp by done. by apply Ho.
Qed.

Lemma start_child_ok a s s' : echo_ok s → whole a s → start_child a s = Some s' → echo_ok s'.
Proof.
  intros Hs. pose proof Hs as [He Hd Ho]. unfold start_child, whole. destruct (at_ s) as [|cfd|cfd data|] eqn:Ep.
  - destruct a; try done; intros _.
    + case_decide as Hc; [|done]. intros [= <-]. constructor; simpl; [done..|].
      intros fd x. rewrite lookup_insert_Some. intros [[_ <-]|[_ Hx]]; [done|]. by apply (Ho fd x).
    + by intros [= <-].
    + by intros [= <-].
  - intros _. destruct (fds s !! cfd) as [x|] eqn:E.
    + pose proof (Ho cfd x E) as Hx. simpl in Hx. rewrite app_nil_r in Hx.
      destruct a; try done.
      * case_decide; [|done]. intros [= <-]. constructor; simpl; [done..|]. intros fd y Hy.
        destruct (decide (fd = cfd)) as [->|Hn].
        -- rewrite lookup_alter_eq, E in Hy. injection Hy as <-. simpl. by rewrite Hx.
        -- rewrite lookup_alter_ne in Hy by done. by apply (Ho fd y).
      * intros [= <-]. constructor; simpl; [|done|].
        -- rewrite E. apply Forall_app. split; [done|]. by apply Forall_singleton.
        -- intros fd y [_ Hy]%lookup_delete_Some. by apply (Ho fd y).
      * by intros [= <-].
      * intros [= <-]. by constructor.
    + destruct a; try done. intros [= <-]. by constructor.
  - destruct a; try done; intros Hw.
    + case_decide; [|done]. intros [= <-]. constructor; simpl; [done..|]. intros fd y Hy.
      destruct (decide (fd = cfd)) as [->|Hn].
      * rewrite lookup_alter_eq in Hy. destruct (fds s !! cfd) as [x|] eqn:E; [|done]. injection Hy as <-.
        simpl. rewrite (Ho cfd x E), take_ge, app_nil_r by lia. simpl. by rewrite decide_True.
      * rewrite lookup_alter_ne in Hy by done. rewrite (Ho fd y Hy). simpl. by rewrite decide_False.
    + intros [= <-]. apply drop_ok; [done|]. intros fd Hn. rewrite Ep. simpl. by rewrite decide_False.
    + intros [= <-]. apply drop_ok; [done|]. intros fd Hn. rewrite Ep. simpl. by rewrite decide_False.
    + intros [= <-]. constructor; simpl; [done| |done]. apply Forall_app. split; [done|].
      apply Forall_fmap, Forall_forall. intros [fd x] Hin%elem_of_map_to_list. by eapply echo_prefix.
  - destruct a; done.
Qed.

Lemma new_child_ok : echo_ok new_child.
Proof. by constructor. Qed.

Lemma fork_loop_new oks i : Forall (λ x, x.2 = new_child) (fork_loop oks i).
Proof. revert i. induction oks as [|[] oks IH]; intros i; simpl; [done|by constructor|done]. Qed.
Lemma fork_loop_length oks i : (length (fork_loop oks i) ≤ length oks)%nat.
Proof. revert i. induction oks as [|[] oks IH]; intros i; simpl; [done|..]; specialize (IH (S i)); lia. Qed.

Lemma pool_ok s s' : Forall (λ x, echo_ok x.2) s → rtc (pool_step whole) s s' →
  Forall (λ x, echo_ok x.2) s' ∧ length s' = length s.
Proof.
  intros Hs Hr. revert Hs. induction Hr as [s|s x s' (k & i & c & a & c' & Hk & Hw & Hc & ->) _ IH]; intros Hs; [done|].
  destruct IH as [IH El].
  - apply Forall_insert; [done|]. simpl. eapply start_child_ok; [|done|done].
    exact (Forall_lookup_1 _ _ _ _ Hs Hk).
  - split; [done|]. by rewrite El, length_insert.
Qed.

(** C16. The servers echo.  Whichever of the three programs started the children,
    and however they are scheduled and interrupted, as long as [send] takes all it
    is given: a session that its client closed was sent exactly what was received,
    in order, and a session that failed, or is still open, the beginning of it; and
    there are never more than [MAX_POOL] children. *)
Theorem echo_exact oks so sr sb s0 s :
  serv1_main true true oks = Ok s0 ∨ serv2_main true so true oks = Ok s0 ∨ un_main true sr sb oks = Ok s0 →
  rtc (pool_step whole) s0 s →
  (length s ≤ MAX_POOL)%nat ∧
  ∀ i c, (i, c) ∈ s →
    (∀ x, x ∈ ended c → echoed x = got x) ∧ (∀ x, x ∈ dropped c → echoed x `prefix_of` got x) ∧
    (∀ fd x, fds c !! fd = Some x → echoed x `prefix_of` got x).
Proof.
  intros H0 Hr. assert (s0 = fork_loop (take MAX_POOL oks) 0) as E.
  { unfold serv1_main, serv2_main, un_main in H0. destruct so, sr as [[]|], sb; simpl in H0; naive_solver. }
  destruct (pool_ok s0 s) as [Hs El]; [|done|].
  - subst. eapply Forall_impl; [apply fork_loop_new|]. intros x ->. apply new_child_ok.
  - split.
    + pose proof (fork_loop_length (take MAX_POOL oks) 0) as Hl. rewrite <-E, length_take in Hl. lia.
    + intros i c Hin. pose proof (proj1 (Forall_forall _ _) Hs _ Hin) as Hc. simpl in Hc.
      pose proof Hc as [He Hd Ho]. rewrite Forall_forall in He, Hd. split_and!; [done..|].
      intros fd x. by apply echo_prefix.
Qed.

(** The system calls of one child. *)
Fixpoint run_child (acts : list answer) (s : child) : option child :=
  match acts with [] => Some s | a :: acts => s ← start_child a s; run_child acts s end.

(** When [send] takes a part, the rest is never sent. *)
Lemma short_send_loses :
  (λ s, ended s) <$> run_child [Accepted 4; Received [1; 2; 3]; Sent 2; Ended] new_child = Some [Session [1; 2; 3] [1; 2]].
Proof. vm_compute. reflexivity. Qed.
(** After a [recv] that fails the descriptor stays open. *)
Lemma recv_failure_leaks : (λ s, fds s) <$> run_child [Accepted 4; Failed] new_child = Some {[4 := Session [] []]}.
Proof. vm_compute. reflexivity. Qed.

Lemma echo_exact_witness :
  rtc (pool_step whole) [(0%nat, new_child)] [(0%nat, Child ∅ [Session [1; 2] [1; 2]] [] PAccept)] ∧
  ∀ x, x ∈ [Session [1; 2] [1; 2]] → echoed x = got x.
Proof.
  assert (rtc (pool_step whole) [(0%nat, new_child)] [(0%nat, Child ∅ [Session [1; 2] [1; 2]] [] PAccept)]) as Hr.
  { assert (∀ a c c', whole a c → start_child a c = Some c' → pool_step whole [(0%nat, c)] [(0%nat, c')]) as Hs.
    { intros a c c' Hw Hc. exists 0%nat, 0%nat, c, a, c'. by split_and!. }
    eapply rtc_l; [eapply (Hs (Accepted 4)); [exact I|vm_compute; reflexivity]|].
    eapply rtc_l; [eapply (Hs (Received [1; 2])); [exact I|vm_compute; reflexivity]|].
    eapply rtc_l; [eapply (Hs (Sent 2)); [reflexivity|vm_compute; reflexivity]|].
    eapply rtc_l; [eapply (Hs Ended); [exact I|vm_compute; reflexivity]|]. apply rtc_refl. }
  split; [exact Hr|].
  destruct (echo_exact [true; false; false] true None true [(0%nat, new_child)] _ (or_introl eq_refl) Hr) as [_ H].
  exact (proj1 (H 0%nat _ ltac:(left))).
Defined.
