(* ===== verification/PreforkProofs.v ===== *)
(** * The server that keeps its pool full ([in_stream_serv3.c]): correctness

    The positive entries of [proc_tab], with the slot that is being filled in the
    place of the table's entry ([eff]), are exactly the children, each once
    ([view]); from this the numbers of children follow, and which processes
    [kill_child] sends a signal to. *)

From stdpp Require Import base gmap list relations.
From Stdlib Require Import ZArith Lia.
From S2P Require Import Prelude EchoServer.
Import Prefork.

Local Open Scope Z_scope.

(** ** Lists updated at an index *)
Definition pos (t : list Z) : list Z := filter (λ e, 0 < e) t.

Lemma split_at {A} (t : list A) i x : t !! i = Some x →
  ∃ r, t ≡ₚ x :: r ∧ ∀ y, <[i := y]> t ≡ₚ y :: r.
Proof.
  intros H. exists (take i t ++ drop (S i) t). split.
  - rewrite <-(take_drop_middle t i x H) at 1. by rewrite Permutation_middle.
  - intros y. rewrite insert_take_drop by (by eapply lookup_lt_Some). by rewrite Permutation_middle.
Qed.

(** ** The children in the table *)
Record view (t : list Z) (k : gmap Z status) : Prop := {
  v_len : length t = MAX_POOL;
  v_min : Forall (λ e, -1 ≤ e) t;
  v_nodup : NoDup (pos t);
  v_dom : dom k = list_to_set (pos t);
}.

Lemma pos_perm t u : t ≡ₚ u → pos t ≡ₚ pos u.
Proof. intros H. unfold pos. by rewrite H. Qed.
Lemma pos_cons x t : pos (x :: t) = (if decide (0 < x) then [x] else []) ++ pos t.
Proof. unfold pos. rewrite filter_cons. by case_decide. Qed.

Lemma view_update t k i x y k' :
  view t k → t !! i = Some x → -1 ≤ y → (0 < y → 0 < x → x = y) →
  (0 < y → x = y ∨ y ∉ dom k) →
  dom k' = (dom k ∖ (if decide (0 < x) then {[x]} else ∅)) ∪ (if decide (0 < y) then {[y]} else ∅) →
  view (<[i := y]> t) k'.
Proof.
  intros [Hl Hm Hn Hd] Hi Hy Hxy Hfresh Hk. destruct (split_at t i x Hi) as (r & Et & Eu). specialize (Eu y).
  pose proof (pos_perm _ _ Et) as Pt. pose proof (pos_perm _ _ Eu) as Pu. rewrite pos_cons in Pt, Pu.
  rewrite Pt in Hn. rewrite Pt in Hd.
  constructor.
  - by rewrite length_insert.
  - by apply Forall_insert.
  - rewrite Pu. destruct (decide (0 < y)) as [Hpy|]; [|by destruct (decide (0 < x)); [apply NoDup_cons in Hn as [_ ?]|]].
    simpl. assert (y ∉ pos r ∧ NoDup (pos r)) as [??].
    { destruct (decide (0 < x)) as [Hpx|]; simpl in *.
      - rewrite <-(Hxy Hpy Hpx). by apply NoDup_cons in Hn.
      - split; [|done]. destruct (Hfresh Hpy) as [->|Hf]; [done|]. set_solver. }
    by apply NoDup_cons.
  - rewrite Hk, Hd, Pu. destruct (decide (0 < x)), (decide (0 < y)); simpl in *; try apply NoDup_cons in Hn as [? _]; set_solver.
Qed.

(** The three ways in which an entry changes: a process is put into an empty
    slot, a slot is given up, a process is gone. *)
Lemma view_put t k i pid : view t k → t !! i = Some 0 → 0 < pid → k !! pid = None →
  view (<[i := pid]> t) (<[pid := Running]> k).
Proof.
  intros Hv Hi Hp Hk. eapply view_update; [done|done|lia|lia|right; by apply not_elem_of_dom|].
  rewrite dom_insert_L, decide_False, decide_True by lia. set_solver.
Qed.
Lemma view_fail t k i : view t k → t !! i = Some 0 → view (<[i := -1]> t) k.
Proof.
  intros Hv Hi. eapply view_update; [done|done|lia..|]. rewrite !decide_False by lia. set_solver.
Qed.
Lemma view_reap t k i pid : view t k → t !! i = Some pid → 0 < pid → view (<[i := 0]> t) (delete pid k).
Proof.
  intros Hv Hi Hp. eapply view_update; [done|done|lia..|].
  rewrite dom_delete_L, decide_True, decide_False by lia. set_solver.
Qed.
(** A child changes its status. *)
Lemma view_status t k pid x y : view t k → k !! pid = Some x → view t (<[pid := y]> k).
Proof.
  intros [Hl Hm Hn Hd] Hk. constructor; [done..|]. rewrite dom_insert_lookup_L; [done|by eexists].
Qed.
Lemma view_elem t k pid : view t k → is_Some (k !! pid) ↔ (pid ∈ t ∧ 0 < pid).
Proof.
  intros [_ _ _ Hd]. rewrite <-elem_of_dom, Hd, elem_of_list_to_set. unfold pos. rewrite list_elem_of_filter. naive_solver.
Qed.

(** ** The number of zombies *)
Definition zombies (k : gmap Z status) : nat := size (filter (λ x, x.2 = Zombie) k).
Definition running (k : gmap Z status) : nat := size (filter (λ x, x.2 ≠ Zombie) k).

Lemma zombies_delete k pid x : k !! pid = Some x →
  zombies k = ((if decide (x = Zombie) then 1 else 0) + zombies (delete pid k))%nat.
Proof.
  intros Hk. unfold zombies. rewrite map_filter_delete. case_decide as Hx.
  - rewrite map_size_delete_Some; [|by eexists; apply map_lookup_filter_Some].
    enough (size (filter (λ x, x.2 = Zombie) k) ≠ 0)%nat by lia.
    rewrite map_size_ne_0_lookup. exists pid. eexists. by apply map_lookup_filter_Some.
  - rewrite map_size_delete_None; [done|]. apply map_lookup_filter_None. right. naive_solver.
Qed.
Lemma zombies_insert k pid x : k !! pid = None →
  zombies (<[pid := x]> k) = ((if decide (x = Zombie) then 1 else 0) + zombies k)%nat.
Proof.
  intros Hk. rewrite (zombies_delete _ pid x) by apply lookup_insert_eq. by rewrite delete_insert_id.
Qed.
Lemma zombies_status k pid x y : k !! pid = Some x →
  (zombies (<[pid := y]> k) + (if decide (x = Zombie) then 1 else 0) =
   zombies k + (if decide (y = Zombie) then 1 else 0))%nat.
Proof.
  intros Hk. rewrite (zombies_delete _ pid y) by apply lookup_insert_eq. rewrite delete_insert_eq.
  rewrite (zombies_delete k pid x Hk). lia.
Qed.
Lemma no_zombies k : zombies k = 0%nat ↔ map_Forall (λ _ x, x ≠ Zombie) k.
Proof.
  unfold zombies. rewrite map_size_empty_iff. by rewrite map_empty_filter.
Qed.
Lemma size_split k : size k = (running k + zombies k)%nat.
Proof.
  unfold running, zombies. rewrite <-(map_filter_union_complement (λ x, x.2 = Zombie) k) at 1.
  rewrite map_size_disj_union by apply map_disjoint_filter_complement. lia.
Qed.

(** ** The invariant, until the server exits *)
(** The frames of [restart_child]; the slot that is empty, or will get a
    process; the table with it. *)
Definition chld (fs : list frame) : list frame := filter (λ f, frame_signal f = SIGCHLD) fs.
#[local] Arguments chld : simpl never.
Definition hand (s : server) : option (nat * Z) :=
  match mp s, chld (stack s) with
  | MSet i pid, _ => Some (i, pid)
  | _, [FFork i] => Some (i, 0)
  | _, [FSet i pid] => Some (i, pid)
  | _, _ => None
  end.
Definition eff (s : server) : list Z :=
  match hand s with Some (i, e) => <[i := e]> (proc_tab s) | None => proc_tab s end.
(** The slots that hold no process and no failure. *)
Definition empty_slot (s : server) (i : nat) : Prop :=
  match mp s with
  | MFork j => (j ≤ i)%nat
  | MSet j _ => (j < i)%nat
  | _ => chld (stack s) = [FFork i]
  end.
(** A handler of [SIGCHLD] that has not called [waitpid]. *)
Definition waits (fs : list frame) : nat := length (filter (λ f, f = FWait) fs).
#[local] Arguments waits : simpl never.

Lemma chld_nil_le : (length (chld []) ≤ 1)%nat.
Proof. by apply Nat.leb_le. Qed.

Record inv (s : server) : Prop := {
  i_view : view (eff s) (kids s);
  i_empty : ∀ i, (i < MAX_POOL)%nat → eff s !! i = Some 0 ↔ empty_slot s i;
  i_zombies : zombies (kids s) = (lost s + (if pend s then 1 else 0) + waits (stack s))%nat;
  i_chld : (length (chld (stack s)) ≤ 1)%nat;
  i_paused : chld (stack s) ≠ [] ∨ pend s = true → mp s = MPause;
  i_main : stack s ≠ [] → match mp s with MFork _ | MSet _ _ => False | _ => True end;
  i_on : mp s ≠ MExit;
  i_range : match mp s with MFork i => (i ≤ MAX_POOL)%nat | MSet i pid => (i < MAX_POOL)%nat ∧ 0 < pid | _ => True end;
  i_slot : match chld (stack s) with [FFork i] => (i < MAX_POOL)%nat | [FSet i pid] => (i < MAX_POOL)%nat ∧ 0 < pid | _ => True end;
}.

Lemma server_inv_start : inv start.
Proof.
  constructor; try done; try lia.
  - constructor; [done| |apply NoDup_nil_2|done]. repeat constructor; lia.
  - intros i Hi. unfold eff, empty_slot. simpl. split; [lia|]. intros _.
    destruct i as [|[|[|]]]; [done..|]. unfold MAX_POOL in Hi. lia.
  - exact chld_nil_le.
  - by intros [?|?].
  - simpl. lia.
Qed.

Ltac field := simpl; first [done | lia | exact chld_nil_le | by intros [?|?] | idtac].

(** The empty slots after an update of the table. *)
Lemma empty_update t i y j : (j < MAX_POOL)%nat → length t = MAX_POOL →
  <[i := y]> t !! j = Some 0 ↔ (i = j ∧ y = 0) ∨ (i ≠ j ∧ t !! j = Some 0).
Proof.
  intros Hj Hl. rewrite list_lookup_insert_Some. split; [naive_solver|].
  intros [[-> ->]|[? ?]]; [left|by right]. split_and!; [done..|lia].
Qed.

(** The fields that a step of [main] or of a handler does not change. *)
Lemma server_main_inv o s s' : inv s → stack s = [] → main o s = Some s' → inv s'.
Proof.
  intros [Hv He Hz Hc Hp Hm Hon Hr Hs] Est. destruct s as [t k p st m n l]. simpl in *. subst st.
  assert (p = false ∨ m = MPause) as Hpm by (destruct p; auto). unfold main; simpl.
  destruct m as [i|i pid|j| |]; try done.
  - assert (p = false) as -> by by destruct Hpm. case_decide as Hi.
    + assert (t !! i = Some 0) as Hti by (apply He; [done|]; unfold empty_slot; simpl; lia).
      destruct o as [pid|]; simpl.
      * case_decide as Hf; [|done]. destruct Hf as [Hpid Hk]. simpl. rewrite (proj2 (Z.eqb_neq pid (-1))) by lia.
        intros [= <-]. constructor; field.
        -- by apply view_put.
        -- intros j Hj. unfold eff; simpl. rewrite empty_update, (He j Hj) by (done || apply Hv).
           unfold empty_slot; simpl. lia.
        -- rewrite zombies_insert by done. simpl. lia.
      * intros [= <-]. constructor; field.
        -- by apply view_fail.
        -- intros j Hj. unfold eff; simpl. rewrite empty_update, (He j Hj) by (done || apply Hv).
           unfold empty_slot; simpl. lia.
    + intros [= <-]. constructor; field.
      intros j Hj. unfold eff; simpl. rewrite (He j Hj). unfold empty_slot; simpl. split; [lia|done].
  - assert (p = false) as -> by by destruct Hpm. intros [= <-]. constructor; field.
  - assert (p = false) as -> by by destruct Hpm. intros [= <-]. case_decide; constructor; field; naive_solver.
Qed.

Lemma find_pid_ok pid t : pid ∈ t → ∃ i, find_pid pid t = Some i ∧ t !! i = Some pid.
Proof.
  induction t as [|p t IH]; [by intros ?%not_elem_of_nil|]. simpl. destruct (Z.eqb_spec p pid) as [->|Hn].
  - by exists 0%nat.
  - intros [?|Hin]%elem_of_cons; [congruence|]. destruct (IH Hin) as (i & -> & Hi). by exists (S i).
Qed.

Lemma chld_cons f fs : chld (f :: fs) = (if decide (frame_signal f = SIGCHLD) then [f] else []) ++ chld fs.
Proof. unfold chld. rewrite filter_cons. by case_decide. Qed.
Lemma chld_in f fs : frame_signal f = SIGCHLD → chld (f :: fs) = f :: chld fs.
Proof. intros H. by rewrite chld_cons, decide_True. Qed.

Lemma restart_inv f below o s s' : inv s → stack s = f :: below → frame_signal f = SIGCHLD →
  restart_child f o below s = Some s' → inv s'.
Proof.
  intros [Hv He Hz Hc Hp Hm Hon Hr Hs] Est Hf. destruct s as [t k p st m n l]. simpl in *. subst st.
  assert (chld (f :: below) = f :: chld below) as Ef by by apply chld_in. rewrite Ef in *.
  assert (chld below = []) as Eb by (destruct (chld below); [done|simpl in Hc; lia]). rewrite Eb in *.
  assert (m = MPause) as -> by (apply Hp; by left).
  assert (∀ t' k' s'', s'' = Server t' k' p below MPause n l → view t' k' → zombies k' = zombies k →
    waits (f :: below) = waits below → (∀ j, (j < MAX_POOL)%nat → t' !! j ≠ Some 0) → inv s'') as Hdone.
  { intros t' k' s'' -> Hv' Hz' Hw Hno. rewrite Hw in Hz.
    constructor; simpl; rewrite ?Eb; unfold eff, hand, empty_slot; simpl; rewrite ?Eb; try done; try lia.
    intros j Hj. specialize (Hno j Hj). naive_solver. }
  destruct f as [|  |i|i pid]; [by simpl in *|..]; simpl in Hs.
  - unfold eff, hand, empty_slot in Hv, He. cbn [mp stack kids proc_tab] in Hv, He. rewrite ?Ef in Hv, He.
    change (waits (FWait :: below)) with (S (waits below)) in Hz. destruct o as [pid|]; simpl.
    + case_decide as Hk; [|done]. simpl. destruct (proj1 (view_elem _ _ pid Hv)) as [Hin Hpos]; [by eexists|].
      rewrite (proj2 (Z.leb_gt pid 0)) by lia. destruct (find_pid_ok pid t Hin) as (i & -> & Hi). intros [= <-].
      pose proof (lookup_lt_Some _ _ _ Hi) as Hlt. rewrite (v_len _ _ Hv) in Hlt.
      rewrite (zombies_delete k pid Zombie Hk) in Hz. simpl in Hz.
      constructor; unfold eff, hand, empty_slot; cbn [mp stack with_stack with_kids kids proc_tab lost pend]; rewrite ?chld_in, ?Eb by done; try done; cbn [length]; try lia.
      * by apply view_reap.
      * intros j Hj. rewrite empty_update, (He j Hj) by (done || apply Hv). naive_solver.
      * change (waits (FFork i :: below)) with (waits below). lia.
    + case_decide as Hk; [|done]. apply no_zombies in Hk. lia.
  - unfold eff, hand, empty_slot in Hv, He. cbn [mp stack kids proc_tab] in Hv, He. rewrite ?Ef in Hv, He.
    pose proof (v_len _ _ Hv) as Hl. rewrite length_insert in Hl.
    assert (<[i := 0]> t !! i = Some 0) as Hi0 by (apply list_lookup_insert_eq; lia). destruct o as [pid|]; simpl.
    + case_decide as Hk; [|done]. destruct Hk as [Hpid Hk]. simpl. rewrite (proj2 (Z.eqb_neq pid (-1))) by lia.
      intros [= <-]. pose proof (view_put _ _ i pid Hv Hi0 Hpid Hk) as Hv'. rewrite list_insert_insert_eq in Hv'.
      constructor; unfold eff, hand, empty_slot; cbn [mp stack with_stack with_kids kids proc_tab lost pend]; rewrite ?chld_in, ?Eb by done; try done; cbn [length]; try lia.
      * intros j Hj. specialize (He j Hj). rewrite empty_update in He |- * by done. split; [|done]. intros H.
        destruct (decide (i = j)) as [->|Hn]; [lia|]. assert ([FFork i] = [FFork j]); [|congruence].
        apply He. right. naive_solver.
      * rewrite zombies_insert by done. done.
    + intros [= <-]. pose proof (view_fail _ _ i Hv Hi0) as Hv'. rewrite list_insert_insert_eq in Hv'.
      eapply Hdone; [done|done|done|done|]. intros j Hj H. apply empty_update in H; [|done|done].
      destruct H as [?|[Hn H]]; [lia|]. assert ([FFork i] = [FFork j]); [|congruence].
      apply He; [done|]. apply empty_update; auto.
  - unfold eff, hand, empty_slot in Hv, He. cbn [mp stack kids proc_tab] in Hv, He. rewrite ?Ef in Hv, He.
    intros [= <-]. eapply Hdone; [done|done|done|done|]. intros j Hj H. by apply He in H.
Qed.

(** A step that leaves the table and the frames of [restart_child] as they are,
    and changes only what the children do. *)
Lemma inv_keeps s s' : inv s →
  proc_tab s' = proc_tab s → chld (stack s') = chld (stack s) → waits (stack s') = waits (stack s) →
  mp s' = mp s → (stack s' ≠ [] → match mp s with MFork _ | MSet _ _ => False | _ => True end) →
  (∀ t, view t (kids s) → view t (kids s')) → (pend s' = true → pend s = true ∨ mp s = MPause) →
  (zombies (kids s') + lost s + (if pend s then 1 else 0) =
   zombies (kids s) + lost s' + (if pend s' then 1 else 0))%nat →
  inv s'.
Proof.
  intros [Hv He Hz Hc Hp Hm Hon Hr Hs] Et Ec Ew Em Hst Hk Hpend Hzz.
  assert (hand s' = hand s) as Eh by (unfold hand; by rewrite Em, Ec).
  assert (eff s' = eff s) as Ee by (unfold eff; by rewrite Eh, Et).
  constructor; rewrite ?Ee, ?Em, ?Ec; auto.
  - intros i Hi. rewrite (He i Hi). unfold empty_slot. by rewrite Em, Ec.
  - rewrite Ew. lia.
  - intros [?|H]; [by apply Hp; left|]. destruct (Hpend H); [|done]. apply Hp. by right.
Qed.

(** A status may change to any but [Zombie] from any but [Zombie], or else be
    counted. *)
Lemma kill_keeps pid s : proc_tab (kill pid s) = proc_tab s ∧ stack (kill pid s) = stack s ∧ mp (kill pid s) = mp s ∧
  pend (kill pid s) = pend s ∧ lost (kill pid s) = lost s ∧
  (∀ t, view t (kids s) → view t (kids (kill pid s))) ∧ zombies (kids (kill pid s)) = zombies (kids s).
Proof.
  unfold kill. destruct (kids s !! pid) as [[]|] eqn:E; split_and!; try done; simpl.
  - intros t Hv. by eapply view_status.
  - pose proof (zombies_status (kids s) pid Running Signalled E) as H. simpl in H. lia.
Qed.

Lemma chld_kill int i fs : chld (FKill int i :: fs) = chld fs.
Proof. rewrite chld_cons. by destruct int. Qed.

Lemma kill_child_inv int i below s : inv s → stack s = FKill int i :: below →
  mp (kill_child int i below s) = MExit ∨ inv (kill_child int i below s).
Proof.
  intros Hs Est. unfold kill_child. destruct (proc_tab s !! i) as [pid|] eqn:Ei; [right|by left].
  set (s1 := if 0 <? pid then kill pid s else s).
  assert (proc_tab s1 = proc_tab s ∧ stack s1 = stack s ∧ mp s1 = mp s ∧ pend s1 = pend s ∧ lost s1 = lost s ∧
    (∀ t, view t (kids s) → view t (kids s1)) ∧ zombies (kids s1) = zombies (kids s)) as (E1 & E2 & E3 & E4 & E5 & E6 & E7).
  { unfold s1. destruct (0 <? pid); [apply kill_keeps|done]. }
  apply (inv_keeps s); cbn [with_stack proc_tab kids pend stack mp lost]; try done.
  - by rewrite Est, !chld_kill.
  - by rewrite Est.
  - intros _. apply (i_main s Hs). by rewrite Est.
  - rewrite E4. by left.
  - rewrite E4, E5, E7. lia.
Qed.

Lemma blocked_chld b s : blocked b SIGCHLD s = false → chld (stack s) = [].
Proof.
  unfold blocked. induction (stack s) as [|f fs IH]; [done|]. simpl. intros [Hf Hfs]%orb_false_iff.
  apply orb_false_iff in Hf as [Hf _]. apply bool_decide_eq_false in Hf.
  rewrite chld_cons, decide_False by done. by apply IH.
Qed.

Lemma installed_chld s : installed SIGCHLD s = true → mp s = MPause.
Proof. unfold installed. by destruct (mp s). Qed.

Lemma die_inv pid x s : inv s → kids s !! pid = Some x → x ≠ Zombie →
  inv (let s := with_kids (<[pid := Zombie]> (kids s)) s in
       if installed SIGCHLD s && negb (pend s) then with_pend true s else with_lost (S (lost s)) s).
Proof.
  intros Hs Hk Hx. set (s1 := with_kids _ s). cbv zeta.
  pose proof (zombies_status (kids s) pid x Zombie Hk) as Hz.
  rewrite decide_False in Hz by done. simpl in Hz. assert (∀ t, view t (kids s) → view t (kids s1)) as Hv.
  { intros t Hv. by eapply view_status. }
  destruct (installed SIGCHLD s1 && negb (pend s1)) eqn:E.
  - apply andb_prop in E as [Hi Hp%negb_true_iff].
    apply (inv_keeps s); try done; [apply (i_main s Hs)|right; by apply (installed_chld s1)|].
    simpl in *. rewrite Hp. lia.
  - apply (inv_keeps s); try done; [apply (i_main s Hs)|by left|]. simpl. lia.
Qed.

Lemma sig_chld_inv s b : inv s → pend s = true → installed SIGCHLD s = true → blocked b SIGCHLD s = false →
  inv (with_stack (FWait :: stack s) (with_pend false s)).
Proof.
  intros [Hv He Hz Hc Hp Hm Hon Hr Hs] Ep Hi%installed_chld Hb%blocked_chld.
  destruct s as [t k p st m n l]. simpl in *. subst p m.
  unfold eff, hand, empty_slot in Hv, He. cbn [mp stack kids proc_tab] in Hv, He. rewrite ?Hb in Hv, He.
  constructor; unfold eff, hand, empty_slot; cbn [mp stack with_stack with_pend kids proc_tab lost pend];
    rewrite ?chld_in, ?Hb by done; try done; cbn [length]; try lia.
  - intros i Hi. rewrite (He i Hi). done.
  - change (waits (FWait :: st)) with (S (waits st)). lia.
Qed.

Lemma sig_kill_inv s sig int : inv s → installed sig s = true → inv (with_stack (FKill int 0 :: stack s) s).
Proof.
  intros Hs Hi. apply (inv_keeps s); cbn [with_stack proc_tab kids pend stack mp lost]; try done; [| |by left].
  - apply chld_kill.
  - intros _. unfold installed in Hi. by destruct (mp s).
Qed.

Lemma server_step_inv b s s' : inv s → step b s s' → mp s' = MExit ∨ inv s'.
Proof.
  intros Hs [l Hl]. unfold exec in Hl. rewrite decide_False in Hl by apply (i_on s Hs).
  destruct l as [o|sig|pid].
  - destruct (stack s) as [|f below] eqn:Est; [right; by eapply server_main_inv|].
    destruct f as [int i| | |]; [|right; by eapply restart_inv..].
    injection Hl as <-. by apply kill_child_inv.
  - assert (sig ≠ SIGCHLD → (if installed sig s then
      if blocked b sig s then None else Some (with_stack (FKill (bool_decide (sig = SIGINT)) 0 :: stack s) s)
      else Some (with_stack [] (with_mp MExit s))) = Some s' → mp s' = MExit ∨ inv s') as Hkill.
    { intros _. destruct (installed sig s) eqn:Ei; [|by intros [= <-]; left].
      destruct (blocked b sig s); [done|]. intros [= <-]. right. by eapply sig_kill_inv. }
    destruct sig; [by apply Hkill..|].
    destruct (pend s) eqn:Ep; [|done]. destruct (installed SIGCHLD s) eqn:Ei; [|done].
    destruct (blocked b SIGCHLD s) eqn:Eb; [done|]. injection Hl as <-. right. by eapply sig_chld_inv.
  - destruct (kids s !! pid) as [x|] eqn:Ek; [|done]. right.
    assert (x ≠ Zombie ∧ s' = (let s := with_kids (<[pid := Zombie]> (kids s)) s in
       if installed SIGCHLD s && negb (pend s) then with_pend true s else with_lost (S (lost s)) s)) as [Hx ->].
    { destruct x; (split; [done|]); [..|done]; cbv zeta in *; by destruct (_ && _); injection Hl as <-. }
    by eapply die_inv.
Qed.

Lemma server_reach_inv b s : rtc (step b) start s → mp s = MExit ∨ inv s.
Proof.
  intros Hr. assert (∀ s0 s, rtc (step b) s0 s → mp s0 = MExit ∨ inv s0 → mp s = MExit ∨ inv s) as H.
  { induction 1 as [|s0 s1 s2 Hs _ IH]; [done|]. intros [He|Hi]; apply IH; [|by eapply server_step_inv].
    destruct Hs as [l Hl]. unfold exec in Hl. by rewrite decide_True in Hl. }
  apply (H _ _ Hr). right. apply server_inv_start.
Qed.

(** ** The numbers of processes *)
(** The slots that were given up. *)
Definition failures (t : list Z) : nat := length (filter (λ e, e = -1) t).

Lemma view_size t k : view t k → size k = length (pos t).
Proof.
  intros [_ _ Hn Hd]. rewrite <-(size_dom (D := gset Z)), Hd. by apply size_list_to_set.
Qed.
Lemma view_count t k : view t k → Forall (λ e, e ≠ 0) t → (size k + failures t = MAX_POOL)%nat.
Proof.
  intros Hv Hz. rewrite (view_size t k Hv), <-(v_len t k Hv). pose proof (v_min t k Hv) as Hm.
  unfold pos, failures. clear Hv. induction t as [|e t IH]; [done|].
  apply Forall_cons in Hz as [H0 Hz]. apply Forall_cons in Hm as [H1 Hm]. specialize (IH Hz Hm).
  rewrite !filter_cons. repeat case_decide; simpl; lia.
Qed.

(** ** Processes that are no children *)
Lemma chld_tail fs : chld fs = [] → chld (tail fs) = [].
Proof. destruct fs as [|f fs]; [done|]. rewrite chld_cons. by intros [_ ?]%app_nil. Qed.

Lemma fork_keeps o s r : fork o s = Some r → stray r.2 = stray s ∧ stack r.2 = stack s.
Proof. unfold fork. destruct o; [case_decide; [|done]|]; by intros [= <-]. Qed.
Lemma main_keeps o s s' : main o s = Some s' → stray s' = stray s ∧ stack s' = stack s.
Proof.
  unfold main. destruct (mp s); try done; [|by intros [= <-]..].
  case_decide; [|by intros [= <-]]. destruct (fork o s) as [[pid s1]|] eqn:E; [|done].
  apply fork_keeps in E. simpl in *. by destruct (pid =? -1); intros [= <-].
Qed.
Lemma restart_keeps f o below s s' : restart_child f o below s = Some s' →
  stray s' = stray s ∧ (stack s' = below ∨ tail (stack s') = below).
Proof.
  destruct f as [|  |i|i pid]; simpl; [done|..].
  - destruct (waitpid o s) as [[pid s1]|] eqn:E; [|done]. simpl.
    assert (stray s1 = stray s) as Es.
    { unfold waitpid in E. destruct o; case_decide; try done; by injection E as <- <-. }
    destruct (pid <=? 0); [|destruct (find_pid _ _)]; intros [= <-]; simpl; auto.
  - destruct (fork o s) as [[pid s1]|] eqn:E; [|done]. apply fork_keeps in E as [Es _]. simpl in *.
    destruct (pid =? -1); intros [= <-]; simpl; auto.
  - intros [= <-]. simpl. auto.
Qed.

(** What [kill_child] does when no [restart_child] is under way. *)
Lemma no_chld_eff s : inv s → chld (stack s) = [] → stack s ≠ [] → eff s = proc_tab s.
Proof.
  intros Hs Hc Hn. pose proof (i_main s Hs Hn) as Hm. unfold eff, hand. rewrite Hc. by destruct (mp s).
Qed.

(** No handler of [SIGCHLD] is interrupted. *)
Record quiet (s : server) : Prop := { q_stray : stray s = []; q_below : chld (tail (stack s)) = [] }.

Lemma kill_quiet int i below s : inv s → quiet s → stack s = FKill int i :: below → quiet (kill_child int i below s).
Proof.
  intros Hs [Hst Hb] Est. rewrite Est in Hb. simpl in Hb. unfold kill_child.
  destruct (proc_tab s !! i) as [pid|] eqn:Ei; [|by constructor]. constructor; [|done]. simpl.
  destruct (Z.ltb_spec 0 pid); [|done]. unfold kill.
  assert (is_Some (kids s !! pid)) as [x Hx].
  { apply (view_elem (eff s)); [apply (i_view s Hs)|]. rewrite no_chld_eff; rewrite ?Est, ?chld_kill; try done.
    split; [|done]. by eapply list_elem_of_lookup_2. }
  rewrite Hx. by destruct x.
Qed.

Lemma blocked_all sig s : blocked true sig s = false → chld (stack s) = [].
Proof.
  unfold blocked. induction (stack s) as [|f fs IH]; [done|]. simpl. intros [Hf Hfs]%orb_false_iff.
  apply orb_false_iff in Hf as [_ Hf]. apply bool_decide_eq_false in Hf.
  rewrite chld_cons, decide_False by done. by apply IH.
Qed.

Lemma step_quiet s s' : mp s = MExit ∨ inv s → quiet s → step true s s' → quiet s'.
Proof.
  intros Hi Hq [l Hl]. pose proof Hq as [Hst Hb]. unfold exec in Hl. case_decide as He; [done|].
  destruct Hi as [?|Hi]; [done|]. destruct l as [o|sig|pid].
  - destruct (stack s) as [|f below] eqn:Est.
    + apply main_keeps in Hl as [E1 E2]. constructor; [by rewrite E1|]. by rewrite E2, Est.
    + simpl in Hb. destruct f; [injection Hl as <-; by apply kill_quiet|..]; apply restart_keeps in Hl as [E1 E2];
        (constructor; [by rewrite E1|]); (destruct E2 as [-> | ->]; [by apply chld_tail|done]).
  - assert ((if installed sig s then
      if blocked true sig s then None else Some (with_stack (FKill (bool_decide (sig = SIGINT)) 0 :: stack s) s)
      else Some (with_stack [] (with_mp MExit s))) = Some s' → quiet s') as Hkill.
    { destruct (installed sig s); [|by intros [= <-]]. destruct (blocked true sig s) eqn:Eb; [done|].
      intros [= <-]. constructor; [done|]. by apply blocked_all in Eb. }
    destruct sig; [by apply Hkill..|].
    destruct (pend s), (installed SIGCHLD s), (blocked true SIGCHLD s) eqn:Eb; try done. injection Hl as <-.
    constructor; [done|]. by apply blocked_all in Eb.
  - destruct (kids s !! pid) as [[]|]; try done; cbv zeta in Hl; destruct (_ && _); by injection Hl as <-.
Qed.

Lemma reach_quiet s : rtc (step true) start s → quiet s.
Proof.
  intros Hr. assert (∀ s0 s, rtc (step true) s0 s → rtc (step true) start s0 → quiet s0 → quiet s) as H.
  { induction 1 as [|s0 s1 s2 Hs _ IH]; [done|]. intros H0 Hq. apply IH; [by eapply rtc_r|].
    eapply step_quiet; [|done|done]. by eapply server_reach_inv. }
  by apply (H start s).
Qed.

(** ** The properties *)

(** C33. The numbers of children.  In every state that the server reaches, whatever
    children end and signals arrive, and until it exits, it has at most [MAX_POOL]
    children, and those that ended and were not waited for are as many as ended
    without a signal of their own, with the one whose signal is still to be
    handled; whenever it rests in [pause] the table holds exactly its children, and
    all of the pool runs but for a [fork] that failed and for those. *)
Theorem pool_counts b s : rtc (step b) start s → mp s ≠ MExit →
  (size (kids s) ≤ MAX_POOL)%nat ∧
  zombies (kids s) = (lost s + (if pend s then 1 else 0) + waits (stack s))%nat ∧
  (mp s = MPause → stack s = [] → pend s = false →
    (∀ pid, is_Some (kids s !! pid) ↔ pid ∈ proc_tab s ∧ 0 < pid) ∧
    (running (kids s) + failures (proc_tab s) + lost s = MAX_POOL)%nat).
Proof.
  intros Hr He. destruct (server_reach_inv b s Hr) as [?|Hs]; [done|]. pose proof (i_view s Hs) as Hv. split_and!.
  - rewrite (view_size _ _ Hv), <-(v_len _ _ Hv). unfold pos. apply length_filter.
  - apply Hs.
  - intros Hm Hst Hp. assert (eff s = proc_tab s) as Ee by (unfold eff, hand; by rewrite Hm, Hst).
    rewrite Ee in Hv. split; [by intros; apply view_elem|].
    pose proof (i_zombies s Hs) as Hz. rewrite Hst, Hp in Hz. change (waits []) with 0%nat in Hz.
    rewrite <-(view_count _ _ Hv), size_split; [lia|]. apply Forall_lookup. intros i e Hi ->.
    assert (i < MAX_POOL)%nat as Hlt by (rewrite <-(v_len _ _ Hv); by eapply lookup_lt_Some).
    pose proof (i_empty s Hs i Hlt) as Hem. rewrite Ee in Hem. apply Hem in Hi.
    unfold empty_slot in Hi. by rewrite Hm, Hst in Hi.
Qed.

(** Where the handler of [SIGCHLD] blocks the other signals, [kill_child] only
    ever sends a signal to children of the server, in every reachable state. *)
Theorem signals_children s : rtc (step true) start s → stray s = [].
Proof. intros Hr. by destruct (reach_quiet s Hr). Qed.

(** Steps given as a list. *)
Fixpoint runs (b : bool) (ls : list label) (s : server) : option server :=
  match ls with [] => Some s | l :: ls => s ← exec b l s; runs b ls s end.
Lemma server_runs_rtc b ls s s' : runs b ls s = Some s' → rtc (step b) s s'.
Proof.
  revert s. induction ls as [|l ls IH]; intros s; simpl; [by intros [= <-]|].
  destruct (exec b l s) as [x|] eqn:E; [|done]. intros Hr. eapply rtc_l; [by exists l|by apply IH].
Qed.

Ltac omap := cbn [fmap option_fmap option_map].

Lemma kill_lookup pid s pid' : is_Some (kids s !! pid) →
  kids (kill pid s) !! pid' = (λ x, if decide (pid' = pid ∧ x = Running) then Signalled else x) <$> kids s !! pid'.
Proof.
  intros [x Hx]. unfold kill. destruct (decide (pid' = pid)) as [->|Hn].
  - rewrite Hx. simpl. destruct x; cbn [kids with_kids]; rewrite ?lookup_insert_eq, ?Hx; omap;
      case_decide; naive_solver.
  - rewrite Hx. assert (kids s !! pid' = (λ x, if decide (pid' = pid ∧ x = Running) then Signalled else x) <$> kids s !! pid') as E.
    { destruct (kids s !! pid'); [|done]. omap. by rewrite decide_False by naive_solver. }
    destruct x; simpl; [|done..]. by rewrite lookup_insert_ne.
Qed.

(** The loop of [kill_child] from an index on, without interruption: the children
    found from there on have been sent the signal. *)
Lemma kill_loop b int i below s : mp s = MPause → length (proc_tab s) = MAX_POOL → (i ≤ MAX_POOL)%nat →
  stack s = FKill int i :: below →
  (∀ pid, pid ∈ proc_tab s → 0 < pid → is_Some (kids s !! pid)) →
  ∃ s', runs b (replicate (MAX_POOL - i + 1) (Run None)) s = Some s' ∧ mp s' = MExit ∧ stray s' = stray s ∧
    ∀ pid, kids s' !! pid =
      (λ x, if decide (pid ∈ drop i (proc_tab s) ∧ 0 < pid ∧ x = Running) then Signalled else x) <$> kids s !! pid.
Proof.
  intros Hm Hl Hi. remember (MAX_POOL - i)%nat as n eqn:En. revert i s Hm Hl Hi En.
  induction n as [|n IH]; intros i s Hm Hl Hi En Est Hin.
  - assert (proc_tab s !! i = None) as E by (apply lookup_ge_None; lia).
    simpl. unfold exec. rewrite decide_False by congruence. rewrite Est. unfold kill_child. rewrite E. simpl.
    eexists. split_and!; [done..|]. intros pid. cbn [kids with_stack with_mp]. rewrite drop_ge by lia.
    destruct (kids s !! pid); [|done]. omap. rewrite decide_False; [done|]. intros [?%not_elem_of_nil _]. done.
  - destruct (lookup_lt_is_Some_2 (proc_tab s) i) as [p Hp]; [lia|].
    set (s1 := kill_child int i below s).
    assert (exec b (Run None) s = Some s1) as E1.
    { unfold exec. rewrite decide_False by congruence. by rewrite Est. }
    assert (proc_tab s1 = proc_tab s ∧ mp s1 = MPause ∧ stray s1 = stray s ∧ stack s1 = FKill int (S i) :: below ∧
      ∀ pid, kids s1 !! pid = (λ x, if decide (pid = p ∧ 0 < p ∧ x = Running) then Signalled else x) <$> kids s !! pid)
      as (T1 & M1 & S1 & F1 & K1).
    { unfold s1, kill_child. rewrite Hp. simpl. destruct (Z.ltb_spec 0 p) as [Hpos|Hneg].
      - pose proof (Hin p ltac:(by eapply list_elem_of_lookup_2) Hpos) as Hk.
        destruct (kill_keeps p s) as (A1 & A2 & A3 & _). split_and!; [done|congruence| |done|].
        + unfold kill. destruct Hk as [x ->]. by destruct x.
        + intros pid. rewrite kill_lookup by done. destruct (kids s !! pid) as [x|]; [|done]. omap. f_equal.
          apply decide_ext. naive_solver.
      - split_and!; [done..|]. intros pid. destruct (kids s !! pid) as [x|]; [|done]. omap.
        rewrite decide_False; [done|]. lia. }
    destruct (IH (S i) s1) as (s' & Hr & He & Hs & Hk); [done|by rewrite T1|lia|lia|done| |].
    { intros pid Hpid Hpos. rewrite T1 in Hpid. destruct (Hin pid Hpid Hpos) as [x Hx]. rewrite K1, Hx. by eexists. }
    exists s'. split_and!; [|done|by rewrite Hs|].
    + change (replicate (S n + 1) (Run None)) with (Run None :: replicate (n + 1) (Run None)).
      cbn [runs]. rewrite E1. exact Hr.
    + intros pid. rewrite Hk, K1, T1, (drop_S _ _ _ Hp). destruct (kids s !! pid) as [x|]; [|done]. omap. f_equal.
      repeat case_decide; try done; set_solver.
Qed.

(** A server that is told to end while it rests, and is not interrupted then,
    ends all its children: it sends each of those that run the signal, none to
    anything else, and exits. *)
Theorem kill_stops_all b s : rtc (step b) start s → mp s = MPause → stack s = [] →
  ∃ s', runs b (Sig SIGTERM :: replicate (MAX_POOL + 1) (Run None)) s = Some s' ∧ mp s' = MExit ∧ stray s' = stray s ∧
    ∀ pid, kids s' !! pid = (λ x, if decide (x = Running) then Signalled else x) <$> kids s !! pid.
Proof.
  intros Hr Hm Hst. destruct (server_reach_inv b s Hr) as [?|Hs]; [congruence|]. pose proof (i_view s Hs) as Hv.
  assert (eff s = proc_tab s) as Ee by (unfold eff, hand; by rewrite Hm, Hst). rewrite Ee in Hv.
  destruct (kill_loop b false 0 [] (with_stack [FKill false 0] s)) as (s' & Hrun & He & Hst' & Hk);
    [done|apply Hv|lia|done|by intros pid ??; apply (view_elem _ _ pid Hv)|].
  exists s'. split_and!; [|done..|].
  - cbn [runs]. unfold exec at 1. rewrite decide_False by congruence. unfold installed, blocked. rewrite Hm, Hst.
    exact Hrun.
  - intros pid. rewrite Hk. cbn [kids proc_tab with_stack]. destruct (kids s !! pid) as [x|] eqn:Ex; [|done]. omap. f_equal.
    destruct (proj1 (view_elem _ _ pid Hv)) as [Hin Hpos]; [by eexists|]. rewrite drop_0. apply decide_ext. naive_solver.
Qed.

(** ** Concrete runs *)
Definition boot : list label :=
  [Run (Some 101); Run None; Run (Some 102); Run None; Run (Some 103); Run None; Run None; Run None; Run None; Run None].
(** One child ends, and another one before its signal was handled. *)
Definition two_end : list label :=
  boot ++ [Die 101; Die 102; Sig SIGCHLD; Run (Some 101); Run (Some 104); Run None].

(** Two children that end together: only one is replaced, the other stays a zombie. *)
Lemma merged_signal b : ∃ s, rtc (step b) start s ∧ mp s = MPause ∧ stack s = [] ∧ pend s = false ∧
  proc_tab s = [104; 102; 103] ∧ kids s !! 102 = Some Zombie.
Proof.
  destruct (runs b two_end start) as [s|] eqn:E; [|destruct b; by vm_compute in E].
  exists s. split; [by eapply server_runs_rtc|]. destruct b; vm_compute in E; injection E as <-; by split_and!.
Qed.
(** Children that end while [kill_child] runs are replaced, and the new one is
    left behind. *)
Lemma kill_orphans b : ∃ s, rtc (step b) start s ∧ mp s = MExit ∧ kids s !! 104 = Some Running.
Proof.
  destruct (runs b (boot ++ [Sig SIGTERM; Run None; Die 101; Sig SIGCHLD; Run (Some 101); Run (Some 104); Run None;
    Run None; Run None; Run None]) start) as [s|] eqn:E; [|destruct b; by vm_compute in E].
  exists s. split; [by eapply server_runs_rtc|]. destruct b; vm_compute in E; injection E as <-; by split_and!.
Qed.
(** Without the mask a process that was waited for already can be sent the signal. *)
Lemma kill_strays : ∃ s, rtc (step false) start s ∧ stray s = [101] ∧ kids s !! 101 = None.
Proof.
  destruct (runs false (boot ++ [Die 101; Sig SIGCHLD; Run (Some 101); Sig SIGTERM; Run None]) start) as [s|] eqn:E;
    [|by vm_compute in E].
  exists s. split; [by eapply server_runs_rtc|]. vm_compute in E; injection E as <-; by split_and!.
Qed.

Lemma pool_counts_witness :
  ∃ s, rtc (step true) start s ∧ lost s = 1%nat ∧ (running (kids s) + failures (proc_tab s) + lost s = MAX_POOL)%nat.
Proof.
  destruct (runs true two_end start) as [s|] eqn:E; [|by vm_compute in E].
  pose proof (server_runs_rtc _ _ _ _ E) as Hr. exists s. split; [exact Hr|].
  assert (lost s = 1%nat ∧ mp s = MPause ∧ stack s = [] ∧ pend s = false) as (E1 & E2 & E3 & E4).
  { vm_compute in E. injection E as <-. by split_and!. }
  split; [exact E1|]. destruct (pool_counts true s Hr) as (_ & _ & H); [by rewrite E2|]. by apply H.
Defined.

Lemma signals_children_witness : ∃ s, rtc (step true) start s ∧ mp s = MExit ∧ stray s = [].
Proof.
  destruct (runs true (boot ++ [Die 102; Sig SIGTERM; Run None; Run None; Run None; Run None]) start) as [s|] eqn:E;
    [|by vm_compute in E].
  pose proof (server_runs_rtc _ _ _ _ E) as Hr. exists s. split; [exact Hr|]. split.
  - vm_compute in E. by injection E as <-.
  - exact (signals_children s Hr).
Defined.

Lemma kill_stops_all_witness : ∃ s s', rtc (step false) start s ∧ kids s !! 101 = Some Running ∧ mp s' = MExit ∧
  kids s' !! 101 = Some Signalled.
Proof.
  destruct (runs false boot start) as [s|] eqn:E; [|by vm_compute in E].
  pose proof (server_runs_rtc _ _ _ _ E) as Hr.
  assert (mp s = MPause ∧ stack s = [] ∧ kids s !! 101 = Some Running) as (E1 & E2 & E3).
  { vm_compute in E. injection E as <-. by split_and!. }
  destruct (kill_stops_all false s Hr E1 E2) as (s' & _ & He & _ & Hk). exists s, s'. split_and!; try done.
  by rewrite Hk, E3.
Defined.
