(* ===== verification/Locks.v ===== *)
(** * Threads around a lock ([alsp/src/8.pthread]: [pthread_mutex.c],
      [pthread_mutexattr.c], [pthread_mutex_type.c], [pthread_mutex_trylock.c],
      [pthread_spinlock.c], [pthread_rwlock.c])

    In each of these programs [main] creates threads and joins them, and
    [start_thread] takes a lock, changes the shared number [i_data] and releases
    the lock.  A thread is the list of the calls and accesses it still has to make
    ([instr]); an assignment that reads [i_data] is a load and a store.  The locks
    follow the documentation of the mutex types, of the spin lock and of the
    read-write lock: which of the waiting threads gets a lock is left open.
    Printing and sleeping, and the shared memory in which [pthread_mutex.c] puts
    its mutex, are not modelled. *)

From stdpp Require Import base gmap list relations.
From Stdlib Require Import ZArith Lia.
From S2P Require Import Prelude.

Local Open Scope Z_scope.

(** ** Locks *)
Inductive kind : Set := Normal | Errorcheck | Recursive | Rwlock.
#[export] Instance kind_eq_dec : EqDecision kind.
Proof. solve_decision. Defined.
Definition EDEADLK : Z := 35.
Definition EPERM : Z := 1.
Definition EBUSY : Z := 16.

(** How a thread holds a lock: with others, or alone, [S n] times. *)
Inductive hold : Set := Shared | Excl (n : nat).
#[export] Instance hold_eq_dec : EqDecision hold.
Proof. solve_decision. Defined.
Inductive want : Set := Read | Write.
#[export] Instance want_eq_dec : EqDecision want.
Proof. solve_decision. Defined.
Definition held (w : want) : hold := match w with Read => Shared | Write => Excl 0 end.

(** A lock: its holders. *)
Abbreviation lock := (gmap nat hold).
(** A thread that does not hold the lock can get it. *)
Definition free_for (w : want) (l : lock) : Prop :=
  match w with Write => l = ∅ | Read => map_Forall (λ _ h, h = Shared) l end.
#[export] Instance free_for_dec w l : Decision (free_for w l).
Proof. destruct w; apply _. Defined.

(** What a call does: it waits, returns, or is undefined. *)
Inductive outcome : Type := Blocks | Returns (r : Z) (l : lock) | Undefined.

(** [pthread_mutex_lock], [pthread_spin_lock], [pthread_rwlock_wrlock],
    [pthread_rwlock_rdlock]. *)
Definition acquire (k : kind) (w : want) (t : nat) (l : lock) : outcome :=
  match l !! t with
  | None => if decide (free_for w l) then Returns 0 (<[t := held w]> l) else Blocks
  | Some h =>
      match k, h with
      | Normal, _ => Blocks
      | Recursive, Excl n => Returns 0 (<[t := Excl (S n)]> l)
      | Recursive, Shared => Undefined
      | (Errorcheck | Rwlock), _ => Returns EDEADLK l
      end
  end.
(** [pthread_mutex_trylock]. *)
Definition try_acquire (t : nat) (l : lock) : Z * lock :=
  if decide (l = ∅) then (0, <[t := Excl 0]> l) else (EBUSY, l).
(** [pthread_mutex_unlock], [pthread_spin_unlock], [pthread_rwlock_unlock]. *)
Definition release (k : kind) (t : nat) (l : lock) : outcome :=
  match l !! t with
  | Some (Excl (S n)) => Returns 0 (<[t := Excl n]> l)
  | Some _ => Returns 0 (delete t l)
  | None => match k with Errorcheck | Recursive => Returns EPERM l | _ => Undefined end
  end.

(** ** Threads *)
(** A call or access; [quit]: the thread returns when the call fails. *)
Inductive instr : Set :=
| ISeed                               (* [gettimeofday], or [rand_r] *)
| ILock (w : want) (quit : bool)
| ITry                                (* the loop around [pthread_mutex_trylock] *)
| ILoad                               (* reads [i_data] *)
| IStore (f : Z → Z)                  (* stores a value made from the seed *)
| IUpdate (f : Z → Z → Z)             (* stores a value made from what was read and the seed *)
| IUnlock (quit : bool).

Record thread := Thread { code : list instr; seed : Z; reg : Z }.
Record program := Program { p_kind : kind; MAX_THREAD : nat; start_thread : nat → list instr }.

Inductive mpc : Set := MCreate (i : nat) | MJoin (i : nat) | MDone | MFailed.
#[export] Instance mpc_eq_dec : EqDecision mpc.
Proof. solve_decision. Defined.

(** The auxiliary [log] has the updates of [i_data], the last one first. *)
Record state := State { lk : lock; i_data : Z; thr : list thread; mp : mpc; log : list (Z → Z) }.

Section program.
Context (p : program).

Definition set_thr (t : nat) (th : thread) (s : state) : state :=
  State (lk s) (i_data s) (<[t := th]> (thr s)) (mp s) (log s).
Definition set_lk (l : lock) (s : state) : state := State l (i_data s) (thr s) (mp s) (log s).
Definition set_mp (m : mpc) (s : state) : state := State (lk s) (i_data s) (thr s) m (log s).

(** [i_data] gets the value [d]; [g] is the update that it is meant to be. *)
Definition store (t : nat) (th : thread) (d : Z) (g : Z → Z) (s : state) : state :=
  State (lk s) d (<[t := th]> (thr s)) (mp s) (g :: log s).

(** A call has returned [r]. *)
Definition returned (t : nat) (th : thread) (quit : bool) (c : list instr) (o : outcome) (s : state) : option state :=
  match o with
  | Blocks | Undefined => None
  | Returns r l => Some (set_lk l (set_thr t (Thread (if negb (r =? 0) && quit then [] else c) (seed th) (reg th)) s))
  end.

(** A step of a thread; [v] is what [ISeed] gets. *)
Definition thread_step (t : nat) (v : Z) (s : state) : option state :=
  match thr s !! t with
  | None => None
  | Some th =>
      match code th with
      | [] => None
      | ISeed :: c => Some (set_thr t (Thread c v (reg th)) s)
      | ILock w quit :: c => returned t th quit c (acquire (p_kind p) w t (lk s)) s
      | ITry :: c =>
          let '(r, l) := try_acquire t (lk s) in
          Some (set_lk l (set_thr t (Thread (if r =? 0 then c else code th) (seed th) (reg th)) s))
      | ILoad :: c => Some (set_thr t (Thread c (seed th) (i_data s)) s)
      | IStore f :: c => Some (store t (Thread c (seed th) (reg th)) (f (seed th)) (λ _, f (seed th)) s)
      | IUpdate f :: c => Some (store t (Thread c (seed th) (reg th)) (f (reg th) (seed th)) (λ d, f d (seed th)) s)
      | IUnlock quit :: c => returned t th quit c (release (p_kind p) t (lk s)) s
      end
  end.

(** [main] and [clean_thread]; [ok]: [pthread_create] succeeds. *)
Definition main_step (ok : bool) (s : state) : option state :=
  match mp s with
  | MCreate i =>
      if decide (i < MAX_THREAD p)%nat then
        if ok then
          Some (State (lk s) (i_data s) (thr s ++ [Thread (start_thread p i) 0 0]) (MCreate (S i)) (log s))
        else Some (set_mp MFailed s)
      else Some (set_mp (MJoin 0) s)
  | MJoin i =>
      if decide (i < MAX_THREAD p)%nat then
        match thr s !! i with
        | Some th => if decide (code th = []) then Some (set_mp (MJoin (S i)) s) else None
        | None => None
        end
      else Some (set_mp MDone s)
  | MDone | MFailed => None
  end.

(** When [main] returns the process ends, with its threads. *)
Inductive label : Set := RunM (ok : bool) | RunT (t : nat) (v : Z).
Definition exec (l : label) (s : state) : option state :=
  if decide (mp s = MDone ∨ mp s = MFailed) then None
  else match l with RunM ok => main_step ok s | RunT t v => thread_step t v s end.
Definition step (s s' : state) : Prop := ∃ l, exec l s = Some s'.
Definition start : state := State ∅ 0 [] (MCreate 0) [].
End program.

(** ** The programs *)
Definition set_seed : Z → Z := λ v, v.
(** [pthread_mutex.c], whose mutex checks for errors; [i = rand_r (..) % 7]. *)
Definition mutex_thread : list instr :=
  [ILock Write false; ISeed; IStore (λ v, Z.rem v 7); IUnlock false].
Definition mutex_prog : program := Program Errorcheck 3 (λ _, mutex_thread).
(** [pthread_mutexattr.c], with [USE_MUTEXATTR] and [ERRORCHECK_MUTEX]. *)
Definition attr_thread (errorcheck_mutex : bool) : list instr :=
  (if errorcheck_mutex then [ILock Write false] else []) ++ [ILock Write false; ISeed; IStore set_seed; IUnlock false].
Definition attr_prog (use_mutexattr errorcheck_mutex : bool) : program :=
  Program (if use_mutexattr then Errorcheck else Normal) 3 (λ _, attr_thread errorcheck_mutex).
(** [pthread_mutex_type.c], for the three types. *)
Definition type_thread : list instr :=
  [ILock Write false; ILock Write false; ISeed; IStore set_seed; IUnlock false].
Definition type_prog (k : kind) : program := Program k 3 (λ _, type_thread).
(** [pthread_mutex_trylock.c]. *)
Definition trylock_thread : list instr := [ITry; ISeed; IStore set_seed; IUnlock false].
Definition trylock_prog : program := Program Normal 3 (λ _, trylock_thread).
(** [pthread_spinlock.c]; [seed = tv.tv_usec % 4; i_data += seed]. *)
Definition spin_round : list instr :=
  [ISeed; ILock Write true; ILoad; IUpdate (λ d v, d + Z.rem v 4); IUnlock true].
Definition spin_thread : list instr := spin_round ++ spin_round.
Definition spin_prog : program := Program Normal 5 (λ _, spin_thread).
(** [pthread_rwlock.c]; thread 0 writes and the others read. *)
Definition rw_round (idx : nat) : list instr :=
  if decide (idx = 0%nat) then [ILock Write true; ILoad; IUpdate (λ d _, d + 1); IUnlock true]
  else [ILock Read true; ILoad; IUnlock true].
Definition rw_thread (idx : nat) : list instr := rw_round idx ++ rw_round idx.
Definition rw_prog : program := Program Rwlock 5 rw_thread.
