(* ===== verification/LocksProofs.v ===== *)
(** * Threads around a lock: correctness

    [ok_code] checks that a thread that ran alone would take and release the lock
    properly, and access [i_data] only between.  Any number of threads that pass
    this check never interfere, and always can go on until all have ended; the
    programs whose threads do not pass it hang. *)

From stdpp Require Import base gmap list relations.
From Stdlib Require Import ZArith Lia.
From S2P Require Import Prelude Locks.

Local Open Scope Z_scope.

(** ** The check of a thread

    [h]: how it holds the lock; [fr]: what it has read is still the value. *)
Fixpoint ok_code (k : kind) (h : option hold) (fr : bool) (c : list instr) : bool :=
  match c with
  | [] => bool_decide (h = None)
  | ISeed :: c => ok_code k h fr c
  | ILock w quit :: c =>
      match h, k with
      | None, _ => ok_code k (Some (held w)) false c
      | Some _, (Errorcheck | Rwlock) => negb quit && ok_code k h fr c
      | Some (Excl n), Recursive => ok_code k (Some (Excl (S n))) fr c
      | Some _, _ => false
      end
  | ITry :: c => bool_decide (h = None) && ok_code k (Some (Excl 0)) false c
  | ILoad :: c => negb (bool_decide (h = None)) && ok_code k h true c
  | IStore _ :: c => match h with Some (Excl _) => ok_code k h false c | _ => false end
  | IUpdate _ :: c => match h with Some (Excl _) => fr && ok_code k h false c | _ => false end
  | IUnlock _ :: c =>
      match h with
      | Some (Excl (S n)) => ok_code k (Some (Excl n)) fr c
      | Some _ => ok_code k None false c
      | None => false
      end
  end.
Definition checked (p : program) : Prop := ∀ i, (i < MAX_THREAD p)%nat → ok_code (p_kind p) None false (start_thread p i) = true.

(** No thread has the lock besides one that has it alone. *)
Definition exclusive (l : lock) : Prop := ∀ t n t' h, l !! t = Some (Excl n) → l !! t' = Some h → t' = t.

Lemma free_exclusive w t l : free_for w l → exclusive l → exclusive (<[t := held w]> l).
Proof.
  intros Hf Hl t1 n t2 h. rewrite !lookup_insert_Some. destruct w; simpl in *.
  - intros [[-> ?]|[_ H1]]; [done|]. by apply Hf in H1.
  - subst l. rewrite !lookup_empty. naive_solver.
Qed.
Lemma update_exclusive t n m l : l !! t = Some (Excl n) → exclusive l → exclusive (<[t := Excl m]> l).
Proof. intros Ht Hl t1 n1 t2 h. rewrite !lookup_insert_Some. intros [[<- _]|[? H1]] [[<- _]|[? H2]]; naive_solver. Qed.
Lemma delete_exclusive t l : exclusive l → exclusive (delete t l).
Proof. intros Hl t1 n t2 h [? H1]%lookup_delete_Some [? H2]%lookup_delete_Some. by eapply Hl. Qed.

(** ** What [main] has done *)
Definition main_ok (p : program) (s : state) : Prop :=
  match mp s with
  | MCreate i => length (thr s) = i ∧ (i ≤ MAX_THREAD p)%nat
  | MJoin i => length (thr s) = MAX_THREAD p ∧ (i ≤ MAX_THREAD p)%nat ∧
               ∀ t th, (t < i)%nat → thr s !! t = Some th → code th = []
  | MDone => length (thr s) = MAX_THREAD p ∧ ∀ t th, thr s !! t = Some th → code th = []
  | MFailed => (length (thr s) ≤ MAX_THREAD p)%nat
  end.

Lemma main_ok_thread p t th th' s l d g : main_ok p s → thr s !! t = Some th → code th ≠ [] →
  main_ok p (State l d (<[t := th']> (thr s)) (mp s) g).
Proof.
  intros Hm Hth Hc. unfold main_ok in *. cbn [mp thr]. rewrite length_insert. destruct (mp s) as [i|i| |]; [done|..|done].
  - destruct Hm as (H1 & H2 & H3). split_and!; [done..|]. intros t1 th1 Hlt1 Hth1.
    destruct (decide (t1 = t)) as [->|Hn]; [by destruct Hc; eapply H3|].
    rewrite list_lookup_insert_ne in Hth1 by done. by eapply H3.
  - destruct Hm as [H1 H2]. destruct Hc. by eapply H2.
Qed.
Lemma main_ok_main p ok s s' : main_ok p s → main_step p ok s = Some s' → main_ok p s'.
Proof.
  unfold main_ok, main_step. intros Hm. destruct (mp s) as [i|i| |]; [| |done..].
  - destruct Hm as [Hlen Hi]. case_decide as Hlt.
    + destruct ok; intros [= <-]; simpl; [rewrite length_app; simpl|]; lia.
    + intros [= <-]. simpl. split_and!; lia.
  - destruct Hm as (Hlen & Hi & Hj). case_decide as Hlt.
    + destruct (thr s !! i) as [th|] eqn:Eth; [|done]. case_decide as Hc; [|done]. intros [= <-].
      simpl. split_and!; [done|lia|]. intros t th' Hlt' Hth'.
      destruct (decide (t = i)) as [->|]; [congruence|]. apply (Hj t); [lia|done].
    + intros [= <-]. simpl. split; [done|]. intros t th Hth. eapply Hj; [|done].
      apply lookup_lt_Some in Hth. lia.
Qed.

Section checked.
Context (p : program) (HP : checked p).

(** A thread goes on properly from how it holds the lock. *)
Definition thr_ok (l : lock) (d : Z) (t : nat) (th : thread) : Prop :=
  ∃ fr, ok_code (p_kind p) (l !! t) fr (code th) = true ∧ (fr = true → is_Some (l !! t) ∧ reg th = d).

Record inv (s : state) : Prop := {
  i_thr : ∀ t th, thr s !! t = Some th → thr_ok (lk s) (i_data s) t th;
  i_dom : ∀ t, is_Some (lk s !! t) → is_Some (thr s !! t);
  i_excl : exclusive (lk s);
  i_log : i_data s = foldr (λ g d, g d) 0 (log s);
  i_main : main_ok p s;
}.

(** What a step of thread [t] keeps: it changes its own code, its entry in the
    lock, and, if it has the lock alone, the data. *)
Lemma inv_thread t th th' s l d g : inv s → thr s !! t = Some th → code th ≠ [] →
  thr_ok l d t th' →
  (∀ t', t' ≠ t → l !! t' = lk s !! t') → exclusive l →
  d = foldr (λ g d, g d) 0 g → (d = i_data s ∨ ∃ n, lk s !! t = Some (Excl n)) →
  inv (State l d (<[t := th']> (thr s)) (mp s) g).
Proof.
  intros [Ht Hd He Hl Hm] Hth Hc Hok Hother Hex Hdata Hd'. pose proof (lookup_lt_Some _ _ _ Hth) as Hlt.
  constructor; simpl; try done.
  - intros t1 th1 H1. destruct (decide (t1 = t)) as [->|Hn].
    + rewrite list_lookup_insert_eq in H1 by done. by injection H1 as <-.
    + rewrite list_lookup_insert_ne in H1 by done. destruct (Ht t1 th1 H1) as (fr & Hfr & Hreg).
      exists fr. rewrite Hother by done. split; [done|]. intros E. destruct (Hreg E) as [[h Hh] Hr]. split; [by eexists|].
      destruct Hd' as [->|[n Hn']]; [done|]. destruct Hn. by eapply He.
  - intros t1 H1. apply lookup_lt_is_Some. rewrite length_insert. apply lookup_lt_is_Some.
    destruct (decide (t1 = t)) as [->|Hn]; [by eexists|]. apply Hd. by rewrite <-Hother.
  - by eapply main_ok_thread.
Qed.

Lemma inv_keep_data t th c s v r : inv s → thr s !! t = Some th → code th ≠ [] → thr_ok (lk s) (i_data s) t (Thread c v r) →
  inv (set_thr t (Thread c v r) s).
Proof. intros Hs Hth Hc Hok.
  refine (inv_thread t th _ s (lk s) (i_data s) (log s) Hs Hth Hc Hok _ _ _ _); [done|apply Hs|apply Hs|by left]. Qed.

Lemma returned_inv t th quit c o s s' : inv s → thr s !! t = Some th → code th ≠ [] →
  (∀ r l, o = Returns r l → (∀ t', t' ≠ t → l !! t' = lk s !! t') ∧ exclusive l ∧
     thr_ok l (i_data s) t (Thread (if negb (r =? 0) && quit then [] else c) (seed th) (reg th))) →
  returned t th quit c o s = Some s' → inv s'.
Proof.
  intros Hs Hth Hc Ho. destruct o as [|r l|]; [done| |done]. intros [= <-].
  destruct (Ho r l eq_refl) as (H1 & H2 & H3).
  refine (inv_thread t th _ s l (i_data s) (log s) Hs Hth Hc H3 H1 H2 _ _); [apply Hs|by left].
Qed.

Lemma acquire_ok t th w quit c s : inv s → thr s !! t = Some th → code th = ILock w quit :: c →
  ∀ r l, acquire (p_kind p) w t (lk s) = Returns r l → (∀ t', t' ≠ t → l !! t' = lk s !! t') ∧ exclusive l ∧
    thr_ok l (i_data s) t (Thread (if negb (r =? 0) && quit then [] else c) (seed th) (reg th)).
Proof.
  intros Hs Hth Ec r l. destruct (i_thr s Hs t th Hth) as (fr & Hok & Hfr). rewrite Ec in Hok. simpl in Hok.
  unfold acquire. destruct (lk s !! t) as [h|] eqn:El.
  - assert (Returns EDEADLK (lk s) = Returns r l → negb quit && ok_code (p_kind p) (Some h) fr c = true →
      (∀ t', t' ≠ t → l !! t' = lk s !! t') ∧ exclusive l ∧
      thr_ok l (i_data s) t (Thread (if negb (r =? 0) && quit then [] else c) (seed th) (reg th))) as Herr.
    { intros [= <- <-] [Hq Hok']%andb_prop. split_and!; [done|apply Hs|]. destruct quit; [done|]. simpl.
      exists fr. rewrite El. split; [done|]. apply Hfr. }
    destruct (p_kind p) eqn:Ek; [done|intros E; apply Herr; [done|by destruct h]| |intros E; apply Herr; [done|by destruct h]]. destruct h as [|n]; [done|]. intros [= <- <-].
    split_and!; [intros; by rewrite lookup_insert_ne|by eapply update_exclusive, Hs|].
    simpl. exists fr. rewrite lookup_insert_eq, Ek. split; [done|]. intros E. split; [by eexists|by apply Hfr].
  - case_decide as Hf; [|done]. intros [= <- <-].
    split_and!; [intros; by rewrite lookup_insert_ne|by apply free_exclusive; [|apply Hs]|].
    simpl. exists false. rewrite lookup_insert_eq. split; [by destruct (p_kind p)|done].
Qed.

Lemma release_ok t th quit c s : inv s → thr s !! t = Some th → code th = IUnlock quit :: c →
  is_Some (lk s !! t) ∧
  ∀ r l, release (p_kind p) t (lk s) = Returns r l → r = 0 ∧ (∀ t', t' ≠ t → l !! t' = lk s !! t') ∧ exclusive l ∧
    thr_ok l (i_data s) t (Thread (if negb (r =? 0) && quit then [] else c) (seed th) (reg th)).
Proof.
  intros Hs Hth Ec. destruct (i_thr s Hs t th Hth) as (fr & Hok & Hfr). rewrite Ec in Hok. simpl in Hok.
  unfold release. destruct (lk s !! t) as [h|] eqn:El; [|done]. split; [by eexists|]. intros r l Hr.
  assert ((∃ n, h = Excl (S n) ∧ r = 0 ∧ l = <[t := Excl n]> (lk s)) ∨
          (r = 0 ∧ l = delete t (lk s) ∧ ok_code (p_kind p) None false c = true)) as [(n & -> & -> & ->)|(-> & -> & Hok')].
  { destruct h as [|[|n]]; injection Hr as <- <-; [right; done..|left; by exists n]. }
  - split_and!; [done|intros; by rewrite lookup_insert_ne|by eapply update_exclusive, Hs|].
    simpl. exists fr. rewrite lookup_insert_eq. split; [done|]. intros E. split; [by eexists|by apply Hfr].
  - split_and!; [done|intros; by rewrite lookup_delete_ne|by apply delete_exclusive, Hs|].
    simpl. exists false. by rewrite lookup_delete_eq.
Qed.

Lemma thread_inv t v s s' : inv s → thread_step p t v s = Some s' → inv s'.
Proof.
  intros Hs. unfold thread_step. destruct (thr s !! t) as [th|] eqn:Hth; [|done].
  destruct (i_thr s Hs t th Hth) as (fr & Hok & Hfr).
  destruct (code th) as [|i c] eqn:Ec; [done|]. assert (code th ≠ []) as Hc by by rewrite Ec.
  destruct i as [|w quit| | |f|f|quit]; simpl in Hok.
  - intros [= <-]. eapply inv_keep_data; [done..|]. by exists fr.
  - eapply returned_inv; [done..|]. by eapply acquire_ok.
  - apply andb_prop in Hok as [Hh%bool_decide_eq_true Hok]. unfold try_acquire. case_decide as Hf.
    + intros [= <-]. refine (inv_thread t th _ s _ (i_data s) (log s) Hs Hth Hc _ _ _ _ _).
      * exists false. rewrite lookup_insert_eq. done.
      * intros. by rewrite lookup_insert_ne.
      * rewrite Hf. intros t1 n t2 h. rewrite !lookup_insert_Some, !lookup_empty. naive_solver.
      * apply Hs.
      * by left.
    + intros [= <-]. refine (inv_thread t th _ s _ (i_data s) (log s) Hs Hth Hc _ _ _ _ _).
      * exists fr. simpl. split; [|done]. simpl. rewrite Hh in *. simpl. done.
      * done.
      * apply Hs.
      * apply Hs.
      * by left.
  - apply andb_prop in Hok as [Hh%negb_true_iff Hok]. apply bool_decide_eq_false in Hh.
    intros [= <-]. eapply inv_keep_data; [done..|]. exists true. split; [done|]. intros _. split; [|done].
    by destruct (lk s !! t).
  - destruct (lk s !! t) as [[|n]|] eqn:El; try done. intros [= <-].
    refine (inv_thread t th _ s (lk s) _ _ Hs Hth Hc _ _ _ _ _); [|done|apply Hs|done|right; by exists n].
    exists false. by rewrite El.
  - destruct (lk s !! t) as [[|n]|] eqn:El; try done. apply andb_prop in Hok as [-> Hok]. intros [= <-].
    refine (inv_thread t th _ s (lk s) _ _ Hs Hth Hc _ _ _ _ _); [|done|apply Hs| |right; by exists n].
    + exists false. by rewrite El.
    + simpl. rewrite <-(i_log s Hs). by destruct (Hfr eq_refl) as [_ ->].
  - eapply returned_inv; [done..|]. intros r l Hr. by eapply release_ok in Hr as (_ & ?).
Qed.

Lemma locks_main_inv ok s s' : inv s → main_step p ok s = Some s' → inv s'.
Proof using HP.
  intros [Ht Hd He Hl Hm] Hs. pose proof (main_ok_main p ok s s' Hm Hs) as Hm'. revert Hs.
  unfold main_step, main_ok in *. destruct (mp s) as [i|i| |] eqn:Em; [| |done..].
  - destruct Hm as [Hlen Hi]. case_decide as Hlt; [|by intros [= <-]]. destruct ok; intros [= <-]; [|done].
    constructor; simpl in *; try done.
    + intros t th. rewrite lookup_app_Some. intros [H|[Hge H]]; [by apply Ht|].
      destruct (t - length (thr s))%nat as [|n] eqn:En; [|done]. assert (t = i) as -> by lia. injection H as <-.
      exists false. split; [|done]. simpl. destruct (lk s !! i) as [h|] eqn:El; [|by apply HP].
      destruct (Hd i) as [x Hx]; [by eexists|]. apply lookup_lt_Some in Hx. lia.
    + intros t H. destruct (Hd t H) as [x Hx]. rewrite lookup_app_l by (by eapply lookup_lt_Some). by eexists.
  - case_decide; [|by intros [= <-]]. destruct (thr s !! i); [|done]. case_decide; [|done]. by intros [= <-].
Qed.

Lemma locks_inv_start : inv start.
Proof. constructor; try done; [by intros t [? ?]|]. unfold main_ok. simpl. lia. Qed.

Lemma locks_step_inv s s' : inv s → step p s s' → inv s'.
Proof using HP.
  intros Hs [l Hl]. unfold exec in Hl. case_decide; [done|]. destruct l; [by eapply locks_main_inv|by eapply thread_inv].
Qed.
Lemma locks_reach_inv s : rtc (step p) start s → inv s.
Proof using HP.
  assert (∀ s0 s, rtc (step p) s0 s → inv s0 → inv s) as H.
  { induction 1; [done|]. intros. by apply IHrtc, (locks_step_inv x). }
  intros Hr. eapply H; [done|]. apply locks_inv_start.
Qed.

(** ** What is left to do *)
Definition left_code (ths : list thread) : nat := sum_list_with (λ th, length (code th)) ths.
Definition left_main (m : mpc) : nat :=
  match m with
  | MCreate i => sum_list_with (λ j, S (length (start_thread p j))) (seq i (MAX_THREAD p - i)) + MAX_THREAD p + 2
  | MJoin i => MAX_THREAD p - i + 1
  | MDone | MFailed => 0
  end.
Definition left_over (s : state) : nat := left_code (thr s) + left_main (mp s).

Lemma left_code_insert t th th' ths : ths !! t = Some th →
  (left_code (<[t := th']> ths) + length (code th) = left_code ths + length (code th'))%nat.
Proof.
  unfold left_code. revert t. induction ths as [|x ths IH]; intros [|t] H; simpl in *; [done|done| |].
  - injection H as ->. lia.
  - specialize (IH t H). lia.
Qed.

Lemma returned_left t th quit c o s s' i : thr s !! t = Some th → code th = i :: c →
  returned t th quit c o s = Some s' → (left_over s' < left_over s)%nat.
Proof.
  intros Hth Hc. destruct o as [|r l|]; [done| |done]. intros [= <-]. unfold left_over. simpl.
  pose proof (left_code_insert t th (Thread (if negb (r =? 0) && quit then [] else c) (seed th) (reg th)) _ Hth) as H.
  rewrite Hc in H. simpl in H. destruct (negb (r =? 0) && quit); simpl in H; lia.
Qed.

Lemma thread_left t v s s' : thread_step p t v s = Some s' → (left_over s' < left_over s)%nat ∨ s' = s.
Proof.
  unfold thread_step. destruct (thr s !! t) as [th|] eqn:Hth; [|done].
  destruct (code th) as [|i c] eqn:Ec; [done|].
  assert (∀ sd rg, (left_code (<[t := Thread c sd rg]> (thr s)) < left_code (thr s))%nat) as Hless.
  { intros sd rg. pose proof (left_code_insert t th (Thread c sd rg) _ Hth) as H. rewrite Ec in H. simpl in H. lia. }
  destruct i as [|w quit| | |f|f|quit]; try (intros [= <-]; left; unfold left_over; simpl; auto with lia; fail).
  - intros [= <-]. left. unfold left_over. simpl. specialize (Hless v (reg th)). lia.
  - intros Hr. left. by eapply returned_left.
  - unfold try_acquire. case_decide; intros [= <-]; [left|right].
    + unfold left_over. simpl. specialize (Hless (seed th) (reg th)). lia.
    + rewrite <-Ec. destruct s, th; simpl in *. unfold set_lk, set_thr. simpl. by rewrite list_insert_id.
  - intros [= <-]. left. unfold left_over. simpl. specialize (Hless (seed th) (i_data s)). lia.
  - intros [= <-]. left. unfold left_over. simpl. specialize (Hless (seed th) (reg th)). lia.
  - intros [= <-]. left. unfold left_over. simpl. specialize (Hless (seed th) (reg th)). lia.
  - intros Hr. left. by eapply returned_left.
Qed.

Lemma main_left ok s s' : main_step p ok s = Some s' → (left_over s' < left_over s)%nat.
Proof.
  unfold main_step, left_over. destruct (mp s) as [i|i| |]; [| |done..].
  - case_decide as Hi.
    + destruct ok; intros [= <-]; simpl.
      * unfold left_code. rewrite sum_list_with_app. simpl.
        replace (MAX_THREAD p - i)%nat with (S (MAX_THREAD p - S i)) by lia. simpl. lia.
      * lia.
    + intros [= <-]. simpl. replace (MAX_THREAD p - i)%nat with 0%nat by lia. simpl. lia.
  - case_decide as Hi.
    + destruct (thr s !! i); [|done]. case_decide; [|done]. intros [= <-]. simpl. lia.
    + intros [= <-]. simpl. lia.
Qed.

(** A step that does something: all but a [pthread_mutex_trylock] that fails. *)
Definition progress (s s' : state) : Prop := step p s s' ∧ s' ≠ s.

Lemma progress_left s s' : progress s s' → (left_over s' < left_over s)%nat.
Proof.
  intros [[l Hl] Hn]. unfold exec in Hl. case_decide; [done|]. destruct l; [by eapply main_left|].
  by destruct (thread_left _ _ _ _ Hl).
Qed.
Lemma progress_sn s : sn progress s.
Proof.
  remember (left_over s) as n eqn:En. revert s En. induction (lt_wf n) as [n _ IH]. intros s ->.
  constructor. intros s' Hs. eapply IH; [by eapply progress_left|done].
Qed.

(** ** Progress *)
(** A thread that holds the lock, or that could get it, can go on. *)
Lemma thread_progress s t th : inv s → mp s ≠ MDone → mp s ≠ MFailed →
  thr s !! t = Some th → code th ≠ [] → is_Some (lk s !! t) ∨ lk s = ∅ → ∃ s', progress s s'.
Proof.
  intros Hs Hm1 Hm2 Hth Hc Hl.
  enough (∃ s', thread_step p t 0 s = Some s' ∧ s' ≠ s) as (s' & Hs' & Hne).
  { exists s'. split; [|done]. exists (RunT t 0). unfold exec. by rewrite decide_False by naive_solver. }
  destruct (i_thr s Hs t th Hth) as (fr & Hok & Hfr).
  assert (∀ s', thread_step p t 0 s = Some s' → thr s' ≠ thr s → ∃ s', thread_step p t 0 s = Some s' ∧ s' ≠ s) as Hgo.
  { intros s' H1 H2. exists s'. split; [done|]. by intros ->. }
  assert (∀ th', code th' ≠ code th → <[t := th']> (thr s) ≠ thr s) as Hdiff.
  { intros th' Hn E. apply Hn. assert (<[t := th']> (thr s) !! t = Some th') as H1.
    { apply list_lookup_insert_eq. by eapply lookup_lt_Some. }
    rewrite E, Hth in H1. by injection H1 as ->. }
  assert (∀ (i : instr) c, c ≠ i :: c) as Hcons.
  { intros i c E. apply (f_equal length) in E. simpl in E. lia. }
  unfold thread_step in *. rewrite Hth in *. destruct (code th) as [|i c] eqn:Ec; [done|].
  destruct i as [|w quit| | |f|f|quit]; simpl in Hok; try (eapply Hgo; [done|]; simpl; apply Hdiff, Hcons).
  - destruct (acquire (p_kind p) w t (lk s)) as [|r l|] eqn:Ea.
    + exfalso. unfold acquire in Ea. destruct (lk s !! t) as [h|] eqn:El.
      * by destruct (p_kind p), h.
      * destruct Hl as [[? ?]|Hl]; [done|]. rewrite Hl, decide_True in Ea; [done|]. destruct w; [apply map_Forall_empty|done].
    + eapply Hgo; [done|]. simpl. apply Hdiff. simpl. destruct (negb (r =? 0) && quit); [discriminate|apply Hcons].
    + exfalso. unfold acquire in Ea. destruct (lk s !! t) as [h|] eqn:El; [|by case_decide]. by destruct (p_kind p), h.
  - apply andb_prop in Hok as [Hh%bool_decide_eq_true Hok]. destruct Hl as [[h Hl]|Hl]; [congruence|].
    unfold try_acquire in *. rewrite decide_True in * by done. eapply Hgo; [done|]. simpl. apply Hdiff, Hcons.
  - destruct (release_ok t th quit c s Hs Hth Ec) as [[h El] _]. unfold release in *. rewrite El in *.
    destruct h as [|[|n]]; (eapply Hgo; [done|]); simpl; apply Hdiff; simpl; apply Hcons.
Qed.

Lemma can_progress s : inv s → mp s ≠ MDone → mp s ≠ MFailed → ∃ s', progress s s'.
Proof.
  intros Hs Hm1 Hm2. destruct (decide (lk s = ∅)) as [Hl|Hl].
  - destruct (mp s) as [i|i| |] eqn:Em; [| |done..].
    + assert (∃ s', main_step p true s = Some s' ∧ s' ≠ s) as (s' & H1 & H2).
      { unfold main_step. rewrite Em. case_decide; eexists; (split; [done|]); intros E; apply (f_equal mp) in E; simpl in E;
          rewrite Em in E; [injection E; lia|done]. }
      exists s'. split; [|done]. exists (RunM true). unfold exec. by rewrite decide_False by (rewrite Em; naive_solver).
    + pose proof (i_main s Hs) as Hmain. unfold main_ok in Hmain. rewrite Em in Hmain. destruct Hmain as (Hlen & Hi & _).
      assert ((∃ s', main_step p true s = Some s' ∧ s' ≠ s) ∨ ∃ th, thr s !! i = Some th ∧ code th ≠ [])
        as [(s' & H1 & H2)|(th & Hth & Hc)].
      { unfold main_step. rewrite Em. case_decide as Hlt.
        - destruct (lookup_lt_is_Some_2 (thr s) i) as [th Hth]; [lia|]. rewrite Hth. case_decide as Hc.
          + left. eexists. split; [done|]. intros E. apply (f_equal mp) in E. simpl in E. rewrite Em in E. injection E. lia.
          + right. by exists th.
        - left. eexists. split; [done|]. intros E. apply (f_equal mp) in E. simpl in E. by rewrite Em in E. }
      * exists s'. split; [|done]. exists (RunM true). unfold exec. by rewrite decide_False by (rewrite Em; naive_solver).
      * eapply thread_progress; [done|by rewrite Em..|done|done|by right].
  - apply map_choose in Hl as (t & h & Ht). destruct (i_dom s Hs t) as [th Hth]; [by eexists|].
    eapply (thread_progress s t th); [done..| |left; by eexists].
    intros Hc. destruct (i_thr s Hs t th Hth) as (fr & Hok & _). rewrite Hc in Hok. simpl in Hok.
    apply bool_decide_eq_true in Hok. congruence.
Qed.
End checked.

(** ** The updates of the data *)
Definition is_update (i : instr) : bool := match i with IStore _ | IUpdate _ => true | _ => false end.
Definition updates (c : list instr) : nat := length (filter (λ i, is_update i = true) c).
(** What an instruction adds to the log. *)
Definition logged (i : instr) (sd : Z) : list (Z → Z) :=
  match i with IStore f => [λ _, f sd] | IUpdate f => [λ d, f d sd] | _ => [] end.

Section data.
Context (p : program) (HP : checked p) (U : (Z → Z) → Prop).
(** The updates that a thread makes satisfy [U]. *)
Definition all_updates (c : list instr) : Prop := Forall (λ i, ∀ sd, Forall U (logged i sd)) c.
Context (HU : ∀ i, (i < MAX_THREAD p)%nat → all_updates (start_thread p i)).

Lemma returned_code t th quit c o s s' : (∀ r l, o = Returns r l → r = 0 ∨ quit = false) →
  returned t th quit c o s = Some s' → ∃ th', thr s' = <[t := th']> (thr s) ∧ code th' = c ∧ log s' = log s ∧ mp s' = mp s.
Proof.
  intros Ho. destruct o as [|r l|]; [done| |done]. intros [= <-]. eexists. split_and!; [done| |done..]. simpl.
  destruct (Ho r l eq_refl) as [->| ->]; [done|]. by rewrite andb_false_r.
Qed.

(** A step of a thread takes the next instruction, or leaves it. *)
Lemma thread_code t v s s' : inv p s → thread_step p t v s = Some s' →
  ∃ th th', thr s !! t = Some th ∧ thr s' = <[t := th']> (thr s) ∧ mp s' = mp s ∧
    ((code th' = code th ∧ log s' = log s) ∨
     ∃ i, code th = i :: code th' ∧ log s' = logged i (seed th) ++ log s).
Proof using Type.
  intros Hs. unfold thread_step. destruct (thr s !! t) as [th|] eqn:Hth; [|done].
  destruct (code th) as [|i c] eqn:Ec; [done|]. intros H. exists th.
  enough (∃ th', thr s' = <[t := th']> (thr s) ∧ mp s' = mp s ∧
    ((code th' = i :: c ∧ log s' = log s) ∨ (code th' = c ∧ log s' = logged i (seed th) ++ log s))) as (th' & E1 & E2 & E3).
  { exists th'. split_and!; [done..|]. destruct E3 as [[E3 E4]|[E3 E4]]; [left|right; exists i]; by rewrite ?E3, ?Ec. }
  destruct i as [|w quit| | |f|f|quit]; try (injection H as <-; eexists; by split_and!; [..|right]).
  - apply returned_code in H as (th' & ? & ? & ? & ?); [exists th'; by split_and!; [..|right]|].
    intros r l Ha. destruct (i_thr p s Hs t th Hth) as (fr & Hok & _). rewrite Ec in Hok. simpl in Hok.
    unfold acquire in Ha. destruct (lk s !! t) as [h|].
    + destruct h, (p_kind p); try done; try (injection Ha as <- <-; by left); right; by destruct quit.
    + case_decide; [|done]. injection Ha as <- <-. by left.
  - destruct (try_acquire t (lk s)) as [r l]. injection H as <-. eexists. split_and!; [done..|].
    destruct (r =? 0); [by right|by left].
  - apply returned_code in H as (th' & ? & ? & ? & ?); [exists th'; by split_and!; [..|right]|].
    intros r l Ha. left. by destruct (release_ok p t th quit c s Hs Hth Ec) as [_ Hrel]; eapply Hrel in Ha as (-> & _).
Qed.

Definition updates_left (ths : list thread) : nat := sum_list_with (λ th, updates (code th)) ths.
Lemma updates_left_insert t th th' ths : ths !! t = Some th →
  (updates_left (<[t := th']> ths) + updates (code th) = updates_left ths + updates (code th'))%nat.
Proof using Type.
  unfold updates_left. revert t. induction ths as [|x ths IH]; intros [|t] H; simpl in *; [done|done| |].
  - injection H as ->. lia.
  - specialize (IH t H). lia.
Qed.
Lemma updates_cons i c sd : updates (i :: c) = (length (logged i sd) + updates c)%nat.
Proof using Type. unfold updates. rewrite filter_cons. by destruct i. Qed.

(** The updates made and those still to be made are those of the threads. *)
Record counted (s : state) : Prop := {
  c_log : Forall U (log s);
  c_code : Forall (λ th, all_updates (code th)) (thr s);
  c_sum : (length (log s) + updates_left (thr s) =
           sum_list_with (λ i, updates (start_thread p i)) (seq 0 (length (thr s))))%nat;
}.

Lemma step_counted s s' : inv p s → counted s → step p s s' → counted s'.
Proof using HU.
  intros Hs [Hl Hc Hn] [l Hstep]. unfold exec in Hstep. case_decide; [done|]. destruct l as [ok|t v].
  - pose proof (i_main p s Hs) as Hm. unfold main_ok in Hm. unfold main_step in Hstep. destruct (mp s) as [i|i| |]; [| |done..].
    + destruct Hm as [Hlen _]. case_decide as Hi; [|by injection Hstep as <-]. destruct ok; injection Hstep as <-; [|done].
      constructor; simpl; [done| |].
      * apply Forall_app. split; [done|]. apply Forall_singleton. by apply HU.
      * rewrite length_app. simpl. unfold updates_left. rewrite sum_list_with_app, seq_app, sum_list_with_app. simpl.
        unfold updates_left in Hn. rewrite Hlen in Hn |- *. simpl. lia.
    + case_decide; [|by injection Hstep as <-]. destruct (thr s !! i); [|done]. case_decide; [|done]. by injection Hstep as <-.
  - destruct (thread_code t v s s' Hs Hstep) as (th & th' & Hth & Et & _ & [[Ec El]|(i & Ec & El)]).
    + constructor; rewrite ?Et, ?El; [done| |].
      * apply Forall_insert; [done|]. rewrite Ec. exact (Forall_lookup_1 _ _ _ _ Hc Hth).
      * rewrite length_insert. pose proof (updates_left_insert t th th' _ Hth) as H'. rewrite Ec in H'. lia.
    + pose proof (Forall_lookup_1 _ _ _ _ Hc Hth) as Hth'. simpl in Hth'. rewrite Ec in Hth'.
      apply Forall_cons in Hth' as [Hi Hrest]. constructor; rewrite ?Et, ?El.
      * apply Forall_app. auto.
      * by apply Forall_insert.
      * rewrite length_insert, length_app. pose proof (updates_left_insert t th th' _ Hth) as H'.
        rewrite Ec, (updates_cons i (code th') (seed th)) in H'. lia.
Qed.

Lemma reach_counted s : rtc (step p) start s → counted s.
Proof using HP HU.
  intros Hr. assert (∀ s0 s, rtc (step p) s0 s → inv p s0 → counted s0 → counted s) as H.
  { induction 1 as [|s0 s1 s2 Hs _ IH]; [done|]. intros H1 H2. apply IH; [by eapply locks_step_inv|by eapply step_counted]. }
  apply (H start); [done|apply locks_inv_start|]. constructor; [apply Forall_nil_2..|done].
Qed.
End data.

(** ** The properties *)
Definition sound_programs : list program :=
  [mutex_prog; attr_prog true true; attr_prog true false; attr_prog false false; type_prog Errorcheck; trylock_prog;
   spin_prog; rw_prog].
Lemma rw_checked : checked rw_prog.
Proof. intros i _. simpl. unfold rw_thread, rw_round. by case_decide. Qed.
Lemma sound_checked p : p ∈ sound_programs → checked p.
Proof.
  unfold sound_programs. rewrite !elem_of_cons. intros H.
  repeat destruct H as [-> | H]; try (intros i _; vm_compute; reflexivity); [exact rw_checked|by apply not_elem_of_nil in H].
Qed.

(** C23. The programs around one lock work: [pthread_mutex], [pthread_mutexattr] with
    an error-checking mutex or one lock call, [pthread_mutex_type] with an
    error-checking mutex, [pthread_mutex_trylock], [pthread_spinlock] and
    [pthread_rwlock].  In every reachable state a thread that has the lock alone is
    the only holder, and the shared number is what the updates make of 0 one after
    the other, none of them lost; there are only finitely many steps but those of a
    [pthread_mutex_trylock] that fails, and one is possible until [main] returns,
    when all threads have ended and the lock is free, or after a failed
    [pthread_create]. *)
Theorem lock_programs_complete p : p ∈ sound_programs →
  sn (progress p) start ∧
  ∀ s, rtc (step p) start s →
    exclusive (lk s) ∧ i_data s = foldr (λ g d, g d) 0 (log s) ∧
    (nf (progress p) s →
      mp s = MFailed ∨ (mp s = MDone ∧ lk s = ∅ ∧ ∀ t th, thr s !! t = Some th → code th = [])).
Proof.
  intros HP%sound_checked. split; [apply progress_sn|]. intros s Hr. pose proof (locks_reach_inv p HP s Hr) as Hs.
  split_and!; [apply Hs..|]. intros Hnf. destruct (decide (mp s = MFailed)) as [|Hf]; [by left|right].
  destruct (decide (mp s = MDone)) as [Hd|Hd]; [|by destruct Hnf; apply can_progress].
  pose proof (i_main p s Hs) as Hm. unfold main_ok in Hm. rewrite Hd in Hm. destruct Hm as [_ Hm]. split_and!; [done| |done].
  apply map_empty. intros t. destruct (lk s !! t) as [h|] eqn:El; [|done].
  destruct (i_dom p s Hs t) as [th Hth]; [by eexists|]. destruct (i_thr p s Hs t th Hth) as (fr & Hok & _).
  rewrite (Hm t th Hth) in Hok. simpl in Hok. apply bool_decide_eq_true in Hok. congruence.
Qed.

Lemma foldr_incr gs : Forall (λ g : Z → Z, ∀ d, g d = d + 1) gs → foldr (λ g d, g d) 0 gs = Z.of_nat (length gs).
Proof. induction 1 as [|g gs Hg _ IH]; [done|]. simpl. rewrite Hg, IH. lia. Qed.
Lemma foldr_bound gs b : Forall (λ g : Z → Z, ∀ d, Z.abs (g d - d) ≤ b) gs →
  Z.abs (foldr (λ g d, g d) 0 gs) ≤ b * Z.of_nat (length gs).
Proof. induction 1 as [|g gs Hg _ IH]; [simpl; lia|]. simpl. specialize (Hg (foldr (λ g d, g d) 0 gs)). lia. Qed.

(** The writer of [pthread_rwlock] counts to 2. *)
Theorem rw_final s : rtc (step rw_prog) start s → mp s = MDone → i_data s = 2.
Proof.
  intros Hr Hd. pose proof (locks_reach_inv _ rw_checked s Hr) as Hs.
  assert (∀ i, (i < 5)%nat → all_updates (λ g, ∀ d, g d = d + 1) (rw_thread i)) as HU.
  { intros i _. unfold rw_thread, rw_round. case_decide; repeat constructor. }
  destruct (reach_counted rw_prog rw_checked _ HU s Hr) as [Hl _ Hn].
  rewrite (i_log _ _ Hs), (foldr_incr _ Hl). pose proof (i_main _ _ Hs) as Hm. unfold main_ok in Hm. rewrite Hd in Hm. destruct Hm as [Hlen Hc].
  rewrite Hlen in Hn. change (sum_list_with _ (seq 0 _)) with 2%nat in Hn.
  enough (updates_left (thr s) = 0%nat) by lia. unfold updates_left. clear -Hc. induction (thr s) as [|th ths IH]; [done|].
  simpl. rewrite (Hc 0%nat th eq_refl). apply IH. intros t th' H. exact (Hc (S t) th' H).
Qed.

(** The sum in [pthread_spinlock] does not overflow. *)
Theorem spin_bound s : rtc (step spin_prog) start s → Z.abs (i_data s) ≤ 30.
Proof.
  intros Hr. assert (checked spin_prog) as HP by (apply sound_checked; unfold sound_programs; set_solver).
  assert (∀ i, (i < 5)%nat → all_updates (λ g, ∀ d, Z.abs (g d - d) ≤ 3) spin_thread) as HU.
  { intros i _. repeat constructor; intros d; simpl; pose proof (Z.rem_bound_abs sd 4 ltac:(done)); lia. }
  destruct (reach_counted spin_prog HP _ HU s Hr) as [Hl _ Hn]. pose proof (locks_reach_inv _ HP s Hr) as Hs.
  rewrite (i_log _ _ Hs). pose proof (foldr_bound _ _ Hl) as Hb.
  enough (length (log s) ≤ 10)%nat by lia.
  assert (length (thr s) ≤ 5)%nat as Hlen.
  { pose proof (i_main _ _ Hs) as Hm. unfold main_ok in Hm. destruct (mp s); simpl in Hm; lia. }
  assert (∀ n k, sum_list_with (λ _ : nat, updates spin_thread) (seq k n) = 2 * n)%nat as Hsum.
  { intros n. induction n as [|n IH]; intros k; [done|]. cbn [seq sum_list_with]. rewrite IH.
    change (updates spin_thread) with 2%nat. lia. }
  change (start_thread spin_prog) with (λ _ : nat, spin_thread) in Hn. cbv beta in Hn. rewrite Hsum in Hn. lia.
Qed.

(** ** Locking twice *)
Lemma main_ok_reach p s : rtc (step p) start s → main_ok p s.
Proof.
  assert (∀ s s', main_ok p s → step p s s' → main_ok p s') as H.
  { intros s0 s' Hm [l Hl]. unfold exec in Hl. case_decide; [done|]. destruct l as [ok|t v]; [by eapply main_ok_main|].
    unfold thread_step in Hl. destruct (thr s0 !! t) as [th|] eqn:Hth; [|done].
    assert (∀ th' l d g, code th ≠ [] → main_ok p (State l d (<[t := th']> (thr s0)) (mp s0) g)) as Hgo.
    { intros. by eapply main_ok_thread. }
    destruct (code th) as [|i c]; [done|]. destruct i; unfold returned, try_acquire in Hl;
      try (destruct (acquire _ _ _ _)); try (destruct (release _ _ _)); try case_decide; try done;
      injection Hl as <-; by apply Hgo. }
  intros Hr. assert (∀ s0 s, rtc (step p) s0 s → main_ok p s0 → main_ok p s) as H'.
  { induction 1; [done|]. intros. by apply IHrtc, (H x). }
  apply (H' start); [done|]. unfold main_ok. simpl. lia.
Qed.

(** A step of a thread of [pthread_mutex_type] changes its own entry of the lock,
    and its code as said by [Q]; the data only with the lock. *)
Definition untouched (l : lock) (t : nat) (th : thread) : Prop := code th = type_thread ∧ l !! t = None.
Definition locked_once (l : lock) (t : nat) (th : thread) : Prop := code th = tail type_thread ∧ l !! t = Some (Excl 0).

Lemma thread_first t v th s s' k : thr s !! t = Some th → untouched (lk s) t th →
  thread_step (type_prog k) t v s = Some s' →
  lk s = ∅ ∧ ∃ th', s' = State {[t := Excl 0]} (i_data s) (<[t := th']> (thr s)) (mp s) (log s) ∧
    locked_once {[t := Excl 0]} t th'.
Proof.
  intros Hth [Hc Hl]. unfold thread_step. rewrite Hth, Hc. simpl. unfold acquire. rewrite Hl. case_decide as Hf; [|done].
  intros [= <-]. split; [done|]. eexists. split; [unfold set_lk, set_thr; simpl; by rewrite Hf|].
  split; [done|apply lookup_singleton_eq].
Qed.

Definition normal_state (l : lock) (d : Z) (ths : list thread) : Prop :=
  d = 0 ∧ ∀ t th, ths !! t = Some th → untouched l t th ∨ locked_once l t th.
Lemma normal_step t v s s' : normal_state (lk s) (i_data s) (thr s) →
  thread_step (type_prog Normal) t v s = Some s' → normal_state (lk s') (i_data s') (thr s').
Proof.
  intros [Hd Hs] Hstep. destruct (thr s !! t) as [th|] eqn:Hth; [|by unfold thread_step in Hstep; rewrite Hth in Hstep].
  destruct (Hs t th Hth) as [Hu|[Hc Hl]].
  - destruct (thread_first t v th s s' Normal Hth Hu Hstep) as (Hl & th' & -> & Hth'). split; [done|]. simpl.
    intros t1 th1 H1. destruct (decide (t1 = t)) as [->|Hn].
    + rewrite list_lookup_insert_eq in H1 by (by eapply lookup_lt_Some). injection H1 as <-. by right.
    + rewrite list_lookup_insert_ne in H1 by done. left. destruct (Hs t1 th1 H1) as [[? ?]|[_ H]].
      * split; [done|]. by rewrite lookup_singleton_ne.
      * by rewrite Hl, lookup_empty in H.
  - unfold thread_step in Hstep. rewrite Hth, Hc in Hstep. simpl in Hstep. unfold acquire in Hstep. by rewrite Hl in Hstep.
Qed.

(** With a recursive mutex one thread, [o], gets the lock, and keeps it. *)
Definition stages : list (list instr * nat) :=
  [(drop 1 type_thread, 0%nat); (drop 2 type_thread, 1%nat); (drop 3 type_thread, 1%nat); (drop 4 type_thread, 1%nat);
   ([], 0%nat)].
Definition one_thread (o : option nat) (l : lock) (ths : list thread) : Prop :=
  match o with
  | None => l = ∅ ∧ ∀ t th, ths !! t = Some th → code th = type_thread
  | Some t0 =>
      (∀ t th, t ≠ t0 → ths !! t = Some th → code th = type_thread) ∧
      ∃ n, l = {[t0 := Excl n]} ∧ ∀ th, ths !! t0 = Some th → (code th, n) ∈ stages
  end.

Lemma one_thread_update t l ths th th' n : (∀ t' th, t' ≠ t → ths !! t' = Some th → code th = type_thread) →
  ths !! t = Some th → l = {[t := Excl n]} → (code th', n) ∈ stages → one_thread (Some t) l (<[t := th']> ths).
Proof.
  intros Hother Hth Hl Hin. split.
  - intros t1 th1 Hn H1. rewrite list_lookup_insert_ne in H1 by done. by eapply Hother.
  - exists n. split; [done|]. intros th1 H1. rewrite list_lookup_insert_eq in H1 by (by eapply lookup_lt_Some).
    by injection H1 as <-.
Qed.

Lemma recursive_step t v s s' o : one_thread o (lk s) (thr s) → thread_step (type_prog Recursive) t v s = Some s' →
  ∃ o, one_thread o (lk s') (thr s').
Proof.
  intros Hs Hstep. destruct (thr s !! t) as [th|] eqn:Hth; [|by unfold thread_step in Hstep; rewrite Hth in Hstep].
  destruct o as [t0|].
  - destruct Hs as (Hother & n & Hl & Hst). destruct (decide (t = t0)) as [->|Hn].
    + exists (Some t0). specialize (Hst th Hth). unfold thread_step in Hstep. rewrite Hth in Hstep.
      unfold stages in Hst. rewrite !elem_of_cons in Hst.
      destruct Hst as [[= Hc ->]|[[= Hc ->]|[[= Hc ->]|[[= Hc ->]|[[= Hc ->]|Hst]]]]];
        [..|by apply not_elem_of_nil in Hst]; rewrite Hc in Hstep; simpl in Hstep; [..|done];
        unfold acquire, release in Hstep; rewrite ?Hl, ?lookup_singleton_eq in Hstep; simpl in Hstep; injection Hstep as <-;
        (eapply one_thread_update; [exact Hother|exact Hth|simpl; rewrite ?insert_singleton_eq; first [done|exact Hl]|
           unfold stages; simpl; rewrite !elem_of_cons; tauto]).
    + exfalso. pose proof (Hother t th Hn Hth) as Hc. unfold thread_step in Hstep. rewrite Hth, Hc in Hstep. simpl in Hstep.
      unfold acquire in Hstep. rewrite Hl in Hstep. rewrite lookup_singleton_ne in Hstep by congruence.
      rewrite decide_False in Hstep by apply map_non_empty_singleton. done.
  - destruct Hs as [Hl Hc]. assert (untouched (lk s) t th) as Hu by (split; [by eapply Hc|by rewrite Hl]).
    destruct (thread_first t v th s s' Recursive Hth Hu Hstep) as (_ & th' & -> & Hc' & _).
    exists (Some t). simpl. eapply one_thread_update; [intros; by eapply Hc|done|done|]. rewrite Hc'. by left.
Qed.

Lemma acquire_dom k w t l r l' : acquire k w t l = Returns r l' → ∀ t', is_Some (l' !! t') → is_Some (l !! t') ∨ t' = t.
Proof.
  unfold acquire. destruct (l !! t) as [h|]; [destruct k, h|case_decide]; try done; intros [= _ <-] t';
    rewrite ?lookup_insert_is_Some; naive_solver.
Qed.
Lemma release_dom k t l r l' : release k t l = Returns r l' → ∀ t', is_Some (l' !! t') → is_Some (l !! t') ∨ t' = t.
Proof.
  unfold release. destruct (l !! t) as [[|[|n]]|]; [..|destruct k]; try done; intros [= _ <-] t';
    rewrite ?lookup_insert_is_Some, ?lookup_delete_is_Some; naive_solver.
Qed.
Lemma thread_frame p t v s s' : thread_step p t v s = Some s' →
  (t < length (thr s))%nat ∧ length (thr s') = length (thr s) ∧ ∀ t', is_Some (lk s' !! t') → is_Some (lk s !! t') ∨ t' = t.
Proof.
  unfold thread_step. destruct (thr s !! t) as [th|] eqn:Hth; [|done]. pose proof (lookup_lt_Some _ _ _ Hth).
  destruct (code th) as [|[|w q| | |f|f|q] c]; [done|..];
    try (intros [= <-]; simpl; rewrite length_insert; split_and!; [done..|by left]; fail).
  - destruct (acquire _ _ _ _) eqn:E; try done. intros [= <-]. simpl. rewrite length_insert.
    split_and!; [done..|by eapply acquire_dom].
  - unfold try_acquire. case_decide; intros [= <-]; simpl; rewrite length_insert; split_and!; try done; [|by left].
    intros t'. rewrite lookup_insert_is_Some. naive_solver.
  - destruct (release _ _ _) eqn:E; try done. intros [= <-]. simpl. rewrite length_insert.
    split_and!; [done..|by eapply release_dom].
Qed.

(** A property of the lock, the data and the threads that the steps of the threads
    and the creation of threads keep. *)
Lemma reach_thread p (Q : lock → Z → list thread → Prop) s :
  Q ∅ 0 [] →
  (∀ l d ths, (∀ t, is_Some (l !! t) → (t < length ths)%nat) → Q l d ths →
    Q l d (ths ++ [Thread (start_thread p (length ths)) 0 0])) →
  (∀ t v s s', Q (lk s) (i_data s) (thr s) → thread_step p t v s = Some s' → Q (lk s') (i_data s') (thr s')) →
  rtc (step p) start s → Q (lk s) (i_data s) (thr s).
Proof.
  intros H0 Hadd Hthr Hr.
  set (R := λ s, Q (lk s) (i_data s) (thr s) ∧ ∀ t, is_Some (lk s !! t) → (t < length (thr s))%nat).
  assert (∀ s s', R s → main_ok p s → step p s s' → R s') as Hstep.
  { intros s0 s1 [HQ Hd] Hm [l Hl]. unfold exec in Hl. case_decide; [done|]. destruct l as [ok|t v].
    - unfold main_step, main_ok in *. destruct (mp s0) as [i|i| |] eqn:Em; [| |done..].
      + destruct Hm as [<- _]. case_decide; [|by injection Hl as <-]. destruct ok; injection Hl as <-; [|done].
        split; simpl; [by apply Hadd|]. intros t Ht. rewrite length_app. specialize (Hd t Ht). lia.
      + case_decide; [|by injection Hl as <-]. destruct (thr s0 !! i); [|done]. case_decide; [|done]. by injection Hl as <-.
    - destruct (thread_frame p t v s0 s1 Hl) as (Hlt & Hlen & Hd'). split; [by eapply Hthr|]. intros t' Ht'. rewrite Hlen.
      destruct (Hd' t' Ht') as [?| ->]; auto. }
  assert (∀ s0 s, rtc (step p) s0 s → rtc (step p) start s0 → R s0 → R s) as H.
  { induction 1 as [|s0 s1 s2 Hs _ IH]; [done|]. intros H1 H2. apply IH; [by eapply rtc_r|].
    eapply Hstep; [done| |done]. by apply main_ok_reach. }
  apply (H start s Hr); [done|]. split; [done|]. by intros t [? ?].
Qed.

Lemma reach_normal s : rtc (step (type_prog Normal)) start s → normal_state (lk s) (i_data s) (thr s).
Proof.
  apply reach_thread; [done| |intros; by eapply normal_step]. intros l d ths Hl [Hd Hs]. split; [done|].
  intros t th. rewrite lookup_app_Some. intros [H|[Hge H]]; [by apply Hs|].
  destruct (t - length ths)%nat as [|n] eqn:En; [|done]. injection H as <-. left. split; [done|].
  destruct (l !! t) eqn:E; [|done]. specialize (Hl t ltac:(by eexists)). lia.
Qed.
Lemma reach_recursive s : rtc (step (type_prog Recursive)) start s → ∃ o, one_thread o (lk s) (thr s).
Proof.
  apply (reach_thread _ (λ l _ ths, ∃ o, one_thread o l ths)).
  - exists None. by split.
  - intros l _ ths Hl [o Ho]. exists o.
    assert (∀ t th, (ths ++ [Thread type_thread 0 0]) !! t = Some th → ths !! t = Some th ∨ (code th = type_thread ∧ t = length ths))
      as Happ.
    { intros t th. rewrite lookup_app_Some. intros [H|[Hge H]]; [by left|right].
      destruct (t - length ths)%nat as [|n] eqn:En; [|done]. injection H as <-. split; [done|lia]. }
    destruct o as [t0|].
    + destruct Ho as (Hother & n & -> & Hst). split.
      * intros t th Hn H. destruct (Happ t th H) as [?|[? _]]; [by eapply Hother|done].
      * exists n. split; [done|]. intros th H. destruct (Happ t0 th H) as [?|[_ ->]]; [by apply Hst|].
        specialize (Hl (length ths)). rewrite lookup_singleton_eq in Hl. specialize (Hl ltac:(by eexists)). lia.
    + destruct Ho as [-> Ho]. split; [done|]. intros t th H. destruct (Happ t th H) as [?|[? _]]; [by eapply Ho|done].
  - intros t v s0 s1 [o Ho] Hstep. by eapply recursive_step.
Qed.

(** Locking twice hangs unless the mutex checks for it.  [pthread_mutex_type]
    with a normal mutex never writes the shared number, and with a recursive one,
    which is unlocked once only, at most one of its threads ends; in both cases
    every run is finite, but [main] never gets to its end. *)
Theorem locking_twice_hangs k : k = Normal ∨ k = Recursive →
  sn (progress (type_prog k)) start ∧
  ∀ s, rtc (step (type_prog k)) start s → mp s ≠ MDone ∧
    (k = Normal → i_data s = 0) ∧
    ∀ t t' th th', thr s !! t = Some th → thr s !! t' = Some th' → code th = [] → code th' = [] → t = t'.
Proof.
  intros Hk. split; [apply progress_sn|]. intros s Hr.
  assert ((k = Normal → i_data s = 0) ∧
    ∀ t t' th th', thr s !! t = Some th → thr s !! t' = Some th' → code th = [] → code th' = [] → t = t') as [Hd Hone].
  { destruct Hk as [-> | ->]; [destruct (reach_normal s Hr) as [Hd Hs]|destruct (reach_recursive s Hr) as [o Ho]].
    - split; [done|]. intros t t' th th' Hth _ Hc. destruct (Hs t th Hth) as [[E _]|[E _]]; by rewrite E in Hc.
    - split; [done|]. assert (∀ t th, thr s !! t = Some th → code th = [] → o = Some t) as Hend.
      2: { intros t t' th th' H1 H2 H3 H4. pose proof (Hend t th H1 H3). pose proof (Hend t' th' H2 H4). congruence. }
      intros t th Hth Hc. destruct o as [t0|]; [|destruct Ho as [_ Ho]; by rewrite (Ho t th Hth) in Hc].
      destruct Ho as [Ho _]. destruct (decide (t = t0)) as [->|Hn]; [done|]. by rewrite (Ho t th Hn Hth) in Hc. }
  split_and!; [|done..]. intros Hm. pose proof (main_ok_reach _ _ Hr) as H. unfold main_ok in H. rewrite Hm in H.
  destruct H as [Hlen Hend]. simpl in Hlen. destruct (thr s) as [|th0 [|th1 ths]]; [done..|].
  by specialize (Hone 0%nat 1%nat th0 th1 eq_refl eq_refl (Hend 0%nat _ eq_refl) (Hend 1%nat _ eq_refl)).
Qed.

(** ** Concrete runs *)
Fixpoint runs (p : program) (ls : list label) (s : state) : option state :=
  match ls with [] => Some s | l :: ls => s ← exec p l s; runs p ls s end.
Lemma locks_runs_rtc p ls s s' : runs p ls s = Some s' → rtc (step p) s s'.
Proof.
  revert s. induction ls as [|l ls IH]; intros s; simpl; [by intros [= <-]|].
  destruct (exec p l s) as [x|] eqn:E; [|done]. intros Hr. eapply rtc_l; [by exists l|by apply IH].
Qed.
(** Each thread in turn, to its end; then [main]. *)
Definition all_threads (n k : nat) : list label :=
  repeat (RunM true) (S n) ++ concat ((λ t, repeat (RunT t 7) k) <$> seq 0 n) ++ repeat (RunM true) (S n).

Lemma lock_programs_complete_witness :
  ∃ s, rtc (step spin_prog) start s ∧ mp s = MDone ∧ i_data s = 30 ∧ i_data s = foldr (λ g d, g d) 0 (log s).
Proof.
  destruct (runs spin_prog (all_threads 5 10) start) as [s|] eqn:E; [|by vm_compute in E].
  pose proof (locks_runs_rtc _ _ _ _ E) as Hr. exists s. split; [exact Hr|].
  assert (mp s = MDone ∧ i_data s = 30) as [E1 E2]. { vm_compute in E. injection E as <-. by split. }
  split; [exact E1|]. split; [exact E2|].
  destruct (lock_programs_complete spin_prog) as [_ H]; [|exact (proj1 (proj2 (H s Hr)))].
  unfold sound_programs. rewrite !elem_of_cons. tauto.
Defined.

Lemma locking_twice_hangs_witness :
  ∃ s th, rtc (step (type_prog Recursive)) start s ∧ thr s !! 0%nat = Some th ∧ code th = [] ∧ mp s ≠ MDone.
Proof.
  destruct (runs (type_prog Recursive) (repeat (RunM true) 4 ++ repeat (RunT 0 7) 5) start) as [s|] eqn:E; [|by vm_compute in E].
  pose proof (locks_runs_rtc _ _ _ _ E) as Hr. assert (∃ th, thr s !! 0%nat = Some th ∧ code th = []) as (th & E1 & E2).
  { vm_compute in E. injection E as <-. eexists. by split. }
  exists s, th. split_and!; [exact Hr|exact E1|exact E2|].
  exact (proj1 (proj2 (locking_twice_hangs Recursive (or_intror eq_refl)) s Hr)).
Defined.
