(* ===== verification/DstEcdsa.v ===== *)
(** * The ECDSA keys of a DNS server ([openssl_util_code/ecdsa_link.c])

    The driver through which a DNS server signs and verifies with ECDSA: digest
    contexts, signatures of two numbers of fixed width, and the conversion of
    keys to DNS records and private key files and back.

    The libraries below it are parameters: [IscBuffer] is the buffer of the ISC
    library, [Ossl] has the routines of libcrypto as functions on the values of
    keys, points and big numbers, and the private key files of the DNS library.
    The objects of libcrypto are in a memory ([st]) with their reference counts,
    so that one that is not released shows.  [works n] says whether the n-th call
    of a library routine that may fail succeeds. *)

From stdpp Require Import base gmap list.
From Stdlib Require Import ZArith Lia.
From S2P Require Import Prelude.

Local Open Scope Z_scope.

(** ** Result codes and algorithms *)
Inductive isc_result : Set :=
| ISC_R_SUCCESS | ISC_R_NOMEMORY | ISC_R_NOSPACE | ISC_R_FAILURE
| DST_R_OPENSSLFAILURE | DST_R_NULLKEY | DST_R_INVALIDPUBLICKEY | DST_R_INVALIDPRIVATEKEY
| DST_R_SIGNFAILURE | DST_R_VERIFYFAILURE | OTHER_RESULT (code : Z).
#[export] Instance isc_result_eq_dec : EqDecision isc_result.
Proof. solve_decision. Defined.

Inductive dst_alg : Set := DST_ALG_ECDSA256 | DST_ALG_ECDSA384 | DST_ALG_OTHER (number : Z).
Inductive md : Set := EVP_sha256 | EVP_sha384.

Definition is_ecdsa (a : dst_alg) : bool :=
  match a with DST_ALG_ECDSA256 | DST_ALG_ECDSA384 => true | DST_ALG_OTHER _ => false end.

(** ** The libraries *)

(** [isc_buffer_t]: the octets of its available region and of its remaining
    region (used and not yet read). *)
Class IscBuffer := {
  Buffer : Type;
  avail : Buffer → list Z;
  set_avail : list Z → Buffer → Buffer;
  remaining : Buffer → list Z;
  isc_buffer_add : nat → Buffer → Buffer;
  isc_buffer_forward : nat → Buffer → Buffer
}.
Class IscBufferLaws `{IscBuffer} := {
  avail_set a b : length a = length (avail b) → avail (set_avail a b) = a;
  remaining_set a b : length a = length (avail b) → remaining (set_avail a b) = remaining b;
  avail_add n b : (n ≤ length (avail b))%nat → avail (isc_buffer_add n b) = drop n (avail b);
  remaining_add n b : (n ≤ length (avail b))%nat →
    remaining (isc_buffer_add n b) = remaining b ++ take n (avail b);
  remaining_forward n b : (n ≤ length (remaining b))%nat →
    remaining (isc_buffer_forward n b) = drop n (remaining b)
}.

Class Ossl := {
  DNS_SIG_ECDSA256SIZE : nat;
  DNS_SIG_ECDSA384SIZE : nat;
  DNS_KEY_ECDSA256SIZE : nat;
  DNS_KEY_ECDSA384SIZE : nat;
  NID_X9_62_prime256v1 : Z;
  NID_secp384r1 : Z;
  POINT_CONVERSION_UNCOMPRESSED : Z;
  TAG_ECDSA_PRIVATEKEY : Z;
  ECDSA_NTAGS : nat;
  EcKey : Type;
  EcPoint : Type;
  works : nat → bool;
  (** [dst__openssl_toresult] and its variants: the result for the last error. *)
  error_result : nat → isc_result → isc_result;
  digest : md → list Z → list Z;
  (** Big numbers. *)
  BN_num_bytes : Z → nat;
  BN_bn2bin : Z → list Z;
  BN_bin2bn : list Z → Z;
  (** Keys: an empty one on a curve, and with a generated pair. *)
  EC_KEY_empty : Z → EcKey;
  EC_KEY_generated : nat → EcKey → EcKey;
  EC_KEY_get0_private_key : EcKey → option Z;
  EC_KEY_get0_public_key : EcKey → option EcPoint;
  EC_KEY_with_private : EcKey → Z → option EcKey;
  EC_KEY_with_public : EcKey → EcPoint → option EcKey;
  EC_KEY_check_key : EcKey → bool;
  EVP_PKEY_cmp : EcKey → EcKey → Z;
  i2o_ECPublicKey : EcKey → option (list Z);
  o2i_ECPublicKey : EcKey → list Z → option EcKey;
  (** The n-th signature made. *)
  ECDSA_sign : nat → list Z → EcKey → option (Z * Z);
  ECDSA_verify : list Z → option Z → option Z → EcKey → Z;
  (** [ECDSA_SIG_new] makes the numbers of the signature, too. *)
  sig_has_numbers : bool;
  (** Private key files: the text of the elements, for a key that is [external]
      or not, and the reading of a text for a key of some algorithm. *)
  privstruct_text : nat → dst_alg → bool → list (Z * list Z) → isc_result * list Z;
  privstruct_read : nat → dst_alg → dst_alg → list Z → isc_result * bool * list (Z * list Z)
}.

Section code.
Context `{IscBuffer} `{Ossl}.

(** ** Memory *)

(** A digest context: set up and fed with some octets, or not (any more). *)
Inductive md_state := Hashing (type : md) (data : list Z) | Idle.

Record st := St {
  ecs : gmap loc (EcKey * nat);      (* [EC_KEY]s with their reference counts *)
  pkeys : gmap loc ptr;              (* [EVP_PKEY]s, each with its [EC_KEY] *)
  sigs : gmap loc (ptr * ptr);       (* [ECDSA_SIG]s *)
  bns : gmap loc Z;                  (* [BIGNUM]s *)
  blocks : gmap loc (list Z);        (* memory of the ISC library *)
  mds : gmap loc md_state;           (* [EVP_MD_CTX]s *)
  calls : nat
}.
Abbreviation M' := (M st).

Definition set_ecs f s := St (f (ecs s)) (pkeys s) (sigs s) (bns s) (blocks s) (mds s) (calls s).
Definition set_pkeys f s := St (ecs s) (f (pkeys s)) (sigs s) (bns s) (blocks s) (mds s) (calls s).
Definition set_sigs f s := St (ecs s) (pkeys s) (f (sigs s)) (bns s) (blocks s) (mds s) (calls s).
Definition set_bns f s := St (ecs s) (pkeys s) (sigs s) (f (bns s)) (blocks s) (mds s) (calls s).
Definition set_blocks f s := St (ecs s) (pkeys s) (sigs s) (bns s) (f (blocks s)) (mds s) (calls s).
Definition set_mds f s := St (ecs s) (pkeys s) (sigs s) (bns s) (blocks s) (f (mds s)) (calls s).
Definition tick s := St (ecs s) (pkeys s) (sigs s) (bns s) (blocks s) (mds s) (S (calls s)).

Definition deref {A} (f : st → gmap loc A) (p : ptr) : M' A := λ s,
  match p ≫= λ l, f s !! l with Some a => Ok (a, s) | None => Err BadAccess end.
(** A new object of a kind, and its release. *)
Definition alloc {A} (f : st → gmap loc A) (set : (gmap loc A → gmap loc A) → st → st) (a : A) : M' loc := λ s,
  let l := fresh (dom (f s) : gset loc) in Ok (l, set <[l := a]> s).
Definition release {A} (f : st → gmap loc A) (set : (gmap loc A → gmap loc A) → st → st) (l : loc) : M' unit :=
  deref f (Some l);; modify (set (delete l)).

(** One more call of a routine that may fail. *)
Definition lib : M' bool := n ← gets calls; modify tick;; mret (works n).
Definition when_ok {A} (c : M' ptr) (k : loc → M' A) (no : M' A) : M' A :=
  p ← c; match p with None => no | Some l => k l end.
Definition toresult (fallback : isc_result) : M' isc_result :=
  n ← gets calls; modify tick;; mret (error_result n fallback).

(** ** The routines of libcrypto on this memory *)
Definition ec_set (e : loc) (k : EcKey) : M' unit :=
  '(_, n) ← deref ecs (Some e); modify (set_ecs <[e := (k, n)]>).
Definition ec_get (e : loc) : M' EcKey := '(k, _) ← deref ecs (Some e); mret k.
Definition EC_KEY_up_ref (e : loc) : M' unit :=
  '(k, n) ← deref ecs (Some e); modify (set_ecs <[e := (k, S n)]>).
Definition EC_KEY_free (e : loc) : M' unit :=
  '(k, n) ← deref ecs (Some e);
  modify (set_ecs (if decide (n ≤ 1)%nat then delete e else <[e := (k, pred n)]>)).
(** [if (eckey != NULL) EC_KEY_free (eckey);] *)
Definition EC_KEY_free_if (p : ptr) : M' unit := match p with None => mret tt | Some e => EC_KEY_free e end.

Definition EC_KEY_new_by_curve_name (nid : Z) : M' ptr :=
  ok ← lib; if ok : bool then e ← alloc ecs set_ecs (EC_KEY_empty nid, 1%nat); mret (Some e) else mret NULL.
Definition EC_KEY_generate_key (e : loc) : M' bool :=
  n ← gets calls; ok ← lib; k ← ec_get e;
  if ok : bool then ec_set e (EC_KEY_generated n k);; mret true else mret false.
(** Replace the key by a version of it, if there is one. *)
Definition ec_update (e : loc) (f : EcKey → option EcKey) : M' bool :=
  ok ← lib; k ← ec_get e;
  match f k with
  | Some k' => if ok : bool then ec_set e k';; mret true else mret false
  | None => mret false
  end.
Definition EC_KEY_set_public_key (e : loc) (pt : EcPoint) : M' bool := ec_update e (λ k, EC_KEY_with_public k pt).
Definition EC_KEY_set_private_key (e bn : loc) : M' bool :=
  n ← deref bns (Some bn); ec_update e (λ k, EC_KEY_with_private k n).

Definition EVP_PKEY_new : M' ptr :=
  ok ← lib; if ok : bool then p ← alloc pkeys set_pkeys NULL; mret (Some p) else mret NULL.
Definition EVP_PKEY_set1_EC_KEY (p e : loc) : M' bool :=
  ok ← lib;
  if ok : bool then EC_KEY_up_ref e;; deref pkeys (Some p);; modify (set_pkeys <[p := Some e]>);; mret true
  else mret false.
Definition EVP_PKEY_get1_EC_KEY (p : ptr) : M' ptr :=
  e ← deref pkeys p;
  match e with None => mret NULL | Some l => EC_KEY_up_ref l;; mret (Some l) end.
Definition EVP_PKEY_free (p : ptr) : M' unit :=
  match p with
  | None => mret tt
  | Some l => e ← deref pkeys p; EC_KEY_free_if e;; release pkeys set_pkeys l
  end.

Definition BN_free_if (p : ptr) : M' unit := match p with None => mret tt | Some l => release bns set_bns l end.
Definition bin2bn (d : list Z) : M' ptr :=
  ok ← lib; if ok : bool then l ← alloc bns set_bns (BN_bin2bn d); mret (Some l) else mret NULL.
Definition ECDSA_SIG_new : M' ptr :=
  ok ← lib;
  if ok : bool then
    if sig_has_numbers then
      r ← alloc bns set_bns 0; s ← alloc bns set_bns 0;
      l ← alloc sigs set_sigs (Some r, Some s); mret (Some l)
    else l ← alloc sigs set_sigs (NULL, NULL); mret (Some l)
  else mret NULL.
Definition ECDSA_SIG_free (l : loc) : M' unit :=
  '(r, s) ← deref sigs (Some l); BN_free_if r;; BN_free_if s;; release sigs set_sigs l.
Definition ECDSA_do_sign (dgst : list Z) (e : loc) : M' ptr :=
  n ← gets calls; ok ← lib; k ← ec_get e;
  match ECDSA_sign n dgst k with
  | Some (r, s) =>
      if ok : bool then
        lr ← alloc bns set_bns r; ls ← alloc bns set_bns s;
        l ← alloc sigs set_sigs (Some lr, Some ls); mret (Some l)
      else mret NULL
  | None => mret NULL
  end.
Definition bn_val (p : ptr) : M' (option Z) :=
  match p with None => mret None | Some _ => n ← deref bns p; mret (Some n) end.
Definition ECDSA_do_verify (dgst : list Z) (l e : loc) : M' Z :=
  '(pr, ps) ← deref sigs (Some l); r ← bn_val pr; s ← bn_val ps; k ← ec_get e;
  mret (ECDSA_verify dgst r s k).

(** [EVP_DigestFinal] also clears the context, [EVP_DigestFinal_ex] does not. *)
Definition digest_final (p : ptr) : M' (option (list Z)) :=
  ok ← lib; c ← deref mds p;
  match c with
  | Hashing t d =>
      modify (set_mds (λ h, from_option (λ l, <[l := Idle]> h) h p));;
      if ok : bool then mret (Some (digest t d)) else mret None
  | Idle => fail BadAccess
  end.
Definition EVP_DigestFinal := digest_final.
Definition EVP_DigestFinal_ex := digest_final.

(** ** Keys and contexts of the DNS library *)
Record dst_key := DstKey { key_alg : dst_alg; pkey : ptr; external : bool }.
Definition with_pkey (p : ptr) (k : dst_key) : dst_key := DstKey (key_alg k) p (external k).
Record dst_context := DstContext { dc_key : dst_key; evp_md_ctx : ptr }.
(** [dst_private_t]. *)
Record dst_private := Private { nelements : nat; elements : list (Z * loc) }.

(** ** Digest contexts *)
Definition opensslecdsa_createctx (dctx : dst_context) : M' (isc_result * dst_context) :=
  assert (is_ecdsa (key_alg (dc_key dctx)));;
  ok ← lib;
  if negb ok then mret (ISC_R_NOMEMORY, dctx)
  else
    c ← alloc mds set_mds Idle;
    let type := match key_alg (dc_key dctx) with DST_ALG_ECDSA256 => EVP_sha256 | _ => EVP_sha384 end in
    ok ← lib;
    if negb ok then
      release mds set_mds c;;
      r ← toresult ISC_R_FAILURE; mret (r, dctx)
    else
      modify (set_mds <[c := Hashing type []]>);;
      mret (ISC_R_SUCCESS, DstContext (dc_key dctx) (Some c)).

Definition opensslecdsa_destroyctx (dctx : dst_context) : M' dst_context :=
  assert (is_ecdsa (key_alg (dc_key dctx)));;
  match evp_md_ctx dctx with
  | Some c => release mds set_mds c;; mret (DstContext (dc_key dctx) NULL)
  | None => mret dctx
  end.

Definition opensslecdsa_adddata (dctx : dst_context) (data : list Z) : M' isc_result :=
  assert (is_ecdsa (key_alg (dc_key dctx)));;
  ok ← lib; c ← deref mds (evp_md_ctx dctx);
  match c with
  | Idle => fail BadAccess
  | Hashing t d =>
      if negb ok then toresult ISC_R_FAILURE
      else
        modify (set_mds (λ h, from_option (λ l, <[l := Hashing t (d ++ data)]> h) h (evp_md_ctx dctx)));;
        mret ISC_R_SUCCESS
  end.

(** ** Signatures *)

(** A store of octets at an offset of the available region. *)
Definition region_write (off : nat) (d : list Z) (b : Buffer) : res Buffer :=
  let a := avail b in
  if decide (off + length d ≤ length a)%nat
  then Ok (set_avail (take off a ++ d ++ drop (off + length d) a) b) else Err BadAccess.
(** [while (bytes-- > 0) *buf++ = 0;] *)
Fixpoint pad_loop (bytes off : nat) (b : Buffer) : res (Buffer * nat) :=
  match bytes with
  | O => Ok (b, off)
  | S bytes => b ← region_write off [0] b; pad_loop bytes (S off) b
  end.
Definition BN_bn2bin_fixed (bn : Z) (off : nat) (size : Z) (b : Buffer) : res Buffer :=
  let bytes := size - Z.of_nat (BN_num_bytes bn) in
  '(b, off) ← pad_loop (Z.to_nat bytes) off b;
  region_write off (BN_bn2bin bn) b.

Definition sig_size (a : dst_alg) : nat :=
  match a with DST_ALG_ECDSA256 => DNS_SIG_ECDSA256SIZE | _ => DNS_SIG_ECDSA384SIZE end.

(** The body of [opensslecdsa_sign] up to [err]. *)
Definition sign_body (dctx : dst_context) (eckey : loc) (sig : Buffer) : M' (isc_result * Buffer) :=
  let siglen := sig_size (key_alg (dc_key dctx)) in
  if decide (length (avail sig) < siglen)%nat then mret (ISC_R_NOSPACE, sig)
  else
    dgst ← EVP_DigestFinal (evp_md_ctx dctx);
    match dgst with
    | None => r ← toresult ISC_R_FAILURE; mret (r, sig)
    | Some dgst =>
        when_ok (ECDSA_do_sign dgst eckey)
          (λ ecdsasig,
            '(pr, ps) ← deref sigs (Some ecdsasig);
            r ← deref bns pr;
            sig ← lift (BN_bn2bin_fixed r 0 (Z.of_nat (siglen / 2)) sig);
            s ← deref bns ps;
            sig ← lift (BN_bn2bin_fixed s (siglen / 2) (Z.of_nat (siglen / 2)) sig);
            ECDSA_SIG_free ecdsasig;;
            mret (ISC_R_SUCCESS, isc_buffer_add siglen sig))
          (r ← toresult DST_R_SIGNFAILURE; mret (r, sig))
    end.
Definition opensslecdsa_sign (dctx : dst_context) (sig : Buffer) : M' (isc_result * Buffer) :=
  eckey ← EVP_PKEY_get1_EC_KEY (pkey (dc_key dctx));
  assert (is_ecdsa (key_alg (dc_key dctx)));;
  match eckey with
  | None => mret (ISC_R_FAILURE, sig)
  | Some e => out ← sign_body dctx e sig; EC_KEY_free e;; mret out
  end.

(** The signature from its two halves, and its verification. *)
Definition verify_body (dctx : dst_context) (eckey : loc) (sig : list Z) : M' (isc_result * ptr) :=
  let siglen := sig_size (key_alg (dc_key dctx)) in
  dgst ← EVP_DigestFinal_ex (evp_md_ctx dctx);
  match dgst with
  | None => r ← toresult ISC_R_FAILURE; mret (r, NULL)
  | Some dgst =>
      when_ok ECDSA_SIG_new
        (λ ecdsasig,
          '(pr, ps) ← deref sigs (Some ecdsasig);
          BN_free_if pr;;
          r ← bin2bn (take (siglen / 2) sig);
          modify (set_sigs <[ecdsasig := (r, ps)]>);;
          BN_free_if ps;;
          s ← bin2bn (take (siglen / 2) (drop (siglen / 2) sig));
          modify (set_sigs <[ecdsasig := (r, s)]>);;
          status ← ECDSA_do_verify dgst ecdsasig eckey;
          ret ← (if status =? 1 then mret ISC_R_SUCCESS else toresult DST_R_VERIFYFAILURE);
          mret (ret, Some ecdsasig))
        (mret (ISC_R_NOMEMORY, NULL))
  end.
(** A signature of the wrong length returns before [err]. *)
Definition opensslecdsa_verify (dctx : dst_context) (sig : list Z) : M' isc_result :=
  eckey ← EVP_PKEY_get1_EC_KEY (pkey (dc_key dctx));
  assert (is_ecdsa (key_alg (dc_key dctx)));;
  match eckey with
  | None => mret ISC_R_FAILURE
  | Some e =>
      if negb (length sig =? sig_size (key_alg (dc_key dctx)))%nat then mret DST_R_VERIFYFAILURE
      else
        '(ret, ecdsasig) ← verify_body dctx e sig;
        match ecdsasig with None => mret tt | Some l => ECDSA_SIG_free l end;;
        EC_KEY_free e;;
        mret ret
  end.

(** ** Keys *)
Definition curve_nid (a : dst_alg) : Z :=
  match a with DST_ALG_ECDSA256 => NID_X9_62_prime256v1 | _ => NID_secp384r1 end.
Definition key_size (a : dst_alg) : nat :=
  match a with DST_ALG_ECDSA256 => DNS_KEY_ECDSA256SIZE | _ => DNS_KEY_ECDSA384SIZE end.

(** The comparison of two keys up to [err]. *)
Definition compare_body (eckey1 eckey2 : ptr) : M' bool :=
  match eckey1, eckey2 with
  | None, None => mret true
  | Some e1, Some e2 =>
      k1 ← ec_get e1; k2 ← ec_get e2;
      if negb (EVP_PKEY_cmp k1 k2 =? 1) then mret false
      else
        match EC_KEY_get0_private_key k1, EC_KEY_get0_private_key k2 with
        | None, None => mret true
        | Some priv1, Some priv2 => mret (priv1 =? priv2)
        | _, _ => mret false
        end
  | _, _ => mret false
  end.
Definition opensslecdsa_compare (key1 key2 : dst_key) : M' bool :=
  match pkey key1, pkey key2 with
  | None, None => mret true
  | Some _, Some _ =>
      eckey1 ← EVP_PKEY_get1_EC_KEY (pkey key1);
      eckey2 ← EVP_PKEY_get1_EC_KEY (pkey key2);
      ret ← compare_body eckey1 eckey2;
      EC_KEY_free_if eckey1;;
      EC_KEY_free_if eckey2;;
      mret ret
  | _, _ => mret false
  end.

(** The end of the functions that make a key: an [EVP_PKEY] around [eckey];
    [failed] when the [EC_KEY] cannot be put into it. *)
Definition new_pkey (key : dst_key) (eckey : loc) (failed : M' isc_result) : M' (isc_result * dst_key) :=
  when_ok EVP_PKEY_new
    (λ p,
      ok ← EVP_PKEY_set1_EC_KEY p eckey;
      if negb ok then EVP_PKEY_free (Some p);; r ← failed; mret (r, key)
      else mret (ISC_R_SUCCESS, with_pkey (Some p) key))
    (mret (ISC_R_NOMEMORY, key)).

Definition opensslecdsa_generate (key : dst_key) : M' (isc_result * dst_key) :=
  assert (is_ecdsa (key_alg key));;
  when_ok (EC_KEY_new_by_curve_name (curve_nid (key_alg key)))
    (λ eckey,
      ok ← EC_KEY_generate_key eckey;
      out ← (if negb ok then r ← toresult DST_R_OPENSSLFAILURE; mret (r, key)
             else new_pkey key eckey (mret ISC_R_FAILURE));
      EC_KEY_free eckey;;
      mret out)
    (r ← toresult DST_R_OPENSSLFAILURE; mret (r, key)).

Definition opensslecdsa_isprivate (key : dst_key) : M' bool :=
  eckey ← EVP_PKEY_get1_EC_KEY (pkey key);
  match eckey with
  | None => mret false
  | Some e =>
      k ← ec_get e;
      EC_KEY_free e;;
      mret (bool_decide (is_Some (EC_KEY_get0_private_key k)))
  end.

Definition opensslecdsa_destroy (key : dst_key) : M' dst_key :=
  EVP_PKEY_free (pkey key);; mret (with_pkey NULL key).

(** ** Public keys in DNS records *)

(** The octets that [i2o_ECPublicKey] puts into [buf]. *)
Definition key_buf (d : list Z) : res (list Z) :=
  if decide (length d ≤ DNS_KEY_ECDSA384SIZE + 1)%nat then Ok d else Err BadAccess.
(** Octets moved to the start of the available region, and added. *)
Definition put_octets (d : list Z) (data : Buffer) : res Buffer :=
  b ← region_write 0 d data; Ok (isc_buffer_add (length d) b).

Definition todns_body (eckey : loc) (data : Buffer) : M' (isc_result * Buffer) :=
  k ← ec_get eckey;
  let len := from_option (λ o, Z.of_nat (length o)) 0 (i2o_ECPublicKey k) - 1 in
  if Z.of_nat (length (avail data)) <? u32 len then mret (ISC_R_NOSPACE, data)
  else
    ok ← lib;
    match (if ok : bool then i2o_ECPublicKey k else None) with
    | None => r ← toresult ISC_R_FAILURE; mret (r, data)
    | Some o =>
        buf ← lift (key_buf o);
        data ← lift (put_octets (drop 1 buf) data);
        mret (ISC_R_SUCCESS, data)
    end.
Definition opensslecdsa_todns (key : dst_key) (data : Buffer) : M' (isc_result * Buffer) :=
  assert (bool_decide (pkey key ≠ NULL));;
  eckey ← EVP_PKEY_get1_EC_KEY (pkey key);
  match eckey with
  | None => r ← toresult ISC_R_FAILURE; mret (r, data)
  | Some e => out ← todns_body e data; EC_KEY_free e;; mret out
  end.

Definition fromdns_body (key : dst_key) (eckey : loc) (data : Buffer) : M' (isc_result * dst_key * Buffer) :=
  let len := key_size (key_alg key) in
  let r := remaining data in
  buf ← lift (key_buf (POINT_CONVERSION_UNCOMPRESSED :: take len r));
  ok ← ec_update eckey (λ k, o2i_ECPublicKey k buf);
  k ← ec_get eckey;
  if negb ok || negb (EC_KEY_check_key k)
  then r ← toresult DST_R_INVALIDPUBLICKEY; mret (r, key, data)
  else
    '(ret, key') ← new_pkey key eckey (toresult ISC_R_FAILURE);
    mret (ret, key', if decide (ret = ISC_R_SUCCESS) then isc_buffer_forward len data else data).
Definition opensslecdsa_fromdns (key : dst_key) (data : Buffer) : M' (isc_result * dst_key * Buffer) :=
  assert (is_ecdsa (key_alg key));;
  let len := key_size (key_alg key) in
  let r := remaining data in
  if (length r =? 0)%nat then mret (ISC_R_SUCCESS, key, data)
  else if decide (length r < len)%nat then mret (DST_R_INVALIDPUBLICKEY, key, data)
  else
    when_ok (EC_KEY_new_by_curve_name (curve_nid (key_alg key)))
      (λ eckey, out ← fromdns_body key eckey data; EC_KEY_free eckey;; mret out)
      (r ← toresult DST_R_OPENSSLFAILURE; mret (r, key, data)).

(** ** Private key files *)

(** [dst__privstruct_writefile]: the text written. *)
Definition dst__privstruct_writefile (key : dst_key) (priv : dst_private) : M' (isc_result * list Z) :=
  if decide (length (elements priv) < nelements priv)%nat then fail BadAccess
  else
    els ← mapM (λ '(tag, l), d ← deref blocks (Some l); mret (tag, d)) (take (nelements priv) (elements priv));
    n ← gets calls; modify tick;;
    mret (privstruct_text n (key_alg key) (external key) els).
(** [dst__privstruct_parse]: the elements get memory of their own. *)
Definition dst__privstruct_parse (key : dst_key) (alg : dst_alg) (lexer : list Z) :
    M' (isc_result * dst_key * dst_private) :=
  n ← gets calls; modify tick;;
  let '(ret, ext, els) := privstruct_read n (key_alg key) alg lexer in
  let key := DstKey (key_alg key) (pkey key) (ext || external key) in
  if decide (ret = ISC_R_SUCCESS) then
    els ← mapM (λ '(tag, d), l ← alloc blocks set_blocks d; mret (tag, l)) els;
    mret (ret, key, Private (length els) els)
  else mret (ret, key, Private 0 []).
Definition dst__privstruct_free (priv : dst_private) : M' unit :=
  mapM (λ '(_, l), release blocks set_blocks l) (take (nelements priv) (elements priv));; mret tt.

(** The result, and the memory for the number if it was taken. *)
Definition tofile_body (key : dst_key) (eckey : loc) : M' (isc_result * option (list Z) * ptr) :=
  k ← ec_get eckey;
  match EC_KEY_get0_private_key k with
  | None => mret (ISC_R_FAILURE, None, NULL)
  | Some privkey =>
      ok ← lib;
      if negb ok then mret (ISC_R_NOMEMORY, None, NULL)
      else
        buf ← alloc blocks set_blocks (replicate (BN_num_bytes privkey) 0);
        (if decide (length (BN_bn2bin privkey) ≤ BN_num_bytes privkey)%nat
         then modify (set_blocks <[buf := BN_bn2bin privkey]>) else fail BadAccess);;
        '(ret, text) ← dst__privstruct_writefile key (Private ECDSA_NTAGS [(TAG_ECDSA_PRIVATEKEY, buf)]);
        mret (ret, Some text, Some buf)
  end.
(** [isc_mem_put] is given the size of the number, which belongs to [eckey]. *)
Definition opensslecdsa_tofile (key : dst_key) : M' (isc_result * option (list Z)) :=
  match pkey key with
  | None => mret (DST_R_NULLKEY, None)
  | Some _ =>
      if external key then
        '(ret, text) ← dst__privstruct_writefile key (Private 0 []); mret (ret, Some text)
      else
        eckey ← EVP_PKEY_get1_EC_KEY (pkey key);
        match eckey with
        | None => r ← toresult DST_R_OPENSSLFAILURE; mret (r, None)
        | Some e =>
            '(ret, text, buf) ← tofile_body key e;
            EC_KEY_free e;;
            match buf with
            | None => mret tt
            | Some l => ec_get e;; release blocks set_blocks l
            end;;
            mret (ret, text)
        end
  end.

(** The private key [eckey] gets the public key of [pub], and must fit it. *)
Definition ecdsa_check (eckey : loc) (pub : option dst_key) : M' isc_result :=
  match pub ≫= pkey with
  | None => mret ISC_R_SUCCESS
  | Some p =>
      pubeckey ← EVP_PKEY_get1_EC_KEY (Some p);
      match pubeckey with
      | None => mret ISC_R_SUCCESS
      | Some e =>
          k ← ec_get e;
          ret ← match EC_KEY_get0_public_key k with
                | None => mret ISC_R_SUCCESS
                | Some pubkey =>
                    ok ← EC_KEY_set_public_key eckey pubkey;
                    if negb ok then mret ISC_R_SUCCESS
                    else k ← ec_get eckey; mret (if EC_KEY_check_key k then ISC_R_SUCCESS else ISC_R_FAILURE)
                end;
          EC_KEY_free e;;
          mret ret
      end
  end.

(** The key of a file that is kept elsewhere: its public key is that of [pub]. *)
Definition parse_external (eckey : loc) (pub : option dst_key) : M' (isc_result * ptr) :=
  match pub with
  | None => mret (DST_R_INVALIDPRIVATEKEY, NULL)
  | Some pub =>
      pubeckey ← EVP_PKEY_get1_EC_KEY (pkey pub);
      match pubeckey with
      | None => mret (DST_R_INVALIDPRIVATEKEY, NULL)
      | Some e =>
          k ← ec_get e;
          ret ← match EC_KEY_get0_public_key k with
                | None => mret DST_R_INVALIDPRIVATEKEY
                | Some pubkey =>
                    ok ← EC_KEY_set_public_key eckey pubkey;
                    if negb ok then mret DST_R_INVALIDPRIVATEKEY
                    else k ← ec_get eckey;
                         mret (if EC_KEY_check_key k then ISC_R_SUCCESS else DST_R_INVALIDPRIVATEKEY)
                end;
          mret (ret, pubeckey)
      end
  end.
(** The key of a file with its private number.  [EC_KEY_set_private_key] keeps a
    copy of the number. *)
Definition parse_private (eckey : loc) (priv : dst_private) (pub : option dst_key) :
    M' (isc_result * dst_private) :=
  '(_, buf) ← from_option_or BadAccess (elements priv !! 0%nat);
  d ← deref blocks (Some buf);
  when_ok (bin2bn d)
    (λ privkey,
      ok ← EC_KEY_set_private_key eckey privkey;
      if negb ok then mret (ISC_R_NOMEMORY, priv)
      else
        c ← ecdsa_check eckey pub;
        if decide (c = ISC_R_SUCCESS) then dst__privstruct_free priv;; mret (ISC_R_SUCCESS, Private 0 [])
        else mret (DST_R_INVALIDPRIVATEKEY, priv))
    (mret (ISC_R_NOMEMORY, priv)).

Definition parse_body (key : dst_key) (eckey : loc) (lexer : list Z) (pub : option dst_key) :
    M' (isc_result * dst_key * ptr * dst_private) :=
  '(ret, key, priv) ← dst__privstruct_parse key DST_ALG_ECDSA256 lexer;
  if negb (bool_decide (ret = ISC_R_SUCCESS)) then mret (ret, key, NULL, priv)
  else
    '(ret, pubeckey, priv) ←
      (if external key then '(ret, pubeckey) ← parse_external eckey pub; mret (ret, pubeckey, priv)
       else '(ret, priv) ← parse_private eckey priv pub; mret (ret, NULL, priv));
    if negb (bool_decide (ret = ISC_R_SUCCESS)) then mret (ret, key, pubeckey, priv)
    else
      '(ret, key) ← new_pkey key eckey (toresult DST_R_OPENSSLFAILURE);
      mret (ret, key, pubeckey, priv).
Definition opensslecdsa_parse (key : dst_key) (lexer : list Z) (pub : option dst_key) :
    M' (isc_result * dst_key) :=
  assert (is_ecdsa (key_alg key));;
  when_ok (EC_KEY_new_by_curve_name (curve_nid (key_alg key)))
    (λ eckey,
      '(ret, key, pubeckey, priv) ← parse_body key eckey lexer pub;
      EC_KEY_free eckey;;
      EC_KEY_free_if pubeckey;;
      dst__privstruct_free priv;;
      mret (ret, key))
    (r ← toresult DST_R_OPENSSLFAILURE; mret (r, key)).

(** ** The table of the driver's functions, without the entries that are NULL. *)
Record dst_func := DstFunc {
  createctx : dst_context → M' (isc_result * dst_context);
  destroyctx : dst_context → M' dst_context;
  adddata : dst_context → list Z → M' isc_result;
  sign : dst_context → Buffer → M' (isc_result * Buffer);
  verify : dst_context → list Z → M' isc_result;
  compare_keys : dst_key → dst_key → M' bool;
  generate : dst_key → M' (isc_result * dst_key);
  isprivate : dst_key → M' bool;
  destroy : dst_key → M' dst_key;
  todns : dst_key → Buffer → M' (isc_result * Buffer);
  fromdns : dst_key → Buffer → M' (isc_result * dst_key * Buffer);
  tofile : dst_key → M' (isc_result * option (list Z));
  parse : dst_key → list Z → option dst_key → M' (isc_result * dst_key)
}.
Definition opensslecdsa_functions : dst_func := DstFunc
  opensslecdsa_createctx opensslecdsa_destroyctx opensslecdsa_adddata opensslecdsa_sign opensslecdsa_verify
  opensslecdsa_compare opensslecdsa_generate opensslecdsa_isprivate opensslecdsa_destroy
  opensslecdsa_todns opensslecdsa_fromdns opensslecdsa_tofile opensslecdsa_parse.
Definition dst__opensslecdsa_init (funcp : option (option dst_func)) : res (isc_result * option dst_func) :=
  match funcp with
  | None => Err AssertFail
  | Some None => Ok (ISC_R_SUCCESS, Some opensslecdsa_functions)
  | Some f => Ok (ISC_R_SUCCESS, f)
  end.
End code.
