(* ===== verification/DstEcdsaProofs.v ===== *)
(** * ECDSA keys of a DNS server: correctness

    Signatures made by the driver verify, keys survive the way through a DNS
    record or a private key file, and what an operation takes from libcrypto it
    gives back: [returns] says of a computation that it ends without a fault
    with the same objects and reference counts ([held]) as before.  Two paths
    keep something, and are proved to. *)

From stdpp Require Import base gmap list.
From Stdlib Require Import ZArith Lia.
From S2P Require Import Prelude DstEcdsa.

Local Open Scope Z_scope.

(** ** What the libraries promise *)
Class OsslLaws `{Ossl} := {
  bn2bin_length n : length (BN_bn2bin n) = BN_num_bytes n;
  bin2bn_bn2bin n : 0 ≤ n → BN_bin2bn (BN_bn2bin n) = n;
  bin2bn_zero l : BN_bin2bn (0 :: l) = BN_bin2bn l;
  error_is_error n f : f ≠ ISC_R_SUCCESS → error_result n f ≠ ISC_R_SUCCESS;
  verify_numbers d r s k : ECDSA_verify d r s k = 1 → is_Some r ∧ is_Some s;
  sig256_even : DNS_SIG_ECDSA256SIZE = (2 * (DNS_SIG_ECDSA256SIZE / 2))%nat;
  sig384_even : DNS_SIG_ECDSA384SIZE = (2 * (DNS_SIG_ECDSA384SIZE / 2))%nat;
  key_sizes : (DNS_KEY_ECDSA256SIZE ≤ DNS_KEY_ECDSA384SIZE)%nat;
  key_size_int : Z.of_nat DNS_KEY_ECDSA384SIZE < 2 ^ 31;
  one_tag : ECDSA_NTAGS = 1%nat
}.

Section proofs.
Context `{!IscBuffer, !IscBufferLaws, !Ossl, !OsslLaws}.
Implicit Types (s : st) (b : Buffer) (e l : loc).

(** ** Octets of fixed width *)
Definition fixed (size : nat) (n : Z) : list Z := replicate (size - BN_num_bytes n) 0 ++ BN_bn2bin n.

Lemma fixed_length size n : (BN_num_bytes n ≤ size)%nat → length (fixed size n) = size.
Proof. intros. unfold fixed. rewrite length_app, length_replicate, bn2bin_length. lia. Qed.
Lemma bin2bn_fixed size n : 0 ≤ n → BN_bin2bn (fixed size n) = n.
Proof.
  intros Hn. unfold fixed. induction (size - BN_num_bytes n)%nat as [|m IH]; simpl; [by apply bin2bn_bn2bin|].
  by rewrite bin2bn_zero.
Qed.

(** [b'] is [b] with the octets [d] stored at an offset of the available region. *)
Definition stored (off : nat) (d : list Z) b b' : Prop :=
  avail b' = take off (avail b) ++ d ++ drop (off + length d) (avail b) ∧ remaining b' = remaining b.

Lemma region_write_ok off d b : (off + length d ≤ length (avail b))%nat →
  ∃ b', region_write off d b = Ok b' ∧ stored off d b b'.
Proof.
  intros Hl. unfold region_write. rewrite decide_True by done. eexists. split; [done|].
  assert (length (take off (avail b) ++ d ++ drop (off + length d) (avail b)) = length (avail b)) as E.
  { rewrite !length_app, length_take, length_drop. lia. }
  split; [by apply avail_set|by apply remaining_set].
Qed.
Lemma stored_length off d b b' : (off + length d ≤ length (avail b))%nat → stored off d b b' →
  length (avail b') = length (avail b).
Proof. intros Hl [-> _]. rewrite !length_app, length_take, length_drop. lia. Qed.
(** Two stores next to each other are one. *)
Lemma stored_app off d d' b b1 b2 : (off + length d + length d' ≤ length (avail b))%nat →
  stored off d b b1 → stored (off + length d) d' b1 b2 → stored off (d ++ d') b b2.
Proof.
  intros Hl [E1 R1] [E2 R2]. split; [|congruence]. rewrite E2, E1.
  rewrite (assoc_L app (take off _)), take_app_length' by (rewrite length_app, length_take; lia).
  rewrite drop_app_ge by (rewrite length_app, length_take; lia).
  rewrite length_app, length_take, drop_drop, length_app, <-!(assoc_L app).
  do 3 f_equal. f_equal. lia.
Qed.

Lemma pad_loop_ok n : ∀ off b, (off + n ≤ length (avail b))%nat →
  ∃ b', pad_loop n off b = Ok (b', (off + n)%nat) ∧ stored off (replicate n 0) b b'.
Proof.
  induction n as [|n IH]; intros off b Hl; simpl.
  - exists b. rewrite Nat.add_0_r. split; [done|]. split; [|done]. simpl. by rewrite Nat.add_0_r, take_drop.
  - destruct (region_write_ok off [0] b) as (b1 & -> & S1); [simpl; lia|].
    cbn [mbind res_bind].
    assert (length (avail b1) = length (avail b)) as L1 by (eapply stored_length, S1; simpl; lia).
    destruct (IH (S off) b1) as (b2 & -> & S2); [lia|]. exists b2. split; [by rewrite Nat.add_succ_r|].
    apply (stored_app off [0] (replicate n 0) b b1 b2); [rewrite length_replicate; simpl; lia|done|].
    simpl. by rewrite Nat.add_1_r.
Qed.

Lemma BN_bn2bin_fixed_ok n off size b :
  (BN_num_bytes n ≤ size)%nat → (off + size ≤ length (avail b))%nat →
  ∃ b', BN_bn2bin_fixed n off (Z.of_nat size) b = Ok b' ∧ stored off (fixed size n) b b'.
Proof.
  intros Hn Hl. unfold BN_bn2bin_fixed. cbv zeta.
  replace (Z.to_nat (Z.of_nat size - Z.of_nat (BN_num_bytes n))) with (size - BN_num_bytes n)%nat by lia.
  destruct (pad_loop_ok (size - BN_num_bytes n) off b) as (b1 & -> & S1); [lia|]. cbn [mbind res_bind].
  assert (length (avail b1) = length (avail b)) as L1 by (eapply stored_length, S1; rewrite length_replicate; lia).
  destruct (region_write_ok (off + (size - BN_num_bytes n)) (BN_bn2bin n) b1) as (b2 & E & S2);
    [rewrite bn2bin_length; lia|].
  exists b2. split; [done|]. unfold fixed. eapply stored_app; [|done|].
  - rewrite length_replicate, bn2bin_length. lia.
  - by rewrite length_replicate.
Qed.

(** ** The objects of libcrypto *)
Definition held s := (ecs s, pkeys s, sigs s, bns s, blocks s).
Definition returns {A} (c : M st A) s (Q : A → gmap loc md_state → Prop) : Prop :=
  runs c s (λ a s', held s' = held s ∧ Q a (mds s')).

Lemma runs_lib s (Q : bool → st → Prop) : Q (works (calls s)) (tick s) → runs lib s Q.
Proof. intros HQ. by eexists _, _. Qed.
Lemma runs_toresult f s (Q : isc_result → st → Prop) :
  (∀ r, (f ≠ ISC_R_SUCCESS → r ≠ ISC_R_SUCCESS) → Q r (tick s)) → runs (toresult f) s Q.
Proof. intros HQ. eexists _, _. split; [done|]. apply HQ. apply error_is_error. Qed.
Lemma runs_deref {A} (f : st → gmap loc A) l a s (Q : A → st → Prop) :
  f s !! l = Some a → Q a s → runs (deref f (Some l)) s Q.
Proof. intros E HQ. exists a, s. unfold deref. simpl. by rewrite E. Qed.
Lemma runs_alloc {A} (f : st → gmap loc A) set (a : A) s (Q : loc → st → Prop) :
  (∀ l, f s !! l = None → Q l (set <[l := a]> s)) → runs (alloc f set a) s Q.
Proof.
  intros HQ. eexists _, _. split; [done|]. apply HQ. apply not_elem_of_dom, is_fresh.
Qed.
Lemma runs_release_obj {A} (f : st → gmap loc A) set l a s (Q : unit → st → Prop) :
  f s !! l = Some a → Q tt (set (delete l) s) → runs (release f set l) s Q.
Proof. intros E HQ. apply runs_bind. eapply runs_deref; [done|]. by apply runs_modify. Qed.

Lemma runs_ec_get e k n s (Q : EcKey → st → Prop) : ecs s !! e = Some (k, n) → Q k s → runs (ec_get e) s Q.
Proof. intros E HQ. apply runs_bind. eapply runs_deref; [done|]. by apply runs_ret. Qed.

(** One reference more, one less. *)
Definition up (x : EcKey * nat) : EcKey * nat := (x.1, S x.2).
Definition down (x : EcKey * nat) : EcKey * nat := (x.1, pred x.2).
Lemma alter_down_up e (m : gmap loc (EcKey * nat)) : alter down e (alter up e m) = m.
Proof.
  apply map_eq. intros i. destruct (decide (i = e)) as [->|]; [|by rewrite !lookup_alter_ne].
  rewrite !lookup_alter_eq. by destruct (m !! e) as [[]|].
Qed.
Lemma insert_alter {A} (f : A → A) e a (m : gmap loc A) : m !! e = Some a → <[e := f a]> m = alter f e m.
Proof.
  intros E. apply map_eq. intros i. destruct (decide (i = e)) as [->|].
  - by rewrite lookup_insert_eq, lookup_alter_eq, E.
  - by rewrite lookup_insert_ne, lookup_alter_ne.
Qed.

Lemma runs_up_ref e k n s (Q : unit → st → Prop) :
  ecs s !! e = Some (k, n) → Q tt (set_ecs (alter up e) s) → runs (EC_KEY_up_ref e) s Q.
Proof.
  intros E HQ. apply runs_bind. eapply runs_deref; [done|]. apply runs_modify.
  replace (set_ecs <[e := (k, S n)]> s) with (set_ecs (alter up e) s); [done|].
  unfold set_ecs. f_equal. symmetry. exact (insert_alter up e (k, n) (ecs s) E).
Qed.
Lemma runs_free_ref e k n s (Q : unit → st → Prop) :
  ecs s !! e = Some (k, n) → (2 ≤ n)%nat → Q tt (set_ecs (alter down e) s) → runs (EC_KEY_free e) s Q.
Proof.
  intros E Hn HQ. apply runs_bind. eapply runs_deref; [done|]. apply runs_modify.
  rewrite decide_False by lia. replace (set_ecs <[e := (k, pred n)]> s) with (set_ecs (alter down e) s); [done|].
  unfold set_ecs. f_equal. symmetry. exact (insert_alter down e (k, n) (ecs s) E).
Qed.
Lemma runs_free_last e k s (Q : unit → st → Prop) :
  ecs s !! e = Some (k, 1%nat) → Q tt (set_ecs (delete e) s) → runs (EC_KEY_free e) s Q.
Proof. intros E HQ. apply runs_bind. eapply runs_deref; [done|]. by apply runs_modify. Qed.

(** [p] is an [EVP_PKEY] with the key [k] in the [EC_KEY] [e]. *)
Definition has_ec s (p : ptr) e (k : EcKey) : Prop :=
  ∃ l n, p = Some l ∧ pkeys s !! l = Some (Some e) ∧ ecs s !! e = Some (k, S n).

Lemma has_ec_held s s' p e k : held s' = held s → has_ec s p e k → has_ec s' p e k.
Proof. intros Hh (l & n & ? & ? & ?). injection Hh as E1 E2 _ _ _. exists l, n. by rewrite E1, E2. Qed.

Lemma runs_get1 s p e k (Q : ptr → st → Prop) :
  has_ec s p e k → Q (Some e) (set_ecs (alter up e) s) → runs (EVP_PKEY_get1_EC_KEY p) s Q.
Proof.
  intros (l & n & -> & Hp & He) HQ. apply runs_bind. eapply runs_deref; [done|].
  apply runs_bind. eapply runs_up_ref; [done|]. by apply runs_ret.
Qed.
(** What uses a key from [EVP_PKEY_get1_EC_KEY] and frees it. *)
Lemma runs_key {A} s p e k (body : M st A) (Q : A → gmap loc md_state → Prop) :
  has_ec s p e k → returns body (set_ecs (alter up e) s) Q →
  runs (out ← body; EC_KEY_free e;; mret out) (set_ecs (alter up e) s)
    (λ a s', held s' = held s ∧ Q a (mds s')).
Proof.
  intros (l & n & -> & Hp & He) Hb. apply runs_bind. eapply runs_mono; [exact Hb|].
  intros a s2 [Hh HQ]. injection Hh as E1 E2 E3 E4 E5. apply runs_bind.
  apply (runs_free_ref e k (S (S n))); [by rewrite E1, lookup_alter_eq, He|lia|].
  apply runs_ret. split; [|done]. unfold held. simpl. by rewrite E1, E2, E3, E4, E5, alter_down_up.
Qed.
(** ** Numbers and signatures *)

(** The numbers [m'] are [m] with a new one, of value [v], at [p]. *)
Definition bn_at (p : ptr) (v : option Z) (m m' : gmap loc Z) : Prop :=
  match p with
  | None => v = None ∧ m' = m
  | Some l => m !! l = None ∧ ∃ x, v = Some x ∧ m' = <[l := x]> m
  end.
Lemma bn_swap p q v w m0 m1 m2 : bn_at p v m0 m1 → bn_at q w m1 m2 → ∃ m', bn_at q w m0 m' ∧ bn_at p v m' m2.
Proof.
  destruct p as [l|]; [intros (Hl & x & -> & ->)|intros [-> ->]; by exists m2].
  destruct q as [l'|]; [intros (Hl' & y & -> & ->)|intros [-> ->]; exists m0; split; [done|by split; [|exists x]]].
  apply lookup_insert_None in Hl' as [Hl' Hne]. exists (<[l' := y]> m0). split; [by split; [|exists y]|].
  split; [by rewrite lookup_insert_ne by congruence|]. exists x. split; [done|]. by apply insert_insert_ne.
Qed.
Lemma runs_BN_free p v m s (Q : unit → st → Prop) :
  bn_at p v m (bns s) → Q tt (set_bns (λ _, m) s) → runs (BN_free_if p) s Q.
Proof.
  destruct p as [l|].
  - intros (Hl & x & -> & E) HQ. eapply runs_release_obj; [rewrite E; apply lookup_insert_eq|].
    replace (set_bns (delete l) s) with (set_bns (λ _, m) s); [done|].
    unfold set_bns. f_equal. by rewrite E, delete_insert_id.
  - intros [-> E] HQ. apply runs_ret. replace (set_bns (λ _, m) s) with s in HQ; [done|].
    destruct s; simpl in *; by subst.
Qed.
Lemma runs_bin2bn d s (Q : ptr → st → Prop) :
  (∀ p v m, bn_at p v (bns s) m → (v = None ∨ v = Some (BN_bin2bn d)) →
     (works (calls s) = true → v = Some (BN_bin2bn d)) → Q p (set_bns (λ _, m) (tick s))) →
  runs (bin2bn d) s Q.
Proof.
  intros HQ. apply runs_bind, runs_lib. destruct (works (calls s)) eqn:E.
  - apply runs_bind, runs_alloc. intros l Hl. apply runs_ret.
    apply (HQ (Some l) (Some (BN_bin2bn d)) (<[l := BN_bin2bn d]> (bns s))); [|by right|done].
    split; [done|]. by eexists.
  - apply runs_ret. replace (tick s) with (set_bns (λ _, bns s) (tick s)) by by destruct s.
    by apply (HQ NULL None); [|left|].
Qed.

(** [s'] is [s] with a new [ECDSA_SIG] at [l] with the numbers [vr] and [vs]. *)
Record sig_at s0 s l (vr vs : option Z) : Prop := {
  sa_new : sigs s0 !! l = None;
  sa_rest : ecs s = ecs s0 ∧ pkeys s = pkeys s0 ∧ blocks s = blocks s0 ∧ mds s = mds s0;
  sa_bns : ∃ pr ps m1, sigs s = <[l := (pr, ps)]> (sigs s0) ∧ bn_at ps vs (bns s0) m1 ∧ bn_at pr vr m1 (bns s)
}.
Lemma sig_at_held s0 s1 s l vr vs :
  held s0 = held s1 → mds s0 = mds s1 → sig_at s0 s l vr vs → sig_at s1 s l vr vs.
Proof.
  intros Hh Hm [Hn (E1 & E2 & E3 & E4) Hb]. unfold held in Hh. injection Hh as A1 A2 A3 A4 A5.
  rewrite A3, A4 in Hb. split; [congruence|split_and!; congruence|done].
Qed.
Lemma runs_SIG_free s0 s l vr vs (Q : unit → st → Prop) :
  sig_at s0 s l vr vs → (∀ s', held s' = held s0 → mds s' = mds s0 → Q tt s') → runs (ECDSA_SIG_free l) s Q.
Proof.
  intros [Hn (E1 & E2 & E3 & E4) (pr & ps & m1 & Es & Bs & Br)] HQ. unfold ECDSA_SIG_free. apply runs_bind.
  apply (runs_deref sigs l (pr, ps)); [by rewrite Es, lookup_insert_eq|].
  apply runs_bind. eapply runs_BN_free; [done|]. apply runs_bind. eapply runs_BN_free; [done|].
  eapply runs_release_obj; [simpl; by rewrite Es, lookup_insert_eq|]. apply HQ; [|done].
  unfold held. simpl. by rewrite Es, E1, E2, E3, delete_insert_id.
Qed.

Lemma runs_do_sign d e k n s (Q : ptr → st → Prop) :
  ecs s !! e = Some (k, n) →
  (∀ i l r t s', ECDSA_sign i d k = Some (r, t) → sig_at s s' l (Some r) (Some t) → Q (Some l) s') →
  ((works (calls s) = true → ECDSA_sign (calls s) d k = None) → Q NULL (tick s)) →
  runs (ECDSA_do_sign d e) s Q.
Proof.
  intros He HS HN. apply runs_bind, runs_gets, runs_bind, runs_lib, runs_bind. eapply runs_ec_get; [done|].
  destruct (ECDSA_sign (calls s) d k) as [[r t]|] eqn:E; [|by apply runs_ret, HN].
  destruct (works (calls s)); [|by apply runs_ret, HN].
  apply runs_bind, runs_alloc. intros lr Hlr. apply runs_bind, runs_alloc. intros ls Hls.
  apply runs_bind, runs_alloc. intros l Hl. apply runs_ret. eapply HS; [done|]. split; [done|done|].
  destruct (bn_swap (Some lr) (Some ls) (Some r) (Some t) (bns s) (<[lr := r]> (bns s))
    (<[ls := t]> (<[lr := r]> (bns s)))) as (m' & Hs & Hr).
  - split; [done|]. by exists r.
  - split; [done|]. by exists t.
  - by exists (Some lr), (Some ls), m'.
Qed.
Lemma runs_SIG_new s (Q : ptr → st → Prop) :
  (∀ l vr vs s', sig_at s s' l vr vs → Q (Some l) s') →
  (works (calls s) = false → Q NULL (tick s)) → runs ECDSA_SIG_new s Q.
Proof.
  intros HS HN. apply runs_bind, runs_lib. destruct (works (calls s)); [|by apply runs_ret, HN].
  destruct sig_has_numbers.
  - apply runs_bind, runs_alloc. intros lr Hlr. apply runs_bind, runs_alloc. intros ls Hls.
    apply runs_bind, runs_alloc. intros l Hl. apply runs_ret. eapply HS.
    destruct (bn_swap (Some lr) (Some ls) (Some 0) (Some 0) (bns s) (<[lr := 0]> (bns s))
      (<[ls := 0]> (<[lr := 0]> (bns s)))) as (m' & Hs & Hr).
    + split; [done|]. by exists 0.
    + split; [done|]. by exists 0.
    + split; [done|done|]. by exists (Some lr), (Some ls), m'.
  - apply runs_bind, runs_alloc. intros l Hl. apply runs_ret. eapply HS.
    split; [done|done|]. by exists NULL, NULL, (bns s).
Qed.
(** ** Signing *)
Definition md_of (a : dst_alg) : md := match a with DST_ALG_ECDSA256 => EVP_sha256 | _ => EVP_sha384 end.
(** The context of [dctx] has been fed with the octets [d]. *)
Definition hashing s (dctx : dst_context) (c : loc) (d : list Z) : Prop :=
  evp_md_ctx dctx = Some c ∧ mds s !! c = Some (Hashing (md_of (key_alg (dc_key dctx))) d).
Definition half (a : dst_alg) : nat := (sig_size a / 2)%nat.
Lemma sig_size_half a : sig_size a = (half a + half a)%nat.
Proof. unfold half. destruct a; cbn [sig_size]; pose proof sig256_even; pose proof sig384_even; lia. Qed.

(** The numbers of a signature of the key fit in the two halves. *)
Definition numbers_fit (a : dst_alg) (k : EcKey) : Prop := ∀ i d r t,
  ECDSA_sign i d k = Some (r, t) → 0 ≤ r ∧ 0 ≤ t ∧ (BN_num_bytes r ≤ half a)%nat ∧ (BN_num_bytes t ≤ half a)%nat.
(** [o] is a signature for the octets [d], with the key [k]. *)
Definition signature (a : dst_alg) (k : EcKey) (d o : list Z) : Prop := ∃ i r t,
  ECDSA_sign i (digest (md_of a) d) k = Some (r, t) ∧ o = fixed (half a) r ++ fixed (half a) t.

Lemma runs_digest_final c t d s (Q : option (list Z) → st → Prop) :
  mds s !! c = Some (Hashing t d) →
  Q (if works (calls s) then Some (digest t d) else None) (set_mds <[c := Idle]> (tick s)) →
  runs (digest_final (Some c)) s Q.
Proof.
  intros Hc HQ. apply runs_bind, runs_lib, runs_bind. eapply runs_deref; [done|].
  apply runs_bind, runs_modify. destruct (works (calls s)); by apply runs_ret.
Qed.

(** Both halves are stored. *)
Lemma put_numbers a k i d r t b :
  numbers_fit a k → ECDSA_sign i d k = Some (r, t) → (sig_size a ≤ length (avail b))%nat →
  ∃ b1 b2, BN_bn2bin_fixed r 0 (Z.of_nat (half a)) b = Ok b1 ∧
    BN_bn2bin_fixed t (half a) (Z.of_nat (half a)) b1 = Ok b2 ∧
    remaining (isc_buffer_add (sig_size a) b2) = remaining b ++ fixed (half a) r ++ fixed (half a) t ∧
    avail (isc_buffer_add (sig_size a) b2) = drop (sig_size a) (avail b).
Proof.
  intros Hf Hs Hl. destruct (Hf _ _ _ _ Hs) as (_ & _ & Hr & Ht). rewrite sig_size_half in *.
  pose proof (fixed_length _ _ Hr) as Lr. pose proof (fixed_length _ _ Ht) as Lt.
  destruct (BN_bn2bin_fixed_ok r 0 (half a) b) as (b1 & E1 & S1); [done|lia|].
  assert (length (avail b1) = length (avail b)) as L1 by (eapply stored_length, S1; rewrite Lr; lia).
  destruct (BN_bn2bin_fixed_ok t (half a) (half a) b1) as (b2 & E2 & S2); [done|lia|].
  exists b1, b2. split; [done|]. split; [done|].
  assert (stored 0 (fixed (half a) r ++ fixed (half a) t) b b2) as [Ea Er].
  { eapply stored_app; [lia|done|]. by rewrite Lr. }
  rewrite length_app, Lr, Lt in Ea. simpl in Ea.
  assert (length (avail b2) = length (avail b)) as L2 by (rewrite Ea, !length_app, Lr, Lt, length_drop; lia).
  rewrite remaining_add, avail_add by lia. rewrite Er, Ea. split.
  - f_equal. apply take_app_length'. rewrite length_app. lia.
  - apply drop_app_length'. rewrite length_app. lia.
Qed.

(** What [opensslecdsa_sign] returns: a result and the buffer. *)
Definition sign_post (a : dst_alg) (k : EcKey) (d : list Z) b (out : isc_result * Buffer) : Prop :=
  ((out.1 = ISC_R_SUCCESS ∧ (∃ o, signature a k d o ∧ remaining out.2 = remaining b ++ o ∧
      avail out.2 = drop (sig_size a) (avail b))) ∨ (out.1 ≠ ISC_R_SUCCESS ∧ out.2 = b)) ∧
  ((∀ i, works i = true) → (∀ i, is_Some (ECDSA_sign i (digest (md_of a) d) k)) →
   (sig_size a ≤ length (avail b))%nat → out.1 = ISC_R_SUCCESS).

Lemma sign_body_spec s dctx c d e k n b :
  let a := key_alg (dc_key dctx) in
  hashing s dctx c d → ecs s !! e = Some (k, n) → numbers_fit a k →
  returns (sign_body dctx e b) s (λ out h,
    (h = mds s ∨ h = <[c := Idle]> (mds s)) ∧ sign_post a k d b out).
Proof.
  intros a [Hc Hd] He Hf. unfold sign_body. cbv zeta. fold a. case_decide as Hl.
  { apply runs_ret. split; [done|]. split; [by left|]. split; [by right|]. intros; lia. }
  rewrite Hc. apply runs_bind. eapply runs_digest_final; [done|]. fold a.
  destruct (works (calls s)) eqn:Hw.
  - apply runs_bind. eapply runs_do_sign; [exact He| |].
    + intros i l r t s' Hs Hat. pose proof Hat as [Hn (_ & _ & _ & Hm) (pr & ps & m1 & Es & Bs & Br)].
      cbv beta. simpl in Es, Bs, Br.
      destruct pr as [lr|]; [|by destruct Br]. destruct ps as [ls|]; [|by destruct Bs].
      destruct (put_numbers a k i _ r t b Hf Hs) as (b1 & b2 & E1 & E2 & Er & Ea); [lia|].
      apply runs_bind. apply (runs_deref sigs l (Some lr, Some ls)); [by rewrite Es, lookup_insert_eq|].
      destruct Bs as (Hls & ? & [= <-] & ->). destruct Br as (Hlr & ? & [= <-] & Eb).
      apply runs_bind. apply (runs_deref bns lr r); [by rewrite Eb, lookup_insert_eq|].
      apply runs_bind. eapply runs_lift; [exact E1|].
      apply runs_bind. apply (runs_deref bns ls t).
      { rewrite Eb, lookup_insert_ne, lookup_insert_eq; [done|].
        intros ->. by rewrite lookup_insert_eq in Hlr. }
      apply runs_bind. eapply runs_lift; [exact E2|].
      apply runs_bind. eapply runs_SIG_free; [exact Hat|]. intros s2 Hh Hmd. apply runs_ret.
      split; [by rewrite Hh|]. split; [right; by rewrite Hmd|]. split; [|done].
      left. split; [done|]. eexists. split; [by exists i, r, t|done].
    + intros HN. cbv beta iota. apply runs_bind, runs_toresult. intros r Hr. apply runs_ret.
      split; [done|]. split; [by right|]. split; [right; split; [by apply Hr|done]|].
      intros Hall Hs _. destruct (Hs (calls (set_mds <[c:=Idle]> (tick s)))) as [? Hx].
      rewrite HN in Hx by apply Hall. done.
  - apply runs_bind, runs_toresult. intros r Hr. apply runs_ret. split; [done|]. split; [by right|].
    split; [right; split; [by apply Hr|done]|]. intros Hall. by rewrite Hall in Hw.
Qed.

(** [opensslecdsa_sign] releases what it used on every path; it appends the
    signature to the buffer or reports an error and leaves the buffer alone. *)
Lemma sign_spec s dctx c d e k b :
  let a := key_alg (dc_key dctx) in
  is_ecdsa a = true → hashing s dctx c d → has_ec s (pkey (dc_key dctx)) e k → numbers_fit a k →
  returns (opensslecdsa_sign dctx b) s (λ out h,
    (h = mds s ∨ h = <[c := Idle]> (mds s)) ∧ sign_post a k d b out).
Proof.
  intros a Ha Hh He Hf. apply runs_bind. eapply runs_get1; [exact He|].
  apply runs_bind, runs_assert; [done|]. apply (runs_key s _ e k _ (λ out h,
    (h = mds s ∨ h = <[c := Idle]> (mds s)) ∧ sign_post a k d b out) He).
  pose proof He as (l & n & _ & _ & Hec).
  refine (sign_body_spec (set_ecs (alter up e) s) dctx c d e k (S (S n)) b Hh _ Hf).
  simpl. by rewrite lookup_alter_eq, Hec.
Qed.

(** ** Verification *)

(** [sig] verifies as a signature for the octets [d], with the key [k]. *)
Definition verifies (a : dst_alg) (k : EcKey) (d sig : list Z) : Prop :=
  ECDSA_verify (digest (md_of a) d) (Some (BN_bin2bn (take (half a) sig)))
    (Some (BN_bin2bn (take (half a) (drop (half a) sig)))) k = 1.
Definition verify_post (a : dst_alg) (k : EcKey) (d sig : list Z) (r : isc_result) : Prop :=
  (r = ISC_R_SUCCESS → verifies a k d sig) ∧ ((∀ i, works i = true) → verifies a k d sig → r = ISC_R_SUCCESS).

(** The two numbers of a new signature are replaced by those in [sig]. *)
Lemma verify_body_spec s dctx c d e k n sig :
  let a := key_alg (dc_key dctx) in
  hashing s dctx c d → ecs s !! e = Some (k, n) → length sig = sig_size a →
  runs (verify_body dctx e sig) s (λ out s',
    let s1 := set_mds <[c := Idle]> s in
    match out.2 with
    | None => held s' = held s1 ∧ mds s' = mds s1
    | Some l => ∃ vr vs, sig_at s1 s' l vr vs
    end ∧ verify_post a k d sig out.1).
Proof.
  intros a [Hc Hd] He Hl. unfold verify_body. cbv zeta. fold a. fold (half a).
  rewrite Hc. apply runs_bind. eapply runs_digest_final; [done|]. fold a.
  destruct (works (calls s)) eqn:Hw.
  2:{ apply runs_bind, runs_toresult. intros r Hr. apply runs_ret. split; [done|]. split.
      - intros E. by destruct Hr. - intros Hall. by rewrite Hall in Hw. }
  apply runs_bind, runs_SIG_new.
  2:{ intros Hw'. apply runs_ret. split; [done|]. split; [done|]. intros Hall. by rewrite Hall in Hw'. }
  intros l vr vs s1 [Hn Hrest (pr & ps & m1 & Es & Bs & Br)]. simpl in Hn, Hrest, Es, Bs. cbv beta.
  apply runs_bind. apply (runs_deref sigs l (pr, ps)); [by rewrite Es, lookup_insert_eq|].
  apply runs_bind. eapply runs_BN_free; [exact Br|]. apply runs_bind, runs_bin2bn.
  intros p1 v1 m2 B1 Hv1 Hw1. simpl in B1. apply runs_bind, runs_modify.
  destruct (bn_swap _ _ _ _ _ _ _ Bs B1) as (m3 & B1' & Bs').
  apply runs_bind. eapply runs_BN_free; [exact Bs'|]. apply runs_bind, runs_bin2bn.
  intros p2 v2 m4 B2 Hv2 Hw2. simpl in B2. apply runs_bind, runs_modify.
  destruct (bn_swap _ _ _ _ _ _ _ B1' B2) as (m5 & B2' & B1'').
  destruct Hrest as (R1 & R2 & R3 & R4).
  set (sf := set_sigs _ _). assert (sig_at (set_mds <[c := Idle]> s) sf l v1 v2) as Hat.
  { split; [done|done|]. exists p1, p2, m5. split; [|done]. simpl. by rewrite Es, !insert_insert_eq. }
  assert (∀ p v m m', bn_at p v m m' → (∀ x y, m' !! x = Some y → bns sf !! x = Some y) →
    ∀ Q : option Z → st → Prop, Q v sf → runs (bn_val p) sf Q) as Hval.
  { intros [x|] v m m'; [|intros [-> _] _ Q HQ; by apply runs_ret].
    intros (_ & y & -> & ->) Hin Q HQ. apply runs_bind.
    apply (runs_deref bns x y); [apply Hin, lookup_insert_eq|by apply runs_ret]. }
  apply runs_bind. apply runs_bind. apply (runs_deref sigs l (p1, p2)); [apply lookup_insert_eq|].
  apply runs_bind. eapply (Hval p1 v1); [exact B1''|done|].
  apply runs_bind. eapply (Hval p2 v2); [exact B2|done|].
  apply runs_bind. apply (runs_ec_get e k n); [simpl; by rewrite R1|]. apply runs_ret.
  apply runs_bind.
  destruct (Z.eqb_spec (ECDSA_verify (digest (md_of a) d) v1 v2 k) 1) as [E|E].
  - apply runs_ret, runs_ret. split; [by eexists _, _|]. split; [intros _|done]. unfold verifies.
    destruct (verify_numbers _ _ _ _ E) as [[x ->] [y ->]].
    destruct Hv1 as [|[= ->]]; [done|]. by destruct Hv2 as [|[= ->]].
  - apply runs_toresult. intros r Hr. apply runs_ret. split.
    + exists v1, v2. destruct Hat as [? ? ?]. by split.
    + split; [intros Er; by destruct Hr|]. intros Hall Hv. unfold verifies in Hv.
      by rewrite <-Hw1, <-Hw2 in Hv by apply Hall.
Qed.

(** A signature of the right length is decoded and verified, and everything is
    released. *)
Lemma verify_spec s dctx c d e k sig :
  let a := key_alg (dc_key dctx) in
  is_ecdsa a = true → hashing s dctx c d → has_ec s (pkey (dc_key dctx)) e k → length sig = sig_size a →
  returns (opensslecdsa_verify dctx sig) s (λ r h, h = <[c := Idle]> (mds s) ∧ verify_post a k d sig r).
Proof.
  intros a Ha Hh He Hl. apply runs_bind. eapply runs_get1; [exact He|].
  apply runs_bind, runs_assert; [done|]. rewrite (proj2 (Nat.eqb_eq _ _)) by done. cbn [negb].
  pose proof He as (p & n & Hp & Hpk & Hec).
  assert (ecs (set_ecs (alter up e) s) !! e = Some (k, S (S n))) as Hec' by (simpl; by rewrite lookup_alter_eq, Hec).
  apply runs_bind. eapply runs_mono; [by eapply verify_body_spec|]. intros [r ol] s1 [Ho Hp1]. cbn [snd fst] in *.
  assert (∀ s2 : st, held s2 = held (set_ecs (alter up e) s) → mds s2 = <[c := Idle]> (mds s) →
    runs (EC_KEY_free e;; mret r) s2 (λ r s', held s' = held s ∧ mds s' = <[c := Idle]> (mds s) ∧ verify_post a k d sig r)) as Hfin.
  { intros s2 Hs2 M2. apply runs_bind. unfold held in Hs2. injection Hs2 as E1 E2 E3 E4 E5.
    apply (runs_free_ref e k (S (S n))); [by rewrite E1|lia|]. apply runs_ret.
    split; [unfold held; simpl; by rewrite E1, E2, E3, E4, E5, alter_down_up|done]. }
  apply runs_bind. destruct ol as [l|].
  - destruct Ho as (vr & vs & Hat). eapply runs_SIG_free; [exact Hat|]. intros s2 Hs2 M2. by apply Hfin.
  - apply runs_ret. destruct Ho as [Hs2 M2]. by apply Hfin.
Qed.

(** A signature of another length is refused, and the reference to the
    [EC_KEY] is kept. *)
Theorem verify_length_leaks s dctx e k sig :
  is_ecdsa (key_alg (dc_key dctx)) = true → has_ec s (pkey (dc_key dctx)) e k →
  length sig ≠ sig_size (key_alg (dc_key dctx)) →
  opensslecdsa_verify dctx sig s = Ok (DST_R_VERIFYFAILURE, set_ecs (alter up e) s).
Proof.
  intros Ha He Hl.
  assert (runs (opensslecdsa_verify dctx sig) s (λ r s', r = DST_R_VERIFYFAILURE ∧ s' = set_ecs (alter up e) s))
    as (r & s' & E & -> & ->); [|done].
  apply runs_bind. eapply runs_get1; [exact He|]. apply runs_bind, runs_assert; [done|].
  rewrite (proj2 (Nat.eqb_neq _ _)) by done. by apply runs_ret.
Qed.
(** ** Messages

    The way of the DNS library through the driver: a context is made, fed with
    the parts of a message and destroyed after the signature is made or checked. *)
Fixpoint add_all (dctx : dst_context) (ds : list (list Z)) : M st isc_result :=
  match ds with
  | [] => mret ISC_R_SUCCESS
  | d :: ds =>
      r ← opensslecdsa_adddata dctx d;
      if decide (r = ISC_R_SUCCESS) then add_all dctx ds else mret r
  end.
Definition with_ctx {A} (key : dst_key) (ds : list (list Z)) (no : isc_result → A)
    (c : dst_context → M st A) : M st A :=
  '(r, dctx) ← opensslecdsa_createctx (DstContext key NULL);
  if decide (r = ISC_R_SUCCESS) then
    r ← add_all dctx ds;
    out ← (if decide (r = ISC_R_SUCCESS) then c dctx else mret (no r));
    opensslecdsa_destroyctx dctx;;
    mret out
  else mret (no r).
Definition sign_message (key : dst_key) (ds : list (list Z)) b : M st (isc_result * Buffer) :=
  with_ctx key ds (λ r, (r, b)) (λ dctx, opensslecdsa_sign dctx b).
Definition verify_message (key : dst_key) (ds : list (list Z)) (sig : list Z) : M st isc_result :=
  with_ctx key ds (λ r, r) (λ dctx, opensslecdsa_verify dctx sig).

Lemma runs_add_all dctx c ds : ∀ d s, is_ecdsa (key_alg (dc_key dctx)) = true → hashing s dctx c d →
  runs (add_all dctx ds) s (λ r s', held s' = held s ∧
    (r = ISC_R_SUCCESS ∧ mds s' = <[c := Hashing (md_of (key_alg (dc_key dctx))) (d ++ concat ds)]> (mds s) ∨
     r ≠ ISC_R_SUCCESS ∧ ∃ x, mds s' = <[c := x]> (mds s)) ∧
    (r ≠ ISC_R_SUCCESS → ∃ i, works i = false)).
Proof.
  induction ds as [|d1 ds IH]; intros d s Ha [Hc Hm].
  - apply runs_ret. split; [done|]. split; [|done]. left. simpl. by rewrite app_nil_r, insert_id.
  - apply runs_bind. unfold opensslecdsa_adddata.
    apply runs_bind, runs_assert; [done|]. apply runs_bind, runs_lib, runs_bind.
    rewrite Hc. eapply runs_deref; [exact Hm|]. destruct (works (calls s)) eqn:Hw; simpl negb; cbv iota.
    + apply runs_bind, runs_modify, runs_ret. rewrite decide_True by done. cbn [from_option].
      eapply runs_mono; [apply (IH (d ++ d1)); [done|split; [done|apply lookup_insert_eq]]|].
      intros r s' (Hh & Hr & Hw'). split; [done|]. split; [|done]. simpl in Hr. simpl concat.
      rewrite (assoc_L app). destruct Hr as [[-> ->]|[? [x ->]]]; [left|right]; split; try done;
        [|exists x]; by rewrite insert_insert_eq.
    + apply runs_toresult. intros r Hr. rewrite decide_False by by apply Hr. apply runs_ret. split; [done|].
      split; [right; split; [by apply Hr|]|by eauto].
      eexists. by rewrite insert_id.
Qed.

(** A context is destroyed on every path, and the computation runs after all
    parts were added. *)
Lemma runs_with_ctx {A} key ds no (c : dst_context → M st A) s (Q : A → Prop) :
  is_ecdsa (key_alg key) = true →
  (∀ r, r ≠ ISC_R_SUCCESS → (∃ i, works i = false) → Q (no r)) →
  (∀ dctx l s1, dc_key dctx = key → held s1 = held s → hashing s1 dctx l (concat ds) →
     returns (c dctx) s1 (λ out h, (h = mds s1 ∨ h = <[l := Idle]> (mds s1)) ∧ Q out)) →
  runs (with_ctx key ds no c) s (λ out s', held s' = held s ∧ mds s' = mds s ∧ Q out).
Proof.
  intros Ha Hno Hc. apply runs_bind. unfold opensslecdsa_createctx. cbn [dc_key].
  apply runs_bind, runs_assert; [done|]. apply runs_bind, runs_lib.
  destruct (works (calls s)) eqn:Hw; simpl negb; cbv iota.
  2:{ apply runs_ret. rewrite decide_False by done. apply runs_ret. split; [done|]. split; [done|]. apply Hno; eauto. }
  apply runs_bind, runs_alloc. intros l Hl. apply runs_bind, runs_lib. simpl in Hl.
  match goal with |- context [negb ?w] => destruct w eqn:Hw2; simpl negb; cbv iota end.
  2:{ apply runs_bind. eapply runs_release_obj; [apply lookup_insert_eq|]. apply runs_bind, runs_toresult. intros r Hr.
      apply runs_ret. rewrite decide_False by by apply Hr. apply runs_ret. split; [done|].
      split; [simpl; by apply delete_insert_id|]. apply Hno; [by apply Hr|eauto]. }
  apply runs_bind, runs_modify, runs_ret. rewrite decide_True by done.
  set (dctx := DstContext key (Some l)). set (s1 := set_mds _ _).
  assert (hashing s1 dctx l []) as Hh by (split; [done|simpl; by rewrite lookup_insert_eq]).
  assert (∀ s2 : st, (∃ x, mds s2 = <[l := x]> (mds s1)) → held s2 = held s1 → ∀ out, Q out →
    runs (opensslecdsa_destroyctx dctx;; mret out) s2 (λ out s', held s' = held s ∧ mds s' = mds s ∧ Q out)) as Hend.
  { intros s2 [x Hx] Hh2 out HQ. apply runs_bind. apply runs_bind, runs_assert; [done|]. simpl.
    apply runs_bind. eapply runs_release_obj; [rewrite Hx; apply lookup_insert_eq|]. apply runs_ret, runs_ret.
    split; [done|]. split; [|done]. simpl. rewrite Hx. simpl. by rewrite !insert_insert_eq, delete_insert_id. }
  apply runs_bind. eapply runs_mono; [by apply (runs_add_all dctx l ds [])|].
  intros r s2 (Hh2 & Hr & Hw3). apply runs_bind. destruct Hr as [[-> Hm2]|[Hr Hm2]].
  - rewrite decide_True by done. eapply runs_mono.
    + apply (Hc dctx l s2); [done|by rewrite Hh2|]. split; [done|]. by rewrite Hm2, lookup_insert_eq.
    + intros out s3 (Hh3 & Hm3 & HQ). apply Hend; [|by rewrite Hh3|done].
      destruct Hm3 as [-> | ->]; rewrite Hm2; [by eexists|]. eexists. by rewrite insert_insert_eq.
  - rewrite decide_False by done. apply runs_ret. apply Hend; [done|done|]. apply Hno; [done|].
    by apply Hw3.
Qed.
Lemma sign_message_spec key e k ds b s :
  is_ecdsa (key_alg key) = true → has_ec s (pkey key) e k → numbers_fit (key_alg key) k →
  runs (sign_message key ds b) s (λ out s', held s' = held s ∧ mds s' = mds s ∧
    sign_post (key_alg key) k (concat ds) b out).
Proof.
  intros Ha He Hf. apply (runs_with_ctx key ds _ _ s (sign_post (key_alg key) k (concat ds) b)); [done| |].
  - intros r Hr [i Hi]. split; [by right|]. intros Hall. by rewrite Hall in Hi.
  - intros dctx l s1 <- Hh Hha. apply (sign_spec s1 dctx l _ e k b); [done|done| |done].
    by eapply has_ec_held.
Qed.

(** A signature of the right length is accepted for a message, given in any
    parts, exactly when its two halves are numbers that libcrypto verifies for
    the digest of the whole message (accepted at least when no call of the
    library fails); whatever fails, no fault occurs and every object and
    reference is given back. *)
Lemma verify_message_spec key e k ds sig s :
  is_ecdsa (key_alg key) = true → has_ec s (pkey key) e k → length sig = sig_size (key_alg key) →
  runs (verify_message key ds sig) s (λ r s', held s' = held s ∧ mds s' = mds s ∧
    verify_post (key_alg key) k (concat ds) sig r).
Proof.
  intros Ha He Hl.
  apply (runs_with_ctx key ds _ _ s (verify_post (key_alg key) k (concat ds) sig)); [done| |].
  - intros r Hr [i Hi]. split; [done|]. intros Hall. by rewrite Hall in Hi.
  - intros dctx l s1 <- Hh Hha.
    eapply runs_mono; [eapply (verify_spec s1 dctx l _ e k sig); [done|done|by eapply has_ec_held|done]|].
    intros r s2 (Hh2 & Hm & Hv). split; [done|]. split; [by right|done].
Qed.

(** What a signature's octets decode to. *)
Lemma signature_decodes a k k' d o :
  numbers_fit a k →
  (∀ i x r t, ECDSA_sign i x k = Some (r, t) → ECDSA_verify x (Some r) (Some t) k' = 1) →
  signature a k d o → length o = sig_size a ∧ verifies a k' d o.
Proof.
  intros Hf Hv (i & r & t & Hs & ->). destruct (Hf _ _ _ _ Hs) as (Hr & Ht & Lr & Lt).
  apply fixed_length in Lr. apply fixed_length in Lt.
  rewrite length_app, sig_size_half. split; [lia|]. unfold verifies.
  rewrite drop_app_length', !take_app_length', (take_ge (fixed (half a) t)) by lia.
  rewrite !bin2bn_fixed by done. by eapply Hv.
Qed.

(** C37. A message that is signed with a key, in parts of any size, is accepted
    by the holder of the public key, who may read it in other parts: the numbers
    of the signature survive the fixed width.  The signature is appended to the
    buffer, and both sides give back all they used. *)
Theorem signature_roundtrip ks kv e e' k k' ds ds' b s :
  is_ecdsa (key_alg ks) = true → key_alg kv = key_alg ks →
  has_ec s (pkey ks) e k → has_ec s (pkey kv) e' k' →
  (∀ i x, ∃ r t, ECDSA_sign i x k = Some (r, t) ∧ 0 ≤ r ∧ 0 ≤ t ∧
     (BN_num_bytes r ≤ half (key_alg ks))%nat ∧ (BN_num_bytes t ≤ half (key_alg ks))%nat ∧
     ECDSA_verify x (Some r) (Some t) k' = 1) →
  (∀ i, works i = true) → concat ds' = concat ds → (sig_size (key_alg ks) ≤ length (avail b))%nat →
  runs ('(r, b') ← sign_message ks ds b;
        let sig := drop (length (remaining b)) (remaining b') in
        r' ← verify_message kv ds' sig; mret (r, b', sig, r')) s
    (λ '(r, b', sig, r') s', r = ISC_R_SUCCESS ∧ r' = ISC_R_SUCCESS ∧ held s' = held s ∧ mds s' = mds s ∧
       remaining b' = remaining b ++ sig ∧ length sig = sig_size (key_alg ks)).
Proof.
  intros Ha Ea Hk Hk' Hlaw Hw Ed Hl.
  assert (numbers_fit (key_alg ks) k) as Hf.
  { intros i d r t Hs. destruct (Hlaw i d) as (r' & t' & Hs' & ?). rewrite Hs in Hs'. injection Hs' as -> ->. tauto. }
  assert (∀ i x r t, ECDSA_sign i x k = Some (r, t) → ECDSA_verify x (Some r) (Some t) k' = 1) as Hv.
  { intros i d r t Hs. destruct (Hlaw i d) as (r' & t' & Hs' & ?). rewrite Hs in Hs'. injection Hs' as -> ->. tauto. }
  apply runs_bind. eapply runs_mono; [by apply (sign_message_spec ks e k)|].
  intros [r b'] s1 (Hh & Hm & Hpost & Hok). cbn [fst snd] in *.
  assert (r = ISC_R_SUCCESS) as ->.
  { apply Hok; [done| |done]. intros i. destruct (Hlaw i (digest (md_of (key_alg ks)) (concat ds))) as (? & ? & -> & _). by eexists. }
  destruct Hpost as [(_ & o & Ho & Er & _)|[? _]]; [|done]. cbv zeta. rewrite Er, drop_app_length.
  destruct (signature_decodes _ _ _ _ _ Hf Hv Ho) as [Lo Hvo].
  apply runs_bind. eapply runs_mono.
  - apply (verify_message_spec kv e' k' ds' o s1); [by rewrite Ea|by eapply has_ec_held|by rewrite Ea].
  - intros r s2 (Hh2 & Hm2 & _ & Hacc). apply runs_ret. split; [done|]. split.
    + apply Hacc; [done|]. by rewrite Ea, Ed.
    + by rewrite Hh2, Hm2.
Qed.
(** ** Keys *)
Lemma alter_down_up2 e e' (m : gmap loc (EcKey * nat)) :
  alter down e' (alter down e (alter up e' (alter up e m))) = m.
Proof.
  destruct (decide (e = e')) as [<-|Hne].
  - by rewrite !alter_down_up.
  - by rewrite (alter_alter_ne down up) by done; rewrite !alter_down_up.
Qed.

(** Two keys are equal when libcrypto says so of the public parts and the
    private numbers are the same, or both missing. *)
Lemma compare_spec s key1 key2 e1 e2 k1 k2 :
  has_ec s (pkey key1) e1 k1 → has_ec s (pkey key2) e2 k2 →
  returns (opensslecdsa_compare key1 key2) s (λ r h, h = mds s ∧
    r = bool_decide (EVP_PKEY_cmp k1 k2 = 1 ∧ EC_KEY_get0_private_key k1 = EC_KEY_get0_private_key k2)).
Proof.
  intros He1 He2. pose proof He1 as (l1 & n1 & E1 & Hp1 & Hc1). pose proof He2 as (l2 & n2 & E2 & Hp2 & Hc2).
  unfold opensslecdsa_compare. rewrite E1, E2 in *.
  apply runs_bind. eapply runs_get1; [exact He1|]. set (s1 := set_ecs (alter up e1) s).
  assert (∃ m2, ecs s1 !! e2 = Some (k2, S m2)) as [m2 Hm2].
  { simpl. destruct (decide (e1 = e2)) as [->|]; [rewrite lookup_alter_eq, Hc2|rewrite lookup_alter_ne, Hc2 by done];
      by eexists. }
  apply runs_bind. eapply (runs_get1 s1 _ e2 k2); [by exists l2, m2|]. set (s2 := set_ecs (alter up e2) s1).
  assert (∃ m, ecs s2 !! e1 = Some (k1, S (S m))) as [m Hm].
  { simpl. destruct (decide (e2 = e1)) as [->|]; rewrite ?lookup_alter_eq, ?lookup_alter_ne, ?lookup_alter_eq, Hc1 by done;
      by eexists. }
  assert (ecs s2 !! e2 = Some (k2, S (S m2))) as Hm'.
  { change (ecs s2) with (alter up e2 (ecs s1)). by rewrite lookup_alter_eq, Hm2. }
  apply runs_bind, runs_mono with (Q := λ r s', s' = s2 ∧
    r = bool_decide (EVP_PKEY_cmp k1 k2 = 1 ∧ EC_KEY_get0_private_key k1 = EC_KEY_get0_private_key k2)).
  - apply runs_bind. eapply runs_ec_get; [done|]. apply runs_bind. eapply runs_ec_get; [done|].
    destruct (Z.eqb_spec (EVP_PKEY_cmp k1 k2) 1) as [E|E]; simpl negb; cbv iota.
    + destruct (EC_KEY_get0_private_key k1) as [x1|], (EC_KEY_get0_private_key k2) as [x2|];
        apply runs_ret; (split; [done|]); symmetry; [|by apply bool_decide_false; intros [_ ?]..|by apply bool_decide_true].
      destruct (Z.eqb_spec x1 x2) as [->|Hx]; [by apply bool_decide_true|].
      apply bool_decide_false. intros [_ [= ?]]. done.
    + apply runs_ret. split; [done|]. symmetry. apply bool_decide_false. by intros [? _].
  - intros r s3 [-> ->]. apply runs_bind. cbn [EC_KEY_free_if]. apply (runs_free_ref e1 k1 (S (S m))); [done|lia|].
    set (s3 := set_ecs (alter down e1) s2). assert (∃ j, ecs s3 !! e2 = Some (k2, S j) ∧ (1 ≤ j)%nat) as (j & Hj & ?).
    { change (ecs s3) with (alter down e1 (ecs s2)). destruct (decide (e1 = e2)) as [->|].
      - rewrite lookup_alter_eq, Hm'. simpl. simpl in Hm2. rewrite lookup_alter_eq, Hc2 in Hm2. injection Hm2 as <-.
        eexists. split; [done|lia].
      - rewrite lookup_alter_ne, Hm' by done. eexists. split; [done|lia]. }
    apply runs_bind. apply (runs_free_ref e2 k2 (S j)); [done|lia|]. apply runs_ret.
    split; [|done]. unfold held. simpl. by rewrite alter_down_up2.
Qed.

(** [todns] appends the encoded point without its first octet. *)
Lemma put_octets_ok d b : (length d ≤ length (avail b))%nat →
  ∃ b', put_octets d b = Ok b' ∧ remaining b' = remaining b ++ d.
Proof.
  intros Hl. unfold put_octets. destruct (region_write_ok 0 d b) as (b1 & -> & Ea & Er); [done|].
  eexists. split; [done|]. simpl in Ea. rewrite remaining_add.
  - by rewrite Er, Ea, take_app_length.
  - rewrite Ea, length_app. lia.
Qed.
Lemma todns_spec s key e k f o b :
  has_ec s (pkey key) e k → i2o_ECPublicKey k = Some (f :: o) → (length o ≤ DNS_KEY_ECDSA384SIZE)%nat →
  returns (opensslecdsa_todns key b) s (λ out h, h = mds s ∧
    (out.1 = ISC_R_SUCCESS ∧ remaining out.2 = remaining b ++ o ∨ out.1 ≠ ISC_R_SUCCESS ∧ out.2 = b) ∧
    ((∀ i, works i = true) → (length o ≤ length (avail b))%nat → out.1 = ISC_R_SUCCESS)).
Proof.
  intros He Ho Hl. pose proof He as (p & n & Hp & Hpk & Hec). unfold opensslecdsa_todns. apply runs_bind, runs_assert.
  { apply bool_decide_true. by rewrite Hp. }
  apply runs_bind. eapply runs_get1; [exact He|].
  refine (runs_key s _ e k _ (λ out h, h = mds s ∧
    (out.1 = ISC_R_SUCCESS ∧ remaining out.2 = remaining b ++ o ∨ out.1 ≠ ISC_R_SUCCESS ∧ out.2 = b) ∧
    ((∀ i, works i = true) → (length o ≤ length (avail b))%nat → out.1 = ISC_R_SUCCESS)) He _).
  apply runs_bind. apply (runs_ec_get e k (S (S n))); [simpl; by rewrite lookup_alter_eq, Hec|]. rewrite Ho. cbn [from_option length]. cbv zeta.
  pose proof key_size_int. rewrite u32_small by lia.
  destruct (Z.ltb_spec (Z.of_nat (length (avail b))) (Z.of_nat (S (length o)) - 1)) as [Hs|Hs].
  { apply runs_ret. split; [done|]. split; [done|]. split; [by right|]. intros; lia. }
  apply runs_bind, runs_lib. destruct (works _) eqn:Hw; cbv iota.
  - destruct (put_octets_ok o b) as (b' & E & Er); [lia|].
    apply runs_bind. eapply runs_lift; [unfold key_buf; by rewrite decide_True by (simpl; lia)|].
    apply runs_bind. eapply runs_lift; [exact E|]. apply runs_ret. split; [done|]. split; [done|]. split; [by left|done].
  - apply runs_bind, runs_toresult. intros r Hr. apply runs_ret. split; [done|]. split; [done|].
    split; [right; split; [by apply Hr|done]|]. intros Hall. by rewrite Hall in Hw.
Qed.
(** *** Keys that are made *)

(** [s'] is [s] with a new [EC_KEY] [e], referred to once. *)
Record new_ec s s' e (k : EcKey) : Prop := {
  ne_new : ecs s !! e = None;
  ne_ecs : ecs s' = <[e := (k, 1%nat)]> (ecs s);
  ne_rest : (pkeys s', sigs s', bns s', blocks s', mds s') = (pkeys s, sigs s, bns s, blocks s, mds s)
}.
(** [s'] is [s] with a new [EVP_PKEY] [p] around a new [EC_KEY] with [n] references. *)
Record made s s' (n : nat) e p (k : EcKey) : Prop := {
  md_new : ecs s !! e = None;
  md_newp : pkeys s !! p = None;
  md_ecs : ecs s' = <[e := (k, n)]> (ecs s);
  md_pkeys : pkeys s' = <[p := Some e]> (pkeys s);
  md_rest : (sigs s', bns s', blocks s', mds s') = (sigs s, bns s, blocks s, mds s)
}.
Definition same s s' : Prop := held s' = held s ∧ mds s' = mds s.
Definition call_fails : Prop := ∃ i, works i = false.

Lemma made_has_ec s s' e p k : made s s' 1 e p k → has_ec s' (Some p) e k.
Proof. intros [? ? E1 E2 ?]. exists p, 0%nat. by rewrite E1, E2, !lookup_insert_eq. Qed.
Lemma new_ec_tick s s' e k : new_ec s s' e k → new_ec s (tick s') e k.
Proof. by intros [? ? ?]. Qed.

Lemma runs_new_curve {A} nid (c : loc → M st A) no s (Q : A → st → Prop) :
  (∀ e s', new_ec s s' e (EC_KEY_empty nid) → runs (c e) s' Q) → (call_fails → runs no (tick s) Q) →
  runs (when_ok (EC_KEY_new_by_curve_name nid) c no) s Q.
Proof.
  intros Hc Hno. apply runs_bind, runs_bind, runs_lib. destruct (works (calls s)) eqn:Hw.
  - apply runs_bind, runs_alloc. intros e He. by apply runs_ret, Hc.
  - apply runs_ret, Hno. by eexists.
Qed.
Lemma runs_new_get s s' e k (Q : EcKey → st → Prop) : new_ec s s' e k → Q k s' → runs (ec_get e) s' Q.
Proof. intros [? E ?] HQ. eapply runs_ec_get; [by rewrite E, lookup_insert_eq|done]. Qed.
Lemma runs_new_set s s' e k k' (Q : unit → st → Prop) :
  new_ec s s' e k → (∀ s2, new_ec s s2 e k' → Q tt s2) → runs (ec_set e k') s' Q.
Proof.
  intros [? E ?] HQ. apply runs_bind. eapply runs_deref; [by rewrite E, lookup_insert_eq|]. apply runs_modify, HQ.
  split; [done| |done]. simpl. by rewrite E, insert_insert_eq.
Qed.
Lemma runs_new_update s s' e k f (Q : bool → st → Prop) :
  new_ec s s' e k → (∀ s2 k', f k = Some k' → new_ec s s2 e k' → Q true s2) →
  (∀ s2, new_ec s s2 e k → (call_fails ∨ f k = None) → Q false s2) → runs (ec_update e f) s' Q.
Proof.
  intros Hn HT HF. apply new_ec_tick in Hn. apply runs_bind, runs_lib, runs_bind. eapply runs_new_get; [done|].
  destruct (f k) as [k'|] eqn:E; [|by apply runs_ret, HF; [|right]].
  destruct (works (calls s')) eqn:Hw; [|by apply runs_ret, HF; [|left; eexists]].
  apply runs_bind. eapply runs_new_set; [done|]. intros s2 Hs2. apply runs_ret. by eapply HT.
Qed.
Lemma runs_new_free s s' e k (Q : unit → st → Prop) :
  new_ec s s' e k → (∀ s2, same s s2 → Q tt s2) → runs (EC_KEY_free e) s' Q.
Proof.
  intros [Hn E Hr] HQ. injection Hr as E1 E2 E3 E4 E5. eapply runs_free_last; [by rewrite E, lookup_insert_eq|].
  apply HQ. unfold same, held. simpl. by rewrite E, E1, E2, E3, E4, E5, delete_insert_id.
Qed.

(** A reference to another key is taken and given back. *)
Lemma runs_new_get1 s s' e k q eq kq (Q : ptr → st → Prop) :
  new_ec s s' e k → has_ec s q eq kq →
  (∀ s2, new_ec (set_ecs (alter up eq) s) s2 e k → Q (Some eq) s2) → runs (EVP_PKEY_get1_EC_KEY q) s' Q.
Proof.
  intros [Hn E Hr] (l & n & -> & Hl & Heq) HQ. pose proof Hr as Hr'. injection Hr' as E1 E2 E3 E4 E5.
  assert (eq ≠ e) as Hne by by intros ->; rewrite Hn in Heq.
  apply (runs_get1 s' _ eq kq).
  - exists l, n. rewrite E1, E, lookup_insert_ne by done. done.
  - apply HQ. split; [simpl; by rewrite lookup_alter_ne| |done]. simpl.
    by rewrite E, alter_insert_ne by done.
Qed.
Lemma new_ec_other s s' e k q eq kq : has_ec s q eq kq → new_ec (set_ecs (alter up eq) s) s' e k →
  ∃ n, ecs s' !! eq = Some (kq, S (S n)).
Proof.
  intros (l & n & -> & Hl & Heq) [Hn E Hr]. exists n. rewrite E. simpl in *.
  rewrite lookup_insert_ne; [by rewrite lookup_alter_eq, Heq|]. intros ->. by rewrite lookup_alter_eq, Heq in Hn.
Qed.
Lemma runs_new_put1 s s' e k q eq kq (Q : unit → st → Prop) :
  has_ec s q eq kq → new_ec (set_ecs (alter up eq) s) s' e k →
  (∀ s2, new_ec s s2 e k → Q tt s2) → runs (EC_KEY_free eq) s' Q.
Proof.
  intros He Hn HQ. destruct (new_ec_other _ _ _ _ _ _ _ He Hn) as [n Hx].
  destruct He as (l & n' & -> & Hl & Heq). destruct Hn as [Hn E Hr]. simpl in *.
  assert (eq ≠ e) as Hne by (intros ->; by rewrite lookup_alter_eq, Heq in Hn).
  eapply (runs_free_ref eq kq (S (S n))); [done|lia|]. apply HQ.
  rewrite lookup_alter_ne in Hn by done. split; [done| |done]. simpl.
  by rewrite E, alter_insert_ne, alter_down_up by done.
Qed.

(** [new_pkey] either makes an [EVP_PKEY] that shares the [EC_KEY] or changes nothing. *)
Lemma runs_new_pkey s s' e k key failed (Q : isc_result * dst_key → st → Prop) :
  new_ec s s' e k →
  (∀ s1 (Q' : isc_result → st → Prop), (∀ r s2, r ≠ ISC_R_SUCCESS → (s2 = s1 ∨ s2 = tick s1) → Q' r s2) → runs failed s1 Q') →
  (∀ p s2, made s s2 2 e p k → Q (ISC_R_SUCCESS, with_pkey (Some p) key) s2) →
  (∀ r s2, r ≠ ISC_R_SUCCESS → call_fails → new_ec s s2 e k → Q (r, key) s2) →
  runs (new_pkey key e failed) s' Q.
Proof.
  intros Hn Hf HT HF. apply runs_bind, runs_bind, runs_lib. apply new_ec_tick in Hn.
  destruct (works (calls s')) eqn:Hw; [|by apply runs_ret, runs_ret, HF; [|eexists|]].
  apply runs_bind, runs_alloc. intros p Hp. apply runs_ret, runs_bind, runs_bind, runs_lib.
  destruct Hn as [Hne E Hr]. pose proof Hr as Hr'. injection Hr' as E1 E2 E3 E4 E5. simpl in *.
  destruct (works (S (calls s'))) eqn:Hw2.
  - apply runs_bind. eapply runs_up_ref; [simpl; by rewrite E, lookup_insert_eq|].
    apply runs_bind. eapply runs_deref; [apply lookup_insert_eq|]. apply runs_bind, runs_modify, runs_ret, runs_ret.
    apply HT. split; [done|by rewrite <-E1| | |simpl; congruence]; simpl.
    + by rewrite E, alter_insert_eq.
    + by rewrite insert_insert_eq, E1.
  - apply runs_ret. apply runs_bind. apply runs_bind. eapply runs_deref; [apply lookup_insert_eq|].
    apply runs_bind, runs_ret. eapply runs_release_obj; [apply lookup_insert_eq|]. apply runs_bind, Hf.
    intros r s2 Hne' Hs2. apply runs_ret, HF; [done|by eexists|].
    assert (new_ec s (set_pkeys (delete p) (tick (set_pkeys <[p:=NULL]> (tick s')))) e k) as Hfin.
    { split; [done|done|]. simpl. rewrite delete_insert_id by done. congruence. }
    destruct Hs2 as [-> | ->]; [done|by apply new_ec_tick].
Qed.
Lemma runs_made_free s s' e p k (Q : unit → st → Prop) :
  made s s' 2 e p k → (∀ s2, made s s2 1 e p k → Q tt s2) → runs (EC_KEY_free e) s' Q.
Proof.
  intros [? ? E ? ?] HQ. eapply (runs_free_ref e k 2); [by rewrite E, lookup_insert_eq|lia|]. apply HQ.
  split; [done|done| |done|done]. simpl. by rewrite E, alter_insert_eq.
Qed.
Lemma toresult_fails f s1 (Q' : isc_result → st → Prop) : f ≠ ISC_R_SUCCESS →
  (∀ r s2, r ≠ ISC_R_SUCCESS → (s2 = s1 ∨ s2 = tick s1) → Q' r s2) → runs (toresult f) s1 Q'.
Proof. intros Hf HQ. apply runs_toresult. intros r Hr. apply HQ; [by apply Hr|by right]. Qed.
Lemma ret_fails f s1 (Q' : isc_result → st → Prop) : f ≠ ISC_R_SUCCESS →
  (∀ r s2, r ≠ ISC_R_SUCCESS → (s2 = s1 ∨ s2 = tick s1) → Q' r s2) → runs (mret f) s1 Q'.
Proof. intros Hf HQ. apply runs_ret. apply HQ; [done|by left]. Qed.

(** The outcome of a function that makes a key: a new one with [P], or nothing. *)
Definition key_post s s' (key : dst_key) (P : EcKey → Prop) (r : isc_result) (key' : dst_key) : Prop :=
  (r = ISC_R_SUCCESS ∧ ∃ e p k, made s s' 1 e p k ∧ key' = with_pkey (Some p) key ∧ P k) ∨
  (r ≠ ISC_R_SUCCESS ∧ same s s' ∧ key' = key ∧ (call_fails ∨ ¬ ∃ k, P k)).

Lemma generate_spec s key :
  is_ecdsa (key_alg key) = true →
  runs (opensslecdsa_generate key) s (λ out s',
    key_post s s' key (λ k, ∃ i, k = EC_KEY_generated i (EC_KEY_empty (curve_nid (key_alg key)))) out.1 out.2).
Proof.
  intros Ha. apply runs_bind, runs_assert; [done|]. apply runs_new_curve.
  2:{ intros Hf. apply runs_bind, runs_toresult. intros r Hr. apply runs_ret. right.
      split_and!; [by apply Hr|done..|by left]. }
  intros e s1 Hn. unfold EC_KEY_generate_key. apply runs_bind, runs_bind, runs_gets, runs_bind, runs_lib.
  apply new_ec_tick in Hn. apply runs_bind. eapply runs_new_get; [done|].
  destruct (works (calls s1)) eqn:Hw.
  - apply runs_bind. eapply runs_new_set; [done|]. intros s2 Hn2. apply runs_ret, runs_bind. simpl negb. cbv iota.
    eapply runs_new_pkey; [done|intros s3 Q'; by apply ret_fails| |].
    + intros p s3 Hm. apply runs_bind. eapply runs_made_free; [done|]. intros s4 Hm4. apply runs_ret.
      left. split; [done|]. eexists _, _, _. split; [done|]. split; [done|]. by eexists.
    + intros r s3 Hr Hf Hn3. apply runs_bind. eapply runs_new_free; [done|]. intros s4 Hs. apply runs_ret.
      right. split_and!; [done..|by left].
  - apply runs_ret, runs_bind. simpl negb. cbv iota. apply runs_bind, runs_toresult. intros r Hr. apply runs_ret, runs_bind.
    eapply runs_new_free; [by apply new_ec_tick|]. intros s4 Hs. apply runs_ret. right. split; [by apply Hr|].
    split; [done|]. split; [done|]. left. by eexists.
Qed.

Lemma key_destroy_spec s s' e p k key :
  made s s' 1 e p k →
  runs (opensslecdsa_destroy (with_pkey (Some p) key)) s' (λ key' s2, same s s2 ∧ key' = with_pkey NULL key).
Proof.
  intros [Hn Hp E1 E2 Hr]. injection Hr as R1 R2 R3 R4.
  apply runs_bind, runs_bind. eapply runs_deref; [by rewrite E2, lookup_insert_eq|]. apply runs_bind.
  eapply runs_free_last; [by rewrite E1, lookup_insert_eq|]. eapply runs_release_obj; [simpl; by rewrite E2, lookup_insert_eq|].
  apply runs_ret. split; [|done]. unfold same, held. simpl. by rewrite E1, E2, R1, R2, R3, R4, !delete_insert_id.
Qed.

(** A record's octets become the key that libcrypto decodes them to, if it is
    sound; or an error is reported, nothing changes and nothing is consumed. *)
Lemma fromdns_spec s key o rest data :
  is_ecdsa (key_alg key) = true → remaining data = o ++ rest → length o = key_size (key_alg key) → o ≠ [] →
  runs (opensslecdsa_fromdns key data) s (λ '(r, key', data') s',
    key_post s s' key (λ k, o2i_ECPublicKey (EC_KEY_empty (curve_nid (key_alg key)))
      (POINT_CONVERSION_UNCOMPRESSED :: o) = Some k ∧ EC_KEY_check_key k = true) r key' ∧
    remaining data' = if decide (r = ISC_R_SUCCESS) then rest else o ++ rest).
Proof.
  intros Ha Hd Hl Ho. apply runs_bind, runs_assert; [done|]. rewrite Hd. cbv zeta.
  assert (length (o ++ rest) ≠ 0%nat) as Hne by (rewrite length_app; destruct o; [done|simpl; lia]).
  rewrite (proj2 (Nat.eqb_neq _ _) Hne), decide_False by (rewrite length_app; lia).
  apply runs_new_curve.
  2:{ intros Hf. apply runs_bind, runs_toresult. intros r Hr. apply runs_ret. specialize (Hr ltac:(done)).
      rewrite decide_False by done. split; [right; split_and!; [done..|by left]|done]. }
  intros e s1 Hn. unfold fromdns_body. cbv zeta. rewrite Hd, take_app_length' by done. apply runs_bind, runs_bind.
  eapply runs_lift.
  { unfold key_buf. rewrite decide_True; [done|]. simpl. rewrite Hl. pose proof key_sizes. destruct (key_alg key); simpl; lia. }
  assert (∀ s2 r, r ≠ ISC_R_SUCCESS → same s s2 → (call_fails ∨ ¬ ∃ k, o2i_ECPublicKey (EC_KEY_empty (curve_nid (key_alg key)))
      (POINT_CONVERSION_UNCOMPRESSED :: o) = Some k ∧ EC_KEY_check_key k = true) →
    runs (mret (r, key, data)) s2 (λ '(r, key', data') s', key_post s s' key (λ k,
      o2i_ECPublicKey (EC_KEY_empty (curve_nid (key_alg key))) (POINT_CONVERSION_UNCOMPRESSED :: o) = Some k ∧
      EC_KEY_check_key k = true) r key' ∧
      remaining data' = if decide (r = ISC_R_SUCCESS) then rest else o ++ rest)) as Hfail.
  { intros s2 r Hr Hs Hw. apply runs_ret. rewrite decide_False by done. split; [right; by split_and!|done]. }
  apply runs_bind. eapply runs_new_update; [done| |].
  - intros s2 k' Hk Hn2. apply runs_bind. eapply runs_new_get; [done|]. simpl orb.
    destruct (EC_KEY_check_key k') eqn:Hc; simpl negb; cbv iota.
    + apply runs_bind. eapply runs_new_pkey; [done|intros s3 Q'; by apply toresult_fails| |].
      * intros p s3 Hm. apply runs_ret, runs_bind. eapply runs_made_free; [done|]. intros s4 Hm4. apply runs_ret.
        rewrite decide_True by done. split.
        -- left. split; [done|]. by exists e, p, k'.
        -- rewrite remaining_forward by (rewrite Hd, length_app; lia). rewrite Hd. by apply drop_app_length'.
      * intros r s3 Hr Hf Hn3. apply runs_ret, runs_bind. eapply runs_new_free; [done|]. intros s4 Hs.
        rewrite decide_False by done. by apply Hfail; [| |left].
    + apply runs_bind, runs_toresult. intros r Hr. apply runs_ret, runs_bind. apply new_ec_tick in Hn2.
      eapply runs_new_free; [done|]. intros s4 Hs. apply Hfail; [by apply Hr|done|right]. intros (k & E & Ek). congruence.
  - intros s2 Hn2 Hw. apply runs_bind. eapply runs_new_get; [done|]. simpl negb. cbv iota.
    apply runs_bind, runs_toresult. intros r Hr. apply runs_ret, runs_bind. apply new_ec_tick in Hn2.
    eapply runs_new_free; [done|]. intros s4 Hs. apply Hfail; [by apply Hr|done|].
    destruct Hw as [?|E]; [by left|right]. intros (k & Ek & _). congruence.
Qed.
Lemma made_same s s1 s2 n e p k : made s s1 n e p k → same s1 s2 → made s s2 n e p k.
Proof.
  intros [? ? E1 E2 Hr] [Hh Hm]. injection Hh as A1 A2 A3 A4 A5. injection Hr as R1 R2 R3 R4.
  split; [done|done|congruence|congruence|]. by rewrite A3, A4, A5, Hm, R1, R2, R3, R4.
Qed.

(** The octets of a DNS key record become a key whose record has the same
    octets, and the rest of the data is left; when the key is destroyed again,
    everything is as before. *)
Theorem record_roundtrip key o rest data b k s :
  is_ecdsa (key_alg key) = true → remaining data = o ++ rest → length o = key_size (key_alg key) → o ≠ [] →
  o2i_ECPublicKey (EC_KEY_empty (curve_nid (key_alg key))) (POINT_CONVERSION_UNCOMPRESSED :: o) = Some k →
  EC_KEY_check_key k = true → i2o_ECPublicKey k = Some (POINT_CONVERSION_UNCOMPRESSED :: o) →
  (∀ i, works i = true) → (length o ≤ length (avail b))%nat →
  runs ('(r, key', data') ← opensslecdsa_fromdns key data; '(r', b') ← opensslecdsa_todns key' b;
        key'' ← opensslecdsa_destroy key'; mret (r, r', data', b', key'')) s
    (λ '(r, r', data', b', key'') s', r = ISC_R_SUCCESS ∧ r' = ISC_R_SUCCESS ∧ remaining data' = rest ∧
       remaining b' = remaining b ++ o ∧ key'' = with_pkey NULL key ∧ held s' = held s ∧ mds s' = mds s).
Proof.
  intros Ha Hd Hl Ho Ek Hc Hi Hw Hroom. apply runs_bind.
  eapply runs_mono; [by apply (fromdns_spec s key o rest data)|]. intros [[r key'] data'] s1 [Hp Hr].
  destruct Hp as [(-> & e & p & k' & Hm & -> & E & _)|(_ & _ & _ & [[i Hf]|Hf])].
  2:{ by rewrite Hw in Hf. }
  2:{ destruct Hf. eauto. }
  rewrite Ek in E. injection E as <-. rewrite decide_True in Hr by done.
  apply runs_bind. eapply runs_mono.
  { eapply (todns_spec s1 _ e k _ o b); [by eapply made_has_ec|done|].
    rewrite Hl. pose proof key_sizes. destruct (key_alg key); simpl; lia. }
  intros [r' b'] s2 (Hh & Hm2 & Hpost & Hok). cbn [fst snd] in *. specialize (Hok Hw Hroom) as ->.
  destruct Hpost as [[_ Hb]|[? _]]; [|done].
  apply runs_bind. eapply runs_mono; [eapply key_destroy_spec, (made_same s s1 s2); [done|by split]|].
  intros key'' s3 [[Hh3 Hm3] ->]. by apply runs_ret.
Qed.

(** *** Private key files *)

(** [tofile] writes the private number, and gives back the memory and the key. *)
Lemma tofile_spec s key e k x :
  has_ec s (pkey key) e k → external key = false → EC_KEY_get0_private_key k = Some x →
  returns (opensslecdsa_tofile key) s (λ out h, h = mds s ∧
    ((∃ i, out = let t := privstruct_text i (key_alg key) false [(TAG_ECDSA_PRIVATEKEY, BN_bn2bin x)] in
                 (t.1, Some t.2)) ∨
     (out = (ISC_R_NOMEMORY, None) ∧ call_fails))).
Proof.
  intros He Hx Hp. pose proof He as (p & n & Ep & Hpk & Hec). unfold opensslecdsa_tofile. rewrite Ep, Hx in *.
  apply runs_bind. eapply runs_get1; [exact He|].
  assert (ecs (set_ecs (alter up e) s) !! e = Some (k, S (S n))) as Hup by (simpl; by rewrite lookup_alter_eq, Hec).
  apply runs_bind, runs_bind. eapply runs_ec_get; [exact Hup|]. rewrite Hp.
  apply runs_bind, runs_lib. destruct (works _) eqn:Hw; simpl negb; cbv iota.
  2:{ apply runs_ret, runs_bind. eapply runs_free_ref; [exact Hup|lia|]. apply runs_bind, runs_ret, runs_ret.
      split; [unfold held; simpl; by rewrite alter_down_up|]. split; [done|]. right. split; [done|by eexists]. }
  apply runs_bind, runs_alloc. intros l Hl. simpl in Hl. apply runs_bind. rewrite decide_True by (rewrite bn2bin_length; lia).
  apply runs_modify. unfold dst__privstruct_writefile. cbn [elements nelements length].
  rewrite one_tag, decide_False by lia. apply runs_bind, runs_bind. cbn [take mapM].
  apply runs_bind, runs_bind. eapply runs_deref; [simpl; apply lookup_insert_eq|]. apply runs_ret, runs_bind, runs_ret, runs_ret.
  apply runs_bind, runs_gets, runs_bind, runs_modify, runs_ret. rewrite Hx.
  match goal with |- context [privstruct_text ?i _ _ _] => set (j := i) end.
  destruct (privstruct_text j (key_alg key) false [(TAG_ECDSA_PRIVATEKEY, BN_bn2bin x)]) as [r text] eqn:E.
  apply runs_ret, runs_bind. eapply runs_free_ref; [exact Hup|lia|]. apply runs_bind, runs_bind.
  eapply (runs_ec_get e k (S n)); [simpl; by rewrite alter_down_up|].
  eapply runs_release_obj; [simpl; apply lookup_insert_eq|]. apply runs_ret.
  split; [|split; [done|left; exists j; by rewrite E]].
  unfold held. simpl. by rewrite alter_down_up, insert_insert_eq, delete_insert_id.
Qed.
(** The key with the private part [k1] after it got the public point [pt]. *)
Definition completed (k1 : EcKey) (pt : EcPoint) (k : EcKey) : Prop :=
  (EC_KEY_with_public k1 pt = Some k ∧ EC_KEY_check_key k = true) ∨ (EC_KEY_with_public k1 pt = None ∧ k = k1).

Lemma ecdsa_check_spec s s1 e k1 q ep kp pt :
  new_ec s s1 e k1 → has_ec s (pkey q) ep kp → EC_KEY_get0_public_key kp = Some pt →
  runs (ecdsa_check e (Some q)) s1 (λ r s', ∃ k, new_ec s s' e k ∧
    ((r = ISC_R_SUCCESS ∧ (call_fails ∨ completed k1 pt k)) ∨
     (r = ISC_R_FAILURE ∧ EC_KEY_with_public k1 pt = Some k ∧ EC_KEY_check_key k = false))).
Proof.
  intros Hn Hq Hpt. pose proof Hq as (p & n & Ep & _). unfold ecdsa_check. simpl. rewrite Ep in *.
  apply runs_bind. eapply runs_new_get1; [done|done|]. intros s2 Hn2.
  destruct (new_ec_other _ _ _ _ _ _ _ Hq Hn2) as [m Hm].
  apply runs_bind. eapply runs_ec_get; [done|]. rewrite Hpt. apply runs_bind, runs_bind.
  eapply runs_new_update; [done| |].
  - intros s3 k Hk Hn3. simpl negb. cbv iota. apply runs_bind. eapply runs_new_get; [done|]. apply runs_ret, runs_bind.
    eapply runs_new_put1; [done|done|]. intros s4 Hn4. apply runs_ret. exists k. split; [done|].
    destruct (EC_KEY_check_key k) eqn:Hc; [left|right]; split; try done. right. by left.
  - intros s3 Hn3 Hw. simpl negb. cbv iota. apply runs_ret, runs_bind. eapply runs_new_put1; [done|done|].
    intros s4 Hn4. apply runs_ret. exists k1. split; [done|]. left. split; [done|].
    destruct Hw as [?|?]; [by left|right; by right].
Qed.

(** [s0] is [s] with one more number, that nothing refers to any more. *)
Definition lost s s0 (x : Z) : Prop := ∃ n, bns s !! n = None ∧ s0 = set_bns <[n := x]> s.
(** The key of a file with the private number [x], for the public point [pt]. *)
Definition file_key (a : dst_alg) (x : Z) (pt : EcPoint) (k : EcKey) : Prop := ∃ k1,
  EC_KEY_with_private (EC_KEY_empty (curve_nid a)) x = Some k1 ∧ completed k1 pt k.

Lemma new_ec_unblock s s1 e k l d : blocks s !! l = None → new_ec (set_blocks <[l := d]> s) s1 e k →
  new_ec s (set_blocks (delete l) s1) e k.
Proof.
  intros Hl [Hn E Hr]. injection Hr as E1 E2 E3 E4 E5. split; [done|done|]. simpl.
  by rewrite E1, E2, E3, E4, E5, delete_insert_id.
Qed.
Lemma runs_privstruct_free tag l d s (Q : unit → st → Prop) :
  blocks s !! l = Some d → Q tt (set_blocks (delete l) s) → runs (dst__privstruct_free (Private 1 [(tag, l)])) s Q.
Proof.
  intros Hl HQ. apply runs_bind, runs_bind. eapply runs_release_obj; [done|]. apply runs_bind, runs_ret, runs_ret.
  by apply runs_ret.
Qed.

Lemma parse_private_spec a s s1 e tag l d q ep kp pt :
  blocks s !! l = None → new_ec (set_blocks <[l := d]> s) s1 e (EC_KEY_empty (curve_nid a)) →
  has_ec s (pkey q) ep kp → EC_KEY_get0_public_key kp = Some pt →
  runs (parse_private e (Private 1 [(tag, l)]) (Some q)) s1 (λ '(r, priv) s', ∃ s0,
    ((r = ISC_R_SUCCESS ∧ priv = Private 0 [] ∧ lost s s0 (BN_bin2bn d) ∧
        ∃ k, new_ec s0 s' e k ∧ (call_fails ∨ file_key a (BN_bin2bn d) pt k)) ∨
     (r ≠ ISC_R_SUCCESS ∧ priv = Private 1 [(tag, l)] ∧ (s0 = s ∨ lost s s0 (BN_bin2bn d)) ∧ blocks s0 !! l = None ∧
        (∃ k, new_ec (set_blocks <[l := d]> s0) s' e k) ∧ (call_fails ∨ ¬ ∃ k, file_key a (BN_bin2bn d) pt k)))).
Proof.
  intros Hl Hn Hq Hpt. pose proof (ne_rest _ _ _ _ Hn) as Hr. injection Hr as E1 E2 E3 E4 E5.
  unfold parse_private. cbn [elements lookup list_lookup]. apply runs_bind, runs_ret, runs_bind.
  eapply runs_deref; [by rewrite E4; apply lookup_insert_eq|].
  apply runs_bind, runs_bind, runs_lib. apply new_ec_tick in Hn.
  destruct (works (calls s1)) eqn:Hw.
  2:{ apply runs_ret, runs_ret. exists s. right. split_and!; [done|done|by left|done|by eexists|left; by eexists]. }
  apply runs_bind, runs_alloc. intros nl Hnl. apply runs_ret. simpl in Hnl. rewrite E3 in Hnl. simpl in Hnl.
  set (s0 := set_bns <[nl := BN_bin2bn d]> s). assert (lost s s0 (BN_bin2bn d)) as Hlost by by exists nl.
  assert (new_ec (set_blocks <[l := d]> s0) (set_bns <[nl := BN_bin2bn d]> (tick s1)) e (EC_KEY_empty (curve_nid a))) as Hn0.
  { destruct Hn as [Hn Ec Hr']. split; [done|done|]. simpl. by rewrite E1, E2, E3, E4, E5. }
  apply runs_bind, runs_bind. eapply runs_deref; [simpl; apply lookup_insert_eq|].
  eapply runs_new_update; [done| |].
  2:{ intros s2 Hn2 Hf. simpl negb. cbv iota. apply runs_ret. exists s0. right.
      split_and!; [done|done|by right|done|by eexists|]. destruct Hf as [?|Ef]; [by left|right]. intros (k & k1 & Ek & _). congruence. }
  intros s2 k1 Hk1 Hn2. simpl negb. cbv iota. apply runs_bind. eapply runs_mono.
  { eapply (ecdsa_check_spec _ s2 e k1 q ep kp pt); [done| |done]. by eapply has_ec_held. }
  intros r s3 (k & Hn3 & Hc). destruct Hc as [[-> Hc]|(-> & Hk & Hc)].
  - rewrite decide_True by done. pose proof (ne_rest _ _ _ _ Hn3) as Hr. injection Hr as _ _ _ Eb _.
    apply runs_bind. eapply runs_privstruct_free; [by rewrite Eb; apply lookup_insert_eq|]. apply runs_ret.
    exists s0. left. split; [done|]. split; [done|]. split; [done|]. exists k. split.
    + by apply (new_ec_unblock s0 s3 e k l d).
    + destruct Hc as [?|?]; [by left|right; by exists k1].
  - rewrite decide_False by done. apply runs_ret. exists s0. right. split_and!; [done|done|by right|done|by eexists|right].
    intros (k' & k1' & E & [[E' ?]|[E' ?]]); congruence.
Qed.

(** A key that is read from its private key file, given the public key,
    has the private number of the file and the public point, and everything the
    reading used is given back, except a number ([lost]); a file that does not
    fit the public key is refused, and nothing is changed then. *)
Lemma parse_spec s key lexer q ep kp pt tag d :
  is_ecdsa (key_alg key) = true → external key = false →
  (∀ i, privstruct_read i (key_alg key) DST_ALG_ECDSA256 lexer = (ISC_R_SUCCESS, false, [(tag, d)])) →
  has_ec s (pkey q) ep kp → EC_KEY_get0_public_key kp = Some pt →
  runs (opensslecdsa_parse key lexer (Some q)) s (λ '(r, key') s', ∃ s0,
    ((r = ISC_R_SUCCESS ∧ lost s s0 (BN_bin2bn d) ∧ ∃ e p k, made s0 s' 1 e p k ∧ key' = with_pkey (Some p) key ∧
        (call_fails ∨ file_key (key_alg key) (BN_bin2bn d) pt k)) ∨
     (r ≠ ISC_R_SUCCESS ∧ (s0 = s ∨ lost s s0 (BN_bin2bn d)) ∧ same s0 s' ∧ key' = key ∧
        (call_fails ∨ ¬ ∃ k, file_key (key_alg key) (BN_bin2bn d) pt k)))).
Proof.
  intros Ha Hx Hf Hq Hpt. apply runs_bind, runs_assert; [done|]. apply runs_new_curve.
  2:{ intros Hw. apply runs_bind, runs_toresult. intros r Hr. apply runs_ret. exists s. right.
      split_and!; [by apply Hr|by left|done..|by left]. }
  intros e s1 Hn. pose proof (ne_rest _ _ _ _ Hn) as Hr. injection Hr as E1 E2 E3 E4 E5.
  unfold parse_body, dst__privstruct_parse. apply runs_bind, runs_bind, runs_bind, runs_gets, runs_bind, runs_modify.
  rewrite Hf, decide_True, Hx by done. cbn [orb]. apply new_ec_tick in Hn.
  apply runs_bind. cbn [mapM]. apply runs_bind, runs_bind, runs_alloc. intros l Hl. simpl in Hl. rewrite E4 in Hl.
  apply runs_ret, runs_bind, runs_ret, runs_ret, runs_ret. rewrite bool_decide_true by done. cbn [negb external length].
  replace (DstKey (key_alg key) (pkey key) false) with key by (destruct key; simpl in *; by rewrite Hx).
  apply runs_bind, runs_bind. eapply runs_mono.
  { apply (parse_private_spec (key_alg key) s _ e tag l d q ep kp pt); [done| |done|done].
    destruct Hn as [? Ec Hr]. split; [done|done|]. simpl. congruence. }
  intros [r priv] s2 (s0 & Hp). apply runs_ret. destruct Hp as [(-> & -> & Hlost & k & Hn2 & Hk)|(Hne & -> & Hlost & Hl0 & [k Hn2] & Hk)].
  - rewrite bool_decide_true by done. cbn [negb]. apply runs_bind.
    eapply runs_new_pkey; [done|intros s3 Q'; by apply toresult_fails| |].
    + intros p s3 Hm. apply runs_ret, runs_bind. eapply runs_made_free; [done|]. intros s4 Hm4.
      apply runs_bind, runs_ret, runs_bind, runs_bind, runs_ret, runs_ret, runs_ret.
      exists s0. left. split; [done|]. split; [done|]. by exists e, p, k.
    + intros r s3 Hr Hw Hn3. apply runs_ret, runs_bind. eapply runs_new_free; [done|]. intros s4 Hs.
      apply runs_bind, runs_ret, runs_bind, runs_bind, runs_ret, runs_ret, runs_ret.
      exists s0. right. by split_and!; [|right| | |left].
  - rewrite bool_decide_false by done. cbn [negb]. apply runs_ret, runs_bind.
    eapply runs_new_free; [exact Hn2|]. intros s3 [Hh Hm]. apply runs_bind, runs_ret, runs_bind.
    injection Hh as A1 A2 A3 A4 A5. eapply runs_privstruct_free; [by rewrite A5; apply lookup_insert_eq|].
    apply runs_ret. exists s0. right. split_and!; [done|done| |done|done]. split; [|done].
    unfold held. simpl. by rewrite A1, A2, A3, A4, A5, delete_insert_id.
Qed.
Lemma has_ec_made s s' n e p k q eq kq : has_ec s q eq kq → made s s' n e p k → has_ec s' q eq kq.
Proof.
  intros (l & m & -> & Hl & Heq) [Hn Hp E1 E2 _]. exists l, m. rewrite E1, E2, !lookup_insert_ne; [done|..];
    intros ->; congruence.
Qed.

(** C39. A private key that is written to a file and read back, given the public
    key, compares equal to it; when the new key is destroyed again everything is
    as before, except that the number that was read stays allocated. *)
Theorem key_file_roundtrip s key e k x q ep kp pt k1 k2 key' :
  is_ecdsa (key_alg key) = true → key_alg key' = key_alg key → external key = false → external key' = false →
  has_ec s (pkey key) e k → EC_KEY_get0_private_key k = Some x → 0 ≤ x →
  has_ec s (pkey q) ep kp → EC_KEY_get0_public_key kp = Some pt →
  EC_KEY_with_private (EC_KEY_empty (curve_nid (key_alg key))) x = Some k1 →
  EC_KEY_with_public k1 pt = Some k2 → EC_KEY_check_key k2 = true →
  EC_KEY_get0_private_key k2 = Some x → EVP_PKEY_cmp k k2 = 1 → (∀ i, works i = true) →
  (let els := [(TAG_ECDSA_PRIVATEKEY, BN_bn2bin x)] in
   ∀ i, (privstruct_text i (key_alg key) false els).1 = ISC_R_SUCCESS ∧
     ∀ j, privstruct_read j (key_alg key) DST_ALG_ECDSA256 (privstruct_text i (key_alg key) false els).2 =
       (ISC_R_SUCCESS, false, els)) →
  runs ('(r, text) ← opensslecdsa_tofile key; lexer ← from_option_or BadAccess text;
        '(r', new) ← opensslecdsa_parse key' lexer (Some q); eq ← opensslecdsa_compare key new;
        opensslecdsa_destroy new;; mret (r, r', eq)) s
    (λ '(r, r', eq) s', r = ISC_R_SUCCESS ∧ r' = ISC_R_SUCCESS ∧ eq = true ∧
       ∃ s0, lost s s0 x ∧ held s' = held s0 ∧ mds s' = mds s0).
Proof.
  intros Ha Ea Hx Hx' He Hpx Hnn Hq Hpt Hk1 Hk2 Hc Hpx2 Hcmp Hw Hfile.
  assert (¬ call_fails) as Hnf by by (intros [i Hi]; rewrite Hw in Hi).
  apply runs_bind. eapply runs_mono; [by apply (tofile_spec s key e k x)|].
  intros [r text] s1 (Hh & Hm & [[i Hi]|[_ ?]]); [|done]. cbv zeta in Hi.
  destruct (Hfile i) as [Hok Hread].
  rewrite Hok in Hi. injection Hi as -> ->. apply runs_bind, runs_ret.
  assert (has_ec s1 (pkey key) e k) as He1 by by eapply has_ec_held.
  assert (has_ec s1 (pkey q) ep kp) as Hq1 by by eapply has_ec_held.
  apply runs_bind. eapply runs_mono.
  { eapply (parse_spec s1 key' _ q ep kp pt TAG_ECDSA_PRIVATEKEY (BN_bn2bin x));
      [by rewrite Ea|done|intros j; rewrite Ea; apply Hread|done|done]. }
  intros [r' new] s2 (s0 & Hp). rewrite Ea, bin2bn_bn2bin in * by done.
  destruct Hp as [(-> & Hlost & e' & p & k' & Hm2 & -> & [?|Hk'])|(_ & _ & _ & _ & [?|Hno])]; [done| |done|].
  2:{ destruct Hno. exists k2, k1. split; [done|]. by left. }
  assert (k' = k2) as ->.
  { destruct Hk' as (k1' & E1 & Hcm). rewrite Hk1 in E1. injection E1 as <-. destruct Hcm as [[E _]|[E _]]; congruence. }
  assert (has_ec s0 (pkey key) e k) as He0 by (destruct Hlost as (n & _ & ->); done).
  apply runs_bind. eapply runs_mono.
  { eapply (compare_spec s2 key (with_pkey (Some p) key') e e' k k2); [by eapply has_ec_made|by eapply made_has_ec]. }
  intros eq s3 (Hh3 & Hm3 & ->). apply runs_bind. eapply runs_mono; [eapply key_destroy_spec, (made_same s0 s2 s3); [done|by split]|].
  intros key3 s4 [[Hh4 Hm4] _]. apply runs_ret. split; [done|]. split; [done|].
  split; [apply bool_decide_true; by rewrite Hpx, Hpx2|]. destruct Hlost as (n & Hn & ->).
  injection Hh as A1 A2 A3 A4 A5. exists (set_bns <[n := x]> s). split; [exists n; by rewrite <-A4|].
  rewrite Hh4, Hm4. unfold held. simpl. by rewrite A1, A2, A3, A4, A5, Hm.
Qed.
End proofs.

(** ** A concrete instance

    Big numbers in base 256, buffers as two lists, and keys whose public point is
    the private number. *)
Module Toy.
#[local] Instance toy_buffer : IscBuffer := {|
  Buffer := list Z * list Z; avail := fst; set_avail a b := (a, b.2); remaining := snd;
  isc_buffer_add n b := (drop n b.1, b.2 ++ take n b.1); isc_buffer_forward n b := (b.1, drop n b.2)
|}.
#[local] Instance toy_buffer_laws : IscBufferLaws.
Proof. by split. Qed.

Fixpoint be (f : nat) (n : Z) (acc : list Z) : list Z :=
  match f with O => acc | S f => if n <=? 0 then acc else be f (n / 256) (n mod 256 :: acc) end.
Definition to_be (n : Z) : list Z := be (S (Z.to_nat (Z.log2 n))) n [].
Definition of_be (l : list Z) : Z := foldl (λ a c, 256 * a + c) 0 l.
Lemma of_be_be f : ∀ n acc, 0 ≤ n < 2 ^ Z.of_nat f →
  foldl (λ a c, 256 * a + c) 0 (be f n acc) = foldl (λ a c, 256 * a + c) n acc.
Proof.
  induction f as [|f IH]; intros n acc Hn; simpl; [by replace n with 0 by (simpl in Hn; lia)|].
  destruct (Z.leb_spec n 0); [by replace n with 0 by lia|].
  rewrite Nat2Z.inj_succ, Z.pow_succ_r in Hn by lia.
  rewrite IH by (split; [apply Z.div_pos; lia|apply Z.div_lt_upper_bound; lia]).
  simpl. f_equal. pose proof (Z.div_mod n 256). lia.
Qed.
Lemma of_be_to_be n : 0 ≤ n → of_be (to_be n) = n.
Proof.
  intros Hn. unfold of_be, to_be. rewrite of_be_be; [done|]. split; [done|].
  rewrite Nat2Z.inj_succ, Z2Nat.id by apply Z.log2_nonneg.
  destruct (decide (n = 0)) as [->|]; [done|]. apply Z.log2_spec. lia.
Qed.

(** A key: the curve, the private number and the public point. *)
Definition key := (Z * option Z * option Z)%type.
Definition total (d : list Z) : Z := foldr Z.add 0 d.
#[local] Instance toy_ossl : Ossl := {|
  DNS_SIG_ECDSA256SIZE := 4; DNS_SIG_ECDSA384SIZE := 6; DNS_KEY_ECDSA256SIZE := 2; DNS_KEY_ECDSA384SIZE := 4;
  NID_X9_62_prime256v1 := 415; NID_secp384r1 := 715; POINT_CONVERSION_UNCOMPRESSED := 4;
  TAG_ECDSA_PRIVATEKEY := 1; ECDSA_NTAGS := 1; EcKey := key; EcPoint := Z; works _ := true;
  error_result _ f := f; digest _ d := d;
  BN_num_bytes n := length (to_be n); BN_bn2bin := to_be; BN_bin2bn := of_be;
  EC_KEY_empty nid := (nid, None, None); EC_KEY_generated i k := (k.1.1, Some 7, Some 7);
  EC_KEY_get0_private_key k := k.1.2; EC_KEY_get0_public_key k := k.2;
  EC_KEY_with_private k x := Some (k.1.1, Some x, k.2); EC_KEY_with_public k p := Some (k.1, Some p);
  EC_KEY_check_key k := match k.1.2, k.2 with Some x, Some p => x =? p | _, _ => true end;
  EVP_PKEY_cmp k k' := if decide (k.2 = k'.2) then 1 else 0;
  i2o_ECPublicKey k := (λ p, [4; p / 256; p mod 256]) <$> k.2;
  o2i_ECPublicKey k o := match o with [_; a; b] => Some (k.1, Some (256 * a + b)) | _ => None end;
  ECDSA_sign i d k := (λ x, (Z.of_nat i mod 7, (total d + x) mod 250)) <$> k.1.2;
  ECDSA_verify d r s k := match r, s, k.2 with
    Some _, Some s, Some p => if s =? (total d + p) mod 250 then 1 else 0 | _, _, _ => -1 end;
  sig_has_numbers := true;
  privstruct_text _ _ _ els := (ISC_R_SUCCESS, match els with (t, d) :: _ => t :: d | [] => [] end);
  privstruct_read _ _ _ t := match t with
    tag :: d => (ISC_R_SUCCESS, false, [(tag, d)]) | [] => (ISC_R_FAILURE, false, []) end
|}.
#[local] Instance toy_ossl_laws : OsslLaws.
Proof.
  split; try done; try (simpl; lia).
  - apply of_be_to_be.
  - intros d [r|] [s|] k; [by eauto|done..].
Qed.

Definition key_of (x : option Z) (p : Z) : EcKey := (415, x, Some p).
Definition kpriv : EcKey := key_of (Some 7) 7.
Definition kpub : EcKey := key_of None 7.
Definition k_half : EcKey := (415, Some 7, None).
(** A private key at 1, and its public key at 2. *)
Definition s0 : st := St {[ 11%positive := (kpriv, 1%nat); 12%positive := (kpub, 1%nat) ]}
  {[ 1%positive := Some 11%positive; 2%positive := Some 12%positive ]} ∅ ∅ ∅ ∅ 0.
Definition priv : dst_key := DstKey DST_ALG_ECDSA256 (Some 1%positive) false.
Definition pub : dst_key := DstKey DST_ALG_ECDSA256 (Some 2%positive) false.
Definition none : dst_key := DstKey DST_ALG_ECDSA256 NULL false.
Definition buf : Buffer := ([0; 0; 0; 0; 0], [9]).
Definition rdata : Buffer := ([], [3; 5; 8]).

Lemma priv_has : has_ec s0 (pkey priv) 11 kpriv.
Proof. by exists 1%positive, 0%nat. Qed.
Lemma pub_has : has_ec s0 (pkey pub) 12 kpub.
Proof. by exists 2%positive, 0%nat. Qed.
Lemma byte_fits n : 0 ≤ n < 256 → (length (to_be n) ≤ 1)%nat.
Proof.
  intros Hn. unfold to_be. destruct (Z.to_nat (Z.log2 n)) as [|f]; simpl; (destruct (Z.leb_spec n 0); [simpl; lia|]); [simpl; lia|].
  rewrite Z.div_small by lia. simpl. lia.
Qed.

Lemma signature_roundtrip_witness :
  runs ('(r, b') ← sign_message priv [[1; 2]; [3]] buf;
        let sig := drop (length (remaining buf)) (remaining b') in
        r' ← verify_message pub [[1]; [2; 3]] sig; mret (r, b', sig, r')) s0
    (λ '(r, b', sig, r') s', r = ISC_R_SUCCESS ∧ r' = ISC_R_SUCCESS ∧ held s' = held s0 ∧ mds s' = mds s0 ∧
       remaining b' = remaining buf ++ sig ∧ length sig = 4%nat).
Proof.
  apply (signature_roundtrip priv pub 11 12 kpriv kpub [[1; 2]; [3]] [[1]; [2; 3]] buf s0);
    [reflexivity|reflexivity|apply priv_has|apply pub_has| |done|reflexivity|simpl; lia].
  intros i x. eexists _, _. split; [reflexivity|]. 
  pose proof (Z.mod_pos_bound (Z.of_nat i) 7). pose proof (Z.mod_pos_bound (total x + 7) 250).
  split; [lia|]. split; [lia|]. change (half (key_alg priv)) with 2%nat.
  split; [etransitivity; [apply byte_fits|]; lia|]. split; [etransitivity; [apply byte_fits|]; lia|].
  simpl. by rewrite Z.eqb_refl.
Defined.

Lemma record_roundtrip_witness :
  runs ('(r, key', data') ← opensslecdsa_fromdns none rdata; '(r', b') ← opensslecdsa_todns key' buf;
        key'' ← opensslecdsa_destroy key'; mret (r, r', data', b', key'')) s0
    (λ '(r, r', data', b', key'') s', r = ISC_R_SUCCESS ∧ r' = ISC_R_SUCCESS ∧ remaining data' = [8] ∧
       remaining b' = remaining buf ++ [3; 5] ∧ key'' = with_pkey NULL none ∧ held s' = held s0 ∧ mds s' = mds s0).
Proof.
  apply (record_roundtrip none [3; 5] [8] rdata buf (key_of None 773) s0);
    try reflexivity; [discriminate|simpl; lia].
Defined.

Lemma key_file_roundtrip_witness :
  runs ('(r, text) ← opensslecdsa_tofile priv; lexer ← from_option_or BadAccess text;
        '(r', new) ← opensslecdsa_parse none lexer (Some pub); eq ← opensslecdsa_compare priv new;
        opensslecdsa_destroy new;; mret (r, r', eq)) s0
    (λ '(r, r', eq) s', r = ISC_R_SUCCESS ∧ r' = ISC_R_SUCCESS ∧ eq = true ∧
       ∃ s1, lost s0 s1 7 ∧ held s' = held s1 ∧ mds s' = mds s1).
Proof.
  apply (key_file_roundtrip s0 priv 11 kpriv 7 pub 12 kpub 7
    k_half kpriv none);
    try reflexivity; [apply priv_has|lia|apply pub_has|by intros els i; split].
Defined.

Lemma verify_length_leaks_witness :
  opensslecdsa_verify (DstContext pub NULL) [1; 2; 3] s0 = Ok (DST_R_VERIFYFAILURE, set_ecs (alter up 12%positive) s0).
Proof.
  apply (verify_length_leaks s0 (DstContext pub NULL) 12 kpub [1; 2; 3]);
    [reflexivity|apply pub_has|discriminate].
Defined.
End Toy.
