(* ===== verification/FileLines.v ===== *)
(** * Files that are read line by line, and logs of several processes

    [fgets] on the text of a file, and what a loop over its lines makes of it: a
    loop that turns each line into an item, skips lines, or ends early.  The
    programs with message queues ([alsp/src/5.ipc]) are such loops; what they
    sent and received is recorded in a log by process. *)

From stdpp Require Import base list.
From Stdlib Require Import ZArith Lia.
From S2P Require Import Prelude.

Local Open Scope Z_scope.

(** The size of the arrays for a line. *)
Definition SZ_QUEUE : Z := 16384.

(** [fgets] into an array of [S n] characters: the line, the rest of the file,
    and whether the end of the file was reached; [None] for the null pointer. *)
Fixpoint get_line (n : nat) (file : list Z) : list Z * list Z * bool :=
  match n, file with
  | O, _ => ([], file, false)
  | S _, [] => ([], [], true)
  | S n, c :: file => if c =? 10 then ([c], file, false) else let '(l, r, e) := get_line n file in (c :: l, r, e)
  end.
Definition fgets (n : nat) (file : list Z) : option (list Z * list Z * bool) :=
  match file with [] => None | _ => Some (get_line n file) end.
(** The string in an array that holds the line. *)
Fixpoint str (l : list Z) : list Z :=
  match l with [] => [] | c :: l => if c =? 0 then [] else c :: str l end.

Lemma get_line_length n file l r e : get_line n file = (l, r, e) → (length l ≤ n)%nat.
Proof.
  revert file l r e. induction n as [|n IH]; intros [|c file] l r e; simpl; try (intros [= <- <- <-]; simpl; lia).
  destruct (c =? 10); [intros [= <- <- <-]; simpl; lia|]. destruct (get_line n file) as [[l' r'] e'] eqn:E.
  intros [= <- <- <-]. apply IH in E. simpl. lia.
Qed.
Lemma str_length l : (length (str l) ≤ length l)%nat.
Proof. induction l as [|c l IH]; simpl; [done|]. destruct (c =? 0); simpl; lia. Qed.
Lemma fgets_str_length n file l r e : fgets n file = Some (l, r, e) → (length (str l) ≤ n)%nat.
Proof.
  unfold fgets. destruct file; [done|]. intros [= E%get_line_length]. pose proof (str_length l). lia.
Qed.

Lemma get_line_rest n file l r e : get_line n file = (l, r, e) → (length r ≤ length file)%nat.
Proof.
  revert file l r e. induction n as [|n IH]; intros [|c file] l r e; simpl; try (by intros [= <- <- <-]).
  destruct (c =? 10); [intros [= <- <- <-]; lia|]. destruct (get_line n file) as [[l' r'] e'] eqn:E.
  intros [= <- <- <-]. apply IH in E. lia.
Qed.
Lemma fgets_shorter n file l r e : (0 < n)%nat → fgets n file = Some (l, r, e) → (length r < length file)%nat.
Proof.
  intros Hn. unfold fgets. destruct file as [|c file]; [done|]. intros [= E]. destruct n as [|n]; [lia|].
  simpl in *. destruct (c =? 10); [injection E as <- <- <-; simpl; lia|].
  destruct (get_line n file) as [[l' r'] e'] eqn:E'. injection E as <- <- <-. apply get_line_rest in E'. lia.
Qed.
Lemma get_line_ok n l rest : 10 ∉ l → (length l < n)%nat → get_line n (l ++ 10 :: rest) = (l ++ [10], rest, false).
Proof.
  revert n. induction l as [|c l IH]; intros [|n] Hl Hn; simpl in *; try lia; [done|].
  apply not_elem_of_cons in Hl as [Hc Hl]. rewrite (proj2 (Z.eqb_neq c 10)) by congruence. rewrite IH by (done || lia). done.
Qed.
Lemma fgets_ok n l rest : 10 ∉ l → (length l < n)%nat → fgets n (l ++ 10 :: rest) = Some (l ++ [10], rest, false).
Proof. intros Hl Hn. rewrite <-(get_line_ok n l rest) by done. unfold fgets. by destruct l. Qed.
Lemma str_id l : 0 ∉ l → str l = l.
Proof.
  induction l as [|c l IH]; [done|]. intros [Hc Hl]%not_elem_of_cons. simpl.
  rewrite (proj2 (Z.eqb_neq c 0)) by congruence. by rewrite IH.
Qed.

(** ** What a loop over the lines makes of a file

    [next] says of a line that it is skipped ([None]), that it ends the loop
    ([Some None]) or what it becomes; [stop] that the loop looks at the end of the
    file before it calls [fgets]. *)
Section items.
Context {A : Type} (stop : bool) (next : list Z → option (option A)).

Fixpoint items_fuel (n : nat) (file : list Z) (eof : bool) : list A :=
  match n with
  | O => []
  | S n =>
      if stop && eof then []
      else
        match fgets (Z.to_nat (SZ_QUEUE - 1)) file with
        | None => []
        | Some (line, rest, eof) =>
            match next (str line) with
            | None => items_fuel n rest eof
            | Some None => []
            | Some (Some x) => x :: items_fuel n rest eof
            end
        end
  end.
Definition items_from (file : list Z) (eof : bool) : list A := items_fuel (S (length file)) file eof.
Definition file_items (file : list Z) : list A := items_from file false.

Lemma rbuf_pos : (0 < Z.to_nat (SZ_QUEUE - 1))%nat.
Proof. change (SZ_QUEUE - 1) with (Z.succ 16382). rewrite Z2Nat.inj_succ by lia. apply Nat.lt_0_succ. Qed.
Lemma items_fuel_enough n file eof : (length file < n)%nat → items_fuel n file eof = items_from file eof.
Proof.
  assert (∀ n m file eof, (length file < n)%nat → (length file < m)%nat → items_fuel n file eof = items_fuel m file eof) as H.
  { clear. induction n as [|n IH]; intros [|m] file eof Hn Hm; [lia..|]. cbn [items_fuel].
    destruct (_ && _); [done|]. destruct (fgets _ file) as [[[l r] e]|] eqn:E; [|done].
    apply fgets_shorter in E; [|apply rbuf_pos]. rewrite (IH m r e) by lia. done. }
  intros. apply H; lia.
Qed.
Lemma items_from_step file eof :
  items_from file eof =
    if stop && eof then []
    else match fgets (Z.to_nat (SZ_QUEUE - 1)) file with
         | None => []
         | Some (line, rest, eof) =>
             match next (str line) with
             | None => items_from rest eof
             | Some None => []
             | Some (Some x) => x :: items_from rest eof
             end
         end.
Proof.
  unfold items_from at 1. cbn [items_fuel]. destruct (_ && _); [done|].
  destruct (fgets _ file) as [[[l r] e]|] eqn:E; [|done]. apply fgets_shorter in E; [|apply rbuf_pos]. by rewrite items_fuel_enough.
Qed.

(** A file that lists items, a line each. *)
Lemma file_items_print (print : A → list Z) xs :
  Forall (λ x, 10 ∉ print x ∧ Z.of_nat (length (print x)) < SZ_QUEUE - 1 ∧ next (str (print x ++ [10])) = Some (Some x)) xs →
  file_items (xs ≫= λ x, print x ++ [10]) = xs.
Proof.
  unfold file_items. induction 1 as [|x xs (Hx & Hl & Hn) Hxs IH]; [by rewrite items_from_step, andb_false_r|].
  rewrite items_from_step, andb_false_r, bind_cons, <-(assoc_L app). simpl app at 2.
  rewrite fgets_ok by (done || lia). by rewrite Hn, IH.
Qed.
End items.

(** ** Logs *)

(** What one process did. *)
Definition by_pid {A} (pid : nat) (l : list (nat * A)) : list A := (filter (λ e, e.1 = pid) l).*2.
Lemma by_pid_snoc {A} pid pid' (m : A) l :
  by_pid pid (l ++ [(pid', m)]) = by_pid pid l ++ (if decide (pid' = pid) then [m] else []).
Proof.
  unfold by_pid. rewrite filter_app, fmap_app. f_equal.
  by destruct (decide (pid' = pid)) as [->|]; [rewrite filter_cons_True by done|rewrite filter_cons_False by done].
Qed.
