(* ===== verification/MsgQueue.v ===== *)
(** * Message queues ([alsp/src/5.ipc/sysv]: [lib_sysv_msg.c], [sysv_msg.c],
      [sysv_msg_regex.c])

    A sender makes messages of the lines of a file, with a type and a text, and
    puts them into a System V message queue; receivers take those of one type
    and print them.  The two programs differ in how they read a line, and are
    told apart by a [variant].

    Any number of such processes run, each started with its arguments; a step of
    one goes up to its next system call ([exec]).  The queues are modelled as the
    calls are documented, with the limits of the system as parameters; what
    [ftok], the creation of a queue, [fopen], [regcomp] and [regexec] answer is
    the label of the step.  The id of a removed queue is not used again.  [sent],
    [taken], [k_gone], [source] and [whole] are auxiliary: they record what
    happened, and no process reads them. *)

From stdpp Require Import base gmap list.
From Stdlib Require Import ZArith Lia.
From S2P Require Import Prelude Arrays PrefixCode ArraySearch FileLines.

Local Open Scope Z_scope.

(** ** The queues of the system *)

(** [struct mq_buf] with the size that is passed beside it. *)
Record mq_buf := Msg { mtype : Z; mtext : list Z }.
#[export] Instance mq_buf_eq_dec : EqDecision mq_buf.
Proof. solve_decision. Defined.

(** The messages in the queue; those that were put into it and taken out of it, by
    which process. *)
Record queue := Queue { items : list mq_buf; sent : list (nat * mq_buf); taken : list (nat * mq_buf) }.
Record kern := Kern { k_keys : gmap Z Z; k_queues : gmap Z queue; k_gone : gmap Z queue }.
(** The bytes of a message and of a queue. *)
Record limits := Limits { msgmax : Z; msgmnb : Z }.

Definition size (m : mq_buf) : Z := Z.of_nat (length (mtext m)).
Definition bytes (ms : list mq_buf) : Z := foldr (λ m n, size m + n) 0 ms.
Definition set_queue (id : Z) (q : queue) (k : kern) : kern :=
  Kern (k_keys k) (<[id := q]> (k_queues k)) (k_gone k).

(** [msgget (key, IPC_CREAT | IPC_EXCL | mode)], and [EEXIST]; [new] is the id of
    a new queue, where one can be created.  The key 0 is [IPC_PRIVATE]. *)
Definition msgget_excl (key : Z) (new : option Z) (k : kern) : Z * bool * kern :=
  match (if key =? 0 then None else k_keys k !! key) with
  | Some _ => (-1, true, k)
  | None =>
      match new with
      | Some id =>
          if decide (0 ≤ id ∧ k_queues k !! id = None ∧ k_gone k !! id = None)
          then (id, false, Kern (if key =? 0 then k_keys k else <[key := id]> (k_keys k))
                             (<[id := Queue [] [] []]> (k_queues k)) (k_gone k))
          else (-1, false, k)
      | None => (-1, false, k)
      end
  end.
(** [msgget (key, 0)] of a queue that exists. *)
Definition msgget_old (key : Z) (k : kern) : Z := default (-1) (k_keys k !! key).

(** [msgsnd] with [IPC_NOWAIT]. *)
Definition msgsnd (lim : limits) (pid : nat) (id : Z) (m : mq_buf) (k : kern) : Z * kern :=
  match k_queues k !! id with
  | None => (-1, k)
  | Some q =>
      if mtype m <? 1 then (-1, k)
      else if msgmax lim <? size m then (-1, k)
      else if (msgmnb lim <? bytes (items q) + size m) || (msgmnb lim <? Z.of_nat (length (items q)) + 1) then (-1, k)
      else (0, set_queue id (Queue (items q ++ [m]) (sent q ++ [(pid, m)]) (taken q)) k)
  end.

(** The type of the message that [msgrcv] takes: any, the one asked for, or the
    lowest up to [- msgtyp]. *)
Definition lowest (bound : Z) (ms : list mq_buf) : option Z :=
  foldr (λ m t, if mtype m <=? bound then Some (from_option (Z.min (mtype m)) (mtype m) t) else t) None ms.
Definition type_for (msgtyp : Z) (ms : list mq_buf) : option Z :=
  if msgtyp =? 0 then mtype <$> head ms else if 0 <? msgtyp then Some msgtyp else lowest (- msgtyp) ms.
Definition first_of (msgtyp : Z) (ms : list mq_buf) : option (nat * mq_buf) :=
  t ← type_for msgtyp ms; list_find (λ m, mtype m = t) ms.
(** [msgrcv]: [None] where it blocks; the message is [None] where it fails. *)
Definition msgrcv (pid : nat) (id msgsz msgtyp : Z) (k : kern) : option (option mq_buf * kern) :=
  match k_queues k !! id with
  | None => Some (None, k)
  | Some q =>
      '(i, m) ← first_of msgtyp (items q);
      if msgsz <? size m then Some (None, k)
      else Some (Some m, set_queue id (Queue (delete i (items q)) (sent q) (taken q ++ [(pid, m)])) k)
  end.
(** [msgctl] with [IPC_RMID]. *)
Definition msgctl_rmid (id : Z) (k : kern) : Z * kern :=
  match k_queues k !! id with
  | None => (-1, k)
  | Some q => (0, Kern (filter (λ x, x.2 ≠ id) (k_keys k)) (delete id (k_queues k)) (<[id := q]> (k_gone k)))
  end.

(** ** [lib_sysv_msg.c]

    [sysv_msgget] up to its first [msgget], which gives the result or leads to
    the second one with the key, and the second one; [ftok] is the key of the
    file [tok]. *)
Definition sysv_msgget (tok : bool) (ftok msg_fixkey : Z) (new : option Z) (k : kern) : (Z + Z) * kern :=
  if tok && (ftok =? -1) then (inl (-1), k)
  else
    let msg_key := if tok then ftok else msg_fixkey in
    let '(msg_id, eexist, k) := msgget_excl msg_key new k in
    if (msg_id =? -1) && eexist then (inr msg_key, k) else (inl msg_id, k).
Definition sysv_msgget_again (msg_key : Z) (k : kern) : Z := msgget_old msg_key k.
Definition sysv_msgrm (msg_id : Z) (k : kern) : Z * kern :=
  let '(r, k) := msgctl_rmid msg_id k in (if r =? -1 then -1 else 0, k).

(** ** The programs *)
Inductive variant : Set := Plain | Regex.
#[export] Instance variant_eq_dec : EqDecision variant.
Proof. solve_decision. Defined.

(** [sysv_msg.c]: the type is the first character; the text starts at the third
    and leaves out the last.  A negative length becomes a huge one in [memcpy]. *)
Definition plain_message (rbuf : list Z) : res mq_buf :=
  let len_mtext := Z.of_nat (length rbuf) - 3 in
  if len_mtext <? 0 then Err BadAccess
  else Ok (Msg (schar (rbuf !!! 0%nat) - 48) (take (Z.to_nat len_mtext) (drop 2 rbuf))).

(** [sysv_msg_regex.c]: the groups that [DEFAULT_REGEX_STR] matches, as long as
    they get, in the C locale. *)
Fixpoint span (p : Z → bool) (l : list Z) : list Z * list Z :=
  match l with
  | [] => ([], [])
  | c :: l' => if p c then let '(a, b) := span p l' in (c :: a, b) else ([], l)
  end.
Definition alpha_or_blank (c : Z) : bool :=
  ((97 <=? c) && (c <=? 122)) || ((65 <=? c) && (c <=? 90)) || (c =? 32).
Definition match_line (rbuf : list Z) : option (list Z * list Z) :=
  match span isdigit rbuf with
  | ((_ :: _) as ds, 44 :: rest) =>
      match span alpha_or_blank rest with ((_ :: _) as ws, _) => Some (ds, ws) | _ => None end
  | _ => None
  end.
(** The size of [mbuf], which also gets a NUL. *)
Definition MBUF_SIZE : nat := 10.
Definition regex_message (ds ws : list Z) : res mq_buf :=
  if decide (length ds < MBUF_SIZE ∧ length ws < Z.to_nat SZ_QUEUE)%nat then Ok (Msg (atoi ds) ws) else Err BadAccess.

Inductive pc : Set :=
| PGet                                   (* before the first [msgget] *)
| PGetOld (key : Z)                      (* before the second *)
| POpen                                  (* sender: before [fopen] *)
| PSend (file : list Z) (eof : bool)     (* in its loop *)
| PKey                                   (* before [getchar] *)
| PRecv                                  (* receiver: in its loop *)
| PRm                                    (* before [sysv_msgrm] *)
| PDone (status : Z)
| PFault (e : fault).
#[export] Instance msg_pc_eq_dec : EqDecision pc.
Proof. solve_decision. Defined.

(** A process with its arguments, the lines it has printed of messages it
    received, the file it reads, and whether it has sent all of it. *)
Record proc := Proc {
  argv1 : list Z; argv2 : list Z; at_ : pc; msg_id : Z; out : list (list Z); source : list Z; whole : bool
}.
Definition goto (p : pc) (x : proc) : proc := Proc (argv1 x) (argv2 x) p (msg_id x) (out x) (source x) (whole x).

(** [main] up to its first system call. *)
Definition start (argv : list (list Z)) : proc :=
  match argv with
  | [a1; a2] => Proc a1 a2 PGet 0 [] [] false
  | _ => Proc [] [] (PDone 1) 0 [] [] false
  end.
(** The first character of a string. *)
Definition first_char (s : list Z) : Z := default 0 (head s).
(** [main] from the result of [sysv_msgget] on, in [sysv_msg.c] and in
    [sysv_msg_regex.c], which calls the receiver a client. *)
Definition attach (id : Z) (p : pc) (x : proc) : proc := Proc (argv1 x) (argv2 x) p id (out x) (source x) (whole x).
Definition main (id : Z) (x : proc) : proc :=
  if id <? 0 then goto (PDone 1) x
  else
    let c := first_char (argv1 x) in
    attach id (if c =? 115 then POpen else if c =? 114 then PRecv else PDone 1) x.
Definition regex_main (id : Z) (x : proc) : proc :=
  if id <? 0 then goto (PDone 1) x
  else
    let c := first_char (argv1 x) in
    attach id (if c =? 115 then POpen else if c =? 99 then PRecv else PDone 1) x.
(** The argument of the receiver. *)
Definition recv_type (x : proc) : Z := schar (first_char (argv2 x)) - 48.

(** What the calls of a step answer, where the model leaves it open. *)
Inductive answer : Set :=
| AGet (ftok : Z) (new : option Z)
| AOpen (regcomp : bool) (fopen : option (list Z))
| ANone | ARegexecFails.

Section exec.
Context (v : variant) (lim : limits).

(** A file is opened, or not. *)
Definition opened (fopen : option (list Z)) (x : proc) : proc :=
  match fopen with
  | Some file => Proc (argv1 x) (argv2 x) (PSend file false) (msg_id x) (out x) file (whole x)
  | None => goto PKey x
  end.
(** The end of the file. *)
Definition finish (x : proc) : proc := Proc (argv1 x) (argv2 x) PKey (msg_id x) (out x) (source x) true.
(** [msgsnd] of a message, and what follows. *)
Definition send_message (r : res mq_buf) (rest : list Z) (eof : bool) (pid : nat) (x : proc) (k : kern) : proc * kern :=
  match r with
  | Err e => (goto (PFault e) x, k)
  | Ok m => let '(r, k) := msgsnd lim pid (msg_id x) m k in (goto (if r =? -1 then PKey else PSend rest eof) x, k)
  end.

(** [sysv_msg.c] *)
Definition start_msq_sender (a : answer) (pid : nat) (x : proc) (k : kern) : option (proc * kern) :=
  match at_ x, a with
  | POpen, AOpen _ fopen => Some (opened fopen x, k)
  | PSend file eof, ANone =>
      if eof then Some (finish x, k)
      else
        match fgets (Z.to_nat (SZ_QUEUE - 1)) file with
        | None => Some (finish x, k)
        | Some (line, rest, eof) => Some (send_message (plain_message (str line)) rest eof pid x k)
        end
  | _, _ => None
  end.
(** The text is printed up to its first NUL. *)
Definition start_msq_receiver (pid : nat) (x : proc) (k : kern) : option (proc * kern) :=
  '(r, k) ← msgrcv pid (msg_id x) SZ_QUEUE (recv_type x) k;
  match r with
  | None => Some (goto PRm x, k)
  | Some m => Some (Proc (argv1 x) (argv2 x) PRecv (msg_id x) (out x ++ [str (mtext m)]) (source x) (whole x), k)
  end.

(** [sysv_msg_regex.c], where [regcomp] comes before [fopen]. *)
Definition start_msq_server (a : answer) (pid : nat) (x : proc) (k : kern) : option (proc * kern) :=
  match at_ x, a with
  | POpen, AOpen regcomp fopen => Some (if regcomp : bool then opened fopen x else goto PKey x, k)
  | PSend file _, _ =>
      match fgets (Z.to_nat (SZ_QUEUE - 1)) file, a with
      | None, ANone => Some (finish x, k)
      | Some (line, rest, eof), ANone =>
          match match_line (str line) with
          | None => Some (goto (PSend rest eof) x, k)
          | Some (ds, ws) => Some (send_message (regex_message ds ws) rest eof pid x k)
          end
      | Some _, ARegexecFails => Some (goto PKey x, k)
      | _, _ => None
      end
  | _, _ => None
  end.
Definition start_msq_client (pid : nat) (x : proc) (k : kern) : option (proc * kern) :=
  '(r, k) ← msgrcv pid (msg_id x) SZ_QUEUE (recv_type x) k;
  match r with
  | None => Some (goto PRm x, k)
  | Some m => Some (Proc (argv1 x) (argv2 x) PRecv (msg_id x) (out x ++ [str (mtext m)]) (source x) (whole x), k)
  end.

Definition main_of (v : variant) : Z → proc → proc := match v with Plain => main | Regex => regex_main end.
Definition exec (a : answer) (pid : nat) (x : proc) (k : kern) : option (proc * kern) :=
  match at_ x, a with
  | PGet, AGet ftok new =>
      let '(r, k) := sysv_msgget true ftok 0 new k in
      Some (match r with inl id => main_of v id x | inr key => goto (PGetOld key) x end, k)
  | PGetOld key, ANone => Some (main_of v (sysv_msgget_again key k) x, k)
  | POpen, _ | PSend _ _, _ => match v with Plain => start_msq_sender | Regex => start_msq_server end a pid x k
  | PKey, ANone => Some (goto PRm x, k)
  | PRecv, ANone => match v with Plain => start_msq_receiver | Regex => start_msq_client end pid x k
  | PRm, ANone => let '(_, k) := sysv_msgrm (msg_id x) k in Some (goto (PDone 0) x, k)
  | _, _ => None
  end.

(** The processes and the system. *)
Definition step (s s' : list proc * kern) : Prop :=
  ∃ pid a x x' k', s.1 !! pid = Some x ∧ exec a pid x s.2 = Some (x', k') ∧ s' = (<[pid := x']> s.1, k').

Fixpoint run (ls : list (nat * answer)) (s : list proc * kern) : option (list proc * kern) :=
  match ls with
  | [] => Some s
  | (pid, a) :: ls => x ← s.1 !! pid; '(x', k) ← exec a pid x s.2; run ls (<[pid := x']> s.1, k)
  end.

(** No queue exists at first. *)
Definition start_state (argvs : list (list (list Z))) : list proc * kern := (start <$> argvs, Kern ∅ ∅ ∅).
Inductive reachable (argvs : list (list (list Z))) : list proc * kern → Prop :=
| reach_start : reachable argvs (start_state argvs)
| reach_step s s' : reachable argvs s → step s s' → reachable argvs s'.
End exec.
