(* ===== verification/MsgQueueProofs.v ===== *)
(** * Message queues: correctness

    What a sender puts into a queue are the messages of its file, in order; the
    messages of a type leave a queue in the order in which they were put in, each
    of them once; and what a receiver prints are the texts it took.  Together: a
    receiver that is alone with its type prints the lines of that type. *)

From stdpp Require Import base gmap list strings.
From Stdlib Require Import ZArith Lia.
From S2P Require Import Prelude Arrays PrefixCode ArraySearch DigitTrie FileLines MsgQueue.

Local Open Scope Z_scope.

(** ** What happened to a queue *)
Definition hist (k : kern) (id : Z) : option queue :=
  match k_queues k !! id with Some q => Some q | None => k_gone k !! id end.
Definition of_type (t : Z) (ms : list mq_buf) : list mq_buf := filter (λ m, mtype m = t) ms.
(** What a process put into a queue and took out of it. *)
Definition sent_by (pid : nat) (id : Z) (k : kern) : list mq_buf := from_option (λ q, by_pid pid (sent q)) [] (hist k id).
Definition taken_by (pid : nat) (id : Z) (k : kern) : list mq_buf := from_option (λ q, by_pid pid (taken q)) [] (hist k id).

(** The messages of each type, in the order in which they were sent, are those that
    were taken and those that are left. *)
Definition conserved (q : queue) : Prop :=
  ∀ t, of_type t (sent q).*2 = of_type t (taken q).*2 ++ of_type t (items q).

Record kern_ok (k : kern) : Prop := {
  ko_queues id q : hist k id = Some q → conserved q;
  ko_gone id : is_Some (k_gone k !! id) → k_queues k !! id = None
}.

Lemma of_type_app t l m : of_type t (l ++ m) = of_type t l ++ of_type t m.
Proof. apply filter_app. Qed.

Lemma of_type_nil t ms : Forall (λ m, mtype m ≠ t) ms → of_type t ms = [].
Proof. induction 1; [done|]. unfold of_type. by rewrite filter_cons_False. Qed.

(** A step of the system leaves the history of the others as it was. *)
Definition same_but (pid : nat) (id : Z) (s t : list mq_buf) (k k' : kern) : Prop :=
  (∀ pid' id', sent_by pid' id' k' = sent_by pid' id' k ++ (if decide (pid' = pid ∧ id' = id) then s else [])) ∧
  (∀ pid' id', taken_by pid' id' k' = taken_by pid' id' k ++ (if decide (pid' = pid ∧ id' = id) then t else [])).
Lemma msg_same_refl pid id k : same_but pid id [] [] k k.
Proof. split; intros; case_decide; by rewrite app_nil_r. Qed.

Lemma hist_set_queue id q k id' : hist (set_queue id q k) id' = if decide (id' = id) then Some q else hist k id'.
Proof. unfold hist, set_queue. simpl. case_decide as E; [by rewrite E, lookup_insert_eq|by rewrite lookup_insert_ne]. Qed.

Lemma msgget_excl_ok key new k id e k' pid : msgget_excl key new k = (id, e, k') → kern_ok k → kern_ok k' ∧ same_but pid 0 [] [] k k'.
Proof.
  unfold msgget_excl. intros E HK. assert (kern_ok k ∧ same_but pid 0 [] [] k k) by (split; [done|apply msg_same_refl]).
  destruct (if key =? 0 then None else k_keys k !! key); [by simplify_eq|].
  destruct new as [i|]; [|by simplify_eq]. case_decide as Hi; [|by simplify_eq]. injection E as <- <- <-.
  assert (∀ keys id', hist (Kern keys (<[i := Queue [] [] []]> (k_queues k)) (k_gone k)) id' = if decide (id' = i) then Some (Queue [] [] []) else hist k id') as Hh.
  { intros keys id'. unfold hist. simpl. case_decide as E; [by rewrite E, lookup_insert_eq|by rewrite lookup_insert_ne]. }
  destruct Hi as (Hi & Hq & Hg). split.
  - split.
    + intros id' q. rewrite Hh. case_decide; [by intros [= <-]|]. apply HK.
    + simpl. intros id' Hid. rewrite lookup_insert_ne; [by apply HK|]. intros <-. rewrite Hg in Hid. by destruct Hid.
  - assert (hist k i = None) as Hn by (unfold hist; by rewrite Hq).
    split; intros pid' id'; unfold sent_by, taken_by; rewrite Hh; case_decide as E; subst; rewrite ?Hn; simpl; case_decide; by rewrite ?app_nil_r.
Qed.

Lemma msgsnd_ok lim pid id m k r k' : msgsnd lim pid id m k = (r, k') → kern_ok k →
  kern_ok k' ∧ ((r = -1 ∧ k' = k) ∨ (r = 0 ∧ same_but pid id [m] [] k k')).
Proof.
  unfold msgsnd. intros E HK. destruct (k_queues k !! id) as [q|] eqn:Eq; [|simplify_eq; auto].
  destruct (mtype m <? 1); [simplify_eq; auto|]. destruct (msgmax lim <? size m); [simplify_eq; auto|].
  destruct (_ || _); [simplify_eq; auto|]. injection E as <- <-.
  assert (hist k id = Some q) as Hq by (unfold hist; by rewrite Eq). split.
  - split.
    + intros id' q'. rewrite hist_set_queue. case_decide; [|apply HK]. intros [= <-] t. simpl.
      rewrite fmap_app, !of_type_app, (ko_queues _ HK _ _ Hq t). simpl. by rewrite (assoc_L app).
    + simpl. intros id' Hid. rewrite lookup_insert_ne; [by apply HK|]. intros <-. by rewrite (ko_gone _ HK _ Hid) in Eq.
  - right. split; [done|]. split; intros pid' id'; unfold sent_by, taken_by; rewrite hist_set_queue.
    + case_decide as E; [subst; rewrite Hq; simpl; rewrite by_pid_snoc|rewrite (decide_False (P := _ ∧ _)) by tauto; by rewrite app_nil_r].
      f_equal. repeat case_decide; tauto || naive_solver.
    + repeat case_decide; subst; rewrite ?Hq, ?app_nil_r; done.
Qed.

Lemma first_of_split msgtyp ms i m : first_of msgtyp ms = Some (i, m) →
  (∀ t, of_type t ms = (if decide (mtype m = t) then [m] else []) ++ of_type t (delete i ms)) ∧
  (0 < msgtyp → mtype m = msgtyp).
Proof.
  unfold first_of. destruct (type_for msgtyp ms) as [t0|] eqn:E; [|done]. simpl.
  intros (Hi & Ht & Hbefore)%list_find_Some. split.
  - intros t. rewrite <-(take_drop_middle ms i m Hi) at 1. rewrite delete_take_drop. rewrite !of_type_app.
    unfold of_type at 2. destruct (decide (mtype m = t)) as [Hm|Hm].
    + rewrite filter_cons_True by done. assert (of_type t (take i ms) = []) as ->; [|done].
      apply of_type_nil. apply Forall_forall. intros x (j & Hx)%list_elem_of_lookup.
      apply lookup_take_Some in Hx as [Hx Hj]. intros Hxt. apply (Hbefore j x Hx Hj). congruence.
    + by rewrite filter_cons_False by done.
  - intros Hp. unfold type_for in E. destruct (Z.eqb_spec msgtyp 0); [lia|]. destruct (Z.ltb_spec 0 msgtyp); [|lia]. congruence.
Qed.

Lemma msgrcv_ok pid id sz typ k r k' : msgrcv pid id sz typ k = Some (r, k') → kern_ok k →
  kern_ok k' ∧ same_but pid id [] (option_list r) k k' ∧ (∀ m, r = Some m → 0 < typ → mtype m = typ).
Proof.
  unfold msgrcv. intros E HK. destruct (k_queues k !! id) as [q|] eqn:Eq; [|simplify_eq; split_and!; [done|apply msg_same_refl|done]].
  destruct (first_of typ (items q)) as [[i m]|] eqn:Ef; [|done]. simpl in E.
  destruct (sz <? size m); simplify_eq; [split_and!; [done|apply msg_same_refl|done]|].
  assert (hist k id = Some q) as Hq by (unfold hist; by rewrite Eq). destruct (first_of_split _ _ _ _ Ef) as [Hs Ht].
  split_and!.
  - split.
    + intros id' q'. rewrite hist_set_queue. case_decide; [|apply HK]. intros [= <-] t. simpl.
      rewrite fmap_app, !of_type_app, (ko_queues _ HK _ _ Hq t), (Hs t), (assoc_L app). done.
    + simpl. intros id' Hid. rewrite lookup_insert_ne; [by apply HK|]. intros <-. by rewrite (ko_gone _ HK _ Hid) in Eq.
  - split; intros pid' id'; unfold sent_by, taken_by; rewrite hist_set_queue.
    + repeat case_decide; subst; rewrite ?Hq, ?app_nil_r; done.
    + case_decide as E; [subst; rewrite Hq; simpl; rewrite by_pid_snoc|rewrite (decide_False (P := _ ∧ _)) by tauto; by rewrite app_nil_r].
      f_equal. repeat case_decide; tauto || naive_solver.
  - intros m' [= <-]. done.
Qed.

Lemma msgctl_ok id r k k' pid : msgctl_rmid id k = (r, k') → kern_ok k → kern_ok k' ∧ same_but pid 0 [] [] k k'.
Proof.
  unfold msgctl_rmid. intros E HK. destruct (k_queues k !! id) as [q|] eqn:Eq; [|simplify_eq; split; [done|apply msg_same_refl]].
  injection E as <- <-.
  assert (∀ keys id', hist (Kern keys (delete id (k_queues k)) (<[id := q]> (k_gone k))) id' = hist k id') as Hh.
  { intros keys id'. unfold hist. simpl. destruct (decide (id' = id)) as [->|].
    - by rewrite lookup_delete_eq, lookup_insert_eq, Eq.
    - by rewrite lookup_delete_ne, lookup_insert_ne. }
  split.
  - split.
    + intros id' q'. rewrite Hh. apply HK.
    + simpl. intros id' Hid. destruct (decide (id' = id)) as [->|]; [by rewrite lookup_delete_eq|].
      rewrite lookup_insert_ne in Hid by done. rewrite lookup_delete_ne by done. by apply HK.
  - split; intros pid' id'; unfold sent_by, taken_by; rewrite Hh; case_decide; by rewrite app_nil_r.
Qed.

(** ** The messages of a file *)

(** What a line becomes; [None] for a line that is skipped. *)
Definition next_message (v : variant) (rbuf : list Z) : option (res mq_buf) :=
  match v with
  | Plain => Some (plain_message rbuf)
  | Regex => '(ds, ws) ← match_line rbuf; Some (regex_message ds ws)
  end.

Section proofs.
Context (v : variant) (lim : limits).

(** Up to the first line that ends the sender. *)
Definition next_item (l : list Z) : option (option mq_buf) :=
  (λ r, match r with Ok m => Some m | Err _ => None end) <$> next_message v l.
Abbreviation msgs_from := (items_from (bool_decide (v = Plain)) next_item).
Definition file_msgs (file : list Z) : list mq_buf := file_items (bool_decide (v = Plain)) next_item file.

(** ** What a process did *)
Definition early (p : pc) : Prop := match p with PGet | PGetOld _ | POpen => True | _ => False end.
Definition made (x : proc) (s : list mq_buf) : Prop :=
  match at_ x with
  | PSend file eof => s ++ msgs_from file eof = file_msgs (source x) ∧ whole x = false
  | PGet | PGetOld _ | POpen => s = [] ∧ whole x = false
  | _ => s `prefix_of` file_msgs (source x) ∧ (whole x = true → s = file_msgs (source x))
  end.
Record proc_ok (k : kern) (pid : nat) (x : proc) : Prop := {
  po_other id : id ≠ msg_id x ∨ early (at_ x) → sent_by pid id k = [] ∧ taken_by pid id k = [];
  po_made : made x (sent_by pid (msg_id x) k);
  po_out : out x = (λ m, str (mtext m)) <$> taken_by pid (msg_id x) k;
  po_type : 0 < recv_type x → Forall (λ m, mtype m = recv_type x) (taken_by pid (msg_id x) k)
}.

Lemma msg_made_prefix x s : made x s → s `prefix_of` file_msgs (source x) ∧ (whole x = true → s = file_msgs (source x)).
Proof.
  unfold made. destruct (at_ x); try done; intros [H ->]; subst; (split; [|done]); try apply prefix_nil.
  rewrite <-H. by apply prefix_app_r.
Qed.
Lemma msg_proc_ok_same k k' pid x : proc_ok k pid x →
  (∀ id, sent_by pid id k' = sent_by pid id k ∧ taken_by pid id k' = taken_by pid id k) → proc_ok k' pid x.
Proof.
  intros [Ho Hm Hu Ht] Hs. split.
  - intros id Hid. destruct (Hs id) as [-> ->]. by apply Ho.
  - by rewrite (proj1 (Hs _)).
  - by rewrite (proj2 (Hs _)).
  - by rewrite (proj2 (Hs _)).
Qed.
Lemma msg_proc_ok_goto k pid x p : proc_ok k pid x →
  match p with PKey | PRecv | PRm | PDone _ | PFault _ => True | _ => False end → proc_ok k pid (goto p x).
Proof.
  intros [Ho Hm Hu Ht] Hp. split; [|apply msg_made_prefix in Hm; by destruct p|done|done].
  simpl. intros id [Hid|Hid]; [apply Ho; by left|by destruct p].
Qed.
Lemma same_nil pid id k k' pid' : same_but pid id [] [] k k' →
  ∀ id', sent_by pid' id' k' = sent_by pid' id' k ∧ taken_by pid' id' k' = taken_by pid' id' k.
Proof. intros [Hs Ht] id'. rewrite Hs, Ht. case_decide; by rewrite !app_nil_r. Qed.
Lemma same_other pid id s t k k' pid' : same_but pid id s t k k' → pid' ≠ pid →
  ∀ id', sent_by pid' id' k' = sent_by pid' id' k ∧ taken_by pid' id' k' = taken_by pid' id' k.
Proof. intros [Hs Ht] Hp id'. rewrite Hs, Ht. rewrite !decide_False by tauto. by rewrite !app_nil_r. Qed.

Lemma msg_proc_ok_start k pid x : (∀ id, sent_by pid id k = [] ∧ taken_by pid id k = []) →
  out x = [] → whole x = false → (early (at_ x) ∨ ∃ c, at_ x = PDone c ∨ at_ x = PRecv) → proc_ok k pid x.
Proof.
  intros Hn Ho Hw Hp. split.
  - intros id _. apply Hn.
  - rewrite (proj1 (Hn _)). unfold made. destruct Hp as [Hp|(c & [->| ->])].
    + by destruct (at_ x).
    + split; [apply prefix_nil|by rewrite Hw].
    + split; [apply prefix_nil|by rewrite Hw].
  - by rewrite (proj2 (Hn _)), Ho.
  - rewrite (proj2 (Hn _)). by constructor.
Qed.
Lemma proc_ok_main k pid id x : proc_ok k pid x → match at_ x with PGet | PGetOld _ => True | _ => False end →
  proc_ok k pid (main_of v id x).
Proof.
  intros [Ho Hm Hu Ht] Hp. assert (∀ id, sent_by pid id k = [] ∧ taken_by pid id k = []) as Hn.
  { intros id'. apply Ho. right. by destruct (at_ x). }
  assert (out x = []) by (by rewrite Hu, (proj2 (Hn _))).
  assert (whole x = false) by (unfold made in Hm; destruct (at_ x); tauto).
  assert (∀ p, early p ∨ p = PDone 1 ∨ p = PRecv → proc_ok k pid (attach id p x) ∧ proc_ok k pid (goto (PDone 1) x)) as Hat.
  { intros p Hpp. split; apply msg_proc_ok_start; try done; simpl; [|right; exists 1; by left].
    destruct Hpp as [?|[-> | ->]]; [by left|right; exists 1; by left|right; exists 1; by right]. }
  unfold main_of. destruct v; unfold main, regex_main; (destruct (id <? 0); [by apply (Hat PRecv); auto|]); apply Hat.
  - destruct (_ =? 115); [by left|]. destruct (_ =? 114); [by right; right|by right; left].
  - destruct (_ =? 115); [by left|]. destruct (_ =? 99); [by right; right|by right; left].
Qed.

(** The steps of a process. *)
Definition step_ok (pid : nat) (k k' : kern) (x' : proc) : Prop :=
  kern_ok k' ∧ proc_ok k' pid x' ∧ ∃ id s t, same_but pid id s t k k'.
Lemma msg_step_ok_same pid k x' : kern_ok k → proc_ok k pid x' → step_ok pid k k x'.
Proof. intros HK HP. split_and!; [done..|]. exists 0, [], []. apply msg_same_refl. Qed.
Lemma msg_step_ok_nil pid k k' x' : kern_ok k' → proc_ok k pid x' → same_but pid 0 [] [] k k' → step_ok pid k k' x'.
Proof.
  intros HK HP Hs. split_and!; [done| |by exists 0, [], []]. eapply msg_proc_ok_same; [done|]. by eapply same_nil.
Qed.

Lemma finish_ok pid x k file eof : kern_ok k → proc_ok k pid x → at_ x = PSend file eof → msgs_from file eof = [] →
  step_ok pid k k (finish x).
Proof.
  intros HK [Ho Hm Hu Ht] Ep Hn. unfold made in Hm. rewrite Ep, Hn, app_nil_r in Hm. destruct Hm as [Hm _].
  apply msg_step_ok_same; [done|]. split; [|by unfold made; simpl; rewrite Hm|done|done].
  simpl. intros id [Hid|[]]. apply Ho. by left.
Qed.
Lemma msg_opened_ok pid x k fopen : kern_ok k → proc_ok k pid x → at_ x = POpen → step_ok pid k k (opened fopen x).
Proof.
  intros HK HP Ep. apply msg_step_ok_same; [done|]. destruct fopen as [file|]; [|by apply msg_proc_ok_goto].
  destruct HP as [Ho Hm Hu Ht]. assert (early (at_ x)) as He by by rewrite Ep. split; simpl; [|unfold made in *; rewrite Ep in Hm|done|done].
  - intros id _. apply Ho. by right.
  - simpl. destruct Hm as [-> ?]. done.
Qed.
(** The line that was read becomes a message, is skipped, or ends the loop. *)
Lemma line_step_ok pid x k file eof line rest e :
  kern_ok k → proc_ok k pid x → at_ x = PSend file eof → bool_decide (v = Plain) && eof = false →
  fgets (Z.to_nat (SZ_QUEUE - 1)) file = Some (line, rest, e) →
  match next_message v (str line) with
  | None => step_ok pid k k (goto (PSend rest e) x)
  | Some r => step_ok pid k (send_message lim r rest e pid x k).2 (send_message lim r rest e pid x k).1
  end.
Proof.
  intros HK HP Ep Est Ef. pose proof (po_made _ _ _ HP) as Hm. unfold made in Hm. rewrite Ep in Hm. destruct Hm as [Hm Hw].
  rewrite items_from_step, Est, Ef in Hm.
  assert (∀ k', (∀ id, id ≠ msg_id x → sent_by pid id k' = sent_by pid id k) → (∀ id, taken_by pid id k' = taken_by pid id k) →
            sent_by pid (msg_id x) k' ++ msgs_from rest e = file_msgs (source x) → proc_ok k' pid (goto (PSend rest e) x)) as Hgo.
  { intros k1 Hs1 Ht1 Hm1. destruct HP as [Ho _ Hu Ht]. split; simpl; [|done|by rewrite Ht1..].
    intros id [Hid|[]]. rewrite Hs1, Ht1 by done. apply Ho. by left. }
  pose proof (eq_refl (next_item (str line))) as Hn. unfold next_item at 2 in Hn.
  destruct (next_message v (str line)) as [[m|f]|]; cbn [fmap option_fmap option_map] in Hn; rewrite Hn in Hm; clear Hn.
  - unfold send_message. destruct (msgsnd lim pid (msg_id x) m k) as [r k1] eqn:Es.
    destruct (msgsnd_ok _ _ _ _ _ _ _ Es HK) as [HK1 [[-> ->]|[-> Hs]]].
    + apply msg_step_ok_same; [done|by apply msg_proc_ok_goto].
    + split_and!; [done| |by eexists _, _, _]. destruct Hs as [Hs Ht]. apply Hgo.
      * intros id Hid. rewrite Hs, decide_False by tauto. apply app_nil_r.
      * intros id. rewrite Ht. destruct (decide _); apply app_nil_r.
      * rewrite Hs, decide_True by done. by rewrite <-(assoc_L app).
  - apply msg_step_ok_same; [done|by apply msg_proc_ok_goto].
  - apply msg_step_ok_same; [done|]. by apply Hgo.
Qed.

Lemma send_ok a pid x k x' k' :
  (match v with Plain => start_msq_sender lim | Regex => start_msq_server lim end) a pid x k = Some (x', k') →
  kern_ok k → proc_ok k pid x → step_ok pid k k' x'.
Proof.
  intros E HK HP.
  assert (∀ file eof, at_ x = PSend file eof → bool_decide (v = Plain) && eof = false → fgets (Z.to_nat (SZ_QUEUE - 1)) file = None →
            step_ok pid k k (finish x)) as Hend.
  { intros file eof Ep Est Ef. eapply finish_ok; [done..|]. by rewrite items_from_step, Est, Ef. }
  destruct v eqn:Ev; unfold start_msq_sender, start_msq_server in E.
  - destruct (at_ x) as [| | |file eof| | | | |] eqn:Ep; try done.
    + destruct a; try done. injection E as <- <-. by apply msg_opened_ok.
    + destruct a; try done. destruct eof; [injection E as <- <-; eapply finish_ok; [done..|]; by rewrite items_from_step, Ev|].
      destruct (fgets _ file) as [[[line rest] e]|] eqn:Ef; injection E as E; [|simplify_eq; by eapply Hend].
      pose proof (line_step_ok pid x k file false line rest e HK HP Ep (andb_false_r _) Ef) as H. rewrite Ev in H. simpl in H. by rewrite E in H.
  - destruct (at_ x) as [| | |file eof| | | | |] eqn:Ep; try done.
    + destruct a as [|regcomp fopen| |]; try done. injection E as <- <-. destruct regcomp; [by apply msg_opened_ok|].
      apply msg_step_ok_same; [done|by apply msg_proc_ok_goto].
    + destruct (fgets _ file) as [[[line rest] e]|] eqn:Ef; destruct a; try done; simplify_eq.
      * pose proof (line_step_ok pid x k file eof line rest e HK HP Ep ltac:(by rewrite Ev) Ef) as H. rewrite Ev in H. simpl in H.
        destruct (match_line (str line)) as [[ds ws]|]; simpl in H; injection E as E; [by rewrite E in H|by simplify_eq].
      * apply msg_step_ok_same; [done|by apply msg_proc_ok_goto].
      * by eapply Hend.
Qed.

Lemma recv_ok pid x k x' k' : (match v with Plain => start_msq_receiver | Regex => start_msq_client end) pid x k = Some (x', k') → at_ x = PRecv → kern_ok k → proc_ok k pid x →
  step_ok pid k k' x'.
Proof.
  intros E Ep HK HP. assert (start_msq_receiver pid x k = Some (x', k')) as E1 by by destruct v. clear E. rename E1 into E. unfold start_msq_receiver in E.
  destruct (msgrcv pid (msg_id x) SZ_QUEUE (recv_type x) k) as [[r k1]|] eqn:Er; [|done]. simpl in E.
  destruct (msgrcv_ok _ _ _ _ _ _ _ Er HK) as (HK1 & Hs & Hty). destruct r as [m|]; simplify_eq.
  - split_and!; [done| |by eexists _, _, _]. destruct Hs as [Hs Ht]. pose proof HP as [Ho Hm Hu Htt]. split; simpl.
    + intros id [Hid|[]]. rewrite Hs, Ht, !decide_False, !app_nil_r by tauto. apply Ho. by left.
    + rewrite Hs, decide_True by done. rewrite app_nil_r. unfold made in *. rewrite Ep in Hm. done.
    + rewrite Ht, decide_True by done. simpl. by rewrite fmap_app, Hu.
    + rewrite Ht, decide_True by done. intros Hp. apply Forall_app. split; [by apply Htt|]. constructor; [by apply Hty|done].
  - split_and!; [done| |by eexists _, _, _]. apply msg_proc_ok_goto; [|done]. eapply msg_proc_ok_same; [done|]. by eapply same_nil.
Qed.

Lemma msg_exec_ok a pid x k x' k' : exec v lim a pid x k = Some (x', k') → kern_ok k → proc_ok k pid x → step_ok pid k k' x'.
Proof.
  intros E HK HP. unfold exec in E. destruct (at_ x) as [|key| |file eof| | | | |] eqn:Ep.
  - destruct a as [ft new| | |]; try done. destruct (sysv_msgget true ft 0 new k) as [r k1] eqn:Eg. injection E as <- <-.
    assert (kern_ok k1 ∧ same_but pid 0 [] [] k k1) as [HK1 Hs1].
    { revert Eg. unfold sysv_msgget. destruct (_ && _); [intros [= <- <-]; split; [done|apply msg_same_refl]|].
      destruct (msgget_excl _ new k) as [[i b] k2] eqn:Ex. pose proof (msgget_excl_ok _ _ _ _ _ _ pid Ex HK).
      destruct (_ && _); by intros [= <- <-]. }
    apply msg_step_ok_nil; [done| |done]. destruct r as [id|key]; [by apply proc_ok_main; [|rewrite Ep]|].
    destruct HP as [Ho Hm Hu Ht]. split; [|unfold made in *; rewrite Ep in Hm; done|done|done].
    intros id _. apply Ho. right. by rewrite Ep.
  - destruct a; try done. injection E as <- <-. apply msg_step_ok_same; [done|]. apply proc_ok_main; [done|by rewrite Ep].
  - by eapply send_ok.
  - by eapply send_ok.
  - destruct a; try done. injection E as <- <-. apply msg_step_ok_same; [done|by apply msg_proc_ok_goto].
  - destruct a; try done. by eapply recv_ok.
  - destruct a; try done. destruct (sysv_msgrm (msg_id x) k) as [r k1] eqn:Er. injection E as <- <-.
    unfold sysv_msgrm in Er. destruct (msgctl_rmid (msg_id x) k) as [r' k2] eqn:Ec. injection Er as <- <-.
    destruct (msgctl_ok _ _ _ _ pid Ec HK) as [HK1 Hs1]. apply msg_step_ok_nil; [done|by apply msg_proc_ok_goto|done].
  - by destruct a.
  - by destruct a.
Qed.
End proofs.

(** Every reachable state. *)
Lemma msg_reachable_ok v lim argvs s : reachable v lim argvs s →
  kern_ok s.2 ∧ ∀ pid x, s.1 !! pid = Some x → proc_ok v s.2 pid x.
Proof.
  induction 1 as [|s s' Hr [HK HP] (pid & a & x & x' & k' & Hx & E & ->)]; simpl.
  - split.
    + split; [|by intros id [? ?]]. intros id q. unfold hist. simpl. by rewrite !lookup_empty.
    + intros pid x Hx. apply list_lookup_fmap_Some in Hx as (argv & -> & _). apply msg_proc_ok_start.
      * intros id. unfold sent_by, taken_by, hist. simpl. by rewrite !lookup_empty.
      * unfold start. by repeat case_match.
      * unfold start. by repeat case_match.
      * unfold start. repeat case_match; simpl; eauto.
  - destruct (msg_exec_ok _ _ _ _ _ _ _ _ E HK (HP _ _ Hx)) as (HK' & HP' & id & l & r & Hs). split; [done|].
    intros pid' y Hy. destruct (decide (pid' = pid)) as [->|Hne].
    + rewrite list_lookup_insert_eq in Hy by by eapply lookup_lt_Some. by injection Hy as <-.
    + rewrite list_lookup_insert_ne in Hy by done. eapply msg_proc_ok_same; [by apply HP|]. by eapply same_other.
Qed.

(** In every reachable state of any senders and receivers: for each queue,
    also a removed one, the messages of a type that were put in are, in the same
    order, those that were taken out and those that are left; what a process has
    put in are the first messages of its file, and all of them once it got to the
    end of the file; what a process has printed are the texts of the messages it
    took, which have the type that it asked for. *)
Theorem messages_delivered v lim argvs s : reachable v lim argvs s →
  (∀ id q, hist s.2 id = Some q → conserved q) ∧
  ∀ pid x, s.1 !! pid = Some x →
    sent_by pid (msg_id x) s.2 `prefix_of` file_msgs v (source x) ∧
    (whole x = true → sent_by pid (msg_id x) s.2 = file_msgs v (source x)) ∧
    out x = (λ m, str (mtext m)) <$> taken_by pid (msg_id x) s.2 ∧
    (0 < recv_type x → Forall (λ m, mtype m = recv_type x) (taken_by pid (msg_id x) s.2)).
Proof.
  intros Hr. destruct (msg_reachable_ok _ _ _ _ Hr) as [HK HP]. split; [apply HK|]. intros pid x Hx.
  destruct (HP _ _ Hx) as [_ Hm Hu Ht]. by destruct (msg_made_prefix _ _ _ Hm).
Qed.

(** ** Files that list messages *)
Definition print_body (v : variant) (m : mq_buf) : list Z :=
  (match v with Plain => [48 + mtype m] | Regex => fmt_d (mtype m) end) ++ 44 :: mtext m.
Definition print_msg (v : variant) (m : mq_buf) : list Z := print_body v m ++ [10].
Definition line_ok (v : variant) (m : mq_buf) : Prop :=
  Z.of_nat (length (print_msg v m)) < SZ_QUEUE ∧
  match v with
  | Plain => 1 ≤ mtype m ≤ 9 ∧ 0 ∉ mtext m ∧ 10 ∉ mtext m
  | Regex => 0 ≤ mtype m < 10 ^ 9 ∧ mtext m ≠ [] ∧ Forall (λ c, alpha_or_blank c = true) (mtext m)
  end.

(** Numbers, as [atoi] reads them. *)
Lemma atol_dec_digits fuel z tl : 0 ≤ z < 10 ^ Z.of_nat fuel → atol_digits 0 (dec_digits fuel z tl) = atol_digits z tl.
Proof.
  revert z tl. induction fuel as [|fuel IH]; intros z tl Hz; [change (10 ^ Z.of_nat 0) with 1 in Hz; simpl; by replace z with 0 by lia|].
  cbn [dec_digits]. pose proof (Z.mod_pos_bound z 10 ltac:(lia)).
  assert (∀ acc, atol_digits acc ((48 + z mod 10) :: tl) = atol_digits (acc * 10 + z mod 10) tl) as Hs.
  { intros acc. cbn [atol_digits]. unfold isdigit. rewrite !(proj2 (Z.leb_le _ _)) by lia. cbn [andb]. f_equal. lia. }
  destruct (Z.ltb_spec z 10).
  - rewrite Hs. f_equal. rewrite Z.mod_small by lia. lia.
  - rewrite IH, Hs; [f_equal; pose proof (Z.div_mod z 10); lia|].
    rewrite Nat2Z.inj_succ, Z.pow_succ_r in Hz by lia. split; [apply Z.div_pos; lia|apply Z.div_lt_upper_bound; lia].
Qed.
Lemma atoi_fmt_d z : 0 ≤ z < 10 ^ 9 → atoi (fmt_d z) = z.
Proof.
  intros Hz. pose proof (fmt_d_digit z ltac:(lia)) as Hd. pose proof (fmt_d_pos z) as Hl. unfold atoi.
  assert (atol_digits 0 (fmt_d z) = z) as E.
  { unfold fmt_d. rewrite (proj2 (Z.ltb_ge z 0)) by lia. apply (atol_dec_digits 20). lia. }
  destruct (fmt_d z) as [|c s]; [simpl in Hl; lia|]. apply Forall_cons in Hd as [Hc _].
  assert (atol (c :: s) = z) as ->; [|by apply i32_small; unfold is_int, INT_MIN, INT_MAX; lia].
  unfold digit in Hc. cbn [atol]. assert (isspace c = false) as -> by (unfold isspace; lia).
  rewrite !(proj2 (Z.eqb_neq c _)), E by lia. unfold LONG_MAX. lia.
Qed.

Lemma span_ok p l c rest : Forall (λ x, p x = true) l → p c = false → span p (l ++ c :: rest) = (l, c :: rest).
Proof.
  intros Hl Hc. induction Hl as [|x l Hx Hl IH]; simpl; [by rewrite Hc|]. by rewrite Hx, IH.
Qed.
Lemma digit_isdigit l : Forall digit l → Forall (λ c, isdigit c = true) l.
Proof. intros Hl. eapply Forall_impl; [exact Hl|]. unfold digit, isdigit. intros x Hx. apply andb_true_iff. lia. Qed.

Lemma print_body_chars v m c : line_ok v m → c ∈ print_body v m → c ≠ 0 ∧ c ≠ 10.
Proof.
  unfold print_body. destruct v; intros [_ (Ht & Hx & Hy)].
  - rewrite elem_of_app, list_elem_of_singleton, elem_of_cons. intros [->|[->|Hc]]; [lia|lia|split; congruence].
  - rewrite Forall_forall in Hy. rewrite elem_of_app, elem_of_cons. intros [Hc|[->|Hc]]; [|lia|].
    + pose proof (fmt_d_digit (mtype m) ltac:(lia)) as Hd. rewrite Forall_forall in Hd. specialize (Hd c Hc).
      unfold digit in Hd. lia.
    + specialize (Hy c Hc). unfold alpha_or_blank in Hy. lia.
Qed.
Lemma next_print v m : line_ok v m → next_message v (str (print_msg v m)) = Some (Ok m).
Proof.
  intros Hm. unfold print_msg. rewrite str_id.
  2: { rewrite elem_of_app, list_elem_of_singleton. intros [H0|?]; [|done]. by apply (print_body_chars v m) in H0 as []. }
  destruct m as [t x]. destruct v; destruct Hm as [Hl (Ht & Hx & Hy)]; unfold print_body in *; simpl in Ht, Hx, Hy; cbn [mtype mtext].
  - unfold next_message, plain_message. cbn [app length].
    rewrite length_app. cbn [length]. rewrite (proj2 (Z.ltb_ge _ 0)) by lia. f_equal. f_equal.
    f_equal; [change (schar (48 + t) - 48 = t); rewrite schar_small; lia|].
    cbn [drop]. replace (Z.to_nat _) with (length x) by lia. by rewrite drop_0, take_app_length.
  - unfold next_message, match_line. rewrite <-(assoc_L app). simpl app at 2.
    rewrite span_ok by (done || by apply digit_isdigit, fmt_d_digit; lia).
    pose proof (fmt_d_pos t) as Hp. destruct (fmt_d t) as [|d ds] eqn:Ed; [simpl in Hp; lia|].
    rewrite span_ok by done. destruct x as [|w x]; [done|]. cbn [mbind option_bind]. f_equal. unfold regex_message.
    rewrite <-Ed, atoi_fmt_d by done. rewrite decide_True; [done|]. pose proof (fmt_d_length t 8 ltac:(lia)).
    unfold print_msg, print_body in Hl. cbn [mtype mtext] in Hl. rewrite !length_app in Hl. cbn [length] in Hl.
    unfold MBUF_SIZE. cbn [length]. lia.
Qed.

(** A file that lists messages, a line each, becomes these messages. *)
Theorem file_roundtrip v ms : Forall (line_ok v) ms → file_msgs v (ms ≫= print_msg v) = ms.
Proof.
  intros Hms. apply file_items_print. eapply Forall_impl; [exact Hms|]. intros m Hm. split_and!.
  - intros H10. by apply (print_body_chars v m) in H10 as [].
  - destruct Hm as [Hl _]. unfold print_msg in Hl. rewrite length_app in Hl. cbn [length] in Hl. lia.
  - unfold next_item. pose proof (next_print v m Hm) as E. unfold print_msg in E. by rewrite E.
Qed.

(** ** From the file to the receiver *)
Lemma of_type_by_pid pid t l : (∀ e, e ∈ l → mtype e.2 = t → e.1 = pid) → of_type t l.*2 = of_type t (by_pid pid l).
Proof.
  unfold of_type, by_pid. induction l as [|[p m] l IH]; intros Hl; [done|]. rewrite fmap_cons.
  assert (∀ e, e ∈ l → mtype e.2 = t → e.1 = pid) as Hl' by (intros; apply Hl; [by right|done]).
  destruct (decide (p = pid)) as [->|Hp].
  - rewrite (filter_cons_True (λ e, e.1 = pid)) by done. rewrite fmap_cons. simpl.
    destruct (decide (mtype m = t)); [rewrite !filter_cons_True by done; by rewrite IH|rewrite !filter_cons_False by done; by apply IH].
  - rewrite (filter_cons_False (λ e, e.1 = pid)) by done. rewrite filter_cons_False; [by apply IH|].
    intros Hm. by apply Hp, (Hl (p, m)); [left|].
Qed.
Lemma of_type_all t ms : Forall (λ m, mtype m = t) ms → of_type t ms = ms.
Proof. induction 1; [done|]. unfold of_type in *. rewrite filter_cons_True by done. by f_equal. Qed.

Lemma line_ok_str v m : line_ok v m → str (mtext m) = mtext m.
Proof.
  intros Hm. apply str_id. intros H0. assert (0 ∈ print_body v m) as H; [|by apply (print_body_chars v m) in H as []].
  unfold print_body. rewrite elem_of_app, elem_of_cons. by right; right.
Qed.

(** C36. When a sender has sent the whole of a file that lists messages, and the
    messages of some type in its queue are all its own and only one receiver
    takes them, then this receiver has printed the texts of the messages of that
    type in the file, in their order, but for those that are still in the queue. *)
Theorem receiver_prints_lines v lim argvs s q i xi j xj ms :
  reachable v lim argvs s →
  s.1 !! i = Some xi → whole xi = true → source xi = ms ≫= print_msg v → Forall (line_ok v) ms →
  s.1 !! j = Some xj → msg_id xj = msg_id xi → 0 < recv_type xj →
  hist s.2 (msg_id xi) = Some q →
  (∀ e, e ∈ sent q → mtype e.2 = recv_type xj → e.1 = i) → (∀ e, e ∈ taken q → mtype e.2 = recv_type xj → e.1 = j) →
  out xj ++ (mtext <$> of_type (recv_type xj) (items q)) = mtext <$> of_type (recv_type xj) ms.
Proof.
  intros Hr Hi Hw Hsrc Hms Hj Hid Hp Hq Hs Ht. destruct (messages_delivered _ _ _ _ Hr) as [Hc HP].
  destruct (HP _ _ Hi) as (_ & Hall & _). destruct (HP _ _ Hj) as (_ & _ & Hout & Hty).
  specialize (Hall Hw). specialize (Hty Hp). rewrite Hid in Hout, Hty. rewrite Hsrc, file_roundtrip in Hall by done.
  unfold sent_by, taken_by in *. rewrite Hq in *. simpl in *.
  pose proof (Hc _ _ Hq (recv_type xj)) as Hcq.
  rewrite (of_type_by_pid i _ _ Hs), (of_type_by_pid j _ _ Ht), Hall, (of_type_all _ _ Hty) in Hcq.
  rewrite Hcq, fmap_app. f_equal. rewrite Hout. apply list_fmap_ext. intros k m Hm. apply (line_ok_str v).
  eapply Forall_forall; [exact Hms|]. assert (m ∈ of_type (recv_type xj) ms) as Hin.
  { rewrite Hcq. apply elem_of_app. left. by eapply list_elem_of_lookup_2. }
  unfold of_type in Hin. by apply list_elem_of_filter in Hin as [_ ?].
Qed.

(** ** What ends a sender *)
Definition bad_line (v : variant) (l : list Z) : Prop :=
  match v with
  | Plain => (length l < 3)%nat
  | Regex => ∃ ds ws, match_line l = Some (ds, ws) ∧ (MBUF_SIZE ≤ length ds)%nat
  end.

Lemma span_length p l a b : span p l = (a, b) → (length a + length b = length l)%nat.
Proof.
  revert a b. induction l as [|c l IH]; simpl; intros a b; [by intros [= <- <-]|].
  destruct (p c); [|by intros [= <- <-]]. destruct (span p l) as [a' b'] eqn:E. intros [= <- <-].
  simpl. by rewrite (IH a' b').
Qed.
Lemma match_line_length l ds ws : match_line l = Some (ds, ws) → (length ds + length ws < length l)%nat.
Proof.
  unfold match_line. destruct (span isdigit l) as [a b] eqn:E. apply span_length in E.
  destruct a as [|d ds']; [done|]. destruct b as [|c rest]; [done|].
  destruct (decide (c = 44)) as [->|Hc].
  - destruct (span alpha_or_blank rest) as [x y] eqn:E2. apply span_length in E2. destruct x; [done|].
    intros [= <- <-]. simpl in *. lia.
  - intros H. exfalso. repeat (case_match; try done).
Qed.
Lemma next_message_bad v l : (length l ≤ Z.to_nat (SZ_QUEUE - 1))%nat → (∃ e, next_message v l = Some (Err e)) ↔ bad_line v l.
Proof.
  intros Hl. destruct v; simpl.
  - unfold plain_message. destruct (Z.ltb_spec (Z.of_nat (length l) - 3) 0); split.
    + intros _. lia.
    + intros _. by eexists.
    + by intros [? ?].
    + lia.
  - destruct (match_line l) as [[ds ws]|] eqn:E; simpl.
    + pose proof (match_line_length _ _ _ E). unfold regex_message. destruct (decide _) as [Hd|Hd]; split.
      * by intros [? ?].
      * intros (? & ? & [= <- <-] & ?). lia.
      * intros _. exists ds, ws. split; [done|]. unfold SZ_QUEUE in *. lia.
      * intros _. by eexists.
    + split; [by intros [? ?]|]. by intros (? & ? & ? & ?).
Qed.
(** C35. A step of a sender in its loop ends in a fault exactly when the next line
    has fewer than three characters, or, in the program with the regular
    expression, when it matches with ten digits or more. *)
Theorem sender_faults v lim pid x k x' k' file eof :
  at_ x = PSend file eof → exec v lim ANone pid x k = Some (x', k') →
  ((∃ e, at_ x' = PFault e) ↔
   ¬ (v = Plain ∧ eof = true) ∧ ∃ l r e, fgets (Z.to_nat (SZ_QUEUE - 1)) file = Some (l, r, e) ∧ bad_line v (str l)).
Proof.
  intros Ep E. unfold exec in E. rewrite Ep in E.
  assert (∀ m rest e, ∀ f, at_ (send_message lim (Ok m) rest e pid x k).1 ≠ PFault f) as Hno.
  { intros m rest e f. unfold send_message. destruct (msgsnd _ _ _ _ _) as [r0 k0]. simpl. by destruct (r0 =? -1). }
  assert (∀ r rest e l, (length (str l) ≤ Z.to_nat (SZ_QUEUE - 1))%nat → next_message v (str l) = Some r →
            (∃ f, at_ (send_message lim r rest e pid x k).1 = PFault f) ↔ bad_line v (str l)) as Hsend.
  { intros r rest e l Hl En. rewrite <-(next_message_bad v _ Hl), En. destruct r as [m|f].
    - split; [intros [f Hf]; by destruct (Hno m rest e f)|by intros [? ?]].
    - split; intros _; by eexists. }
  assert (∀ l r e, fgets (Z.to_nat (SZ_QUEUE - 1)) file = Some (l, r, e) → (length (str l) ≤ Z.to_nat (SZ_QUEUE - 1))%nat) as Hlen.
  { intros l r e Ef. by eapply fgets_str_length. }
  destruct (fgets (Z.to_nat (SZ_QUEUE - 1)) file) as [[[l r] e]|] eqn:Ef.
  2: { assert (x' = finish x) as ->.
       { destruct v; unfold start_msq_sender, start_msq_server in E; rewrite Ep, ?Ef in E; [destruct eof|]; congruence. }
       split; [by intros [? ?]|]. by intros (_ & ? & ? & ? & ? & _). }
  specialize (Hlen l r e eq_refl).
  destruct v; unfold start_msq_sender, start_msq_server in E; rewrite Ep, Ef in E.
  - destruct eof; [injection E as <- <-; split; [by intros [? ?]|intros [H _]; by destruct H]|]. injection E as E.
    specialize (Hsend _ r e l Hlen eq_refl). rewrite E in Hsend. simpl in Hsend. rewrite Hsend. split.
    + intros Hbad. split; [by intros [_ ?]|]. by exists l, r, e.
    + intros (_ & ? & ? & ? & [= <- <- <-] & ?). done.
  - assert ((∃ f, at_ x' = PFault f) ↔ bad_line Regex (str l)) as ->.
    { destruct (match_line (str l)) as [[ds ws]|] eqn:Em; injection E as E.
      - specialize (Hsend (regex_message ds ws) r e l Hlen). simpl in Hsend. rewrite Em in Hsend. specialize (Hsend eq_refl).
        rewrite E, <-Em in Hsend. exact Hsend.
      - subst x'. split; [by intros [? ?]|]. intros (? & ? & ? & _). congruence. }
    split; [|by intros (_ & ? & ? & ? & [= <- <- <-] & ?)]. intros Hbad. split; [by intros [? _]|]. by exists l, r, e.
Qed.

(** An empty line ends the sender, a line of nothing but a long number
    overflows [mbuf], and the last character of a file that does not end with a
    line end is lost. *)
Theorem blank_line_faults : next_message Plain (str [10]) = Some (Err BadAccess).
Proof. reflexivity. Qed.
Theorem long_number_overflows : next_message Regex (str (cs "1234567890,x" ++ [10])) = Some (Err BadAccess).
Proof. vm_compute. reflexivity. Qed.
Theorem last_character_lost :
  file_msgs Plain (cs "2,ab") = [Msg 2 (cs "a")] ∧ file_msgs Plain (cs "2,ab" ++ [10]) = [Msg 2 (cs "ab")].
Proof. vm_compute. done. Qed.

(** ** A run

    A sender of four messages and a receiver of type 2, which attaches to the
    queue and has taken two of them. *)
Lemma msg_run_reachable v lim argvs ls s s' : reachable v lim argvs s → run v lim ls s = Some s' → reachable v lim argvs s'.
Proof.
  revert s. induction ls as [|[pid a] ls IH]; intros s Hr; simpl; [by intros [= <-]|].
  destruct (s.1 !! pid) as [x|] eqn:Ex; [|done]. simpl. destruct (exec v lim a pid x s.2) as [[x' k']|] eqn:E; [|done].
  simpl. apply IH. eapply reach_step; [done|]. by exists pid, a, x, x', k'.
Qed.

Definition run_msgs : list mq_buf := [Msg 2 (cs "ab"); Msg 1 (cs "c"); Msg 2 (cs "d"); Msg 2 (cs "ef")].
Definition run_args : list (list (list Z)) := [[cs "sender"; cs "list.txt"]; [cs "receiver"; cs "2"]].
Definition run_labels : list (nat * answer) :=
  [(0%nat, AGet 7 (Some 3)); (1%nat, AGet 7 None); (1%nat, ANone); (0%nat, AOpen true (Some (run_msgs ≫= print_msg Plain)))] ++
  replicate 5 (0%nat, ANone) ++ replicate 2 (1%nat, ANone).
Definition run_lim : limits := Limits 8192 16384.
Definition run_end : option (list proc * kern) := run Plain run_lim run_labels (start_state run_args).

Lemma msg_run_end_reachable s : run_end = Some s → reachable Plain run_lim run_args s.
Proof. apply msg_run_reachable. constructor. Qed.
Lemma run_msgs_ok : Forall (line_ok Plain) run_msgs.
Proof.
  assert (∀ m, bool_decide (Z.of_nat (length (print_msg Plain m)) < SZ_QUEUE ∧ 1 ≤ mtype m ≤ 9 ∧ 0 ∉ mtext m ∧ 10 ∉ mtext m) = true → line_ok Plain m) as H
    by (intros m; by rewrite bool_decide_eq_true).
  repeat constructor; apply H; vm_compute; reflexivity.
Qed.

Lemma messages_delivered_witness : ∃ s, run_end = Some s ∧
  match s.1 !! 1%nat with Some x => out x = [cs "ab"; cs "d"] ∧ Forall (λ m, mtype m = 2) (taken_by 1 3 s.2) | None => False end.
Proof.
  destruct run_end as [s|] eqn:E; [|by vm_compute in E]. exists s. split; [done|].
  destruct (messages_delivered Plain run_lim run_args s (msg_run_end_reachable s E)) as [_ HP].
  destruct (s.1 !! 1%nat) as [x|] eqn:Ex.
  - destruct (HP _ _ Ex) as (_ & _ & _ & Ht). revert Ht. vm_compute in E. injection E as <-. injection Ex as <-.
    intros Ht. split; [vm_compute; reflexivity|]. by apply Ht.
  - vm_compute in E. injection E as <-. done.
Defined.
Lemma file_roundtrip_witness : file_msgs Plain (run_msgs ≫= print_msg Plain) = run_msgs.
Proof. apply file_roundtrip, run_msgs_ok. Defined.
Lemma receiver_prints_lines_witness : ∃ s xi xj q, run_end = Some s ∧ s.1 !! 0%nat = Some xi ∧ s.1 !! 1%nat = Some xj ∧
  hist s.2 3 = Some q ∧ out xj ++ (mtext <$> of_type 2 (items q)) = mtext <$> of_type 2 run_msgs.
Proof.
  destruct run_end as [s|] eqn:E; [|by vm_compute in E]. pose proof (msg_run_end_reachable s E) as Hr.
  revert Hr. vm_compute in E. injection E as <-. intros Hr. eexists _, _, _, _.
  split; [reflexivity|]. split; [reflexivity|]. split; [reflexivity|]. split; [reflexivity|].
  match goal with |- out ?x ++ (_ <$> of_type _ (items ?q)) = _ =>
    eapply (receiver_prints_lines Plain run_lim run_args _ q 0 _ 1 x run_msgs Hr) end;
    [reflexivity|reflexivity|vm_compute; reflexivity|exact run_msgs_ok|reflexivity|reflexivity|vm_compute; reflexivity|reflexivity| |].
  - simpl. intros e He. repeat (apply elem_of_cons in He as [->|He]; [done|]). by apply not_elem_of_nil in He.
  - simpl. intros e He. repeat (apply elem_of_cons in He as [->|He]; [done|]). by apply not_elem_of_nil in He.
Defined.
Lemma sender_faults_witness :
  let x := Proc (cs "sender") (cs "list.txt") (PSend [10] false) 3 [] [10] false in
  ∃ x' k', exec Plain run_lim ANone 0 x (Kern ∅ ∅ ∅) = Some (x', k') ∧ ∃ e, at_ x' = PFault e.
Proof.
  intros x. eexists _, _. assert (exec Plain run_lim ANone 0 x (Kern ∅ ∅ ∅) = Some (goto (PFault BadAccess) x, Kern ∅ ∅ ∅)) as E
    by (vm_compute; reflexivity).
  split; [exact E|]. apply (sender_faults Plain run_lim 0 x _ _ _ [10] false eq_refl E).
  split; [by intros [_ ?]|]. exists [10], [], false. split; [vm_compute; reflexivity|]. simpl. lia.
Defined.
