(* ===== verification/PosixMsg.v ===== *)
(** * A POSIX message queue ([alsp/src/5.ipc/posix/posix_msg.c])

    A sender puts the lines of a file into a queue with a name, receivers take
    them out and print them; the queue stays in the system until it is unlinked.
    Any number of such processes run, each started with its arguments; a step of
    one goes up to its next system call ([exec]).  [mq_send] and [mq_receive]
    block ([None]); whether a queue can be created, and what [fopen] answers, is
    the label of the step.  All messages have priority 0.  The objects are
    numbered in the order in which they were made, and are kept when their name
    is gone; [sent], [taken], [source] and [whole] are auxiliary.

    The properties: a queue hands over the lines of the senders first-in first-out
    and holds at most 20 of them; a receiver that is alone with a sender prints
    the lines of its file. *)

From stdpp Require Import base gmap list strings.
From Stdlib Require Import ZArith Lia.
From S2P Require Import Prelude FileLines.

Local Open Scope Z_scope.

(** ** The queues of the system *)
Record mqueue := MQueue {
  maxmsg : Z; msgsize : Z; items : list (list Z); sent : list (nat * list Z); taken : list (nat * list Z)
}.
Record kern := Kern { name : option nat; mqs : list mqueue }.
Definition set_mq (fd : nat) (q : mqueue) (k : kern) : kern := Kern (name k) (<[fd := q]> (mqs k)).

(** [mq_open] with [O_CREAT|O_EXCL]: the queue, or whether the name exists. *)
Definition mq_open_excl (can : bool) (maxmsg msgsize : Z) (k : kern) : (nat + bool) * kern :=
  match name k with
  | Some _ => (inr true, k)
  | None =>
      if can then (inl (length (mqs k)), Kern (Some (length (mqs k))) (mqs k ++ [MQueue maxmsg msgsize [] [] []]))
      else (inr false, k)
  end.
Definition mq_unlink (k : kern) : kern := Kern None (mqs k).

Definition mq_send (pid fd : nat) (msg : list Z) (k : kern) : option (Z * kern) :=
  match mqs k !! fd with
  | None => Some (-1, k)
  | Some q =>
      if msgsize q <? Z.of_nat (length msg) then Some (-1, k)
      else if maxmsg q <=? Z.of_nat (length (items q)) then None
      else Some (0, set_mq fd (MQueue (maxmsg q) (msgsize q) (items q ++ [msg]) (sent q ++ [(pid, msg)]) (taken q)) k)
  end.
Definition mq_receive (pid fd : nat) (len : Z) (k : kern) : option (option (list Z) * kern) :=
  match mqs k !! fd with
  | None => Some (None, k)
  | Some q =>
      if len <? msgsize q then Some (None, k)
      else
        match items q with
        | [] => None
        | msg :: ms => Some (Some msg, set_mq fd (MQueue (maxmsg q) (msgsize q) ms (sent q) (taken q ++ [(pid, msg)])) k)
        end
  end.

(** ** The program *)
Inductive pc : Set :=
| PUnlink | POpen | POpenOld             (* before [mq_unlink], and the two calls of [mq_open] *)
| PFopen                                 (* sender: before [fopen] *)
| PSend (file : list Z) (eof : bool)     (* in its loop *)
| PKey                                   (* before [getchar] *)
| PRecv                                  (* receiver: in its loop *)
| PDone (status : Z)
| PFault (e : fault).
#[export] Instance posix_pc_eq_dec : EqDecision pc.
Proof. solve_decision. Defined.

Record proc := Proc {
  argv1 : list Z; argv2 : option (list Z); at_ : pc; mq_fd : nat; out : list (list Z); source : list Z; whole : bool
}.
Definition goto (p : pc) (x : proc) : proc := Proc (argv1 x) (argv2 x) p (mq_fd x) (out x) (source x) (whole x).
Definition first_char (s : list Z) : Z := default 0 (head s).

(** [main] up to its first system call. *)
Definition start (argv : list (list Z)) : proc :=
  match argv with
  | [] => Proc [] None (PDone 1) 0 [] [] false
  | a1 :: argv => Proc a1 (head argv) (if first_char a1 =? 117 then PUnlink else POpen) 0 [] [] false
  end.
(** [main] with the queue open.  Without a file name, [printf] and [fopen] get a
    null pointer. *)
Definition switch (x : proc) : pc :=
  let c := first_char (argv1 x) in
  if c =? 115 then match argv2 x with Some _ => PFopen | None => PFault BadAccess end
  else if c =? 114 then PRecv
  else PDone 1.
Definition opened (fd : nat) (x : proc) : proc :=
  let x := Proc (argv1 x) (argv2 x) (at_ x) fd (out x) (source x) (whole x) in goto (switch x) x.

Inductive answer : Set := AOpen (can : bool) | AFopen (file : option (list Z)) | ANone.

(** A line without its last character; the length of an empty string less 1 is
    huge. *)
Definition send_line (pid fd : nat) (rbuf : list Z) (k : kern) : option (Z * kern) :=
  match rbuf with [] => Some (-1, k) | _ => mq_send pid fd (removelast rbuf) k end.

Definition start_msq_sender (pid : nat) (file : list Z) (eof : bool) (x : proc) (k : kern) : option (proc * kern) :=
  let finish := Some (Proc (argv1 x) (argv2 x) PKey (mq_fd x) (out x) (source x) true, k) in
  if eof then finish
  else
    match fgets (Z.to_nat (SZ_QUEUE - 1)) file with
    | None => finish
    | Some (line, rest, eof) =>
        '(r, k) ← send_line pid (mq_fd x) (str line) k;
        Some (goto (if r =? -1 then PKey else PSend rest eof) x, k)
    end.
Definition start_msq_receiver (pid : nat) (x : proc) (k : kern) : option (proc * kern) :=
  '(r, k) ← mq_receive pid (mq_fd x) SZ_QUEUE k;
  match r with
  | None => Some (goto (PDone 0) x, k)
  | Some msg => Some (Proc (argv1 x) (argv2 x) PRecv (mq_fd x) (out x ++ [str msg]) (source x) (whole x), k)
  end.

Definition exec (a : answer) (pid : nat) (x : proc) (k : kern) : option (proc * kern) :=
  match at_ x, a with
  | PUnlink, ANone => Some (goto (PDone 0) x, mq_unlink k)
  | POpen, AOpen can =>
      let '(r, k) := mq_open_excl can 20 4096 k in
      Some (match r with inl fd => opened fd x | inr eexist => goto (if eexist : bool then POpenOld else PDone 1) x end, k)
  | POpenOld, ANone => Some (match name k with Some fd => opened fd x | None => goto (PDone 1) x end, k)
  | PFopen, AFopen (Some file) => Some (Proc (argv1 x) (argv2 x) (PSend file false) (mq_fd x) (out x) file (whole x), k)
  | PFopen, AFopen None => Some (goto PKey x, k)
  | PSend file eof, ANone => start_msq_sender pid file eof x k
  | PKey, ANone => Some (goto (PDone 0) x, k)
  | PRecv, ANone => start_msq_receiver pid x k
  | _, _ => None
  end.

(** The processes and the system. *)
Definition step (s s' : list proc * kern) : Prop :=
  ∃ pid a x x' k', s.1 !! pid = Some x ∧ exec a pid x s.2 = Some (x', k') ∧ s' = (<[pid := x']> s.1, k').
Fixpoint run (ls : list (nat * answer)) (s : list proc * kern) : option (list proc * kern) :=
  match ls with
  | [] => Some s
  | (pid, a) :: ls => x ← s.1 !! pid; '(x', k) ← exec a pid x s.2; run ls (<[pid := x']> s.1, k)
  end.

(** No queue exists at first. *)
Definition start_state (argvs : list (list (list Z))) : list proc * kern := (start <$> argvs, Kern None []).
Inductive reachable (argvs : list (list (list Z))) : list proc * kern → Prop :=
| reach_start : reachable argvs (start_state argvs)
| reach_step s s' : reachable argvs s → step s s' → reachable argvs s'.

(** ** Correctness *)

(** ** Queues *)
Definition sent_by (pid fd : nat) (k : kern) : list (list Z) := from_option (λ q, by_pid pid (sent q)) [] (mqs k !! fd).
Definition taken_by (pid fd : nat) (k : kern) : list (list Z) := from_option (λ q, by_pid pid (taken q)) [] (mqs k !! fd).

Record mq_ok (q : mqueue) : Prop := {
  mo_fifo : (sent q).*2 = (taken q).*2 ++ items q;
  mo_bound : (length (items q) ≤ 20)%nat;
  mo_attr : maxmsg q = 20 ∧ msgsize q = 4096
}.
Definition kern_ok (k : kern) : Prop := Forall mq_ok (mqs k).

(** A step of process [pid] adds [s] to what it sent to [fd] and [t] to what it
    took. *)
Definition adds (pid fd : nat) (s t : list (list Z)) (k k' : kern) : Prop :=
  ∀ pid' fd',
    sent_by pid' fd' k' = sent_by pid' fd' k ++ (if decide (pid' = pid ∧ fd' = fd) then s else []) ∧
    taken_by pid' fd' k' = taken_by pid' fd' k ++ (if decide (pid' = pid ∧ fd' = fd) then t else []).
Lemma adds_nil pid fd k k' : mqs k' = mqs k → adds pid fd [] [] k k'.
Proof. intros E pid' fd'. unfold sent_by, taken_by. rewrite E. by destruct (decide _); rewrite !app_nil_r. Qed.
Lemma adds_other pid fd s t k k' pid' : adds pid fd s t k k' → pid' ≠ pid →
  ∀ fd', sent_by pid' fd' k' = sent_by pid' fd' k ∧ taken_by pid' fd' k' = taken_by pid' fd' k.
Proof. intros Ha Hp fd'. destruct (Ha pid' fd') as [-> ->]. rewrite !decide_False by tauto. by rewrite !app_nil_r. Qed.

Lemma adds_set pid fd q q' s t k : mqs k !! fd = Some q →
  sent q' = sent q ++ ((λ m, (pid, m)) <$> s) → taken q' = taken q ++ ((λ m, (pid, m)) <$> t) →
  adds pid fd s t k (set_mq fd q' k).
Proof.
  intros Hq Hs Ht pid' fd'. unfold sent_by, taken_by, set_mq. simpl.
  assert (∀ (l : list (nat * list Z)) u, by_pid pid' (l ++ ((λ m, (pid, m)) <$> u)) = by_pid pid' l ++ (if decide (pid' = pid) then u else [])) as Hby.
  { intros l u. revert l. induction u as [|m u IH]; intros l; [destruct (decide _); by rewrite !app_nil_r|].
    rewrite fmap_cons, cons_middle, (assoc_L app), IH, by_pid_snoc, <-(assoc_L app). f_equal.
    by destruct (decide (pid = pid')), (decide (pid' = pid)); simplify_eq. }
  destruct (decide (fd' = fd)) as [->|Hne].
  - rewrite list_lookup_insert_eq by by eapply lookup_lt_Some. rewrite Hq. simpl. rewrite Hs, Ht, !Hby.
    destruct (decide (pid' = pid)) as [->|Hp]; [by rewrite !decide_True|by rewrite !decide_False by tauto].
  - rewrite list_lookup_insert_ne by done. rewrite !decide_False by tauto. by rewrite !app_nil_r.
Qed.

Lemma mq_send_ok pid fd msg k r k' : mq_send pid fd msg k = Some (r, k') → kern_ok k →
  kern_ok k' ∧ ((r = -1 ∧ k' = k) ∨ (r = 0 ∧ adds pid fd [msg] [] k k')).
Proof.
  unfold mq_send. intros E HK. destruct (mqs k !! fd) as [q|] eqn:Eq; [|simplify_eq; auto].
  destruct (_ <? _); [simplify_eq; auto|]. destruct (Z.leb_spec (maxmsg q) (Z.of_nat (length (items q)))); [done|].
  injection E as <- <-. destruct (Forall_lookup_1 _ _ _ _ HK Eq) as [Hf Hb Ha]. split.
  - apply Forall_insert; [done|]. split; simpl; [by rewrite fmap_app, Hf, <-(assoc_L app)|rewrite length_app; simpl; lia|done].
  - right. split; [done|]. eapply adds_set; [done|done|by rewrite app_nil_r].
Qed.
Lemma mq_receive_ok pid fd len k r k' : mq_receive pid fd len k = Some (r, k') → kern_ok k →
  kern_ok k' ∧ adds pid fd [] (option_list r) k k'.
Proof.
  unfold mq_receive. intros E HK. destruct (mqs k !! fd) as [q|] eqn:Eq; [|simplify_eq; split; [done|by apply adds_nil]].
  destruct (_ <? _); [simplify_eq; split; [done|by apply adds_nil]|].
  destruct (items q) as [|msg ms] eqn:Ei; [done|]. injection E as <- <-.
  destruct (Forall_lookup_1 _ _ _ _ HK Eq) as [Hf Hb Ha]. rewrite Ei in Hf, Hb. split.
  - apply Forall_insert; [done|]. split; simpl; [by rewrite fmap_app, Hf, <-(assoc_L app)|simpl in Hb; lia|done].
  - eapply adds_set; [done|by rewrite app_nil_r|done].
Qed.
Lemma mq_open_ok can k r k' pid : mq_open_excl can 20 4096 k = (r, k') → kern_ok k → kern_ok k' ∧ adds pid 0 [] [] k k'.
Proof.
  unfold mq_open_excl. intros E HK. destruct (name k); [simplify_eq; split; [done|by apply adds_nil]|].
  destruct can; simplify_eq; [|split; [done|by apply adds_nil]]. split.
  - apply Forall_app. split; [done|]. constructor; [|done]. split; simpl; [done|lia|done].
  - intros pid' fd'. unfold sent_by, taken_by. simpl.
    destruct (decide (fd' < length (mqs k))%nat); [rewrite lookup_app_l by done; by destruct (decide _); rewrite !app_nil_r|].
    rewrite (lookup_ge_None_2 (mqs k)) by lia. rewrite lookup_app_r by lia.
    destruct (fd' - length (mqs k))%nat; simpl; by destruct (decide _).
Qed.

(** ** What a process did *)
Definition text_of (l : list Z) : option (option (list Z)) :=
  Some (match l with [] => None | _ => Some (removelast l) end).
Abbreviation texts_from := (items_from true text_of).
(** The texts that a sender makes of a file, up to a line with a NUL at its
    start. *)
Definition file_texts (file : list Z) : list (list Z) := file_items true text_of file.

Definition early (p : pc) : Prop := match p with PUnlink | POpen | POpenOld | PFopen => True | _ => False end.
Definition made (x : proc) (s : list (list Z)) : Prop :=
  match at_ x with
  | PSend file eof => s ++ texts_from file eof = file_texts (source x) ∧ whole x = false
  | PUnlink | POpen | POpenOld | PFopen => s = [] ∧ whole x = false
  | _ => s `prefix_of` file_texts (source x) ∧ (whole x = true → s = file_texts (source x))
  end.
Record proc_ok (k : kern) (pid : nat) (x : proc) : Prop := {
  po_other fd : fd ≠ mq_fd x ∨ early (at_ x) → sent_by pid fd k = [] ∧ taken_by pid fd k = [];
  po_made : made x (sent_by pid (mq_fd x) k);
  po_out : out x = str <$> taken_by pid (mq_fd x) k
}.
Lemma mq_made_prefix x s : made x s → s `prefix_of` file_texts (source x) ∧ (whole x = true → s = file_texts (source x)).
Proof.
  unfold made. destruct (at_ x); try done; intros [H ->]; subst; (split; [|done]); try apply prefix_nil.
  rewrite <-H. by apply prefix_app_r.
Qed.
Lemma mq_proc_ok_same k k' pid x : proc_ok k pid x →
  (∀ fd, sent_by pid fd k' = sent_by pid fd k ∧ taken_by pid fd k' = taken_by pid fd k) → proc_ok k' pid x.
Proof.
  intros [Ho Hm Hu] Hs. split.
  - intros fd Hfd. destruct (Hs fd) as [-> ->]. by apply Ho.
  - by rewrite (proj1 (Hs _)).
  - by rewrite (proj2 (Hs _)).
Qed.
Lemma adds_nil_same pid fd k k' pid' : adds pid fd [] [] k k' →
  ∀ fd', sent_by pid' fd' k' = sent_by pid' fd' k ∧ taken_by pid' fd' k' = taken_by pid' fd' k.
Proof. intros Ha fd'. destruct (Ha pid' fd') as [-> ->]. destruct (decide _); by rewrite !app_nil_r. Qed.
Lemma mq_proc_ok_goto k pid x p : proc_ok k pid x →
  match p with PKey | PRecv | PDone _ | PFault _ => True | _ => False end → proc_ok k pid (goto p x).
Proof.
  intros [Ho Hm Hu] Hp. split; [|apply mq_made_prefix in Hm; by destruct p|done].
  simpl. intros fd [Hfd|Hfd]; [apply Ho; by left|by destruct p].
Qed.
Lemma mq_proc_ok_start k pid x : (∀ fd, sent_by pid fd k = [] ∧ taken_by pid fd k = []) →
  out x = [] → whole x = false → match at_ x with PSend _ _ => False | _ => True end → proc_ok k pid x.
Proof.
  intros Hn Ho Hw Hp. split.
  - intros fd _. apply Hn.
  - rewrite (proj1 (Hn _)). unfold made. rewrite Hw. destruct (at_ x); done || (split; [apply prefix_nil|done]).
  - by rewrite (proj2 (Hn _)), Ho.
Qed.
Lemma proc_ok_early k pid x : proc_ok k pid x → early (at_ x) →
  (∀ fd, sent_by pid fd k = [] ∧ taken_by pid fd k = []) ∧ out x = [] ∧ whole x = false.
Proof.
  intros [Ho Hm Hu] He. assert (∀ fd, sent_by pid fd k = [] ∧ taken_by pid fd k = []) as Hn by (intros fd; apply Ho; by right).
  split_and!; [done|by rewrite Hu, (proj2 (Hn _))|]. unfold made in Hm. destruct (at_ x); simpl in He; tauto.
Qed.
Lemma proc_ok_opened k pid fd x : proc_ok k pid x → early (at_ x) → proc_ok k pid (opened fd x).
Proof.
  intros HP He. destruct (proc_ok_early _ _ _ HP He) as (Hn & Ho & Hw). apply mq_proc_ok_start; [done..|].
  simpl. unfold switch. simpl. destruct (_ =? 115); [by destruct (argv2 x)|]. by destruct (_ =? 114).
Qed.

(** ** Steps *)
Definition step_ok (pid : nat) (k k' : kern) (x' : proc) : Prop :=
  kern_ok k' ∧ proc_ok k' pid x' ∧ ∃ fd s t, adds pid fd s t k k'.
Lemma mq_step_ok_nil pid k k' x' : kern_ok k' → proc_ok k pid x' → adds pid 0 [] [] k k' → step_ok pid k k' x'.
Proof.
  intros HK HP Ha. split_and!; [done| |by exists 0%nat, [], []]. eapply mq_proc_ok_same; [done|]. by eapply adds_nil_same.
Qed.
Lemma mq_step_ok_same pid k x' : kern_ok k → proc_ok k pid x' → step_ok pid k k x'.
Proof. intros HK HP. apply mq_step_ok_nil; [done..|by apply adds_nil]. Qed.

Lemma sender_ok pid file eof x k x' k' : start_msq_sender pid file eof x k = Some (x', k') → at_ x = PSend file eof →
  kern_ok k → proc_ok k pid x → step_ok pid k k' x'.
Proof.
  intros E Ep HK HP. unfold start_msq_sender in E. pose proof HP as [Ho Hm Hu]. unfold made in Hm. rewrite Ep in Hm. destruct Hm as [Hm Hw].
  assert (texts_from file eof = [] → step_ok pid k k (Proc (argv1 x) (argv2 x) PKey (mq_fd x) (out x) (source x) true)) as Hfin.
  { intros Hn. apply mq_step_ok_same; [done|]. split; [|by rewrite Hn, app_nil_r in Hm; unfold made; simpl; rewrite Hm|done].
    simpl. intros fd [Hfd|[]]. apply Ho. by left. }
  rewrite items_from_step in Hm, Hfin. simpl andb in Hm, Hfin. destruct eof; [injection E as <- <-; by apply Hfin|].
  destruct (fgets _ file) as [[[line rest] e]|] eqn:Ef; [|injection E as <- <-; by apply Hfin]. clear Hfin.
  unfold send_line in E. unfold text_of in Hm. destruct (str line) as [|c l]; [injection E as <- <-; apply mq_step_ok_same; [done|by apply mq_proc_ok_goto]|].
  destruct (mq_send pid (mq_fd x) (removelast (c :: l)) k) as [[r k1]|] eqn:Es; [|done]. injection E as <- <-.
  destruct (mq_send_ok _ _ _ _ _ _ Es HK) as [HK1 [[-> ->]|[-> Ha]]]; [apply mq_step_ok_same; [done|by apply mq_proc_ok_goto]|].
  split_and!; [done| |by eexists _, _, _]. split; simpl.
  - intros fd [Hfd|[]]. destruct (Ha pid fd) as [-> ->]. rewrite !decide_False by tauto. rewrite !app_nil_r. apply Ho. by left.
  - unfold made. simpl. destruct (Ha pid (mq_fd x)) as [-> _]. rewrite decide_True by done. by rewrite <-(assoc_L app).
  - destruct (Ha pid (mq_fd x)) as [_ ->]. destruct (decide _); by rewrite app_nil_r.
Qed.
Lemma receiver_ok pid x k x' k' : start_msq_receiver pid x k = Some (x', k') → at_ x = PRecv →
  kern_ok k → proc_ok k pid x → step_ok pid k k' x'.
Proof.
  intros E Ep HK HP. unfold start_msq_receiver in E.
  destruct (mq_receive pid (mq_fd x) SZ_QUEUE k) as [[r k1]|] eqn:Er; [|done]. simpl in E.
  destruct (mq_receive_ok _ _ _ _ _ _ Er HK) as (HK1 & Ha). destruct r as [m|]; simplify_eq.
  - split_and!; [done| |by eexists _, _, _]. pose proof HP as [Ho Hm Hu]. split; simpl.
    + intros fd [Hfd|[]]. destruct (Ha pid fd) as [-> ->]. rewrite !decide_False by tauto. rewrite !app_nil_r. apply Ho. by left.
    + destruct (Ha pid (mq_fd x)) as [-> _]. rewrite decide_True by done. rewrite app_nil_r. unfold made in *. rewrite Ep in Hm. done.
    + destruct (Ha pid (mq_fd x)) as [_ ->]. rewrite decide_True by done. by rewrite fmap_app, Hu.
  - split_and!; [done| |by eexists _, _, _]. apply mq_proc_ok_goto; [|done]. eapply mq_proc_ok_same; [done|]. by eapply adds_nil_same.
Qed.

Lemma mq_exec_ok a pid x k x' k' : exec a pid x k = Some (x', k') → kern_ok k → proc_ok k pid x → step_ok pid k k' x'.
Proof.
  intros E HK HP. unfold exec in E. destruct (at_ x) as [| | | |file eof| | | |] eqn:Ep; destruct a as [can|[file'|]|]; try done.
  - injection E as <- <-. apply mq_step_ok_nil; [done|by apply mq_proc_ok_goto|by apply adds_nil].
  - destruct (mq_open_excl can 20 4096 k) as [r k1] eqn:Eo. injection E as <- <-.
    destruct (mq_open_ok _ _ _ _ pid Eo HK) as [HK1 Ha]. apply mq_step_ok_nil; [done| |done].
    assert (early (at_ x)) as He by by rewrite Ep. destruct r as [fd|[]]; [by apply proc_ok_opened| |by apply mq_proc_ok_goto].
    destruct (proc_ok_early _ _ _ HP He) as (Hn & Hu & Hw). by apply mq_proc_ok_start.
  - injection E as <- <-. apply mq_step_ok_same; [done|]. assert (early (at_ x)) as He by by rewrite Ep.
    destruct (name k) as [fd|]; [by apply proc_ok_opened|by apply mq_proc_ok_goto].
  - injection E as <- <-. apply mq_step_ok_same; [done|]. assert (early (at_ x)) as He by by rewrite Ep.
    destruct (proc_ok_early _ _ _ HP He) as (Hn & Hu & Hw). split; simpl.
    + intros fd _. apply Hn.
    + unfold made. simpl. by rewrite (proj1 (Hn _)).
    + by rewrite (proj2 (Hn _)), Hu.
  - injection E as <- <-. apply mq_step_ok_same; [done|by apply mq_proc_ok_goto].
  - by eapply sender_ok.
  - injection E as <- <-. apply mq_step_ok_same; [done|by apply mq_proc_ok_goto].
  - by eapply receiver_ok.
Qed.

Lemma mq_reachable_ok argvs s : reachable argvs s → kern_ok s.2 ∧ ∀ pid x, s.1 !! pid = Some x → proc_ok s.2 pid x.
Proof.
  induction 1 as [|s s' Hr [HK HP] (pid & a & x & x' & k' & Hx & E & ->)]; simpl.
  - split; [by constructor|]. intros pid x (argv & -> & _)%list_lookup_fmap_Some. apply mq_proc_ok_start.
    + done.
    + by destruct argv.
    + by destruct argv.
    + destruct argv as [|a1 argv]; [done|]. simpl. by destruct (_ =? 117).
  - destruct (mq_exec_ok _ _ _ _ _ _ E HK (HP _ _ Hx)) as (HK' & HP' & fd & l & r & Hs). split; [done|].
    intros pid' y Hy. destruct (decide (pid' = pid)) as [->|Hne].
    + rewrite list_lookup_insert_eq in Hy by by eapply lookup_lt_Some. by injection Hy as <-.
    + rewrite list_lookup_insert_ne in Hy by done. eapply mq_proc_ok_same; [by apply HP|]. by eapply adds_other.
Qed.

(** In every reachable state of any senders, receivers and unlinkers: a queue
    has handed over the lines that were put into it in their order, but for the
    at most 20 that it holds; what a process has put in are the first lines of
    its file, and all of them once it got to the end of the file; and what a
    process has printed are the lines it took. *)
Theorem posix_fifo argvs s : reachable argvs s →
  (∀ fd q, mqs s.2 !! fd = Some q → (sent q).*2 = (taken q).*2 ++ items q ∧ (length (items q) ≤ 20)%nat) ∧
  ∀ pid x, s.1 !! pid = Some x →
    sent_by pid (mq_fd x) s.2 `prefix_of` file_texts (source x) ∧
    (whole x = true → sent_by pid (mq_fd x) s.2 = file_texts (source x)) ∧
    out x = str <$> taken_by pid (mq_fd x) s.2.
Proof.
  intros Hr. destruct (mq_reachable_ok _ _ Hr) as [HK HP]. split.
  - intros fd q Hq. destruct (Forall_lookup_1 _ _ _ _ HK Hq). done.
  - intros pid x Hx. destruct (HP _ _ Hx) as [_ Hm Hu]. by destruct (mq_made_prefix _ _ Hm).
Qed.

(** ** From the file to the receiver *)
Definition text_ok (l : list Z) : Prop := l ≠ [] ∧ 0 ∉ l ∧ 10 ∉ l ∧ Z.of_nat (length l) < SZ_QUEUE - 1.
Lemma texts_roundtrip ts : Forall text_ok ts → file_texts (ts ≫= λ l, l ++ [10]) = ts.
Proof.
  intros Hts. apply (file_items_print true text_of id). eapply Forall_impl; [exact Hts|]. intros l (Hn & H0 & H10 & Hl).
  split_and!; [done..|]. unfold id. rewrite str_id by (rewrite elem_of_app, list_elem_of_singleton; by intros [?|?]).
  unfold text_of. destruct l as [|c l]; [done|]. change ((c :: l) ++ [10]) with (c :: (l ++ [10])).
  change (c :: (l ++ [10])) with ((c :: l) ++ [10]). by rewrite removelast_last.
Qed.
Lemma by_pid_all {A} pid (l : list (nat * A)) : (∀ e, e ∈ l → e.1 = pid) → by_pid pid l = l.*2.
Proof.
  unfold by_pid. induction l as [|e l IH]; intros Hl; [done|]. rewrite filter_cons_True by (apply Hl; by left).
  rewrite !fmap_cons, IH; [done|]. intros e' He. apply Hl. by right.
Qed.

(** When a sender has sent the whole of a file of lines, alone, and only one
    receiver takes from the queue, then this receiver has printed the lines of
    the file in their order, but for those, at most 20, that are still in the
    queue. *)
Theorem posix_receiver_prints argvs s q i xi j xj ts :
  reachable argvs s →
  s.1 !! i = Some xi → whole xi = true → source xi = (ts ≫= λ l, l ++ [10]) → Forall text_ok ts →
  s.1 !! j = Some xj → mq_fd xj = mq_fd xi → mqs s.2 !! mq_fd xi = Some q →
  (∀ e, e ∈ sent q → e.1 = i) → (∀ e, e ∈ taken q → e.1 = j) →
  out xj ++ items q = ts ∧ (length (items q) ≤ 20)%nat.
Proof.
  intros Hr Hi Hw Hsrc Hts Hj Hfd Hq Hs Ht. destruct (mq_reachable_ok _ _ Hr) as [HK HP].
  destruct (Forall_lookup_1 _ _ _ _ HK Hq) as [Hf Hb _].
  destruct (HP _ _ Hi) as [_ Hm _]. apply mq_made_prefix in Hm as [_ Hm]. specialize (Hm Hw).
  pose proof (po_out _ _ _ (HP _ _ Hj)) as Hu. rewrite Hfd in Hu. rewrite Hsrc, texts_roundtrip in Hm by done.
  unfold sent_by, taken_by in *. rewrite Hq in *. simpl in *. rewrite by_pid_all in Hm, Hu by done. rewrite Hf in Hm.
  split; [|done]. rewrite <-Hm, Hu. f_equal. rewrite <-(list_fmap_id (taken q).*2) at 2. apply list_fmap_ext.
  intros n l Hl. apply str_id. assert (l ∈ ts) as Hin.
  { rewrite <-Hm. apply elem_of_app. left. by eapply list_elem_of_lookup_2. }
  by apply (proj1 (Forall_forall _ _) Hts) in Hin as (_ & ? & _).
Qed.

(** A sender that is given no file, and one whose line is too long for the
    queue. *)
Theorem no_file_faults : at_ (opened 0 (start [cs "sender"])) = PFault BadAccess.
Proof. reflexivity. Qed.
Theorem long_line_stops q pid fd line k : mqs k !! fd = Some q → msgsize q = 4096 → 4097 < Z.of_nat (length line) →
  send_line pid fd line k = Some (-1, k).
Proof.
  intros Hq Hs Hl. unfold send_line, mq_send. destruct line as [|c l] eqn:El; [done|]. rewrite <-El in *. rewrite Hq, Hs.
  rewrite (proj2 (Z.ltb_lt _ _)); [done|]. destruct (exists_last (l := line)) as (l' & x & ->); [by rewrite El|].
  rewrite removelast_last. rewrite length_app in Hl. simpl in Hl. lia.
Qed.

(** ** A run *)
Lemma posix_run_reachable argvs ls s s' : reachable argvs s → run ls s = Some s' → reachable argvs s'.
Proof.
  revert s. induction ls as [|[pid a] ls IH]; intros s Hr; simpl; [by intros [= <-]|].
  destruct (s.1 !! pid) as [x|] eqn:Ex; [|done]. simpl. destruct (exec a pid x s.2) as [[x' k']|] eqn:E; [|done].
  simpl. apply IH. eapply reach_step; [done|]. by exists pid, a, x, x', k'.
Qed.
Definition run_texts : list (list Z) := [cs "one"; cs "two"; cs "three"].
Definition run_args : list (list (list Z)) := [[cs "sender"; cs "list.txt"]; [cs "receiver"]].
Definition run_labels : list (nat * answer) :=
  [(0%nat, AOpen true); (1%nat, AOpen false); (1%nat, ANone); (0%nat, AFopen (Some (run_texts ≫= λ l, l ++ [10])))] ++
  replicate 4 (0%nat, ANone) ++ replicate 2 (1%nat, ANone).
Definition run_end : option (list proc * kern) := run run_labels (start_state run_args).
Lemma mq_run_end_reachable s : run_end = Some s → reachable run_args s.
Proof. apply posix_run_reachable. constructor. Qed.

Lemma posix_fifo_witness : ∃ s, run_end = Some s ∧
  match mqs s.2 !! 0%nat with Some q => (sent q).*2 = (taken q).*2 ++ items q ∧ items q = [cs "three"] | None => False end.
Proof.
  destruct run_end as [s|] eqn:E; [|by vm_compute in E]. exists s. split; [done|].
  destruct (posix_fifo run_args s (mq_run_end_reachable s E)) as [HQ _].
  destruct (mqs s.2 !! 0%nat) as [q|] eqn:Eq.
  - split; [by apply (HQ 0%nat q)|]. vm_compute in E. injection E as <-. by injection Eq as <-.
  - vm_compute in E. by injection E as <-.
Defined.
Lemma posix_receiver_prints_witness : ∃ s xj q, run_end = Some s ∧ s.1 !! 1%nat = Some xj ∧ mqs s.2 !! 0%nat = Some q ∧
  out xj = [cs "one"; cs "two"] ∧ out xj ++ items q = run_texts.
Proof.
  destruct run_end as [s|] eqn:E; [|by vm_compute in E]. pose proof (mq_run_end_reachable s E) as Hr.
  revert Hr. vm_compute in E. injection E as <-. intros Hr. eexists _, _, _.
  split; [reflexivity|]. split; [reflexivity|]. split; [reflexivity|]. split; [reflexivity|].
  match goal with |- out ?x ++ items ?q = _ => apply (posix_receiver_prints run_args _ q 0 _ 1 x run_texts Hr eq_refl) end;
    [reflexivity|reflexivity| |reflexivity..| |].
  - assert (∀ l, bool_decide (l ≠ [] ∧ 0 ∉ l ∧ 10 ∉ l ∧ Z.of_nat (length l) < SZ_QUEUE - 1) = true → text_ok l) as H
      by (intros l; by rewrite bool_decide_eq_true).
    repeat constructor; apply H; vm_compute; reflexivity.
  - simpl. intros e He. repeat (apply elem_of_cons in He as [->|He]; [done|]). by apply not_elem_of_nil in He.
  - simpl. intros e He. repeat (apply elem_of_cons in He as [->|He]; [done|]). by apply not_elem_of_nil in He.
Defined.
