(* ===== verification/NamelessSem.v ===== *)
(** * A semaphore in shared memory
      ([alsp/src/5.ipc/posix/posix_nameless_sem.c])

    A parent forks children that enter a critical section under a semaphore in
    shared memory, and waits for them; the child with index 2 aborts in the
    section.

    A process is a control point between two calls; a step is one call, [None]
    where it blocks.  The semaphore is modelled as its calls are documented:
    [sem_wait] blocks at 0, and nothing is undone when a process ends.  What else
    a call answers is the label of the step.  Printing and sleeping are not
    modelled.

    The properties: at most one child is in the section; how the program ends;
    and, since nothing is undone, that the others wait for ever after the abort. *)

From stdpp Require Import base gmap list relations.
From Stdlib Require Import ZArith Lia.
From S2P Require Import Prelude.

Local Open Scope Z_scope.

Inductive pc : Set :=
| PWait      (* before [sem_wait] *)
| PIn        (* in the critical section *)
| PPost      (* before [sem_post] *)
| PExit      (* before [exit] *)
| PZombie    (* has ended *)
| PReaped.   (* has been waited for *)
#[export] Instance nameless_pc_eq_dec : EqDecision pc.
Proof. solve_decision. Defined.
Inductive mpc : Set :=
| MFork (i : Z)        (* in the loop that forks *)
| MReap (i : Z)        (* in the loop that waits *)
| MDone (status : Z).
#[export] Instance nameless_mpc_eq_dec : EqDecision mpc.
Proof. solve_decision. Defined.

(** The value of the semaphore; the children by their index. *)
Record state := State { sem : Z; procs : list pc; mpc_ : mpc }.
Definition goto_m (p : mpc) (s : state) : state := State (sem s) (procs s) p.
Definition goto_p (k : nat) (p : pc) (s : state) : state := State (sem s) (<[k := p]> (procs s)) (mpc_ s).

(** The answers before the loop: [shm_open], which makes the object ([inl], with
    [ftruncate]) or fails, with [EEXIST] or not; the second [shm_open]; [mmap]. *)
Record answers := Answers { shm_open : bool + bool; shm_open_old : bool; mmap : bool }.
(** [main] up to its loop; no other process uses the semaphore. *)
Definition main_start (argc : Z) (a : answers) : res state :=
  if negb (argc =? 2) then Err (Exited 1)
  else
    _ ← match shm_open a with
        | inl ftruncate => if ftruncate then Ok tt else Err (Exited 1)
        | inr eexist => if negb eexist then Err (Exited 1) else if shm_open_old a then Ok tt else Err (Exited 1)
        end;
    if negb (mmap a) then Err (Exited 1)
    else Ok (State 1 [] (MFork 0)).

Definition sem_wait (s : state) : option state := if 0 <? sem s then Some (State (sem s - 1) (procs s) (mpc_ s)) else None.
Definition sem_post (s : state) : state := State (sem s + 1) (procs s) (mpc_ s).

(** [handle_criticalsect], and [exit] after it. *)
Definition handle_criticalsect (idx_child : nat) (p : pc) (s : state) : option state :=
  match p with
  | PWait => goto_p idx_child PIn <$> sem_wait s
  | PIn => Some (goto_p idx_child (if bool_decide (idx_child = 2%nat) then PZombie else PPost) s)
  | PPost => Some (goto_p idx_child PExit (sem_post s))
  | PExit => Some (goto_p idx_child PZombie s)
  | PZombie | PReaped => None
  end.

(** [fork] fails or not; [waitpid] returns one of the children that have ended. *)
Inductive label : Set := RunM (fork_ok : bool) (w : nat) | RunP (k : nat).
Definition main (n_child : Z) (fork_ok : bool) (w : nat) (s : state) : option state :=
  match mpc_ s with
  | MFork i =>
      if i <? n_child then
        if fork_ok then Some (State (sem s) (procs s ++ [PWait]) (MFork (i + 1))) else Some (goto_m (MDone 1) s)
      else Some (goto_m (MReap 0) s)
  | MReap i =>
      if i <? n_child then
        if existsb (λ p, negb (bool_decide (p = PReaped))) (procs s) then
          if decide (procs s !! w = Some PZombie) then Some (goto_m (MReap (i + 1)) (goto_p w PReaped s)) else None
        else Some (goto_m (MReap (i + 1)) s)
      else Some (goto_m (MDone 0) s)
  | MDone _ => None
  end.
Definition exec (n_child : Z) (l : label) (s : state) : option state :=
  match l with
  | RunM fork_ok w => main n_child fork_ok w s
  | RunP k => p ← procs s !! k; handle_criticalsect k p s
  end.
Definition step (n_child : Z) (s s' : state) : Prop := ∃ l, exec n_child l s = Some s'.
Definition start : state := State 1 [] (MFork 0).

(** ** Correctness *)

Definition hold (p : pc) : nat := match p with PIn | PPost => 1 | _ => 0 end.
Definition reap (p : pc) : nat := match p with PReaped => 1 | _ => 0 end.
Definition left_ (p : pc) : nat := match p with PWait => 5 | PIn => 4 | PPost => 3 | PExit => 2 | PZombie => 1 | PReaped => 0 end.
Abbreviation holders := (sum_list_with hold).
Abbreviation reaped := (sum_list_with reap).

(** The child with index 2 has ended, which it does only by aborting. *)
Definition aborted (ps : list pc) : nat := match ps !! 2%nat with Some (PZombie | PReaped) => 1 | _ => 0 end.

Section proofs.
Context (n_child : Z) (Hn : 0 ≤ n_child).

Definition main_ok (s : state) : Prop :=
  match mpc_ s with
  | MFork i => i = Z.of_nat (length (procs s)) ∧ i ≤ n_child ∧ reaped (procs s) = 0%nat
  | MReap i => Z.of_nat (length (procs s)) = n_child ∧ i = Z.of_nat (reaped (procs s)) ∧ i ≤ n_child
  | MDone st =>
      (st = 0 ∧ Z.of_nat (length (procs s)) = n_child ∧ Z.of_nat (reaped (procs s)) = n_child) ∨ (st = 1 ∧ reaped (procs s) = 0%nat)
  end.
Record inv (s : state) : Prop := {
  iv_sem : sem s + Z.of_nat (holders (procs s) + aborted (procs s)) = 1;
  iv_pos : 0 ≤ sem s;
  iv_two p : procs s !! 2%nat = Some p → p ≠ PPost ∧ p ≠ PExit;
  iv_main : main_ok s
}.

Definition mleft (p : mpc) : nat :=
  match p with MFork i => Z.to_nat (7 * (n_child - i) + n_child + 2) | MReap i => Z.to_nat (n_child - i + 1) | MDone _ => 0 end.
Definition left_over (s : state) : nat := mleft (mpc_ s) + sum_list_with left_ (procs s).

Lemma aborted_insert k p ps : k ≠ 2%nat → aborted (<[k := p]> ps) = aborted ps.
Proof. intros Hk. unfold aborted. by rewrite list_lookup_insert_ne. Qed.
Lemma reaped_length ps : (reaped ps ≤ length ps)%nat.
Proof. induction ps as [|p ps IH]; simpl; [lia|]. unfold reap at 1. destruct p; lia. Qed.

(** A child goes on; [d] is what it adds to the semaphore. *)
Lemma child_inv k p q d s : inv s → procs s !! k = Some p → reap p = 0%nat → reap q = 0%nat →
  0 ≤ sem s + d → (left_ q < left_ p)%nat →
  d + Z.of_nat (hold q) + (if decide (k = 2%nat) then Z.of_nat (aborted [q; q; q]) else 0) = Z.of_nat (hold p) →
  (k = 2%nat → q ≠ PPost ∧ q ≠ PExit ∧ aborted [p; p; p] = 0%nat) →
  inv (goto_p k q (State (sem s + d) (procs s) (mpc_ s))) ∧ (left_over (goto_p k q (State (sem s + d) (procs s) (mpc_ s))) < left_over s)%nat.
Proof.
  intros [Hs Hp H2 Hm] Hk Hrp Hrq Hd Hl Hh Hq. pose proof (sum_insert hold _ _ _ q Hk) as Hsum.
  pose proof (sum_insert reap _ _ _ q Hk) as Hre. pose proof (sum_insert left_ _ _ _ q Hk) as Hle. split; [split; simpl|].
  - destruct (decide (k = 2%nat)) as [->|Hne].
    + destruct (Hq eq_refl) as (_ & _ & Hab). unfold aborted in Hs, Hab, Hh |- *. rewrite Hk in Hs. simpl in Hab, Hh.
      rewrite list_lookup_insert_eq by by eapply lookup_lt_Some. lia.
    + rewrite aborted_insert by done. lia.
  - done.
  - intros x Hx. destruct (decide (k = 2%nat)) as [->|Hne].
    + rewrite list_lookup_insert_eq in Hx by by eapply lookup_lt_Some. injection Hx as <-. destruct (Hq eq_refl). tauto.
    + rewrite list_lookup_insert_ne in Hx by done. by apply H2.
  - unfold main_ok in *. simpl. rewrite length_insert. assert (reaped (<[k:=q]> (procs s)) = reaped (procs s)) as -> by lia. done.
  - unfold left_over. simpl. lia.
Qed.

Lemma child_step k p s s' : inv s → procs s !! k = Some p → handle_criticalsect k p s = Some s' →
  inv s' ∧ (left_over s' < left_over s)%nat.
Proof.
  intros HI Hk E. pose proof HI as [Hs Hp H2 Hm].
  assert (∀ q, goto_p k q s = goto_p k q (State (sem s + 0) (procs s) (mpc_ s))) as Hz by (intros q; by rewrite Z.add_0_r; destruct s).
  destruct p; simpl in E; try done.
  - unfold sem_wait in E. destruct (Z.ltb_spec 0 (sem s)) as [H0|]; [|done]. injection E as <-.
    replace (sem s - 1) with (sem s + -1) by lia.
    eapply child_inv; [done|exact Hk|done|done|lia|simpl; lia| |done]. by destruct (decide (k = 2%nat)).
  - injection E as <-. rewrite Hz. case_bool_decide as H.
    + subst. eapply child_inv; [done|exact Hk|done|done|lia|simpl; lia|done|done].
    + eapply child_inv; [done|exact Hk|done|done|lia|simpl; lia| |done]. by rewrite decide_False.
  - injection E as <-. assert (k ≠ 2%nat) as Hne by (intros ->; by destruct (H2 _ Hk)).
    eapply child_inv; [done|exact Hk|done|done|lia|simpl; lia| |done]. by rewrite decide_False.
  - injection E as <-. rewrite Hz. assert (k ≠ 2%nat) as Hne by (intros ->; by destruct (H2 _ Hk)).
    eapply child_inv; [done|exact Hk|done|done|lia|simpl; lia| |done]. by rewrite decide_False.
Qed.

Lemma existsb_unreaped ps : (reaped ps < length ps)%nat → existsb (λ p, negb (bool_decide (p = PReaped))) ps = true.
Proof.
  induction ps as [|p ps IH]; simpl; [lia|]. intros Hl. destruct (bool_decide_reflect (p = PReaped)) as [->|]; [|done].
  simpl in *. apply IH. lia.
Qed.

Lemma nl_main_step f w s s' : inv s → main n_child f w s = Some s' → inv s' ∧ (left_over s' < left_over s)%nat.
Proof using Hn.
  intros [Hs Hp H2 Hm] E. unfold main_ok in Hm. unfold main in E. destruct (mpc_ s) as [i|i|st] eqn:Em; [| |done].
  - destruct Hm as (-> & Hi & Hr). destruct (Z.ltb_spec (Z.of_nat (length (procs s))) n_child).
    + destruct f; injection E as <-.
      * assert (aborted (procs s ++ [PWait]) = aborted (procs s)) as Ha.
        { unfold aborted. destruct (decide (2 < length (procs s))%nat); [by rewrite lookup_app_l|].
          rewrite (lookup_ge_None_2 (procs s)) by lia. rewrite lookup_app_r by lia. by destruct (2 - length (procs s))%nat. }
        split; [split; simpl|].
        -- rewrite sum_list_with_app, Ha. simpl. lia.
        -- done.
        -- intros p [Hx|[_ Hx]]%lookup_app_Some; [by apply H2|]. destruct (2 - length (procs s))%nat; simpl in Hx; by simplify_eq.
        -- unfold main_ok. simpl. rewrite length_app, sum_list_with_app. simpl. split_and!; lia.
        -- unfold left_over. rewrite Em. simpl. rewrite sum_list_with_app. simpl. lia.
      * split; [split; simpl; [done..|]|unfold left_over; rewrite Em; simpl; lia]. unfold main_ok. simpl. by right.
    + injection E as <-. split; [split; simpl; [done..|]|unfold left_over; rewrite Em; simpl; lia]. unfold main_ok. simpl. split_and!; lia.
  - destruct Hm as (Hlen & Hi & Hle). destruct (Z.ltb_spec i n_child).
    + rewrite existsb_unreaped in E by lia. case_decide as Hw; [|done]. injection E as <-.
      pose proof (sum_insert hold _ _ _ PReaped Hw) as Hsum. pose proof (sum_insert reap _ _ _ PReaped Hw) as Hre.
      pose proof (sum_insert left_ _ _ _ PReaped Hw) as Hlf. simpl in Hsum, Hre, Hlf. split; [split; simpl|].
      * assert (aborted (<[w:=PReaped]> (procs s)) = aborted (procs s)) as ->; [|lia].
        destruct (decide (w = 2%nat)) as [->|]; [|by apply aborted_insert]. unfold aborted.
        by rewrite list_lookup_insert_eq, Hw by by eapply lookup_lt_Some.
      * done.
      * intros p Hx. destruct (decide (w = 2%nat)) as [->|]; [|rewrite list_lookup_insert_ne in Hx by done; by apply H2].
        rewrite list_lookup_insert_eq in Hx by by eapply lookup_lt_Some. by injection Hx as <-.
      * unfold main_ok. simpl. rewrite length_insert. split_and!; lia.
      * unfold left_over. rewrite Em. simpl. lia.
    + injection E as <-. split; [split; simpl; [done..|]|unfold left_over; rewrite Em; simpl; lia]. unfold main_ok. simpl. left. split_and!; lia.
Qed.
Lemma nl_step_inv s s' : inv s → step n_child s s' → inv s' ∧ (left_over s' < left_over s)%nat.
Proof using Hn.
  intros HI [[f w|k] E]; simpl in E; [by eapply nl_main_step|]. destruct (procs s !! k) as [p|] eqn:Hk; [|done]. by eapply child_step.
Qed.
Lemma nl_start_inv : inv start.
Proof using Hn. split; simpl; [done|lia|done|]. unfold main_ok. simpl. split_and!; [done|lia|done]. Qed.
Lemma nl_reach_inv s : rtc (step n_child) start s → inv s.
Proof using Hn. intros Hr. eapply (rtc_invariant _ inv); [|exact Hr|apply nl_start_inv]. intros s1 s2 HI Hs. by apply (nl_step_inv _ _ HI Hs). Qed.
End proofs.

(** Of [n_child] children at most one is in the critical section, none once child 2 has aborted
    there, and the semaphore is what they leave of it. *)
Theorem nameless_exclusion n_child s : 0 ≤ n_child → rtc (step n_child) start s →
  (holders (procs s) + aborted (procs s) ≤ 1)%nat ∧ sem s = 1 - Z.of_nat (holders (procs s)) - Z.of_nat (aborted (procs s)).
Proof. intros Hn Hr. destruct (nl_reach_inv n_child Hn s Hr). lia. Qed.

(** Where no child can go on, and none is left waiting, all have ended. *)
Lemma idle_child s k p : handle_criticalsect k p s = None →
  p = PZombie ∨ p = PReaped ∨ (p = PWait ∧ sem s ≤ 0).
Proof.
  destruct p; simpl; try done; auto. unfold sem_wait. destruct (Z.ltb_spec 0 (sem s)); [done|]. intros _. right. right. split; [done|lia].
Qed.

(** C38. Every run of the program is finite.  It stops in one of three ways: the
    parent has ended with status 0 and waited for all children; it has ended with
    status 1 after a [fork] that failed; or child 2 has aborted in the critical
    section, some child waits for the semaphore, which stays at 0, and the parent
    waits for that child.  The last needs three children or more. *)
Theorem nameless_ends n_child : 0 ≤ n_child →
  sn (step n_child) start ∧
  ∀ s, rtc (step n_child) start s → nf (step n_child) s →
    (mpc_ s = MDone 0 ∧ procs s = replicate (Z.to_nat n_child) PReaped) ∨ mpc_ s = MDone 1 ∨
    (2 < n_child ∧ aborted (procs s) = 1%nat ∧ sem s = 0 ∧ (∃ k, procs s !! k = Some PWait) ∧ ∃ i, mpc_ s = MReap i).
Proof.
  intros Hn. split.
  { eapply (sn_measure _ (inv n_child) (left_over n_child)); [|by apply nl_start_inv]. intros s s' HI Hs. by apply nl_step_inv. }
  intros s Hr Hnf. pose proof (nl_reach_inv n_child Hn s Hr) as HI. pose proof HI as [Hs Hp H2 Hm].
  assert (∀ l, exec n_child l s = None) as Hno.
  { intros l. destruct (exec n_child l s) as [s'|] eqn:E; [|done]. destruct Hnf. exists s'. by exists l. }
  assert (∀ k p, procs s !! k = Some p → p = PZombie ∨ p = PReaped ∨ (p = PWait ∧ sem s ≤ 0)) as Hidle.
  { intros k p Hk. apply (idle_child s k). specialize (Hno (RunP k)). simpl in Hno. by rewrite Hk in Hno. }
  assert (holders (procs s) = 0%nat) as Hh.
  { apply sum_zero. intros p (k & Hk)%list_elem_of_lookup. by destruct (Hidle k p Hk) as [->|[->|[-> _]]]. }
  pose proof (Hno (RunM true 0)) as Hmain. simpl in Hmain. unfold main in Hmain. unfold main_ok in Hm.
  destruct (mpc_ s) as [i|i|st] eqn:Em.
  - by destruct (i <? n_child).
  - destruct Hm as (Hlen & Hi & Hle). destruct (i <? n_child) eqn:Ei; [|done]. apply Z.ltb_lt in Ei. right. right.
    assert (∃ k, procs s !! k = Some PWait) as [k Hk].
    { destruct (decide (PWait ∈ procs s)) as [[k Hk]%list_elem_of_lookup|Hnw]; [by exists k|]. exfalso.
      pose proof (existsb_unreaped (procs s) ltac:(lia)) as Eu. pose proof Eu as (x & Hx & Hxr)%existsb_exists.
      apply list_elem_of_In, list_elem_of_lookup in Hx as [w Hw]. specialize (Hno (RunM true w)). simpl in Hno. unfold main in Hno.
      rewrite Em, (proj2 (Z.ltb_lt _ _) Ei), Eu in Hno. cbv iota in Hno. destruct (decide (procs s !! w = Some PZombie)) as [Hz|Hz]; [done|].
      destruct (Hidle w x Hw) as [->|[->|[-> _]]]; [done|done|]. apply Hnw. by eapply list_elem_of_lookup_2. }
    destruct (Hidle k PWait Hk) as [?|[?|[_ H0]]]; [done|done|].
    assert (aborted (procs s) = 1%nat) as Ha by (unfold aborted in *; repeat case_match; lia).
    split; [|split_and!; [done|lia|by exists k|by exists i]]. unfold aborted in Ha.
    destruct (procs s !! 2%nat) as [p|] eqn:E2; [|done]. pose proof (lookup_lt_Some _ _ _ E2). lia.
  - destruct Hm as [(-> & Hlen & Hre)|[-> _]]; [left|by right; left]. split; [done|].
    apply list_eq. intros k. destruct (decide (k < length (procs s))%nat) as [Hk|Hk].
    + destruct (lookup_lt_is_Some_2 _ _ Hk) as [p Hp']. rewrite Hp', lookup_replicate_2 by lia.
      destruct (decide (p = PReaped)) as [->|Hne]; [done|].
      assert (reaped (procs s) < length (procs s))%nat; [|lia]. clear -Hp' Hne. revert k Hp'.
      induction (procs s) as [|x l IH]; intros [|k] Hk; simplify_eq/=.
      * pose proof (reaped_length l). destruct p; simpl; try lia. done.
      * specialize (IH k Hk). unfold reap at 1. destruct x; lia.
    + rewrite lookup_ge_None_2 by lia. symmetry. apply lookup_ge_None_2. rewrite length_replicate. lia.
Qed.

(** Once child 2 has aborted and the parent waits for its children, a child
    that has not entered the critical section never does, and the parent never
    gets to its end. *)
Theorem nameless_blocks n_child s s' k i : 0 ≤ n_child → rtc (step n_child) start s →
  aborted (procs s) = 1%nat → procs s !! k = Some PWait → mpc_ s = MReap i → rtc (step n_child) s s' →
  procs s' !! k = Some PWait ∧ ∃ j, mpc_ s' = MReap j.
Proof.
  intros Hn Hr Ha Hk Hm Hr'.
  assert (∀ s, inv n_child s → aborted (procs s) = 1%nat → sem s ≤ 0) as Hsem by (intros s1 [Hs1 _ _ _] Ha1; lia).
  apply (rtc_invariant (step n_child) (λ s, inv n_child s ∧ aborted (procs s) = 1%nat ∧ procs s !! k = Some PWait ∧ ∃ j, mpc_ s = MReap j)) in Hr'.
  { tauto. }
  2: { split_and!; [by apply nl_reach_inv|done|done|by exists i]. }
  clear -Hn Hsem. intros s s' (HI & Ha & Hk & j & Hj) Hs. pose proof (nl_step_inv n_child Hn _ _ HI Hs) as [HI' _].
  split; [done|]. pose proof (Hsem s HI Ha) as H0. destruct Hs as [[f w|k'] E]; simpl in E.
  - unfold main in E. rewrite Hj in E. pose proof HI as [_ _ _ Hm]. unfold main_ok in Hm. rewrite Hj in Hm.
    assert (reaped (procs s) < length (procs s))%nat as Hlt.
    { clear -Hk. revert k Hk. induction (procs s) as [|x l IH]; intros [|k] Hk; simplify_eq/=.
      - pose proof (reaped_length l). lia.
      - specialize (IH k Hk). unfold reap at 1. destruct x; lia. }
    rewrite (proj2 (Z.ltb_lt j n_child)), existsb_unreaped in E by lia. case_decide as Hw; [|done]. injection E as <-. simpl. split_and!.
    + unfold aborted in *. destruct (decide (w = 2%nat)) as [->|]; [by rewrite list_lookup_insert_eq by by eapply lookup_lt_Some|].
      by rewrite list_lookup_insert_ne.
    + destruct (decide (w = k)) as [->|]; [congruence|]. by rewrite list_lookup_insert_ne.
    + by eexists.
  - destruct (procs s !! k') as [p|] eqn:Hp; [|done]. simpl in E.
    assert (∀ q, p ≠ PWait → (k' = 2%nat → aborted [p; p; p] = 0%nat) → aborted (<[k' := q]> (procs s)) = 1%nat ∧ <[k' := q]> (procs s) !! k = Some PWait) as Hgo.
    { intros q Hne H2. split.
      - destruct (decide (k' = 2%nat)) as [->|]; [|by rewrite aborted_insert]. specialize (H2 eq_refl).
        unfold aborted in Ha, H2. rewrite Hp in Ha. simpl in H2. lia.
      - destruct (decide (k' = k)) as [->|]; [congruence|]. by rewrite list_lookup_insert_ne. }
    destruct p; simpl in E; try done.
    + unfold sem_wait in E. destruct (Z.ltb_spec 0 (sem s)); [lia|done].
    + injection E as <-. simpl. destruct (Hgo (if bool_decide (k' = 2%nat) then PZombie else PPost)); eauto.
    + injection E as <-. simpl. destruct (Hgo PExit); eauto.
    + injection E as <-. simpl. destruct (Hgo PZombie); eauto.
Qed.

(** Child 2 is forked third, gets the semaphore before child 0, and aborts. *)
Fixpoint runs_to (n_child : Z) (ls : list label) (s : state) : option state :=
  match ls with [] => Some s | l :: ls => s ← exec n_child l s; runs_to n_child ls s end.
Lemma runs_to_rtc n_child ls s s' : runs_to n_child ls s = Some s' → rtc (step n_child) s s'.
Proof.
  revert s. induction ls as [|l ls IH]; intros s; simpl; [by intros [= <-]|].
  destruct (exec n_child l s) as [s1|] eqn:E; [|done]. intros H. eapply rtc_l; [by exists l|by apply IH].
Qed.
Definition abort_first : list label := replicate 4 (RunM true 0) ++ [RunP 2; RunP 2].
Definition aborted_state : state := State 0 [PWait; PWait; PZombie] (MReap 0).
Lemma abort_first_runs : rtc (step 3) start aborted_state.
Proof. apply (runs_to_rtc 3 abort_first). vm_compute. reflexivity. Qed.

Lemma nameless_ends_witness : sn (step 2) start ∧ ∃ s, rtc (step 3) start s ∧ aborted (procs s) = 1%nat.
Proof. split; [apply nameless_ends; lia|]. exists aborted_state. split; [apply abort_first_runs|reflexivity]. Defined.
Lemma nameless_blocks_witness : ∀ s', rtc (step 3) aborted_state s' → procs s' !! 0%nat = Some PWait ∧ ∃ j, mpc_ s' = MReap j.
Proof. intros s' Hr. apply (nameless_blocks 3 aborted_state s' 0 0); [lia|apply abort_first_runs|reflexivity..|done]. Defined.
Lemma nameless_exclusion_witness : (holders (procs aborted_state) + aborted (procs aborted_state) ≤ 1)%nat ∧
  sem aborted_state = 1 - Z.of_nat (holders (procs aborted_state)) - Z.of_nat (aborted (procs aborted_state)).
Proof. apply (nameless_exclusion 3); [lia|apply abort_first_runs]. Defined.
