(* ===== verification/NamedSem.v ===== *)
(** * A semaphore with a name ([alsp/src/5.ipc/posix/posix_named_sem.c])

    Any number of processes enter a critical section under a semaphore with a name
    as often as their user tells them, and may remove the name in the end.

    A process is a control point between two calls; a step is one call, [None]
    where it blocks.  Semaphores are modelled as their calls are documented; what
    else a call answers is the label of the step.  Printing and sleeping are not
    modelled.

    The properties: at most one process is in the section of a semaphore; and once
    one has ended there, no process ever enters again. *)

From stdpp Require Import base gmap list relations strings.
From Stdlib Require Import ZArith Lia.
From S2P Require Import Prelude.

Local Open Scope Z_scope.

Inductive pc : Set :=
| POpen | POpenOld                 (* before the first and the second [sem_open] *)
| PWait (fd : nat)                 (* before [sem_wait] *)
| PIn (fd : nat)                   (* in the critical section, before [fgets] *)
| PPost (fd : nat) (e : bool)      (* before [sem_post], and the end of the loop or not *)
| PAsk                             (* before the last [fgets] *)
| PUnlink                          (* before [sem_unlink] *)
| PDone (status : Z)
| PExitIn (fd : nat)               (* has exited in the critical section *)
| PFault (e : fault).
#[export] Instance named_pc_eq_dec : EqDecision pc.
Proof. solve_decision. Defined.

(** The semaphore with the name; the values of the semaphores, which are numbered in
    the order in which they were made, and kept when the name is gone. *)
Record state := State { name : option nat; sems : list Z; procs : list pc }.
Definition goto (k : nat) (p : pc) (s : state) : state := State (name s) (sems s) (<[k := p]> (procs s)).

(** What a call answers where the model leaves it open: whether a semaphore can be
    made; the line of [fgets]. *)
Inductive answer : Set := AOpen (can : bool) | ALine (a_input : option (list Z)) | ANone.
Definition first_char (a_input : list Z) : Z := default 0 (head a_input).

(** [main].  The result of the second [sem_open] is not tested. *)
Definition main (a : answer) (k : nat) (s : state) : option state :=
  p ← procs s !! k;
  match p, a with
  | POpen, AOpen can =>
      match name s with
      | Some _ => Some (goto k POpenOld s)
      | None =>
          if can then Some (State (Some (length (sems s))) (sems s ++ [1]) (<[k := PWait (length (sems s))]> (procs s)))
          else Some (goto k (PDone 1) s)
      end
  | POpenOld, ANone => Some (goto k (match name s with Some fd => PWait fd | None => PFault BadAccess end) s)
  | PWait fd, ANone =>
      v ← sems s !! fd;
      if 0 <? v then Some (State (name s) (<[fd := v - 1]> (sems s)) (<[k := PIn fd]> (procs s))) else None
  | PIn fd, ALine None => Some (goto k (PExitIn fd) s)
  | PIn fd, ALine (Some a_input) => Some (goto k (PPost fd (first_char a_input =? 101)) s)
  | PPost fd e, ANone =>
      v ← sems s !! fd;
      Some (State (name s) (<[fd := v + 1]> (sems s)) (<[k := if e : bool then PAsk else PWait fd]> (procs s)))
  | PAsk, ALine None => Some (goto k (PDone 1) s)
  | PAsk, ALine (Some a_input) => Some (goto k (if first_char a_input =? 121 then PUnlink else PDone 0) s)
  | PUnlink, ANone => Some (State None (sems s) (<[k := PDone 0]> (procs s)))
  | _, _ => None
  end.
Definition step (s s' : state) : Prop := ∃ a k, main a k s = Some s'.
Fixpoint run (ls : list (nat * answer)) (s : state) : option state :=
  match ls with [] => Some s | (k, a) :: ls => s ← main a k s; run ls s end.
(** [n] processes, and no semaphore. *)
Definition start (n : nat) : state := State None [] (replicate n POpen).

(** ** Correctness *)

(** A process is in the critical section of a semaphore, or ended there. *)
Definition inside (fd : nat) (p : pc) : nat :=
  match p with PIn fd' | PPost fd' _ | PExitIn fd' => if decide (fd' = fd) then 1 else 0 | _ => 0 end.
Definition refers (fd : nat) (p : pc) : Prop :=
  match p with PWait fd' | PIn fd' | PPost fd' _ | PExitIn fd' => fd' = fd | _ => False end.

Record inv (s : state) : Prop := {
  iv_sem fd v : sems s !! fd = Some v → 0 ≤ v ∧ v + Z.of_nat (sum_list_with (inside fd) (procs s)) = 1;
  iv_name fd : name s = Some fd → (fd < length (sems s))%nat;
  iv_refers k p fd : procs s !! k = Some p → refers fd p → (fd < length (sems s))%nat
}.

(** A process goes on, and adds [d] to semaphore [fd]. *)
Lemma move_inv k p q fd d nm s : inv s → procs s !! k = Some p → (∀ fd', nm = Some fd' → name s = nm) →
  (∀ fd', refers fd' q → (fd' < length (sems s))%nat) →
  (∀ v, sems s !! fd = Some v → 0 ≤ v + d) →
  (∀ fd', (if decide (fd' = fd) then d else 0) + Z.of_nat (inside fd' q) = Z.of_nat (inside fd' p)) →
  inv (State nm (alter (λ v, v + d) fd (sems s)) (<[k := q]> (procs s))).
Proof.
  intros [Hs Hn Hr] Hk Hnm Hq Hd Hi. split; simpl.
  - intros fd' v Hv. pose proof (sum_insert (inside fd') _ _ _ q Hk) as Hsum. specialize (Hi fd').
    destruct (decide (fd' = fd)) as [->|Hne].
    + rewrite list_lookup_alter_eq in Hv. destruct (sems s !! fd) as [v0|] eqn:E; [|done]. injection Hv as <-.
      specialize (Hd v0 eq_refl). destruct (Hs fd v0 E). lia.
    + rewrite list_lookup_alter_ne in Hv by done. destruct (Hs fd' v Hv). lia.
  - intros fd' E. rewrite length_alter. apply Hn. rewrite <-E. by eapply Hnm.
  - intros k' p' fd' Hk' Hf. rewrite length_alter. destruct (decide (k' = k)) as [->|].
    + rewrite list_lookup_insert_eq in Hk' by by eapply lookup_lt_Some. injection Hk' as <-. by apply Hq.
    + rewrite list_lookup_insert_ne in Hk' by done. by eapply Hr.
Qed.
Lemma goto_inv k p q s nm : inv s → procs s !! k = Some p → (∀ fd', nm = Some fd' → name s = nm) →
  (∀ fd', refers fd' q → (fd' < length (sems s))%nat) → (∀ fd', inside fd' q = inside fd' p) →
  inv (State nm (sems s) (<[k := q]> (procs s))).
Proof.
  intros HI Hk Hnm Hq Hi. pose proof (move_inv k p q 0 0 nm s HI Hk Hnm Hq) as H.
  rewrite (list_alter_id _ (sems s)) in H by (intros; lia). apply H.
  - intros v Hv. destruct (iv_sem _ HI _ _ Hv). lia.
  - intros fd'. rewrite Hi. destruct (decide _); lia.
Qed.
Lemma nd_insert_alter (l : list Z) k v w : l !! k = Some v → <[k := w]> l = alter (λ x, x + (w - v)) k l.
Proof.
  intros Hk. apply list_eq. intros i. destruct (decide (i = k)) as [->|].
  - rewrite list_lookup_insert_eq by by eapply lookup_lt_Some. rewrite list_lookup_alter_eq, Hk. simpl. f_equal. lia.
  - by rewrite list_lookup_insert_ne, list_lookup_alter_ne.
Qed.

Lemma nd_step_inv s s' : inv s → step s s' → inv s'.
Proof.
  intros HI (a & k & E). unfold main in E. destruct (procs s !! k) as [p|] eqn:Hk; [|done]. simpl in E.
  pose proof (λ fd, iv_refers _ HI k p fd Hk) as Href.
  assert (∀ q, (∀ fd', refers fd' q → (fd' < length (sems s))%nat) → (∀ fd', inside fd' q = inside fd' p) → inv (goto k q s)) as Hgo.
  { intros q Hq Hi. unfold goto. by eapply goto_inv. }
  destruct p as [| |fd|fd|fd e| | |st|fd|e]; destruct a as [can|[line|]|]; try done.
  - destruct (name s) as [fd|] eqn:En; [injection E as <-; by apply Hgo|]. destruct can; injection E as <-; [|by apply Hgo].
    destruct HI as [Hs Hn Hr]. split; simpl.
    + intros fd v Hv. pose proof (sum_insert (inside fd) _ _ _ (PWait (length (sems s))) Hk) as Hsum. simpl in Hsum.
      apply lookup_app_Some in Hv as [Hv|[Hge Hv]]; [destruct (Hs fd v Hv); lia|].
      destruct (fd - length (sems s))%nat; simpl in Hv; [|done]. injection Hv as <-. split; [lia|].
      assert (sum_list_with (inside fd) (procs s) = 0%nat); [|lia]. apply sum_zero.
      intros p (k' & Hk')%list_elem_of_lookup. destruct (decide (inside fd p = 0%nat)) as [|Hne]; [done|].
      assert (fd < length (sems s))%nat; [|lia]. eapply Hr; [done|]. destruct p; simpl in *; try done; by case_decide.
    + intros fd [= <-]. rewrite length_app. simpl. lia.
    + intros k' p' fd Hk' Hf. rewrite length_app. simpl. destruct (decide (k' = k)) as [->|].
      * rewrite list_lookup_insert_eq in Hk' by by eapply lookup_lt_Some. injection Hk' as <-. simpl in Hf. lia.
      * rewrite list_lookup_insert_ne in Hk' by done. specialize (Hr _ _ _ Hk' Hf). lia.
  - injection E as <-. apply Hgo; destruct (name s) as [fd|] eqn:En; try done. simpl. intros fd' <-. by apply HI.
  - destruct (sems s !! fd) as [v|] eqn:Ev; [|done]. simpl in E. destruct (Z.ltb_spec 0 v); [|done]. injection E as <-.
    rewrite (nd_insert_alter _ _ _ _ Ev). eapply move_inv; [done|exact Hk|done|exact Href|intros w Hw; simplify_eq; lia|].
    intros fd'. simpl. repeat case_decide; simplify_eq; lia.
  - injection E as <-. by apply Hgo.
  - injection E as <-. by apply Hgo.
  - destruct (sems s !! fd) as [v|] eqn:Ev; [|done]. simpl in E. injection E as <-. destruct (iv_sem _ HI _ _ Ev).
    rewrite (nd_insert_alter _ _ _ _ Ev). eapply move_inv; [done|exact Hk|done| |intros w Hw; simplify_eq; lia|].
    + destruct e; [done|exact Href].
    + intros fd'. destruct e; simpl; repeat case_decide; simplify_eq; lia.
  - injection E as <-. apply Hgo; by destruct (_ =? 121).
  - injection E as <-. by apply Hgo.
  - injection E as <-. by eapply goto_inv.
Qed.
Lemma nd_start_inv n : inv (start n).
Proof. split; [done..|]. simpl. intros k p fd [-> _]%lookup_replicate. done. Qed.
Lemma nd_reach_inv n s : rtc step (start n) s → inv s.
Proof. intros Hr. eapply (rtc_invariant _ inv); [apply nd_step_inv|exact Hr|apply nd_start_inv]. Qed.

(** Of any number of processes at most one is in the critical section of a
    semaphore or has ended there, and the semaphore is 1 if there is none and 0
    otherwise. *)
Theorem named_exclusion n s fd v : rtc step (start n) s → sems s !! fd = Some v →
  (v = 0 ∧ (∃ k p, procs s !! k = Some p ∧ inside fd p = 1%nat) ∨ v = 1 ∧ ∀ k p, procs s !! k = Some p → inside fd p = 0%nat) ∧
  ∀ j k p q, procs s !! j = Some p → procs s !! k = Some q → inside fd p = 1%nat → inside fd q = 1%nat → j = k.
Proof.
  intros Hr Hv. destruct (iv_sem _ (nd_reach_inv n s Hr) _ _ Hv) as [H0 Hs]. split.
  - assert (∀ p, inside fd p = 0%nat ∨ inside fd p = 1%nat) as H01 by (intros []; simpl; try case_decide; auto).
    destruct (decide (Exists (λ p, inside fd p = 1%nat) (procs s))) as [He|Hne].
    + left. apply Exists_exists in He as (p & (k & Hk)%list_elem_of_lookup & Hp). pose proof (sum_lookup (inside fd) _ _ _ Hk).
      split; [lia|by exists k, p].
    + right. assert (∀ k p, procs s !! k = Some p → inside fd p = 0%nat) as Hz.
      { intros k p Hk. destruct (H01 p) as [|Hp]; [done|]. destruct Hne. apply Exists_exists. exists p. split; [by eapply list_elem_of_lookup_2|done]. }
      split; [|done]. rewrite sum_zero in Hs; [lia|]. intros p (k & Hk)%list_elem_of_lookup. by eapply Hz.
  - intros j k p q Hj Hk Hp Hq. destruct (decide (j = k)) as [|Hne]; [done|].
    pose proof (sum_two (inside fd) _ _ _ _ _ Hj Hk Hne). lia.
Qed.

Lemma exit_in_stays k fd s s' : rtc step s s' → procs s !! k = Some (PExitIn fd) → procs s' !! k = Some (PExitIn fd).
Proof.
  intros Hr. eapply (rtc_invariant step (λ s, procs s !! k = Some (PExitIn fd))); [|exact Hr]. clear. intros s s' Hk (a & k' & E).
  unfold main in E. destruct (decide (k' = k)) as [->|Hne]; [rewrite Hk in E; simpl in E; by destruct a as [|[]|]|].
  destruct (procs s !! k') as [p|]; [|done]. simpl in E.
  destruct p, a as [|[]|]; try done; repeat (case_match; try done); simplify_eq/=; try (by rewrite list_lookup_insert_ne).
  all: destruct (sems s !! _) as [v|]; [|done]; simpl in E; try case_match; simplify_eq/=; by rewrite list_lookup_insert_ne.
Qed.
(** Once a process has read the end of its input, or an error, in the critical
    section, no process is ever in it again. *)
Theorem named_eof_blocks n s s' k fd : rtc step (start n) s → procs s !! k = Some (PExitIn fd) → rtc step s s' →
  ∀ j, procs s' !! j ≠ Some (PIn fd).
Proof.
  intros Hr Hk Hr' j Hj. pose proof (exit_in_stays _ _ _ _ Hr' Hk) as Hk'.
  assert (inv s') as HI by (apply (nd_reach_inv n); by etrans).
  destruct (lookup_lt_is_Some_2 (sems s') fd (iv_refers _ HI j _ fd Hj eq_refl)) as [v Hv].
  destruct (named_exclusion n s' fd v ltac:(by etrans) Hv) as [_ Hu].
  assert (j = k) as -> by (eapply Hu; [exact Hj|exact Hk'|simpl; by rewrite decide_True..]). congruence.
Qed.

(** A process that finds the name, which is removed before it can use it. *)
Theorem attach_race_faults : ∃ s,
  run [(0%nat, AOpen true); (1%nat, AOpen true); (0%nat, ANone); (0%nat, ALine (Some (cs "e"))); (0%nat, ANone);
       (0%nat, ALine (Some (cs "y"))); (0%nat, ANone); (1%nat, ANone)] (start 2) = Some s ∧
  procs s = [PDone 0; PFault BadAccess].
Proof. eexists. split; [vm_compute; reflexivity|done]. Qed.

Lemma named_run_rtc ls s s' : run ls s = Some s' → rtc step s s'.
Proof.
  revert s. induction ls as [|[k a] ls IH]; intros s; simpl; [by intros [= <-]|].
  destruct (main a k s) as [s1|] eqn:E; [|done]. intros H. eapply rtc_l; [by exists a, k|by apply IH].
Qed.
Definition left_state : state := State (Some 0%nat) [0] [PExitIn 0; PWait 0].
Lemma left_runs : rtc step (start 2) left_state.
Proof.
  apply (named_run_rtc [(0%nat, AOpen true); (1%nat, AOpen true); (0%nat, ANone); (1%nat, ANone); (0%nat, ALine None)]). reflexivity.
Qed.
Lemma named_exclusion_witness : ∃ k p, procs left_state !! k = Some p ∧ inside 0 p = 1%nat.
Proof.
  destruct (named_exclusion 2 left_state 0 0 left_runs eq_refl) as [[[_ H]|[H _]] _]; [exact H|discriminate H].
Defined.
Lemma named_eof_blocks_witness : ∀ s' j, rtc step left_state s' → procs s' !! j ≠ Some (PIn 0).
Proof. intros s' j Hr. apply (named_eof_blocks 2 left_state s' 0 0 left_runs eq_refl Hr). Defined.
