(* ===== verification/Barrier.v ===== *)
(** * Threads at a barrier ([alsp/src/8.pthread/pthread_barrier.c])

    Five threads wait at a barrier, and [main] for all of them.  A thread is a
    control point between two calls; a step is one call, [None] where it blocks.
    Printing, sleeping and reading the clock are not modelled.

    The property: the threads pass the barrier together, and the program ends. *)

From stdpp Require Import base gmap list relations.
From Stdlib Require Import ZArith Lia.
From S2P Require Import Prelude.

Local Open Scope Z_scope.

Definition MAX_THREAD : nat := 5.
Inductive pc : Set :=
| PStart     (* before [pthread_barrier_wait] *)
| PBlocked   (* in it *)
| PWoken     (* behind it *)
| PDone.     (* has returned *)
#[export] Instance barrier_pc_eq_dec : EqDecision pc.
Proof. solve_decision. Defined.
Inductive mpc : Set :=
| MCreate    (* in the loop that creates the threads *)
| MJoin (i : nat)
| MDone.
#[export] Instance barrier_mpc_eq_dec : EqDecision mpc.
Proof. solve_decision. Defined.
(** The number of threads at the barrier; the threads by their index. *)
Record state := State { waiting : nat; threads : list pc; mp : mpc }.

(** [pthread_barrier_wait]: the last thread wakes the others. *)
Definition barrier_wait (k : nat) (s : state) : state :=
  if decide (S (waiting s) = MAX_THREAD)
  then State 0 ((λ p, if decide (p = PBlocked) then PWoken else p) <$> <[k := PWoken]> (threads s)) (mp s)
  else State (S (waiting s)) (<[k := PBlocked]> (threads s)) (mp s).
Definition start_thread (k : nat) (s : state) : option state :=
  p ← threads s !! k;
  match p with
  | PStart => Some (barrier_wait k s)
  | PBlocked => None
  | PWoken => Some (State (waiting s) (<[k := PDone]> (threads s)) (mp s))
  | PDone => None
  end.
(** [clean_thread]: the next [pthread_join]. *)
Definition clean_thread (i : nat) (s : state) : option state :=
  if decide (i < MAX_THREAD)%nat then
    if decide (threads s !! i = Some PDone) then Some (State (waiting s) (threads s) (MJoin (S i))) else None
  else Some (State (waiting s) (threads s) MDone).
(** [main]; when a thread cannot be created the process ends. *)
Definition main (create_ok : bool) (s : state) : option state :=
  match mp s with
  | MCreate =>
      if decide (length (threads s) < MAX_THREAD)%nat then
        if create_ok then Some (State (waiting s) (threads s ++ [PStart]) MCreate) else Some (State (waiting s) (threads s) MDone)
      else Some (State (waiting s) (threads s) (MJoin 0))
  | MJoin i => clean_thread i s
  | MDone => None
  end.
Inductive label : Set := RunM (create_ok : bool) | RunT (k : nat).
Definition exec (l : label) (s : state) : option state :=
  if decide (mp s = MDone) then None
  else match l with RunM create_ok => main create_ok s | RunT k => start_thread k s end.
Definition step (s s' : state) : Prop := ∃ l, exec l s = Some s'.
Definition start : state := State 0 [] MCreate.

(** ** Correctness *)

Definition blocked (p : pc) : nat := match p with PBlocked => 1 | _ => 0 end.
Definition left_ (p : pc) : nat := match p with PStart => 3 | PBlocked => 2 | PWoken => 1 | PDone => 0 end.
Definition before (p : pc) : Prop := p = PStart ∨ p = PBlocked.
Definition behind (p : pc) : Prop := p = PWoken ∨ p = PDone.

(** All threads are before the barrier, and too few of them have arrived; or all
    are behind it. *)
Record inv (s : state) : Prop := {
  iv_length : (length (threads s) ≤ MAX_THREAD)%nat;
  iv_phase :
    (Forall before (threads s) ∧ waiting s = sum_list_with blocked (threads s) ∧ (waiting s < MAX_THREAD)%nat) ∨
    (Forall behind (threads s) ∧ waiting s = 0%nat ∧ length (threads s) = MAX_THREAD);
  iv_main : match mp s with
            | MCreate => True
            | MJoin i => length (threads s) = MAX_THREAD ∧ (i ≤ MAX_THREAD)%nat ∧ ∀ k, (k < i)%nat → threads s !! k = Some PDone
            | MDone => (length (threads s) < MAX_THREAD)%nat ∨ threads s = replicate MAX_THREAD PDone
            end
}.
Definition mleft (s : state) : nat :=
  match mp s with MCreate => 4 * (MAX_THREAD - length (threads s)) + 8 | MJoin i => MAX_THREAD - i + 1 | MDone => 0 end.
Definition left_over (s : state) : nat := mleft s + sum_list_with left_ (threads s).

Lemma all_blocked l k : Forall before l → l !! k = Some PStart → S (sum_list_with blocked l) = length l →
  (λ p, if decide (p = PBlocked) then PWoken else p) <$> <[k := PWoken]> l = replicate (length l) PWoken.
Proof.
  intros Hb Hk Hs. apply list_eq. intros i. rewrite list_lookup_fmap. destruct (decide (i = k)) as [->|Hne].
  - pose proof (lookup_lt_Some _ _ _ Hk). rewrite list_lookup_insert_eq by done. rewrite lookup_replicate_2 by done. done.
  - rewrite list_lookup_insert_ne by done. destruct (decide (i < length l)%nat) as [Hi|Hi].
    + rewrite lookup_replicate_2 by done. destruct (lookup_lt_is_Some_2 _ _ Hi) as [p Hp]. rewrite Hp. simpl.
      destruct (Forall_lookup_1 _ _ _ _ Hb Hp) as [->| ->]; [|done]. exfalso.
      assert (∀ (l : list pc) i, l !! i = Some PStart → (sum_list_with blocked l < length l)%nat) as Hlt.
      { clear. induction l as [|x l IH]; intros [|i] Hi; simplify_eq/=.
        - assert (∀ l, (sum_list_with blocked l ≤ length l)%nat) as Hle
            by (clear; induction l as [|x l IH]; simpl; [lia|destruct x; simpl; lia]). pose proof (Hle l). lia.
        - specialize (IH i Hi). destruct x; simpl; lia. }
      clear Hb. revert i k Hk Hp Hne Hs Hi. induction l as [|x l IH]; intros [|i] [|k] Hk Hp Hne Hs Hi; simplify_eq/=; try done.
      * pose proof (Hlt _ _ Hk). lia.
      * pose proof (Hlt _ _ Hp). lia.
      * destruct x; simpl in *; [pose proof (Hlt _ _ Hk); lia| |pose proof (Hlt _ _ Hk); lia..].
        eapply (IH i k); try done; lia.
    + rewrite lookup_ge_None_2 by lia. simpl. symmetry. apply lookup_ge_None_2. rewrite length_replicate. lia.
Qed.

Lemma thread_step k s s' : inv s → mp s ≠ MDone → start_thread k s = Some s' → inv s' ∧ (left_over s' < left_over s)%nat.
Proof.
  intros [Hl Hp Hm] Hnd E. unfold start_thread in E. destruct (threads s !! k) as [p|] eqn:Hk; [|done]. simpl in E.
  destruct p; try done; injection E as <-.
  - destruct Hp as [(Hb & Hw & Hlt)|(Hb & _)]; [|by destruct (Forall_lookup_1 _ _ _ _ Hb Hk)].
    assert (∀ i, mp s ≠ MJoin (S i)) as Hj.
    { intros i Ej. rewrite Ej in Hm. destruct Hm as (_ & _ & Hd). specialize (Hd 0%nat ltac:(lia)).
      destruct (Forall_lookup_1 _ _ _ _ Hb Hd) as [?|?]; done. }
    unfold barrier_wait. case_decide as Hall.
    + assert (S (sum_list_with blocked (threads s)) = length (threads s)) as Hsum.
      { assert (∀ l k, l !! k = Some PStart → (sum_list_with blocked l < length l)%nat) as H.
        { clear. assert (∀ l, (sum_list_with blocked l ≤ length l)%nat) as Hle
            by (induction l as [|x l IH]; simpl; [lia|destruct x; simpl; lia]).
          induction l as [|x l IH]; intros [|i] Hi; simplify_eq/=; [pose proof (Hle l); lia|].
          specialize (IH i Hi). destruct x; simpl; lia. }
        specialize (H _ _ Hk). lia. }
      rewrite (all_blocked _ _ Hb Hk Hsum). split; [split; simpl|].
      * by rewrite length_replicate.
      * right. split_and!; [by apply Forall_replicate; left|done|rewrite length_replicate; lia].
      * destruct (mp s) as [|[|i]|] eqn:Em; [done| |by destruct (Hj i)|done]. split_and!; [rewrite length_replicate; lia|lia|intros; lia].
      * unfold left_over, mleft. simpl. rewrite length_replicate.
        assert (sum_list_with left_ (replicate (length (threads s)) PWoken) < sum_list_with left_ (threads s))%nat; [|lia].
        clear -Hk Hb. revert k Hk. induction Hb as [|x l Hx Hb IH]; intros [|k] Hk; simplify_eq/=.
        -- assert (sum_list_with left_ (replicate (length l) PWoken) ≤ sum_list_with left_ l)%nat; [|lia].
           clear -Hb. induction Hb as [|x l Hx Hb IH]; [done|]. simpl. destruct Hx as [->| ->]; simpl; lia.
        -- specialize (IH k Hk). destruct Hx as [->| ->]; simpl; lia.
    + pose proof (sum_insert blocked _ _ _ PBlocked Hk) as Hs. pose proof (sum_insert left_ _ _ _ PBlocked Hk) as Hlf. simpl in Hs, Hlf.
      split; [split; simpl|].
      * by rewrite length_insert.
      * left. split_and!; [by apply Forall_insert; [|right]|lia|lia].
      * destruct (mp s) as [|[|i]|] eqn:Em; [done| |by destruct (Hj i)|done]. rewrite length_insert. split_and!; [tauto|lia|intros; lia].
      * unfold left_over, mleft. simpl. rewrite length_insert. lia.
  - destruct Hp as [(Hb & _)|(Hb & Hw & Hlen)]; [by destruct (Forall_lookup_1 _ _ _ _ Hb Hk)|].
    pose proof (sum_insert left_ _ _ _ PDone Hk) as Hlf. simpl in Hlf. split; [split; simpl|].
    + by rewrite length_insert.
    + right. split_and!; [by apply Forall_insert; [|right]|done|by rewrite length_insert].
    + destruct (mp s) as [|i|]; [done| |done]. rewrite length_insert. destruct Hm as (? & ? & Hd). split_and!; [done..|].
      intros j Hj. destruct (decide (j = k)) as [->|]; [by rewrite list_lookup_insert_eq by by eapply lookup_lt_Some|].
      rewrite list_lookup_insert_ne by done. by apply Hd.
    + unfold left_over, mleft. simpl. rewrite length_insert. lia.
Qed.

Lemma br_main_step c s s' : inv s → main c s = Some s' → inv s' ∧ (left_over s' < left_over s)%nat.
Proof.
  intros [Hl Hp Hm] E. unfold main, clean_thread in E. unfold left_over, mleft. destruct (mp s) as [|i|] eqn:Em; [| |done].
  - case_decide as Hlt.
    + destruct c; injection E as <-; simpl.
      * split; [split; simpl|rewrite length_app, sum_list_with_app; simpl; lia].
        -- rewrite length_app. simpl. lia.
        -- destruct Hp as [(Hb & Hw & Hlt')|(_ & _ & ?)]; [|lia]. left. split_and!; [|by rewrite sum_list_with_app; simpl; lia|done].
           apply Forall_app. split; [done|]. constructor; [by left|done].
        -- done.
      * split; [split; simpl; [done..|by left]|lia].
    + injection E as <-; simpl. split; [split; simpl; [done..|]|unfold MAX_THREAD in *; lia]. split_and!; [lia|lia|intros; lia].
  - destruct Hm as (Hlen & Hi & Hd). destruct (decide (i < MAX_THREAD)%nat) as [Hlt|Hlt].
    + case_decide as Hk; [|done]. injection E as <-. simpl. split; [split; simpl; [done..|]|unfold MAX_THREAD in *; lia].
      split_and!; [done|lia|]. intros k Hki. destruct (decide (k = i)) as [->|]; [done|]. apply Hd. lia.
    + injection E as <-. cbn [threads mp waiting]. split; [split; cbn [threads mp waiting]; [done..|]|lia]. right. apply list_eq. intros k.
      destruct (decide (k < MAX_THREAD)%nat); [by rewrite Hd, lookup_replicate_2 by lia|].
      rewrite lookup_ge_None_2 by lia. symmetry. apply lookup_ge_None_2. rewrite length_replicate. lia.
Qed.
Lemma br_step_inv s s' : inv s → step s s' → inv s' ∧ (left_over s' < left_over s)%nat.
Proof.
  intros HI [l E]. unfold exec in E. case_decide as Hd; [done|]. destruct l; [by eapply br_main_step|by eapply thread_step].
Qed.
Lemma br_reach_inv s : rtc step start s → inv s.
Proof.
  intros Hr. eapply (rtc_invariant _ inv); [|exact Hr|].
  - intros s1 s2 HI Hs. by apply (br_step_inv _ _ HI Hs).
  - split; simpl; [lia| |done]. left. split_and!; [done|done|unfold MAX_THREAD; lia].
Qed.

(** No thread is behind the barrier unless all five are there, with none
    before it; every run of the program is finite, and stops only when [main] has
    returned: with all threads ended, unless one of them could not be created. *)
Theorem barrier_completes :
  sn step start ∧
  ∀ s, rtc step start s →
    (∀ k p, threads s !! k = Some p → behind p → length (threads s) = MAX_THREAD ∧ Forall behind (threads s)) ∧
    (nf step s → mp s = MDone ∧ ((length (threads s) < MAX_THREAD)%nat ∨ threads s = replicate MAX_THREAD PDone)).
Proof.
  split.
  { eapply (sn_measure _ inv left_over); [apply br_step_inv|]. apply (br_reach_inv start). apply rtc_refl. }
  intros s Hr. pose proof (br_reach_inv s Hr) as [Hl Hp Hm]. split.
  { intros k p Hk Hpb. destruct Hp as [(Hb & _)|(Hb & _ & ?)]; [|done].
    exfalso. destruct (Forall_lookup_1 _ _ _ _ Hb Hk), Hpb; congruence. }
  intros Hnf. assert (mp s = MDone) as Hd; [|split; [done|by rewrite Hd in Hm]].
  destruct (decide (mp s = MDone)) as [|Hnd]; [done|]. exfalso.
  assert (∀ l, exec l s = None) as Hno.
  { intros l. destruct (exec l s) as [s'|] eqn:E; [|done]. destruct Hnf. exists s'. by exists l. }
  unfold exec in Hno. assert (∀ k, start_thread k s = None) as Ht.
  { intros k. specialize (Hno (RunT k)). by rewrite decide_False in Hno. }
  assert (∀ c, main c s = None) as Hmain.
  { intros c. specialize (Hno (RunM c)). by rewrite decide_False in Hno. }
  clear Hno. unfold main in Hmain. destruct (mp s) as [|i|] eqn:Em; [|destruct Hm as (Hlen & Hi & Hdone)|done].
  { specialize (Hmain true). by case_decide. }
  specialize (Hmain true). unfold clean_thread in Hmain. case_decide as Hlt; [|done].
  assert (∀ k p, threads s !! k = Some p → p = PBlocked ∨ p = PDone) as Hbd.
  { intros k p Hk. specialize (Ht k). unfold start_thread in Ht. rewrite Hk in Ht. destruct p; simpl in Ht; auto; done. }
  destruct (lookup_lt_is_Some_2 (threads s) i ltac:(lia)) as [p Hk]. case_decide as Hpd; [done|].
  destruct (Hbd i p Hk) as [->| ->]; [|done].
  destruct Hp as [(Hb & Hw & Hlt')|(Hb & _ & _)]; [|by destruct (Forall_lookup_1 _ _ _ _ Hb Hk)].
  assert (sum_list_with blocked (threads s) = length (threads s)); [|lia].
  assert (Forall (λ p, p = PBlocked) (threads s)) as Hall.
  { apply Forall_forall. intros q (j & Hj)%list_elem_of_lookup. destruct (Hbd j q Hj) as [|Hq]; [done|].
    destruct (Forall_lookup_1 _ _ _ _ Hb Hj); congruence. }
  clear -Hall. induction Hall as [|x l -> Hall IH]; simpl; [done|]. by rewrite IH.
Qed.

(** A run: the five threads arrive, and the first returns. *)
Fixpoint barrier_runs (ls : list label) (s : state) : option state :=
  match ls with [] => Some s | l :: ls => s ← exec l s; barrier_runs ls s end.
Lemma barrier_runs_rtc ls s s' : barrier_runs ls s = Some s' → rtc step s s'.
Proof.
  revert s. induction ls as [|l ls IH]; intros s; simpl; [by intros [= <-]|].
  destruct (exec l s) as [s1|] eqn:E; [|done]. intros H. eapply rtc_l; [by exists l|by apply IH].
Qed.
Definition one_returns : state := State 0 [PDone; PWoken; PWoken; PWoken; PWoken] (MJoin 0).
Lemma barrier_completes_witness : sn step start ∧ Forall behind (threads one_returns).
Proof.
  destruct barrier_completes as [Hsn H]. split; [exact Hsn|].
  assert (rtc step start one_returns) as Hr.
  { apply (barrier_runs_rtc (replicate 6 (RunM true) ++ [RunT 3; RunT 1; RunT 0; RunT 2; RunT 4; RunT 0])). vm_compute. reflexivity. }
  destruct (H one_returns Hr) as [Hb _]. apply (Hb 0%nat PDone eq_refl). by right.
Defined.
