(* ===== verification/OobServer.v ===== *)
(** * A server that reads urgent data
      ([alsp/src/6.io_interface/socket/in_stream_serv_OOB.c])

    The server forks [MAX_POOL] children.  A child collects what a client sends in
    an array of 255 characters, and prints it when the client marks a place in the
    stream with an urgent octet.  The array and the number of octets in it belong
    to the child, and are kept from one connection to the next.

    A child makes one system call in a step ([start_child]); what the call answers
    is the label of the step.  [lines] has what was printed; auxiliary are [got],
    all octets received, [blocks], those received for each line, and [since],
    those received after the last line.  Messages about errors are not
    modelled.

    The properties: as long as [recv] does not fail, a line holds what was received
    up to the urgent octet, and nothing that is received is lost, within or across
    connections; and once the array, which is not emptied when a connection ends,
    is full, every later connection is closed unread. *)

From stdpp Require Import base gmap list relations strings.
From Stdlib Require Import ZArith Lia.
From S2P Require Import Prelude Arrays FileLines.

Local Open Scope Z_scope.

Definition MAX_POOL : nat := 3.
(** The size of [buf_recv]. *)
Definition BUF_SIZE : nat := 255.

Inductive cpc : Set :=
| PAccept                (* before [accept] *)
| PMark (cfd : Z)        (* before [ioctl] with [SIOCATMARK] *)
| PRecvOob (cfd : Z)     (* before [recv] with [MSG_OOB] *)
| PRecv (cfd : Z).       (* before the other [recv] *)
#[export] Instance oob_cpc_eq_dec : EqDecision cpc.
Proof. solve_decision. Defined.

Record child := Child {
  n_tot_recv : Z; buf_recv : arr; flag_atmark : option bool; at_ : cpc; lines : list (list Z);
  got : list Z; blocks : list (list Z); since : list Z
}.
Definition new_child : child := Child 0 (unset BUF_SIZE) None PAccept [] [] [] [].
Definition goto (p : cpc) (s : child) : child :=
  Child (n_tot_recv s) (buf_recv s) (flag_atmark s) p (lines s) (got s) (blocks s) (since s).

(** What a call answers; [ANone] is -1. *)
Inductive answer : Set := AAccept (cfd : Z) | AMark (atmark : bool) | AData (d : list Z) | ANone.

(** [sizeof (buf_recv) - n_tot_recv], of type [size_t], is the most that [recv]
    writes. *)
Definition room (n : Z) : Z := u64 (Z.of_nat BUF_SIZE - n).
Fixpoint write (a : arr) (i : Z) (d : list Z) : res arr :=
  match d with [] => Ok a | x :: d => a ← wr a i x; write a (i + 1) d end.
(** [printf] of at most [n] characters of a string; a negative number is no
    bound. *)
Fixpoint chars (n : nat) (a : arr) : res (list Z) :=
  match n, a with
  | O, _ => Ok []
  | S n, Some c :: a => if c =? 0 then Ok [] else l ← chars n a; Ok (c :: l)
  | S _, _ => Err BadAccess
  end.

(** The answers of [recv] with room for [n]: an urgent octet, or any data; 0 at the
    end of the stream or when there is no room. *)
Definition recv_answers (oob : bool) (n : Z) (d : list Z) : bool :=
  bool_decide (Z.of_nat (length d) ≤ (if oob then Z.min 1 n else n)).

(** The end of the step that reads urgent data. *)
Definition print_line (cfd : Z) (d : list Z) (s : child) : res child :=
  buf ← write (buf_recv s) (n_tot_recv s) d;
  n ← ck (n_tot_recv s + 1);
  line ← (if n <? 0 then c_string buf else chars (Z.to_nat n) buf);
  Ok (Child 0 buf (flag_atmark s) (PMark cfd) (lines s ++ [line]) (got s ++ d) (blocks s ++ [since s ++ d]) []).
Definition recv_more (cfd : Z) (d : list Z) (s : child) : res child :=
  buf ← write (buf_recv s) (n_tot_recv s) d;
  n ← ck (n_tot_recv s + Z.of_nat (length d));
  Ok (Child n buf (flag_atmark s) (if bool_decide (d = []) then PAccept else PMark cfd) (lines s)
        (got s ++ d) (blocks s) (since s ++ d)).

(** [start_child]; [None] where the call cannot answer this.  The mark is tested
    even if [ioctl] failed and set nothing; a failed [recv] adds -1 to the number
    of octets. *)
Definition start_child (a : answer) (s : child) : option (res child) :=
  match at_ s, a with
  | PAccept, AAccept cfd => Some (Ok (goto (PMark cfd) s))
  | PAccept, ANone => Some (Ok s)
  | PMark cfd, AMark m =>
      Some (Ok (Child (n_tot_recv s) (buf_recv s) (Some m) (if m then PRecvOob cfd else PRecv cfd)
                  (lines s) (got s) (blocks s) (since s)))
  | PMark cfd, ANone =>
      Some (m ← res_of BadAccess (flag_atmark s); Ok (goto (if m : bool then PRecvOob cfd else PRecv cfd) s))
  | PRecvOob cfd, AData d => if recv_answers true (room (n_tot_recv s)) d then Some (print_line cfd d s) else None
  | PRecvOob cfd, ANone => Some (Ok (goto (PRecv cfd) s))
  | PRecv cfd, AData d => if recv_answers false (room (n_tot_recv s)) d then Some (recv_more cfd d s) else None
  | PRecv cfd, ANone =>
      Some (n ← ck (n_tot_recv s - 1);
            Ok (Child n (buf_recv s) (flag_atmark s) (PMark cfd) (lines s) (got s) (blocks s) (since s)))
  | _, _ => None
  end.

Inductive reachable : child → Prop :=
| reach_new : reachable new_child
| reach_step a s s' : reachable s → start_child a s = Some (Ok s') → reachable s'.
Fixpoint run (ls : list answer) (s : child) : option (res child) :=
  match ls with
  | [] => Some (Ok s)
  | a :: ls => match start_child a s with Some (Ok s') => run ls s' | r => r end
  end.

(** [main]: the children with their index, from the results of [fork]. *)
Fixpoint fork_loop (oks : list bool) (i : nat) : list (nat * child) :=
  match oks with
  | [] => []
  | ok :: oks => (if ok : bool then [(i, new_child)] else []) ++ fork_loop oks (S i)
  end.
Definition oob_main (argc : Z) (socket_ok bind_ok : bool) (oks : list bool) : res (list (nat * child)) :=
  if 2 <? argc then Err (Exited 1)
  else if negb socket_ok then Err (Exited 1)
  else if negb bind_ok then Err (Exited 1)
  else Ok (fork_loop (take MAX_POOL oks) 0).

(** ** Correctness *)

(** States reached without a failed [recv] of ordinary data, and without one of
    urgent data that gives nothing. *)
Definition clean_answer (a : answer) (s : child) : Prop :=
  match at_ s, a with PRecv _, ANone => False | PRecvOob _, AData d => d ≠ [] | _, _ => True end.
Inductive clean : child → Prop :=
| clean_new : clean new_child
| clean_step a s s' : clean s → clean_answer a s → start_child a s = Some (Ok s') → clean s'.

Record inv (s : child) : Prop := {
  iv_buf : ∃ l, buf_recv s = ints (since s) ++ l ∧ length (buf_recv s) = BUF_SIZE;
  iv_n : n_tot_recv s = Z.of_nat (length (since s));
  iv_got : got s = concat (blocks s) ++ since s;
  iv_lines : lines s = str <$> blocks s
}.

Lemma write_ints a l d : (length d ≤ length l)%nat →
  write (ints a ++ l) (Z.of_nat (length a)) d = Ok (ints (a ++ d) ++ drop (length d) l).
Proof.
  revert a l. induction d as [|x d IH]; intros a l Hl; [by rewrite app_nil_r|]. destruct l as [|y l]; [simpl in Hl; lia|].
  assert (wr (ints a ++ y :: l) (Z.of_nat (length a)) x = Ok (ints (a ++ [x]) ++ l)) as E.
  { unfold wr. rewrite (proj2 (Z.leb_le 0 _)), (proj2 (Z.ltb_lt _ _)) by (rewrite ?length_app, ?length_ints; simpl; lia). simpl andb. cbv iota. f_equal.
    rewrite Nat2Z.id, insert_app_r_alt by by rewrite length_ints. rewrite length_ints, Nat.sub_diag. simpl. by rewrite ints_app, <-(assoc_L app). }
  cbn [write]. rewrite E. cbn [mbind res_bind]. specialize (IH (a ++ [x]) l). rewrite length_app in IH. simpl in IH, Hl.
  replace (Z.of_nat (length a) + 1) with (Z.of_nat (length a + 1)) by lia. rewrite IH by lia. by rewrite <-(assoc_L app).
Qed.
Lemma chars_ints t l : chars (length t) (ints t ++ l) = Ok (str t).
Proof.
  induction t as [|c t IH]; [done|]. change (ints (c :: t) ++ l) with (Some c :: (ints t ++ l)).
  cbn [length chars str]. destruct (c =? 0); [done|]. by rewrite IH.
Qed.

Lemma room_ok n : 0 ≤ n ≤ 255 → room n = 255 - n.
Proof. intros Hn. unfold room, u64. apply Z.mod_small. unfold BUF_SIZE. lia. Qed.

(** Data that fits is written behind what is there. *)
Lemma oob_write_ok s d : inv s → Z.of_nat (length d) ≤ room (n_tot_recv s) →
  Z.of_nat (length (since s ++ d)) ≤ 255 ∧
  ∃ l, write (buf_recv s) (n_tot_recv s) d = Ok (ints (since s ++ d) ++ l) ∧ length (ints (since s ++ d) ++ l) = BUF_SIZE.
Proof.
  intros [(l & Hb & Hl) Hn _ _] Hd. rewrite Hb, length_app, length_ints in Hl. unfold BUF_SIZE in Hl.
  rewrite room_ok in Hd by lia. rewrite length_app. split; [lia|]. rewrite Hn, Hb. exists (drop (length d) l).
  split; [apply write_ints; lia|]. rewrite length_app, length_ints, length_app, length_drop. unfold BUF_SIZE. lia.
Qed.

Lemma oob_print_ok cfd d s : inv s → d ≠ [] → recv_answers true (room (n_tot_recv s)) d = true →
  ∃ s', print_line cfd d s = Ok s' ∧ inv s' ∧ lines s' = lines s ++ [str (since s ++ d)] ∧ blocks s' = blocks s ++ [since s ++ d].
Proof.
  intros HI Hne Ha%bool_decide_eq_true. destruct (oob_write_ok s d HI ltac:(lia)) as (Hle & l & Hw & Hl). pose proof HI as [_ Hn Hg Hli].
  assert (length d = 1%nat) as Hd1 by (destruct d as [|x [|y d]]; simpl in *; [done|done|lia]).
  unfold print_line. rewrite Hw. cbn [mbind res_bind]. rewrite length_app in Hle.
  rewrite ck_ok by (unfold is_int, INT_MIN, INT_MAX; lia). cbn [mbind res_bind]. rewrite (proj2 (Z.ltb_ge _ 0)) by lia.
  replace (Z.to_nat (n_tot_recv s + 1)) with (length (since s ++ d)) by (rewrite length_app; lia). rewrite chars_ints. cbn [mbind res_bind].
  eexists. split; [done|]. split; [|done]. split; simpl.
  - eexists. split; [reflexivity|exact Hl].
  - done.
  - rewrite Hg, concat_app. simpl. by rewrite !app_nil_r, (assoc_L app).
  - by rewrite Hli, fmap_app.
Qed.
Lemma more_ok cfd d s : inv s → recv_answers false (room (n_tot_recv s)) d = true → ∃ s', recv_more cfd d s = Ok s' ∧ inv s'.
Proof.
  intros HI Ha%bool_decide_eq_true. destruct (oob_write_ok s d HI Ha) as (Hle & l & Hw & Hl). pose proof HI as [_ Hn Hg Hli].
  unfold recv_more. rewrite Hw. cbn [mbind res_bind]. rewrite length_app in Hle.
  rewrite ck_ok by (unfold is_int, INT_MIN, INT_MAX; lia). cbn [mbind res_bind]. eexists. split; [done|]. split; simpl.
  - by exists l.
  - rewrite length_app. lia.
  - by rewrite Hg, (assoc_L app).
  - done.
Qed.

Lemma oob_step_inv a s s' : inv s → clean_answer a s → start_child a s = Some (Ok s') → inv s'.
Proof.
  intros HI Hc E. unfold start_child, clean_answer in *. pose proof HI as [Hb Hn Hg Hl].
  destruct (at_ s) as [|cfd|cfd|cfd], a as [cfd'|m|d|]; try done.
  - injection E as <-. by split.
  - by injection E as <-.
  - injection E as <-. by split.
  - destruct (flag_atmark s); [|done]. injection E as <-. by split.
  - destruct (recv_answers _ _ d) eqn:Ea; [|done]. destruct (oob_print_ok cfd d s HI Hc Ea) as (s1 & E1 & HI1 & _). rewrite E1 in E. by injection E as <-.
  - injection E as <-. by split.
  - destruct (recv_answers _ _ d) eqn:Ea; [|done]. destruct (more_ok cfd d s HI Ea) as (s1 & E1 & HI1). rewrite E1 in E. by injection E as <-.
Qed.
Lemma clean_inv s : clean s → inv s.
Proof.
  induction 1 as [|a s s' _ IH Hc E]; [|by eapply oob_step_inv]. split; [|done..]. by exists (unset BUF_SIZE).
Qed.

(** As long as no [recv] fails or gives no urgent octet: every line is what was
    received, in whatever connections, after the urgent octet before it up to and
    with the one that ends it; what was received is in the lines or in the array,
    which it fits; and a step faults only if the first [ioctl] fails. *)
Theorem oob_lines s : clean s →
  lines s = str <$> blocks s ∧ got s = concat (blocks s) ++ since s ∧
  n_tot_recv s = Z.of_nat (length (since s)) ∧ 0 ≤ n_tot_recv s ≤ 255 ∧ take (length (since s)) (buf_recv s) = ints (since s) ∧
  ∀ a e, clean_answer a s → start_child a s = Some (Err e) → flag_atmark s = None ∧ a = ANone ∧ e = BadAccess.
Proof.
  intros Hr. pose proof (clean_inv s Hr) as HI. pose proof HI as [(l & Hb & Hlen) Hn Hg Hl]. split_and!; [done..| | | |].
  - lia.
  - rewrite Hb, length_app, length_ints in Hlen. unfold BUF_SIZE in Hlen. lia.
  - rewrite Hb, take_app_le by by rewrite length_ints. apply take_ge. by rewrite length_ints.
  - intros a e Hc E. unfold start_child, clean_answer in *.
    destruct (at_ s) as [|cfd|cfd|cfd], a as [cfd'|m|d|]; try done.
    + destruct (flag_atmark s) eqn:Ef; [done|]. by injection E as <-.
    + destruct (recv_answers _ _ d) eqn:Ea; [|done]. destruct (oob_print_ok cfd d s HI Hc Ea) as (s1 & E1 & _). by rewrite E1 in E.
    + destruct (recv_answers _ _ d) eqn:Ea; [|done]. destruct (more_ok cfd d s HI Ea) as (s1 & E1 & _). by rewrite E1 in E.
Qed.

(** When the array is full a [recv] of ordinary data gives nothing: the child
    takes its client to be gone, closes the connection, and meets the next one
    with the array still full. *)
Theorem full_buffer_closes s cfd d r : n_tot_recv s = 255 → at_ s = PRecv cfd → start_child (AData d) s = Some r →
  d = [] ∧ ∃ s', r = Ok s' ∧ at_ s' = PAccept ∧ n_tot_recv s' = 255 ∧ got s' = got s.
Proof.
  intros Hn Hp E. unfold start_child in E. rewrite Hp, Hn, room_ok in E by lia. unfold recv_answers in E.
  case_bool_decide as Hd; [|done]. destruct d as [|x d]; [|simpl in Hd; lia]. split; [done|]. injection E as <-.
  unfold recv_more. rewrite Hn. simpl. eexists. split; [done|]. split; [done|]. split; [done|]. simpl. by rewrite app_nil_r.
Qed.

(** An urgent octet then has no room, and the child prints past the array; and
    after a [recv] that failed, data is written before the array. *)
Lemma chars_overreads t n : 0 ∉ t → (length t < n)%nat → chars n (ints t) = Err BadAccess.
Proof.
  revert n. induction t as [|c t IH]; intros [|n] Ht Hn; [simpl in Hn; lia|done|simpl in Hn; lia|].
  change (ints (c :: t)) with (Some c :: ints t). cbn [length chars] in *.
  apply not_elem_of_cons in Ht as [Hc Ht]. rewrite (proj2 (Z.eqb_neq c 0)) by congruence. by rewrite IH by (done || lia).
Qed.
Theorem full_buffer_overreads s cfd : clean s → n_tot_recv s = 255 → 0 ∉ since s → at_ s = PRecvOob cfd →
  start_child (AData []) s = Some (Err BadAccess).
Proof.
  intros Hr Hn H0 Hp. destruct (clean_inv s Hr) as [(l & Hb & Hlen) Hn' _ _].
  rewrite Hb, length_app, length_ints in Hlen. unfold BUF_SIZE in Hlen. destruct l; [|simpl in Hlen; lia]. rewrite app_nil_r in Hb.
  assert (chars (Z.to_nat (255 + 1)) (buf_recv s) = Err BadAccess) as Hc by (rewrite Hb; apply chars_overreads; [done|lia]).
  unfold start_child. rewrite Hp, Hn, room_ok by lia. unfold recv_answers. rewrite bool_decide_true by (simpl; lia).
  unfold print_line. rewrite Hn. cbn [write mbind res_bind]. rewrite ck_ok by (unfold is_int, INT_MIN, INT_MAX; lia).
  cbn [mbind res_bind]. rewrite (proj2 (Z.ltb_ge _ 0)) by lia. by rewrite Hc.
Qed.
Theorem failed_recv_underflows :
  run [AAccept 4; AMark false; ANone; AMark false; AData [65]] new_child = Some (Err BadAccess).
Proof. vm_compute. reflexivity. Qed.

(** A run over two connections: what the first left in the array is printed with
    the data of the second. *)
Definition two_clients : list answer :=
  [AAccept 4; AMark false; AData (cs "ab"); AMark false; AData []; AAccept 5; AMark false; AData (cs "c"); AMark true; AData (cs "!")].
Fixpoint clean_run (ls : list answer) (s : child) : Prop :=
  match ls with
  | [] => True
  | a :: ls => clean_answer a s ∧ match start_child a s with Some (Ok s') => clean_run ls s' | _ => False end
  end.
Lemma clean_run_clean ls s s' : clean s → clean_run ls s → run ls s = Some (Ok s') → clean s'.
Proof.
  revert s. induction ls as [|a ls IH]; intros s Hs; simpl; [by intros _ [= <-]|]. intros [Ha Hc] E.
  destruct (start_child a s) as [[s1|]|] eqn:E1; [|done|done]. eapply IH; [|exact Hc|exact E]. by eapply clean_step.
Qed.
Lemma oob_lines_witness : ∃ s, run two_clients new_child = Some (Ok s) ∧ lines s = [cs "abc!"] ∧ lines s = str <$> blocks s.
Proof.
  assert (∃ s, run two_clients new_child = Some (Ok s)) as [s E] by (eexists; vm_compute; reflexivity). exists s. split; [exact E|]. split.
  - vm_compute in E. by injection E as <-.
  - apply (oob_lines s). eapply clean_run_clean; [constructor| |exact E]. vm_compute. repeat split; discriminate.
Defined.
Definition full_state : child := Child 255 (ints (replicate BUF_SIZE 65)) (Some false) (PRecv 7) [] (replicate BUF_SIZE 65) [] (replicate BUF_SIZE 65).
Lemma full_buffer_closes_witness : ∀ r, start_child (AData []) full_state = Some r → ∃ s', r = Ok s' ∧ at_ s' = PAccept.
Proof.
  intros r E. destruct (full_buffer_closes full_state 7 [] r eq_refl eq_refl E) as [_ (s' & Hr & Ha & _)]. exists s'. split; [exact Hr|exact Ha].
Defined.
